(* ===== verification/_CoqProject ===== *)
-Q . S2P
Prelude.v
PyVal.v
FloatOrder.v
Json.v
Sha256.v
Sha1.v
PyText.v
JsonParse.v
JsonIndent.v
Ledger.v
Gate.v
McpGate.v
SupplyChainRisk.v
SupplyChainPipeline.v
EvidencePlane.v
OmniriskAllocation.v
PortfolioBinding.v
MeshTopology.v
TriadRotation.v
Regex.v
Lazerus.v
MacroTriad.v
Gf256.v
HolographicIda.v
StorageResilience.v
MeshThreat.v
LeafPropagation.v
ManifestStore.v
MeshNamespace.v
MeshSync.v
Continuity.v
ControlLoop.v
RateLimiter.v
DurableQueue.v
MirrorDrift.v
GossipBeacon.v
PropagationEngine.v
Cascade.v
Cycles.v
Propagate.v
Kernel.v
Envelope.v
Policy.v
SelfHeal.v
Executors.v
PrOpener.v
Telemetry.v
Scheduler.v
Suppression.v
Responder.v
SessionQuarantine.v
Webhooks.v
Effects.v
DevOps.v
PropagationHandler.v
AutoMerge.v
Workspace.v
Runner.v
RunnerTasks.v
GraphOutput.v
MeshFsStore.v
Fnmatch.v
SvfRegistry.v
SvfRunner.v
SvfReceipts.v
SvfPaths.v
SvfIssue.v
