(* ===== verification/Prelude.v ===== *)
(** * Sociosphere: verification of the platform workspace controller

    The workspace controller keeps a fleet of repositories, their dependency
    graph and the evidence about them consistent.  Its parts, and the files of
    this development that model them:

    - _Governance_ ([gbrg/governance], [gbrg/mcp]).  [Ledger] models the
      hash-chained ledger of [ledger.py] (reading, chaining, verification, the
      pinned head); [Gate] the context-inclusion gate of [gate.py], which meets
      a content decision with a registry decision and persists the result in
      the ledger; [McpGate] the subcommands of [mcp_gate.py] that append to it.
      [Json] and [Sha256] are the canonical serialisation and the digest the
      chain is built from.
    - _Supply-chain risk_ ([gbrg/governance], [gbrg/adapters]).
      [SupplyChainRisk] models the scorer of [supply_chain_risk.py], which seals
      node, path and cluster assessments in the same ledger;
      [SupplyChainPipeline] the derivation of its inputs from the call graph and
      the scoring of an estate ([supply_chain_pipeline.py]); [EvidencePlane] the
      lift of artifacts to observation records ([evidence.py]), with [Sha1] for
      the names of git blobs.
    - _Risk allocation_ ([gbrg/governance]).  [OmniriskAllocation] models the
      walker of [omnirisk_allocation.py], which rolls risk up the cuts of a tree
      and seals a verdict on it; [PortfolioBinding] the binding of a book of
      positions to the leaves of such a tree ([portfolio_position_binding.py]).
    - _Mesh_ ([automation]).  [MeshTopology] ([mesh_topology.py]): the ternary
      tree of backends, its leaders and quorums.  [TriadRotation]
      ([triad_rotation.py]): the rotation of the three masters.  [Lazerus]
      ([lazerus.py], over the regular expressions of [Regex]): the linter of the
      masters' integrity receipts; [MacroTriad] ([triad_receipts.py],
      [macro_triad.py], part of [beacon_producers.py] and [detectors.py]): their
      collection, the quorum over them and the failback it warrants.  [Gf256],
      [HolographicIda] ([holographic_ida.py]): the field and the information
      dispersal.  [StorageResilience] ([storage_resilience.py],
      [storage_placement.py]) and [LeafPropagation] ([leaf_propagation.py]):
      where the fragments go, and the write and read of a leaf against the
      class of node stores; [MeshFsStore] ([mesh_fs_store.py]) is the store of
      files, with its writers interleaved.  [MeshThreat] ([vantage_reports.py],
      [mesh_threat.py], part of [detectors.py]): the threat posture that picks
      the placement of new leaves.
    - _Drive_ ([automation]), on top of the mesh.  [ManifestStore]
      ([manifest_store.py]) replicates the manifests of leaves, [MeshNamespace]
      ([mesh_namespace.py]) the references that name them, [MeshSync]
      ([mesh_sync.py]) is the drive of files with its index and the push and
      pull of directories, [Continuity] ([continuity.py]) the clipboard, inbox
      and handoff kept in it.  [JsonParse] is the reader of [json.loads] that
      the stored records go through.
    - _Propagation_ ([engines/propagation_engine.py]).  [PropagationEngine]
      loads the registries into a graph, [Cascade] computes who is affected by
      a change, [Cycles] searches for dependency cycles, [Propagate] acts on a
      cascade through the verbs of the hosting service.  [GossipBeacon]
      ([engines/gossip_beacon.py]) percolates a change over lanes and edges.
    - _Self-healing_ ([automation]).  [ControlLoop] ([control_loop.py]) is the
      bounded closed loop, [SelfHeal] ([self_heal.py]) the remediations that
      run it, [Envelope] ([envelope.py]) the stamping of events, [Policy]
      ([policy.py], [learning.py]) the response policy and what is learned from
      outcomes, [Suppression] ([suppression.py]) the cool-down of repeated
      signals, [Kernel] the verdict lattice of
      [third_party/procyber/semantic/semantic_algebra.py], [Responder]
      ([responder.py]) the decision over a subject's signals, its execution and
      the run over the inbox.  [MirrorDrift] ([engines/mirror_drift_engine.py])
      derives the status of the mirrors; [Executors] ([executors.py]) carries
      decisions out with verification and rollback; [PrOpener]
      ([pr_opener.py], [open_recorded_proposals.py], part of
      [beacon_producers.py]) opens the recorded proposals; [Telemetry]
      ([telemetry.py], [wordops.py], [liveness.py], [healthz.py]) reports on
      it all, and [Scheduler] ([scheduler.py]) holds the jobs that run it.
    - _Queues and sessions_ ([automation]).  [RateLimiter] ([rate_limiter.py]),
      [DurableQueue] ([durable_queue.py]) and [SessionQuarantine]
      ([session_quarantine.py]).
    - _Events and deployment_ ([automation]).  [Webhooks] ([webhooks.py]) checks
      and queues the deliveries of the hosting service; [PropagationHandler]
      ([propagation_handler.py]) drives a pipeline for every dependent of a push,
      [DevOps] ([devops_orchestrator.py]) is that pipeline, [AutoMerge]
      ([auto_merge_handler.py]) merges the pull requests of a phase.
      [GraphOutput] ([crystal_atlas.py], [reconstruction_bridge.py],
      [post_graph_upserts.py]) records decisions and topics for the shared graph
      and posts them.  [Effects] is the monad these handlers are written in.
    - _Workspace_ ([tools/runner/runner.py]).  [Workspace] merges the manifest with
      its overrides and checks it; [Runner] verifies and updates the lock and
      reports on it; [RunnerTasks] fetches the repositories and runs tasks.
    - _Validation_ ([tools/svf_runner.py]).  [SvfRegistry] reads the registry of
      plans and actions, selects plans for changed paths (with [Fnmatch]) and
      checks actions and the shape of receipts; [SvfRunner] runs a plan, issues
      its receipt and verifies receipts, on a disk of files written by
      [JsonIndent].  [SvfReceipts], [SvfPaths] and [SvfIssue] hold the theorems.

    ** How the code is modelled

    A function that may raise returns [res]; the state a class keeps is a
    record that operations take and return; a file is the list of its lines or
    the value a parser makes of it; a dictionary is the list of its items in
    insertion order ([PyVal]); floats are IEEE binary64 with the rounding of
    the interpreter ([PyVal.F64], ordered in [FloatOrder]); text operations are
    in [PyText].  Clocks, random ids, the hosting service, node stores,
    executors and probes are arguments, and a theorem that needs something of
    one of them says so in a hypothesis or a class and has an instance.  Code
    that several threads or processes run at once ([RateLimiter],
    [DurableQueue]) is a step relation over the shared state.

    ** What the theorems show

    - Ledger: a pinned head determines the events under it (or exhibits a
      SHA-256 collision); deletions are detected; a verified read returns
      exactly the intact ledgers; the first broken record is reported.
    - Gate and MCP gate: inclusion is the meet of both decisions, where the exit
      code of the registry is trusted when it prints nothing that parses; every
      decision leaves a verified ledger, no subcommand breaks the chain.
    - Supply-chain risk: what a verdict rests on, that scores stay in the unit
      interval for all floats, that subjects without evidence are rejected, that
      derived call paths are maximal simple paths of real calls, that server and
      scorer can share one verified ledger, and that no authorization key ever
      reaches the evidence plane.
    - Risk allocation: a tree verifies exactly when every node of every cut
      obeys the laws of the roll-up and the cuts agree; a book verifies exactly
      when its positions source the hierarchy, each backed leaf once in every
      cut; sealing without a ledger path breaks the default ledger.
    - Mesh: quorums intersect, losses below the bound leave the mesh healthy,
      roles rotate evenly; any [k] fragments reconstruct a leaf; a read after a
      bounded seizure returns what was written, and a read never returns
      anything else.
    - Masters and threat: a receipt is admitted exactly when its tokens are in
      their languages; no failback is proposed without a quorum of different
      masters; the posture rises at once, falls only after the dwell, follows
      the majority of the vantages and is what the posture file holds.
    - Drive: after any writes and any tolerated seizure the drive reads as the
      map of the last writes; what is pushed is pulled back, under the same name
      if that has no backslash; the parser inverts the printer on every record
      the drive stores.
    - Propagation: cascades are the shortest distances in the loaded graph,
      cycle detection is exact, acting is confined to the cascade and does not
      repeat a notification; a beacon records every repository at its distance
      and its convergence is closure.
    - Self-healing: loops are bounded, act once between two observations and
      report convergence only on the last one;
      decisions are fail-closed and independent of the order of the signals;
      executions resolve or escalate; learning only lowers autonomy.
    - Acting: a reconciliation is verified or undone, and the closed loop over
      the mirrors heals them or changes nothing; opening a proposal stops at the
      first failure other than that of the listing and merges nothing; after
      three runs the well-formed recorded proposals are exactly those opened and
      those in the dead letters; the drain of the webhook queue charges the quota
      for what it takes; a propagation returns exactly when some call of its
      handler succeeds.
    - Events and deployment: only signed pushes to the main branch reach the
      queue; production is deployed to only after the dependent's own tests and
      staging, and it is rolled back exactly when tests or staging answered no or
      a call raised (the answers of rebuilds and of production are dropped); a phase ends within its
      bounds; requests are merged in order from a clean state; only grounded
      topics are published, and every recorded upsert is posted or dead-lettered.
    - Workspace: overrides are laid over the manifest by name; an update of a lock
      with distinct names changes only the entries of checkouts with an url, and
      the lock then drifts only where there is no url; fetching is idempotent; a
      run executes the command of each target once and answers zero exactly when
      all of them did.
    - Validation: only registered and safe commands are started; a receipt that
      verifies pins the files and the plan it names; the receipt of a passing run
      verifies; the plans selected are those of the matching selectors.
    - Store of files: it reads as the map of the last writes, and with one writer
      to a file no reader sees a part of a write.
    - Queues and sessions: no item is delivered twice under any interleaving,
      the quota holds for every thread schedule, every event received by the
      session protocol is in exactly one place unless an orphan with the same id
      replaced it, with one receipt per outcome.

    ** Fuel

    [build_tree] gets the number of backends, the control loop one more than
    its iteration limit, the drains of the queues one turn for each item,
    the cascade the number of queued plus all dependents,
    the cycle search as many frames as repositories, the JSON reader twice the
    length of its text, a shell pattern its length; each file proves that its
    fuel suffices, so the theorems are about the results and not about runs
    that happen to end.

    ** Not modelled

    Network and process calls, logging, printing and argument parsing; the HTTP
    client of the mesh store, which is little else; the term algebra of the
    semantic kernel.  The programs under [tools] other than the two runners (the
    validators of registries and fixtures, the rendering surfaces of
    [tools/fabric], the generators of reports) are some three hundred scripts that
    each compare one file with a fixed list of fields or lay out one page; they
    keep no state and share none with the parts above, so a model of them would
    restate their field lists.  The reports of [engines] other than the
    propagation engine, the beacon and mirror drift, and the command-line programs,
    are printing around registry files.  The propagation of an event calls itself
    to retry, so it has no fuel that always suffices: when it returns is a theorem. *)

From stdpp Require Export base tactics option list strings gmap sorting pretty.
From Stdlib Require Export ZArith Lia.

(** ** Results of fallible code

    Python code either returns a value or raises.  [res A] is the sum of the
    two; the exception classes are those the modelled code raises or catches,
    each with the text it carries where some other code reads that text. *)

Inductive exn : Type :=
| ValueError (msg : string)
| KeyError (key : string)
| TypeError
| AttributeError
| IndexError
| ZeroDivisionError
| JSONDecodeError
| StopIteration
| RuntimeError (msg : string)
| LedgerTamperError (broken_index : option nat)
| LeafUnavailable
| IntegrityError
| ManifestUnavailable
| FileNotFound (path : string)
| QueueEmpty
| ContractError (msg : string)
| AssertionError (msg : string)
| OtherError (msg : string).

Inductive res (A : Type) : Type :=
| Ok (a : A)
| Raise (e : exn).
Arguments Ok {A} a.
Arguments Raise {A} e.

#[global] Instance exn_eq_dec : EqDecision exn.
Proof. solve_decision. Defined.

#[global] Instance res_ret : MRet res := fun A a => Ok a.
#[global] Instance res_bind : MBind res := fun A B f m =>
  match m with Ok a => f a | Raise e => Raise e end.
#[global] Instance res_fmap : FMap res := fun A B f m =>
  match m with Ok a => Ok (f a) | Raise e => Raise e end.

Definition is_ok {A} (m : res A) : bool :=
  match m with Ok _ => true | Raise _ => false end.

Definition of_option {A} (e : exn) (o : option A) : res A :=
  match o with Some a => Ok a | None => Raise e end.

(** [mapM] in the order a Python comprehension evaluates its elements. *)
Fixpoint res_map {A B} (f : A -> res B) (l : list A) : res (list B) :=
  match l with
  | [] => Ok []
  | x :: xs => y ← f x; ys ← res_map f xs; Ok (y :: ys)
  end.

(** A [for] loop that threads a state and may raise. *)
Fixpoint res_fold {A S} (f : S -> A -> res S) (s : S) (l : list A) : res S :=
  match l with
  | [] => Ok s
  | x :: xs => s' ← f s x; res_fold f s' xs
  end.

(** [enumerate(l)], counting from [i]. *)
Fixpoint enumerate {A} (i : nat) (l : list A) : list (nat * A) :=
  match l with
  | [] => []
  | x :: xs => (i, x) :: enumerate (S i) xs
  end.

(** ** Tactics *)

(** Case analysis on the scrutinee of a [match] or [if] in the goal. *)
Ltac case_goal :=
  match goal with
  | |- context [match ?x with _ => _ end] => destruct x eqn:?
  end.

(** Invert a successful monadic step in a hypothesis. *)
Ltac inv_bind H :=
  match type of H with
  | context [mbind _ ?m] => destruct m eqn:?; simpl in H; [|discriminate H]
  end.

Create HintDb s2p.

(** ** Generic lemmas *)

Lemma bind_Ok_inv {A B} (m : res A) (f : A -> res B) b :
  (m ≫= f) = Ok b -> exists a, m = Ok a /\ f a = Ok b.
Proof. destruct m; simpl; [eauto | discriminate]. Qed.


Lemma is_ok_Ok {A} (r : res A) : is_ok r = true -> exists a, r = Ok a.
Proof. destruct r; [eauto|done]. Qed.

(** A result with a known view. *)
Lemma res_view {A B} (view : A -> B) (r : res A) (b : B) :
  match r with Ok a => Some (view a) | Raise _ => None end = Some b -> exists a, r = Ok a /\ view a = b.
Proof. destruct r as [a|]; [|done]. intros [= <-]. eauto. Qed.

Lemma res_map_Ok_length {A B} (f : A -> res B) l l' :
  res_map f l = Ok l' -> length l' = length l.
Proof.
  revert l'; induction l as [|x xs IH]; simpl; intros l' H; [by simplify_eq|].
  apply bind_Ok_inv in H as (y & _ & H). apply bind_Ok_inv in H as (ys & Hys & H).
  simplify_eq. simpl. by rewrite (IH _ Hys).
Qed.

Lemma res_map_Ok_Forall2 {A B} (f : A -> res B) l l' :
  res_map f l = Ok l' <-> Forall2 (fun x y => f x = Ok y) l l'.
Proof.
  revert l'; induction l as [|x xs IH]; intros l'; split; simpl; intros H.
  - simplify_eq. constructor.
  - by inversion H.
  - apply bind_Ok_inv in H as (y & Hy & H). apply bind_Ok_inv in H as (ys & Hys & H).
    simplify_eq. constructor; [done|]. by apply IH.
  - inversion H as [|? y ? ys Hy Hys]; subst. rewrite Hy. simpl.
    apply IH in Hys. by rewrite Hys.
Qed.

(** Two results on the same list, side by side. *)
Lemma Forall2_join {A B C} (P : A -> B -> Prop) (Q : A -> C -> Prop) (R : B -> C -> Prop) la lb lc :
  Forall2 P la lb -> Forall2 Q la lc -> (forall a b c, P a b -> Q a c -> R b c) -> Forall2 R lb lc.
Proof.
  intros HP. revert lc. induction HP as [|a b la lb Hab _ IH]; intros lc HQ HR; inversion HQ; subst; constructor; eauto.
Qed.

Lemma res_map_pure {A B} (f : A -> B) (g : A -> res B) l :
  Forall (fun x => g x = Ok (f x)) l -> res_map g l = Ok (f <$> l).
Proof.
  induction 1 as [|x xs Hx _ IH]; [done|]. simpl. rewrite Hx. simpl. by rewrite IH.
Qed.

(** The order of evaluation does not matter to what is collected. *)
Lemma res_map_perm {A B} (f : A -> res B) l l' r :
  l ≡ₚ l' -> res_map f l = Ok r -> exists r', res_map f l' = Ok r' /\ r ≡ₚ r'.
Proof.
  intros Hp. revert r. induction Hp as [|x l l' Hp IH|x y l|l1 l2 l3 _ IH1 _ IH2]; intros r Hr.
  - eauto.
  - simpl in Hr |- *. apply bind_Ok_inv in Hr as (y & Hy & Hr). apply bind_Ok_inv in Hr as (ys & Hys & Hr).
    injection Hr as <-. destruct (IH ys Hys) as (r' & -> & Hp'). rewrite Hy. simpl. eauto.
  - simpl in Hr |- *. apply bind_Ok_inv in Hr as (y' & Hy & Hr). apply bind_Ok_inv in Hr as (ys & Hys & Hr).
    apply bind_Ok_inv in Hys as (x' & Hx & Hys). apply bind_Ok_inv in Hys as (zs & Hzs & Hys).
    simplify_eq. rewrite Hx, Hy, Hzs. simpl. eauto using Permutation.
  - destruct (IH1 r Hr) as (r1 & H1 & Hp1). destruct (IH2 r1 H1) as (r2 & H2 & Hp2). eauto using Permutation.
Qed.

Lemma res_fold_app {A S} (f : S -> A -> res S) s l1 l2 :
  res_fold f s (l1 ++ l2) = (s' ← res_fold f s l1; res_fold f s' l2).
Proof.
  revert s; induction l1 as [|x l1 IH]; intros s; [done|]. simpl.
  destruct (f s x); simpl; [apply IH | done].
Qed.

(** An invariant of the body of a [for] loop is an invariant of the loop. *)
Lemma res_fold_inv {A S} (P : S -> Prop) (f : S -> A -> res S) l s s' :
  (forall x s1 s2, x ∈ l -> P s1 -> f s1 x = Ok s2 -> P s2) ->
  P s -> res_fold f s l = Ok s' -> P s'.
Proof.
  revert s; induction l as [|x l IH]; intros s Hstep Hs H; simpl in H; [by simplify_eq|].
  apply bind_Ok_inv in H as (s1 & H1 & H2).
  eapply IH; [|by eapply Hstep; [left| |]|done].
  intros y ???; eapply Hstep. by right.
Qed.

(** ** Stable sorting

    [sorted(l, key=...)] with [ltb] comparing the keys: the result is ordered
    and elements with equal keys keep their order. *)

Fixpoint insert_sorted {A} (ltb : A -> A -> bool) (x : A) (l : list A) : list A :=
  match l with
  | [] => [x]
  | y :: l' => if ltb y x then y :: insert_sorted ltb x l' else x :: l
  end.

Definition py_sort {A} (ltb : A -> A -> bool) (l : list A) : list A :=
  foldr (insert_sorted ltb) [] l.

Section py_sort.
Context {A : Type} (ltb : A -> A -> bool).

Lemma insert_sorted_perm x l : insert_sorted ltb x l ≡ₚ x :: l.
Proof.
  induction l as [|y l IH]; simpl; [done|].
  destruct (ltb y x); [|done]. rewrite IH. constructor.
Qed.

Lemma py_sort_perm l : py_sort ltb l ≡ₚ l.
Proof.
  induction l as [|x l IH]; simpl; [done|]. by rewrite insert_sorted_perm, IH.
Qed.

Lemma py_sort_length l : length (py_sort ltb l) = length l.
Proof. by rewrite py_sort_perm. Qed.

Lemma elem_of_py_sort x l : x ∈ py_sort ltb l <-> x ∈ l.
Proof. by rewrite py_sort_perm. Qed.

(** [a] may stand before [b]. *)
Definition not_after (a b : A) : Prop := ltb b a = false.

Hypothesis Htrans : forall a b c, not_after a b -> not_after b c -> not_after a c.
Hypothesis Hasym : forall a b, ltb a b = true -> ltb b a = false.

Lemma insert_sorted_StronglySorted x l :
  StronglySorted not_after l -> StronglySorted not_after (insert_sorted ltb x l).
Proof.
  induction 1 as [|y l Hl IH Hy]; simpl; [by repeat constructor|].
  destruct (ltb y x) eqn:E; constructor; auto.
  - rewrite insert_sorted_perm. constructor; [|done]. by apply Hasym.
  - constructor; done.
  - constructor; [done|]. eapply Forall_impl; [exact Hy|].
    intros z Hz. simpl in *. by eapply Htrans; [exact E|].
Qed.

Lemma py_sort_StronglySorted l : StronglySorted not_after (py_sort ltb l).
Proof.
  induction l as [|x l IH]; simpl; [constructor|].
  by apply insert_sorted_StronglySorted.
Qed.

(** The median of a sorted list is where a majority is. *)
Lemma sorted_index_up (R : A -> A -> Prop) (P : A -> bool) l i x :
  StronglySorted R l -> (forall a b, R a b -> P a = true -> P b = true) -> l !! i = Some x ->
  (length l < length (List.filter P l) + S i)%nat -> P x = true.
Proof.
  intros Hs HP. revert i. induction Hs as [|a l Hs IH Ha]; intros i Hi Hc; [done|]. simpl in Hc. destruct i as [|i]; simpl in Hi.
  - injection Hi as ->. destruct (P x); [done|]. pose proof (List.filter_length_le P l). simpl in *. lia.
  - destruct (P a) eqn:Ea; [|apply (IH i); [done|simpl in *; lia]].
    apply (HP a); [|done]. rewrite Forall_forall in Ha. apply Ha. by eapply list_elem_of_lookup_2.
Qed.

Lemma sorted_index_down (R : A -> A -> Prop) (P : A -> bool) l i x :
  StronglySorted R l -> (forall a b, R a b -> P b = true -> P a = true) -> l !! i = Some x ->
  (i < length (List.filter P l))%nat -> P x = true.
Proof.
  intros Hs HP. revert i. induction Hs as [|a l Hs IH Ha]; intros i Hi Hc; [done|]. simpl in Hc. destruct i as [|i]; simpl in Hi.
  - injection Hi as ->. destruct (P x) eqn:Ex; [done|]. destruct (List.filter P l) as [|y ys] eqn:Ef; [simpl in Hc; lia|].
    assert (y ∈ List.filter P l) as [Hy Hp]%list_elem_of_In%filter_In by (rewrite Ef; by left).
    rewrite Forall_forall in Ha. rewrite (HP x y) in Ex; [done| |done]. by apply Ha, list_elem_of_In.
  - apply (IH i); [done|]. destruct (P a); simpl in *; lia.
Qed.

(** A sort whose comparison agrees with a measure puts the larger first. *)
Lemma py_sort_measure (f : A -> nat) l :
  (forall x y, ltb y x = true -> (f x <= f y)%nat) -> (forall x y, ltb y x = false -> (f y <= f x)%nat) ->
  StronglySorted (fun x y => (f y <= f x)%nat) (py_sort ltb l).
Proof.
  intros Hlt Hge. unfold py_sort. induction l as [|x l IH]; simpl; [constructor|]. revert IH.
  generalize (foldr (insert_sorted ltb) [] l) as s. clear l. induction 1 as [|y s Hs IH Hy]; simpl; [by repeat constructor|].
  destruct (ltb y x) eqn:E.
  - constructor; [done|]. rewrite insert_sorted_perm, Forall_cons. auto.
  - constructor; [by constructor|]. constructor; [auto|].
    eapply Forall_impl; [exact Hy|]. intros z Hz. pose proof (Hge _ _ E). simpl in Hz. lia.
Qed.
End py_sort.

Lemma insert_sorted_ext {A} (f g : A -> A -> bool) x l :
  (forall y, y ∈ l -> f y x = g y x) -> insert_sorted f x l = insert_sorted g x l.
Proof.
  induction l as [|y l IH]; intros He; [done|]. simpl. rewrite (He y) by (by left). destruct (g y x); [|done].
  rewrite IH; [done|]. intros z Hz. apply He. by right.
Qed.

(** Sorting only looks at the elements. *)
Lemma py_sort_ext {A} (f g : A -> A -> bool) l :
  (forall x y, x ∈ l -> y ∈ l -> f x y = g x y) -> py_sort f l = py_sort g l.
Proof.
  induction l as [|x l IH]; intros He; [done|]. simpl. rewrite IH by (intros; apply He; by right).
  apply insert_sorted_ext. intros y Hy%elem_of_py_sort. apply He; [by right|by left].
Qed.

Lemma lfilter_perm {A} (f : A -> bool) l l' : l ≡ₚ l' -> List.filter f l ≡ₚ List.filter f l'.
Proof.
  induction 1 as [|x l l' _ IH|x y l|l1 l2 l3 _ IH1 _ IH2]; simpl; [done|by destruct (f x); [constructor|]| |by etransitivity].
  destruct (f x), (f y); try done. constructor.
Qed.

Lemma elem_of_lfilter {A} (f : A -> bool) x l : x ∈ List.filter f l <-> x ∈ l /\ f x = true.
Proof. rewrite !list_elem_of_In. apply filter_In. Qed.

Lemma NoDup_map_inj {A B} (f : A -> B) l x y :
  NoDup (map f l) -> x ∈ l -> y ∈ l -> f x = f y -> x = y.
Proof.
  induction l as [|z l IH]; simpl; [by intros _ ?%not_elem_of_nil|]. rewrite NoDup_cons, !elem_of_cons.
  intros [Hz Hl] [->|Hx] [->|Hy] E; auto; destruct Hz; apply list_elem_of_fmap; eauto.
Qed.

Lemma StronglySorted_all {A} (R : A -> A -> Prop) l :
  (forall a b, a ∈ l -> b ∈ l -> R a b) -> StronglySorted R l.
Proof.
  induction l as [|x l IH]; intros HR; constructor.
  - apply IH. intros. apply HR; by right.
  - apply Forall_forall. intros. apply HR; [left|by right].
Qed.

Lemma StronglySorted_weaken {A} (R R' : A -> A -> Prop) l :
  (forall a b, R a b -> R' a b) -> StronglySorted R l -> StronglySorted R' l.
Proof. intros HR. induction 1; constructor; [done|]. eapply Forall_impl; eauto. Qed.

Lemma StronglySorted_weaken_in {A} (R R' : A -> A -> Prop) l :
  (forall a b, a ∈ l -> b ∈ l -> R a b -> R' a b) -> StronglySorted R l -> StronglySorted R' l.
Proof.
  intros HR. induction 1 as [|x l Hs IH Hx]; constructor.
  - apply IH. intros a b Ha Hb. apply HR; by right.
  - rewrite Forall_forall in Hx |- *. intros y Hy. apply HR; [by left|by right|by apply Hx].
Qed.

Lemma NoDup_map_lfilter {A B} (g : A -> B) (f : A -> bool) l :
  NoDup (map g l) -> NoDup (map g (List.filter f l)).
Proof.
  induction l as [|x l IH]; simpl; [done|]. rewrite NoDup_cons. intros [Hx Hl].
  destruct (f x); simpl; [|auto]. rewrite NoDup_cons. split; [|auto].
  rewrite list_elem_of_fmap in Hx |- *. intros (y & E & [Hy _]%elem_of_lfilter). eauto.
Qed.

Lemma omap_nil {A B} (f : A -> option B) (l : list A) : omap f l = [] <-> Forall (fun x => f x = None) l.
Proof.
  induction l as [|x l IH]; [by split; constructor|]. rewrite Forall_cons, <- IH. simpl.
  destruct (f x); split; [discriminate|by intros [? _]|auto|tauto].
Qed.

Lemma concat_map_nil {A B} (f : A -> list B) (l : list A) : concat (map f l) = [] <-> Forall (fun x => f x = []) l.
Proof. induction l as [|x l IH]; simpl; [by split; constructor|]. by rewrite app_nil, Forall_cons, IH. Qed.

(** An order of the elements becomes an order of what is kept of them. *)
Lemma sorted_map_lfilter {A B} (R : A -> A -> Prop) (R' : B -> B -> Prop) (g : A -> B) (f : A -> bool) l :
  StronglySorted R l -> (forall a b, a ∈ l -> b ∈ l -> R a b -> R' (g a) (g b)) ->
  StronglySorted R' (map g (List.filter f l)).
Proof.
  induction 1 as [|x l Hl IH Hx]; intros HR; simpl; [constructor|].
  assert (IH' : StronglySorted R' (map g (List.filter f l))).
  { apply IH. intros a b Ha Hb. apply HR; by right. }
  destruct (f x); simpl; [|done]. constructor; [done|]. rewrite (Forall_forall (R x) l) in Hx. apply Forall_forall.
  intros z (y & -> & [Hy _]%elem_of_lfilter)%list_elem_of_fmap. apply HR; [left|by right|by apply Hx].
Qed.

(** ** Strings *)

Fixpoint string_Forall (P : Ascii.ascii -> Prop) (s : string) : Prop :=
  match s with EmptyString => True | String a s => P a /\ string_Forall P s end.

Lemma string_app_nil_l (b : string) : "" +:+ b = b.
Proof. reflexivity. Qed.

Lemma string_app_cons x (a b : string) : String x a +:+ b = String x (a +:+ b).
Proof. reflexivity. Qed.

#[export] Hint Rewrite string_app_nil_l string_app_cons : strings.

Lemma string_app_assoc (a b c : string) : (a +:+ b) +:+ c = a +:+ (b +:+ c).
Proof. induction a as [|x a IH]; [done|]. exact (f_equal (String x) IH). Qed.

Lemma string_app_nil_r (a : string) : a +:+ "" = a.
Proof. induction a as [|x a IH]; [done|]. exact (f_equal (String x) IH). Qed.

Lemma string_app_inv_l (a b c : string) : a +:+ b = a +:+ c -> b = c.
Proof. induction a; [done|]. rewrite !string_app_cons. intros; simplify_eq; auto. Qed.

Lemma string_length_app (a b : string) : String.length (a +:+ b) = (String.length a + String.length b)%nat.
Proof. induction a as [|c a IH]; [done|]. rewrite string_app_cons. simpl. by rewrite IH. Qed.

Lemma string_app_inv_r (a b c : string) : a +:+ c = b +:+ c -> a = b.
Proof.
  revert b. induction a as [|x a IH]; intros [|y b]; rewrite ?string_app_nil_l, ?string_app_cons; [done|..].
  - intros E. apply (f_equal String.length) in E. simpl in E. rewrite string_length_app in E. lia.
  - intros E. apply (f_equal String.length) in E. simpl in E. rewrite string_length_app in E. lia.
  - intros [= -> E]. by rewrite (IH b).
Qed.

(** Two texts split at the first character outside a class split alike. *)
Lemma string_split_unique (P : Ascii.ascii -> Prop) a1 a2 r1 r2 :
  let stop r := match r with EmptyString => True | String c _ => ~ P c end in
  string_Forall P a1 -> string_Forall P a2 -> stop r1 -> stop r2 ->
  a1 +:+ r1 = a2 +:+ r2 -> a1 = a2 /\ r1 = r2.
Proof.
  intros stop. revert a2.
  induction a1 as [|c a1 IH]; intros [|c2 a2] H1 H2 S1 S2 E; simpl in H1, H2;
    rewrite ?string_app_nil_l, ?string_app_cons in E.
  - done.
  - subst r1. destruct H2. by destruct S1.
  - subst r2. destruct H1. by destruct S2.
  - injection E as -> E. destruct H1, H2. destruct (IH a2) as [-> ->]; auto.
Qed.

Lemma string_Forall_app (P : Ascii.ascii -> Prop) a b :
  string_Forall P (a +:+ b) <-> string_Forall P a /\ string_Forall P b.
Proof. induction a as [|c a IH]; rewrite ?string_app_nil_l, ?string_app_cons; simpl; [tauto|]. rewrite IH. tauto. Qed.

(** ** The order of strings *)

Lemma ascii_compare_N (a b : Ascii.ascii) : Ascii.compare a b = (Ascii.N_of_ascii a ?= Ascii.N_of_ascii b)%N.
Proof. reflexivity. Qed.

Lemma compare_app (a b x y : string) :
  String.length a = String.length b ->
  String.compare (a +:+ x) (b +:+ y)
  = match String.compare a b with Eq => String.compare x y | c => c end.
Proof.
  revert b; induction a as [|c a IH]; intros [|d b] Hl; simpl in Hl; try discriminate; [done|].
  rewrite !string_app_cons. simpl. injection Hl as Hl. destruct (Ascii.compare c d); [by apply IH|done..].
Qed.

Lemma string_compare_refl s : String.compare s s = Eq.
Proof. pose proof (String.compare_antisym s s) as Ha. by destruct (String.compare s s). Qed.

Lemma string_lt_trans a b c :
  String.compare a b = Lt -> String.compare b c = Lt -> String.compare a c = Lt.
Proof.
  revert b c; induction a as [|x a IH]; intros [|y b] [|z c]; simpl; try done.
  rewrite !ascii_compare_N.
  destruct (N.compare_spec (Ascii.N_of_ascii x) (Ascii.N_of_ascii y)) as [Exy|Hxy|Hxy]; try done;
    destruct (N.compare_spec (Ascii.N_of_ascii y) (Ascii.N_of_ascii z)) as [Eyz|Hyz|Hyz]; try done; intros H1 H2;
    destruct (N.compare_spec (Ascii.N_of_ascii x) (Ascii.N_of_ascii z)) as [Exz|Hxz|Hxz]; try done; try lia; by eapply IH.
Qed.

Lemma not_after_spec a b :
  not_after String.ltb a b <-> a = b \/ String.compare a b = Lt.
Proof.
  unfold not_after, String.ltb. rewrite (String.compare_antisym b a).
  pose proof (String.compare_eq_iff a b) as He.
  destruct (String.compare a b) eqn:E; simpl; split; try done; auto.
  intros [->|?]; [|done]. by rewrite string_compare_refl in E.
Qed.

Lemma sorted_names_unique (l1 l2 : list string) :
  StronglySorted (not_after String.ltb) l1 -> StronglySorted (not_after String.ltb) l2 ->
  l1 ≡ₚ l2 -> l1 = l2.
Proof.
  apply StronglySorted_unique_strong.
  intros x1 x2 _ _ H1 H2. apply not_after_spec in H1 as [|H1], H2 as [|H2]; try done.
  pose proof (string_lt_trans _ _ _ H1 H2) as H. by rewrite string_compare_refl in H.
Qed.

Lemma names_sorted l : StronglySorted (not_after String.ltb) (py_sort String.ltb l).
Proof.
  apply py_sort_StronglySorted.
  - intros a b c. rewrite !not_after_spec. intros [->|H1] [->|H2]; auto. right. by eapply string_lt_trans.
  - intros a b. unfold String.ltb. rewrite (String.compare_antisym a b).
    by destruct (String.compare b a).
Qed.

(** ** Joining *)

Definition str_join (sep : string) (l : list string) : string :=
  match l with
  | [] => ""
  | x :: xs => x +:+ foldr (fun y acc => sep +:+ y +:+ acc) "" xs
  end.
