(* ===== verification/PyVal.v ===== *)
(** * Python values

    The values the modelled code handles: [None], booleans, integers, IEEE
    binary64 floats, strings, lists and dictionaries.  A dictionary is the list
    of its items in insertion order, which is the order every Python loop over
    it follows.  A [str] is a Rocq [string] holding its UTF-8 bytes.

    Floats are Rocq's [spec_float] with the binary64 parameters, so every
    comparison and arithmetic step rounds as the interpreter's does. *)

From Stdlib Require Import SpecFloat.
From S2P Require Import Prelude.
Local Open Scope Z_scope.

(** ** binary64 *)

Module F64.

Definition prec : Z := 53.
Definition emax : Z := 1024.

Definition add := SFadd prec emax.
Definition sub := SFsub prec emax.
Definition mul := SFmul prec emax.
Definition div := SFdiv prec emax.
Definition leb := SFleb.
Definition ltb := SFltb.
Definition eqb := SFeqb.

Definition inf : spec_float := S754_infinity false.
Definition zero : spec_float := S754_zero false.

(** [float(z)] for an integer within the binary64 range. *)
Definition of_Z (z : Z) : spec_float := binary_normalize prec emax z 0 false.

(** The float a decimal literal [m / 10^k] denotes: the nearest binary64, the
    tie going to the even mantissa. *)
Definition of_dec (m : positive) (k : nat) : spec_float :=
  match k with
  | O => of_Z (Zpos m)
  | _ =>
    match SFdiv_core_binary prec emax (Zpos m) 0 (10 ^ Z.of_nat k) 0 with
    | (q, e, l) => binary_round_aux prec emax false q e l
    end
  end.

Definition is_finite (f : spec_float) : bool :=
  match f with S754_zero _ | S754_finite _ _ _ => true | _ => false end.

(** [max(a, b)] as Python computes it: the first argument unless the second is
    strictly greater. *)
Definition max (a b : spec_float) : spec_float := if ltb a b then b else a.

End F64.

#[global] Instance spec_float_eq_dec : EqDecision spec_float.
Proof. solve_decision. Defined.

(** ** Values *)

Inductive pyval : Type :=
| PNone
| PBool (b : bool)
| PInt (z : Z)
| PFloat (f : spec_float)
| PStr (s : string)
| PList (l : list pyval)
| PDict (kvs : list (string * pyval)).

Section pyval_ind.
Variable P : pyval -> Prop.
Hypothesis Hnone : P PNone.
Hypothesis Hbool : forall b, P (PBool b).
Hypothesis Hint : forall z, P (PInt z).
Hypothesis Hfloat : forall f, P (PFloat f).
Hypothesis Hstr : forall s, P (PStr s).
Hypothesis Hlist : forall l, Forall P l -> P (PList l).
Hypothesis Hdict : forall kvs, Forall (fun kv => P kv.2) kvs -> P (PDict kvs).

(** Induction that reaches the elements of lists and dictionaries. *)
Fixpoint pyval_rect' (v : pyval) : P v :=
  match v with
  | PNone => Hnone
  | PBool b => Hbool b
  | PInt z => Hint z
  | PFloat f => Hfloat f
  | PStr s => Hstr s
  | PList l => Hlist l ((fix go l : Forall P l :=
      match l with [] => Forall_nil_2 _ | x :: xs => Forall_cons_2 _ _ _ (pyval_rect' x) (go xs) end) l)
  | PDict kvs => Hdict kvs ((fix go l : Forall (fun kv => P kv.2) l :=
      match l with [] => Forall_nil_2 _ | x :: xs => Forall_cons_2 _ _ _ (pyval_rect' x.2) (go xs) end) kvs)
  end.
End pyval_ind.

(** [bool(v)]. *)
Definition truthy (v : pyval) : bool :=
  match v with
  | PNone => false
  | PBool b => b
  | PInt z => negb (z =? 0)
  | PFloat f => match f with S754_zero _ => false | _ => true end
  | PStr s => match s with EmptyString => false | _ => true end
  | PList l => match l with [] => false | _ => true end
  | PDict kvs => match kvs with [] => false | _ => true end
  end.

(** [a or b]. *)
Definition py_or (a b : pyval) : pyval := if truthy a then a else b.

(** [v == s] for a string [s]: only the same string is equal to it. *)
Definition eq_str (v : pyval) (s : string) : bool :=
  match v with PStr t => String.eqb t s | _ => false end.

Definition is_dict (v : pyval) : bool :=
  match v with PDict _ => true | _ => false end.
Definition is_str (v : pyval) : bool :=
  match v with PStr _ => true | _ => false end.
Definition is_list (v : pyval) : bool :=
  match v with PList _ => true | _ => false end.

(** A value that can be a member of a set: lists and dictionaries are not. *)
Definition hashable (v : pyval) : bool :=
  match v with PList _ | PDict _ => false | _ => true end.

(** [int == float]: the values, exactly. *)
Definition int_eq_float (z : Z) (f : spec_float) : bool :=
  match f with
  | S754_zero _ => z =? 0
  | S754_finite s m e =>
    let v := if s then Z.neg m else Z.pos m in
    if 0 <=? e then z =? v * 2 ^ e else z * 2 ^ (- e) =? v
  | _ => false
  end.

(** The integer a boolean or an integer is. *)
Definition as_int (v : pyval) : option Z :=
  match v with PInt z => Some z | PBool b => Some (if b then 1 else 0) | _ => None end.

(** ** Dictionaries *)

Abbreviation dict := (list (string * pyval)).

(** [d.get(k)] on the items. *)
Fixpoint assoc {A} (k : string) (d : list (string * A)) : option A :=
  match d with
  | [] => None
  | (k', v) :: d => if String.eqb k' k then Some v else assoc k d
  end.

(** [d[k] = v]: a present key keeps its place, a new one goes last. *)
Fixpoint assoc_set {A} (k : string) (v : A) (d : list (string * A)) : list (string * A) :=
  match d with
  | [] => [(k, v)]
  | (k', v') :: d => if String.eqb k' k then (k', v) :: d else (k', v') :: assoc_set k v d
  end.

(** [{k: v for k, v in d.items() if k != key}]. *)
Definition assoc_del {A} (key : string) (d : list (string * A)) : list (string * A) :=
  List.filter (fun kv => negb (String.eqb kv.1 key)) d.

Definition assoc_mem {A} (k : string) (d : list (string * A)) : bool :=
  match assoc k d with Some _ => true | None => false end.

(** [d.get(k, default)] on a value that has to be a dictionary. *)
Definition py_get (v : pyval) (k : string) (dflt : pyval) : res pyval :=
  match v with
  | PDict d => Ok (default dflt (assoc k d))
  | _ => Raise AttributeError
  end.

(** [v[k]] with a string key. *)
Definition py_item (v : pyval) (k : string) : res pyval :=
  match v with
  | PDict d => of_option (KeyError k) (assoc k d)
  | _ => Raise TypeError
  end.

(** [a == b]. *)
Fixpoint py_eq (a b : pyval) {struct a} : bool :=
  match a, b with
  | PNone, PNone => true
  | PStr s, PStr t => String.eqb s t
  | PFloat f, PFloat g => F64.eqb f g
  | PFloat f, (PInt _ | PBool _) => match as_int b with Some z => int_eq_float z f | None => false end
  | (PInt _ | PBool _), PFloat g => match as_int a with Some z => int_eq_float z g | None => false end
  | (PInt _ | PBool _), (PInt _ | PBool _) =>
    match as_int a, as_int b with Some x, Some y => x =? y | _, _ => false end
  | PList l, PList l' =>
    (fix go l l' := match l, l' with
                    | [], [] => true
                    | x :: l, y :: l' => py_eq x y && go l l'
                    | _, _ => false
                    end) l l'
  | PDict d, PDict d' =>
    Nat.eqb (length d) (length d') &&
    (fix go (d : list (string * pyval)) : bool :=
       match d with
       | [] => true
       | (k, v) :: d => match assoc k d' with Some w => py_eq v w | None => false end && go d
       end) d
  | _, _ => false
  end.

(** [sub in s]: the substring test on strings. *)
Fixpoint substring_of (sub s : string) : bool :=
  String.prefix sub s ||
  match s with EmptyString => false | String _ s' => substring_of sub s' end.

(** [k in v] with a string on the left. *)
Definition py_in (k : string) (v : pyval) : res bool :=
  match v with
  | PDict d => Ok (assoc_mem k d)
  | PList l => Ok (existsb (fun x => eq_str x k) l)
  | PStr s => Ok (substring_of k s)
  | _ => Raise TypeError
  end.

(** [iter(v)]. *)
Fixpoint chars (s : string) : list pyval :=
  match s with EmptyString => [] | String c s => PStr (String c "") :: chars s end.

Definition py_iter (v : pyval) : res (list pyval) :=
  match v with
  | PList l => Ok l
  | PDict d => Ok (map (fun kv => PStr kv.1) d)
  | PStr s => Ok (chars s)
  | _ => Raise TypeError
  end.

(** [v.items()]. *)
Definition py_items (v : pyval) : res dict :=
  match v with PDict d => Ok d | _ => Raise AttributeError end.

(** [k in set(v)] for a string [k]: every member has to be hashable. *)
Definition py_in_set (k : string) (v : pyval) : res bool :=
  l ← py_iter v;
  if forallb hashable l then Ok (existsb (fun x => eq_str x k) l) else Raise TypeError.

(** [int / int], correctly rounded. *)
Definition py_truediv (a b : Z) : res spec_float :=
  let s := xorb (a <? 0) (b <? 0) in
  match b, a with
  | Z0, _ => Raise ZeroDivisionError
  | _, Z0 => Ok (S754_zero s)
  | _, _ =>
    match SFdiv_core_binary F64.prec F64.emax (Z.abs a) 0 (Z.abs b) 0 with
    | (q, e, l) =>
      let f := binary_round_aux F64.prec F64.emax s q e l in
      if F64.is_finite f then Ok f else Raise (OtherError "integer division result too large for a float")
    end
  end.

(** ** Lemmas on dictionaries *)

Lemma assoc_set_eq {A} k (v : A) d : assoc k (assoc_set k v d) = Some v.
Proof.
  induction d as [|[k' v'] d IH]; simpl; [by rewrite String.eqb_refl|].
  destruct (String.eqb k' k) eqn:E; simpl; by rewrite E.
Qed.

Lemma assoc_set_ne {A} k k' (v : A) d :
  k ≠ k' -> assoc k' (assoc_set k v d) = assoc k' d.
Proof.
  intros Hne. induction d as [|[k0 v0] d IH]; simpl.
  - by rewrite (proj2 (String.eqb_neq k k') Hne).
  - destruct (String.eqb_spec k0 k) as [->|]; simpl.
    + by rewrite (proj2 (String.eqb_neq k k') Hne).
    + by destruct (String.eqb k0 k').
Qed.

Lemma assoc_del_eq {A} k (d : list (string * A)) : assoc k (assoc_del k d) = None.
Proof.
  induction d as [|[k' v] d IH]; [done|]. unfold assoc_del in *; simpl.
  destruct (String.eqb k' k) eqn:E; simpl; [done|]. by rewrite E.
Qed.

Lemma assoc_del_ne {A} k k' (d : list (string * A)) :
  k ≠ k' -> assoc k' (assoc_del k d) = assoc k' d.
Proof.
  intros Hne. induction d as [|[k0 v] d IH]; [done|]. unfold assoc_del in *; simpl.
  destruct (String.eqb_spec k0 k) as [->|]; simpl.
  - by rewrite (proj2 (String.eqb_neq k k') Hne).
  - by destruct (String.eqb k0 k').
Qed.

Lemma assoc_del_app {A} k (d1 d2 : list (string * A)) :
  assoc_del k (d1 ++ d2) = assoc_del k d1 ++ assoc_del k d2.
Proof. apply List.filter_app. Qed.

Lemma assoc_del_notin {A} k (d : list (string * A)) :
  k ∉ d.*1 -> assoc_del k d = d.
Proof.
  induction d as [|[k' v] d IH]; [done|]. unfold assoc_del in *; simpl.
  rewrite not_elem_of_cons. intros [Hne Hd].
  rewrite (proj2 (String.eqb_neq k' k)) by done. simpl. by rewrite IH.
Qed.

Lemma assoc_elem {A} k (v : A) d : assoc k d = Some v -> (k, v) ∈ d.
Proof.
  induction d as [|[k' v'] d IH]; simpl; [done|].
  destruct (String.eqb_spec k' k) as [->|]; intros; simplify_eq; [left|].
  right; auto.
Qed.

Lemma assoc_NoDup {A} k (v : A) d : NoDup d.*1 -> (k, v) ∈ d -> assoc k d = Some v.
Proof.
  induction d as [|[k' v'] d IH]; simpl; [by intros _ ?%not_elem_of_nil|].
  rewrite NoDup_cons, elem_of_cons. intros [Hk Hd] [E|Hin]; [simplify_eq; by rewrite String.eqb_refl|].
  destruct (String.eqb_spec k' k) as [->|Hne]; [|auto]. destruct Hk. apply list_elem_of_fmap. by exists (k, v).
Qed.

Lemma assoc_None {A} k (d : list (string * A)) : assoc k d = None <-> k ∉ d.*1.
Proof.
  induction d as [|[k' v'] d IH]; simpl; [by split; [intros; apply not_elem_of_nil|]|].
  rewrite not_elem_of_cons. destruct (String.eqb_spec k' k); naive_solver.
Qed.

Lemma assoc_set_keys {A} k (v : A) l x : x ∈ (assoc_set k v l).*1 <-> x = k \/ x ∈ l.*1.
Proof.
  induction l as [|[k' v'] l IH]; cbn [assoc_set].
  - rewrite fmap_cons, list_elem_of_singleton. simpl. split; [auto|]. intros [?|Hx]; [done|inversion Hx].
  - destruct (String.eqb_spec k' k) as [->|Hne]; rewrite !fmap_cons, !elem_of_cons; cbn [fst]; [tauto|].
    rewrite IH. tauto.
Qed.

Lemma NoDup_assoc_set {A} k (v : A) l : NoDup l.*1 -> NoDup (assoc_set k v l).*1.
Proof.
  induction l as [|[k' v'] l IH]; cbn [assoc_set].
  - intros _. apply NoDup_singleton.
  - destruct (String.eqb_spec k' k) as [->|Hne]; rewrite !fmap_cons; [done|]. cbn [fst].
    rewrite !NoDup_cons, assoc_set_keys. intros [Hk Hl]. split; [|by apply IH]. intros [|]; congruence.
Qed.

(** Where an update takes effect. *)
Lemma assoc_set_split {A} k (v : A) d :
  assoc k d = Some v -> exists l r, d = l ++ (k, v) :: r /\ forall w, assoc_set k w d = l ++ (k, w) :: r.
Proof.
  induction d as [|[k' v'] d IH]; simpl; [done|].
  destruct (String.eqb_spec k' k) as [->|Hne]; intros E; [simplify_eq; by exists [], d|].
  destruct (IH E) as (l & r & -> & Hset). exists ((k', v') :: l), r. split; [done|]. intros w. by rewrite Hset.
Qed.

Lemma assoc_set_fresh {A} k (v : A) d : assoc k d = None -> assoc_set k v d = d ++ [(k, v)].
Proof.
  induction d as [|[k' v'] d IH]; simpl; [done|]. destruct (String.eqb k' k); [done|]. intros E. by rewrite IH.
Qed.

Lemma assoc_mem_Some {A} k (d : list (string * A)) : assoc_mem k d = true <-> exists v, assoc k d = Some v.
Proof. unfold assoc_mem. destruct (assoc k d); naive_solver. Qed.

Lemma eq_str_true v t : eq_str v t = true <-> v = PStr t.
Proof.
  destruct v as [| | | |u| |]; simpl; try naive_solver.
  destruct (String.eqb_spec u t); naive_solver.
Qed.

#[export] Hint Rewrite @assoc_set_eq @assoc_del_eq : s2p.
#[export] Hint Rewrite @assoc_set_ne @assoc_del_ne using congruence : s2p.
