(* ===== verification/FloatOrder.v ===== *)
(** * The order of floats

    Comparison of binary64 numbers other than NaN is a total order: the
    comparison of the standard library follows the sign, the exponent and the
    mantissa, in that order. *)

From Stdlib Require Import SpecFloat.
From S2P Require Import Prelude PyVal.
Local Open Scope Z_scope.

Definition is_nan (f : spec_float) : bool := match f with S754_nan => true | _ => false end.

(** Floats compare as these triples do, in lexicographic order. *)
Definition key (f : spec_float) : Z * Z * Z :=
  match f with
  | S754_infinity true => (-2, 0, 0)
  | S754_finite true m e => (-1, - e, - Z.pos m)
  | S754_zero _ | S754_nan => (0, 0, 0)
  | S754_finite false m e => (1, e, Z.pos m)
  | S754_infinity false => (2, 0, 0)
  end.

Definition lex (a b : Z * Z * Z) : Prop :=
  a.1.1 < b.1.1 \/ a.1.1 = b.1.1 /\ (a.1.2 < b.1.2 \/ a.1.2 = b.1.2 /\ a.2 <= b.2).

Lemma lex_trans a b c : lex a b -> lex b c -> lex a c.
Proof. unfold lex. lia. Qed.

Lemma lex_total a b : lex a b \/ lex b a.
Proof. unfold lex. lia. Qed.

Lemma leb_key f g : is_nan f = false -> is_nan g = false -> F64.leb f g = true <-> lex (key f) (key g).
Proof.
  unfold F64.leb, SFleb, lex. intros Hf Hg.
  destruct f as [s1|[]| |[] m1 e1], g as [s2|[]| |[] m2 e2]; simpl in *; try discriminate;
    try (split; [intros; try discriminate; lia|intros; try reflexivity; lia]).
  all: change (Pos.compare_cont Eq) with Pos.compare.
  all: destruct (Z.compare_spec e1 e2), (Pos.compare_spec m1 m2); simpl; split; intros; try discriminate;
    try reflexivity; lia.
Qed.

Lemma ltb_key f g : is_nan f = false -> is_nan g = false -> F64.ltb f g = true <-> ~ lex (key g) (key f).
Proof.
  unfold F64.ltb, SFltb, lex. intros Hf Hg.
  destruct f as [s1|[]| |[] m1 e1], g as [s2|[]| |[] m2 e2]; simpl in *; try discriminate;
    try (split; [intros; try discriminate; lia|intros; try reflexivity; lia]).
  all: change (Pos.compare_cont Eq) with Pos.compare.
  all: destruct (Z.compare_spec e1 e2), (Pos.compare_spec m1 m2); simpl; split; intros; try discriminate;
    try reflexivity; lia.
Qed.

(** The greater of two numbers passes a threshold exactly when one of them does. *)
Lemma leb_max t a b :
  is_nan t = false -> is_nan a = false -> is_nan b = false ->
  F64.leb t (F64.max a b) = F64.leb t a || F64.leb t b.
Proof.
  intros Ht Ha Hb. unfold F64.max. apply Bool.eq_iff_eq_true. rewrite orb_true_iff.
  destruct (F64.ltb a b) eqn:E.
  - apply (ltb_key a b Ha Hb) in E. rewrite !leb_key by done. split; [auto|]. intros [H|H]; [|done].
    destruct (lex_total (key a) (key b)); [by eapply lex_trans|done].
  - assert (Hle : lex (key b) (key a)).
    { destruct (lex_total (key b) (key a)) as [|Hl]; [done|].
      destruct (F64.leb b a) eqn:E'; [by apply leb_key in E'|]. exfalso.
      assert (F64.ltb a b = true) as Hc; [|congruence]. apply ltb_key; [done..|]. intros Hn.
      apply (leb_key b a Hb Ha) in Hn. congruence. }
    rewrite !leb_key by done. split; [auto|]. intros [H|H]; [done|]. by eapply lex_trans.
Qed.

Lemma max_not_nan a b : is_nan a = false -> is_nan b = false -> is_nan (F64.max a b) = false.
Proof. intros Ha Hb. unfold F64.max. by destruct (F64.ltb a b). Qed.

(** [max(0.0, x)] is never NaN: a NaN loses to 0.0. *)
Lemma max_zero_not_nan x : is_nan (F64.max F64.zero x) = false.
Proof. unfold F64.max. destruct (F64.ltb F64.zero x) eqn:E; [|done]. by destruct x. Qed.

Lemma ltb_leb a b : F64.ltb a b = true -> F64.leb a b = true.
Proof. unfold F64.ltb, F64.leb, SFltb, SFleb. by destruct (SFcompare a b) as [[]|]. Qed.

Lemma leb_foldl_max t i rest :
  is_nan t = false -> is_nan i = false -> Forall (fun f => is_nan f = false) rest ->
  F64.leb t (foldl F64.max i rest) = F64.leb t i || existsb (F64.leb t) rest.
Proof.
  intros Ht Hi Hr. revert i Hi; induction Hr as [|f rest Hf _ IH]; intros i Hi; simpl.
  - by rewrite orb_false_r.
  - rewrite IH by (by apply max_not_nan). rewrite leb_max by done. by rewrite orb_assoc.
Qed.

(** A number between zero and one. *)
Definition in_unit (f : spec_float) : bool := F64.leb F64.zero f && F64.leb f (F64.of_Z 1).

(** ** Sorted floats *)

#[global] Instance lex_dec a b : Decision (lex a b).
Proof. unfold lex. apply _. Defined.

(** Numbers sort into ascending order. *)
Lemma sorted_floats l :
  Forall (fun f => is_nan f = false) l -> StronglySorted (fun a b => F64.leb a b = true) (py_sort F64.ltb l).
Proof.
  intros Hn. rewrite Forall_forall in Hn.
  rewrite (py_sort_ext _ (fun a b => bool_decide (~ lex (key b) (key a)))).
  2: { intros x y Hx Hy. apply Bool.eq_iff_eq_true. rewrite bool_decide_eq_true. apply ltb_key; by apply Hn. }
  assert (StronglySorted (fun a b => lex (key a) (key b)) (py_sort (fun a b => bool_decide (~ lex (key b) (key a))) l)) as Hs.
  { eapply StronglySorted_weaken; [|apply py_sort_StronglySorted].
    - intros a b Hab. unfold not_after in Hab. apply bool_decide_eq_false in Hab. by destruct (decide (lex (key a) (key b))).
    - unfold not_after. intros a b c. rewrite !bool_decide_eq_false. intros Hab Hbc Hac.
      destruct (lex_total (key a) (key c)) as [?|Hca]; [done|]. destruct (decide (lex (key a) (key b))) as [H1|]; [|done].
      destruct (decide (lex (key b) (key c))) as [H2|]; [|done]. apply Hac. by eapply lex_trans.
    - intros a b. rewrite bool_decide_eq_true, bool_decide_eq_false. intros Hba Hab. by destruct (lex_total (key a) (key b)). }
  eapply StronglySorted_weaken_in; [|exact Hs]. intros a b Ha Hb Hab. apply elem_of_py_sort in Ha, Hb. apply leb_key; [by apply Hn..|done].
Qed.

Lemma leb_trans a b c : F64.leb a b = true -> F64.leb b c = true -> F64.leb a c = true.
Proof.
  assert (forall x y, F64.leb x y = true -> is_nan x = false /\ is_nan y = false) as Hn by (intros [] []; done).
  intros Hab Hbc. destruct (Hn _ _ Hab) as [Ha Hb], (Hn _ _ Hbc) as [_ Hc]. rewrite leb_key in * by done. by eapply lex_trans.
Qed.

Lemma leb_ltb_trans a b c : F64.leb a b = true -> F64.ltb b c = true -> F64.ltb a c = true.
Proof.
  intros Hab Hbc. assert (is_nan a = false /\ is_nan b = false /\ is_nan c = false) as (Ha & Hb & Hc) by (by destruct a, b, c).
  rewrite ltb_key in * by done. rewrite leb_key in Hab by done. intros Hca. apply Hbc. by eapply lex_trans.
Qed.

Lemma leb_not_ltb a b : F64.ltb a b = true -> F64.leb b a = false.
Proof.
  intros Hab. assert (is_nan a = false /\ is_nan b = false) as [Ha Hb] by (by destruct a, b).
  apply ltb_key in Hab; [|done..]. destruct (F64.leb b a) eqn:E; [|done]. by apply leb_key in E.
Qed.
