(* ===== verification/Json.v ===== *)
(** * Canonical JSON

    [json.dumps(obj, sort_keys=True, separators=(",", ":"))], the text every
    seal of the governance ledger is a hash of.  A string is written with the
    escapes of the Python encoder; a character outside ASCII is written as its
    UTF-8 bytes where the encoder writes [\uXXXX] for the same code points, so
    two texts are equal here exactly when the encoder's are.

    The text of a float is [float.__repr__], a class here: what the seals rely
    on is that [repr] tells valid floats apart and never looks like an integer.

    The main result is that the canonical text determines the value up to the
    order of dictionary keys ([canonical_inj]). *)

From Stdlib Require Import Ascii SpecFloat.
From S2P Require Import Prelude PyVal.
Local Open Scope string_scope.

(** ** Characters *)

Definition QUOTE : ascii := "034".
Definition BACKSLASH : ascii := "092".

Definition hex_digit (n : nat) : ascii :=
  match String.get n "0123456789abcdef" with Some c => c | None => "0" end%char.

Definition hex_value (c : ascii) : nat :=
  match String.index 0 (String c "") "0123456789abcdef" with Some n => n | None => 0 end.

(** [ESCAPE_DCT] of [json.encoder], with [\u00xx] for the other controls. *)
Definition esc_char (c : ascii) : string :=
  let n := nat_of_ascii c in
  if Ascii.eqb c QUOTE then String BACKSLASH (String QUOTE "")
  else if Ascii.eqb c BACKSLASH then String BACKSLASH (String BACKSLASH "")
  else if Nat.eqb n 10 then String BACKSLASH "n"
  else if Nat.eqb n 13 then String BACKSLASH "r"
  else if Nat.eqb n 9 then String BACKSLASH "t"
  else if Nat.eqb n 8 then String BACKSLASH "b"
  else if Nat.eqb n 12 then String BACKSLASH "f"
  else if Nat.ltb n 32 || Nat.eqb n 127 then
    String BACKSLASH ("u00" +:+ String (hex_digit (n / 16)%nat) (String (hex_digit (n mod 16)%nat) ""))
  else String c "".

Fixpoint esc (s : string) : string :=
  match s with
  | EmptyString => ""
  | String c s => esc_char c +:+ esc s
  end.

Definition quoted (s : string) : string := String QUOTE (esc s +:+ String QUOTE "").

(** The characters number texts are made of. *)
Definition numchar (c : ascii) : bool :=
  match String.index 0 (String c "") "0123456789+-.eNaInfity" with Some _ => true | None => false end.

Class FloatRepr := {
  float_repr : spec_float -> string;
  (** the text is not empty and begins as no JSON word does *)
  float_repr_head f : exists c s, float_repr f = String c s /\ c <> "n"%char /\ c <> "t"%char /\ c <> "f"%char;
  float_repr_chars f : string_Forall (fun c => numchar c = true) (float_repr f);
  float_repr_not_int f (z : Z) : float_repr f <> pretty z;
  float_repr_inj f g :
    valid_binary F64.prec F64.emax f = true -> valid_binary F64.prec F64.emax g = true ->
    float_repr f = float_repr g -> f = g
}.

Section canonical.
Context `{FloatRepr}.

(** ** The encoder *)

Fixpoint print (v : pyval) : string :=
  match v with
  | PNone => "null"
  | PBool true => "true"
  | PBool false => "false"
  | PInt z => pretty z
  | PFloat f => float_repr f
  | PStr s => quoted s
  | PList l => "[" +:+ str_join "," (map print l) +:+ "]"
  | PDict d => "{" +:+ str_join "," (map (fun kv => quoted kv.1 +:+ ":" +:+ print kv.2) d) +:+ "}"
  end.

Definition key_ltb {A} (a b : string * A) : bool := String.ltb a.1 b.1.

(** [sort_keys=True], at every level. *)
Fixpoint norm (v : pyval) : pyval :=
  match v with
  | PList l => PList (map norm l)
  | PDict d => PDict (py_sort key_ltb (map (fun kv => (kv.1, norm kv.2)) d))
  | _ => v
  end.

Definition canonical (v : pyval) : string := print (norm v).

(** [json.dumps] with its default separators, of a value whose keys are in order. *)
Fixpoint dumps (v : pyval) : string :=
  match v with
  | PList l => "[" +:+ str_join ", " (map dumps l) +:+ "]"
  | PDict d => "{" +:+ str_join ", " (map (fun kv => quoted kv.1 +:+ ": " +:+ dumps kv.2) d) +:+ "}"
  | _ => print v
  end.

(** Every float of the value is a binary64 number. *)
Fixpoint floats_valid (v : pyval) : Prop :=
  match v with
  | PFloat f => valid_binary F64.prec F64.emax f = true
  | PList l => fold_right (fun x P => floats_valid x /\ P) True l
  | PDict d => fold_right (fun kv P => floats_valid kv.2 /\ P) True d
  | _ => True
  end.

(** ** Reading an escaped character back *)

Definition unesc (s : string) : option (ascii * string) :=
  match s with
  | EmptyString => None
  | String c r =>
    if Ascii.eqb c QUOTE then None
    else if Ascii.eqb c BACKSLASH then
      match r with
      | String "n" r => Some ("010"%char, r)
      | String "r" r => Some ("013"%char, r)
      | String "t" r => Some ("009"%char, r)
      | String "b" r => Some ("008"%char, r)
      | String "f" r => Some ("012"%char, r)
      | String "u" (String _ (String _ (String h (String l r)))) =>
        Some (ascii_of_nat (16 * hex_value h + hex_value l)%nat, r)
      | String d r => Some (d, r)
      | EmptyString => None
      end
    else Some (c, r)
  end.

Lemma unesc_esc_char c r : unesc (esc_char c +:+ r) = Some (c, r).
Proof. destruct c as [[] [] [] [] [] [] [] []]; reflexivity. Qed.

Lemma unesc_quote r : unesc (String QUOTE r) = None.
Proof. reflexivity. Qed.

Lemma esc_inj s1 s2 r1 r2 :
  esc s1 +:+ String QUOTE r1 = esc s2 +:+ String QUOTE r2 -> s1 = s2 /\ r1 = r2.
Proof.
  revert s2; induction s1 as [|c1 s1 IH]; intros [|c2 s2] E; simpl in E.
  - rewrite !string_app_nil_l in E. by injection E.
  - rewrite string_app_nil_l, string_app_assoc in E.
    apply (f_equal unesc) in E. by rewrite unesc_quote, unesc_esc_char in E.
  - rewrite string_app_nil_l, string_app_assoc in E.
    apply (f_equal unesc) in E. by rewrite unesc_quote, unesc_esc_char in E.
  - rewrite !string_app_assoc in E. apply (f_equal unesc) in E.
    rewrite !unesc_esc_char in E. injection E as -> E.
    by destruct (IH _ E) as [-> ->].
Qed.

Lemma quoted_inj s1 s2 r1 r2 :
  quoted s1 +:+ r1 = quoted s2 +:+ r2 -> s1 = s2 /\ r1 = r2.
Proof.
  unfold quoted. rewrite !string_app_cons, !string_app_assoc. intros [= E].
  by apply esc_inj in E.
Qed.

(** ** Number texts *)

Lemma pretty_N_go_Forall (P : ascii -> Prop) x s :
  (forall n, P (pretty_N_char n)) -> string_Forall P s -> string_Forall P (pretty_N_go x s).
Proof.
  intros HP. revert s. induction (N.lt_wf_0 x) as [x _ IH]; intros s Hs.
  destruct (decide (x = 0%N)) as [->|]; [by rewrite pretty_N_go_0|].
  rewrite pretty_N_go_step by lia. apply IH; [apply N.div_lt; lia|]. by split.
Qed.

Lemma pretty_pos_Forall (P : ascii -> Prop) (p : positive) :
  (forall n, P (pretty_N_char n)) -> string_Forall P (pretty p).
Proof.
  intros HP. unfold pretty, pretty_positive, pretty, pretty_N. rewrite decide_False by done.
  by apply pretty_N_go_Forall.
Qed.

Lemma pretty_Z_Forall (P : ascii -> Prop) (z : Z) :
  (forall n, P (pretty_N_char n)) -> P "-"%char -> string_Forall P (pretty z).
Proof.
  intros HP Hm. destruct z as [|p|p].
  - split; [apply (HP 0%N)|done].
  - by apply pretty_pos_Forall.
  - split; [done|]. by apply pretty_pos_Forall.
Qed.

Lemma pretty_N_go_head x c s :
  (c <> "n" /\ c <> "t" /\ c <> "f")%char ->
  exists c' s', pretty_N_go x (String c s) = String c' s' /\ (c' <> "n" /\ c' <> "t" /\ c' <> "f")%char.
Proof.
  revert c s. induction (N.lt_wf_0 x) as [x _ IH]; intros c s Hc.
  destruct (decide (x = 0%N)) as [->|]; [rewrite pretty_N_go_0; eauto|].
  rewrite pretty_N_go_step by lia. apply IH; [apply N.div_lt; lia|].
  unfold pretty_N_char. by repeat case_match.
Qed.

Lemma pretty_Z_num (z : Z) :
  string_Forall (fun c => numchar c = true) (pretty z) /\
  exists c s, pretty z = String c s /\ (c <> "n" /\ c <> "t" /\ c <> "f")%char.
Proof.
  split.
  { apply pretty_Z_Forall; [|done]. intros n. unfold pretty_N_char. by repeat case_match. }
  destruct z as [|p|p]; [by exists "0"%char, ""| |by eexists _, _].
  unfold pretty, pretty_Z, pretty, pretty_positive, pretty, pretty_N.
  rewrite decide_False by done. rewrite pretty_N_go_step by lia. apply pretty_N_go_head.
  unfold pretty_N_char. by repeat case_match.
Qed.

(** ** What the first character says *)

Inductive tag := TNull | TTrue | TFalse | TNum | TStr | TList | TDict | TOther.

Definition head_tag (s : string) : tag :=
  match s with
  | EmptyString => TOther
  | String c _ =>
    if Ascii.eqb c "n" then TNull else if Ascii.eqb c "t" then TTrue
    else if Ascii.eqb c "f" then TFalse else if Ascii.eqb c QUOTE then TStr
    else if Ascii.eqb c "[" then TList else if Ascii.eqb c "{" then TDict
    else if numchar c then TNum else TOther
  end.

Definition val_tag (v : pyval) : tag :=
  match v with
  | PNone => TNull | PBool true => TTrue | PBool false => TFalse
  | PInt _ | PFloat _ => TNum | PStr _ => TStr | PList _ => TList | PDict _ => TDict
  end.

Lemma head_tag_num c s :
  (c <> "n" /\ c <> "t" /\ c <> "f")%char -> numchar c = true -> head_tag (String c s) = TNum.
Proof.
  intros (H1 & H2 & H3) Hc. simpl.
  rewrite (proj2 (Ascii.eqb_neq c "n") H1), (proj2 (Ascii.eqb_neq c "t") H2),
    (proj2 (Ascii.eqb_neq c "f") H3).
  destruct (Ascii.eqb_spec c QUOTE) as [->|_]; [done|].
  destruct (Ascii.eqb_spec c "[") as [->|_]; [done|].
  destruct (Ascii.eqb_spec c "{") as [->|_]; [done|]. by rewrite Hc.
Qed.

Lemma print_tag v r : head_tag (print v +:+ r) = val_tag v.
Proof.
  destruct v as [|[]|z|f|s|l|d]; try reflexivity; simpl.
  - destruct (pretty_Z_num z) as [Hn (c & s & E & Hc)]. rewrite E in *.
    apply head_tag_num; [done|]. by destruct Hn.
  - destruct (float_repr_head f) as (c & s & E & Hc). pose proof (float_repr_chars f) as Hn.
    rewrite E in *. apply head_tag_num; [done|]. by destruct Hn.
Qed.

(** ** Injectivity *)

(** What may follow a value: nothing, a comma or a closing bracket. *)
Definition stop (r : string) : Prop :=
  match r with EmptyString => True | String c _ => numchar c = false end.

(** [p x] can be read back in front of any [stop] text. *)
Definition readable {A} (p : A -> string) (Q : A -> Prop) (x : A) : Prop :=
  forall y r1 r2, Q y -> stop r1 -> stop r2 -> p x +:+ r1 = p y +:+ r2 -> x = y /\ r1 = r2.

Section join.
Context {A : Type} (p : A -> string) (Q : A -> Prop) (close : ascii).
Hypothesis Hcomma : close <> ","%char.
Hypothesis Hclose : numchar close = false.
Hypothesis Hhead : forall x r r', p x +:+ r <> String close r'.

Let rest (l : list A) : string := foldr (fun y acc => "," +:+ y +:+ acc) "" (map p l).

Lemma rest_stop l r : stop (rest l +:+ String close r).
Proof. by unfold rest; destruct l. Qed.

Lemma rest_inj l1 l2 r1 r2 :
  Forall (readable p Q) l1 -> Forall Q l2 ->
  rest l1 +:+ String close r1 = rest l2 +:+ String close r2 -> l1 = l2 /\ r1 = r2.
Proof.
  intros Hl1. revert l2; induction Hl1 as [|x l1 Hx _ IH]; intros l2 Hl2 E;
    destruct Hl2 as [|y l2 Hy Hl2]; unfold rest in E; simpl in E.
  - rewrite !string_app_nil_l in E. by simplify_eq.
  - rewrite string_app_nil_l, !string_app_cons in E. by simplify_eq.
  - rewrite string_app_nil_l, !string_app_cons in E. by simplify_eq.
  - rewrite !string_app_cons, !string_app_nil_l in E. injection E as E.
    rewrite !string_app_assoc in E. fold (rest l1) (rest l2) in E.
    apply Hx in E as [-> E]; [|done|apply rest_stop..].
    by destruct (IH _ Hl2 E) as [-> ->].
Qed.

Lemma join_inj l1 l2 r1 r2 :
  Forall (readable p Q) l1 -> Forall Q l2 ->
  str_join "," (map p l1) +:+ String close r1 = str_join "," (map p l2) +:+ String close r2 ->
  l1 = l2 /\ r1 = r2.
Proof.
  intros [|x l1' Hx Hl1] [|y l2' Hy Hl2] E; simpl in E.
  - rewrite !string_app_nil_l in E. by simplify_eq.
  - rewrite string_app_nil_l, string_app_assoc in E. symmetry in E. by apply Hhead in E.
  - rewrite string_app_nil_l, string_app_assoc in E. by apply Hhead in E.
  - rewrite !string_app_assoc in E. fold (rest l1') (rest l2') in E.
    apply Hx in E as [-> E]; [|done|apply rest_stop..].
    by destruct (rest_inj _ _ _ _ Hl1 Hl2 E) as [-> ->].
Qed.
End join.

Lemma floats_valid_list l : floats_valid (PList l) <-> Forall floats_valid l.
Proof.
  induction l as [|x l IH]; simpl; [done|]. rewrite Forall_cons. by rewrite <- IH.
Qed.

Lemma floats_valid_dict d : floats_valid (PDict d) <-> Forall (fun kv => floats_valid kv.2) d.
Proof.
  induction d as [|x l IH]; simpl; [done|]. rewrite Forall_cons. by rewrite <- IH.
Qed.

Lemma print_head_not_close v r c r' :
  head_tag (String c "") = TOther -> print v +:+ r <> String c r'.
Proof.
  intros Hc E. apply (f_equal head_tag) in E. rewrite print_tag in E.
  change (head_tag (String c r')) with (head_tag (String c "")) in E.
  rewrite Hc in E. by destruct v as [|[]| | | | |].
Qed.

Lemma number_inj v1 v2 r1 r2 :
  val_tag v1 = TNum -> val_tag v2 = TNum -> floats_valid v1 -> floats_valid v2 ->
  stop r1 -> stop r2 -> print v1 +:+ r1 = print v2 +:+ r2 -> v1 = v2 /\ r1 = r2.
Proof.
  assert (forall v, val_tag v = TNum -> string_Forall (fun c => numchar c = true) (print v)) as Hnum.
  { intros [|[]|z|f| | |] ?; simplify_eq; [apply pretty_Z_num|apply float_repr_chars]. }
  intros T1 T2 V1 V2 S1 S2 E.
  destruct (string_split_unique (fun c => numchar c = true) (print v1) (print v2) r1 r2)
    as [Ep ->]; auto.
  { destruct r1; [done|]. simpl in *. congruence. }
  { destruct r2; [done|]. simpl in *. congruence. }
  split; [|done].
  destruct v1 as [|[]|z1|f1| | |]; simplify_eq; destruct v2 as [|[]|z2|f2| | |]; simplify_eq;
    simpl in *.
  - f_equal. by apply (inj pretty).
  - by destruct (float_repr_not_int f2 z1).
  - by destruct (float_repr_not_int f1 z2).
  - f_equal. by apply float_repr_inj.
Qed.

(** A printed value can be read back in front of any delimiter. *)
Lemma print_readable v : floats_valid v -> readable print floats_valid v.
Proof.
  induction v as [|b|z|f|s|l IH|d IH] using pyval_rect'; intros Hv v2 r1 r2 V2 S1 S2 E;
    pose proof (f_equal head_tag E) as T; rewrite !print_tag in T.
  - destruct v2 as [|[]| | | | |]; simplify_eq T. simpl in E. split; [done|]. by apply string_app_inv_l in E.
  - destruct b, v2 as [|[]| | | | |]; simplify_eq T; split; try done; by apply string_app_inv_l in E.
  - eapply number_inj; eauto.
  - eapply number_inj; eauto.
  - destruct v2 as [|[]| | | | |]; simplify_eq T. simpl in E.
    by apply quoted_inj in E as [-> ->].
  - destruct v2 as [|[]| | | |l2|]; simplify_eq T. apply floats_valid_list in Hv, V2.
    simpl in E. rewrite !string_app_cons, !string_app_nil_l in E. injection E as E.
    rewrite !string_app_assoc in E.
    apply (join_inj print floats_valid "]") in E as [-> ->]; try done.
    + intros. by apply print_head_not_close.
    + apply Forall_forall. intros x Hx. rewrite Forall_forall in IH, Hv. by apply IH, Hv.
  - destruct v2 as [|[]| | | | |d2]; simplify_eq T. apply floats_valid_dict in Hv, V2.
    simpl in E. rewrite !string_app_cons, !string_app_nil_l in E. injection E as E.
    rewrite !string_app_assoc in E.
    apply (join_inj _ (fun kv => floats_valid kv.2) "}") in E as [-> ->]; try done.
    apply Forall_forall. intros [k x] Hx [k2 y] s1 s2 Hy Hs1 Hs2 E'. simpl in *.
    rewrite !string_app_assoc in E'. apply quoted_inj in E' as [-> E'].
    rewrite !string_app_cons, !string_app_nil_l in E'. injection E' as E'.
    rewrite Forall_forall in IH, Hv. specialize (IH _ Hx (Hv _ Hx)). simpl in IH.
    by destruct (IH _ _ _ Hy Hs1 Hs2 E') as [-> ->].
Qed.

Lemma norm_floats_valid v : floats_valid v -> floats_valid (norm v).
Proof.
  induction v as [| | | | |l IH|d IH] using pyval_rect'; intros Hv; simpl; try done.
  - apply floats_valid_list in Hv. apply floats_valid_list. fold norm.
    rewrite Forall_forall in *. intros x [y [-> Hy]]%list_elem_of_fmap. auto.
  - apply floats_valid_dict in Hv. apply floats_valid_dict. rewrite py_sort_perm.
    rewrite Forall_forall in *. intros x [y [-> Hy]]%list_elem_of_fmap. simpl. auto.
Qed.

(** Values with the same canonical text are the same up to the order of
    dictionary keys. *)
Lemma canonical_inj v1 v2 :
  floats_valid v1 -> floats_valid v2 -> canonical v1 = canonical v2 -> norm v1 = norm v2.
Proof.
  intros V1 V2 E. unfold canonical in E.
  apply (print_readable _ (norm_floats_valid _ V1) (norm v2) "" ""); try done.
  - by apply norm_floats_valid.
  - by rewrite E.
Qed.

Lemma canonical_dict_head d : exists r, canonical (PDict d) = String "{" r.
Proof. unfold canonical. simpl. eauto. Qed.
End canonical.

(** ** A rendering of floats that satisfies the class

    The sign, the binary mantissa and the binary exponent.  It is not the text
    [repr] prints; it shows that the class has instances. *)

Definition demo_repr (f : spec_float) : string :=
  match f with
  | S754_zero false => "0.0"
  | S754_zero true => "-0.0"
  | S754_infinity false => "Infinity"
  | S754_infinity true => "-Infinity"
  | S754_nan => "NaN"
  | S754_finite s m e => "+" +:+ (if s then "-" else "+") +:+ pretty m +:+ "e" +:+ pretty e
  end.

Lemma demo_num_split (p q : positive) (e1 e2 : Z) :
  pretty p +:+ "e" +:+ pretty e1 = pretty q +:+ "e" +:+ pretty e2 -> p = q /\ e1 = e2.
Proof.
  intros E.
  assert (forall p : positive, string_Forall (fun c => c <> "e"%char) (pretty p)) as Hp.
  { intros r. apply pretty_pos_Forall. intros n. unfold pretty_N_char. by repeat case_match. }
  apply (string_split_unique (fun c => c <> "e"%char)) in E as [Ep He];
    [|apply Hp..|simpl; tauto|simpl; tauto].
  split; [by apply (inj pretty)|]. injection He as He. by apply (inj pretty).
Qed.

Lemma demo_not_int f (z : Z) : demo_repr f <> pretty z.
Proof.
  assert (string_Forall (fun c => numchar c = true /\ ~ (c = "." \/ c = "I" \/ c = "N" \/ c = "+")%char)
    (pretty z)) as Hz.
  { apply pretty_Z_Forall; [|by split; [|naive_solver]]. intros n. unfold pretty_N_char.
    repeat case_match; (split; [done|naive_solver]). }
  intros E. rewrite <- E in Hz.
  destruct f as [[]|[]| |[] m e]; simpl in Hz; try naive_solver.
Qed.

Program Definition demo_float_repr : FloatRepr := {| float_repr := demo_repr |}.
Next Obligation. by destruct f as [[]|[]| |[] m e]; eexists _, _. Qed.
Next Obligation.
  destruct f as [[]|[]| |s m e]; try (compute; tauto). simpl.
  rewrite !string_Forall_app. repeat split.
  - by destruct s; compute.
  - apply (pretty_Z_num (Zpos m)).
  - apply pretty_Z_num.
Qed.
Next Obligation. apply demo_not_int. Qed.
Next Obligation.
  intros f g _ _.
  destruct f as [[]|[]| |[] m e], g as [[]|[]| |[] m' e']; simpl; try discriminate; try done;
    rewrite ?string_app_cons, ?string_app_nil_l; intros [= E];
    by apply demo_num_split in E as [-> ->].
Qed.
