(* ===== verification/Sha256.v ===== *)
(** * SHA-256

    [hashlib.sha256(data).hexdigest()], from FIPS 180-4: 32-bit words are
    integers kept below [2^32], a message is a string of bytes.  The theorems
    of the development never look inside it: where a seal matters they conclude
    "or these two messages, both of them hashed here, have the same digest". *)

From Stdlib Require Import Ascii.
From S2P Require Import Prelude.
Local Open Scope Z_scope.

Definition w32 (x : Z) : Z := Z.land x 4294967295.
Definition rotr (x n : Z) : Z := w32 (Z.lor (Z.shiftr x n) (Z.shiftl x (32 - n))).

Definition round_constants : list Z := [
  1116352408; 1899447441; 3049323471; 3921009573; 961987163; 1508970993; 2453635748; 2870763221;
  3624381080; 310598401; 607225278; 1426881987; 1925078388; 2162078206; 2614888103; 3248222580;
  3835390401; 4022224774; 264347078; 604807628; 770255983; 1249150122; 1555081692; 1996064986;
  2554220882; 2821834349; 2952996808; 3210313671; 3336571891; 3584528711; 113926993; 338241895;
  666307205; 773529912; 1294757372; 1396182291; 1695183700; 1986661051; 2177026350; 2456956037;
  2730485921; 2820302411; 3259730800; 3345764771; 3516065817; 3600352804; 4094571909; 275423344;
  430227734; 506948616; 659060556; 883997877; 958139571; 1322822218; 1537002063; 1747873779;
  1955562222; 2024104815; 2227730452; 2361852424; 2428436474; 2756734187; 3204031479; 3329325298].

Definition initial_state : list Z :=
  [1779033703; 3144134277; 1013904242; 2773480762; 1359893119; 2600822924; 528734635; 1541459225].

Definition bytes_of (s : string) : list Z :=
  map (fun c => Z.of_N (N_of_ascii c)) (String.list_ascii_of_string s).

(** The padded message: a one bit, zeros, and the bit length on 64 bits. *)
Definition pad (m : list Z) : list Z :=
  let n := Z.of_nat (length m) in
  let zeros := Z.to_nat ((55 - n) mod 64) in
  m ++ [128] ++ replicate zeros 0 ++
  map (fun i => Z.land (Z.shiftr (8 * n) (8 * i)) 255) [7; 6; 5; 4; 3; 2; 1; 0].

Fixpoint words (m : list Z) : list Z :=
  match m with
  | a :: b :: c :: d :: m' => (((a * 256 + b) * 256 + c) * 256 + d) :: words m'
  | _ => []
  end.

(** The message schedule, most recent word first. *)
Fixpoint schedule (n : nat) (rev_w : list Z) : list Z :=
  match n with
  | O => rev_w
  | S n =>
    let w i := nth (i - 1) rev_w 0 in
    let s0 := Z.lxor (Z.lxor (rotr (w 15%nat) 7) (rotr (w 15%nat) 18)) (Z.shiftr (w 15%nat) 3) in
    let s1 := Z.lxor (Z.lxor (rotr (w 2%nat) 17) (rotr (w 2%nat) 19)) (Z.shiftr (w 2%nat) 10) in
    schedule n (w32 (w 16%nat + s0 + w 7%nat + s1) :: rev_w)
  end.

Definition compress_step (st : list Z) (kw : Z * Z) : list Z :=
  match st with
  | [a; b; c; d; e; f; g; h] =>
    let s1 := Z.lxor (Z.lxor (rotr e 6) (rotr e 11)) (rotr e 25) in
    let ch := Z.lxor (Z.land e f) (Z.land (w32 (Z.lnot e)) g) in
    let t1 := h + s1 + ch + kw.1 + kw.2 in
    let s0 := Z.lxor (Z.lxor (rotr a 2) (rotr a 13)) (rotr a 22) in
    let maj := Z.lxor (Z.lxor (Z.land a b) (Z.land a c)) (Z.land b c) in
    [w32 (t1 + s0 + maj); a; b; c; w32 (d + t1); e; f; g]
  | _ => st
  end.

Definition compress (st block : list Z) : list Z :=
  let w := rev (schedule 48 (rev block)) in
  let st' := fold_left compress_step (zip round_constants w) st in
  map (fun p => w32 (p.1 + p.2)) (zip st st').

Fixpoint blocks (fuel : nat) (w st : list Z) : list Z :=
  match fuel, w with
  | S fuel, _ :: _ => blocks fuel (drop 16 w) (compress st (take 16 w))
  | _, _ => st
  end.

Definition hex_char (n : Z) : ascii :=
  match String.get (Z.to_nat n) "0123456789abcdef" with Some c => c | None => "0"%char end.

Definition hex_word (x : Z) : string :=
  String.string_of_list_ascii (map (fun i => hex_char (Z.land (Z.shiftr x (4 * i)) 15)) [7; 6; 5; 4; 3; 2; 1; 0]).

Definition sha256_hex (s : string) : string :=
  let w := words (pad (bytes_of s)) in
  str_join "" (map hex_word (blocks (S (length w)) w initial_state)).

(** The vectors of FIPS 180-4 for one and two blocks. *)
Example sha256_abc :
  sha256_hex "abc" = "ba7816bf8f01cfea414140de5dae2223b00361a396177a9cb410ff61f20015ad"%string.
Proof. vm_compute. reflexivity. Qed.

Example sha256_empty :
  sha256_hex "" = "e3b0c44298fc1c149afbf4c8996fb92427ae41e4649b934ca495991b7852b855"%string.
Proof. vm_compute. reflexivity. Qed.

Example sha256_two_blocks :
  sha256_hex "abcdbcdecdefdefgefghfghighijhijkijkljklmklmnlmnomnopnopq"
  = "248d6a61d20638b8e5c026930c3e6039a33ce45964ff2167f6ecedd419db06c1"%string.
Proof. vm_compute. reflexivity. Qed.

(** A digest is written in hexadecimal digits. *)
Lemma sha256_hex_chars (P : ascii -> Prop) s : (forall n, P (hex_char n)) -> string_Forall P (sha256_hex s).
Proof.
  intros HP. unfold sha256_hex. generalize (blocks (S (length (words (pad (bytes_of s))))) (words (pad (bytes_of s))) initial_state).
  assert (Hw : forall x, string_Forall P (hex_word x)) by (intros x; repeat (split; [apply HP|]); done).
  intros [|x l]; cbn [map str_join]; [done|]. apply string_Forall_app. split; [done|].
  induction l as [|y l IH]; cbn [map foldr]; [done|]. rewrite string_app_nil_l. apply string_Forall_app. auto.
Qed.

(** Distinct messages with one digest, one from each list.  The lists are the
    messages two concrete runs hashed, so this exhibits a collision rather
    than asserting that one exists somewhere. *)
Definition collision_between (M1 M2 : list string) : Prop :=
  exists m1 m2, m1 ∈ M1 /\ m2 ∈ M2 /\ m1 <> m2 /\ sha256_hex m1 = sha256_hex m2.

Lemma sha256_eq_or_collision m1 m2 (M1 M2 : list string) :
  m1 ∈ M1 -> m2 ∈ M2 -> sha256_hex m1 = sha256_hex m2 -> m1 = m2 \/ collision_between M1 M2.
Proof.
  intros H1 H2 E. destruct (decide (m1 = m2)) as [->|Hne]; [by left|].
  right. by exists m1, m2.
Qed.

Lemma collision_between_mono M1 M2 M1' M2' :
  M1 ⊆ M1' -> M2 ⊆ M2' -> collision_between M1 M2 -> collision_between M1' M2'.
Proof. intros H1 H2 (m1 & m2 & ? & ? & ?). exists m1, m2. eauto. Qed.

(** Digests stay folded in proofs; [vm_compute] evaluates them in witnesses. *)
#[global] Opaque sha256_hex.
