(* ===== verification/Sha1.v ===== *)
(** * SHA-1

    [hashlib.sha1(data).hexdigest()], from FIPS 180-4, with the padding and the
    words of SHA-256.  It names git blobs and seals nothing. *)

From Stdlib Require Import Ascii.
From S2P Require Import Prelude Sha256.
Local Open Scope Z_scope.

Definition rotl (x n : Z) : Z := w32 (Z.lor (Z.shiftl x n) (Z.shiftr x (32 - n))).

(** The message schedule, most recent word first. *)
Fixpoint schedule1 (n : nat) (rev_w : list Z) : list Z :=
  match n with
  | O => rev_w
  | S n =>
    let w i := nth (i - 1) rev_w 0 in
    schedule1 n (rotl (Z.lxor (Z.lxor (w 3%nat) (w 8%nat)) (Z.lxor (w 14%nat) (w 16%nat))) 1 :: rev_w)
  end.

(** The function and the constant of round [t]. *)
Definition round1 (t : nat) (b c d : Z) : Z * Z :=
  if Nat.ltb t 20 then (Z.lxor (Z.land b c) (Z.land (w32 (Z.lnot b)) d), 1518500249)
  else if Nat.ltb t 40 then (Z.lxor (Z.lxor b c) d, 1859775393)
  else if Nat.ltb t 60 then (Z.lxor (Z.lxor (Z.land b c) (Z.land b d)) (Z.land c d), 2400959708)
  else (Z.lxor (Z.lxor b c) d, 3395469782).

Definition step1 (st : list Z) (tw : nat * Z) : list Z :=
  match st with
  | [a; b; c; d; e] =>
    let (f, k) := round1 tw.1 b c d in
    [w32 (rotl a 5 + f + e + k + tw.2); a; rotl b 30; c; d]
  | _ => st
  end.

Definition compress1 (st block : list Z) : list Z :=
  let w := rev (schedule1 64 (rev block)) in
  let st' := fold_left step1 (zip (seq 0 80) w) st in
  map (fun p => w32 (p.1 + p.2)) (zip st st').

Fixpoint blocks1 (fuel : nat) (w st : list Z) : list Z :=
  match fuel, w with
  | S fuel, _ :: _ => blocks1 fuel (drop 16 w) (compress1 st (take 16 w))
  | _, _ => st
  end.

Definition sha1_hex (s : string) : string :=
  let w := words (pad (bytes_of s)) in
  str_join "" (map hex_word (blocks1 (S (length w)) w [1732584193; 4023233417; 2562383102; 271733878; 3285377520])).

Example sha1_abc : sha1_hex "abc" = "a9993e364706816aba3e25717850c26c9cd0d89d"%string.
Proof. vm_compute. reflexivity. Qed.

Example sha1_two_blocks :
  sha1_hex "abcdbcdecdefdefgefghfghighijhijkijkljklmklmnlmnomnopnopq" = "84983e441c3bd26ebaae4aa1f95129e5e54670f1"%string.
Proof. vm_compute. reflexivity. Qed.

#[global] Opaque sha1_hex.
