(* ===== verification/PyText.v ===== *)
(** * Texts of Python values

    [repr], [str], the [:.3f] format and [str.strip], which the modelled code
    uses to build the reasons it stores in sealed records.  A character outside
    ASCII is taken to be printable, so [repr] keeps it. *)

From Stdlib Require Import Ascii SpecFloat.
From S2P Require Import Prelude PyVal Json.
Local Open Scope string_scope.

(** ** Strings *)

Fixpoint string_mem (c : ascii) (s : string) : bool :=
  match s with EmptyString => false | String d s => Ascii.eqb c d || string_mem c s end.

Definition APOSTROPHE : ascii := "039".

Definition repr_char (q c : ascii) : string :=
  let n := nat_of_ascii c in
  if Ascii.eqb c q || Ascii.eqb c BACKSLASH then String BACKSLASH (String c "")
  else if Nat.eqb n 10 then String BACKSLASH "n"
  else if Nat.eqb n 13 then String BACKSLASH "r"
  else if Nat.eqb n 9 then String BACKSLASH "t"
  else if Nat.ltb n 32 || Nat.eqb n 127 then
    String BACKSLASH ("x" +:+ String (hex_digit (n / 16)%nat) (String (hex_digit (n mod 16)%nat) ""))
  else String c "".

(** The quote is double only when the text has an apostrophe and no quote. *)
Definition repr_str (s : string) : string :=
  let q := if string_mem APOSTROPHE s && negb (string_mem QUOTE s) then QUOTE else APOSTROPHE in
  let fix go s := match s with EmptyString => String q "" | String c s => repr_char q c +:+ go s end in
  String q (go s).

Definition is_space (c : ascii) : bool :=
  let n := nat_of_ascii c in (Nat.leb 9 n && Nat.leb n 13) || (Nat.leb 28 n && Nat.leb n 32).

Fixpoint lstrip (s : string) : string :=
  match s with
  | EmptyString => ""
  | String c s' => if is_space c then lstrip s' else s
  end.

Fixpoint rstrip (s : string) : string :=
  match s with
  | EmptyString => ""
  | String c s' =>
    match rstrip s' with
    | EmptyString => if is_space c then "" else String c ""
    | r => String c r
    end
  end.

Definition py_strip (s : string) : string := rstrip (lstrip s).

Definition lower_char (c : ascii) : ascii :=
  let n := nat_of_ascii c in if Nat.leb 65 n && Nat.leb n 90 then ascii_of_nat (n + 32) else c.

Fixpoint string_map (f : ascii -> ascii) (s : string) : string :=
  match s with EmptyString => "" | String c s => String (f c) (string_map f s) end.

(** [s.lower()], for ASCII letters. *)
Definition py_lower (s : string) : string := string_map lower_char s.

(** [s.replace(a, b)] for single characters. *)
Definition replace_char (a b : ascii) (s : string) : string :=
  string_map (fun c => if Ascii.eqb c a then b else c) s.

Fixpoint ends_with (suffix s : string) : bool :=
  String.eqb s suffix || match s with EmptyString => false | String _ s => ends_with suffix s end.

Fixpoint str_drop (n : nat) (s : string) : string :=
  match n, s with S n, String _ s => str_drop n s | _, _ => s end.

(** The text before and after the first place where [sep] occurs. *)
Fixpoint str_cut (sep s : string) : option (string * string) :=
  if String.prefix sep s then Some ("", str_drop (String.length sep) s)
  else match s with
       | EmptyString => None
       | String c s => match str_cut sep s with Some (a, b) => Some (String c a, b) | None => None end
       end.

(** [s.split(sep, 1)[0]] and [s.split(sep, 1)[-1]]. *)
Definition split_head (sep s : string) : string := match str_cut sep s with Some (a, _) => a | None => s end.
Definition split_rest (sep s : string) : string := match str_cut sep s with Some (_, b) => b | None => s end.

(** [s.split(c)] for one character. *)
Fixpoint split_char (c : ascii) (s : string) : list string :=
  match s with
  | EmptyString => [""]
  | String d s =>
    if Ascii.eqb d c then "" :: split_char c s
    else match split_char c s with p :: ps => String d p :: ps | [] => [String d ""] end
  end.

Definition split_last (c : ascii) (s : string) : string := List.last (split_char c s) "".

(** ** Numbers *)

Definition digit_value (c : ascii) : option Z :=
  let n := nat_of_ascii c in
  if Nat.leb 48 n && Nat.leb n 57 then Some (Z.of_nat (n - 48)%nat) else None.

(** The digits of [int(s)], with single underscores between digits. *)
Fixpoint digits (acc : Z) (s : string) : option Z :=
  match s with
  | EmptyString => Some acc
  | String c s' =>
    match digit_value c with
    | Some d => digits (10 * acc + d) s'
    | None =>
      if Ascii.eqb c "_" then
        match s' with
        | String c' s'' => match digit_value c' with Some d => digits (10 * acc + d) s'' | None => None end
        | EmptyString => None
        end
      else None
    end
  end%Z.

Definition unsigned_digits (s : string) : option Z :=
  match s with
  | String c s => match digit_value c with Some d => digits d s | None => None end
  | EmptyString => None
  end.

(** [int(s)] of a text in base ten. *)
Definition py_int (s : string) : res Z :=
  of_option (ValueError "invalid literal for int() with base 10")
    match py_strip s with
    | String c s' =>
      if Ascii.eqb c "-" then option_map Z.opp (unsigned_digits s')
      else if Ascii.eqb c "+" then unsigned_digits s'
      else unsigned_digits (String c s')
    | EmptyString => None
    end.

Definition pad3 (n : Z) : string :=
  pretty (n / 100)%Z +:+ pretty ((n / 10) mod 10)%Z +:+ pretty (n mod 10)%Z.

(** [m * 2^e * 1000] to the nearest integer, ties to even. *)
Definition milli (m : positive) (e : Z) : Z :=
  (let n := Z.pos m * 1000 in
   if 0 <=? e then n * 2 ^ e
   else let d := 2 ^ (- e) in
        let q := n / d in
        match 2 * (n mod d) ?= d with
        | Lt => q
        | Gt => q + 1
        | Eq => if Z.even q then q else q + 1
        end)%Z.

(** [f"{x:.3f}"]. *)
Definition fmt3 (f : spec_float) : string :=
  let body q := pretty (q / 1000)%Z +:+ "." +:+ pad3 (q mod 1000)%Z in
  match f with
  | S754_zero s => (if s then "-" else "") +:+ body 0%Z
  | S754_finite s m e => (if s then "-" else "") +:+ body (milli m e)
  | S754_infinity s => if s then "-inf" else "inf"
  | S754_nan => "nan"
  end.

Definition digit_char (n : Z) : ascii := ascii_of_nat (48 + Z.to_nat n)%nat.

(** [f"{n:0wd}"] for a number of at most [w] digits. *)
Fixpoint zero_padded (w : nat) (n : Z) : string :=
  match w with
  | O => ""
  | S w => zero_padded w (n / 10)%Z +:+ String (digit_char (n mod 10)%Z) ""
  end.

(** [m * 2^e * 10^k] to the nearest integer, ties to even. *)
Definition scaled (k : nat) (m : positive) (e : Z) : Z :=
  (let n := Z.pos m * 10 ^ Z.of_nat k in
   if 0 <=? e then n * 2 ^ e
   else let d := 2 ^ (- e) in
        let q := n / d in
        match 2 * (n mod d) ?= d with
        | Lt => q
        | Gt => q + 1
        | Eq => if Z.even q then q else q + 1
        end)%Z.

(** [f"{x:.kf}"], for a positive number of digits. *)
Definition fmt_fixed (k : nat) (f : spec_float) : string :=
  let body q := pretty (q / 10 ^ Z.of_nat k)%Z +:+ "." +:+ zero_padded k (q mod 10 ^ Z.of_nat k)%Z in
  match f with
  | S754_zero s => (if s then "-" else "") +:+ body 0%Z
  | S754_finite s m e => (if s then "-" else "") +:+ body (scaled k m e)
  | S754_infinity s => if s then "-inf" else "inf"
  | S754_nan => "nan"
  end.

(** [n / d] to the nearest integer, ties to even. *)
Definition nearest (n d : Z) : Z :=
  (let q := n / d in
   match 2 * (n mod d) ?= d with
   | Lt => q
   | Gt => q + 1
   | Eq => if Z.even q then q else q + 1
   end)%Z.

(** The [p] significant digits of [m * 2^e] and its decimal exponent.  No
    positive float is below [10^-400]. *)
Definition significant (p : nat) (m : positive) (e : Z) : Z * Z :=
  (let num := if 0 <=? e then Z.pos m * 2 ^ e else Z.pos m in
   let den := if 0 <=? e then 1 else 2 ^ (- e) in
   let x := Z.of_nat (String.length (pretty (num * 10 ^ 400 / den))) - 401 in
   let k := Z.of_nat p - 1 - x in
   let d := if 0 <=? k then nearest (num * 10 ^ k) den else nearest num (den * 10 ^ (- k)) in
   if d =? 10 ^ Z.of_nat p then (10 ^ (Z.of_nat p - 1), x + 1) else (d, x))%Z.

Fixpoint strip_zeros (s : string) : string :=
  match s with
  | EmptyString => ""
  | String c s => match strip_zeros s with
                  | EmptyString => if Ascii.eqb c "0" then "" else String c ""
                  | r => String c r
                  end
  end.

Definition with_fraction (i frac : string) : string :=
  match strip_zeros frac with EmptyString => i | r => i +:+ "." +:+ r end.

Fixpoint str_take (n : nat) (s : string) : string :=
  match n, s with S n, String c s => String c (str_take n s) | _, _ => "" end.

Fixpoint str_repeat (n : nat) (c : ascii) : string :=
  match n with O => "" | S n => String c (str_repeat n c) end.

(** [f"{x:.pg}"]. *)
Definition fmt_g (p : nat) (f : spec_float) : string :=
  match f with
  | S754_zero s => if s then "-0" else "0"
  | S754_infinity s => if s then "-inf" else "inf"
  | S754_nan => "nan"
  | S754_finite s m e =>
    let (d, x) := significant p m e in
    let ds := zero_padded p d in
    (if s then "-" else "") +:+
    (if (0 <=? x)%Z && (x <? Z.of_nat p)%Z then
       let i := Z.to_nat (x + 1) in with_fraction (str_take i ds) (str_drop i ds)
     else if (-4 <=? x)%Z && (x <? 0)%Z then with_fraction "0" (str_repeat (Z.to_nat (- x - 1)) "0" +:+ ds)
     else with_fraction (str_take 1 ds) (str_drop 1 ds) +:+ "e" +:+ (if (x <? 0)%Z then "-" else "+") +:+
          (if (Z.abs x <? 10)%Z then "0" else "") +:+ pretty (Z.abs x))
  end.

(** [round(x, k)]: the decimal with [k] digits nearest to the exact value (ties
    to even), read back as a float. *)
Definition py_round (k : nat) (f : spec_float) : spec_float :=
  (match f with
   | S754_finite s m e =>
     let n := Z.pos m * 10 ^ Z.of_nat k in
     let q := if 0 <=? e then n * 2 ^ e
              else let d := 2 ^ (- e) in
                   let q := n / d in
                   match 2 * (n mod d) ?= d with
                   | Lt => q
                   | Gt => q + 1
                   | Eq => if Z.even q then q else q + 1
                   end in
     match q with
     | Z.pos p => match F64.of_dec p k with S754_finite _ m' e' => S754_finite s m' e' | r => r end
     | _ => S754_zero s
     end
   | _ => f
   end)%Z.

(** [float(z)]: an integer that rounds past the largest float raises. *)
Definition float_of_int (z : Z) : res spec_float :=
  let f := F64.of_Z z in
  if F64.is_finite f then Ok f else Raise (OtherError "int too large to convert to float").

(** A run of digits with single underscores between them: their value, how
    many there are, and the rest of the text. *)
Fixpoint digit_run (acc : Z) (n : nat) (s : string) : Z * nat * string :=
  match s with
  | EmptyString => (acc, n, s)
  | String c s' =>
    match digit_value c with
    | Some d => digit_run (10 * acc + d) (S n) s'
    | None =>
      match n, s' with
      | S _, String c' s'' =>
        match digit_value c' with
        | Some d => if Ascii.eqb c "_" then digit_run (10 * acc + d) (S n) s'' else (acc, n, s)
        | None => (acc, n, s)
        end
      | _, _ => (acc, n, s)
      end
    end
  end%Z.

(** The exponent of a float literal, if the rest of the text is one. *)
Definition exponent (s : string) : option Z :=
  match s with
  | EmptyString => Some 0%Z
  | String c s =>
    if Ascii.eqb c "e" then
      match s with
      | String c' s' =>
        let neg := Ascii.eqb c' "-" in
        let body := if neg || Ascii.eqb c' "+" then s' else s in
        match digit_run 0 0 body with
        | (v, S _, EmptyString) => Some (if neg then - v else v)%Z
        | _ => None
        end
      | EmptyString => None
      end
    else None
  end.

(** [m * 10^x], rounded to a float. *)
Definition decimal (m x : Z) : spec_float :=
  match m with
  | Z.pos p => if (0 <=? x)%Z then F64.of_Z (m * 10 ^ x) else F64.of_dec p (Z.to_nat (- x))
  | _ => F64.zero
  end.

Definition float_body (s : string) : option spec_float :=
  if String.eqb s "inf" || String.eqb s "infinity" then Some F64.inf
  else if String.eqb s "nan" then Some S754_nan
  else
    let '(i, n, r) := digit_run 0 0 s in
    let '(f, k, r) :=
      match r with
      | String c r' => if Ascii.eqb c "." then digit_run 0 0 r' else (0%Z, O, r)
      | EmptyString => (0%Z, O, r)
      end in
    match n, k with
    | O, O => None
    | _, _ =>
      match exponent r with
      | Some x => Some (decimal (i * 10 ^ Z.of_nat k + f) (x - Z.of_nat k))
      | None => None
      end
    end.

Definition negated (f : spec_float) : spec_float := SFopp f.

(** [float(s)] of a text. *)
Definition float_of_str (s : string) : res spec_float :=
  of_option (ValueError "could not convert string to float")
    match py_lower (py_strip s) with
    | String c s' =>
      if Ascii.eqb c "-" then option_map negated (float_body s')
      else if Ascii.eqb c "+" then float_body s'
      else float_body (String c s')
    | EmptyString => None
    end.

(** [float(v)]. *)
Definition py_float (v : pyval) : res spec_float :=
  match v with
  | PFloat f => Ok f
  | PInt z => float_of_int z
  | PBool b => Ok (F64.of_Z (if b then 1 else 0)%Z)
  | PStr s => float_of_str s
  | PNone | PList _ | PDict _ => Raise TypeError
  end.

(** [int(f)] cuts towards zero. *)
Definition trunc (f : spec_float) : res Z :=
  match f with
  | S754_zero _ => Ok 0
  | S754_finite s m e =>
    let a := if (0 <=? e)%Z then Z.pos m * 2 ^ e else Z.pos m / 2 ^ (- e) in
    Ok (if s then - a else a)
  | S754_infinity _ => Raise (OtherError "cannot convert float infinity to integer")
  | S754_nan => Raise (ValueError "cannot convert float NaN to integer")
  end%Z.

(** [int(v)]. *)
Definition py_int_of (v : pyval) : res Z :=
  match v with
  | PInt z => Ok z
  | PBool b => Ok (if b then 1 else 0)%Z
  | PFloat f => trunc f
  | PStr s => py_int s
  | PNone | PList _ | PDict _ => Raise TypeError
  end.

(** ** Numbers in expressions *)

(** A number as an operand beside a float. *)
Definition num (v : pyval) : res spec_float :=
  match v with
  | PFloat f => Ok f
  | PInt z => float_of_int z
  | PBool b => Ok (F64.of_Z (if b then 1 else 0)%Z)
  | _ => Raise TypeError
  end.

(** [int <= float] and [float <= int], exactly. *)
Definition int_leb_float (z : Z) (f : spec_float) : bool :=
  match f with
  | S754_nan => false
  | S754_infinity s => negb s
  | S754_zero _ => (z <=? 0)%Z
  | S754_finite s m e =>
    let v := if s then Z.neg m else Z.pos m in
    (if 0 <=? e then z <=? v * 2 ^ e else z * 2 ^ (- e) <=? v)%Z
  end.

Definition float_leb_int (f : spec_float) (z : Z) : bool :=
  match f with
  | S754_nan => false
  | S754_infinity s => s
  | S754_zero _ => (0 <=? z)%Z
  | S754_finite s m e =>
    let v := if s then Z.neg m else Z.pos m in
    (if 0 <=? e then v * 2 ^ e <=? z else v <=? z * 2 ^ (- e))%Z
  end.

(** [a <= b] for numbers and for texts. *)
Definition py_le (a b : pyval) : res bool :=
  match a, b with
  | PFloat f, PFloat g => Ok (F64.leb f g)
  | PStr s, PStr t => Ok (negb (String.ltb t s))
  | PFloat f, _ => match as_int b with Some z => Ok (float_leb_int f z) | None => Raise TypeError end
  | _, PFloat g => match as_int a with Some z => Ok (int_leb_float z g) | None => Raise TypeError end
  | _, _ => match as_int a, as_int b with Some x, Some y => Ok (x <=? y)%Z | _, _ => Raise TypeError end
  end.

(** [a < b] for numbers and for texts. *)
Definition py_lt (a b : pyval) : res bool :=
  match a, b with
  | PFloat f, PFloat g => Ok (F64.ltb f g)
  | PStr s, PStr t => Ok (String.ltb s t)
  | PFloat f, _ => match as_int b with Some z => Ok (float_leb_int f z && negb (int_leb_float z f)) | None => Raise TypeError end
  | _, PFloat g => match as_int a with Some z => Ok (int_leb_float z g && negb (float_leb_int g z)) | None => Raise TypeError end
  | _, _ => match as_int a, as_int b with Some x, Some y => Ok (x <? y)%Z | _, _ => Raise TypeError end
  end.

(** [a * b] and [a + b] for numbers. *)
Definition arith (on_int : Z -> Z -> Z) (on_float : spec_float -> spec_float -> spec_float) (a b : pyval) : res pyval :=
  match as_int a, as_int b with
  | Some x, Some y => Ok (PInt (on_int x y))
  | _, _ => x ← num a; y ← num b; Ok (PFloat (on_float x y))
  end.

Definition py_mul : pyval -> pyval -> res pyval := arith Z.mul F64.mul.
Definition py_add : pyval -> pyval -> res pyval := arith Z.add F64.add.

(** [max(0.0, min(1.0, x))]. *)
Definition F1 : spec_float := F64.of_Z 1.
Definition clamp (x : spec_float) : spec_float := F64.max F64.zero (if F64.ltb x F1 then x else F1).

(** [sep.join(l)]. *)
Fixpoint all_texts (l : list pyval) : res (list string) :=
  match l with
  | [] => Ok []
  | PStr s :: l => t ← all_texts l; Ok (s :: t)
  | _ :: _ => Raise TypeError
  end.

Definition py_join (sep : string) (l : list pyval) : res string := t ← all_texts l; Ok (str_join sep t).

Lemma all_texts_map l ss : all_texts l = Ok ss <-> l = map PStr ss.
Proof.
  revert ss; induction l as [|v l IH]; intros ss; simpl.
  - split; [by intros [= <-]|by destruct ss].
  - destruct ss as [|t ss]; destruct v; try (split; discriminate); simpl.
    + split; [|discriminate]. by destruct (all_texts l).
    + split.
      * destruct (all_texts l) as [r|] eqn:E; [|done]. simpl. intros [= -> ->]. f_equal. by apply IH.
      * intros [= -> ->]. by rewrite (proj2 (IH ss) eq_refl).
Qed.

(** ** [repr] and [str] *)

Section text.
Context `{FloatRepr}.

Definition repr_float (f : spec_float) : string :=
  match f with
  | S754_infinity s => if s then "-inf" else "inf"
  | S754_nan => "nan"
  | _ => float_repr f
  end.

Fixpoint py_repr (v : pyval) : string :=
  match v with
  | PNone => "None"
  | PBool b => if b then "True" else "False"
  | PInt z => pretty z
  | PFloat f => repr_float f
  | PStr s => repr_str s
  | PList l => "[" +:+ str_join ", " (map py_repr l) +:+ "]"
  | PDict d => "{" +:+ str_join ", " (map (fun kv => repr_str kv.1 +:+ ": " +:+ py_repr kv.2) d) +:+ "}"
  end.

Definition py_str (v : pyval) : string :=
  match v with PStr s => s | _ => py_repr v end.
End text.

Example fmt3_ex : fmt3 (F64.of_dec 6 1) = "0.600" /\ fmt3 (F64.of_dec 12345 4) = "1.234"
  /\ fmt3 (F64.of_dec 1 1) = "0.100".
Proof. vm_compute. auto. Qed.

Example round_ex : py_round 1 (F64.of_dec 1234 2) = F64.of_dec 123 1
  /\ py_round 6 (F64.of_dec 12345675 7) = F64.of_dec 1234568 6.
Proof. vm_compute. auto. Qed.

Example fmt_g_ex :
  map (fmt_g 6) [F64.of_dec 1 5; F64.of_Z 1234567; F64.of_dec 123 6]
  = ["1e-05"; "1.23457e+06"; "0.000123"].
Proof. vm_compute. reflexivity. Qed.

Example float_ex : float_of_str " 1_0.50e-1 " = Ok (F64.of_dec 105 2) /\ float_of_str "-Inf" = Ok (negated F64.inf)
  /\ float_of_str "1." = Ok (F64.of_Z 1) /\ float_of_str "." = float_of_str "1__0"
  /\ fmt_fixed 2 (F64.of_dec 555 3) = "0.56".
Proof. vm_compute. auto 6. Qed.

Example repr_ex : repr_str "a'b" = String QUOTE ("a'b" +:+ String QUOTE "")
  /\ py_strip "  x y
 " = "x y".
Proof. vm_compute. auto. Qed.
