(* ===== verification/JsonParse.v ===== *)
(** * Reading JSON

    [json.loads] on a text, and that it reads back what [json.dumps] writes.
    A string is its UTF-8 bytes, so an escape [\uXXXX] becomes the bytes of its
    code point and a pair of surrogates those of the character they encode.
    The parser is given more than two steps for each character of the text,
    and [value_fuel] shows that it never needs more. *)

From Stdlib Require Import Ascii SpecFloat.
From S2P Require Import Prelude PyVal Json PyText.
Local Open Scope string_scope.

Definition is_ws (c : ascii) : bool :=
  Ascii.eqb c " " || Ascii.eqb c "009" || Ascii.eqb c "010" || Ascii.eqb c "013".

Fixpoint skip_ws (s : string) : string :=
  match s with
  | String c r => if is_ws c then skip_ws r else s
  | EmptyString => s
  end.

(** ** Strings *)

Definition hex_of (c : ascii) : option Z :=
  let n := nat_of_ascii c in
  if Nat.leb 48 n && Nat.leb n 57 then Some (Z.of_nat n - 48)%Z
  else if Nat.leb 97 n && Nat.leb n 102 then Some (Z.of_nat n - 87)%Z
  else if Nat.leb 65 n && Nat.leb n 70 then Some (Z.of_nat n - 55)%Z
  else None.

Definition hex4 (a b c d : ascii) : option Z :=
  a ← hex_of a; b ← hex_of b; c ← hex_of c; d ← hex_of d;
  Some (4096 * a + 256 * b + 16 * c + d)%Z.

Definition byte_char (z : Z) : ascii := ascii_of_nat (Z.to_nat z).

(** The UTF-8 bytes of a code point. *)
Definition utf8 (n : Z) (r : string) : string :=
  (if n <? 128 then String (byte_char n) r
   else if n <? 2048 then String (byte_char (192 + n / 64)) (String (byte_char (128 + n mod 64)) r)
   else if n <? 65536 then
     String (byte_char (224 + n / 4096)) (String (byte_char (128 + (n / 64) mod 64)) (String (byte_char (128 + n mod 64)) r))
   else
     String (byte_char (240 + n / 262144)) (String (byte_char (128 + (n / 4096) mod 64))
       (String (byte_char (128 + (n / 64) mod 64)) (String (byte_char (128 + n mod 64)) r))))%Z.

Definition high_surrogate (n : Z) : bool := ((55296 <=? n) && (n <=? 56319))%Z.
Definition low_surrogate (n : Z) : bool := ((56320 <=? n) && (n <=? 57343))%Z.

Definition cons_to (f : string -> string) (o : option (string * string)) : option (string * string) :=
  match o with Some (s, r) => Some (f s, r) | None => None end.

Definition simple_escape (c : ascii) : option ascii :=
  if Ascii.eqb c QUOTE || Ascii.eqb c BACKSLASH || Ascii.eqb c "/" then Some c
  else if Ascii.eqb c "b" then Some "008"%char
  else if Ascii.eqb c "f" then Some "012"%char
  else if Ascii.eqb c "n" then Some "010"%char
  else if Ascii.eqb c "r" then Some "013"%char
  else if Ascii.eqb c "t" then Some "009"%char
  else None.

(** What is left of a string up to its closing quote, and the text after it. *)
Fixpoint scan_string (s : string) : option (string * string) :=
  match s with
  | EmptyString => None
  | String c r =>
    if Ascii.eqb c QUOTE then Some ("", r)
    else if Ascii.eqb c BACKSLASH then
      match r with
      | String "u" (String a (String b (String c (String d r1)))) =>
        match hex4 a b c d with
        | None => None
        | Some n =>
          if high_surrogate n then
            match r1 with
            | String bs (String "u" (String a (String b (String c (String d r2))))) =>
              match hex4 a b c d with
              | Some m =>
                if Ascii.eqb bs BACKSLASH && low_surrogate m then
                  cons_to (utf8 (65536 + 1024 * (n - 55296) + (m - 56320))%Z) (scan_string r2)
                else cons_to (utf8 n) (scan_string r1)
              | None => cons_to (utf8 n) (scan_string r1)
              end
            | _ => cons_to (utf8 n) (scan_string r1)
            end
          else cons_to (utf8 n) (scan_string r1)
        end
      | String e r =>
        match simple_escape e with
        | Some x => cons_to (String x) (scan_string r)
        | None => None
        end
      | EmptyString => None
      end
    else if Nat.ltb (nat_of_ascii c) 32 then None
    else cons_to (String c) (scan_string r)
  end.

(** ** Numbers *)

Definition is_digit (c : ascii) : bool := Nat.leb 48 (nat_of_ascii c) && Nat.leb (nat_of_ascii c) 57.

Fixpoint span_digits (s : string) : string * string :=
  match s with
  | String c r => if is_digit c then let (d, r) := span_digits r in (String c d, r) else ("", s)
  | EmptyString => ("", "")
  end.

(** [0] or digits that do not begin with one. *)
Definition int_part (s : string) : option (string * string) :=
  match s with
  | String c r =>
    if Ascii.eqb c "0" then Some ("0", r)
    else if is_digit c then Some (span_digits s)
    else None
  | EmptyString => None
  end.

(** A fraction, if there is one. *)
Definition frac_part (s : string) : string * string :=
  match s with
  | String "." r => match span_digits r with ("", _) => ("", s) | (d, r) => (String "." d, r) end
  | _ => ("", s)
  end.

Definition exp_part (s : string) : string * string :=
  match s with
  | String e r =>
    if Ascii.eqb e "e" || Ascii.eqb e "E" then
      let (sign, r) := match r with
                       | String c r' => if Ascii.eqb c "-" || Ascii.eqb c "+" then (String c "", r') else ("", r)
                       | EmptyString => ("", r)
                       end in
      match span_digits r with ("", _) => ("", s) | (d, r) => (String e (sign +:+ d), r) end
    else ("", s)
  | EmptyString => ("", s)
  end.

Fixpoint decimal_value (acc : Z) (s : string) : Z :=
  match s with
  | String c s => decimal_value (10 * acc + (Z.of_nat (nat_of_ascii c) - 48))%Z s
  | EmptyString => acc
  end.

Definition unsigned_number (s : string) : option (pyval * string) :=
  '(i, r) ← int_part s;
  let (f, r) := frac_part r in
  let (x, r) := exp_part r in
  match f, x with
  | "", "" => Some (PInt (decimal_value 0 i), r)
  | _, _ => match float_of_str (i +:+ f +:+ x) with Ok v => Some (PFloat v, r) | Raise _ => None end
  end.

(** The rest of the text, if it begins with the word. *)
Fixpoint after (word s : string) : option string :=
  match word, s with
  | EmptyString, _ => Some s
  | String a word, String b s => if Ascii.eqb a b then after word s else None
  | _, _ => None
  end.

Definition negate (v : pyval) : pyval :=
  match v with PInt z => PInt (- z) | PFloat f => PFloat (negated f) | v => v end.

Definition number (s : string) : option (pyval * string) :=
  match s with
  | String "-" r =>
    match after "Infinity" r with
    | Some r => Some (PFloat (S754_infinity true), r)
    | None => match unsigned_number r with Some (v, r) => Some (negate v, r) | None => None end
    end
  | _ => unsigned_number s
  end.

Definition word_or_number (s : string) : option (pyval * string) :=
  match after "null" s with Some r => Some (PNone, r) | None =>
  match after "true" s with Some r => Some (PBool true, r) | None =>
  match after "false" s with Some r => Some (PBool false, r) | None =>
  match after "NaN" s with Some r => Some (PFloat S754_nan, r) | None =>
  match after "Infinity" s with Some r => Some (PFloat F64.inf, r) | None => number s
  end end end end end.

(** ** Values *)

Fixpoint value (fuel : nat) (s : string) : option (pyval * string) :=
  match fuel, s with
  | S fuel, String c r =>
    if Ascii.eqb c QUOTE then '(t, r) ← scan_string r; Some (PStr t, r)
    else if Ascii.eqb c "{" then
      match skip_ws r with
      | String "}" r => Some (PDict [], r)
      | r => members fuel [] r
      end
    else if Ascii.eqb c "[" then
      match skip_ws r with
      | String "]" r => Some (PList [], r)
      | r => elements fuel [] r
      end
    else word_or_number s
  | _, _ => None
  end
with members (fuel : nat) (acc : dict) (s : string) : option (pyval * string) :=
  match fuel, s with
  | S fuel, String q r =>
    if negb (Ascii.eqb q QUOTE) then None else
    '(k, r) ← scan_string r;
    match skip_ws r with
    | String ":" r =>
      '(v, r) ← value fuel (skip_ws r);
      let acc := assoc_set k v acc in
      match skip_ws r with
      | String "," r => members fuel acc (skip_ws r)
      | String "}" r => Some (PDict acc, r)
      | _ => None
      end
    | _ => None
    end
  | _, _ => None
  end
with elements (fuel : nat) (acc : list pyval) (s : string) : option (pyval * string) :=
  match fuel with
  | S fuel =>
    '(v, r) ← value fuel s;
    let acc := (acc ++ [v])%list in
    match skip_ws r with
    | String "," r => elements fuel acc (skip_ws r)
    | String "]" r => Some (PList acc, r)
    | _ => None
    end
  | O => None
  end.

Definition loads (s : string) : res pyval :=
  match value (S (2 * String.length s)) (skip_ws s) with
  | Some (v, r) => match skip_ws r with EmptyString => Ok v | _ => Raise JSONDecodeError end
  | None => Raise JSONDecodeError
  end.

(** A text with apostrophes for quotes. *)
Definition q (s : string) : string := replace_char "'" QUOTE s.

Example loads_ex :
  loads (q " { 'a' : [1, -2.5e1, true], 'b': 'x\u00e9\n', 'a': null} ") =
    Ok (PDict [("a", PNone); ("b", PStr ("x" +:+ utf8 233 (String "010" "")))]) /\
  loads "[1,]" = Raise JSONDecodeError /\ loads "01" = Raise JSONDecodeError /\
  loads "[-0, 10 ,{}]" = Ok (PList [PInt 0; PInt 10; PDict []]).
Proof. vm_compute. auto. Qed.

(** ** Fuel *)

Abbreviation len := String.length.

Lemma skip_len s : (len (skip_ws s) <= len s)%nat.
Proof. induction s as [|c s IH]; simpl; [done|]. destruct (is_ws c); simpl; lia. Qed.

Lemma cons_to_inv f o s r : cons_to f o = Some (s, r) -> exists t, o = Some (t, r).
Proof. destruct o as [[t r']|]; simpl; [|done]. intros; simplify_eq. eauto. Qed.

Lemma scan_len s t r : scan_string s = Some (t, r) -> (len r < len s)%nat.
Proof.
  remember (len s) as n eqn:Hn. assert (Hle : (len s <= n)%nat) by lia. clear Hn. revert s t r Hle.
  induction n as [|n IH]; intros [|c s] t r Hle E; simpl in Hle; try lia; [done..|].
  assert (IH' : forall f u, (len u <= n)%nat -> cons_to f (scan_string u) = Some (t, r) -> (len r < S n)%nat).
  { intros f u Hu (t' & E')%cons_to_inv. pose proof (IH u t' r Hu E'). lia. }
  simpl in E. repeat case_match; simplify_eq; simpl in Hle;
    first [lia|eapply IH'; [|exact E]; simpl; lia].
Qed.

Lemma after_len w s r : after w s = Some r -> (len s = len w + len r)%nat.
Proof.
  revert s; induction w as [|a w IH]; intros [|b s] E; simpl in E; simplify_eq; try done.
  destruct (Ascii.eqb a b); [|done]. simpl. by rewrite (IH s E).
Qed.

Lemma span_len s : (len s = len (span_digits s).1 + len (span_digits s).2)%nat.
Proof. induction s as [|c s IH]; simpl; [done|]. destruct (is_digit c); [|done]. destruct (span_digits s); simpl in *. lia. Qed.

Lemma span_nonempty_len s d r : span_digits s = (d, r) -> (len r <= len s)%nat.
Proof. intros E. pose proof (span_len s) as Hl. rewrite E in Hl. simpl in Hl. lia. Qed.

Lemma frac_len s d r : frac_part s = (d, r) -> (len r <= len s)%nat.
Proof.
  unfold frac_part. intros E. repeat case_match; simplify_eq; try done.
  match goal with H : span_digits _ = _ |- _ => apply span_nonempty_len in H end. simpl. lia.
Qed.

Lemma exp_len s d r : exp_part s = (d, r) -> (len r <= len s)%nat.
Proof.
  unfold exp_part. intros E. repeat case_match; simplify_eq; try done;
    match goal with H : span_digits _ = _ |- _ => apply span_nonempty_len in H end; simpl in *; lia.
Qed.

Lemma unsigned_len s v r : unsigned_number s = Some (v, r) -> (len r < len s)%nat.
Proof.
  unfold unsigned_number. intros E. apply bind_Some in E as ([i r0] & Ei & E).
  destruct (frac_part r0) as [f r1] eqn:Ef. destruct (exp_part r1) as [x r2] eqn:Ex.
  apply frac_len in Ef. apply exp_len in Ex.
  assert (Hi : (len r0 < len s)%nat).
  { unfold int_part in Ei. destruct s as [|c s]; [done|]. destruct (Ascii.eqb c "0"); [simplify_eq; simpl; lia|].
    destruct (is_digit c) eqn:Ed; [|done]. simpl in Ei. rewrite Ed in Ei. destruct (span_digits s) eqn:Es.
    apply span_nonempty_len in Es. simplify_eq. simpl. lia. }
  repeat case_match; simplify_eq; lia.
Qed.

Lemma word_len s v r : word_or_number s = Some (v, r) -> (len r < len s)%nat.
Proof.
  assert (Hn : number s = Some (v, r) -> (len r < len s)%nat).
  { unfold number. intros E. repeat case_match; simplify_eq; try by eapply unsigned_len.
    - match goal with H : after _ _ = _ |- _ => apply after_len in H end. simpl in *. lia.
    - match goal with H : unsigned_number _ = _ |- _ => apply unsigned_len in H end. simpl in *. lia. }
  unfold word_or_number. intros E. repeat case_match; simplify_eq; auto;
    match goal with H : after _ _ = Some _ |- _ => apply after_len in H; simpl in H; lia end.
Qed.

(** Each of the three reads leaves less than it was given. *)
Lemma reads_len fuel :
  (forall s v r, value fuel s = Some (v, r) -> (len r < len s)%nat) /\
  (forall acc s v r, members fuel acc s = Some (v, r) -> (len r < len s)%nat) /\
  (forall acc s v r, elements fuel acc s = Some (v, r) -> (len r < len s)%nat).
Proof.
  induction fuel as [|fuel (IHv & IHm & IHe)]; [done|]. split_and!.
  - intros [|c s] v r E; [done|]. cbn [value] in E. pose proof (skip_len s).
    destruct (Ascii.eqb c QUOTE).
    { apply bind_Some in E as ([t r'] & Es & E). simplify_eq. apply scan_len in Es. simpl. lia. }
    destruct (Ascii.eqb c "{").
    { assert (Hm : members fuel [] (skip_ws s) = Some (v, r) -> (len r < len (String c s))%nat).
      { intros Em%IHm. simpl. lia. }
      repeat case_match; auto. simplify_eq. simpl in *. lia. }
    destruct (Ascii.eqb c "[").
    { assert (He : elements fuel [] (skip_ws s) = Some (v, r) -> (len r < len (String c s))%nat).
      { intros Em%IHe. simpl. lia. }
      repeat case_match; auto. simplify_eq. simpl in *. lia. }
    by apply word_len in E.
  - intros acc [|c s] v r E; [done|]. cbn [members] in E. destruct (negb _); [done|].
    apply bind_Some in E as ([k r0] & Es & E). apply scan_len in Es. pose proof (skip_len r0).
    destruct (skip_ws r0) as [|c1 r1] eqn:E1; [done|].
    assert (Hgo : ('(v0, r) ← value fuel (skip_ws r1); match skip_ws r with
      | String "," r => members fuel (assoc_set k v0 acc) (skip_ws r) | String "}" r => Some (PDict (assoc_set k v0 acc), r)
      | _ => None end) = Some (v, r) -> (len r < len (String c s))%nat).
    { clear E. intros E. apply bind_Some in E as ([v0 r2] & Ev & E). apply IHv in Ev.
      pose proof (skip_len r1). pose proof (skip_len r2). simpl in *.
      destruct (skip_ws r2) as [|c2 r3] eqn:E2; [done|]. pose proof (skip_len r3). simpl in *.
      repeat case_match; simplify_eq; try lia. apply IHm in E. lia. }
    repeat case_match; try done. auto.
  - intros acc s v r E. cbn [elements] in E. apply bind_Some in E as ([v0 r0] & Ev & E). apply IHv in Ev.
    pose proof (skip_len r0). destruct (skip_ws r0) as [|c1 r1] eqn:E1; [done|]. pose proof (skip_len r1). simpl in *.
    repeat case_match; simplify_eq; try lia. apply IHe in E. lia.
Qed.

(** Twice the length is fuel enough: more changes nothing. *)
Lemma reads_fuel fuel : forall fuel' s,
  ((2 * len s < fuel)%nat -> (2 * len s < fuel')%nat -> value fuel s = value fuel' s) /\
  (forall acc, (2 * len s < fuel)%nat -> (2 * len s < fuel')%nat -> members fuel acc s = members fuel' acc s) /\
  (forall acc, (2 * len s + 1 < fuel)%nat -> (2 * len s + 1 < fuel')%nat -> elements fuel acc s = elements fuel' acc s).
Proof.
  induction fuel as [|fuel IH]; intros [|fuel'] s; split_and!; try (intros; lia).
  - destruct s as [|c s]; [done|]. simpl len. intros H1 H2. cbn [value]. pose proof (skip_len s).
    destruct (Ascii.eqb c QUOTE); [done|].
    destruct (Ascii.eqb c "{"); [|destruct (Ascii.eqb c "["); [|done]];
      repeat case_match; try done; apply (IH fuel'); simpl in *; lia.
  - intros acc. destruct s as [|c s]; [done|]. simpl len. intros H1 H2. cbn [members]. destruct (negb _); [done|].
    destruct (scan_string s) as [[k r]|] eqn:Es; [|done]. cbn [mbind option_bind]. apply scan_len in Es.
    pose proof (skip_len r). destruct (skip_ws r) as [|c1 r1] eqn:E1; [done|]. pose proof (skip_len r1). simpl in *.
    rewrite (proj1 (IH fuel' (skip_ws r1))) by lia. destruct (value fuel' (skip_ws r1)) as [[v r2]|] eqn:Ev; [|done].
    apply reads_len in Ev. cbn [mbind option_bind]. pose proof (skip_len r2).
    destruct (skip_ws r2) as [|c2 r3] eqn:E2; [done|].
    pose proof (skip_len r3). simpl in *. rewrite (proj1 (proj2 (IH fuel' (skip_ws r3)))) by lia. done.
  - intros acc H1 H2. cbn [elements]. rewrite (proj1 (IH fuel' s)) by lia.
    destruct (value fuel' s) as [[v r]|] eqn:Ev; [|done]. apply reads_len in Ev. cbn [mbind option_bind].
    pose proof (skip_len r). destruct (skip_ws r) as [|c1 r1] eqn:E1; [done|]. pose proof (skip_len r1). simpl in *.
    rewrite (proj2 (proj2 (IH fuel' (skip_ws r1)))) by lia. done.
Qed.

Lemma value_fuel s fuel : (2 * len s < fuel)%nat -> value fuel s = value (S (2 * len s)) s.
Proof. intros. apply reads_fuel; lia. Qed.

(** ** Reading back what was written *)


Lemma scan_esc s r : scan_string (esc s +:+ String QUOTE r) = Some (s, r).
Proof.
  induction s as [|c s IH]; [done|]. cbn [esc]. rewrite string_app_assoc.
  assert (Hc : forall t, scan_string (esc_char c +:+ t) = cons_to (String c) (scan_string t)).
  { intros t. clear. destruct c as [[] [] [] [] [] [] [] []]; reflexivity. }
  by rewrite Hc, IH.
Qed.

(** What follows a value inside a text that was written. *)
Definition delim (r : string) : Prop :=
  match r with EmptyString => True | String c _ => c = ","%char \/ c = "]"%char \/ c = "}"%char \/ c = "010"%char end.

Lemma delim_parts r : delim r -> frac_part r = ("", r) /\ exp_part r = ("", r) /\ span_digits r = ("", r).
Proof. destruct r as [|c r]; [done|]. by intros [-> | [-> | [-> | ->]]]. Qed.

Lemma span_digits_app d r :
  string_Forall (fun c => is_digit c = true) d -> delim r -> span_digits (d +:+ r) = (d, r).
Proof.
  intros Hd Hr. induction d as [|c d IH]; simpl in Hd.
  - rewrite string_app_nil_l. by apply delim_parts.
  - destruct Hd as [Hc Hd]. rewrite string_app_cons. simpl. by rewrite Hc, (IH Hd).
Qed.

Lemma decimal_value_app acc a b : decimal_value acc (a +:+ b) = decimal_value (decimal_value acc a) b.
Proof. revert acc; induction a as [|c a IH]; intros acc; [done|]. rewrite string_app_cons. simpl. by rewrite IH. Qed.

Lemma digit_char_facts n : (n < 10)%N ->
  is_digit (pretty_N_char n) = true /\ (Z.of_nat (nat_of_ascii (pretty_N_char n)) - 48 = Z.of_N n)%Z /\
  ((0 < n)%N -> pretty_N_char n <> "0"%char).
Proof.
  intros Hn. rewrite <- (N2Nat.id n) in *. assert (N.to_nat n < 10)%nat as Hk by lia. clear Hn.
  revert Hk. generalize (N.to_nat n) as k. do 10 (intros [|k]; [naive_solver (done || lia)|revert k]). lia.
Qed.

(** The digits of a positive number. *)
Lemma pretty_N_go_digits x s : (0 < x)%N ->
  exists c d, pretty_N_go x s = String c d +:+ s /\ string_Forall (fun c => is_digit c = true) (String c d) /\
    c <> "0"%char /\ decimal_value 0 (String c d) = Z.of_N x.
Proof.
  revert s. induction (N.lt_wf_0 x) as [x _ IH]; intros s Hx. rewrite pretty_N_go_step by lia.
  destruct (digit_char_facts (x mod 10)) as (Hd & Hv & H0); [apply N.mod_lt; lia|].
  pose proof (N.div_mod x 10 ltac:(lia)) as Hdm.
  destruct (decide (x / 10 = 0)%N) as [E|E].
  - rewrite E, pretty_N_go_0. exists (pretty_N_char (x mod 10)), "". split_and!; [done|done|apply H0; lia|].
    cbn [decimal_value]. lia.
  - destruct (IH (x / 10)%N ltac:(apply N.div_lt; lia) (String (pretty_N_char (x mod 10)) s) (proj1 (N.neq_0_lt_0 _) E))
      as (c & d & -> & HF & Hc & Hval).
    exists c, (d +:+ String (pretty_N_char (x mod 10)) ""). split_and!; [..|done|].
    + rewrite !string_app_cons, string_app_assoc. done.
    + destruct HF as [? HF]. split; [done|]. clear -HF Hd. induction d as [|e d IHd]; [done|].
      destruct HF. rewrite string_app_cons. split; auto.
    + rewrite <- string_app_cons, decimal_value_app, Hval. cbn [decimal_value]. lia.
Qed.

Lemma unsigned_number_digits c d r :
  string_Forall (fun c => is_digit c = true) (String c d) -> c <> "0"%char -> delim r ->
  unsigned_number (String c d +:+ r) = Some (PInt (decimal_value 0 (String c d)), r).
Proof.
  intros HF Hc Hr. unfold unsigned_number, int_part. rewrite string_app_cons.
  rewrite (proj2 (Ascii.eqb_neq c "0") Hc), (proj1 HF), <- string_app_cons, (span_digits_app _ _ HF Hr).
  cbn [mbind option_bind]. destruct (delim_parts r Hr) as (-> & -> & _). done.
Qed.

Lemma after_neq a w c s : a <> c -> after (String a w) (String c s) = None.
Proof. intros Hne. simpl. by rewrite (proj2 (Ascii.eqb_neq a c) Hne). Qed.

Lemma word_or_number_digit c s : numchar c = true -> c <> "N"%char -> c <> "I"%char -> c <> "n"%char -> c <> "t"%char -> c <> "f"%char ->
  word_or_number (String c s) = number (String c s).
Proof. intros. unfold word_or_number. by rewrite !after_neq. Qed.

Lemma word_or_number_Z (z : Z) r : delim r ->
  word_or_number (pretty z +:+ r) = Some (PInt z, r) /\
  exists c s, pretty z +:+ r = String c s /\ (is_digit c = true \/ c = "-"%char).
Proof.
  intros Hr. assert (Hpos : forall p, exists c d, pretty p = String c d /\
    string_Forall (fun c => is_digit c = true) (String c d) /\ c <> "0"%char /\ decimal_value 0 (String c d) = Z.pos p).
  { intros p. destruct (pretty_N_go_digits (N.pos p) "" ltac:(lia)) as (c & d & E & HF & Hc & Hv).
    exists c, d. split_and!; [|done..]. unfold pretty, pretty_positive, pretty, pretty_N. rewrite decide_False by done.
    by rewrite E, string_app_nil_r. }
  assert (Hdig : forall c, is_digit c = true -> c <> "N"%char /\ c <> "I"%char /\ c <> "n"%char /\ c <> "t"%char /\
    c <> "f"%char /\ c <> "-"%char /\ numchar c = true).
  { intros c. destruct c as [[] [] [] [] [] [] [] []]; done. }
  destruct z as [|p|p].
  - split; [|eexists _, _; split; [reflexivity|by left]]. change (pretty 0%Z +:+ r) with (String "0" r).
    rewrite word_or_number_digit by done. unfold number, unsigned_number. simpl.
    by destruct (delim_parts r Hr) as (-> & -> & _).
  - destruct (Hpos p) as (c & d & E & HF & Hc & Hv). change (pretty (Z.pos p)) with (pretty p). rewrite E.
    destruct (Hdig c (proj1 HF)) as (? & ? & ? & ? & ? & Hm & ?). split; [|eexists _, _; split; [reflexivity|left; apply HF]].
    rewrite string_app_cons, word_or_number_digit by done. rewrite <- string_app_cons.
    transitivity (unsigned_number (String c d +:+ r)).
    + rewrite string_app_cons. clear -Hm. destruct c as [[] [] [] [] [] [] [] []]; done.
    + rewrite unsigned_number_digits by done. by rewrite Hv.
  - destruct (Hpos p) as (c & d & E & HF & Hc & Hv). change (pretty (Z.neg p)) with ("-" +:+ pretty p). rewrite E.
    split; [|eexists _, _; split; [reflexivity|by right]]. rewrite string_app_assoc. change ("-" +:+ ?s) with (String "-" s).
    rewrite word_or_number_digit by done. unfold number.
    destruct (Hdig c (proj1 HF)) as (? & HI & _). rewrite string_app_cons, after_neq by congruence.
    rewrite <- string_app_cons, unsigned_number_digits by done. by rewrite Hv.
Qed.

(** A value that has no floats and whose dictionaries have no repeated key. *)
Fixpoint textual (v : pyval) : Prop :=
  match v with
  | PFloat _ => False
  | PList l => fold_right (fun x P => textual x /\ P) True l
  | PDict d => NoDup d.*1 /\ fold_right (fun kv P => textual kv.2 /\ P) True d
  | _ => True
  end.

Lemma textual_list l : textual (PList l) <-> Forall textual l.
Proof. simpl. induction l as [|x l IH]; simpl; [done|]. rewrite Forall_cons. by rewrite <- IH. Qed.

Lemma textual_dict d : textual (PDict d) <-> NoDup d.*1 /\ Forall (fun kv => textual kv.2) d.
Proof.
  simpl. f_equiv. induction d as [|x d IH]; simpl; [done|]. rewrite Forall_cons. by rewrite <- IH.
Qed.

Section roundtrip.
Context `{FloatRepr}.

(** The first character of a value decides how it is read. *)
Lemma dumps_head v r : textual v -> delim r ->
  exists c s, dumps v +:+ r = String c s /\ is_ws c = false /\ c <> "]"%char.
Proof.
  destruct v as [|[]|z|f|s|l|d]; intros Hv Hr; try done; cbn [dumps print];
    try (eexists _, _; split; [reflexivity|done]).
  destruct (proj2 (word_or_number_Z z r Hr)) as (c & s & -> & Hc). eexists _, _. split; [done|].
  clear -Hc. destruct c as [[] [] [] [] [] [] [] []]; naive_solver.
Qed.

Lemma skip_dumps v r : textual v -> delim r -> skip_ws (dumps v +:+ r) = dumps v +:+ r.
Proof. intros Hv Hr. destruct (dumps_head v r Hv Hr) as (c & s & -> & Hc & _). simpl. by rewrite Hc. Qed.

Definition reads (v : pyval) : Prop :=
  forall r fuel, delim r -> (String.length (dumps v) < fuel)%nat -> value fuel (dumps v +:+ r) = Some (v, r).

Let rest {A} (p : A -> string) (l : list A) : string := foldr (fun y acc => ", " +:+ y +:+ acc) "" (map p l).

Lemma rest_delim {A} (p : A -> string) l close r : close = "]"%char \/ close = "}"%char ->
  delim (rest p l +:+ String close r).
Proof. intros Hc. destruct l; simpl; [|left; done]. right. by destruct Hc as [-> | ->]; auto. Qed.

Lemma elements_read x l acc r fuel :
  Forall reads (x :: l) -> Forall textual (x :: l) ->
  (S (String.length (dumps x +:+ rest dumps l)) < fuel)%nat ->
  elements fuel acc (dumps x +:+ rest dumps l +:+ String "]" r) = Some (PList (acc ++ x :: l)%list, r).
Proof.
  revert x acc fuel. induction l as [|y l IH]; intros x acc [|fuel] [Hx Hl]%Forall_cons [Px Pl]%Forall_cons Hf; try lia;
    rewrite string_length_app in Hf; cbn [elements].
  - rewrite Hx by (by apply (rest_delim dumps []); auto) || (simpl in Hf; lia). simpl. done.
  - rewrite Hx by (by apply rest_delim; auto) || lia. cbn [mbind option_bind].
    unfold rest; cbn [map foldr]; fold (rest dumps l). rewrite !string_app_assoc. change (", " +:+ ?s) with (String "," (String " " s)).
    cbn [skip_ws is_ws Ascii.eqb Bool.eqb orb]. rewrite skip_dumps; [|by apply Forall_cons in Pl as [? _]|apply rest_delim; auto].
    rewrite IH; [|done|done|].
    + by rewrite <- app_assoc.
    + unfold rest in Hf; cbn [map foldr] in Hf; fold (rest dumps l) in Hf. rewrite !string_length_app in Hf. simpl in Hf.
      rewrite string_length_app. lia.
Qed.

Let member (kv : string * pyval) : string := quoted kv.1 +:+ ": " +:+ dumps kv.2.

Lemma members_read (kv : string * pyval) l acc r fuel :
  Forall (fun kv => reads kv.2) (kv :: l) -> Forall (fun kv => textual kv.2) (kv :: l) ->
  NoDup (acc ++ kv :: l)%list.*1 ->
  (S (String.length (member kv +:+ rest member l)) < fuel)%nat ->
  members fuel acc (member kv +:+ rest member l +:+ String "}" r) = Some (PDict (acc ++ kv :: l)%list, r).
Proof.
  revert kv acc fuel. induction l as [|kv' l IH]; intros [k v] acc [|fuel] [Hv Hl]%Forall_cons [Pv Pl]%Forall_cons Hnd Hf;
    try lia; rewrite string_length_app in Hf; cbn [members]; unfold member at 1; cbn [fst snd] in *; unfold quoted;
    rewrite !string_app_cons; cbn [Ascii.eqb Bool.eqb negb QUOTE];
    rewrite !string_app_assoc, !string_app_cons, !string_app_nil_l, scan_esc; cbn [mbind option_bind]; cbn [skip_ws is_ws Ascii.eqb Bool.eqb orb].
  all: assert (Hfresh : PyVal.assoc k acc = None)
    by (apply assoc_None; rewrite fmap_app, NoDup_app in Hnd; intros Hin; apply (proj1 (proj2 Hnd) k Hin); by left).
  all: assert (Hlen : (String.length (dumps v) < String.length (member (k, v)))%nat)
    by (unfold member, quoted; simpl; rewrite !string_length_app; simpl; lia).
  - rewrite skip_dumps, Hv by done || (simpl; auto) || lia. cbn [mbind option_bind]. simpl. by rewrite assoc_set_fresh.
  - rewrite skip_dumps, Hv by done || (apply rest_delim; auto) || lia. cbn [mbind option_bind].
    unfold rest at 1; cbn [map foldr]; fold (rest member l). rewrite !string_app_assoc.
    change (", " +:+ ?s) with (String "," (String " " s)). cbn [skip_ws is_ws Ascii.eqb Bool.eqb orb].
    replace (skip_ws (member kv' +:+ rest member l +:+ String "}" r)) with (member kv' +:+ rest member l +:+ String "}" r) by done.
    rewrite assoc_set_fresh by done. rewrite IH.
    + by rewrite <- app_assoc.
    + done.
    + done.
    + by rewrite <- app_assoc.
    + change (rest member (kv' :: l)) with (", " +:+ member kv' +:+ rest member l) in Hf.
      rewrite !string_length_app in *. cbn [String.length] in Hf. lia.
Qed.

Lemma textual_reads v : textual v -> reads v.
Proof.
  induction v as [|b|z|f|s|l IH|d IH] using pyval_rect'; intros Hv r [|fuel] Hr Hf; try lia; cbn [dumps print] in *.
  - done.
  - by destruct b.
  - destruct (word_or_number_Z z r Hr) as [E (c & s & Es & Hc)]. rewrite Es in *. cbn [value].
    clear -E Hc. destruct c as [[] [] [] [] [] [] [] []]; naive_solver.
  - done.
  - unfold quoted. rewrite string_app_cons, string_app_assoc, string_app_cons, string_app_nil_l.
    cbn [value Ascii.eqb Bool.eqb QUOTE]. by rewrite scan_esc.
  - apply textual_list in Hv. assert (Hl : Forall reads l).
    { clear -IH Hv. induction IH; inversion Hv; constructor; auto. }
    destruct l as [|x l]; [done|]. cbn [map str_join] in *. fold (rest dumps l) in *.
    rewrite !string_app_cons, string_app_nil_l, !string_app_assoc, string_app_cons, string_app_nil_l. cbn [value Ascii.eqb Bool.eqb].
    rewrite skip_dumps; [|by apply Forall_cons in Hv as [? _]|apply rest_delim; auto].
    pose proof (elements_read x l [] r fuel Hl Hv) as Hel. rewrite !string_length_app in *. simpl in Hf.
    destruct (dumps_head x (rest dumps l +:+ String "]" r)) as (c & t & E & _ & Hc);
      [by apply Forall_cons in Hv as [? _]|apply rest_delim; auto|]. rewrite E in *.
    specialize (Hel ltac:(lia)). clear -Hc Hel. destruct c as [[] [] [] [] [] [] [] []]; first [exact Hel|done].
  - apply textual_dict in Hv as [Hnd Hv]. assert (Hl : Forall (fun kv => reads kv.2) d).
    { clear -IH Hv. induction IH; inversion Hv; constructor; auto. }
    destruct d as [|kv l]; [done|].
    change (String.length ("{" +:+ (member kv +:+ rest member l) +:+ "}") < S fuel)%nat in Hf.
    change (value (S fuel) (("{" +:+ (member kv +:+ rest member l) +:+ "}") +:+ r) = Some (PDict (kv :: l), r)).
    rewrite !string_length_app in Hf. cbn [String.length] in Hf.
    rewrite !string_app_assoc, !string_app_cons, !string_app_nil_l.
    change (kv :: l) with ([] ++ kv :: l)%list.
    rewrite <- (members_read kv l [] r fuel Hl Hv Hnd) by (rewrite string_length_app; lia). reflexivity.
Qed.

(** [json.loads(json.dumps(v))] is [v]. *)
Lemma loads_dumps v : textual v -> loads (dumps v) = Ok v.
Proof.
  intros Hv. unfold loads. rewrite <- (string_app_nil_r (dumps v)), skip_dumps, (string_app_nil_r (dumps v)) by done.
  rewrite <- (string_app_nil_r (dumps v)) at 2. by rewrite textual_reads; [|done|done|lia].
Qed.
End roundtrip.

(** ** [int(str(z))] *)

Lemma strip_id s : string_Forall (fun c => is_space c = false) s -> py_strip s = s.
Proof.
  intros Hs. unfold py_strip. assert (Hl : lstrip s = s) by (destruct s as [|c s]; simpl; [done|]; by rewrite (proj1 Hs)).
  rewrite Hl. clear Hl. induction s as [|c s IH]; [done|]. destruct Hs as [Hc Hs]. simpl. rewrite (IH Hs).
  destruct s; [by rewrite Hc|done].
Qed.

Lemma digits_decimal acc s :
  string_Forall (fun c => is_digit c = true) s -> digits acc s = Some (decimal_value acc s).
Proof.
  revert acc; induction s as [|c s IH]; intros acc; [done|]. intros [Hc Hs]. cbn [digits decimal_value].
  unfold digit_value. unfold is_digit in Hc. rewrite Hc. rewrite IH by done. do 2 f_equal.
  apply andb_true_iff in Hc as [Hc _]. apply Nat.leb_le in Hc. lia.
Qed.

Lemma py_int_pretty (z : Z) : py_int (pretty z) = Ok z.
Proof.
  unfold py_int. rewrite strip_id.
  2: { apply pretty_Z_Forall; [|done]. intros n. unfold pretty_N_char. by repeat case_match. }
  destruct z as [|p|p]; [done| |].
  all: destruct (pretty_N_go_digits (N.pos p) "" ltac:(lia)) as (c & d & E & HF & Hc & Hv).
  all: assert (Ep : pretty p = String c d)
    by (unfold pretty, pretty_positive, pretty, pretty_N; rewrite decide_False by done; by rewrite E, string_app_nil_r).
  all: assert (Hu : unsigned_digits (String c d) = Some (Z.pos p)).
  1,3: destruct HF as [Hd HF]; unfold unsigned_digits, digit_value; unfold is_digit in Hd; rewrite Hd, digits_decimal by done;
    change (Z.pos p) with (Z.of_N (N.pos p)); rewrite <- Hv; cbn [decimal_value]; do 2 f_equal; apply andb_true_iff in Hd as [Hd _]; apply Nat.leb_le in Hd; lia.
  - change (pretty (Z.pos p)) with (pretty p). rewrite Ep.
    assert (Hne : c <> "-"%char /\ c <> "+"%char) by (clear -HF; destruct HF as [HF _]; destruct c as [[] [] [] [] [] [] [] []]; done).
    rewrite (proj2 (Ascii.eqb_neq c "-") (proj1 Hne)), (proj2 (Ascii.eqb_neq c "+") (proj2 Hne)). by rewrite Hu.
  - change (pretty (Z.neg p)) with (String "-" (pretty p)). rewrite Ep. simpl Ascii.eqb. cbn iota. by rewrite Hu.
Qed.
