(* ===== verification/JsonIndent.v ===== *)
(** * Indented JSON

    [json.dumps(v, indent=2, sort_keys=True)], the form in which records are
    written to files, and that [json.loads] reads back what it writes.  The text
    of strings and numbers is that of [Json]. *)

From Stdlib Require Import Ascii.
From S2P Require Import Prelude PyVal Json PyText JsonParse.
Local Open Scope string_scope.

Definition NEWLINE : ascii := "010".

(** A new line with its indentation. *)
Definition nl (n : nat) : string := String NEWLINE (str_repeat n " ").

Section indented.
Context `{FloatRepr}.

(** The text of a value at an indentation of [n] spaces. *)
Fixpoint indented (n : nat) (v : pyval) : string :=
  match v with
  | PList [] => "[]"
  | PDict [] => "{}"
  | PList l => "[" +:+ nl (n + 2) +:+ str_join ("," +:+ nl (n + 2)) (map (indented (n + 2)) l) +:+ nl n +:+ "]"
  | PDict d => "{" +:+ nl (n + 2) +:+
      str_join ("," +:+ nl (n + 2)) (map (fun kv => quoted kv.1 +:+ ": " +:+ indented (n + 2) kv.2) d) +:+ nl n +:+ "}"
  | _ => print v
  end.

Definition dumps_indent (v : pyval) : string := indented 0 (norm v).

(** ** Reading it back *)

Lemma skip_nl n s : skip_ws (nl n +:+ s) = skip_ws s.
Proof. unfold nl. rewrite string_app_cons. cbn. induction n as [|n IH]; [done|]. cbn [str_repeat]. by rewrite string_app_cons. Qed.

Lemma indented_head n v r : textual v -> delim r ->
  exists c s, indented n v +:+ r = String c s /\ is_ws c = false /\ c <> "]"%char.
Proof.
  destruct v as [|[]|z|f|s|[|x l]|[|x d]]; intros Hv Hr; try done; cbn [indented print];
    try (eexists _, _; split; [reflexivity|done]).
  destruct (proj2 (word_or_number_Z z r Hr)) as (c & s & -> & Hc). eexists _, _. split; [done|].
  clear -Hc. destruct c as [[] [] [] [] [] [] [] []]; naive_solver.
Qed.

Lemma skip_indented n v r : textual v -> delim r -> skip_ws (indented n v +:+ r) = indented n v +:+ r.
Proof. intros Hv Hr. destruct (indented_head n v r Hv Hr) as (c & s & -> & Hc & _). simpl. by rewrite Hc. Qed.

Definition reads_indented (v : pyval) : Prop := forall n r fuel, delim r -> (String.length (indented n v) < fuel)%nat ->
  value fuel (indented n v +:+ r) = Some (v, r).

Let rest {A} (n : nat) (p : A -> string) (l : list A) : string := foldr (fun y acc => ("," +:+ nl n) +:+ y +:+ acc) "" (map p l).

Lemma nl_delim n r : delim (nl n +:+ r).
Proof. unfold nl. rewrite string_app_cons. simpl. tauto. Qed.

Lemma rest_delim_nl {A} n m (p : A -> string) l r : delim (rest n p l +:+ nl m +:+ r).
Proof. destruct l; [apply nl_delim|by left]. Qed.
Hint Resolve nl_delim rest_delim_nl : core.

Lemma rest_cons {A} n (p : A -> string) x l s :
  rest n p (x :: l) +:+ s = String "," (nl n +:+ p x +:+ rest n p l +:+ s).
Proof. unfold rest. cbn [map foldr]. by rewrite !string_app_assoc. Qed.

Lemma rest_length {A} n (p : A -> string) x l :
  String.length (rest n p (x :: l)) = S (String.length (nl n) + String.length (p x) + String.length (rest n p l)).
Proof. rewrite <- (string_app_nil_r (rest n p (x :: l))), rest_cons. cbn [String.length]. rewrite !string_length_app. simpl. lia. Qed.

Lemma elements_indented n x l acc r fuel :
  Forall reads_indented (x :: l) -> Forall textual (x :: l) ->
  (S (String.length (indented (n + 2) x +:+ rest (n + 2) (indented (n + 2)) l)) < fuel)%nat ->
  elements fuel acc (indented (n + 2) x +:+ rest (n + 2) (indented (n + 2)) l +:+ nl n +:+ String "]" r) =
    Some (PList (acc ++ x :: l)%list, r).
Proof.
  revert x acc fuel. induction l as [|y l IH]; intros x acc [|fuel] [Hx Hl]%Forall_cons [Px Pl]%Forall_cons Hf; try lia;
    rewrite string_length_app in Hf; cbn [elements].
  - rewrite Hx by auto with lia. cbn [mbind option_bind]. unfold rest at 1. cbn [map foldr]. by rewrite string_app_nil_l, skip_nl.
  - rewrite Hx by auto with lia. cbn [mbind option_bind]. rewrite rest_cons. cbn [skip_ws is_ws Ascii.eqb Bool.eqb orb].
    rewrite rest_length in Hf. rewrite skip_nl, skip_indented; [|by apply Forall_cons in Pl as [? _]|auto].
    rewrite IH; [by rewrite <- app_assoc|done|done|]. rewrite string_length_app. lia.
Qed.

Let member (n : nat) (kv : string * pyval) : string := quoted kv.1 +:+ ": " +:+ indented n kv.2.

Lemma skip_member n kv s : skip_ws (member n kv +:+ s) = member n kv +:+ s.
Proof. done. Qed.

Lemma members_indented n (kv : string * pyval) l acc r fuel :
  Forall (fun kv => reads_indented kv.2) (kv :: l) -> Forall (fun kv => textual kv.2) (kv :: l) ->
  NoDup (acc ++ kv :: l)%list.*1 ->
  (S (String.length (member (n + 2) kv +:+ rest (n + 2) (member (n + 2)) l)) < fuel)%nat ->
  members fuel acc (member (n + 2) kv +:+ rest (n + 2) (member (n + 2)) l +:+ nl n +:+ String "}" r) =
    Some (PDict (acc ++ kv :: l)%list, r).
Proof.
  revert kv acc fuel. induction l as [|kv' l IH]; intros [k v] acc [|fuel] [Hv Hl]%Forall_cons [Pv Pl]%Forall_cons Hnd Hf;
    try lia; rewrite string_length_app in Hf; cbn [members]; unfold member at 1; cbn [fst snd] in *; unfold quoted;
    rewrite !string_app_cons; cbn [Ascii.eqb Bool.eqb negb QUOTE];
    rewrite !string_app_assoc, !string_app_cons, !string_app_nil_l, scan_esc; cbn [mbind option_bind]; cbn [skip_ws is_ws Ascii.eqb Bool.eqb orb].
  all: assert (Hfresh : PyVal.assoc k acc = None)
    by (apply assoc_None; rewrite fmap_app, NoDup_app in Hnd; intros Hin; apply (proj1 (proj2 Hnd) k Hin); by left).
  all: assert (Hlen : (String.length (indented (n + 2) v) < String.length (member (n + 2) (k, v)))%nat)
    by (unfold member, quoted; simpl; rewrite !string_length_app; simpl; lia).
  all: rewrite skip_indented, Hv by auto with lia; cbn [mbind option_bind].
  - rewrite skip_nl. simpl. by rewrite assoc_set_fresh.
  - rewrite rest_cons. cbn [skip_ws is_ws Ascii.eqb Bool.eqb orb]. rewrite rest_length in Hf.
    rewrite skip_nl, skip_member, assoc_set_fresh by done. rewrite IH; [by rewrite <- app_assoc|done|done|by rewrite <- app_assoc|].
    rewrite string_length_app. lia.
Qed.

Lemma textual_reads_indented v : textual v -> reads_indented v.
Proof.
  induction v as [|b|z|f|s|l IH|d IH] using pyval_rect'; intros Hv n r [|fuel] Hr Hf; try lia; cbn [indented] in *.
  - done.
  - by destruct b.
  - cbn [print]. destruct (word_or_number_Z z r Hr) as [E (c & s & Es & Hc)]. rewrite Es in *. cbn [value].
    clear -E Hc. destruct c as [[] [] [] [] [] [] [] []]; naive_solver.
  - done.
  - cbn [print]. unfold quoted. rewrite string_app_cons, string_app_assoc, string_app_cons, string_app_nil_l.
    cbn [value Ascii.eqb Bool.eqb QUOTE]. by rewrite scan_esc.
  - apply textual_list in Hv. assert (Hl : Forall reads_indented l) by (clear -IH Hv; induction IH; inversion Hv; constructor; auto).
    destruct l as [|x l]; [done|]. cbn [map str_join] in *. fold (rest (n + 2) (indented (n + 2)) l) in *.
    rewrite !string_app_assoc, !string_app_cons, !string_app_nil_l. cbn [value Ascii.eqb Bool.eqb].
    rewrite skip_nl, skip_indented; [|by apply Forall_cons in Hv as [? _]|auto].
    pose proof (elements_indented n x l [] r fuel Hl Hv) as Hel. rewrite !string_length_app in *. simpl in Hf.
    destruct (indented_head (n + 2) x (rest (n + 2) (indented (n + 2)) l +:+ nl n +:+ String "]" r)) as (c & t & E & _ & Hc);
      [by apply Forall_cons in Hv as [? _]|auto|]. rewrite E in *.
    specialize (Hel ltac:(lia)). clear -Hc Hel. destruct c as [[] [] [] [] [] [] [] []]; first [exact Hel|done].
  - apply textual_dict in Hv as [Hnd Hv].
    assert (Hl : Forall (fun kv => reads_indented kv.2) d) by (clear -IH Hv; induction IH; inversion Hv; constructor; auto).
    destruct d as [|kv l]; [done|]. cbn [map str_join] in *.
    fold (member (n + 2) kv) (member (n + 2)) (rest (n + 2) (member (n + 2)) l) in *.
    rewrite !string_app_assoc, !string_app_cons, !string_app_nil_l. rewrite !string_length_app in Hf. cbn [String.length] in Hf.
    cbn [value Ascii.eqb Bool.eqb]. rewrite skip_nl, skip_member.
    exact (members_indented n kv l [] r fuel Hl Hv Hnd ltac:(rewrite string_length_app; lia)).
Qed.

(** What is written, with the final new line, is read back as the value with its keys in order. *)
Lemma loads_dumps_indent v : textual (norm v) -> loads (dumps_indent v +:+ String NEWLINE "") = Ok (norm v).
Proof.
  intros Hv. unfold loads, dumps_indent. rewrite skip_indented by (simpl; auto).
  rewrite textual_reads_indented; [done|done|simpl; auto|]. rewrite string_length_app. lia.
Qed.
End indented.
