(* ===== verification/Ledger.v ===== *)
(** * The governance ledger

    Models [gbrg/governance/ledger.py] and, from [gbrg/governance/gate.py], the
    [Decision] record with its seal and [recompute_receipt], which the verifier
    calls back.

    A ledger file is the list of its lines; a line is blank, a JSON text
    (represented by the value it parses to) or a text [json.loads] refuses.
    The reason of a failed verification keeps the template of the source's
    f-string as a constructor and the interpolated values as its arguments. *)

From S2P Require Import Prelude PyVal Json Sha256.
Local Open Scope string_scope.

Section ledger.
Context `{FloatRepr}.

(** ** Hashing *)

Definition GENESIS_SEED : string := "gbrg-mcp-ledger-genesis".
Definition GENESIS : string := "sha256:" +:+ sha256_hex GENESIS_SEED.

Definition _canonical (obj : pyval) : string := canonical obj.
Definition _sha (obj : pyval) : string := "sha256:" +:+ sha256_hex (_canonical obj).

(** ** The sealed decision of [gate.py]

    The fields hold any JSON value: [recompute_receipt] fills them from a
    record read back from disk, and Python checks no annotation. *)

Record Decision := mkDecision {
  recordType : pyval;
  schemaVersion : pyval;
  agentRef : pyval;
  action : pyval;
  cell_id : pyval;
  epistemicLevel : pyval;
  proof_id : pyval;
  verdict : pyval;
  included : pyval;
  reason : pyval;
  priority : pyval;
  content_verdict : pyval;
  authority_verdict : pyval;
  authority_reason_code : pyval;
  decided_at : pyval;
  authority : pyval;
  receipt : pyval
}.

(** [Decision.core] *)
Definition core (d : Decision) : res pyval :=
  authority_receipt ← py_get (authority d) "receipt_hash" PNone;
  Ok (PDict [
    ("recordType", recordType d); ("schemaVersion", schemaVersion d);
    ("agentRef", agentRef d); ("action", action d); ("cell_id", cell_id d);
    ("epistemicLevel", epistemicLevel d); ("proof_id", proof_id d);
    ("verdict", verdict d); ("included", included d); ("reason", reason d);
    ("priority", priority d); ("content_verdict", content_verdict d);
    ("authority_verdict", authority_verdict d);
    ("authority_reason_code", authority_reason_code d);
    ("authority_receipt", authority_receipt); ("decided_at", decided_at d)]).

(** [Decision.seal] *)
Definition seal (d : Decision) : res Decision :=
  c ← core d;
  Ok (mkDecision (recordType d) (schemaVersion d) (agentRef d) (action d) (cell_id d)
    (epistemicLevel d) (proof_id d) (verdict d) (included d) (reason d) (priority d)
    (content_verdict d) (authority_verdict d) (authority_reason_code d) (decided_at d)
    (authority d) (PStr ("sha256:" +:+ sha256_hex (canonical c)))).

(** [Decision.to_dict]: [dataclasses.asdict], in field order. *)
Definition to_dict (d : Decision) : pyval :=
  PDict [
    ("recordType", recordType d); ("schemaVersion", schemaVersion d);
    ("agentRef", agentRef d); ("action", action d); ("cell_id", cell_id d);
    ("epistemicLevel", epistemicLevel d); ("proof_id", proof_id d);
    ("verdict", verdict d); ("included", included d); ("reason", reason d);
    ("priority", priority d); ("content_verdict", content_verdict d);
    ("authority_verdict", authority_verdict d);
    ("authority_reason_code", authority_reason_code d);
    ("decided_at", decided_at d); ("authority", authority d); ("receipt", receipt d)].

Definition recompute_receipt (record : pyval) : res string :=
  f1 ← py_item record "recordType";
  f2 ← py_item record "schemaVersion";
  f3 ← py_item record "agentRef";
  f4 ← py_item record "action";
  f5 ← py_item record "cell_id";
  f6 ← py_item record "epistemicLevel";
  f7 ← py_item record "proof_id";
  f8 ← py_item record "verdict";
  f9 ← py_item record "included";
  f10 ← py_item record "reason";
  f11 ← py_item record "priority";
  f12 ← py_item record "content_verdict";
  f13 ← py_item record "authority_verdict";
  f14 ← py_item record "authority_reason_code";
  f15 ← py_item record "decided_at";
  f16 ← py_get record "authority" (PDict []);
  c ← core (mkDecision f1 f2 f3 f4 f5 f6 f7 f8 f9 f10 f11 f12 f13 f14 f15 f16 (PStr ""));
  Ok ("sha256:" +:+ sha256_hex (canonical c)).

(** ** The file *)

Inductive line := Blank | JsonLine (v : pyval) | Malformed.

Definition file := option (list line).

(** [append]: the file is created when absent, and only ever grows. *)
Definition append (record : pyval) (f : file) : file :=
  Some (default [] f ++ [JsonLine record])%list.

Fixpoint read_lines (ls : list line) : res (list pyval) :=
  match ls with
  | [] => Ok []
  | Blank :: ls => read_lines ls
  | JsonLine v :: ls => out ← read_lines ls; Ok (v :: out)
  | Malformed :: _ => Raise JSONDecodeError
  end.

Definition _read_raw (f : file) : res (list pyval) :=
  match f with None => Ok [] | Some ls => read_lines ls end.

(** ** Verification *)

Inductive break_reason :=
| BrokenLink (i : nat) (prev_hash : pyval) (expected : string)
| BadEventHash (i : nat) (recomputed : string) (stored : pyval)
| Undecodable (i : nat) (exc : exn)
| BadReceipt (i : nat) (recomputed : string) (stored : pyval)
| UnknownRecord (i : nat)
| HeadMismatch (head : option string) (expected : string).

Record VerifyResult := mkVerifyResult {
  ok : bool;
  records : nat;
  head : option string;
  broken_index : option nat;
  vreason : option break_reason
}.

Definition broken (total i : nat) (r : break_reason) : VerifyResult :=
  mkVerifyResult false total None (Some i) (Some r).

Definition _recompute_event_hash (record : pyval) : res string :=
  match record with
  | PDict d => Ok (_sha (PDict (assoc_del "hash" d)))
  | _ => Raise AttributeError
  end.

(** The body of the verification loop: [inl] returns the failed result, [inr]
    continues with the new chain head and last seal. *)
Definition verify_record (total i : nat) (chain_head : string) (last_seal : option string)
    (rec : pyval) : res (VerifyResult + string * option string) :=
  has_hash ← py_in "hash" rec;
  chained ← (if (has_hash : bool) then py_in "prev_hash" rec else Ok false);
  if (chained : bool) then
    prev ← py_item rec "prev_hash";
    if negb (eq_str prev chain_head) then Ok (inl (broken total i (BrokenLink i prev chain_head)))
    else
      recomputed ← _recompute_event_hash rec;
      stored ← py_item rec "hash";
      if negb (eq_str stored recomputed) then
        Ok (inl (broken total i (BadEventHash i recomputed stored)))
      else Ok (inr (recomputed, Some recomputed))
  else
    has_receipt ← py_in "receipt" rec;
    if (has_receipt : bool) then
      match recompute_receipt rec with
      | Raise (KeyError k) => Ok (inl (broken total i (Undecodable i (KeyError k))))
      | Raise TypeError => Ok (inl (broken total i (Undecodable i TypeError)))
      | Raise e => Raise e
      | Ok recomputed =>
        stored ← py_item rec "receipt";
        if negb (eq_str stored recomputed) then
          Ok (inl (broken total i (BadReceipt i recomputed stored)))
        else Ok (inr (chain_head, Some recomputed))
      end
    else Ok (inl (broken total i (UnknownRecord i))).

Fixpoint verify_loop (total i : nat) (chain_head : string) (last_seal : option string)
    (recs : list pyval) : res VerifyResult :=
  match recs with
  | [] => Ok (mkVerifyResult true total last_seal None None)
  | rec :: recs =>
    r ← verify_record total i chain_head last_seal rec;
    match r with
    | inl failed => Ok failed
    | inr (chain_head, last_seal) => verify_loop total (S i) chain_head last_seal recs
    end
  end.

Definition verify_ledger (f : file) (genesis : string) : res VerifyResult :=
  recs ← _read_raw f;
  verify_loop (length recs) 0 genesis None recs.

Definition verify_head (f : file) (expected_head genesis : string) : res VerifyResult :=
  result ← verify_ledger f genesis;
  if negb (ok result) then Ok result
  else if bool_decide (head result = Some expected_head) then Ok result
  else Ok (mkVerifyResult false (records result) None None
             (Some (HeadMismatch (head result) expected_head))).

(** ** Verified read paths *)

Definition read_verified (f : file) : res (list pyval) :=
  result ← verify_ledger f GENESIS;
  if negb (ok result) then Raise (LedgerTamperError (broken_index result)) else _read_raw f.

Definition read_all (f : file) (verify : bool) : res (list pyval) :=
  if verify then read_verified f else _read_raw f.

Definition iter_receipts (f : file) : res (list pyval) :=
  recs ← read_verified f;
  seals ← res_map (fun record =>
    r ← py_get record "receipt" PNone;
    h ← py_get record "hash" PNone;
    Ok (py_or r h)) recs;
  Ok (List.filter (fun s => match s with PNone => false | _ => true end) seals).

(** ** What verification promises

    [intact h rec h' seal]: on a chain whose head is [h], the record carries a
    seal that recomputes, and the chain head after it is [h']. *)

Inductive intact (h : string) : pyval -> string -> string -> Prop :=
| intact_event d hh :
    assoc "hash" d = Some (PStr hh) -> assoc "prev_hash" d = Some (PStr h) ->
    hh = _sha (PDict (assoc_del "hash" d)) -> intact h (PDict d) hh hh
| intact_decision d r :
    assoc_mem "hash" d && assoc_mem "prev_hash" d = false ->
    assoc "receipt" d = Some (PStr r) -> recompute_receipt (PDict d) = Ok r ->
    intact h (PDict d) h r.

(** A run of intact records from one chain head to another. *)
Inductive chain : string -> option string -> list pyval -> string -> option string -> Prop :=
| chain_nil h s : chain h s [] h s
| chain_cons h s rec h1 r recs h2 s2 :
    intact h rec h1 r -> chain h1 (Some r) recs h2 s2 -> chain h s (rec :: recs) h2 s2.

#[local] Hint Constructors intact chain : core.

Lemma assoc_mem_true {A} k (d : list (string * A)) :
  assoc_mem k d = true <-> exists v, assoc k d = Some v.
Proof. unfold assoc_mem. destruct (assoc k d); naive_solver. Qed.

Lemma verify_record_sound t i h s rec h' s' :
  verify_record t i h s rec = Ok (inr (h', s')) -> exists r, s' = Some r /\ intact h rec h' r.
Proof.
  unfold verify_record. intros E.
  destruct rec as [| | | |str|l|d]; try discriminate E.
  1-2: unfold recompute_receipt in E; simpl in E; repeat (case_match; simpl in E); discriminate.
  simpl in E.
  destruct (assoc_mem "hash" d) eqn:Eh; simpl in E;
    [destruct (assoc_mem "prev_hash" d) eqn:Ep; simpl in E|].
  { apply assoc_mem_true in Eh as [hh Hh], Ep as [p Hp]. rewrite Hp, Hh in E. simpl in E.
    destruct (eq_str p h) eqn:Eq1; simpl in E; [|discriminate].
    destruct (eq_str hh _) eqn:Eq2; simpl in E; [|discriminate].
    apply eq_str_true in Eq1, Eq2. simplify_eq. eauto. }
  all: destruct (assoc_mem "receipt" d) eqn:Er; simpl in E; [|discriminate].
  all: destruct (recompute_receipt (PDict d)) as [r|[]] eqn:Erc; try discriminate.
  all: apply assoc_mem_true in Er as [st Hst]; rewrite Hst in E; simpl in E.
  all: destruct (eq_str st r) eqn:Eq; simpl in E; [|discriminate].
  all: apply eq_str_true in Eq; simplify_eq; eexists; split; [done|].
  all: apply intact_decision; [by rewrite ?Eh, ?Ep|done|done].
Qed.

Lemma verify_record_complete t i h s rec h' r :
  intact h rec h' r -> verify_record t i h s rec = Ok (inr (h', Some r)).
Proof.
  unfold verify_record. destruct 1 as [d hh Hh Hp Ehh|d r Hn Hr Hrc]; simpl.
  - unfold assoc_mem. rewrite Hh, Hp. simpl. rewrite String.eqb_refl. simpl.
    rewrite <- Ehh, String.eqb_refl. done.
  - destruct (assoc_mem "hash" d) eqn:Eh; simpl in *; rewrite ?Hn; simpl.
    all: rewrite (proj2 (assoc_mem_true _ _) (ex_intro _ _ Hr)); simpl.
    all: by rewrite Hrc, Hr; simpl; rewrite String.eqb_refl.
Qed.

(** The loop accepts exactly the runs of intact records. *)
Lemma verify_loop_ok_iff t i h s recs result :
  verify_loop t i h s recs = Ok result /\ ok result = true <->
  exists h' s', chain h s recs h' s' /\ result = mkVerifyResult true t s' None None.
Proof.
  revert i h s; induction recs as [|rec recs IH]; intros i h s; simpl.
  - split; [intros [E ?]; simplify_eq; eauto|].
    intros (h' & s' & Hc & ->). inversion Hc; subst. done.
  - split.
    + intros [E Hok]. apply bind_Ok_inv in E as ([failed|[h1 s1]] & Er & E).
      { simplify_eq. exfalso. revert Er Hok. unfold verify_record, broken.
        intros Er Hok. repeat (case_match || (apply bind_Ok_inv in Er as (? & ? & Er))); simplify_eq. }
      apply verify_record_sound in Er as (r & -> & Hi).
      destruct (proj1 (IH (S i) h1 (Some r)) (conj E Hok)) as (h' & s' & Hc & ->). eauto 10.
    + intros (h' & s' & Hc & ->). inversion Hc as [|? ? ? h1 r ? ? ? Hi Hc']; subst.
      rewrite (verify_record_complete t i _ s _ _ _ Hi). simpl. apply IH. eauto.
Qed.

(** *** Runs *)

Lemma verify_loop_chain t i h s l h1 s1 rest :
  chain h s l h1 s1 ->
  verify_loop t i h s (l ++ rest)%list = verify_loop t (i + length l) h1 s1 rest.
Proof.
  intros Hc. revert i. induction Hc as [h s|h s rec h1 r l h2 s2 Hi Hc IH]; intros i; simpl.
  - by rewrite Nat.add_0_r.
  - rewrite (verify_record_complete t i _ s _ _ _ Hi). simpl. rewrite IH. f_equal. lia.
Qed.

Lemma chain_app h s l1 l2 h2 s2 :
  chain h s (l1 ++ l2)%list h2 s2 <->
  exists h1 s1, chain h s l1 h1 s1 /\ chain h1 s1 l2 h2 s2.
Proof.
  revert h s; induction l1 as [|x l1 IH]; intros h s; simpl; split.
  - eauto.
  - intros (h1 & s1 & Hc & ?). by inversion Hc; subst.
  - intros Hc. inversion Hc as [|? ? ? h1 r ? ? ? Hi Hc']; subst.
    apply IH in Hc' as (? & ? & ? & ?). eauto 10.
  - intros (h1 & s1 & Hc & Hc2). inversion Hc; subst. econstructor; [done|]. apply IH. eauto.
Qed.

Lemma read_lines_app ls1 ls2 :
  read_lines (ls1 ++ ls2)%list =
  (a ← read_lines ls1; b ← read_lines ls2; Ok (a ++ b)%list).
Proof.
  induction ls1 as [|[] ls1 IH]; simpl; [by destruct (read_lines ls2)|done| |done].
  rewrite IH. by destruct (read_lines ls1); [destruct (read_lines ls2)|].
Qed.

Lemma read_append record f recs :
  _read_raw f = Ok recs -> _read_raw (append record f) = Ok (recs ++ [record])%list.
Proof.
  destruct f as [ls|]; simpl; intros E; simplify_eq; [|done].
  rewrite read_lines_app, E. done.
Qed.

Lemma verify_ledger_chain f g result :
  verify_ledger f g = Ok result /\ ok result = true <->
  exists recs h s, _read_raw f = Ok recs /\ chain g None recs h s /\
    result = mkVerifyResult true (length recs) s None None.
Proof.
  unfold verify_ledger. split.
  - intros [E Hok]. apply bind_Ok_inv in E as (recs & Hr & E).
    destruct (proj1 (verify_loop_ok_iff _ _ _ _ _ _) (conj E Hok)) as (h & s & ? & ->). eauto 10.
  - intros (recs & h & s & Hr & Hc & ->). rewrite Hr. simpl. apply verify_loop_ok_iff. eauto.
Qed.

(** *** Events

    The chained events of a ledger, the texts they hash, and equality of
    records up to the order of their keys. *)

Definition is_event (rec : pyval) : bool :=
  match rec with PDict d => assoc_mem "hash" d && assoc_mem "prev_hash" d | _ => false end.

Definition events (recs : list pyval) : list pyval := List.filter is_event recs.

Definition event_text (rec : pyval) : string :=
  match rec with PDict d => _canonical (PDict (assoc_del "hash" d)) | _ => "" end.

(** The messages the verification of a ledger's events hashes. *)
Definition texts (recs : list pyval) : list string := GENESIS_SEED :: map event_text (events recs).

Definition same_dict (d1 d2 : dict) : Prop :=
  forall k, norm <$> assoc k d1 = norm <$> assoc k d2.

Definition same_record (r1 r2 : pyval) : Prop :=
  match r1, r2 with PDict d1, PDict d2 => same_dict d1 d2 | _, _ => r1 = r2 end.

Inductive event_chain : string -> list pyval -> string -> Prop :=
| event_nil h : event_chain h [] h
| event_snoc h l h1 d h2 :
    event_chain h l h1 ->
    assoc "hash" d = Some (PStr h2) -> assoc "prev_hash" d = Some (PStr h1) ->
    h2 = _sha (PDict (assoc_del "hash" d)) -> event_chain h (l ++ [PDict d])%list h2.

Lemma chain_events h s recs h' s' : chain h s recs h' s' -> event_chain h (events recs) h'.
Proof.
  revert h' s'. induction recs as [|rec recs IH] using rev_ind; intros h' s' Hc.
  - inversion Hc; subst. constructor.
  - apply chain_app in Hc as (h1 & s1 & Hc1 & Hc2). apply IH in Hc1.
    inversion Hc2 as [|? ? ? ? r ? ? ? Hi Hn]; subst. inversion Hn; subst.
    unfold events in *. rewrite List.filter_app. inversion Hi; subst; simpl.
    + rewrite !(proj2 (assoc_mem_true _ _)) by eauto. simpl. by econstructor.
    + match goal with E : _ && _ = false |- _ => rewrite E end. by rewrite app_nil_r.
Qed.

Lemma assoc_insert_sorted {A} k (x : string * A) l :
  assoc k (insert_sorted key_ltb x l) = assoc k (x :: l).
Proof.
  induction l as [|[k' v'] l IH]; [done|]. destruct x as [kx vx]. cbn [insert_sorted].
  unfold key_ltb at 1. simpl fst. destruct (String.ltb k' kx) eqn:E; [|done].
  simpl in *. rewrite IH. destruct (String.eqb_spec kx k), (String.eqb_spec k' k); try done.
  subst. unfold String.ltb in E. pose proof (String.compare_antisym k k) as Ha.
  by destruct (k ?= k).
Qed.

Lemma assoc_py_sort {A} k (l : list (string * A)) : assoc k (py_sort key_ltb l) = assoc k l.
Proof.
  induction l as [|[k' v] l IH]; [done|].
  change (py_sort key_ltb ((k', v) :: l)) with (insert_sorted key_ltb (k', v) (py_sort key_ltb l)).
  rewrite assoc_insert_sorted. simpl. by rewrite IH.
Qed.

Lemma assoc_map {A B} (f : A -> B) k (l : list (string * A)) :
  assoc k (map (fun kv => (kv.1, f kv.2)) l) = f <$> assoc k l.
Proof. induction l as [|[k' v] l IH]; [done|]. simpl. by destruct (String.eqb k' k). Qed.

Lemma norm_dict_same d1 d2 : norm (PDict d1) = norm (PDict d2) -> same_dict d1 d2.
Proof.
  simpl. intros [= E] k. rewrite <- !assoc_map, <- (assoc_py_sort k (map _ d1)), E.
  by rewrite assoc_py_sort.
Qed.

Lemma floats_valid_assoc_del k d : floats_valid (PDict d) -> floats_valid (PDict (assoc_del k d)).
Proof.
  rewrite !floats_valid_dict, !Forall_forall. intros Hd kv Hin. apply Hd.
  apply list_elem_of_In, filter_In in Hin as [? _]. by apply list_elem_of_In.
Qed.

(** Equal event digests come from equal texts, or the texts collide. *)
Lemma _sha_inj v1 v2 M1 M2 :
  _canonical v1 ∈ M1 -> _canonical v2 ∈ M2 -> _sha v1 = _sha v2 ->
  _canonical v1 = _canonical v2 \/ collision_between M1 M2.
Proof.
  intros H1 H2 E. apply string_app_inv_l in E. by eapply sha256_eq_or_collision.
Qed.

Lemma genesis_no_event v M1 M2 :
  is_dict v = true -> GENESIS_SEED ∈ M1 -> _canonical v ∈ M2 -> GENESIS = _sha v ->
  collision_between M1 M2.
Proof.
  intros Hd H1 H2 E. apply string_app_inv_l in E.
  destruct (sha256_eq_or_collision _ _ _ _ H1 H2 E) as [Et|]; [|done]. exfalso.
  destruct v; try discriminate Hd. destruct (canonical_dict_head kvs) as [r Er].
  unfold _canonical in Et. rewrite Er in Et. discriminate.
Qed.

Lemma event_chain_last_texts l d (pre : list string) :
  _canonical (PDict (assoc_del "hash" d)) ∈ (pre ++ map event_text (l ++ [PDict d]))%list.
Proof. rewrite map_app. simpl. set_solver. Qed.

Lemma collision_between_sym M1 M2 : collision_between M1 M2 -> collision_between M2 M1.
Proof. intros (m1 & m2 & ? & ? & ? & ?). exists m2, m1. eauto. Qed.

(** Two event chains from [GENESIS] to the same head are the same chain; of
    [GENESIS] it matters only that no event hashes to it. *)
Lemma event_chain_unique_gen g l1 l2 h :
  (forall d M1 M2, GENESIS_SEED ∈ M1 -> _canonical (PDict d) ∈ M2 ->
     g = _sha (PDict d) -> collision_between M1 M2) ->
  event_chain g l1 h -> event_chain g l2 h ->
  Forall floats_valid l1 -> Forall floats_valid l2 ->
  Forall2 same_record l1 l2 \/
  collision_between (GENESIS_SEED :: map event_text l1) (GENESIS_SEED :: map event_text l2).
Proof.
  intros Hg. revert l2 h. induction l1 as [|x1 l1 IH] using rev_ind; intros l2 h H1 H2 F1 F2.
  - inversion H1 as [|? l ? ? ? ? ? ? ? El]; subst; [|by destruct l].
    inversion H2 as [|? ? ? d ? ? Ea Eb Ed]; subst; [by left|].
    right. eapply Hg; [left|apply (event_chain_last_texts _ _ [_])|reflexivity].
  - inversion H1 as [|? l0 h1 d1 ? C1 Ha1 Hp1 Eh1]; [by destruct l1|].
    match goal with E : (_ ++ _)%list = _ |- _ => apply app_inj_2 in E as [-> [= <-]]; [|done] end.
    subst. clear H1.
    inversion H2 as [|? l2' h2 d2 ? C2 Ha2 Hp2 Eh2]; subst.
    { right. apply collision_between_sym. eapply Hg; [left| |first [reflexivity|eassumption]].
      apply (event_chain_last_texts _ _ [_]). }
    rewrite Forall_app, Forall_singleton in F1, F2. destruct F1 as [F1 Fd1], F2 as [F2 Fd2].
    edestruct (_sha_inj (PDict (assoc_del "hash" d1)) (PDict (assoc_del "hash" d2))) as [Et|];
      [apply (event_chain_last_texts l1 d1 [GENESIS_SEED])
      |apply (event_chain_last_texts l2' d2 [GENESIS_SEED])
      |congruence| |by right].
    apply canonical_inj in Et; try by apply floats_valid_assoc_del.
    apply norm_dict_same in Et.
    assert (Hd : same_dict d1 d2).
    { intros k. destruct (decide (k = "hash")) as [->|Hne].
      - rewrite Ha1, Ha2. congruence.
      - specialize (Et k). by rewrite !assoc_del_ne in Et by congruence. }
    assert (h1 = h2) as <-.
    { specialize (Hd "prev_hash"). rewrite Hp1, Hp2 in Hd. simpl in Hd. congruence. }
    destruct (IH _ _ C1 C2 F1 F2) as [?|Hcol]; [left|right].
    + apply Forall2_app; [done|]. by repeat constructor.
    + eapply collision_between_mono; [..|exact Hcol]; rewrite map_app; set_solver.
Qed.

Lemma event_chain_unique l1 l2 h :
  event_chain GENESIS l1 h -> event_chain GENESIS l2 h ->
  Forall floats_valid l1 -> Forall floats_valid l2 ->
  Forall2 same_record l1 l2 \/
  collision_between (GENESIS_SEED :: map event_text l1) (GENESIS_SEED :: map event_text l2).
Proof.
  apply event_chain_unique_gen. intros d M1 M2. by apply genesis_no_event.
Qed.

Lemma events_app l1 l2 : events (l1 ++ l2)%list = (events l1 ++ events l2)%list.
Proof. apply List.filter_app. Qed.

Lemma Forall_events P recs : Forall P recs -> Forall P (events recs).
Proof.
  rewrite !Forall_forall. intros HP x Hx. apply HP.
  apply list_elem_of_In, filter_In in Hx as [? _]. by apply list_elem_of_In.
Qed.

(** After a run that ends in an event, the seal is the chain head. *)
Lemma chain_event_head h s recs rec h' s' :
  is_event rec = true -> chain h s (recs ++ [rec])%list h' s' -> s' = Some h'.
Proof.
  intros He Hc. apply chain_app in Hc as (h1 & s1 & _ & Hc).
  inversion Hc as [|? ? ? ? ? ? ? ? Hi Hn]; subst. inversion Hn; subst.
  inversion Hi; subst; [done|]. simpl in He. congruence.
Qed.

Lemma verify_head_chain f e g result :
  verify_head f e g = Ok result -> ok result = true ->
  exists recs h, _read_raw f = Ok recs /\ chain g None recs h (Some e).
Proof.
  unfold verify_head. intros E Hok. apply bind_Ok_inv in E as (r & Er & E).
  destruct (ok r) eqn:Eok; simpl in E; [|simplify_eq; congruence].
  case_bool_decide as Eh; [|by simplify_eq]. simplify_eq.
  destruct (proj1 (verify_ledger_chain _ _ _) (conj Er Eok)) as (recs & h & s & Hr & Hc & ->).
  simpl in Eh. subst. eauto.
Qed.

(** Where the loop stops, what it read before is a run and the record there is
    not intact; it stops nowhere else. *)
Lemma verify_loop_break t i h s recs result :
  verify_loop t i h s recs = Ok result -> ok result = false ->
  exists pre rec post h1 s1,
    recs = (pre ++ rec :: post)%list /\ broken_index result = Some (i + length pre)%nat /\
    records result = t /\ head result = None /\
    chain h s pre h1 s1 /\ forall h2 r, ~ intact h1 rec h2 r.
Proof.
  revert i h s; induction recs as [|rec recs IH]; intros i h s E Hok; simpl in E.
  { by simplify_eq. }
  apply bind_Ok_inv in E as ([failed|[h1 s1]] & Er & E).
  - simplify_eq. exists [], rec, recs, h, s. split_and!; [done| | | |constructor|].
    + simpl. rewrite Nat.add_0_r. revert Er. unfold verify_record, broken. intros Er.
      repeat (case_match || (apply bind_Ok_inv in Er as (? & ? & Er))); by simplify_eq.
    + revert Er. unfold verify_record, broken. intros Er.
      repeat (case_match || (apply bind_Ok_inv in Er as (? & ? & Er))); by simplify_eq.
    + revert Er. unfold verify_record, broken. intros Er.
      repeat (case_match || (apply bind_Ok_inv in Er as (? & ? & Er))); by simplify_eq.
    + intros h2 r Hi. apply (verify_record_complete t i _ s) in Hi. congruence.
  - apply verify_record_sound in Er as (r & -> & Hi).
    destruct (IH _ _ _ E Hok) as (pre & rec' & post & h2 & s2 & -> & Hb & Ht & Hh & Hc & Hn).
    exists (rec :: pre), rec', post, h2, s2. split_and!; eauto. simpl. rewrite Hb. f_equal. lia.
Qed.

Lemma recompute_receipt_to_dict d r :
  recompute_receipt (to_dict d) = Ok r <-> exists c, core d = Ok c /\ r = _sha c.
Proof.
  unfold recompute_receipt, _sha, _canonical, core. simpl.
  destruct (authority d); simpl; naive_solver.
Qed.

(** [verify_record] returns on every record that is a dictionary whose
    [authority], when it has one, is a dictionary. *)
Definition well_typed (rec : pyval) : bool :=
  match rec with
  | PDict d => match assoc "authority" d with None => true | Some a => is_dict a end
  | _ => false
  end.

Lemma recompute_receipt_well_typed rec :
  well_typed rec = true ->
  match recompute_receipt rec with
  | Ok _ | Raise (KeyError _) | Raise TypeError => True
  | _ => False
  end.
Proof.
  destruct rec as [| | | | | |d]; try done. intros Hw. unfold recompute_receipt.
  simpl in *.
  repeat match goal with
  | |- context [of_option _ (assoc ?k d)] => destruct (assoc k d); simpl; [|done]
  end.
  destruct (assoc "authority" d) as [[]|]; done.
Qed.

Lemma verify_loop_total t i h s recs :
  forallb well_typed recs = true -> is_ok (verify_loop t i h s recs) = true.
Proof.
  revert i h s; induction recs as [|rec recs IH]; intros i h s Hw; [done|].
  simpl in Hw. apply andb_true_iff in Hw as [Hr Hw]. simpl.
  assert (exists r, verify_record t i h s rec = Ok r) as [[|[]] ->]; simpl; [|done|by apply IH].
  pose proof (recompute_receipt_well_typed _ Hr) as Hrc. revert Hrc.
  destruct rec as [| | | | | |d]; try done. unfold verify_record. simpl.
  unfold assoc_mem. destruct (assoc "hash" d) as [hh|], (assoc "prev_hash" d) as [p|]; simpl.
  { intros _. repeat (case_match; simpl; eauto). }
  all: destruct (assoc "receipt" d); simpl; [|eauto].
  all: destruct (recompute_receipt (PDict d)) as [|[]]; simpl; try done; eauto.
  all: intros _; case_match; eauto.
Qed.

(** The [prev_hash] of the first event of a run. *)
Definition first_prev (recs : list pyval) : option string :=
  match events recs with
  | PDict d :: _ => match assoc "prev_hash" d with Some (PStr p) => Some p | _ => None end
  | _ => None
  end.

Lemma chain_first_prev h s recs h' s' :
  chain h s recs h' s' -> events recs <> [] -> first_prev recs = Some h.
Proof.
  intros Hc. revert s Hc. induction recs as [|rec recs IH]; intros s Hc Hne; [done|].
  inversion Hc as [|? ? ? h1 r ? ? ? Hi Hc']; subst. unfold first_prev, events in *. simpl in *.
  inversion Hi; subst; simpl in *.
  - rewrite !(proj2 (assoc_mem_true _ _)) by eauto. simpl.
    by match goal with E : assoc "prev_hash" _ = _ |- _ => rewrite E end.
  - match goal with E : _ && _ = false |- _ => rewrite E in * end. eauto.
Qed.

Lemma chain_next_event pre h s post h' s' :
  chain h s (pre ++ post)%list h' s' -> events post <> [] ->
  exists hp, event_chain h (events pre) hp /\ first_prev post = Some hp.
Proof.
  intros Hc Hne. apply chain_app in Hc as (h1 & s1 & C1 & C2).
  eauto using chain_events, chain_first_prev.
Qed.

Lemma event_deletion_heads pre rec post h s h1 s1 h2 s2 :
  chain h s (pre ++ rec :: post)%list h1 s1 -> chain h s (pre ++ post)%list h2 s2 ->
  events post <> [] ->
  exists hp, event_chain h (events pre) hp /\ event_chain h (events (pre ++ [rec])%list) hp.
Proof.
  intros C1 C2 Hne. change (rec :: post) with ([rec] ++ post)%list in C1. rewrite app_assoc in C1.
  destruct (chain_next_event _ _ _ _ _ _ C1 Hne) as (hp1 & E1 & P1).
  destruct (chain_next_event _ _ _ _ _ _ C2 Hne) as (hp2 & E2 & P2).
  rewrite P1 in P2. injection P2 as ->. eauto.
Qed.

(** Appending a decision sealed by [Decision.seal] keeps a verified ledger
    verified, adds one record and makes the receipt the reported head. *)
Lemma append_sealed_verifies f g result d d' :
  verify_ledger f g = Ok result -> ok result = true -> seal d = Ok d' ->
  exists r, receipt d' = PStr r /\
    verify_ledger (append (to_dict d') f) g
    = Ok (mkVerifyResult true (S (records result)) (Some r) None None).
Proof.
  intros V O E. unfold seal in E. apply bind_Ok_inv in E as (c & Ec & E). simplify_eq.
  destruct (proj1 (verify_ledger_chain _ _ _) (conj V O)) as (l & h & s & Hr & Hc & ->).
  simpl. eexists; split; [done|]. apply (verify_ledger_chain _ g).
  eexists _, h, _. split_and!; [by apply read_append| |by rewrite length_app, Nat.add_1_r].
  apply chain_app. exists h, s. split; [done|]. econstructor; [|constructor].
  apply intact_decision; [done|done|]. apply recompute_receipt_to_dict. by exists c.
Qed.

(** So does appending an event that continues the chain. *)
Lemma append_event_verifies f g recs h s d hh :
  _read_raw f = Ok recs -> chain g None recs h s ->
  assoc "hash" d = Some (PStr hh) -> assoc "prev_hash" d = Some (PStr h) ->
  hh = _sha (PDict (assoc_del "hash" d)) ->
  _read_raw (append (PDict d) f) = Ok (recs ++ [PDict d])%list /\
  chain g None (recs ++ [PDict d])%list hh (Some hh).
Proof.
  intros Hr Hc Hh Hp E. split; [by apply read_append|].
  apply chain_app. exists h, s. split; [done|]. econstructor; [by constructor|constructor].
Qed.

(** ** Properties *)

(** C1: the anchored head pins the chained history.  When two ledger files both
    pass [verify_head] for one pinned head and both end in a chained event,
    their events agree one by one (up to key order), or the texts the two
    verifications hashed contain an explicit SHA-256 collision. *)
Theorem verify_head_pins_events f1 f2 expected r1 r2 recs1 recs2 e1 e2 :
  verify_head f1 expected GENESIS = Ok r1 -> ok r1 = true ->
  verify_head f2 expected GENESIS = Ok r2 -> ok r2 = true ->
  _read_raw f1 = Ok (recs1 ++ [e1])%list -> _read_raw f2 = Ok (recs2 ++ [e2])%list ->
  is_event e1 = true -> is_event e2 = true ->
  Forall floats_valid (recs1 ++ [e1])%list -> Forall floats_valid (recs2 ++ [e2])%list ->
  Forall2 same_record (events (recs1 ++ [e1])%list) (events (recs2 ++ [e2])%list) \/
  collision_between (texts (recs1 ++ [e1])%list) (texts (recs2 ++ [e2])%list).
Proof.
  intros V1 O1 V2 O2 R1 R2 E1 E2 F1 F2.
  destruct (verify_head_chain _ _ _ _ V1 O1) as (l1 & h1 & Hr1 & C1).
  destruct (verify_head_chain _ _ _ _ V2 O2) as (l2 & h2 & Hr2 & C2).
  rewrite R1 in Hr1. rewrite R2 in Hr2. injection Hr1 as <-. injection Hr2 as <-.
  pose proof (chain_event_head _ _ _ _ _ _ E1 C1) as [= ->].
  pose proof (chain_event_head _ _ _ _ _ _ E2 C2) as [= ->].
  apply (event_chain_unique _ _ h2); eauto using chain_events, Forall_events.
Qed.

(** C5: deleting (or, read backwards, inserting) a chained event anywhere before
    another chained event is detected without any anchor: when the full file
    verifies, the file with the event cut out fails verification, unless the
    texts hashed contain an explicit collision. *)
Theorem event_deletion_detected ls1 ls2 pre rec post r1 r2 :
  verify_ledger (Some ls1) GENESIS = Ok r1 -> ok r1 = true ->
  verify_ledger (Some ls2) GENESIS = Ok r2 ->
  read_lines ls1 = Ok (pre ++ rec :: post)%list -> read_lines ls2 = Ok (pre ++ post)%list ->
  is_event rec = true -> events post <> [] -> Forall floats_valid (pre ++ rec :: post)%list ->
  ok r2 = false \/ collision_between (texts (pre ++ rec :: post)%list) (texts (pre ++ rec :: post)%list).
Proof.
  intros V1 O1 V2 R1 R2 He Hpost F. destruct (ok r2) eqn:O2; [right|by left].
  destruct (proj1 (verify_ledger_chain _ _ _) (conj V1 O1)) as (l1 & h1 & s1 & Hr1 & C1 & _).
  destruct (proj1 (verify_ledger_chain _ _ _) (conj V2 O2)) as (l2 & h2 & s2 & Hr2 & C2 & _).
  simpl in *. rewrite R1 in Hr1. rewrite R2 in Hr2. injection Hr1 as <-. injection Hr2 as <-.
  destruct (event_deletion_heads _ _ _ _ _ _ _ _ _ C1 C2 Hpost) as (hp & E1 & E2).
  change (rec :: post) with ([rec] ++ post)%list in *. rewrite app_assoc in *.
  apply Forall_app in F as [F _].
  destruct (event_chain_unique _ _ _ E1 E2) as [Hsame|Hcol].
  - apply Forall_app in F as [F _]. by apply Forall_events.
  - by apply Forall_events.
  - exfalso. apply Forall2_length in Hsame. rewrite events_app in Hsame.
    simpl in Hsame. rewrite He, length_app in Hsame. simpl in Hsame. lia.
  - eapply collision_between_mono; [..|exact Hcol]; unfold texts; rewrite !events_app, !map_app;
      set_solver.
Qed.

(** C10: the verified read path returns exactly the records of a file that is one
    intact run from [GENESIS]: nothing is returned from a broken file, and an
    intact file is returned whole and in order. *)
Theorem read_verified_iff_intact f recs :
  read_verified f = Ok recs <->
  _read_raw f = Ok recs /\ exists h s, chain GENESIS None recs h s.
Proof.
  unfold read_verified. split.
  - intros E. apply bind_Ok_inv in E as (r & Er & E). destruct (ok r) eqn:Eok; [|done].
    destruct (proj1 (verify_ledger_chain _ _ _) (conj Er Eok)) as (l & h & s & Hr & Hc & ->).
    simpl in E. rewrite Hr in E. simplify_eq. eauto.
  - intros (Hr & h & s & Hc).
    destruct (proj2 (verify_ledger_chain f GENESIS (mkVerifyResult true (length recs) s None None)))
      as [-> _]; [by eauto 10|]. done.
Qed.

(** A failed verification names the first break: the records before
    [broken_index] are an intact run from the genesis, the record at that index
    is not intact on the head they lead to, and no head is reported. *)
Theorem verify_ledger_first_break f g result :
  verify_ledger f g = Ok result -> ok result = false ->
  exists pre rec post h s,
    _read_raw f = Ok (pre ++ rec :: post)%list /\ broken_index result = Some (length pre) /\
    records result = length (pre ++ rec :: post)%list /\ head result = None /\
    chain g None pre h s /\ forall h' r, ~ intact h rec h' r.
Proof.
  unfold verify_ledger. intros E Hok. apply bind_Ok_inv in E as (recs & Hr & E).
  destruct (verify_loop_break _ _ _ _ _ _ E Hok) as (pre & rec & post & h & s & -> & Hb & Ht & Hh & ?).
  exists pre, rec, post, h, s. rewrite Ht. tauto.
Qed.

(** On a file whose JSON is well formed and whose records are objects with
    an object-valued [authority], verification always returns a result. *)
Theorem verify_ledger_returns f g recs :
  _read_raw f = Ok recs -> forallb well_typed recs = true ->
  is_ok (verify_ledger f g) = true.
Proof.
  unfold verify_ledger. intros -> Hw. simpl. by apply verify_loop_total.
Qed.

(** A decision whose stored [authority] has been replaced by a string makes
    [verify_ledger] raise [AttributeError], where the documentation promises a
    result for every tampered file. *)
Theorem verify_ledger_raises_on_text_authority d g :
  verify_ledger (append (PDict (assoc_set "authority" (PStr "x")
    match to_dict d with PDict kvs => kvs | _ => [] end)) None) g = Raise AttributeError.
Proof. reflexivity. Qed.
End ledger.

(** ** Witnesses *)

Section witnesses.
#[local] Existing Instance demo_float_repr.

Definition demo_event (prev : string) (n : Z) : dict :=
  let c := [("n", PInt n); ("prev_hash", PStr prev)] in
  ("hash", PStr (_sha (PDict c))) :: c.

Definition hash_of (d : dict) : string :=
  match assoc "hash" d with Some (PStr h) => h | _ => "" end.

Definition demo1 : dict := demo_event GENESIS 1.
Definition demo2 : dict := demo_event (hash_of demo1) 2.
(** The second event again, its keys in another order. *)
Definition demo2' : dict := rev demo2.

Definition demo_decision : Decision :=
  mkDecision (PStr "GbrgInclusionDecision") (PStr "v0.1") (PStr "agent") (PStr "include") (PStr "cell")
    (PStr "L3") PNone (PStr "allow") (PBool true) (PStr "r") PNone (PStr "allow") (PStr "allow")
    PNone (PStr "t") (PDict []) (PStr "").

Definition ledger_of (l : list pyval) : file := Some (map JsonLine l).

Definition accepted (n : nat) (h : string) : VerifyResult := mkVerifyResult true n (Some h) None None.

Lemma verify_head_pins_events_witness :
  Forall2 same_record (events [PDict demo1; PDict demo2]) (events [PDict demo1; PDict demo2']) \/
  collision_between (texts [PDict demo1; PDict demo2]) (texts [PDict demo1; PDict demo2']).
Proof.
  apply (verify_head_pins_events (ledger_of [PDict demo1; PDict demo2])
    (ledger_of [PDict demo1; PDict demo2']) (hash_of demo2)
    (accepted 2 (hash_of demo2)) (accepted 2 (hash_of demo2))
    [PDict demo1] [PDict demo1] (PDict demo2) (PDict demo2')).
  all: first [vm_compute; reflexivity | vm_compute; repeat constructor].
Defined.

Lemma event_deletion_detected_witness :
  ok (broken 1 0 (BrokenLink 0 (PStr (hash_of demo1)) GENESIS)) = false \/
  collision_between (texts [PDict demo1; PDict demo2]) (texts [PDict demo1; PDict demo2]).
Proof.
  apply (event_deletion_detected (map JsonLine [PDict demo1; PDict demo2])
    (map JsonLine [PDict demo2]) [] (PDict demo1) [PDict demo2] (accepted 2 (hash_of demo2))).
  all: first [discriminate | vm_compute; reflexivity | vm_compute; repeat constructor].
Defined.

Lemma verify_ledger_first_break_witness :
  let f := ledger_of [PDict demo1; PDict (assoc_set "n" (PInt 7) demo2); PDict demo1] in
  exists pre rec post h s,
    _read_raw f = Ok (pre ++ rec :: post)%list /\ Some 1%nat = Some (length pre) /\
    3%nat = length (pre ++ rec :: post)%list /\ @None string = None /\
    chain GENESIS None pre h s /\ forall h' r, ~ intact h rec h' r.
Proof.
  apply (verify_ledger_first_break (ledger_of [PDict demo1; PDict (assoc_set "n" (PInt 7) demo2); PDict demo1])
    GENESIS (broken 3 1 (BadEventHash 1
      (_sha (PDict [("n", PInt 7); ("prev_hash", PStr (hash_of demo1))])) (PStr (hash_of demo2))))).
  all: vm_compute; reflexivity.
Defined.

Lemma verify_ledger_returns_witness :
  is_ok (verify_ledger (ledger_of [PDict demo1; to_dict demo_decision]) GENESIS) = true.
Proof. eapply verify_ledger_returns; reflexivity. Defined.

End witnesses.
