(* ===== verification/Gate.v ===== *)
(** * The context-inclusion gate

    Models [gbrg/governance/gate.py] beyond the [Decision] record of the ledger
    file: the numeric validation, the content proposal, the authority call and
    the sealed, persisted MEET of the two.

    The agent-registry surface [tools/authorize.py] is another repository's
    program: a run of it is a parameter, a function from the command line to an
    outcome.  Its standard output is blank, a JSON text (by its value) or a text
    [json.loads] refuses. *)

From Stdlib Require Import Ascii SpecFloat.
From S2P Require Import Prelude PyVal Json PyText Sha256 Ledger.
Local Open Scope string_scope.

Definition AGENT_REF : string := "agent-registry://gbrg/scorer".
Definition INCLUSION_ACTION : string := "memory".
Definition EXIT_ALLOW : Z := 0.
Definition EXIT_DENY : Z := 1.
Definition EXIT_REVIEW : Z := 3.
Definition INCLUDE : string := "INCLUDE".
Definition EXCLUDE : string := "EXCLUDE".
Definition V_INCLUDE : string := "INCLUDE".
Definition V_EXCLUDE : string := "EXCLUDE".
Definition BLAST_INCLUDE_FLOOR : spec_float := F64.of_dec 2 1.
Definition BLAST_HIGH_RISK : spec_float := F64.of_dec 6 1.

Record Proposal := mkProposal {
  p_verdict : string;
  p_priority : string;
  p_reason : string
}.

Inductive stdout := NoOutput | JsonOutput (v : pyval) | BadOutput.

Inductive proc :=
| ProcError (msg : string)
| ProcDone (returncode : Z) (out : stdout) (stderr : string).

(** [v in {"a", "b", ...}]: an unhashable value raises. *)
Definition in_set (v : pyval) (l : list string) : res bool :=
  if hashable v then Ok (existsb (eq_str v) l) else Raise TypeError.

#[local] Arguments F64.of_Z : simpl never.
#[local] Arguments F64.ltb : simpl never.
#[local] Arguments F64.leb : simpl never.
#[local] Arguments F64.is_finite : simpl never.

Section gate.
Context `{FloatRepr}.

(** ** Validation: [None] accepts *)

Definition _validate_blast_radius (value : pyval) : res (option string) :=
  let non_numeric := Ok (Some ("blast_radius is non-numeric (" +:+ py_repr value +:+ ")")) in
  let check v :=
    if negb (F64.is_finite v) then
      Ok (Some ("blast_radius is not finite (" +:+ py_repr value +:+ ")"))
    else if F64.ltb v F64.zero || F64.ltb (F64.of_Z 1) v then
      Ok (Some ("blast_radius out of range [0,1] (" +:+ repr_float v +:+ ")"))
    else Ok None in
  match value with
  | PInt z => v ← float_of_int z; check v
  | PFloat v => check v
  | _ => non_numeric
  end.

Definition _validate_dependents_count (value : pyval) : option string :=
  match value with
  | PNone => None
  | PInt z =>
    if (z <? 0)%Z then Some ("dependents_count is negative (" +:+ py_repr value +:+ ")") else None
  | _ => Some ("dependents_count is not a non-negative int (" +:+ py_repr value +:+ ")")
  end.

(** ** The content proposal *)

(** [float(blast_raw or 0.0)], after validation. *)
Definition blast_of (blast_raw : pyval) : res spec_float :=
  match py_or blast_raw (PFloat F64.zero) with
  | PInt z => float_of_int z
  | PFloat v => Ok v
  | _ => Raise TypeError
  end.

Definition decide_inclusion (proof_artifact : pyval) : res Proposal :=
  claim0 ← py_get proof_artifact "claim" (PDict []);
  let claim := py_or claim0 (PDict []) in
  level ← py_get claim "epistemicLevel" (PStr "");
  status ← py_get proof_artifact "status" (PStr "");
  tested0 ← py_get proof_artifact "test_coverage_reach" (PBool false);
  let tested := truthy tested0 in
  generated0 ← py_get proof_artifact "generated" (PBool false);
  let generated := truthy generated0 in
  dead ← (if eq_str level "rejected" then Ok true else in_set status ["FAILED"; "BLOCKED"]);
  if (dead : bool) then
    Ok (mkProposal EXCLUDE "n/a"
      ("rejected/dead cell (epistemicLevel=" +:+ py_repr level +:+ ", status=" +:+ py_repr status
       +:+ ") — no warrant to review"))
  else
  blast_raw ← py_get proof_artifact "blast_radius" (PFloat F64.zero);
  bad_blast ← _validate_blast_radius blast_raw;
  dependents ← py_get proof_artifact "dependents_count" PNone;
  match (match bad_blast with Some r => Some r | None => _validate_dependents_count dependents end) with
  | Some unverifiable =>
    Ok (mkProposal INCLUDE "high"
      ("unverifiable artifact → included for review (" +:+ unverifiable +:+ ")"))
  | None =>
    blast ← blast_of blast_raw;
    weak_evidence ← (if tested then in_set level ["speculative"; "synthetic"; "empirical"] else Ok true);
    if F64.leb BLAST_HIGH_RISK blast && (weak_evidence : bool) then
      Ok (mkProposal INCLUDE "high"
        ("high blast_radius=" +:+ fmt3 blast +:+ " with weak evidence (test_coverage_reach="
         +:+ py_str (PBool tested) +:+ ", epistemicLevel=" +:+ py_repr level +:+ ") — must be reviewed"))
    else if F64.leb BLAST_INCLUDE_FLOOR blast then
      Ok (mkProposal INCLUDE (if generated then "deprioritized" else "normal")
        ("blast_radius=" +:+ fmt3 blast +:+ " at/above inclusion floor " +:+ repr_float BLAST_INCLUDE_FLOOR
         +:+ (if generated then " (generated/codegen — deprioritized)" else "")))
    else
      Ok (mkProposal EXCLUDE "n/a"
        ("low blast_radius=" +:+ fmt3 blast +:+ " below inclusion floor " +:+ repr_float BLAST_INCLUDE_FLOOR
         +:+ " — not review-worthy"))
  end.

(** ** What the content decision promises *)

(** The content half of the MEET. *)
Definition content_includes (a : pyval) : Prop :=
  exists p, decide_inclusion a = Ok p /\ p_verdict p = INCLUDE.

(** The epistemic level and status a cell declares. *)
Definition dead_cell (a : dict) : Prop :=
  (exists c, assoc "claim" a = Some (PDict c) /\ assoc "epistemicLevel" c = Some (PStr "rejected")) \/
  assoc "status" a = Some (PStr "FAILED") \/ assoc "status" a = Some (PStr "BLOCKED").

(** The blast radius of a cell that can be scored: a number in [0, 1] with a
    dependents count that is absent or not negative. *)
Definition scored (a : dict) (blast : spec_float) : Prop :=
  (match default (PFloat F64.zero) (assoc "blast_radius" a) with
   | PInt z => F64.of_Z z = blast
   | PFloat f => f = blast
   | _ => False
   end) /\
  F64.is_finite blast = true /\ F64.ltb blast F64.zero = false /\ F64.ltb (F64.of_Z 1) blast = false /\
  match default PNone (assoc "dependents_count" a) with
  | PNone => True | PInt z => (0 <= z)%Z | _ => False
  end.

Lemma decide_verdict_cases a p :
  decide_inclusion a = Ok p -> p_verdict p = INCLUDE \/ p_verdict p = EXCLUDE.
Proof.
  unfold decide_inclusion. intros E.
  repeat (apply bind_Ok_inv in E as (? & _ & E)).
  match type of E with (if ?b then _ else _) = _ => destruct b end; [injection E as <-; auto|].
  do 3 apply bind_Ok_inv in E as (? & _ & E).
  match type of E with (match ?b with _ => _ end) = _ => destruct b end; [injection E as <-; auto|].
  do 2 apply bind_Ok_inv in E as (? & _ & E).
  repeat match type of E with (if ?b then _ else _) = _ => destruct b end; injection E as <-; auto.
Qed.

Lemma hashable_in_set v l : hashable v = true -> in_set v l = Ok (existsb (eq_str v) l).
Proof. unfold in_set. by intros ->. Qed.

Lemma in_set_Ok v l b : in_set v l = Ok b -> b = existsb (eq_str v) l.
Proof. unfold in_set. destruct (hashable v); naive_solver. Qed.

(** The dead test of [decide_inclusion], on the values it looks at. *)
Lemma dead_cell_spec a claim level (dead : bool) :
  claim = py_or (default (PDict []) (assoc "claim" a)) (PDict []) ->
  py_get claim "epistemicLevel" (PStr "") = Ok level ->
  (if eq_str level "rejected" then Ok true
   else in_set (default (PStr "") (assoc "status" a)) ["FAILED"; "BLOCKED"]) = Ok dead ->
  dead = true <-> dead_cell a.
Proof.
  intros Ec El Ed. unfold dead_cell.
  assert (Hl : eq_str level "rejected" = true <->
    exists c, assoc "claim" a = Some (PDict c) /\ assoc "epistemicLevel" c = Some (PStr "rejected")).
  { rewrite eq_str_true. unfold py_or in Ec. split.
    - intros ->. destruct (assoc "claim" a) as [w|]; simpl in *; [|subst; discriminate El].
      destruct (truthy w); subst; [|discriminate El].
      destruct w as [| | | | | |c]; try discriminate El. exists c. split; [done|].
      simpl in El. destruct (assoc "epistemicLevel" c); simpl in El; naive_solver.
    - intros (c & Hc & Hl). rewrite Hc in Ec. simpl in Ec.
      destruct c as [|kv c]; [discriminate Hl|]. subst claim. unfold py_get in El. rewrite Hl in El.
      by simplify_eq/=. }
  rewrite <- Hl. destruct (eq_str level "rejected") eqn:E; [simplify_eq; naive_solver|].
  apply in_set_Ok in Ed as ->. cbn [existsb]. rewrite !orb_true_iff, !eq_str_true.
  destruct (assoc "status" a) as [w|]; simpl; naive_solver.
Qed.

Lemma validate_blast_scored v r :
  _validate_blast_radius v = Ok r ->
  (r = None <-> exists b, match v with PInt z => F64.of_Z z = b | PFloat f => f = b | _ => False end /\
     F64.is_finite b = true /\ F64.ltb b F64.zero = false /\ F64.ltb (F64.of_Z 1) b = false).
Proof.
  unfold _validate_blast_radius. intros E.
  destruct v as [| |z|f| | |]; try (injection E as <-; split; [discriminate|intros (? & [] & _)]).
  - unfold float_of_int in E. destruct (F64.is_finite (F64.of_Z z)) eqn:Ef; [|discriminate].
    simpl in E. rewrite Ef in E. simpl in E.
    destruct (F64.ltb _ F64.zero) eqn:E1, (F64.ltb (F64.of_Z 1) _) eqn:E2; simpl in E; simplify_eq;
      naive_solver congruence.
  - destruct (F64.is_finite f) eqn:Ef; simpl in E; [|simplify_eq; naive_solver congruence].
    destruct (F64.ltb _ F64.zero) eqn:E1, (F64.ltb (F64.of_Z 1) _) eqn:E2; simpl in E; simplify_eq;
      naive_solver congruence.
Qed.

Lemma validate_dependents_ok v :
  _validate_dependents_count v = None <->
  match v with PNone => True | PInt z => (0 <= z)%Z | _ => False end.
Proof.
  destruct v; simpl; try naive_solver. destruct (Z.ltb_spec z 0); naive_solver lia.
Qed.

(** [float(blast_raw or 0.0)] is the validated number, a negative zero aside. *)
Lemma blast_of_scored v b blast t :
  match v with PInt z => F64.of_Z z = b | PFloat f => f = b | _ => False end ->
  blast_of v = Ok blast -> F64.leb t blast = F64.leb t b.
Proof.
  unfold blast_of, py_or. destruct v as [| |z|f| | |]; try done; intros <-.
  - destruct (Z.eqb_spec z 0) as [->|]; simpl.
    + by intros [= <-].
    + destruct (Z.eqb_spec z 0); [done|]. simpl. unfold float_of_int.
      destruct (F64.is_finite _); naive_solver.
  - destruct f as [[]| | |]; simpl; intros [= <-]; done.
Qed.

Lemma scored_unique a b1 b2 : scored a b1 -> scored a b2 -> b1 = b2.
Proof.
  intros [H1 _] [H2 _]. revert H1 H2.
  destruct (default _ (assoc "blast_radius" a)); try done; by intros <- <-.
Qed.

(** The high-risk threshold is above the inclusion floor. *)
Lemma high_above_floor b :
  F64.is_finite b = true -> F64.leb BLAST_HIGH_RISK b = true -> F64.leb BLAST_INCLUDE_FLOOR b = true.
Proof.
  assert (BLAST_HIGH_RISK = S754_finite false 5404319552844595 (-53)) as -> by reflexivity.
  assert (BLAST_INCLUDE_FLOOR = S754_finite false 7205759403792794 (-55)) as -> by reflexivity.
  destruct b as [|s| |[] m e]; try done. unfold F64.leb, SFleb. cbn [SFcompare]. intros _.
  destruct (Z.compare_spec (-53) e), (Z.compare_spec (-55) e); done || lia.
Qed.

(** Nothing is dropped silently.  A cell is excluded exactly when it is
    declared rejected or dead, or when its numbers are valid and its blast
    radius is below the inclusion floor: evidence that cannot be scored is never
    a reason to exclude. *)
Theorem excluded_iff_warranted a p :
  decide_inclusion (PDict a) = Ok p ->
  (p_verdict p = EXCLUDE <->
   dead_cell a \/ exists b, scored a b /\ F64.leb BLAST_INCLUDE_FLOOR b = false).
Proof.
  unfold decide_inclusion. intros E.
  apply bind_Ok_inv in E as (claim0 & [= <-] & E).
  apply bind_Ok_inv in E as (level & El & E).
  do 3 apply bind_Ok_inv in E as (? & [= <-] & E).
  apply bind_Ok_inv in E as (dead & Ed & E).
  pose proof (dead_cell_spec _ _ _ _ eq_refl El Ed) as Hdead.
  destruct dead; [simplify_eq; naive_solver|].
  apply bind_Ok_inv in E as (raw & [= <-] & E). apply bind_Ok_inv in E as (bad & Eb & E).
  apply bind_Ok_inv in E as (dep & [= <-] & E).
  pose proof (validate_blast_scored _ _ Eb) as Hb.
  pose proof (validate_dependents_ok (default PNone (assoc "dependents_count" a))) as Hd.
  assert (Hnot : ~ dead_cell a) by (intros ?%Hdead; done). clear Hdead El Ed.
  destruct bad as [r|]; [|destruct (_validate_dependents_count _) as [r|]].
  1-2: injection E as <-; split; [discriminate|]; intros [?|(b & (Hr & Hf & H0 & H1 & Hdep) & _)]; [done|].
  1: by discriminate (proj2 Hb (ex_intro _ b (conj Hr (conj Hf (conj H0 H1))))).
  1: by apply Hd in Hdep.
  destruct (proj1 Hb eq_refl) as (b & Hraw & Hfin & H0 & H1).
  assert (Hs : scored a b) by (split_and!; try done; by apply Hd).
  apply bind_Ok_inv in E as (blast & Ebl & E). apply bind_Ok_inv in E as (weak & _ & E).
  pose proof (blast_of_scored _ _ _ BLAST_INCLUDE_FLOOR Hraw Ebl) as Hfloor.
  pose proof (blast_of_scored _ _ _ BLAST_HIGH_RISK Hraw Ebl) as Hhigh.
  rewrite Hfloor, Hhigh in E. destruct (F64.leb BLAST_INCLUDE_FLOOR b) eqn:Efl.
  - assert (p_verdict p = INCLUDE) as -> by (destruct (_ && weak); by injection E as <-).
    split; [discriminate|]. intros [?|(b' & Hs' & Hf)]; [done|].
    by rewrite (scored_unique _ _ _ Hs' Hs), Efl in Hf.
  - destruct (F64.leb BLAST_HIGH_RISK b) eqn:Ehi.
    + exfalso. by eapply high_above_floor in Ehi; [rewrite Ehi in Efl|].
    + injection E as <-. split; [|done]. intros _. right. by exists b.
Qed.

(** Artifacts the analyzer writes: the claim is an object, the level and status
    are not containers and the blast radius fits a float. *)
Definition artifact_ok (a : dict) : bool :=
  let claim := py_or (default (PDict []) (assoc "claim" a)) (PDict []) in
  match claim with
  | PDict c =>
    hashable (default (PStr "") (assoc "epistemicLevel" c)) &&
    hashable (default (PStr "") (assoc "status" a)) &&
    match default (PFloat F64.zero) (assoc "blast_radius" a) with
    | PInt z => F64.is_finite (F64.of_Z z)
    | _ => true
    end
  | _ => false
  end.

Lemma validate_blast_returns v :
  match v with PInt z => F64.is_finite (F64.of_Z z) | _ => true end = true ->
  exists r, _validate_blast_radius v = Ok r /\ (r = None -> exists b, blast_of v = Ok b).
Proof.
  unfold _validate_blast_radius, blast_of, py_or, float_of_int.
  destruct v as [| |z|f| | |]; intros E; try (eexists; split; [reflexivity|discriminate]).
  - rewrite E. simpl. rewrite E. simpl.
    destruct (_ || _); eexists; (split; [reflexivity|]); [discriminate|]. intros _.
    destruct (negb _); simpl; [|eauto]. rewrite E. eauto.
  - destruct (negb _); [|destruct (_ || _)]; eexists; (split; [reflexivity|]); try discriminate.
    intros _. destruct (truthy _); eauto.
Qed.

Lemma decide_inclusion_returns a : artifact_ok a = true -> is_ok (decide_inclusion (PDict a)) = true.
Proof.
  unfold artifact_ok, decide_inclusion. simpl.
  set (claim := py_or _ _). destruct claim as [| | | | | |c]; try done. simpl.
  rewrite !andb_true_iff. intros [[Hl Hs] Hb].
  set (level := default _ (assoc "epistemicLevel" c)) in *.
  assert (exists dead, (if eq_str level "rejected" then Ok true
    else in_set (default (PStr "") (assoc "status" a)) ["FAILED"; "BLOCKED"]) = Ok dead) as [dead ->].
  { destruct (eq_str level _); [eauto|]. rewrite hashable_in_set by done. eauto. }
  simpl. destruct dead; [done|].
  destruct (validate_blast_returns _ Hb) as ([r|] & -> & Hbl); [done|]. simpl.
  destruct (_validate_dependents_count _); [done|].
  destruct (Hbl eq_refl) as [b ->]. simpl.
  destruct (truthy _); [rewrite hashable_in_set by done|]; simpl; repeat case_match; done.
Qed.

(** An integer blast radius too large for a float makes the content decision
    raise [OverflowError], where every other unscorable number is reported as
    unverifiable and included for review. *)
Theorem blast_radius_overflow_raises :
  decide_inclusion (PDict [("cell_id", PStr "c"); ("blast_radius", PInt (10 ^ 309))])
  = Raise (OtherError "int too large to convert to float") /\
  p_priority <$> decide_inclusion (PDict [("cell_id", PStr "c"); ("blast_radius", PInt (10 ^ 308))])
  = Ok "high".
Proof. split; vm_compute; reflexivity. Qed.

(** ** The authority call *)

Section authority.
Variable AUTHORIZE_PY : string.
Variable run : list string -> proc.

Definition authorize_cmd (state_file status : option string) (agent_ref action : string) : list string :=
  (["python3"; AUTHORIZE_PY; "check"; agent_ref; "--action"; action]
   ++ (match state_file with Some f => ["--state-file"; f] | None => [] end)
   ++ (match status with Some s => ["--status"; s] | None => [] end))%list.

Definition exit_verdict_of (returncode : Z) : string :=
  if (returncode =? EXIT_ALLOW)%Z then "allow"
  else if (returncode =? EXIT_REVIEW)%Z then "require-review"
  else "deny".

Definition authorize_inclusion (state_file status : option string) (agent_ref action : string) :
    res (string * pyval) :=
  match run (authorize_cmd state_file status agent_ref action) with
  | ProcError msg =>
    Ok ("deny", PDict [("verdict", PStr "deny"); ("reason_code", PStr "authorize_invocation_failed");
                       ("error", PStr msg); ("receipt_hash", PNone)])
  | ProcDone returncode out stderr =>
    let exit_verdict := exit_verdict_of returncode in
    let raw0 := match out with JsonOutput v => v | NoOutput | BadOutput => PDict [] end in
    let raw := if truthy raw0 then raw0 else
      PDict [("verdict", PStr exit_verdict); ("reason_code", PStr "no_decision_payload");
             ("receipt_hash", PNone); ("exit_code", PInt returncode); ("stderr", PStr (py_strip stderr))] in
    payload_verdict ← py_get raw "verdict" (PStr exit_verdict);
    if negb (hashable payload_verdict) then Raise TypeError
    else
      let verdict :=
        if String.eqb exit_verdict "deny" || eq_str payload_verdict "deny" then "deny"
        else if eq_str payload_verdict exit_verdict then exit_verdict
        else "deny" in
      Ok (verdict, raw)
  end.

(** ** The gate

    [now] is the clock's reading; the result is the decision and the ledger
    file after the call. *)

Definition gate_inclusion (proof_artifact : pyval) (state_file status : option string)
    (ledger_file : file) (agent_ref : string) (persist : bool) (now : string) : res (Decision * file) :=
  claim0 ← py_get proof_artifact "claim" (PDict []);
  let claim := py_or claim0 (PDict []) in
  proposal ← decide_inclusion proof_artifact;
  auth ← authorize_inclusion state_file status agent_ref INCLUSION_ACTION;
  let (authority_verdict, authority_raw) := (auth : string * pyval) in
  fr ← (if String.eqb (p_verdict proposal) EXCLUDE then
          Ok (V_EXCLUDE, "content: " +:+ p_reason proposal)
        else if negb (String.eqb authority_verdict "allow") then
          code ← py_get authority_raw "reason_code" PNone;
          Ok (V_EXCLUDE, "FAIL-CLOSED: authority verdict=" +:+ repr_str authority_verdict +:+ " ("
            +:+ py_str code +:+ ") blocked inclusion; content proposal was " +:+ p_verdict proposal
            +:+ ": " +:+ p_reason proposal)
        else Ok (V_INCLUDE, "authority allowed + content: " +:+ p_reason proposal));
  let (final, reason) := (fr : string * string) in
  cell_id ← py_get proof_artifact "cell_id" (PStr "");
  level ← py_get claim "epistemicLevel" (PStr "");
  proof_id ← py_get proof_artifact "proofId" (PStr "");
  reason_code ← py_get authority_raw "reason_code" (PStr "");
  decision ← seal (mkDecision (PStr "ContextInclusionDecision")
    (PStr "gbrg.governance.context-inclusion-decision.v0.1") (PStr agent_ref) (PStr INCLUSION_ACTION)
    cell_id level proof_id (PStr final) (PBool (String.eqb final V_INCLUDE)) (PStr reason)
    (PStr (if String.eqb final V_INCLUDE then p_priority proposal else "n/a"))
    (PStr (p_verdict proposal)) (PStr authority_verdict) (PStr (py_str reason_code)) (PStr now)
    authority_raw (PStr ""));
  Ok (decision, if persist then append (to_dict decision) ledger_file else ledger_file).

(** ** What the gate promises *)

(** The authority half, as the code decides it: the registry ran, exited with
    the allow code, and its payload, if it gave one, does not say otherwise.
    The exit code is what is trusted: the allow code with no output, or with
    output that is not JSON, counts as allow ([unparseable_output_allows]),
    where the docstring of [authorize_inclusion] says that it is a deny. *)
Definition payload_allows (out : stdout) : Prop :=
  match out with
  | NoOutput | BadOutput => True
  | JsonOutput v =>
    truthy v = false \/
    exists d, v = PDict d /\ (assoc "verdict" d = None \/ assoc "verdict" d = Some (PStr "allow"))
  end.

Definition authority_allows (state_file status : option string) (agent_ref action : string) : Prop :=
  exists out err,
    run (authorize_cmd state_file status agent_ref action) = ProcDone EXIT_ALLOW out err /\
    payload_allows out.

Lemma exit_verdict_allow rc : exit_verdict_of rc = "allow" <-> rc = EXIT_ALLOW.
Proof.
  unfold exit_verdict_of, EXIT_ALLOW, EXIT_REVIEW.
  destruct (Z.eqb_spec rc 0), (Z.eqb_spec rc 3); split; intros; congruence || done.
Qed.

Lemma authorize_inclusion_allow sf st ag action v raw :
  authorize_inclusion sf st ag action = Ok (v, raw) ->
  (v = "allow" <-> authority_allows sf st ag action).
Proof.
  unfold authorize_inclusion, authority_allows.
  destruct (run _) as [msg|rc out err]; [intros E; simplify_eq; naive_solver|].
  set (ev := exit_verdict_of rc). intros E.
  apply bind_Ok_inv in E as (pv & Epv & E).
  destruct (hashable pv); simpl in E; [|discriminate]. simplify_eq.
  transitivity (ev = "allow" /\ pv = PStr ev).
  - destruct (String.eqb_spec ev "deny") as [Ed|Hd]; simpl; [split; [done|]; intros []; congruence|].
    destruct (eq_str pv "deny") eqn:Ep.
    { apply eq_str_true in Ep. split; [done|]. intros []; congruence. }
    destruct (eq_str pv ev) eqn:Ee; [apply eq_str_true in Ee; naive_solver|].
    split; [done|]. intros [? ->]. simpl in Ee. by rewrite String.eqb_refl in Ee.
  - unfold ev in *. rewrite exit_verdict_allow. split.
    + intros [-> Hpv]. exists out, err. split; [done|].
      destruct out as [|w|]; simpl in *; [done| |done].
      destruct (truthy w) eqn:Ew; [right|by left].
      destruct w as [| | | | | |d]; simpl in Epv; try discriminate. exists d. split; [done|].
      destruct (assoc "verdict" d); simpl in Epv; simplify_eq; auto.
    + intros (o & e & [= -> -> ->] & Hp). split; [done|].
      destruct o as [|w|]; simpl in *; [by simplify_eq| |by simplify_eq].
      destruct (truthy w) eqn:Ew; [|by simplify_eq/=].
      destruct Hp as [?|(d & -> & [Hv|Hv])]; [congruence| |]; simpl in Epv; rewrite Hv in Epv;
        by simplify_eq.
Qed.

Lemma gate_inclusion_inv a sf st f ag persist now d f' :
  gate_inclusion a sf st f ag persist now = Ok (d, f') ->
  exists p v raw d0,
    decide_inclusion a = Ok p /\ authorize_inclusion sf st ag INCLUSION_ACTION = Ok (v, raw) /\
    seal d0 = Ok d /\ f' = (if persist then append (to_dict d) f else f) /\
    included d = PBool (negb (String.eqb (p_verdict p) EXCLUDE) && String.eqb v "allow") /\
    verdict d = PStr (if negb (String.eqb (p_verdict p) EXCLUDE) && String.eqb v "allow"
                      then V_INCLUDE else V_EXCLUDE) /\
    content_verdict d = PStr (p_verdict p) /\ authority_verdict d = PStr v /\ authority d = raw.
Proof.
  unfold gate_inclusion. intros E.
  apply bind_Ok_inv in E as (claim0 & _ & E).
  apply bind_Ok_inv in E as (p & Ep & E). apply bind_Ok_inv in E as ([v raw] & Ea & E).
  apply bind_Ok_inv in E as ([final reason] & Ef & E).
  do 4 apply bind_Ok_inv in E as (? & _ & E).
  apply bind_Ok_inv in E as (d1 & Es & E). simplify_eq.
  exists p, v, raw. eexists. split_and!; [done|done|exact Es|done|..];
    unfold seal in Es; apply bind_Ok_inv in Es as (c & _ & Es); simplify_eq; simpl; try done.
  all: destruct (String.eqb (p_verdict p) EXCLUDE); simpl in *; [by simplify_eq|].
  all: destruct (String.eqb v "allow"); simpl in *; [by simplify_eq|].
  all: by apply bind_Ok_inv in Ef as (? & _ & [= <- <-]).
Qed.

(** ** Properties *)

(** The allow code with no output, or with output that does not parse, is an
    allow: the docstring's "unparseable output collapses to deny" is not what
    the code does. *)
Lemma unparseable_output_allows sf st ag action out err :
  run (authorize_cmd sf st ag action) = ProcDone EXIT_ALLOW out err ->
  out = NoOutput \/ out = BadOutput ->
  exists raw, authorize_inclusion sf st ag action = Ok ("allow", raw).
Proof. unfold authorize_inclusion. intros ->. intros [-> | ->]; simpl; eauto. Qed.

(** C12: the gate is the MEET of its two authorities.  A cell is included
    exactly when the content proposal includes it and the registry ran, exited
    with the allow code and returned no payload that disagrees; the sealed
    verdict and the [included] flag always agree.  A registry that cannot be
    run, or exits with any other code, excludes the cell whatever it printed.
    The exit code alone is trusted when there is no payload: with the allow
    code and empty or unparseable output the content proposal decides, so the
    gate is not closed against unparseable output, which the docstring of
    [authorize_inclusion] says is denied. *)
Theorem gate_is_meet a sf st f ag persist now d f' :
  gate_inclusion a sf st f ag persist now = Ok (d, f') ->
  (included d = PBool true <-> content_includes a /\ authority_allows sf st ag INCLUSION_ACTION) /\
  (verdict d = PStr V_INCLUDE <-> included d = PBool true) /\
  match run (authorize_cmd sf st ag INCLUSION_ACTION) with
  | ProcError _ => included d = PBool false
  | ProcDone rc out _ =>
    (rc <> EXIT_ALLOW -> included d = PBool false) /\
    (rc = EXIT_ALLOW -> out = NoOutput \/ out = BadOutput ->
     (included d = PBool true <-> content_includes a))
  end.
Proof.
  intros E. enough (Hmeet :
    (included d = PBool true <-> content_includes a /\ authority_allows sf st ag INCLUSION_ACTION) /\
    (verdict d = PStr V_INCLUDE <-> included d = PBool true) /\
    (included d = PBool true \/ included d = PBool false)).
  { destruct Hmeet as (Hi & Hv & Hb). do 2 (split; [done|]). unfold authority_allows in Hi.
    destruct (run _) as [msg|rc out err] eqn:Er.
    - destruct Hb as [Hb|]; [|done]. apply Hi in Hb as (_ & ? & ? & ? & _). discriminate.
    - split.
      + intros Hrc. destruct Hb as [Hb|]; [|done].
        apply Hi in Hb as (_ & ? & ? & Hr & _). congruence.
      + intros -> Hout. rewrite Hi. split; [naive_solver|]. intros Hc. split; [done|].
        exists out, err. split; [done|]. by destruct Hout as [-> | ->]. } apply gate_inclusion_inv in E as (p & v & raw & d0 & Ep & Ea & _ & _ & Hi & Hv & _).
  rewrite Hi, Hv. pose proof (authorize_inclusion_allow _ _ _ _ _ _ Ea) as Hallow.
  assert (Hc : content_includes a <-> String.eqb (p_verdict p) EXCLUDE = false).
  { unfold content_includes. rewrite Ep.
    destruct (decide_verdict_cases _ _ Ep) as [E|E]; rewrite E; simpl; split; try done.
    - eauto.
    - intros (q & [= <-] & Hq). by rewrite E in Hq. }
  rewrite Hc, <- Hallow.
  destruct (String.eqb (p_verdict p) EXCLUDE), (String.eqb_spec v "allow"); simpl;
    split_and!; naive_solver.
Qed.

(** Every decision the gate persists is sealed: from a ledger that verifies,
    the ledger after the call verifies, has one record more and reports the
    decision's receipt as its head. *)
Theorem gate_persists_verified a sf st f ag now d f' g result :
  verify_ledger f g = Ok result -> ok result = true ->
  gate_inclusion a sf st f ag true now = Ok (d, f') ->
  exists r, receipt d = PStr r /\
    verify_ledger f' g = Ok (mkVerifyResult true (S (records result)) (Some r) None None).
Proof.
  intros V O E. apply gate_inclusion_inv in E as (p & v & raw & d0 & _ & _ & Es & -> & _).
  by eapply append_sealed_verifies.
Qed.

(** Outcomes of the registry whose payload, when it gives one, is an object
    with a verdict that is not a container. *)
Definition outcome_ok (o : proc) : bool :=
  match o with
  | ProcDone _ (JsonOutput v) _ =>
    negb (truthy v) ||
    match v with PDict d => hashable (default PNone (assoc "verdict" d)) | _ => false end
  | _ => true
  end.

Lemma authorize_inclusion_returns sf st ag action :
  outcome_ok (run (authorize_cmd sf st ag action)) = true ->
  exists v d, authorize_inclusion sf st ag action = Ok (v, PDict d).
Proof.
  unfold authorize_inclusion. destruct (run _) as [msg|rc out err]; [by eauto|].
  destruct out as [|w|]; simpl; [eauto| |eauto]. intros Hw.
  destruct (truthy w); [|by eauto]. destruct w as [| | | | | |d]; try discriminate Hw.
  simpl in *. destruct (assoc "verdict" d); simpl in *; [rewrite Hw|]; simpl; eauto.
Qed.

(** The gate always decides.  For every artifact of the analyzer's shape and
    every outcome of the registry with an object payload, a failed or missing
    registry included, the gate returns a sealed decision. *)
Theorem gate_returns a sf st f ag persist now :
  artifact_ok a = true ->
  outcome_ok (run (authorize_cmd sf st ag INCLUSION_ACTION)) = true ->
  is_ok (gate_inclusion (PDict a) sf st f ag persist now) = true.
Proof.
  intros Ha Ho. pose proof (decide_inclusion_returns a Ha) as Hd.
  destruct (authorize_inclusion_returns _ _ _ _ Ho) as (v & raw & Hauth).
  unfold gate_inclusion. destruct (decide_inclusion (PDict a)) as [p|]; [|done].
  rewrite Hauth. simpl. unfold artifact_ok in Ha.
  destruct (py_or _ _) as [| | | | | |c]; try done. simpl.
  destruct (String.eqb (p_verdict p) EXCLUDE); [done|]. destruct (String.eqb v "allow"); done.
Qed.

End authority.
End gate.

(** ** Witnesses *)

Section witnesses.
#[local] Existing Instance demo_float_repr.

Definition demo_artifact : dict :=
  [("cell_id", PStr "c1"); ("claim", PDict [("epistemicLevel", PStr "speculative")]);
   ("status", PStr "LIVE"); ("blast_radius", PFloat (F64.of_dec 7 1)); ("dependents_count", PInt 4)].

(** A registry that allows the scorer and a registry that cannot be started. *)
Definition demo_run (cmd : list string) : proc :=
  ProcDone 0 (JsonOutput (PDict [("verdict", PStr "allow"); ("receipt_hash", PStr "h")])) "".
Definition down_run (cmd : list string) : proc := ProcError "timeout".

#[local] Abbreviation demo_gate run :=
  (gate_inclusion "authorize.py" run (PDict demo_artifact) (Some "state.json") None (ledger_of [])
    AGENT_REF true "2026-01-01T00:00:00Z").

Lemma gate_is_meet_witness :
  exists d f, demo_gate demo_run = Ok (d, f) /\
    (included d = PBool true <->
     content_includes (PDict demo_artifact) /\
     authority_allows "authorize.py" demo_run (Some "state.json") None AGENT_REF INCLUSION_ACTION) /\
    (verdict d = PStr V_INCLUDE <-> included d = PBool true).
Proof.
  destruct (demo_gate demo_run) as [[d f]|] eqn:E; [|vm_compute in E; discriminate E].
  exists d, f. split; [reflexivity|].
  destruct (gate_is_meet _ _ _ _ _ _ _ _ _ _ _ E) as (Hi & Hv & _). exact (conj Hi Hv).
Defined.

Lemma gate_persists_verified_witness :
  exists d f r, demo_gate down_run = Ok (d, f) /\ receipt d = PStr r /\
    verify_ledger f GENESIS = Ok (mkVerifyResult true 1 (Some r) None None).
Proof.
  destruct (demo_gate down_run) as [[d f]|] eqn:E; [|vm_compute in E; discriminate E].
  destruct (gate_persists_verified _ _ _ _ _ (ledger_of []) _ _ d f GENESIS
    (mkVerifyResult true 0 None None None) eq_refl eq_refl E) as (r & Hr & Hv).
  exists d, f, r. split; [reflexivity|]. split; [exact Hr|exact Hv].
Defined.

Lemma excluded_iff_warranted_witness :
  exists p, decide_inclusion (PDict [("blast_radius", PFloat (F64.of_dec 1 1))]) = Ok p /\
  (p_verdict p = EXCLUDE <->
   dead_cell [("blast_radius", PFloat (F64.of_dec 1 1))] \/
   exists b, scored [("blast_radius", PFloat (F64.of_dec 1 1))] b /\
     F64.leb BLAST_INCLUDE_FLOOR b = false).
Proof.
  destruct (decide_inclusion (PDict [("blast_radius", PFloat (F64.of_dec 1 1))])) as [p|] eqn:E;
    [|vm_compute in E; discriminate E].
  exists p. split; [reflexivity|]. exact (excluded_iff_warranted _ _ E).
Defined.

Lemma gate_returns_witness :
  is_ok (gate_inclusion "authorize.py" down_run (PDict demo_artifact) None None None AGENT_REF true "t")
  = true.
Proof. apply gate_returns; vm_compute; reflexivity. Defined.
End witnesses.
