(* ===== verification/McpGate.v ===== *)
(** * The MCP gate

    Models [gbrg/mcp/mcp_gate.py]: the capability registry, the hash-chained
    event writer over the governance ledger and the subcommands behind the MCP
    server.

    The registry document read from disk is a parameter ([None]: the file is
    missing or not JSON), as are the clock and the random event id of a call.
    A subcommand returns its exit code, the object it prints and the ledger. *)

From Stdlib Require Import Ascii SpecFloat.
From S2P Require Import Prelude PyVal Json PyText Sha256 Ledger Gate.
Local Open Scope string_scope.

Definition SPIFFE_ID : string := "spiffe://socioprophet/mcp/gbrg".
Definition MCP_AGENT_REF : string := "agent-registry://gbrg/mcp".
Definition SERVER_NAME : string := "gbrg-mcp".
Definition TOOL_ACTION : string := "tool".

(** A JSON command-line argument: absent or empty, a JSON text or neither. *)
Inductive json_arg := NoArg | JsonArg (v : pyval) | BadArg.

Definition load_arg (a : json_arg) : pyval :=
  match a with
  | NoArg => PDict []
  | JsonArg v => v
  | BadArg => PDict [("_unparseable", PBool true)]
  end.

Section mcp.
Context `{FloatRepr}.

(** ** The capability registry *)

Definition str_schema : pyval := PDict [("type", PStr "string")].

Definition _tool_descriptors : list (string * dict) :=
  let proof_artifact_out := PDict [
    ("type", PStr "object");
    ("description", PStr "GBRG BlastRadiusProofArtifact (never a bare float).");
    ("required", PList (map PStr
      ["proofId"; "claim"; "status"; "blast_radius"; "derivation"; "declared_by"]))] in
  [("impact_query",
    [("capability_ref", PStr "capd://gbrg/mcp/impact_query"); ("effect", PStr "read");
     ("danger_class_hint", PStr "LOW"); ("side_effect_tags", PList []);
     ("schema", PDict [
       ("in", PDict [("type", PStr "object"); ("required", PList [PStr "path"]);
                     ("properties", PDict [("path", str_schema); ("cellId", str_schema)])]);
       ("out", proof_artifact_out)])]);
   ("minimal_context_query",
    [("capability_ref", PStr "capd://gbrg/mcp/minimal_context_query"); ("effect", PStr "read");
     ("danger_class_hint", PStr "LOW"); ("side_effect_tags", PList []);
     ("schema", PDict [
       ("in", PDict [("type", PStr "object"); ("required", PList [PStr "path"]);
                     ("properties", PDict [("path", str_schema)])]);
       ("out", PDict [("type", PStr "object");
                      ("description", PStr "Only the cells the gate INCLUDES, each a ProofArtifact.")])])]);
   ("graph_status",
    [("capability_ref", PStr "capd://gbrg/mcp/graph_status"); ("effect", PStr "read");
     ("danger_class_hint", PStr "LOW"); ("side_effect_tags", PList []);
     ("schema", PDict [
       ("in", PDict [("type", PStr "object"); ("required", PList [PStr "path"]);
                     ("properties", PDict [("path", str_schema)])]);
       ("out", PDict [("type", PStr "object");
                      ("description", PStr "Counts + epistemicLevel spread, wrapped as a ProofArtifact.")])])])].

Definition _capability_digest (name : string) (desc : dict) : res string :=
  ref ← py_item (PDict desc) "capability_ref";
  effect ← py_item (PDict desc) "effect";
  danger ← py_item (PDict desc) "danger_class_hint";
  tags ← py_item (PDict desc) "side_effect_tags";
  schema ← py_item (PDict desc) "schema";
  Ok (_sha (PDict [("name", PStr name); ("capability_ref", ref); ("effect", effect);
                   ("danger_class_hint", danger); ("side_effect_tags", tags); ("schema", schema)])).

Definition registry_tool (nd : string * dict) : res pyval :=
  let (name, desc) := nd in
  ref ← py_item (PDict desc) "capability_ref";
  digest ← _capability_digest name desc;
  effect ← py_item (PDict desc) "effect";
  tags ← py_item (PDict desc) "side_effect_tags";
  danger ← py_item (PDict desc) "danger_class_hint";
  schema ← py_item (PDict desc) "schema";
  Ok (PDict [("name", PStr name); ("capability_ref", ref); ("capability_digest", PStr digest);
             ("effect", effect); ("side_effect_tags", tags); ("danger_class_hint", danger);
             ("schema", schema);
             ("trustHints", PDict [("attestationRequired", PBool true); ("grantRequired", PBool true);
                                   ("ledgerMode", PStr "required")])]).

Definition build_registry : res pyval :=
  tools ← res_map registry_tool _tool_descriptors;
  Ok (PDict [("servers", PList [PDict [("name", PStr SERVER_NAME); ("side", PStr "either");
                                       ("tools", PList tools)]])]).

(** The registry document on disk. *)
Definition registry := option pyval.

Definition load_registry (r : registry) : res pyval := of_option JSONDecodeError r.

Definition _policy_hash (r : registry) : res string :=
  doc ← load_registry r; Ok (_sha doc).

(** [next(t for s in servers for t in s["tools"] if t["name"] == name)]: lazy,
    so nothing after the first match is looked at. *)
Fixpoint find_tool (name : string) (ts : list pyval) : res (option pyval) :=
  match ts with
  | [] => Ok None
  | t :: ts =>
    n ← py_item t "name";
    if eq_str n name then Ok (Some t) else find_tool name ts
  end.

Fixpoint find_in_servers (name : string) (ss : list pyval) : res pyval :=
  match ss with
  | [] => Raise StopIteration
  | s :: ss =>
    tools ← py_item s "tools";
    ts ← py_iter tools;
    found ← find_tool name ts;
    match found with Some t => Ok t | None => find_in_servers name ss end
  end.

Definition _tool_target (name : string) (r : registry) : res pyval :=
  doc ← load_registry r;
  servers ← py_item doc "servers";
  ss ← py_iter servers;
  entry ← find_in_servers name ss;
  ref ← py_item entry "capability_ref";
  digest ← py_item entry "capability_digest";
  Ok (PDict [("kind", PStr "mcp_tool"); ("spiffe_id", PStr SPIFFE_ID); ("capability_ref", ref);
             ("capability_digest", digest); ("server", PStr SERVER_NAME); ("tool", PStr name)]).

(** ** The chained event writer *)

Definition _prev_hash (f : file) : res pyval :=
  records ← read_all f true;
  match last records with
  | None => Ok (PStr GENESIS)
  | Some last =>
    h ← py_get last "hash" PNone;
    if truthy h then Ok h else py_item last "receipt"
  end.

(** The clock and the random id a call draws. *)
Record draw := mkDraw { ts : string; event_id : string }.

Definition event_core (dr : draw) (event_type : string) (target : pyval)
    (payload_hash policy_hash : string) (prev_hash : pyval) (allow : bool) (reason : string) : dict :=
  [("event_id", PStr (event_id dr)); ("ts", PStr (ts dr)); ("type", PStr event_type);
   ("actor", PDict [("spiffe_id", PStr SPIFFE_ID)]); ("target", target);
   ("payload_hash", PStr payload_hash); ("policy_hash", PStr policy_hash); ("prev_hash", prev_hash);
   ("decision", PDict [("allow", PBool allow); ("reason", PStr reason)])].

Definition emit_event (dr : draw) (event_type tool : string) (payload : pyval) (allow : bool)
    (reason : string) (f : file) (r : registry) : res (dict * file) :=
  let payload_hash := _sha payload in
  policy_hash ← _policy_hash r;
  prev_hash ← _prev_hash f;
  target ← _tool_target tool r;
  let core := event_core dr event_type target payload_hash policy_hash prev_hash allow reason in
  let event_hash := _sha (PDict core) in
  let event : dict :=
    [("event_id", PStr (event_id dr)); ("ts", PStr (ts dr)); ("type", PStr event_type);
     ("actor", PDict [("spiffe_id", PStr SPIFFE_ID)]); ("target", target);
     ("payload_hash", PStr payload_hash); ("policy_hash", PStr policy_hash); ("prev_hash", prev_hash);
     ("hash", PStr event_hash);
     ("decision", PDict [("allow", PBool allow); ("reason", PStr reason)])] in
  Ok (event, append (PDict event) f).

(** ** The subcommands *)

Record run_result := mkRun { exit_code : Z; printed : pyval; ledger_after : file }.

Section commands.
Variable AUTHORIZE_PY : string.
Variable run : list string -> proc.
(** [str(exc)]. *)
Variable exn_str : exn -> string.

Definition event_summary (event : dict) (keys : list string) : pyval :=
  PDict (map (fun k => (k, default PNone (assoc k event))) keys).

Definition cmd_authorize (dr : draw) (tool : string) (args_json : json_arg)
    (state_file status : option string) (f : file) (r : registry) : res run_result :=
  let call_args := load_arg args_json in
  auth ← authorize_inclusion AUTHORIZE_PY run state_file status MCP_AGENT_REF TOOL_ACTION;
  let (verdict, raw) := (auth : string * pyval) in
  let allow := String.eqb verdict "allow" in
  code ← py_get raw "reason_code" (PStr "");
  let reason_code := py_str code in
  let reason := "authorize verdict=" +:+ verdict +:+ " (" +:+ reason_code +:+ ")" in
  let payload := PDict [("tool", PStr tool); ("args", call_args); ("verdict", PStr verdict);
                        ("reason_code", PStr reason_code)] in
  match emit_event dr "MCP_CALL" tool payload allow reason f r with
  | Raise e =>
    Ok (mkRun 1 (PDict [("verdict", PStr "deny"); ("reason_code", PStr "ledger_emit_failed");
                        ("error", PStr (exn_str e)); ("ledger_written", PBool false); ("event", PNone)]) f)
  | Ok (event, f') =>
    Ok (mkRun (if allow then 0 else 1)
      (PDict [("verdict", PStr verdict); ("reason_code", PStr reason_code);
              ("ledger_written", PBool true);
              ("event", event_summary event ["event_id"; "hash"; "prev_hash"; "type"]);
              ("authority", raw)]) f')
  end.

Definition cmd_emit_result (dr : draw) (tool : string) (result_json : json_arg)
    (f : file) (r : registry) : run_result :=
  let result := load_arg result_json in
  let summary := PDict [("tool", PStr tool);
    ("result_keys", match result with
                    | PDict d => PList (map PStr (py_sort String.ltb d.*1))
                    | _ => PStr "array"
                    end)] in
  match emit_event dr "MCP_RESULT" tool summary true "tool result served" f r with
  | Raise e => mkRun 1 (PDict [("ledger_written", PBool false); ("error", PStr (exn_str e)); ("event", PNone)]) f
  | Ok (event, f') =>
    mkRun 0 (PDict [("ledger_written", PBool true);
                    ("event", event_summary event ["event_id"; "hash"; "type"])]) f'
  end.

Definition cmd_refuse (dr : draw) (tool : string) (args_json : json_arg) (reason_code_arg : string)
    (f : file) (r : registry) : run_result :=
  let call_args := load_arg args_json in
  let reason_code := match reason_code_arg with EmptyString => "resource_confinement" | s => s end in
  let payload := PDict [("tool", PStr tool); ("args", call_args); ("verdict", PStr "deny");
                        ("reason_code", PStr reason_code)] in
  match emit_event dr "MCP_CALL" tool payload false
          ("resource confinement refusal (" +:+ reason_code +:+ ")") f r with
  | Raise e => mkRun 1 (PDict [("ledger_written", PBool false); ("error", PStr (exn_str e)); ("event", PNone)]) f
  | Ok (event, f') =>
    mkRun 1 (PDict [("ledger_written", PBool true); ("reason_code", PStr reason_code);
                    ("event", event_summary event ["event_id"; "hash"; "prev_hash"; "type"])]) f'
  end.

(** What [filter-include] does with one artifact: [None] drops it. *)
Definition filter_one (art : pyval) : option dict :=
  match decide_inclusion art with
  | Raise e =>
    let enriched := match art with PDict d => d | _ => [("_raw", art)] end in
    Some (assoc_set "_inclusion" (PDict [("priority", PStr "high");
      ("reason", PStr ("unverifiable artifact → included for review (decide_inclusion error: "
                       +:+ exn_str e +:+ ")"))]) enriched)
  | Ok proposal =>
    if String.eqb (p_verdict proposal) INCLUDE then
      match art with
      | PDict d => Some (assoc_set "_inclusion"
          (PDict [("priority", PStr (p_priority proposal)); ("reason", PStr (p_reason proposal))]) d)
      | _ => None
      end
    else None
  end.

Definition cmd_filter_include (data : pyval) : res (Z * pyval) :=
  let data := match data with PDict d => PList [PDict d] | v => v end in
  arts ← py_iter data;
  let included := omap filter_one arts in
  Ok (0%Z, PDict [("included", PList (map PDict included)); ("included_count", PInt (Z.of_nat (length included)));
                  ("total", PInt (Z.of_nat (length arts)))]).

(** One call of a subcommand that writes the ledger. *)
Inductive mcp_step : file -> file -> Prop :=
| step_authorize dr tool args sf st r f out :
    cmd_authorize dr tool args sf st f r = Ok out -> mcp_step f (ledger_after out)
| step_result dr tool res r f : mcp_step f (ledger_after (cmd_emit_result dr tool res f r))
| step_refuse dr tool args code r f : mcp_step f (ledger_after (cmd_refuse dr tool args code f r)).

(** The ledger of a server that is its only writer. *)
Definition single_writer (f : file) : Prop :=
  exists recs h s, _read_raw f = Ok recs /\ chain GENESIS None recs h s /\
    Forall (fun r => is_event r = true) recs.

(** [f'] is [f] with lines added at its end. *)
Definition extends (f f' : file) : Prop := exists ls, default [] f' = (default [] f ++ ls)%list.

Lemma chain_last_event recs rec h s h' s' :
  chain h s (recs ++ [rec])%list h' s' -> is_event rec = true ->
  exists d, rec = PDict d /\ assoc "hash" d = Some (PStr h') /\ h' = _sha (PDict (assoc_del "hash" d)).
Proof.
  intros Hc He. apply chain_app in Hc as (h1 & s1 & _ & Hc).
  inversion Hc as [|? ? ? ? ? ? ? ? Hi Hn]; subst. inversion Hn; subst.
  inversion Hi; subst; [eauto|]. simpl in He. congruence.
Qed.

Lemma read_all_verified f recs h s :
  _read_raw f = Ok recs -> chain GENESIS None recs h s -> read_all f true = Ok recs.
Proof.
  intros Hr Hc. simpl. unfold read_verified.
  destruct (proj2 (verify_ledger_chain f GENESIS (mkVerifyResult true (length recs) s None None)))
    as [-> _]; [by eauto 10|]. done.
Qed.

(** On a single-writer ledger the next link is the chain head. *)
Lemma prev_hash_is_head f recs h s :
  _read_raw f = Ok recs -> chain GENESIS None recs h s ->
  Forall (fun r => is_event r = true) recs -> _prev_hash f = Ok (PStr h).
Proof.
  intros Hr Hc He. unfold _prev_hash. rewrite (read_all_verified _ _ _ _ Hr Hc). simpl.
  destruct recs as [|rec recs _] using rev_ind; [by inversion Hc|].
  rewrite last_snoc. rewrite Forall_app, Forall_singleton in He. destruct He as [_ He].
  destruct (chain_last_event _ _ _ _ _ _ Hc He) as (d & -> & Hh & E).
  simpl. rewrite Hh. simpl. rewrite E. done.
Qed.

Lemma emit_event_inv dr ty tool payload allow reason f r event f' :
  emit_event dr ty tool payload allow reason f r = Ok (event, f') ->
  exists target prev,
    _prev_hash f = Ok prev /\ _tool_target tool r = Ok target /\ f' = append (PDict event) f /\
    assoc "prev_hash" event = Some prev /\
    assoc "hash" event = Some (PStr (_sha (PDict (assoc_del "hash" event)))) /\
    assoc "type" event = Some (PStr ty) /\ assoc "target" event = Some target /\
    assoc "payload_hash" event = Some (PStr (_sha payload)) /\
    assoc "decision" event = Some (PDict [("allow", PBool allow); ("reason", PStr reason)]).
Proof.
  unfold emit_event. intros E.
  apply bind_Ok_inv in E as (policy & Epol & E). apply bind_Ok_inv in E as (prev & Ep & E).
  apply bind_Ok_inv in E as (target & Et & E). injection E as <- <-.
  exists target, prev. split_and!; done.
Qed.

Lemma emit_event_single_writer dr ty tool payload allow reason f r event f' :
  single_writer f -> emit_event dr ty tool payload allow reason f r = Ok (event, f') ->
  single_writer f' /\ extends f f'.
Proof.
  intros (recs & h & s & Hr & Hc & He) E.
  apply emit_event_inv in E as (target & prev & Ep & _ & -> & Hprev & Hhash & _).
  rewrite (prev_hash_is_head _ _ _ _ Hr Hc He) in Ep. injection Ep as <-.
  destruct (append_event_verifies _ _ _ _ _ _ _ Hr Hc Hhash Hprev eq_refl) as [Hr' Hc'].
  split; [|by eexists].
  eexists _, _, _. split; [exact Hr'|]. split; [exact Hc'|].
  apply Forall_app. split; [done|]. apply Forall_singleton. simpl. unfold assoc_mem.
  by rewrite Hhash, Hprev.
Qed.

Lemma mcp_step_single_writer f f' :
  mcp_step f f' -> single_writer f -> single_writer f' /\ extends f f'.
Proof.
  assert (Hrefl : forall f, extends f f) by (intros g; exists []; by rewrite app_nil_r).
  destruct 1 as [dr tool args sf st r f out E|dr tool rs r f|dr tool args code r f]; intros Hs.
  - unfold cmd_authorize in E. apply bind_Ok_inv in E as ([v raw] & _ & E).
    apply bind_Ok_inv in E as (code & _ & E).
    destruct (emit_event _ _ _ _ _ _ _ _) as [[ev f']|e] eqn:Ee; injection E as <-; simpl;
      [by eapply emit_event_single_writer|done].
  - unfold cmd_emit_result. destruct (emit_event _ _ _ _ _ _ _ _) as [[ev f']|e] eqn:Ee; simpl;
      [by eapply emit_event_single_writer|done].
  - unfold cmd_refuse. destruct (emit_event _ _ _ _ _ _ _ _) as [[ev f']|e] eqn:Ee; simpl;
      [by eapply emit_event_single_writer|done].
Qed.

Lemma mcp_steps_single_writer f f' :
  rtc mcp_step f f' -> single_writer f -> single_writer f' /\ extends f f'.
Proof.
  induction 1 as [f|f f1 f2 Hs _ IH]; intros Hw.
  - split; [done|]. exists []. by rewrite app_nil_r.
  - destruct (mcp_step_single_writer _ _ Hs Hw) as [Hw1 [l1 E1]].
    destruct (IH Hw1) as [Hw2 [l2 E2]]. split; [done|]. exists (l1 ++ l2)%list.
    by rewrite E2, E1, app_assoc.
Qed.

Lemma filter_one_None art :
  filter_one art = None <-> exists p, decide_inclusion art = Ok p /\ p_verdict p = EXCLUDE.
Proof.
  unfold filter_one. destruct (decide_inclusion art) as [p|e] eqn:E;
    [|split; [done|]; by intros (? & ? & _)].
  assert (exists d, art = PDict d) as [d ->].
  { unfold decide_inclusion in E. apply bind_Ok_inv in E as (? & E & _).
    destruct art; try discriminate E. eauto. }
  destruct (decide_verdict_cases _ _ E) as [Hv|Hv]; rewrite Hv; simpl; split; try done.
  - intros (q & [= <-] & Hq). by rewrite Hv in Hq.
  - eauto.
Qed.

Lemma filter_one_keeps d k key :
  filter_one (PDict d) = Some k -> key <> "_inclusion" -> assoc key k = assoc key d.
Proof.
  unfold filter_one. destruct (decide_inclusion _) as [p|e].
  - destruct (String.eqb _ _); intros [= <-] Hk. by rewrite assoc_set_ne.
  - intros [= <-] Hk. by rewrite assoc_set_ne.
Qed.

(** ** Properties *)

(** C22: whatever calls a server makes, in any order and with any arguments,
    registries and authority outcomes, its ledger verifies at every point and
    only ever grows: a run from no file keeps every earlier line in place. *)
Theorem mcp_ledger_always_verifies f1 f2 :
  rtc mcp_step None f1 -> rtc mcp_step f1 f2 ->
  extends f1 f2 /\ exists n s, verify_ledger f2 GENESIS = Ok (mkVerifyResult true n s None None).
Proof.
  intros R1 R2.
  assert (Hw0 : single_writer None).
  { exists [], GENESIS, None. split_and!; [done|constructor|constructor]. }
  destruct (mcp_steps_single_writer _ _ R1 Hw0) as [Hw1 _].
  destruct (mcp_steps_single_writer _ _ R2 Hw1) as [(recs & h & s & Hr & Hc & _) He].
  split; [done|]. exists (length recs), s. apply (verify_ledger_chain f2 GENESIS). eauto 10.
Qed.

(** No ledger event, no permission.  [authorize] exits with 0 only when the
    registry allowed the tool action, and then the call's event, marked
    allowed, is the last record of the ledger. *)
Theorem authorize_zero_is_recorded dr tool args sf st f r out :
  cmd_authorize dr tool args sf st f r = Ok out -> exit_code out = 0%Z ->
  authority_allows AUTHORIZE_PY run sf st MCP_AGENT_REF TOOL_ACTION /\
  exists event reason,
    ledger_after out = append (PDict event) f /\ is_event (PDict event) = true /\
    assoc "type" event = Some (PStr "MCP_CALL") /\ of_option StopIteration (assoc "target" event) = _tool_target tool r /\
    assoc "decision" event = Some (PDict [("allow", PBool true); ("reason", PStr reason)]).
Proof.
  unfold cmd_authorize. intros E Hx. apply bind_Ok_inv in E as ([v raw] & Ea & E).
  apply bind_Ok_inv in E as (code & _ & E).
  pose proof (authorize_inclusion_allow _ _ _ _ _ _ _ _ Ea) as Hallow.
  destruct (emit_event _ _ _ _ _ _ _ _) as [[event f']|e] eqn:Ee; injection E as <-; [|discriminate].
  simpl in Hx. destruct (String.eqb_spec v "allow") as [->|]; [|discriminate].
  split; [by apply Hallow|].
  apply emit_event_inv in Ee as (target & prev & _ & Ht & -> & Hp & Hh & Hty & Htg & _ & Hd).
  eexists _, _. split_and!; [reflexivity| |done|by rewrite Htg, Ht|exact Hd].
  simpl. unfold assoc_mem. by rewrite Hp, Hh.
Qed.

(** [filter-include] never loses an artifact it cannot judge: the artifacts
    it leaves out are exactly those whose content decision is EXCLUDE, and the
    others come out in order with all their fields, one for one. *)
Theorem filter_include_keeps arts :
  exists kept,
    cmd_filter_include (PList arts) =
      Ok (0%Z, PDict [("included", PList (map PDict kept));
                      ("included_count", PInt (Z.of_nat (length kept)));
                      ("total", PInt (Z.of_nat (length arts)))]) /\
    Forall2 (fun art k => forall d key, art = PDict d -> key <> "_inclusion" -> assoc key k = assoc key d)
      (List.filter (fun art => match p_verdict <$> decide_inclusion art with
                               | Ok v => negb (String.eqb v EXCLUDE) | Raise _ => true end) arts) kept.
Proof.
  exists (omap filter_one arts). split; [done|].
  induction arts as [|art arts IH]; [constructor|]. simpl.
  destruct (filter_one art) as [k|] eqn:Ek.
  - assert (match p_verdict <$> decide_inclusion art with
            | Ok v => negb (String.eqb v EXCLUDE) | Raise _ => true end = true) as ->.
    { destruct (decide_inclusion art) as [p|] eqn:E; [|done]. simpl.
      destruct (String.eqb_spec (p_verdict p) EXCLUDE); [|done].
      exfalso. rewrite (proj2 (filter_one_None art)) in Ek; [done|eauto]. }
    constructor; [|done]. intros d key ->. by apply filter_one_keeps.
  - apply filter_one_None in Ek as (p & -> & Hp). simpl. by rewrite Hp.
Qed.

(** An event emitted on a verified ledger that ends in a governance decision
    links to the decision's receipt, which is not the chain head the verifier
    expects, so the writer itself leaves a ledger that no longer verifies. *)
Theorem emit_after_decision_breaks dr ty tool payload allow reason f r event f' recs d h rc :
  _read_raw f = Ok (recs ++ [PDict d])%list -> chain GENESIS None (recs ++ [PDict d])%list h (Some rc) ->
  assoc "hash" d = None -> rc <> h ->
  emit_event dr ty tool payload allow reason f r = Ok (event, f') ->
  verify_ledger f' GENESIS =
    Ok (broken (length recs + 2) (S (length recs)) (BrokenLink (S (length recs)) (PStr rc) h)).
Proof.
  intros Hr Hc Hd Hne E.
  apply emit_event_inv in E as (target & prev & Ep & _ & -> & Hprev & Hhash & _).
  assert (Hrc : assoc "receipt" d = Some (PStr rc)).
  { apply chain_app in Hc as (h1 & s1 & _ & Hc).
    inversion Hc as [|? ? ? ? ? ? ? ? Hi Hn]; subst. inversion Hn; subst.
    inversion Hi; subst; [congruence|done]. }
  unfold _prev_hash in Ep. rewrite (read_all_verified _ _ _ _ Hr Hc) in Ep.
  simpl in Ep. rewrite last_snoc in Ep. simpl in Ep. rewrite Hd, Hrc in Ep. injection Ep as <-.
  unfold verify_ledger. rewrite (read_append _ _ _ Hr).
  cbn [mbind res_bind]. rewrite (verify_loop_chain _ _ _ _ _ _ _ _ Hc), !length_app.
  simpl. unfold verify_record. simpl. unfold assoc_mem. rewrite Hhash, Hprev. simpl.
  rewrite (proj2 (String.eqb_neq rc h) Hne). simpl.
  replace (length recs + 1 + 1)%nat with (length recs + 2)%nat by lia.
  by replace (length recs + 1)%nat with (S (length recs)) by lia.
Qed.
End commands.
End mcp.

(** ** Witnesses *)

Section witnesses.
#[local] Existing Instance demo_float_repr.

Definition demo_draw : draw := mkDraw "2026-01-01T00:00:00Z" "evt_0".
Definition demo_registry : registry :=
  match build_registry with Ok doc => Some doc | Raise _ => None end.
Definition demo_exn_str (e : exn) : string := "".

#[local] Abbreviation demo_call f :=
  (cmd_authorize "authorize.py" demo_run demo_exn_str demo_draw "impact_query" NoArg None None f demo_registry).

Lemma mcp_ledger_always_verifies_witness :
  exists f, extends f (ledger_after (cmd_refuse demo_exn_str demo_draw "graph_status" BadArg "" f demo_registry)) /\
    f <> None /\ exists n s,
    verify_ledger (ledger_after (cmd_refuse demo_exn_str demo_draw "graph_status" BadArg "" f demo_registry))
      GENESIS = Ok (mkVerifyResult true n s None None).
Proof.
  destruct (res_view (fun out => bool_decide (ledger_after out = None)) (demo_call None) false) as (out & E & Hf);
    [vm_compute; reflexivity|].
  exists (ledger_after out).
  destruct (mcp_ledger_always_verifies "authorize.py" demo_run demo_exn_str (ledger_after out)
    (ledger_after (cmd_refuse demo_exn_str demo_draw "graph_status" BadArg "" (ledger_after out) demo_registry)))
    as [Hext Hver].
  - eapply rtc_l; [|apply rtc_refl]. eapply step_authorize. exact E.
  - eapply rtc_l; [|apply rtc_refl]. apply step_refuse.
  - split; [exact Hext|]. split; [exact (proj1 (bool_decide_eq_false _) Hf)|exact Hver].
Defined.

Lemma authorize_zero_is_recorded_witness :
  exists out, demo_call None = Ok out /\
    authority_allows "authorize.py" demo_run None None MCP_AGENT_REF TOOL_ACTION /\
    exists event reason,
      ledger_after out = append (PDict event) None /\ is_event (PDict event) = true /\
      assoc "type" event = Some (PStr "MCP_CALL") /\
      of_option StopIteration (assoc "target" event) = _tool_target "impact_query" demo_registry /\
      assoc "decision" event = Some (PDict [("allow", PBool true); ("reason", PStr reason)]).
Proof.
  destruct (res_view exit_code (demo_call None) 0%Z) as (out & E & Hx); [vm_compute; reflexivity|].
  exists out. split; [exact E|]. exact (authorize_zero_is_recorded _ _ _ _ _ _ _ _ _ _ _ E Hx).
Defined.

(** A ledger with one sealed decision. *)
Definition decided : pyval := match seal demo_decision with Ok d => to_dict d | Raise _ => PNone end.
Definition decided_dict : dict := match decided with PDict d => d | _ => [] end.
Definition decided_receipt : string :=
  match assoc "receipt" decided_dict with Some (PStr r) => r | _ => "" end.

Lemma emit_after_decision_breaks_witness :
  exists event f',
    emit_event demo_draw "MCP_CALL" "impact_query" (PDict []) true "r" (ledger_of [decided]) demo_registry
      = Ok (event, f') /\
    verify_ledger f' GENESIS = Ok (broken 2 1 (BrokenLink 1 (PStr decided_receipt) GENESIS)).
Proof.
  destruct (is_ok_Ok (emit_event demo_draw "MCP_CALL" "impact_query" (PDict []) true "r" (ledger_of [decided])
    demo_registry)) as [[event f'] E]; [vm_compute; reflexivity|].
  exists event, f'. split; [exact E|].
  eapply (emit_after_decision_breaks demo_draw "MCP_CALL" "impact_query" (PDict []) true "r"
    (ledger_of [decided]) demo_registry event f' [] decided_dict GENESIS decided_receipt); [| | | |exact E].
  - vm_compute. reflexivity.
  - econstructor; [|constructor]. apply intact_decision; vm_compute; reflexivity.
  - vm_compute. reflexivity.
  - intros Heq. apply (f_equal (fun s => String.eqb s GENESIS)) in Heq. vm_compute in Heq. discriminate.
Defined.
End witnesses.
