(* ===== verification/SupplyChainRisk.v ===== *)
(** * Supply-chain risk assessments

    Models [gbrg/governance/supply_chain_risk.py]: scoring over the declared
    weights, the projection of a verdict, and the sealing of an assessment in
    the governance ledger.  The declared weights and the crosswalk are the JSON
    documents they are loaded from; the clock and the random id of an assessment
    are arguments. *)

From Stdlib Require Import SpecFloat.
From S2P Require Import Prelude PyVal FloatOrder Json PyText Sha256 Ledger Gate McpGate.
Local Open Scope string_scope.

Definition SCR_AGENT_REF : string := "agent-registry://gbrg/supply-chain-risk-scorer".
Definition WEIGHTS_URN : string := "gbrg.supply-chain-risk.weights.v0".
Definition VERIFIES : string := "VERIFIES".
Definition FLAGGED : string := "FLAGGED".
Definition REJECTED : string := "REJECTED".

Section scoring.
Context `{FloatRepr}.

(** ** The crosswalk *)

(** [x in s] for a set of values. *)
Definition set_mem (x : pyval) (s : list pyval) : res bool :=
  if hashable x then Ok (existsb (py_eq x) s) else Raise TypeError.

Definition add_category (terms : list pyval) (category : pyval) : res (list pyval) :=
  match category with
  | PList l => if forallb hashable l then Ok (terms ++ l)%list else Raise TypeError
  | _ => Ok terms
  end.

Definition governed_terms (crosswalk : pyval) : res (list pyval) :=
  onto ← py_get crosswalk "governed_ontology" (PDict []);
  items ← py_items onto;
  res_fold add_category [] items.*2.

Definition validate_crosswalk_term (term crosswalk : pyval) : res (option string) :=
  allow ← governed_terms crosswalk;
  known ← set_mem term allow;
  Ok (if known : bool then None
      else Some ("crosswalk term " +:+ py_repr term +:+ " is not in the governed ontology (rejected)")).

(** The entries of both sides, in order. *)
Definition side_entries (crosswalk : pyval) (side : string) : res (list pyval) :=
  s ← py_get crosswalk side (PDict []);
  entries ← py_get s "entries" (PList []);
  py_iter entries.

Definition crosswalk_entries (crosswalk : pyval) : res (list pyval) :=
  bian ← side_entries crosswalk "bian_crosswalk";
  fico ← side_entries crosswalk "fico_crosswalk";
  Ok (bian ++ fico)%list.

Definition bound_terms_of (entry : pyval) : res (list pyval) :=
  terms ← py_get entry "binds_ontology" (PList []);
  py_iter terms.

Definition validate_entry (allow : list pyval) (violations : list string) (entry : pyval) : res (list string) :=
  aid ← py_get entry "alignment_id" (PStr "?");
  terms ← bound_terms_of entry;
  res_fold (fun violations term =>
    known ← set_mem term allow;
    Ok (if known : bool then violations
        else (violations ++ [py_str aid +:+ ": ungoverned term " +:+ py_repr term])%list)) violations terms.

Definition validate_crosswalk (crosswalk : pyval) : res (list string) :=
  allow ← governed_terms crosswalk;
  entries ← crosswalk_entries crosswalk;
  res_fold (validate_entry allow) [] entries.

(** [by_id], of which only text keys can be found by a reference. *)
Definition index_entry (by_id : list (string * pyval)) (entry : pyval) : res (list (string * pyval)) :=
  aid ← py_item entry "alignment_id";
  match aid with
  | PStr id => Ok (assoc_set id entry by_id)
  | v => if hashable v then Ok by_id else Raise TypeError
  end.

Definition resolve_term (ref : string) (allow : list pyval) (st : list pyval * list string) (term : pyval) :
    res (list pyval * list string) :=
  known ← set_mem term allow;
  Ok (if known : bool then ((st.1 ++ [term])%list, st.2)
      else (st.1, (st.2 ++ [ref +:+ ": ungoverned term " +:+ py_repr term])%list)).

Definition resolve_ref_id (by_id : list (string * pyval)) (allow : list pyval) (st : list pyval * list string)
    (ref : string) : res (list pyval * list string) :=
  match assoc ref by_id with
  | None => Ok (st.1, (st.2 ++ ["unknown crosswalk alignment id " +:+ repr_str ref])%list)
  | Some entry => terms ← bound_terms_of entry; res_fold (resolve_term ref allow) st terms
  end.

Definition resolve_crosswalk_refs (refs : list string) (crosswalk : pyval) : res (list pyval * list string) :=
  entries ← crosswalk_entries crosswalk;
  by_id ← res_fold index_entry [] entries;
  allow ← governed_terms crosswalk;
  res_fold (resolve_ref_id by_id allow) ([], []) refs.

(** ** Scores *)

Definition _clamp (x : spec_float) : spec_float := clamp x.

Fixpoint first_band (score : spec_float) (bands : list pyval) : res pyval :=
  match bands with
  | [] => Ok (PStr "Low")
  | band :: bands =>
    lo ← py_item band "min_score";
    reached ← py_le lo (PFloat score);
    if reached : bool then py_item band "rating" else first_band score bands
  end.

Definition rating_for (score : spec_float) (weights : pyval) : res pyval :=
  rt ← py_item weights "rating_thresholds";
  ob ← py_item rt "ordered_bands";
  bands ← py_iter ob;
  first_band score bands.

Definition weighted (factors : dict) (total : spec_float) (ks : string * pyval) : res spec_float :=
  w ← py_item ks.2 "weight"; w ← num w;
  x ← py_float (default (PFloat F64.zero) (assoc ks.1 factors));
  Ok (F64.add total (F64.mul w x)).

Definition weighted_sum (section : string) (factors : dict) (weights : pyval) : res spec_float :=
  sec ← py_item weights section;
  fw ← py_item sec "weights";
  items ← py_items fw;
  total ← res_fold (weighted factors) F64.zero items;
  Ok (_clamp total).

Definition score_node_inherent (factors : dict) (weights : pyval) : res spec_float :=
  weighted_sum "inherent_risk_factors" factors weights.

Definition score_cluster_inherent (components : dict) (weights : pyval) : res spec_float :=
  weighted_sum "cluster_common_mode_weights" components weights.

(** [by_evidence_key], the latest family first: a key written again is replaced. *)
Definition index_family (by_key : list (pyval * pyval)) (fs : string * pyval) : res (list (pyval * pyval)) :=
  k ← py_item fs.2 "evidence_key";
  if hashable k then Ok ((k, fs.2) :: by_key) else Raise TypeError.

Definition family_of (k : pyval) (by_key : list (pyval * pyval)) : res (option pyval) :=
  if hashable k then Ok (snd <$> List.find (fun ks => py_eq k ks.1) by_key) else Raise TypeError.

Definition add_control (by_key : list (pyval * pyval)) (total : spec_float) (ce : pyval) : res spec_float :=
  family ← py_get ce "controlFamily" (PStr "");
  fam_spec ← family_of family by_key;
  match (fam_spec : option pyval) with
  | None => Ok total
  | Some spec =>
    w ← py_item spec "weight"; w ← num w;
    e ← py_get ce "efficacy" (PFloat F64.zero); e ← py_float e;
    Ok (F64.add total (F64.mul w e))
  end.

Definition score_control_efficacy (controls_evidence : list pyval) (weights : pyval) : res spec_float :=
  sec ← py_item weights "control_efficacy_families";
  cw ← py_item sec "weights";
  items ← py_items cw;
  by_key ← res_fold index_family [] items;
  total ← res_fold (add_control by_key) F64.zero controls_evidence;
  Ok (_clamp total).

(** An evidence reference that says nothing. *)
Definition blank_ref (ref : pyval) : bool :=
  match ref with PNone => true | v => String.eqb (py_strip (py_str v)) "" end.

Definition unverifiable_one (ce : pyval) : res (option pyval) :=
  e ← py_get ce "efficacy" (PFloat F64.zero);
  efficacy ← py_float e;
  ref ← py_get ce "evidenceRef" PNone;
  if F64.ltb F64.zero efficacy && blank_ref ref then
    family ← py_get ce "controlFamily" (PStr "?"); Ok (Some family)
  else Ok None.

Fixpoint unverifiable_controls (controls_evidence : list pyval) : res (list pyval) :=
  match controls_evidence with
  | [] => Ok []
  | ce :: rest =>
    o ← unverifiable_one ce;
    bad ← unverifiable_controls rest;
    Ok (match (o : option pyval) with Some f => f :: bad | None => bad end)
  end.

Definition survive (surv : spec_float) (r : pyval) : res spec_float :=
  x ← py_float r; Ok (F64.mul surv (F64.sub F1 (_clamp x))).

Definition score_path_risk (node_residuals : list pyval) : res spec_float :=
  surv ← res_fold survive F1 node_residuals;
  Ok (_clamp (F64.sub F1 surv)).

(** [fsum] is the interpreter's [sum] of a list of floats, the rounding of
    which depends on its version. *)
Definition hhi_normalized (fsum : list spec_float -> spec_float) (shares : list pyval) : res spec_float :=
  fs ← res_map py_float shares;
  let active := List.filter (fun s => F64.ltb F64.zero s) fs in
  match active with
  | [] => Ok F64.zero
  | [_] => Ok F1
  | _ =>
    let n := F64.of_Z (Z.of_nat (length active)) in
    let hhi := fsum (map (fun s => F64.mul s s) active) in
    let even := F64.div F1 n in
    Ok (_clamp (F64.div (F64.sub hhi even) (F64.sub F1 even)))
  end.

(** ** Indicators *)

Fixpoint find_indicator (kri_id : string) (inds : list pyval) : res (option pyval) :=
  match inds with
  | [] => Ok None
  | ind :: inds => id ← py_item ind "id"; if eq_str id kri_id then Ok (Some ind) else find_indicator kri_id inds
  end.

Definition _indicator (kri_id : string) (weights : pyval) : res (option pyval) :=
  kk ← py_item weights "kri_kci_thresholds";
  is_ ← py_item kk "indicators";
  inds ← py_iter is_;
  find_indicator kri_id inds.

Definition evaluate_kri (kri_id : string) (value weights : pyval) : res string :=
  o ← _indicator kri_id weights;
  match (o : option pyval) with
  | None => Ok "red"
  | Some ind =>
    v ← py_float value;
    direction ← py_get ind "direction" PNone;
    if eq_str direction "higher_is_better" then
      green ← py_item ind "green"; g ← py_le green (PFloat v);
      if g : bool then Ok "green" else
      low ← py_item ind "amber_low"; a ← py_le low (PFloat v);
      Ok (if a : bool then "amber" else "red")
    else
      green_max ← py_get ind "green_max" (PInt 0);
      amber_max ← py_get ind "amber_max" green_max;
      g ← py_le (PFloat v) green_max;
      if g : bool then Ok "green" else
      a ← py_le (PFloat v) amber_max;
      Ok (if a : bool then "amber" else "red")
  end.

Record kri_eval := mkKri { k_id : string; k_value : spec_float; k_band : string }.

Definition kri_json (k : kri_eval) : pyval :=
  PDict [("id", PStr (k_id k)); ("value", PFloat (k_value k)); ("band", PStr (k_band k))].

Definition evaluate_kri_set (metrics : dict) (weights : pyval) : res (list kri_eval) :=
  res_map (fun kv : string * pyval =>
    v ← py_float kv.2; band ← evaluate_kri kv.1 kv.2 weights; Ok (mkKri kv.1 v band)) metrics.

(** ** Assessments *)

Record Assessment := mkAssessment {
  riskScope : string;
  subjectId : string;
  inherentScore : option spec_float;
  controlEfficacy : option spec_float;
  residualScore : spec_float;
  rating : pyval;
  a_verdict : string;
  a_status : string;
  a_level : string;
  controlsEvidence : list pyval;
  kriEvaluations : list kri_eval;
  crosswalkRefs : list string;
  derivation : string;
  proofId : string;
  a_receipt : string;
  _boundTerms : list pyval
}.

Definition optional_score (k : string) (o : option spec_float) : dict :=
  match o with Some x => [(k, PFloat (py_round 6 x))] | None => [] end.

Definition proof_artifact (a : Assessment) : dict :=
  ([("schemaVersion", PStr "gbrg.supply-chain-risk-proof-artifact.v0"); ("version", PStr "1.0.0");
    ("proofId", PStr (proofId a)); ("riskScope", PStr (riskScope a)); ("subjectId", PStr (subjectId a));
    ("claim", PDict [
      ("claimId", PStr ("claim.supply-chain-risk." +:+ riskScope a +:+ "." +:+ subjectId a));
      ("claimType", PStr "supply_chain_operational_risk");
      ("statement", PStr (riskScope a +:+ " " +:+ repr_str (subjectId a) +:+ " residual risk " +:+
         fmt3 (residualScore a) +:+ " -> " +:+ py_str (rating a) +:+ " (" +:+ a_verdict a +:+ ")"));
      ("epistemicLevel", PStr (a_level a))]);
    ("status", PStr (a_status a)); ("residualScore", PFloat (py_round 6 (residualScore a)));
    ("rating", rating a); ("verdict", PStr (a_verdict a)); ("weightsRef", PStr WEIGHTS_URN);
    ("crosswalkRefs", PList (map PStr (crosswalkRefs a))); ("controlsEvidence", PList (controlsEvidence a));
    ("kriEvaluations", PList (map kri_json (kriEvaluations a))); ("derivation", PStr (derivation a));
    ("declared_by", PStr SCR_AGENT_REF)]
   ++ optional_score "inherentScore" (inherentScore a)
   ++ optional_score "controlEfficacy" (controlEfficacy a))%list.

Definition _next_prev_hash (f : file) : res pyval :=
  records ← read_all f true;
  match last records with
  | None => Ok (PStr GENESIS)
  | Some last =>
    h ← py_get last "hash" PNone;
    if truthy h then Ok h else py_item last "receipt"
  end.

(** The clock and the sixteen hexadecimal digits an assessment draws. *)
Record seal_draw := mkSealDraw { s_ts : string; s_hex : string }.

Definition identified (a : Assessment) (id receipt : string) : Assessment :=
  mkAssessment (riskScope a) (subjectId a) (inherentScore a) (controlEfficacy a) (residualScore a) (rating a)
    (a_verdict a) (a_status a) (a_level a) (controlsEvidence a) (kriEvaluations a) (crosswalkRefs a) (derivation a)
    id receipt (_boundTerms a).

Definition _seal_and_persist (dr : seal_draw) (assessment : Assessment) (persist : bool) (f : file) :
    res (Assessment * file) :=
  let assessment := identified assessment ("proof-scr-" +:+ s_hex dr) (a_receipt assessment) in
  prev ← _next_prev_hash f;
  let core : dict :=
    [("type", PStr "SupplyChainRiskAssessment"); ("ts", PStr (s_ts dr)); ("prev_hash", prev);
     ("artifact", PDict (proof_artifact assessment))] in
  let event_hash := _sha (PDict core) in
  let event : dict := (core ++ [("hash", PStr event_hash)])%list in
  let assessment := identified assessment (proofId assessment) event_hash in
  Ok (assessment, if persist then append (PDict event) f else f).

(** ** The verdict *)

Definition _project_verdict (controls_evidence : list pyval) (kri_evals : list kri_eval) (require_controls : bool)
    (crosswalk_violations : list string) : res (string * string * string * string) :=
  match crosswalk_violations with
  | _ :: _ =>
    Ok (REJECTED, "FAILED", "rejected",
        "REJECTED: ungoverned crosswalk term(s): " +:+ str_join "; " crosswalk_violations)
  | [] =>
    bad ← unverifiable_controls controls_evidence;
    match (bad : list pyval) with
    | _ :: _ =>
      names ← py_join ", " bad;
      Ok (REJECTED, "FAILED", "rejected",
          "REJECTED (fail-closed): control efficacy claimed with NO evidence for " +:+ names)
    | [] =>
      if require_controls && (match controls_evidence with [] => true | _ => false end) then
        Ok (REJECTED, "FAILED", "rejected",
            "REJECTED (fail-closed): tier-0 subject scored with NO controls-evidence")
      else
        match List.filter (fun k => String.eqb (k_band k) "red") kri_evals with
        | (_ :: _) as red =>
          Ok (FLAGGED, "BLOCKED", "speculative",
              "FLAGGED: KRI/KCI threshold breach (RED) for " +:+ str_join ", " (map k_id red))
        | [] =>
          Ok (VERIFIES, "PROVED", "empirical", "VERIFIES: controls evidenced and all KRIs within threshold")
        end
    end
  end.

(** [sorted(set(l))], as a list prints. *)
Definition sorted_terms (l : list pyval) : res string :=
  names ← all_texts l;
  Ok (py_repr (PList (map PStr (py_sort String.ltb (remove_dups names))))).

Definition refs_repr (refs : list string) : string := py_repr (PList (map PStr refs)).

Section assess.
Variable fsum : list spec_float -> spec_float.
Variables (weights crosswalk : pyval).

Definition has_ref (c : pyval) : res bool := r ← py_get c "evidenceRef" PNone; Ok (truthy r).

Fixpoint with_ref (controls : list pyval) : res (list pyval) :=
  match controls with
  | [] => Ok []
  | c :: cs => b ← has_ref c; r ← with_ref cs; Ok (if b : bool then c :: r else r)
  end.

Definition assess_node (dr : seal_draw) (subject_id : string) (factors : dict) (controls_evidence : list pyval)
    (kri_metrics : dict) (crosswalk_refs : list string) (tier0 persist : bool) (f : file) : res (Assessment * file) :=
  bv ← resolve_crosswalk_refs crosswalk_refs crosswalk;
  let (bound, violations) := (bv : list pyval * list string) in
  inherent ← score_node_inherent factors weights;
  verifiable_ce ← with_ref controls_evidence;
  efficacy ← score_control_efficacy verifiable_ce weights;
  let residual := _clamp (F64.mul inherent (F64.sub F1 efficacy)) in
  rating ← rating_for residual weights;
  kri_evals ← evaluate_kri_set kri_metrics weights;
  v ← _project_verdict controls_evidence kri_evals tier0 violations;
  let '(verdict, status, level, reason) := (v : string * string * string * string) in
  terms ← sorted_terms bound;
  let derivation :=
    "node " +:+ repr_str subject_id +:+ ": inherent=" +:+ fmt3 inherent +:+ " (K,P,E,O,C,V weighted), " +:+
    "control_efficacy=" +:+ fmt3 efficacy +:+ " (evidenced families only), " +:+
    "residual=" +:+ fmt3 residual +:+ " -> " +:+ py_str rating +:+ ". " +:+ reason +:+ ". " +:+
    "crosswalk=" +:+ refs_repr crosswalk_refs +:+ " bound_terms=" +:+ terms +:+ "." in
  _seal_and_persist dr
    (mkAssessment "node" subject_id (Some inherent) (Some efficacy) residual rating verdict status level
       controls_evidence kri_evals crosswalk_refs derivation "" "" bound) persist f.

Definition assess_path (dr : seal_draw) (subject_id : string) (node_residuals : list pyval) (kri_metrics : dict)
    (controls_evidence : list pyval) (crosswalk_refs : list string) (persist : bool) (f : file) : res (Assessment * file) :=
  bv ← resolve_crosswalk_refs crosswalk_refs crosswalk;
  let (bound, violations) := (bv : list pyval * list string) in
  path_risk ← score_path_risk node_residuals;
  rating ← rating_for path_risk weights;
  kri_evals ← evaluate_kri_set kri_metrics weights;
  v ← _project_verdict controls_evidence kri_evals true violations;
  let '(verdict, status, level, reason) := (v : string * string * string * string) in
  terms ← sorted_terms bound;
  let derivation :=
    "path " +:+ repr_str subject_id +:+ ": " +:+ pretty (length node_residuals) +:+ " nodes, " +:+
    "noisy-OR path_risk=" +:+ fmt3 path_risk +:+ " -> " +:+ py_str rating +:+ ". " +:+ reason +:+ ". " +:+
    "crosswalk=" +:+ refs_repr crosswalk_refs +:+ " bound_terms=" +:+ terms +:+ "." in
  _seal_and_persist dr
    (mkAssessment "path" subject_id None None path_risk rating verdict status level
       controls_evidence kri_evals crosswalk_refs derivation "" "" bound) persist f.

Definition with_hhi (components : dict) (shares : list pyval) : res dict :=
  match shares with
  | [] => Ok components
  | _ =>
    if assoc_mem "hhi_normalized_concentration" components then Ok components
    else h ← hhi_normalized fsum shares; Ok (assoc_set "hhi_normalized_concentration" (PFloat h) components)
  end.

Definition assess_cluster (dr : seal_draw) (subject_id : string) (components : dict) (shares : list pyval)
    (resilience_control : spec_float) (controls_evidence : list pyval) (kri_metrics : dict)
    (crosswalk_refs : list string) (persist : bool) (f : file) : res (Assessment * file) :=
  components ← with_hhi components shares;
  bv ← resolve_crosswalk_refs crosswalk_refs crosswalk;
  let (bound, violations) := (bv : list pyval * list string) in
  inherent ← score_cluster_inherent components weights;
  let residual := _clamp (F64.mul inherent (F64.sub F1 (_clamp resilience_control))) in
  rating ← rating_for residual weights;
  kri_evals ← evaluate_kri_set kri_metrics weights;
  v ← _project_verdict controls_evidence kri_evals true violations;
  let '(verdict, status, level, reason) := (v : string * string * string * string) in
  terms ← sorted_terms bound;
  let derivation :=
    "cluster " +:+ repr_str subject_id +:+ ": common_mode_inherent=" +:+ fmt3 inherent +:+ " " +:+
    "(HHI,blast,ttr,exit weighted), resilience=" +:+ fmt3 resilience_control +:+ ", " +:+
    "residual=" +:+ fmt3 residual +:+ " -> " +:+ py_str rating +:+ ". " +:+ reason +:+ ". " +:+
    "crosswalk=" +:+ refs_repr crosswalk_refs +:+ " bound_terms=" +:+ terms +:+ "." in
  _seal_and_persist dr
    (mkAssessment "cluster" subject_id (Some inherent) (Some (_clamp resilience_control)) residual rating verdict status level
       controls_evidence kri_evals crosswalk_refs derivation "" "" bound) persist f.
(** The three kinds of subject, and what each is scored from. *)
Inductive subject :=
| Node (factors : dict) (tier0 : bool)
| Path (node_residuals : list pyval)
| Cluster (components : dict) (shares : list pyval) (resilience_control : spec_float).

Definition needs_controls (s : subject) : bool := match s with Node _ tier0 => tier0 | _ => true end.

Definition assess (dr : seal_draw) (id : string) (s : subject) (controls : list pyval) (metrics : dict)
    (refs : list string) (persist : bool) (f : file) : res (Assessment * file) :=
  match s with
  | Node factors tier0 => assess_node dr id factors controls metrics refs tier0 persist f
  | Path rs => assess_path dr id rs metrics controls refs persist f
  | Cluster components shares resilience => assess_cluster dr id components shares resilience controls metrics refs persist f
  end.

(** ** What a verdict rests on *)

Definition has_id (ref : string) (entry : pyval) : bool :=
  match py_item entry "alignment_id" with Ok (PStr id) => String.eqb id ref | _ => false end.

(** The entry a reference names: the last one with that id. *)
Definition entry_of (entries : list pyval) (ref : string) (entry : pyval) : Prop :=
  exists pre post, entries = (pre ++ entry :: post)%list /\ has_id ref entry = true /\
    Forall (fun e => has_id ref e = false) post.

(** A reference to a known entry, all of whose terms are governed. *)
Definition governed_ref (ref : string) : Prop :=
  exists entries entry terms allow,
    crosswalk_entries crosswalk = Ok entries /\ entry_of entries ref entry /\
    bound_terms_of entry = Ok terms /\ governed_terms crosswalk = Ok allow /\
    Forall (fun t => existsb (py_eq t) allow = true) terms.

(** A control that claims nothing, or says where its evidence is. *)
Definition evidenced (ce : pyval) : Prop :=
  exists claimed efficacy ref,
    py_get ce "efficacy" (PFloat F64.zero) = Ok claimed /\ py_float claimed = Ok efficacy /\
    py_get ce "evidenceRef" PNone = Ok ref /\ (F64.ltb F64.zero efficacy = true -> blank_ref ref = false).

(** A metric inside its threshold. *)
Definition within (kv : string * pyval) : Prop :=
  exists band, evaluate_kri kv.1 kv.2 weights = Ok band /\ band <> "red".

Lemma entry_of_snoc entries e ref entry :
  entry_of (entries ++ [e]) ref entry <-> if has_id ref e then entry = e else entry_of entries ref entry.
Proof.
  destruct (has_id ref e) eqn:He; split.
  - intros (pre & post & E & _ & Hp). destruct post as [|x post _] using rev_ind.
    + by apply app_inj_tail in E as [_ <-].
    + exfalso. apply Forall_app in Hp as [_ Hp]. apply (Forall_inv (l:=[])) in Hp.
      rewrite app_comm_cons, app_assoc in E. apply app_inj_tail in E as [_ <-]. congruence.
  - intros ->. exists entries, []. by repeat constructor.
  - intros (pre & post & E & Hid & Hp). destruct post as [|x post _] using rev_ind.
    + apply app_inj_tail in E as [_ ->]. congruence.
    + rewrite app_comm_cons, app_assoc in E. apply app_inj_tail in E as [-> _].
      apply Forall_app in Hp as [Hp _]. by exists pre, post.
  - intros (pre & post & -> & Hid & Hp). exists pre, (post ++ [e])%list.
    rewrite <- app_assoc. split_and!; [done|done|]. apply Forall_app. by repeat constructor.
Qed.

Lemma indexed entries by_id ref entry :
  res_fold index_entry [] entries = Ok by_id -> assoc ref by_id = Some entry <-> entry_of entries ref entry.
Proof.
  revert by_id; induction entries as [|e entries IH] using rev_ind; intros by_id E.
  - injection E as <-. split; [done|]. intros ([] & ? & ? & _); discriminate.
  - rewrite res_fold_app in E. apply bind_Ok_inv in E as (m & Em & E). cbn in E.
    apply bind_Ok_inv in E as (m' & Ee & [= <-]). rewrite entry_of_snoc. specialize (IH _ Em).
    unfold index_entry in Ee. unfold has_id.
    destruct (py_item e "alignment_id") as [k|] eqn:Ek; [|discriminate Ee]. cbn [mbind res_bind] in Ee.
    destruct k as [| | | |id| |]; try (destruct (hashable _); [|discriminate Ee]); injection Ee as <-; try done.
    destruct (String.eqb_spec id ref) as [->|Hne].
    + rewrite assoc_set_eq. split; congruence.
    + by rewrite assoc_set_ne by congruence.
Qed.

Lemma resolve_term_fold ref allow terms bound viol b v :
  res_fold (resolve_term ref allow) (bound, viol) terms = Ok (b, v) ->
  v = [] <-> viol = [] /\ Forall (fun t => existsb (py_eq t) allow = true) terms.
Proof.
  revert bound viol; induction terms as [|t terms IH]; intros bound viol; simpl.
  - intros [= <- <-]. naive_solver.
  - intros E. apply bind_Ok_inv in E as ([b1 v1] & Et & E). rewrite (IH _ _ E), Forall_cons.
    unfold resolve_term, set_mem in Et. destruct (hashable t); [|discriminate Et]. simpl in Et.
    destruct (existsb (py_eq t) allow); injection Et as <- <-; [naive_solver|].
    split; [intros [Hv _]; by destruct viol|naive_solver].
Qed.

Lemma governed_ref_indexed entries by_id allow r :
  crosswalk_entries crosswalk = Ok entries -> res_fold index_entry [] entries = Ok by_id ->
  governed_terms crosswalk = Ok allow ->
  governed_ref r <-> exists entry terms, assoc r by_id = Some entry /\ bound_terms_of entry = Ok terms /\
    Forall (fun t => existsb (py_eq t) allow = true) terms.
Proof.
  intros Ee Ei Ea. unfold governed_ref. rewrite Ee, Ea. split.
  - intros (es & en & ts & al & [= <-] & Hen & Ets & [= <-] & HF). exists en, ts.
    by rewrite (indexed _ _ _ _ Ei).
  - intros (en & ts & Hen & Ets & HF). exists entries, en, ts, allow. by rewrite <- (indexed _ _ _ _ Ei).
Qed.

Lemma resolve_violations refs bound violations :
  resolve_crosswalk_refs refs crosswalk = Ok (bound, violations) ->
  violations = [] <-> Forall governed_ref refs.
Proof.
  unfold resolve_crosswalk_refs. intros E.
  apply bind_Ok_inv in E as (entries & Ee & E). apply bind_Ok_inv in E as (by_id & Ei & E).
  apply bind_Ok_inv in E as (allow & Ea & E).
  assert (forall viol bd, res_fold (resolve_ref_id by_id allow) (bd, viol) refs = Ok (bound, violations) ->
    violations = [] <-> viol = [] /\ Forall governed_ref refs) as Hgen.
  2: { rewrite (Hgen _ _ E). naive_solver. }
  clear E. induction refs as [|r refs IH]; intros viol bd E; simpl in E.
  - injection E as <- <-. naive_solver.
  - apply bind_Ok_inv in E as ([b1 v1] & Er & E).
    rewrite (IH _ _ E), Forall_cons, (governed_ref_indexed _ _ _ r Ee Ei Ea). clear IH E.
    unfold resolve_ref_id in Er. destruct (assoc r by_id) as [entry|] eqn:Eb.
    + apply bind_Ok_inv in Er as (terms & Et & Er). rewrite (resolve_term_fold _ _ _ _ _ _ _ Er).
      split; [intros [[-> HF] ?]; split_and!; [done|by exists entry, terms|done]|].
      intros (-> & (en & ts & [= <-] & Ets & HF) & Hr). by rewrite Et in Ets; injection Ets as ->.
    + injection Er as <- <-. simpl. split; [intros [Hv _]; by destruct viol|naive_solver].
Qed.

Lemma unverifiable_none controls bad :
  unverifiable_controls controls = Ok bad -> bad = [] <-> Forall evidenced controls.
Proof.
  revert bad; induction controls as [|ce rest IH]; intros bad; simpl; [by intros [= <-]|].
  intros E. apply bind_Ok_inv in E as (o & Eo & E). apply bind_Ok_inv in E as (bad' & Eb & [= <-]).
  rewrite Forall_cons, <- (IH _ Eb). unfold unverifiable_one in Eo.
  apply bind_Ok_inv in Eo as (claimed & Ec & Eo). apply bind_Ok_inv in Eo as (eff & Ee & Eo).
  apply bind_Ok_inv in Eo as (ref & Er & Eo). unfold evidenced. rewrite Ec, Er.
  destruct (F64.ltb F64.zero eff && blank_ref ref) eqn:Ebad.
  - apply bind_Ok_inv in Eo as (family & _ & [= <-]). apply andb_true_iff in Ebad as [H1 H2].
    split; [done|]. intros [(c & e & r & [= <-] & Ee' & [= <-] & Hr) _].
    rewrite Ee in Ee'. injection Ee' as <-. rewrite Hr in H2 by done. done.
  - injection Eo as <-. apply andb_false_iff in Ebad. split; [|tauto]. intros ->. split; [|done].
    exists claimed, eff, ref. split_and!; [done..|]. intros Hlt. destruct Ebad; congruence.
Qed.

Lemma kri_set_within metrics evals :
  evaluate_kri_set metrics weights = Ok evals ->
  List.filter (fun k => String.eqb (k_band k) "red") evals = [] <-> Forall within metrics.
Proof.
  unfold evaluate_kri_set. rewrite res_map_Ok_Forall2. induction 1 as [|kv k ms ks Hk _ IH]; simpl; [done|].
  apply bind_Ok_inv in Hk as (v & _ & Hk). apply bind_Ok_inv in Hk as (band & Eb & [= <-]). simpl.
  rewrite Forall_cons, <- IH. unfold within. rewrite Eb.
  destruct (String.eqb_spec band "red") as [->|Hne]; [|naive_solver].
  split; [done|]. intros [(b & [= <-] & Hb) _]. done.
Qed.

(** What must hold of a subject before its metrics count. *)
Definition accepted (controls : list pyval) (req : bool) (violations : list string) : Prop :=
  violations = [] /\ Forall evidenced controls /\ (req = true -> controls <> []).

(** The three verdicts, each with its status. *)
Lemma project_verdict_cases controls evals req violations v st lv reason :
  _project_verdict controls evals req violations = Ok (v, st, lv, reason) ->
  let red := List.filter (fun k => String.eqb (k_band k) "red") evals in
  (v = REJECTED /\ st = "FAILED" /\ ~ accepted controls req violations) \/
  (v = FLAGGED /\ st = "BLOCKED" /\ accepted controls req violations /\ red <> []) \/
  (v = VERIFIES /\ st = "PROVED" /\ accepted controls req violations /\ red = []).
Proof.
  unfold _project_verdict, accepted. destruct violations as [|x xs]; [|intros [= <- <- <- <-]; left; naive_solver].
  intros E. apply bind_Ok_inv in E as (bad & Eb & E). rewrite <- (unverifiable_none _ _ Eb). revert E.
  destruct bad as [|b bs].
  2: { intros E. apply bind_Ok_inv in E as (names & _ & [= <- <- <- <-]). left; naive_solver. }
  destruct (req && _) eqn:Er.
  - intros [= <- <- <- <-]. left. split_and!; [done..|]. apply andb_true_iff in Er as [-> Hc].
    intros (_ & _ & Hn). destruct controls; [by apply Hn|done].
  - assert (req = true -> controls <> []) as Hc by (intros ->; by destruct controls).
    destruct (List.filter _ evals); intros [= <- <- <- <-]; [right; right|right; left]; naive_solver.
Qed.

Lemma project_verdict_level controls evals req violations v st lv reason :
  _project_verdict controls evals req violations = Ok (v, st, lv, reason) -> lv ∈ ["rejected"; "speculative"; "empirical"].
Proof.
  unfold _project_verdict. destruct violations; [|intros [= <- <- <- <-]; set_solver].
  intros E. apply bind_Ok_inv in E as ([|b bs] & _ & E).
  - destruct (req && _); [|destruct (List.filter _ evals)]; injection E as <- <- <- <-; set_solver.
  - apply bind_Ok_inv in E as (names & _ & [= <- <- <- <-]). set_solver.
Qed.

(** What every assessment goes through, whatever its subject. *)
Lemma assess_inv dr id s controls metrics refs persist f a f' :
  assess dr id s controls metrics refs persist f = Ok (a, f') ->
  exists a0 bound violations evals reason,
    _seal_and_persist dr a0 persist f = Ok (a, f') /\
    resolve_crosswalk_refs refs crosswalk = Ok (bound, violations) /\
    evaluate_kri_set metrics weights = Ok evals /\
    _project_verdict controls evals (needs_controls s) violations = Ok (a_verdict a0, a_status a0, a_level a0, reason) /\
    rating_for (residualScore a0) weights = Ok (rating a0) /\
    (exists x, residualScore a0 = clamp x) /\
    (forall y, inherentScore a0 = Some y \/ controlEfficacy a0 = Some y -> exists x, y = clamp x) /\
    subjectId a0 = id.
Proof.
  destruct s as [factors tier0|rs|components shares resilience]; cbn [assess needs_controls].
  - unfold assess_node. intros E. apply bind_Ok_inv in E as ([bound violations] & Er & E).
    apply bind_Ok_inv in E as (inh & Ei & E). apply bind_Ok_inv in E as (ce & _ & E).
    apply bind_Ok_inv in E as (eff & Ef & E). apply bind_Ok_inv in E as (rt & Ert & E).
    apply bind_Ok_inv in E as (evals & Ek & E). apply bind_Ok_inv in E as ([[[v st] lv] reason] & Ev & E).
    apply bind_Ok_inv in E as (terms & _ & E).
    eexists _, bound, violations, evals, reason. split_and!; [exact E|done..|by eexists| |done].
    intros y [[= <-]|[= <-]]; [unfold score_node_inherent, weighted_sum in Ei|unfold score_control_efficacy in Ef].
    + repeat (apply bind_Ok_inv in Ei as (? & _ & Ei)). injection Ei as <-. by eexists.
    + repeat (apply bind_Ok_inv in Ef as (? & _ & Ef)). injection Ef as <-. by eexists.
  - unfold assess_path. intros E. apply bind_Ok_inv in E as ([bound violations] & Er & E).
    apply bind_Ok_inv in E as (risk & Ei & E). apply bind_Ok_inv in E as (rt & Ert & E).
    apply bind_Ok_inv in E as (evals & Ek & E). apply bind_Ok_inv in E as ([[[v st] lv] reason] & Ev & E).
    apply bind_Ok_inv in E as (terms & _ & E).
    eexists _, bound, violations, evals, reason. split_and!; [exact E|done..| |naive_solver|done].
    unfold score_path_risk in Ei. apply bind_Ok_inv in Ei as (surv & _ & [= <-]). by eexists.
  - unfold assess_cluster. intros E. apply bind_Ok_inv in E as (comps & _ & E).
    apply bind_Ok_inv in E as ([bound violations] & Er & E).
    apply bind_Ok_inv in E as (inh & Ei & E). apply bind_Ok_inv in E as (rt & Ert & E).
    apply bind_Ok_inv in E as (evals & Ek & E). apply bind_Ok_inv in E as ([[[v st] lv] reason] & Ev & E).
    apply bind_Ok_inv in E as (terms & _ & E).
    eexists _, bound, violations, evals, reason. split_and!; [exact E|done..|by eexists| |done].
    intros y [[= <-]|[= <-]]; [unfold score_cluster_inherent, weighted_sum in Ei|by eexists].
    repeat (apply bind_Ok_inv in Ei as (? & _ & Ei)). injection Ei as <-. by eexists.
Qed.

(** The record a sealed assessment leaves behind. *)
Lemma seal_inv dr a0 persist f a f' :
  _seal_and_persist dr a0 persist f = Ok (a, f') ->
  exists prev event,
    _prev_hash f = Ok prev /\ a = identified a0 ("proof-scr-" +:+ s_hex dr) (a_receipt a) /\
    f' = (if persist then append (PDict event) f else f) /\
    assoc "prev_hash" event = Some prev /\ assoc "hash" event = Some (PStr (a_receipt a)) /\
    a_receipt a = _sha (PDict (assoc_del "hash" event)) /\
    assoc "artifact" event = Some (PDict (proof_artifact a)).
Proof.
  unfold _seal_and_persist. intros E. apply bind_Ok_inv in E as (prev & Ep & [= <- <-]).
  eexists prev, _. split_and!; [exact Ep|reflexivity|reflexivity|reflexivity|reflexivity|reflexivity|reflexivity].
Qed.

Lemma assess_subject dr id s controls metrics refs persist f a f' :
  assess dr id s controls metrics refs persist f = Ok (a, f') -> subjectId a = id.
Proof.
  intros E. apply assess_inv in E as (a0 & _ & _ & _ & _ & Es & _ & _ & _ & _ & _ & _ & <-).
  by apply seal_inv in Es as (? & ? & _ & -> & _).
Qed.

Lemma assess_level dr id s controls metrics refs persist f a f' :
  assess dr id s controls metrics refs persist f = Ok (a, f') -> a_level a ∈ ["rejected"; "speculative"; "empirical"].
Proof.
  intros E. apply assess_inv in E as (a0 & bound & viol & evals & reason & Es & _ & _ & Ev & _).
  apply seal_inv in Es as (? & ? & _ & -> & _). by eapply project_verdict_level.
Qed.

Lemma assess_appends dr id s controls metrics refs persist f a f' :
  assess dr id s controls metrics refs persist f = Ok (a, f') ->
  length (default [] f') = (length (default [] f) + if persist then 1 else 0)%nat.
Proof.
  intros E. apply assess_inv in E as (a0 & _ & _ & _ & _ & Es & _).
  apply seal_inv in Es as (? & ? & _ & _ & -> & _). destruct persist; simpl; [|lia]. by rewrite length_app.
Qed.

(** A subject that needs controls and has none is rejected. *)
Lemma no_controls_rejected dr id s metrics refs persist f a f' :
  needs_controls s = true -> assess dr id s [] metrics refs persist f = Ok (a, f') -> a_verdict a = REJECTED.
Proof.
  intros Hn E. apply assess_inv in E as (a0 & bound & viol & evals & reason & Es & _ & _ & Ev & _).
  apply seal_inv in Es as (prev & event & _ & -> & _). cbn [identified a_verdict].
  apply project_verdict_cases in Ev as [(-> & _)|[(_ & _ & (_ & _ & Ha) & _)|(_ & _ & (_ & _ & Ha) & _)]]; [done|..];
    by apply Ha in Hn.
Qed.

(** A clamped score is a number between zero and one, even from NaN. *)
Lemma clamp_in_unit x : in_unit (clamp x) = true.
Proof.
  unfold clamp, in_unit, F64.max. apply andb_true_iff.
  destruct (F64.ltb x F1) eqn:E1; [|done].
  destruct (F64.ltb F64.zero x) eqn:E0; [|done]. split; by apply ltb_leb.
Qed.

(** ** Properties *)

(** C20: a verdict is fail-closed.  An assessment of a node, a path or a cluster
    VERIFIES exactly when every crosswalk reference names a known entry with
    governed terms only, every control that claims efficacy says where its
    evidence is, a subject that needs controls has some, and no metric is in its
    red band; it is FLAGGED exactly when only the metrics fail, and otherwise
    REJECTED. *)
Theorem assessment_verifies_iff dr id s controls metrics refs persist f a f' :
  assess dr id s controls metrics refs persist f = Ok (a, f') ->
  let sound := Forall governed_ref refs /\ Forall evidenced controls /\ (needs_controls s = true -> controls <> []) in
  (a_verdict a = VERIFIES <-> sound /\ Forall within metrics) /\
  (a_verdict a = FLAGGED <-> sound /\ ~ Forall within metrics) /\
  (a_verdict a = REJECTED <-> ~ sound) /\
  (a_status a = "PROVED" <-> a_verdict a = VERIFIES).
Proof.
  intros E sound. apply assess_inv in E as (a0 & bound & viol & evals & reason & Es & Er & Ek & Ev & _).
  apply seal_inv in Es as (prev & event & _ & -> & _). cbn [identified a_verdict a_status].
  assert (accepted controls (needs_controls s) viol <-> sound) as Hs.
  { unfold accepted. by rewrite (resolve_violations _ _ _ Er). }
  apply project_verdict_cases in Ev. cbn zeta in Ev.
  rewrite Hs in Ev. setoid_rewrite (kri_set_within _ _ Ek) in Ev. unfold not in Ev.
  destruct Ev as [(-> & -> & Hn)|[(-> & -> & Hy & Hm)|(-> & -> & Hy & Hm)]];
    split_and!; split; try done; try tauto; naive_solver.
Qed.

(** Every score an assessment carries is a number between zero and one,
    whatever floats it was given: NaN and infinite factors, weights, residuals
    and controls included. *)
Theorem assessment_scores_bounded dr id s controls metrics refs persist f a f' :
  assess dr id s controls metrics refs persist f = Ok (a, f') ->
  in_unit (residualScore a) = true /\
  forall y, inherentScore a = Some y \/ controlEfficacy a = Some y -> in_unit y = true.
Proof.
  intros E. apply assess_inv in E as (a0 & bound & viol & evals & reason & Es & _ & _ & _ & _ & [x Hx] & Hy & _).
  apply seal_inv in Es as (prev & event & _ & -> & _). cbn [identified residualScore inherentScore controlEfficacy].
  rewrite Hx. split; [apply clamp_in_unit|]. intros y [x' ->]%Hy. apply clamp_in_unit.
Qed.

(** One run of an assessment. *)
Inductive risk_step : file -> file -> Prop :=
| step_assess dr id s controls metrics refs persist f a f' :
    assess dr id s controls metrics refs persist f = Ok (a, f') -> risk_step f f'.

Lemma assess_single_writer dr id s controls metrics refs persist f a f' :
  single_writer f -> assess dr id s controls metrics refs persist f = Ok (a, f') ->
  single_writer f' /\ extends f f' /\
  (persist = true -> exists n event, verify_ledger f' GENESIS = Ok (mkVerifyResult true n (Some (a_receipt a)) None None) /\
     f' = append (PDict event) f /\ assoc "artifact" event = Some (PDict (proof_artifact a))).
Proof.
  intros (recs & h & sl & Hr & Hc & He) E.
  apply assess_inv in E as (a0 & _ & _ & _ & _ & Es & _).
  apply seal_inv in Es as (prev & event & Ep & _ & -> & Hprev & Hhash & Hsha & Hart).
  destruct persist.
  2: { split_and!; [by exists recs, h, sl|by exists []; rewrite app_nil_r|done]. }
  rewrite (prev_hash_is_head _ _ _ _ Hr Hc He) in Ep. injection Ep as <-.
  destruct (append_event_verifies _ _ _ _ _ _ _ Hr Hc Hhash Hprev Hsha) as [Hr' Hc'].
  split_and!; [|by eexists|].
  - eexists _, _, _. split_and!; [exact Hr'|exact Hc'|].
    apply Forall_app. split; [done|]. apply Forall_singleton. simpl. unfold assoc_mem. by rewrite Hhash, Hprev.
  - intros _. eexists _, event. split_and!; [|done|done]. apply (verify_ledger_chain _ GENESIS). eauto 10.
Qed.
End assess.

(** The writers that share one ledger: the MCP server and the risk scorer, each
    call with whatever documents it loaded. *)
Inductive ledger_step : file -> file -> Prop :=
| by_server py run exn_str f f' : mcp_step py run exn_str f f' -> ledger_step f f'
| by_scorer fsum weights crosswalk f f' : risk_step fsum weights crosswalk f f' -> ledger_step f f'.

Lemma ledger_steps_single_writer f : rtc ledger_step None f -> single_writer f.
Proof.
  intros Hs. assert (single_writer None) as H0.
  { exists [], GENESIS, None. split_and!; [done|constructor|constructor]. }
  revert H0. induction Hs as [|f1 f2 f3 Hs _ IH]; [done|]. intros Hw. apply IH.
  destruct Hs as [py run ex f f' Hm|fs w c f f' [dr id s ctl ms refs p f1 a f1' E]].
  - by apply (mcp_step_single_writer py run ex f f').
  - by eapply assess_single_writer in E as [? _].
Qed.

(** The server and the scorer can share a ledger.  After any interleaving of
    their calls a persisted assessment only adds one record, which carries the
    proof artifact, and the ledger verifies with the assessment's receipt as its
    seal: the receipt a caller holds is the head of a verified chain. *)
Theorem assessment_receipt_is_head fsum weights crosswalk dr id s controls metrics refs f a f' :
  rtc ledger_step None f -> assess fsum weights crosswalk dr id s controls metrics refs true f = Ok (a, f') ->
  extends f f' /\ exists n event,
    verify_ledger f' GENESIS = Ok (mkVerifyResult true n (Some (a_receipt a)) None None) /\
    f' = append (PDict event) f /\ assoc "artifact" event = Some (PDict (proof_artifact a)).
Proof.
  intros Hs E. apply ledger_steps_single_writer in Hs.
  destruct (assess_single_writer _ _ _ _ _ _ _ _ _ _ _ _ _ Hs E) as (_ & Hx & Hp). auto.
Qed.
End scoring.

(** ** Witnesses *)

Section witnesses.
#[local] Existing Instance demo_float_repr.

Definition demo_sum (l : list spec_float) : spec_float := foldl F64.add F64.zero l.
Definition half : pyval := PFloat (F64.of_dec 5 1).

Definition demo_weights : pyval := PDict [
  ("inherent_risk_factors", PDict [("weights", PDict [("K", PDict [("weight", half)]); ("P", PDict [("weight", half)])])]);
  ("control_efficacy_families", PDict [("weights", PDict [
     ("Access", PDict [("evidence_key", PStr "access"); ("weight", PFloat (F64.of_Z 1))])])]);
  ("cluster_common_mode_weights", PDict [("weights", PDict [
     ("hhi_normalized_concentration", PDict [("weight", PFloat (F64.of_Z 1))])])]);
  ("rating_thresholds", PDict [("ordered_bands", PList [
     PDict [("min_score", PFloat (F64.of_dec 7 1)); ("rating", PStr "Critical")];
     PDict [("min_score", PFloat (F64.of_dec 4 1)); ("rating", PStr "Medium")]])]);
  ("kri_kci_thresholds", PDict [("indicators", PList [
     PDict [("id", PStr "KRI-1"); ("direction", PStr "higher_is_better"); ("green", PFloat (F64.of_dec 9 1));
            ("amber_low", PFloat (F64.of_dec 7 1))]])])].

Definition demo_crosswalk : pyval := PDict [
  ("governed_ontology", PDict [("controls", PList [PStr "AccessControl"])]);
  ("bian_crosswalk", PDict [("entries", PList [
     PDict [("alignment_id", PStr "B001"); ("binds_ontology", PList [PStr "AccessControl"])]])]);
  ("fico_crosswalk", PDict [("entries", PList [
     PDict [("alignment_id", PStr "F001"); ("binds_ontology", PList [PStr "Shadow"])]])])].

Definition demo_control (efficacy ref : pyval) : pyval :=
  PDict [("controlFamily", PStr "access"); ("efficacy", efficacy); ("evidenceRef", ref)].

Definition demo_seal : seal_draw := mkSealDraw "2026-01-01T00:00:00Z" "0123456789abcdef".

#[local] Abbreviation demo_assess s controls metrics refs :=
  (assess demo_sum demo_weights demo_crosswalk demo_seal "svc" s controls metrics refs true None).

Definition demo_node : subject := Node [("K", half); ("P", half)] true.

(** The verdicts of four assessments of one node. *)
Example verdicts_ex :
  map (fun q : list pyval * dict * list string =>
         let '(controls, metrics, refs) := q in
         match demo_assess demo_node controls metrics refs with Ok (a, _) => a_verdict a | Raise _ => "" end)
    [([demo_control half (PStr "receipt:1")], [("KRI-1", PFloat (F64.of_dec 95 2))], ["B001"]);
     ([demo_control half (PStr "receipt:1")], [("KRI-1", half)], ["B001"]);
     ([demo_control half (PStr " ")], [("KRI-1", PFloat (F64.of_dec 95 2))], ["B001"]);
     ([demo_control half (PStr "receipt:1")], [], ["F001"])]
  = [VERIFIES; FLAGGED; REJECTED; REJECTED].
Proof. vm_compute. reflexivity. Qed.

(** An efficacy that is not a number is taken for full control: one evidenced
    claim of NaN brings the residual of the riskiest node to zero. *)
Example nan_control_erases_risk :
  match demo_assess (Node [("K", PInt 1); ("P", PInt 1)] true) [demo_control (PFloat S754_nan) (PStr "receipt:1")] [] ["B001"] with
  | Ok (a, _) => (a_verdict a, rating a, residualScore a) = (VERIFIES, PStr "Low", F64.zero)
  | Raise _ => False
  end.
Proof. vm_compute. reflexivity. Qed.

Lemma assessment_verifies_iff_witness :
  exists a f', demo_assess demo_node [demo_control half (PStr "receipt:1")] [("KRI-1", PFloat (F64.of_dec 95 2))] ["B001"] = Ok (a, f') /\
    Forall (governed_ref demo_crosswalk) ["B001"] /\ Forall evidenced [demo_control half (PStr "receipt:1")].
Proof.
  destruct (res_view (fun af => a_verdict af.1)
    (demo_assess demo_node [demo_control half (PStr "receipt:1")] [("KRI-1", PFloat (F64.of_dec 95 2))] ["B001"]) VERIFIES)
    as ([a f'] & E & Hv); [vm_compute; reflexivity|].
  exists a, f'. split; [exact E|].
  destruct (assessment_verifies_iff _ _ _ _ _ _ _ _ _ _ _ _ _ E) as [[Hs _] _].
  destruct (Hs Hv) as [(Hg & He & _) _]. exact (conj Hg He).
Defined.

Lemma assessment_scores_bounded_witness :
  exists a f', demo_assess (Path [PFloat S754_nan; PFloat F64.inf]) [] [] [] = Ok (a, f') /\
    in_unit (residualScore a) = true.
Proof.
  destruct (is_ok_Ok (demo_assess (Path [PFloat S754_nan; PFloat F64.inf]) [] [] [])) as [[a f'] E]; [vm_compute; reflexivity|].
  exists a, f'. split; [exact E|]. exact (proj1 (assessment_scores_bounded _ _ _ _ _ _ _ _ _ _ _ _ _ E)).
Defined.

Lemma assessment_receipt_is_head_witness :
  exists a f', demo_assess (Cluster [] [half; half] F64.zero) [] [] ["B001"] = Ok (a, f') /\
    exists n, verify_ledger f' GENESIS = Ok (mkVerifyResult true n (Some (a_receipt a)) None None).
Proof.
  destruct (is_ok_Ok (demo_assess (Cluster [] [half; half] F64.zero) [] [] ["B001"])) as [[a f'] E]; [vm_compute; reflexivity|].
  exists a, f'. split; [exact E|].
  destruct (assessment_receipt_is_head _ _ _ _ _ _ _ _ _ _ _ _ (rtc_refl _ None) E) as (_ & n & event & Hv & _).
  exists n. exact Hv.
Defined.
End witnesses.
