(* ===== verification/SupplyChainPipeline.v ===== *)
(** * Supply-chain scoring over the call graph

    Models [gbrg/governance/supply_chain_pipeline.py]: the factors of a cell from
    the signals of its proof artifact, the components of a cluster, the call
    chains and module clusters of a bundle, and the assessment of the estate.

    The contract documents and the bundle are JSON values.  The regular
    expression engine is an argument, as are the rounding of [sum] over floats
    and the clock and random id of each assessment.  Cell ids are texts: an id of
    another type is reported as a type error. *)

From Stdlib Require Import Ascii SpecFloat.
From S2P Require Import Prelude PyVal FloatOrder Json PyText Sha256 Ledger Gate McpGate SupplyChainRisk.
Local Open Scope string_scope.

Definition _FACTOR_KEYS : list string :=
  ["criticality_K"; "privilege_P"; "execution_E"; "opacity_O"; "concentration_C"; "velocity_V"].

(** What [json.loads] of a bundle is turned into. *)
Definition load_bundle (data : pyval) : res pyval :=
  match data with
  | PList l => Ok (PDict [("artifacts", PList l); ("edges", PList [])])
  | _ =>
    artifacts ← py_get data "artifacts" (PList []);
    edges ← py_get data "edges" (PList []);
    Ok (PDict [("artifacts", artifacts); ("edges", edges)])
  end.

Section pipeline.
Context `{FloatRepr}.
(** [re.search(p, s)], the error of [re.compile(p)], and [sum] of floats. *)
Variable re_search : pyval -> string -> res bool.
Variable re_compile : pyval -> res (option string).
Variable fsum : list spec_float -> spec_float.

(** ** The contracts agree *)

Definition set_of (v : pyval) : res (list string) := l ← py_iter v; all_texts l.

Definition minus (a b : list string) : list string :=
  py_sort String.ltb (remove_dups (List.filter (fun x => negb (bool_decide (x ∈ b))) a)).

Definition cmp_sets (kind : string) (derived declared : list string) : list string :=
  (map (fun extra => kind +:+ ": signal-map derives " +:+ repr_str extra +:+ " absent from weights") (minus derived declared) ++
   map (fun missing => kind +:+ ": weights declares " +:+ repr_str missing +:+ " with no signal-map derivation")
     (minus declared derived))%list.

Definition factor_specs (signal_map : pyval) : res pyval :=
  d ← py_item signal_map "inherent_factor_derivation"; py_item d "factors".

Definition compile_violations (fs : string * pyval) : res (list string) :=
  sigs ← py_get fs.2 "path_signals" (PList []);
  sigs ← py_iter sigs;
  vs ← res_map (fun sig =>
    pattern ← py_item sig "pattern";
    err ← re_compile pattern;
    Ok (match (err : option string) with
        | None => []
        | Some exc => ["inherent_factor " +:+ fs.1 +:+ ": uncompilable path_signal " +:+ py_repr pattern +:+ " (" +:+ exc +:+ ")"]
        end)) sigs;
  Ok (concat vs).

Definition validate_signal_map (signal_map weights : pyval) : res (list string) :=
  fs ← factor_specs signal_map; derived ← set_of fs;
  w ← py_item weights "inherent_risk_factors"; w ← py_item w "weights"; declared ← set_of w;
  c ← py_item signal_map "cluster_common_mode_derivation"; c ← py_item c "components"; cderived ← set_of c;
  cw ← py_item weights "cluster_common_mode_weights"; cw ← py_item cw "weights"; cdeclared ← set_of cw;
  k ← py_item weights "kri_kci_thresholds"; is_ ← py_item k "indicators"; is_ ← py_iter is_;
  ids ← res_map (fun i => py_item i "id") is_;
  if negb (forallb hashable ids) then Raise TypeError else
  dk ← py_get signal_map "derived_kri_kci" (PDict []); dk ← py_get dk "indicators" (PDict []); kris ← set_of dk;
  let unknown := List.filter (fun kri => negb (existsb (fun i => eq_str i kri) ids)) kris in
  items ← py_items fs;
  bad ← res_map compile_violations items;
  Ok (cmp_sets "inherent_factor" derived declared ++ cmp_sets "cluster_component" cderived cdeclared ++
      map (fun kri => "derived_kri_kci: " +:+ repr_str kri +:+ " has no threshold in weights kri_kci_thresholds") unknown ++
      concat bad)%list.

(** ** Factors of a cell *)

Definition _clamp (x : pyval) : res spec_float := f ← py_float x; Ok (clamp f).

Definition _saturating (value saturation : pyval) : res spec_float :=
  nonpos ← py_le saturation (PInt 0);
  if nonpos : bool then
    pos ← py_lt (PInt 0) value; Ok (if pos : bool then F1 else F64.zero)
  else
    v ← py_float value; s ← py_float saturation; Ok (clamp (F64.div v s)).

Definition _source_locator (artifact : pyval) : res string :=
  cell_id ← py_get artifact "cell_id" (PStr "");
  match cell_id with
  | PStr s => Ok (split_head "#" (split_rest "://" s))
  | _ => Raise AttributeError
  end.

Definition raise_best (best : option spec_float) (val : spec_float) : option spec_float :=
  Some (match best with None => val | Some b => F64.max b val end).

Definition _path_signal_value (locator : string) (signals : list pyval) : res (option spec_float) :=
  res_fold (fun best sig =>
    p ← py_item sig "pattern";
    hit ← re_search p locator;
    if hit : bool then v ← py_item sig "value"; val ← py_float v; Ok (raise_best best val) else Ok best) None signals.

(** The level an artifact claims, which has to be hashable to be looked up. *)
Definition epistemic_of (artifact : pyval) : res pyval :=
  claim ← py_get artifact "claim" (PDict []); py_get claim "epistemicLevel" (PStr "").

Definition level_get (table level dflt : pyval) : res pyval :=
  match level with
  | PStr k => py_get table k dflt
  | v => match table with PDict _ => if hashable v then Ok dflt else Raise TypeError | _ => Raise AttributeError end
  end.

Definition opacity (o artifact epistemic : pyval) : res spec_float :=
  unt ← py_item o "untested_component";
  tested ← py_get artifact "test_coverage_reach" (PBool false);
  untested_val ← py_item unt (if truthy tested then "value_when_tested" else "value_when_untested");
  epi ← py_item o "epistemic_component";
  table ← py_item epi "opacity_by_level";
  epi_val ← level_get table epistemic (PFloat F1);
  uw ← py_item unt "weight"; a ← py_mul uw untested_val;
  ew ← py_item epi "weight"; b ← py_mul ew epi_val;
  total ← py_add a b;
  _clamp total.

(** A prior raised by the path signals that match. *)
Definition with_signals (spec : pyval) (locator : string) (prior : spec_float) : res spec_float :=
  sigs ← py_get spec "path_signals" (PList []); sigs ← py_iter sigs;
  o ← _path_signal_value locator sigs;
  Ok (clamp (match (o : option spec_float) with Some s => F64.max prior s | None => prior end)).

Definition execution (e artifact : pyval) (locator : string) : res spec_float :=
  prior ← py_item e "conservative_prior"; e_val ← py_float prior;
  generated ← py_get artifact "generated" (PBool false);
  e_val ← (if truthy generated then g ← py_item e "generated_raises_to"; g ← py_float g; Ok (F64.max e_val g) else Ok e_val);
  with_signals e locator e_val.

Definition factors_from_artifact (artifact signal_map : pyval) : res dict :=
  spec ← factor_specs signal_map;
  epistemic ← epistemic_of artifact;
  locator ← _source_locator artifact;
  br ← py_get artifact "blast_radius" (PFloat F64.zero); k ← _clamp br;
  c ← py_item spec "concentration_C";
  dc ← py_get artifact "dependents_count" (PInt 0); csat ← py_item c "saturation"; conc ← _saturating dc csat;
  v ← py_item spec "velocity_V";
  churn ← py_get artifact "churn_frequency" (PFloat F64.zero); vsat ← py_item v "saturation"; vel ← _saturating churn vsat;
  o ← py_item spec "opacity_O"; op ← opacity o artifact epistemic;
  e ← py_item spec "execution_E"; ex ← execution e artifact locator;
  p ← py_item spec "privilege_P";
  prior ← py_item p "conservative_prior"; p_val ← py_float prior; pv ← with_signals p locator p_val;
  Ok [("criticality_K", PFloat k); ("concentration_C", PFloat conc); ("velocity_V", PFloat vel);
      ("opacity_O", PFloat op); ("execution_E", PFloat ex); ("privilege_P", PFloat pv)].

Definition factor_provenance (signal_map : pyval) : res (list (string * bool)) :=
  spec ← factor_specs signal_map;
  res_map (fun k => s ← py_item spec k; o ← py_get s "observable" (PBool false); Ok (k, truthy o)) _FACTOR_KEYS.

(** ** Components of a cluster *)

Definition dependents (a : pyval) : res spec_float :=
  d ← py_get a "dependents_count" (PInt 0); f ← py_float d; Ok (F64.max F64.zero f).

Definition blast (a : pyval) : res spec_float :=
  b ← py_get a "blast_radius" (PFloat F64.zero); _clamp b.

Definition untested (a : pyval) : res bool :=
  t ← py_get a "test_coverage_reach" (PBool false); Ok (negb (truthy t)).

Definition opacity_of (signal_map a : pyval) : res spec_float :=
  fs ← factors_from_artifact a signal_map; o ← py_item (PDict fs) "opacity_O"; py_float o.

Definition flen {A} (l : list A) : spec_float := F64.of_Z (Z.of_nat (length l)).

Definition cluster_components_from_artifacts (artifacts : list pyval) (signal_map : pyval) : res (dict * list pyval) :=
  match artifacts with
  | [] => Ok ([], [])
  | _ =>
    deps ← res_map dependents artifacts;
    let total := fsum deps in
    let shares :=
      if F64.ltb F64.zero total then map (fun d => F64.div d total) deps
      else repeat (F64.div F1 (flen deps)) (length deps) in
    blasts ← res_map blast artifacts;
    unt ← res_map untested artifacts;
    opacities ← res_map (opacity_of signal_map) artifacts;
    hhi ← hhi_normalized fsum (map PFloat shares);
    ttr ← py_truediv (Z.of_nat (length (List.filter id unt))) (Z.of_nat (length unt));
    Ok ([("hhi_normalized_concentration", PFloat hhi);
         ("blast_radius", PFloat (match blasts with b :: bs => foldl F64.max b bs | [] => F64.zero end));
         ("time_to_recover", PFloat ttr);
         ("exit_difficulty", PFloat (F64.div (fsum opacities) (flen opacities)))], map PFloat shares)
  end.

(** ** Evidence and indicators *)

(** The evidence index, when there is one. *)
Definition evidence := option dict.

(** [dict(v)], of a dictionary or of a list of pairs. *)
Definition py_dict (v : pyval) : res dict :=
  match v with
  | PDict d => Ok d
  | PList l => res_fold (fun d p => match p with PList [PStr k; x] => Ok (assoc_set k x d) | _ => Raise TypeError end) [] l
  | _ => Raise TypeError
  end.

Definition index_get (evidence_index : evidence) (k : string) (dflt : pyval) : pyval :=
  match evidence_index with Some idx => default dflt (assoc k idx) | None => dflt end.

Definition controls_from_index (subject_id : string) (evidence_index : evidence) : res (list pyval) :=
  py_iter (index_get evidence_index subject_id (PList [])).

Definition _external_kri (subject_id : string) (evidence_index : evidence) : res dict :=
  py_dict (index_get evidence_index ("__kri__:" +:+ subject_id) (PDict [])).

Definition _cluster_resilience (subject_id : string) (evidence_index : evidence) : res spec_float :=
  py_float (index_get evidence_index ("__resilience__:" +:+ subject_id) (PFloat F64.zero)).

Definition derived_indicator (signal_map : pyval) (k : string) : res pyval :=
  d ← py_item signal_map "derived_kri_kci"; is_ ← py_item d "indicators"; py_item is_ k.

Definition graph_visibility_percent (artifacts : list pyval) (signal_map : pyval) : res spec_float :=
  ind ← derived_indicator signal_map "KCI02";
  levels ← py_item ind "graph_visible_levels"; visible ← py_iter levels;
  if negb (forallb hashable visible) then Raise TypeError else
  match artifacts with
  | [] => Ok F64.zero
  | _ =>
    vis ← res_map (fun a => e ← epistemic_of a; set_mem e visible) artifacts;
    Ok (F64.div (F64.mul (F64.of_Z 100) (flen (List.filter id vis))) (flen artifacts))
  end.

Definition cluster_kri_metrics (artifacts : list pyval) (hhi : spec_float) (signal_map : pyval) : res dict :=
  ind ← derived_indicator signal_map "KRI04";
  t ← py_item ind "concentration_threshold"; thr ← py_float t;
  vis ← graph_visibility_percent artifacts signal_map;
  Ok [("KCI02", PFloat vis); ("KRI04", PFloat (if F64.ltb thr hhi then F1 else F64.zero))].

(** ** Call chains *)

(** The two ends of an edge of a kind that counts. *)
Definition edge_ends (kinds : list string) (e : pyval) : res (option (string * string)) :=
  kind ← py_get e "kind" PNone;
  if negb (existsb (eq_str kind) kinds) then Ok None else
  frm ← py_get e "from" PNone;
  to ← py_get e "to" PNone;
  if negb (truthy frm) || negb (truthy to) then Ok None else
  match frm, to with PStr a, PStr b => Ok (Some (a, b)) | _, _ => Raise TypeError end.

Record topology := mkTopology { adj : list (string * list string); indeg : list (string * nat); nodes : list string }.

Definition add_arc (t : topology) (ab : string * string) : topology :=
  let (frm, to) := ab in
  mkTopology (assoc_set frm (default [] (assoc frm (adj t)) ++ [to])%list (adj t))
    (assoc_set to (S (default O (assoc to (indeg t)))) (indeg t)) (nodes t ++ [frm; to])%list.

Definition topology_of (arcs : list (string * string)) : topology := foldl add_arc (mkTopology [] [] []) arcs.

(** The successors of a node after [succs.sort()]. *)
Definition successors (t : topology) (n : string) : list string := py_sort String.ltb (default [] (assoc n (adj t))).

Definition roots (t : topology) : list string :=
  py_sort String.ltb (List.filter (fun n => Nat.eqb (default O (assoc n (indeg t))) 0) (remove_dups (nodes t))).

(** The walk may still grow by [n] nodes. *)
Fixpoint walk (t : topology) (n : nat) (path : list string) : list string :=
  match n with
  | O => path
  | S n =>
    match List.find (fun s => negb (bool_decide (s ∈ path))) (successors t (List.last path "")) with
    | None => path
    | Some nxt => walk t n (path ++ [nxt])
    end
  end.

Definition walk_from (t : topology) (max_len : nat) (start : string) : list string := walk t (max_len - 1) [start].

Fixpoint strs_ltb (p q : list string) : bool :=
  match p, q with
  | [], [] => false
  | [], _ :: _ => true
  | _ :: _, [] => false
  | x :: p, y :: q => String.ltb x y || (String.eqb x y && strs_ltb p q)
  end.

(** [key=lambda p: (-len(p), p)]. *)
Definition path_ltb (p q : list string) : bool :=
  Nat.ltb (length q) (length p) || (Nat.eqb (length p) (length q) && strs_ltb p q).

Definition derive_call_paths (edges : list pyval) (kinds : list string) (max_paths max_len : nat) : res (list (list string)) :=
  ends ← res_map (edge_ends kinds) edges;
  let t := topology_of (omap id ends) in
  let paths := List.filter (fun p => Nat.leb 2 (length p)) (map (walk_from t max_len) (roots t)) in
  Ok (take max_paths (py_sort path_ltb paths)).

(** *** What a chain is *)

Definition arc (edges : list pyval) (kinds : list string) (a b : string) : Prop :=
  exists e, e ∈ edges /\ edge_ends kinds e = Ok (Some (a, b)).

(** Each node of the list leads to the next. *)
Definition linked (R : string -> string -> Prop) (p : list string) : Prop :=
  forall i a b, p !! i = Some a -> p !! S i = Some b -> R a b.

(** A simple path of calls from a root, which stops only at the limit or where
    every call leads back into it. *)
Definition call_chain (R : string -> string -> Prop) (max_len : nat) (p : list string) : Prop :=
  (2 <= length p <= max_len)%nat /\ NoDup p /\ linked R p /\
  (exists r, hd_error p = Some r /\ forall a, ~ R a r) /\
  (length p = max_len \/ forall b, R (List.last p "") b -> b ∈ p).

Lemma adj_of arcs x :
  default [] (assoc x (adj (topology_of arcs))) = map snd (List.filter (fun ab => String.eqb ab.1 x) arcs).
Proof.
  induction arcs as [|[a b] arcs IH] using rev_ind; [done|].
  unfold topology_of. rewrite foldl_app, List.filter_app, map_app. cbn. fold (topology_of arcs).
  destruct (String.eqb_spec a x) as [->|Hne]; cbn.
  - by rewrite assoc_set_eq, IH.
  - by rewrite assoc_set_ne, IH, app_nil_r by done.
Qed.

Lemma indeg_of arcs x :
  default O (assoc x (indeg (topology_of arcs))) = length (List.filter (fun ab => String.eqb ab.2 x) arcs).
Proof.
  induction arcs as [|[a b] arcs IH] using rev_ind; [done|].
  unfold topology_of. rewrite foldl_app, List.filter_app, length_app. cbn. fold (topology_of arcs).
  destruct (String.eqb_spec b x) as [->|Hne]; cbn.
  - rewrite assoc_set_eq, IH. simpl. lia.
  - rewrite assoc_set_ne, IH by done. simpl. lia.
Qed.

Lemma nodes_of arcs x : x ∈ nodes (topology_of arcs) <-> exists y, (x, y) ∈ arcs \/ (y, x) ∈ arcs.
Proof.
  induction arcs as [|[a b] arcs IH] using rev_ind; [split; [by intros H0%elem_of_nil|set_solver]|].
  unfold topology_of. rewrite foldl_app. cbn. fold (topology_of arcs). set_solver.
Qed.

Lemma elem_of_successors arcs x y : y ∈ successors (topology_of arcs) x <-> (x, y) ∈ arcs.
Proof.
  unfold successors. rewrite elem_of_py_sort, adj_of, list_elem_of_In, in_map_iff. split.
  - intros ([a b] & Hb & Hin). simpl in Hb. subst b. rewrite <- list_elem_of_In, elem_of_lfilter in Hin. simpl in Hin.
    destruct Hin as [Hin ->%String.eqb_eq]. done.
  - intros Hin. exists (x, y). split; [done|]. rewrite <- list_elem_of_In, elem_of_lfilter. simpl. by rewrite String.eqb_refl.
Qed.

Lemma elem_of_roots arcs r :
  r ∈ roots (topology_of arcs) <-> (exists b, (r, b) ∈ arcs) /\ forall a, (a, r) ∉ arcs.
Proof.
  unfold roots. rewrite elem_of_py_sort, elem_of_lfilter, elem_of_remove_dups, nodes_of, indeg_of, Nat.eqb_eq, length_zero_iff_nil.
  assert (List.filter (fun ab : string * string => String.eqb ab.2 r) arcs = [] <-> forall a, (a, r) ∉ arcs) as ->; [|set_solver].
  split.
  - intros Hf a Hin. assert ((a, r) ∈ List.filter (fun ab : string * string => String.eqb ab.2 r) arcs) as Hc.
    { apply elem_of_lfilter. simpl. by rewrite String.eqb_refl. }
    rewrite Hf in Hc. by apply elem_of_nil in Hc.
  - intros Hn. destruct (List.filter _ arcs) as [|[a b] l] eqn:Ef; [done|]. exfalso.
    assert ((a, b) ∈ List.filter (fun ab : string * string => String.eqb ab.2 r) arcs) as Hc by (rewrite Ef; by left).
    apply elem_of_lfilter in Hc as [Hc Eb]. apply String.eqb_eq in Eb. simpl in Eb. subst b. by apply (Hn a).
Qed.

Lemma chain_snoc R p x : linked R p -> (p <> [] -> R (List.last p "") x) -> linked R (p ++ [x]).
Proof.
  intros Hl Hx i a b Ha Hb. destruct (decide (S i < length p)%nat) as [Hi|Hi].
  - rewrite lookup_app_l in Ha, Hb by lia. by eapply Hl.
  - assert (S i = length p) as Hi' by (apply lookup_lt_Some in Hb; rewrite length_app in Hb; simpl in Hb; lia).
    rewrite lookup_app_l in Ha by lia. rewrite lookup_app_r, Hi', Nat.sub_diag in Hb by lia. injection Hb as <-.
    destruct p as [|y p _] using rev_ind; [discriminate Ha|]. rewrite List.last_last in Hx.
    rewrite length_app in Hi'. simpl in Hi'. rewrite lookup_app_r in Ha by lia.
    replace (i - length p)%nat with O in Ha by lia. injection Ha as ->. apply Hx. by destruct p.
Qed.

(** Where the walk from a path can end. *)
Lemma walk_spec arcs n path :
  path <> [] -> NoDup path -> linked (fun a b => (a, b) ∈ arcs) path ->
  let p := walk (topology_of arcs) n path in
  (length path <= length p <= length path + n)%nat /\ NoDup p /\ linked (fun a b => (a, b) ∈ arcs) p /\
  hd_error p = hd_error path /\
  (length p = length path + n \/ forall b, (List.last p "", b) ∈ arcs -> b ∈ p)%nat.
Proof.
  revert path; induction n as [|n IH]; intros path Hne Hnd Hl p; subst p; simpl; [split_and!; auto; lia|].
  destruct (List.find _ _) as [nxt|] eqn:Ef.
  - apply List.find_some in Ef as [Hin Hnew]. rewrite <- list_elem_of_In, elem_of_successors in Hin.
    apply negb_true_iff, bool_decide_eq_false in Hnew.
    destruct (IH (path ++ [nxt])%list) as (Hlen & Hnd' & Hl' & Hhd & Hend).
    + by destruct path.
    + apply NoDup_app. split_and!; [done| |by apply NoDup_singleton]. intros x Hx ->%list_elem_of_singleton. done.
    + by apply chain_snoc.
    + rewrite length_app in Hlen, Hend. simpl in Hlen, Hend. split_and!; [lia|lia|done|done| |].
      * rewrite Hhd. by destruct path.
      * destruct Hend; [left; lia|auto].
  - split_and!; [lia|lia|done|done|done|]. right. intros b Hb. rewrite <- elem_of_successors, list_elem_of_In in Hb.
    pose proof (List.find_none _ _ Ef _ Hb) as Hf. by apply negb_false_iff, bool_decide_eq_true in Hf.
Qed.

Lemma walk_root arcs max_len r b :
  (2 <= max_len)%nat -> (r, b) ∈ arcs -> (forall a, (a, r) ∉ arcs) ->
  (2 <= length (walk_from (topology_of arcs) max_len r))%nat.
Proof.
  intros Hm Hb Hr. unfold walk_from. replace (max_len - 1)%nat with (S (max_len - 2))%nat by lia. simpl.
  destruct (List.find _ _) as [nxt|] eqn:Ef.
  - apply List.find_some in Ef as [Hin Hnew]. rewrite <- list_elem_of_In, elem_of_successors in Hin.
    destruct (walk_spec arcs (max_len - 2) [r; nxt]) as [Hl _]; [done| | |simpl in Hl; lia].
    + apply NoDup_cons. split; [|by apply NoDup_singleton]. intros ->%list_elem_of_singleton. by apply (Hr nxt).
    + apply (chain_snoc _ [r]); [|done]. intros [|[]]; done.
  - exfalso. rewrite <- elem_of_successors, list_elem_of_In in Hb.
    pose proof (List.find_none _ _ Ef _ Hb) as Hf. apply negb_false_iff, bool_decide_eq_true in Hf.
    apply list_elem_of_singleton in Hf as ->. rewrite <- list_elem_of_In, elem_of_successors in Hb. by apply (Hr r).
Qed.

Lemma arcs_of edges kinds ends a b :
  res_map (edge_ends kinds) edges = Ok ends -> (a, b) ∈ omap id ends <-> arc edges kinds a b.
Proof.
  rewrite res_map_Ok_Forall2. intros HF. rewrite list_elem_of_omap. unfold arc. split.
  - intros (o & Ho & Eo). apply list_elem_of_lookup in Ho as [i Hi].
    destruct (Forall2_lookup_r _ _ _ _ _ HF Hi) as (e & He & E). simpl in Eo. subst o. exists e.
    split; [by eapply list_elem_of_lookup_2|done].
  - intros (e & He & E). apply list_elem_of_lookup in He as [i Hi].
    destruct (Forall2_lookup_l _ _ _ _ _ HF Hi) as (o & Ho & E'). rewrite E in E'. injection E' as <-.
    exists (Some (a, b)). split; [by eapply list_elem_of_lookup_2|done].
Qed.

Lemma path_ltb_longer p q : path_ltb p q = true -> (length q <= length p)%nat.
Proof. unfold path_ltb. rewrite orb_true_iff, andb_true_iff, Nat.ltb_lt, Nat.eqb_eq. lia. Qed.

Lemma path_ltb_not_longer p q : path_ltb p q = false -> (length p <= length q)%nat.
Proof. unfold path_ltb. rewrite orb_false_iff, Nat.ltb_ge. tauto. Qed.

Lemma linked_impl (R S : string -> string -> Prop) p : (forall a b, R a b -> S a b) -> linked R p -> linked S p.
Proof. intros HRS Hl i a b Ha Hb. eauto. Qed.

Lemma root_chain edges kinds arcs max_len r :
  (forall a b, (a, b) ∈ arcs <-> arc edges kinds a b) -> (2 <= max_len)%nat -> r ∈ roots (topology_of arcs) ->
  call_chain (arc edges kinds) max_len (walk_from (topology_of arcs) max_len r) /\
  hd_error (walk_from (topology_of arcs) max_len r) = Some r.
Proof.
  intros Ha Hm Hr. apply elem_of_roots in Hr as [[b Hb] Hr].
  pose proof (walk_root arcs max_len r b Hm Hb Hr) as H2. unfold walk_from in *.
  destruct (walk_spec arcs (max_len - 1) [r]) as (Hlen & Hnd & Hl & Hhd & Hend);
    [done|apply NoDup_singleton|by intros [|[]]|].
  simpl in Hlen, Hend, Hhd. split; [|done]. split_and!; [done|lia|done| |exists r|].
  - eapply linked_impl; [|exact Hl]. intros x y. apply Ha.
  - split; [done|]. intros a Hin. apply Ha in Hin. by apply (Hr a).
  - destruct Hend as [He|He]; [left; lia|right]. intros c Hc. apply He, Ha, Hc.
Qed.

(** The derived call paths.  There are at most [max_paths], the longest
    first; each is a simple path of real call edges that starts at a function
    nothing calls and stops only at [max_len] nodes or where every call leads
    back into it; and as long as the number of paths is below the limit, every
    uncalled function that calls another starts one. *)
Theorem derived_paths_correct edges kinds max_paths max_len ps :
  derive_call_paths edges kinds max_paths max_len = Ok ps -> (2 <= max_len)%nat ->
  (length ps <= max_paths)%nat /\
  StronglySorted (fun p q => length q <= length p)%nat ps /\
  Forall (call_chain (arc edges kinds) max_len) ps /\
  ((length ps < max_paths)%nat -> forall r b, arc edges kinds r b -> (forall a, ~ arc edges kinds a r) ->
     exists p, p ∈ ps /\ hd_error p = Some r).
Proof.
  unfold derive_call_paths. intros E Hm. apply bind_Ok_inv in E as (ends & Ee & [= <-]).
  pose proof (fun a b => arcs_of edges kinds ends a b Ee) as Ha. set (arcs := omap id ends) in *.
  set (paths := List.filter _ _).
  pose proof (py_sort_measure path_ltb length paths (fun x y => path_ltb_longer y x) (fun x y => path_ltb_not_longer y x)) as Hs.
  split_and!.
  - rewrite length_take. lia.
  - eapply StronglySorted_app_1_l. by rewrite take_drop.
  - apply Forall_take. rewrite py_sort_perm. apply Forall_forall. intros p Hp.
    apply elem_of_lfilter in Hp as [Hp _]. apply list_elem_of_fmap in Hp as (r & -> & Hr).
    by apply root_chain.
  - intros Hlt r b Hb Hr. exists (walk_from (topology_of arcs) max_len r).
    assert (r ∈ roots (topology_of arcs)) as Hroot.
    { apply elem_of_roots. split; [exists b; by apply Ha|]. intros a Hin. apply (Hr a), Ha, Hin. }
    destruct (root_chain _ _ _ _ _ Ha Hm Hroot) as [Hc Hhd]. split; [|done].
    rewrite length_take in Hlt. rewrite take_ge by lia. apply elem_of_py_sort, elem_of_lfilter. split.
    + apply list_elem_of_fmap. eauto.
    + destruct Hc as [[Hc _] _]. destruct (length (walk_from _ _ _)) as [|[|n]]; [lia|lia|done].
Qed.

(** ** Module clusters *)

Definition add_member (by_module : list (string * list pyval)) (art : pyval) : res (list (string * list pyval)) :=
  locator ← _source_locator art;
  Ok (assoc_set locator (default [] (assoc locator by_module) ++ [art])%list by_module).

Definition derive_module_clusters (artifacts : list pyval) (min_members : nat) : res (list (string * list pyval)) :=
  by_module ← res_fold add_member [] artifacts;
  Ok (List.filter (fun lm : string * list pyval => Nat.leb min_members (length lm.2))
        (py_sort (fun a b : string * list pyval => String.ltb a.1 b.1) by_module)).

Definition in_module (locator : string) (a : pyval) : bool :=
  match _source_locator a with Ok l => String.eqb l locator | Raise _ => false end.

Lemma by_module_spec arts by_module :
  res_fold add_member [] arts = Ok by_module ->
  NoDup by_module.*1 /\ forall l, default [] (assoc l by_module) = List.filter (in_module l) arts.
Proof.
  revert by_module; induction arts as [|a arts IH] using rev_ind; intros m E.
  - injection E as <-. split; [constructor|done].
  - rewrite res_fold_app in E. apply bind_Ok_inv in E as (m0 & E0 & E). cbn in E.
    apply bind_Ok_inv in E as (m1 & E1 & [= <-]). destruct (IH _ E0) as [Hnd Hm].
    unfold add_member in E1. apply bind_Ok_inv in E1 as (loc & El & [= <-]).
    split; [by apply NoDup_assoc_set|]. intros l. rewrite List.filter_app. cbn. unfold in_module at 2. rewrite El.
    destruct (String.eqb_spec loc l) as [->|Hne].
    + by rewrite assoc_set_eq, <- Hm.
    + by rewrite assoc_set_ne, Hm, app_nil_r by done.
Qed.

(** The module clusters partition the cells.  A cluster is exactly the cells
    of one source file, in the order of the bundle; every file with enough cells
    is one, and none twice. *)
Theorem module_clusters_exact artifacts min_members clusters :
  derive_module_clusters artifacts min_members = Ok clusters -> (1 <= min_members)%nat ->
  NoDup clusters.*1 /\
  forall locator members, (locator, members) ∈ clusters <->
    members = List.filter (in_module locator) artifacts /\ (min_members <= length members)%nat.
Proof.
  unfold derive_module_clusters. intros E Hm. apply bind_Ok_inv in E as (m & Em & [= <-]).
  destruct (by_module_spec _ _ Em) as [Hnd Hs]. split.
  - apply NoDup_map_lfilter. by rewrite py_sort_perm.
  - intros l ms. rewrite elem_of_lfilter, elem_of_py_sort, <- Hs. cbn [snd]. rewrite Nat.leb_le. split.
    + intros [Hin Hl]. by rewrite (assoc_NoDup _ _ _ Hnd Hin).
    + intros [-> Hl]. split; [|done]. destruct (assoc l m) as [ms|] eqn:Ea; [by apply assoc_elem|]. simpl in Hl. lia.
Qed.

(** ** The estate *)

(** An assessment with the cell that anchors it on the evidence plane. *)
Record scored := mkScored { sc_assessment : Assessment; sc_anchor : option string }.

(** Assessments one after the other, each with a draw of its own. *)
Fixpoint score_all {A} (score : nat -> A -> file -> res (scored * file)) (k : nat) (xs : list A) (f : file) :
    res (list scored * file) :=
  match xs with
  | [] => Ok ([], f)
  | x :: xs =>
    sf ← score k x f;
    rest ← score_all score (S k) xs sf.2;
    Ok (sf.1 :: rest.1, rest.2)
  end.

(** [max(members, key=...)["cell_id"]]: the first of the greatest. *)
Definition blast_key (m : pyval) : res pyval := py_get m "blast_radius" (PFloat F64.zero).

Definition highest (best m : pyval) : res pyval :=
  b ← blast_key best; k ← blast_key m; gt ← py_lt b k; Ok (if gt : bool then m else best).

Definition anchor_of (members : list pyval) : res (option string) :=
  match members with
  | [] => Ok None
  | m :: ms =>
    best ← res_fold highest m ms;
    id ← py_item best "cell_id";
    match id with PStr s => Ok (Some s) | _ => Raise TypeError end
  end.

Record estate_result := mkEstate {
  r_nodes : list scored;
  r_paths : list scored;
  r_cluster : scored;
  r_clusters : list scored;
  residual_by_cell : list (string * spec_float)
}.

Definition r_subjects (r : estate_result) : list scored := (r_nodes r ++ r_paths r ++ r_clusters r ++ [r_cluster r])%list.

Section estate.
Variables (weights crosswalk signal_map : pyval).
Variable evidence_index : evidence.
Variable node_crosswalk_refs : list string.
Variables (tier0 persist : bool).
Variable draws : nat -> seal_draw.

Definition score (k : nat) (id : string) (s : subject) (controls : list pyval) (kri : dict) (anchor : option string) (f : file) :
    res (scored * file) :=
  r ← assess fsum weights crosswalk (draws k) id s controls kri node_crosswalk_refs persist f;
  Ok (mkScored r.1 anchor, r.2).

Definition score_node (k : nat) (art : pyval) (f : file) : res (scored * file) :=
  id ← py_item art "cell_id";
  factors ← factors_from_artifact art signal_map;
  match id with
  | PStr cell_id =>
    controls ← controls_from_index cell_id evidence_index;
    node_kri ← _external_kri cell_id evidence_index;
    score k cell_id (Node factors tier0) controls node_kri (Some cell_id) f
  | _ => Raise TypeError
  end.

Definition path_id (chain : list string) : string :=
  "path:" +:+ split_last "#" (hd "" chain) +:+ "->" +:+ split_last "#" (List.last chain "") +:+ ":" +:+
  pretty (length chain) +:+ "nodes".

Definition score_path (residuals : list (string * spec_float)) (k : nat) (chain : list string) (f : file) : res (scored * file) :=
  let node_residuals := map (fun cell => PFloat (default F64.zero (assoc cell residuals))) chain in
  controls ← controls_from_index (path_id chain) evidence_index;
  path_kri ← _external_kri (path_id chain) evidence_index;
  score k (path_id chain) (Path node_residuals) controls path_kri (hd_error chain) f.

Definition _score_cluster (k : nat) (sm : string * list pyval) (f : file) : res (scored * file) :=
  let (subject_id, members) := sm in
  cs ← cluster_components_from_artifacts members signal_map;
  let (components, shares) := (cs : dict * list pyval) in
  hhi ← hhi_normalized fsum shares;
  kri ← cluster_kri_metrics members hhi signal_map;
  ext ← _external_kri subject_id evidence_index;
  let cluster_kri := foldl (fun d kv => assoc_set kv.1 kv.2 d) kri ext in
  resilience ← _cluster_resilience subject_id evidence_index;
  controls ← controls_from_index subject_id evidence_index;
  r ← score k subject_id (Cluster components shares resilience) controls cluster_kri None f;
  anchor ← anchor_of members;
  Ok (mkScored (sc_assessment r.1) anchor, r.2).

Definition assess_estate (bundle : pyval) (cluster_subject_id : string) (f : file) : res (estate_result * file) :=
  arts ← py_get bundle "artifacts" (PList []);
  es ← py_get bundle "edges" (PList []);
  artifacts ← py_iter arts;
  ns ← score_all score_node 0 artifacts f;
  let nodes := ns.1 in
  let residuals := foldl (fun m s => assoc_set (subjectId (sc_assessment s)) (residualScore (sc_assessment s)) m) [] nodes in
  edges ← py_iter es;
  chains ← derive_call_paths edges ["CALLS"] 8 12;
  ps ← score_all (score_path residuals) (length nodes) chains ns.2;
  let k := (length nodes + length (ps.1 : list scored))%nat in
  c ← _score_cluster k (cluster_subject_id, artifacts) ps.2;
  modules ← derive_module_clusters artifacts 2;
  cs ← score_all _score_cluster (S k) (map (fun lm : string * list pyval => ("cluster:module:" +:+ lm.1, lm.2)) modules) c.2;
  Ok (mkEstate nodes ps.1 c.1 cs.1 residuals, cs.2).

(** ** What a run of the estate is made of *)

(** One scored subject: its controls are the ones the index has for it. *)
Definition scored_by (sc : scored) (f f' : file) : Prop :=
  exists k s controls kri,
    assess fsum weights crosswalk (draws k) (subjectId (sc_assessment sc)) s controls kri node_crosswalk_refs persist f
      = Ok (sc_assessment sc, f') /\
    controls_from_index (subjectId (sc_assessment sc)) evidence_index = Ok controls /\
    (tier0 = true -> needs_controls s = true).

Inductive runs : list scored -> file -> file -> Prop :=
| runs_nil f : runs [] f f
| runs_cons sc ss f f1 f2 : scored_by sc f f1 -> runs ss f1 f2 -> runs (sc :: ss) f f2.

Lemma runs_app ss ss' f f1 f2 : runs ss f f1 -> runs ss' f1 f2 -> runs (ss ++ ss') f f2.
Proof. induction 1; simpl; [done|]. intros. econstructor; eauto. Qed.

Lemma score_all_runs {A} (step : nat -> A -> file -> res (scored * file)) k xs f ss f' :
  (forall k x f sc f', step k x f = Ok (sc, f') -> scored_by sc f f') ->
  score_all step k xs f = Ok (ss, f') -> runs ss f f'.
Proof.
  intros Hs. revert k f ss; induction xs as [|x xs IH]; intros k f ss; simpl; [intros [= <- <-]; constructor|].
  intros E. apply bind_Ok_inv in E as ([sc f1] & E1 & E). apply bind_Ok_inv in E as ([rest f2] & E2 & [= <- <-]).
  econstructor; [by eapply Hs|by eapply IH].
Qed.

Lemma score_scored k id s controls kri anchor f sc f' :
  score k id s controls kri anchor f = Ok (sc, f') ->
  controls_from_index id evidence_index = Ok controls -> (tier0 = true -> needs_controls s = true) ->
  scored_by sc f f'.
Proof.
  unfold score. intros E Hc Hn. apply bind_Ok_inv in E as ([a f1] & E & [= <- <-]).
  exists k, s, controls, kri. simpl. by rewrite (assess_subject _ _ _ _ _ _ _ _ _ _ _ _ _ E).
Qed.

Lemma score_node_scored k art f sc f' : score_node k art f = Ok (sc, f') -> scored_by sc f f'.
Proof.
  unfold score_node. intros E. apply bind_Ok_inv in E as (id & _ & E). apply bind_Ok_inv in E as (factors & _ & E).
  destruct id as [| | | |cell| |]; try discriminate E.
  apply bind_Ok_inv in E as (controls & Hc & E). apply bind_Ok_inv in E as (kri & _ & E).
  by eapply score_scored.
Qed.

Lemma score_path_scored residuals k chain f sc f' : score_path residuals k chain f = Ok (sc, f') -> scored_by sc f f'.
Proof.
  unfold score_path. intros E. apply bind_Ok_inv in E as (controls & Hc & E). apply bind_Ok_inv in E as (kri & _ & E).
  by eapply score_scored.
Qed.

Lemma score_cluster_scored k sm f sc f' : _score_cluster k sm f = Ok (sc, f') -> scored_by sc f f'.
Proof.
  destruct sm as [id members]. unfold _score_cluster. intros E.
  apply bind_Ok_inv in E as ([components shares] & _ & E). apply bind_Ok_inv in E as (hhi & _ & E).
  apply bind_Ok_inv in E as (kri & _ & E). apply bind_Ok_inv in E as (ext & _ & E).
  apply bind_Ok_inv in E as (resilience & _ & E). apply bind_Ok_inv in E as (controls & Hc & E).
  apply bind_Ok_inv in E as ([sc1 f1] & E1 & E). apply bind_Ok_inv in E as (anchor & _ & [= <- <-]).
  by eapply score_scored in E1.
Qed.

Lemma assess_estate_runs bundle id f r f' :
  assess_estate bundle id f = Ok (r, f') -> runs (r_nodes r ++ r_paths r ++ r_cluster r :: r_clusters r) f f'.
Proof.
  unfold assess_estate. intros E. apply bind_Ok_inv in E as (arts & _ & E). apply bind_Ok_inv in E as (es & _ & E).
  apply bind_Ok_inv in E as (artifacts & _ & E). apply bind_Ok_inv in E as ([ns f1] & En & E).
  apply bind_Ok_inv in E as (edges & _ & E). apply bind_Ok_inv in E as (chains & _ & E).
  apply bind_Ok_inv in E as ([ps f2] & Ep & E). apply bind_Ok_inv in E as ([c f3] & Ec & E).
  apply bind_Ok_inv in E as (modules & _ & E). apply bind_Ok_inv in E as ([cs f4] & Ecs & [= <- <-]). cbn [fst snd r_nodes r_paths r_cluster r_clusters] in *.
  eapply runs_app; [eapply score_all_runs; [exact score_node_scored|exact En]|].
  eapply runs_app; [eapply score_all_runs; [apply score_path_scored|exact Ep]|].
  econstructor; [exact (score_cluster_scored _ _ _ _ _ Ec)|]. eapply score_all_runs; [exact score_cluster_scored|exact Ecs].
Qed.

Lemma run_order r : r_subjects r ≡ₚ r_nodes r ++ r_paths r ++ r_cluster r :: r_clusters r.
Proof. unfold r_subjects. by rewrite (Permutation_app_comm (r_clusters r) [_]). Qed.

Lemma runs_single_writer ss f f' : runs ss f f' -> single_writer f -> single_writer f' /\ extends f f' /\
  length (default [] f') = (length (default [] f) + if persist then length ss else 0)%nat.
Proof.
  induction 1 as [f|sc ss f f1 f2 (k & s & ctl & kri & E & _) _ IH]; intros Hw.
  - split_and!; [done|exists []; by rewrite app_nil_r|by destruct persist; simpl; lia].
  - destruct (assess_single_writer _ _ _ _ _ _ _ _ _ _ _ _ _ Hw E) as (Hw1 & [l1 E1] & _).
    destruct (IH Hw1) as (Hw2 & [l2 E2] & Hl). split_and!; [done| |].
    + exists (l1 ++ l2)%list. by rewrite E2, E1, app_assoc.
    + rewrite Hl, (assess_appends _ _ _ _ _ _ _ _ _ _ _ _ _ E). simpl. destruct persist; lia.
Qed.

(** Missing evidence is not evidence of low risk.  With the tier-0 default,
    every node, path and cluster of an estate for which the evidence index has
    no controls is REJECTED, whatever the call graph says; without an index the
    whole estate is. *)
Theorem estate_fail_closed bundle id f r f' :
  tier0 = true -> assess_estate bundle id f = Ok (r, f') ->
  Forall (fun sc => controls_from_index (subjectId (sc_assessment sc)) evidence_index = Ok [] ->
            a_verdict (sc_assessment sc) = REJECTED) (r_subjects r).
Proof.
  intros Ht E%assess_estate_runs. rewrite run_order. induction E as [|sc ss g g1 g2 Hs _ IH]; [constructor|].
  constructor; [|exact IH]. intros Hc. destruct Hs as (k & s & controls & kri & Ea & Hc' & Hn). rewrite Hc in Hc'. injection Hc' as <-.
  by eapply no_controls_rejected; [apply Hn|].
Qed.

(** Scoring an estate is one batch on the governance ledger: from any state
    the server and the scorer can leave, the ledger still verifies afterwards,
    nothing earlier is touched, and exactly one record is added for each subject
    when persisting, none otherwise. *)
Theorem estate_ledger_complete bundle id f r f' :
  rtc ledger_step None f -> assess_estate bundle id f = Ok (r, f') ->
  (exists n s, verify_ledger f' GENESIS = Ok (mkVerifyResult true n s None None)) /\ extends f f' /\
  length (default [] f') = (length (default [] f) + if persist then length (r_subjects r) else 0)%nat.
Proof.
  intros Hs E. apply ledger_steps_single_writer in Hs. rewrite run_order.
  destruct (runs_single_writer _ _ _ (assess_estate_runs _ _ _ _ _ E) Hs) as ((recs & h & s & Hr & Hc & _) & Hx & Hl).
  split_and!; [|done|done]. exists (length recs), s. apply (verify_ledger_chain f' GENESIS). eauto 10.
Qed.
End estate.

(** ** The summary *)

Definition bump (d : list (string * nat)) (k : string) : list (string * nat) := assoc_set k (S (default O (assoc k d))) d.

Definition _tally (keys : list string) : dict :=
  map (fun kn : string * nat => (kn.1, PInt (Z.of_nat kn.2)))
    (py_sort (fun a b : string * nat => String.ltb a.1 b.1) (foldl bump [] keys)).

Definition worse (a b : Assessment) : bool := F64.ltb (SFopp (residualScore a)) (SFopp (residualScore b)).

Definition summarize_estate (r : estate_result) : res pyval :=
  let subjects := map sc_assessment (r_subjects r) in
  ratings ← all_texts (map rating subjects);
  let worst := take 5 (py_sort worse subjects) in
  Ok (PDict [
    ("subjects", PInt (Z.of_nat (length subjects)));
    ("by_verdict", PDict (_tally (map a_verdict subjects)));
    ("by_rating", PDict (_tally ratings));
    ("worst_residuals", PList (map (fun s => PDict [
       ("scope", PStr (riskScope s)); ("subject", PStr (subjectId s));
       ("residual", PFloat (py_round 4 (residualScore s))); ("rating", rating s);
       ("verdict", PStr (a_verdict s))]) worst))]).
End pipeline.

(** ** Witnesses *)

Section witnesses.
#[local] Existing Instance demo_float_repr.

(** Patterns that are plain texts. *)
Definition demo_search (p : pyval) (s : string) : res bool :=
  match p with PStr p => Ok (substring_of p s) | _ => Raise TypeError end.

Definition demo_signal_map : pyval := PDict [
  ("inherent_factor_derivation", PDict [("factors", PDict [
     ("criticality_K", PDict [("observable", PBool true)]);
     ("concentration_C", PDict [("saturation", PInt 15)]);
     ("velocity_V", PDict [("saturation", half)]);
     ("opacity_O", PDict [
        ("untested_component", PDict [("weight", half); ("value_when_untested", PInt 1); ("value_when_tested", PInt 0)]);
        ("epistemic_component", PDict [("weight", half); ("opacity_by_level", PDict [("proved", PFloat F64.zero)])])]);
     ("execution_E", PDict [("conservative_prior", half); ("generated_raises_to", half);
        ("path_signals", PList [PDict [("pattern", PStr "build.rs"); ("value", PFloat F1)]])]);
     ("privilege_P", PDict [("conservative_prior", half)])])]);
  ("derived_kri_kci", PDict [("indicators", PDict [
     ("KCI02", PDict [("graph_visible_levels", PList [PStr "proved"])]);
     ("KRI04", PDict [("concentration_threshold", half)])])])].

Definition demo_cell (id : string) : pyval :=
  PDict [("cell_id", PStr id); ("blast_radius", half); ("dependents_count", PInt 3);
         ("claim", PDict [("epistemicLevel", PStr "proved")])].

Definition demo_call (a b : string) : pyval :=
  PDict [("kind", PStr "CALLS"); ("from", PStr a); ("to", PStr b)].

Definition demo_bundle : pyval := PDict [
  ("artifacts", PList [demo_cell "code://rust/build.rs#main"; demo_cell "code://rust/build.rs#emit"]);
  ("edges", PList [demo_call "code://rust/build.rs#main" "code://rust/build.rs#emit"])].

Definition demo_factors : list (string * pyval) :=
  match factors_from_artifact demo_search (demo_cell "code://rust/build.rs#main") demo_signal_map with
  | Ok fs => fs | Raise _ => [] end.

Example factors_ex :
  demo_factors =
  [("criticality_K", half); ("concentration_C", PFloat (F64.of_dec 2 1)); ("velocity_V", PFloat F64.zero);
   ("opacity_O", half); ("execution_E", PFloat F1); ("privilege_P", half)].
Proof. vm_compute. reflexivity. Qed.

(** Two chains of calls, one of which runs into a cycle. *)
Definition demo_edges : list pyval :=
  [demo_call "a" "c"; demo_call "a" "b"; demo_call "b" "d"; demo_call "d" "b"; demo_call "r" "d";
   PDict [("kind", PStr "CALLS"); ("from", PStr "a")]; PDict [("kind", PStr "IMPORTS")]].

Lemma derived_paths_correct_witness :
  derive_call_paths demo_edges ["CALLS"] 8 12 = Ok [["a"; "b"; "d"]; ["r"; "d"; "b"]] /\
  Forall (call_chain (arc demo_edges ["CALLS"]) 12) [["a"; "b"; "d"]; ["r"; "d"; "b"]].
Proof.
  assert (derive_call_paths demo_edges ["CALLS"] 8 12 = Ok [["a"; "b"; "d"]; ["r"; "d"; "b"]]) as E
    by (vm_compute; reflexivity).
  split; [exact E|]. destruct (derived_paths_correct _ _ _ _ _ E) as (_ & _ & HF & _); [lia|exact HF].
Defined.

Lemma module_clusters_exact_witness :
  exists clusters, derive_module_clusters [demo_cell "code://rust/a.rs#f"; demo_cell "code://rust/b.rs#g"; demo_cell "x://rust/a.rs#h"] 2
      = Ok clusters /\
    ("rust/a.rs", [demo_cell "code://rust/a.rs#f"; demo_cell "x://rust/a.rs#h"]) ∈ clusters.
Proof.
  destruct (derive_module_clusters [demo_cell "code://rust/a.rs#f"; demo_cell "code://rust/b.rs#g"; demo_cell "x://rust/a.rs#h"] 2)
    as [clusters|] eqn:E; [|vm_compute in E; discriminate E].
  exists clusters. split; [reflexivity|]. apply (module_clusters_exact _ _ _ E); [lia|]. vm_compute. split; [reflexivity|lia].
Defined.

#[local] Abbreviation demo_estate persist :=
  (assess_estate demo_search demo_sum demo_weights demo_crosswalk demo_signal_map None ["B001"] true persist
     (fun _ => demo_seal) demo_bundle "cluster:all" None).

(** Both runs score five subjects: two nodes, a path, the estate and its module. *)
Definition demo_count (persist : bool) : option nat :=
  match demo_estate persist with Ok (r, _) => Some (length (r_subjects r)) | Raise _ => None end.

Lemma demo_counts : (demo_count false, demo_count true) = (Some 5%nat, Some 5%nat).
Proof. vm_compute. reflexivity. Qed.

Lemma demo_estate_returns persist :
  exists r f', demo_estate persist = Ok (r, f') /\ length (r_subjects r) = 5%nat.
Proof.
  assert (demo_count persist = Some 5%nat) as Hc by (pose proof demo_counts; destruct persist; congruence).
  unfold demo_count in Hc. destruct (demo_estate persist) as [[r f']|]; [|discriminate Hc]. injection Hc as Hc. eauto.
Qed.

Lemma estate_fail_closed_witness :
  exists r f', demo_estate false = Ok (r, f') /\ length (r_subjects r) = 5%nat /\
    Forall (fun sc => a_verdict (sc_assessment sc) = REJECTED) (r_subjects r).
Proof.
  destruct (demo_estate_returns false) as (r & f' & E & Hn). exists r, f'. split; [exact E|]. split; [exact Hn|].
  eapply Forall_impl; [exact (estate_fail_closed _ _ _ _ _ _ _ _ _ _ _ _ _ _ _ eq_refl E)|].
  intros sc Hs. apply Hs. reflexivity.
Defined.

Lemma estate_ledger_complete_witness :
  exists r f', demo_estate true = Ok (r, f') /\
    (exists n s, verify_ledger f' GENESIS = Ok (mkVerifyResult true n s None None)) /\ length (default [] f') = 5%nat.
Proof.
  destruct (demo_estate_returns true) as (r & f' & E & Hn). exists r, f'. split; [exact E|].
  destruct (estate_ledger_complete _ _ _ _ _ _ _ _ _ _ _ _ _ _ _ (rtc_refl _ None) E) as (Hv & _ & Hl).
  split; [exact Hv|]. rewrite Hl. exact Hn.
Defined.
End witnesses.
