(* ===== verification/EvidencePlane.v ===== *)
(** * The evidence plane

    Models [gbrg/adapters/evidence.py], which lifts proof artifacts to
    observation records, and [estate_evidence_envelopes] of
    [gbrg/governance/supply_chain_pipeline.py].  The clock is an argument and so
    are the source files below the repository root. *)

From Stdlib Require Import Ascii SpecFloat.
From S2P Require Import Prelude PyVal FloatOrder Json PyText Sha256 Sha1 Ledger Gate McpGate SupplyChainRisk SupplyChainPipeline.
Local Open Scope string_scope.

Definition SCHEMA_VERSION : string := "0.1".
Definition PARSER_ID : string := "gbrg-tree-sitter".

Definition EPISTEMIC_TO_CONFIDENCE : list (string * string) :=
  [("proved", "exact"); ("empirical", "exact"); ("bounded", "derived"); ("synthetic", "derived");
   ("speculative", "heuristic"); ("rejected", "heuristic")].

Definition FORBIDDEN_AUTHORIZATION_KEYS : list string :=
  ["policyDecision"; "policy_decision"; "policydecision"; "authorization"; "authorize"; "authorized";
   "decision"; "verdict"; "allow"; "deny"; "ledgerRequired"].

Definition is_forbidden (k : string) : bool := existsb (String.eqb k) FORBIDDEN_AUTHORIZATION_KEYS.

(** A key that would turn evidence into authorization, with or without its
    namespace. *)
Definition forbidden_key (key : string) : bool := is_forbidden (split_rest ":" key) || is_forbidden key.

(** [_walk]: the first forbidden key, depth first. *)
Fixpoint _walk (obj : pyval) (path : string) {struct obj} : res unit :=
  match obj with
  | PDict d =>
    (fix items (d : list (string * pyval)) : res unit :=
       match d with
       | [] => Ok tt
       | (key, val) :: d =>
         if forbidden_key key then
           Raise (AssertionError ("evidence-only invariant violated: authorization key " +:+ repr_str key +:+ " at " +:+ path +:+
                                  ". GBRG emits evidence, never a decision."))
         else _ ← _walk val (path +:+ "." +:+ key); items d
       end) d
  | PList l =>
    (fix elems (i : nat) (l : list pyval) : res unit :=
       match l with
       | [] => Ok tt
       | item :: l => _ ← _walk item (path +:+ "[" +:+ pretty i +:+ "]"); elems (S i) l
       end) O l
  | _ => Ok tt
  end.

Definition assert_evidence_only (envelope : pyval) : res unit := _walk envelope "$".

Section lift.
Context `{FloatRepr}.

Definition epistemic_to_confidence (epistemic_level : pyval) : res string :=
  let unknown := ValueError ("unknown GBRG epistemicLevel " +:+ py_repr epistemic_level +:+ "; expected one of " +:+
    py_repr (PList (map PStr (py_sort String.ltb EPISTEMIC_TO_CONFIDENCE.*1)))) in
  match epistemic_level with
  | PStr s => of_option unknown (assoc s EPISTEMIC_TO_CONFIDENCE)
  | v => if hashable v then Raise unknown else Raise TypeError
  end.

Definition id_char (c : ascii) : bool :=
  let n := nat_of_ascii c in
  (Nat.leb 65 n && Nat.leb n 90) || (Nat.leb 97 n && Nat.leb n 122) || (Nat.leb 48 n && Nat.leb n 57) ||
  Ascii.eqb c "." || Ascii.eqb c "_" || Ascii.eqb c "/" || Ascii.eqb c "-".

(** Every run of other characters becomes one hyphen. *)
Fixpoint hyphenate (in_run : bool) (s : string) : string :=
  match s with
  | EmptyString => ""
  | String c s =>
    if id_char c then String c (hyphenate false s)
    else if in_run then hyphenate true s else String "-" (hyphenate true s)
  end.

Fixpoint lstrip_char (c : ascii) (s : string) : string :=
  match s with
  | EmptyString => ""
  | String d s' => if Ascii.eqb d c then lstrip_char c s' else s
  end.

Fixpoint rstrip_char (c : ascii) (s : string) : string :=
  match s with
  | EmptyString => ""
  | String d s =>
    match rstrip_char c s with
    | EmptyString => if Ascii.eqb d c then "" else String d ""
    | r => String d r
    end
  end.

Definition _sanitize_id (text : string) : string := rstrip_char "-" (lstrip_char "-" (hyphenate false text)).

Definition LANGUAGES : list string := ["rust"; "python"; "py"; "ts"; "typescript"; "js"].

Definition cell_source_path (cell_id : string) : string :=
  let locator := split_head "#" (split_rest "://" cell_id) in
  let parts := split_char "/" locator in
  let parts := match parts with p :: ps => if existsb (String.eqb p) LANGUAGES then ps else parts | [] => [] end in
  let rel := str_join "/" parts in
  if String.prefix "gbrg/" rel then rel else "gbrg/" +:+ rel.

(** The bytes of a source file below the repository root. *)
Variable read_bytes : string -> res string.

Definition git_blob_sha (path : string) : res string :=
  data ← read_bytes path;
  Ok (sha1_hex ("blob " +:+ pretty (String.length data) +:+ String zero data)).

Definition _evidence_digest (record_wo_digest : dict) : string := sha256_hex (canonical (PDict record_wo_digest)).

Definition _METRICS : list string := ["dependents_count"; "test_coverage_reach"; "churn"].

Definition unknown_metric (what metric : string) : exn := ValueError ("unknown " +:+ what +:+ repr_str metric).

Definition _metric_value (metric : string) (artifact : pyval) : res pyval :=
  if String.eqb metric "dependents_count" then
    v ← py_item artifact "dependents_count"; n ← py_int_of v; Ok (PStr (pretty n))
  else if String.eqb metric "test_coverage_reach" then
    v ← py_item artifact "test_coverage_reach"; Ok (PBool (truthy v))
  else if String.eqb metric "churn" then
    dflt ← py_get artifact "churn" PNone;
    churn ← py_get artifact "churn_frequency" dflt;
    f ← py_float churn; Ok (PStr (fmt_g 10 f))
  else Raise (unknown_metric "metric " metric).

Definition record_of (observation_id subject_repository surface : string) (value : pyval)
    (source_path source_blob extraction_method confidence when : string) : dict :=
  let record := [
    ("schema_version", PStr SCHEMA_VERSION); ("observation_id", PStr observation_id);
    ("subject_repository", PStr subject_repository); ("surface", PStr surface); ("predicate", PStr "mentions_repo");
    ("value", value); ("source_path", PStr source_path); ("source_blob_sha", PStr source_blob);
    ("parser_id", PStr PARSER_ID); ("extraction_method", PStr extraction_method); ("confidence", PStr confidence);
    ("temporal_validity", PDict [("valid_at", PStr when); ("valid_until", PNone)])] in
  (record ++ [("evidence_digest", PStr (_evidence_digest record))])%list.

(** An envelope that passed the check. *)
Definition envelope (record extension : dict) : res pyval :=
  let env := PDict [("observation", PDict record); ("gbrg_extension", PDict extension)] in
  _ ← assert_evidence_only env; Ok env.

Definition proof_envelope (artifact claim level : pyval) (cell_id subject_repository source_path source_blob confidence when : string)
    (metric : string) : res pyval :=
  value ← _metric_value metric artifact;
  let extraction_method :=
    "gbrg-analyze/frozen-index blast-radius read: " +:+ metric +:+ " " +:+
    "(tree-sitter AST cells -> hg_analytics in-degree/tested-by/churn)" in
  let record := record_of ("obs:gbrg/" +:+ _sanitize_id cell_id +:+ "/" +:+ metric) subject_repository "canonical_sources" value
    source_path source_blob extraction_method confidence when in
  br ← py_get artifact "blast_radius" PNone; status ← py_get artifact "status" PNone; proof ← py_get artifact "proofId" PNone;
  claim_id ← py_get claim "claimId" PNone; generated ← py_get artifact "generated" PNone; by_ ← py_get artifact "declared_by" PNone;
  let extension := [
    ("gbrgnrg:cellId", PStr cell_id); ("gbrgnrg:metric", PStr metric); ("gbrgnrg:epistemicLevel", level);
    ("gbrgnrg:confidenceMappedFrom", level); ("gbrgnrg:blastRadius", br); ("gbrgnrg:status", status);
    ("gbrgnrg:proofId", proof); ("gbrgnrg:claimId", claim_id); ("gbrgnrg:generated", generated);
    ("gbrgnrg:declaredBy", by_)] in
  has ← py_in "ast_hash" artifact;
  extension ← (if has : bool then h ← py_item artifact "ast_hash"; Ok (extension ++ [("gbrgnrg:astHash", h)])%list else Ok extension);
  envelope record extension.

Definition proof_to_observations (artifact : pyval) (subject_repository when : string) : res (list pyval) :=
  id ← py_item artifact "cell_id";
  claim ← py_get artifact "claim" (PDict []);
  level ← py_get claim "epistemicLevel" (PStr "");
  confidence ← epistemic_to_confidence level;
  match id with
  | PStr cell_id =>
    let source_path := cell_source_path cell_id in
    source_blob ← git_blob_sha source_path;
    res_map (proof_envelope artifact claim level cell_id subject_repository source_path source_blob confidence when) _METRICS
  | _ => Raise AttributeError
  end.

Definition _SCR_METRICS : list string := ["residualScore"; "rating"].

Definition _scr_metric_value (metric : string) (artifact : pyval) : res string :=
  if String.eqb metric "residualScore" then
    v ← py_item artifact "residualScore"; f ← py_float v; Ok (fmt_g 6 f)
  else if String.eqb metric "rating" then v ← py_item artifact "rating"; Ok (py_str v)
  else Raise (unknown_metric "SCR metric " metric).

Definition kri_band (k : pyval) : res pyval :=
  id ← py_get k "id" PNone; band ← py_get k "band" PNone; Ok (PDict [("id", id); ("band", band)]).

Definition scr_envelope (art level risk_scope kri_bands : pyval)
    (subject_slug anchor subject_repository source_path source_blob confidence when metric : string) : res pyval :=
  value ← _scr_metric_value metric art;
  let extraction_method :=
    "gbrg supply-chain-risk scorer: " +:+ py_str risk_scope +:+ " " +:+ metric +:+ " over declared " +:+
    "weights (graph-signal-derived factors -> residual, Assay projection)" in
  let record := record_of ("obs:gbrg-scr/" +:+ py_str risk_scope +:+ "/" +:+ subject_slug +:+ "/" +:+ metric) subject_repository "topology"
    (PStr value) source_path source_blob extraction_method confidence when in
  proof ← py_get art "proofId" PNone; subj ← py_get art "subjectId" PNone; score ← py_get art "residualScore" PNone;
  rt ← py_get art "rating" PNone; verdict ← py_get art "verdict" PNone; status ← py_get art "status" PNone;
  wref ← py_get art "weightsRef" PNone; by_ ← py_get art "declared_by" PNone;
  envelope record [
    ("gbrgnrg:proofId", proof); ("gbrgnrg:riskScope", risk_scope); ("gbrgnrg:subjectId", subj); ("gbrgnrg:metric", PStr metric);
    ("gbrgnrg:residualScore", score); ("gbrgnrg:rating", rt); ("gbrgnrg:riskClass", verdict); ("gbrgnrg:status", status);
    ("gbrgnrg:epistemicLevel", level); ("gbrgnrg:weightsRef", wref); ("gbrgnrg:kriBands", kri_bands);
    ("gbrgnrg:anchorCellId", PStr anchor); ("gbrgnrg:declaredBy", by_)].

Definition scr_to_observations (scr_artifact : pyval) (subject_repository anchor_cell_id when : string) : res (list pyval) :=
  claim ← py_get scr_artifact "claim" (PDict []);
  level ← py_get claim "epistemicLevel" (PStr "");
  confidence ← epistemic_to_confidence level;
  let source_path := cell_source_path anchor_cell_id in
  source_blob ← git_blob_sha source_path;
  subj ← py_get scr_artifact "subjectId" (PStr "");
  match subj with
  | PStr s =>
    let subject_slug := _sanitize_id s in
    risk_scope ← py_get scr_artifact "riskScope" (PStr "node");
    ks ← py_get scr_artifact "kriEvaluations" (PList []); ks ← py_iter ks;
    bands ← res_map kri_band ks;
    res_map (scr_envelope scr_artifact level risk_scope (PList bands) subject_slug anchor_cell_id subject_repository
               source_path source_blob confidence when) _SCR_METRICS
  | _ => Raise TypeError
  end.

Definition observation_records (envelopes : list pyval) : res (list pyval) :=
  res_map (fun env => py_item env "observation") envelopes.

(** ** The estate on the plane *)

Definition lift_scored (subject_repository when : string) (sc : scored) : res (list pyval) :=
  match sc_anchor sc with
  | None | Some EmptyString => Ok []
  | Some anchor => scr_to_observations (PDict (proof_artifact (sc_assessment sc))) subject_repository anchor when
  end.

Definition lift_node (subject_repository when : string) (sc : scored) : res (list pyval) :=
  scr_to_observations (PDict (proof_artifact (sc_assessment sc))) subject_repository (subjectId (sc_assessment sc)) when.

Definition estate_evidence_envelopes (r : estate_result) (subject_repository when : string) : res (list pyval) :=
  ns ← res_map (lift_node subject_repository when) (r_nodes r);
  aggs ← res_map (lift_scored subject_repository when) (r_paths r ++ r_clusters r ++ [r_cluster r])%list;
  Ok (concat ns ++ concat aggs)%list.

(** ** Properties *)

(** Every key of a value, at any depth. *)
Fixpoint all_keys (v : pyval) : list string :=
  match v with
  | PDict d => concat (map (fun kv : string * pyval => kv.1 :: all_keys kv.2) d)
  | PList l => concat (map all_keys l)
  | _ => []
  end.

(** The check accepts a value exactly when it has no forbidden key anywhere. *)
Lemma walk_Ok v path : _walk v path = Ok tt <-> Forall (fun k => forbidden_key k = false) (all_keys v).
Proof.
  revert path. induction v as [| | | | |l IH|d IH] using pyval_rect'; intros path; simpl; try (split; by constructor).
  - generalize O as i. induction IH as [|x l Hx _ IHl]; intros i; simpl; [split; by constructor|].
    rewrite Forall_app, <- (Hx (path +:+ "[" +:+ pretty i +:+ "]")), <- (IHl (S i)).
    destruct (_walk x _) as [[]|]; simpl; naive_solver.
  - induction IH as [|[k x] d Hx _ IHd]; simpl; [split; by constructor|].
    cbn [snd] in Hx. rewrite Forall_cons, Forall_app, <- (Hx (path +:+ "." +:+ k)), <- IHd.
    destruct (forbidden_key k); [split; [done|by intros [? _]]|].
    destruct (_walk x _) as [[]|]; simpl; naive_solver.
Qed.

(** What reaches the plane. *)
Inductive emitted : pyval -> Prop :=
| by_proof artifact repo when envs env :
    proof_to_observations artifact repo when = Ok envs -> env ∈ envs -> emitted env
| by_assessment artifact repo anchor when envs env :
    scr_to_observations artifact repo anchor when = Ok envs -> env ∈ envs -> emitted env
| by_estate r repo when envs env :
    estate_evidence_envelopes r repo when = Ok envs -> env ∈ envs -> emitted env.

Lemma envelope_keys record extension env :
  envelope record extension = Ok env -> Forall (fun k => forbidden_key k = false) (all_keys env).
Proof.
  unfold envelope. intros E. apply bind_Ok_inv in E as ([] & Ew & [= <-]). by eapply walk_Ok.
Qed.

Lemma envelopes_keys {A} (f : A -> res pyval) l envs env :
  (forall x env, f x = Ok env -> exists record extension, envelope record extension = Ok env) ->
  res_map f l = Ok envs -> env ∈ envs -> Forall (fun k => forbidden_key k = false) (all_keys env).
Proof.
  intros Hf E Hin. rewrite res_map_Ok_Forall2 in E. apply list_elem_of_lookup in Hin as [i Hi].
  destruct (Forall2_lookup_r _ _ _ _ _ E Hi) as (x & _ & Ex). destruct (Hf _ _ Ex) as (record & extension & He).
  by eapply envelope_keys.
Qed.

Lemma scr_keys artifact repo anchor when envs env :
  scr_to_observations artifact repo anchor when = Ok envs -> env ∈ envs ->
  Forall (fun k => forbidden_key k = false) (all_keys env).
Proof.
  unfold scr_to_observations. intros E. do 5 apply bind_Ok_inv in E as (? & _ & E).
  case_match; try discriminate E. do 4 apply bind_Ok_inv in E as (? & _ & E). revert E. apply envelopes_keys.
  intros metric env'. unfold scr_envelope. intros E. do 9 apply bind_Ok_inv in E as (? & _ & E). eauto.
Qed.

Lemma proof_keys artifact repo when envs env :
  proof_to_observations artifact repo when = Ok envs -> env ∈ envs ->
  Forall (fun k => forbidden_key k = false) (all_keys env).
Proof.
  unfold proof_to_observations. intros E. do 4 apply bind_Ok_inv in E as (? & _ & E).
  case_match; try discriminate E. apply bind_Ok_inv in E as (? & _ & E). revert E. apply envelopes_keys.
  intros metric env'. unfold proof_envelope. intros E. do 9 apply bind_Ok_inv in E as (? & _ & E). eauto.
Qed.

Lemma lifted_elem {A} (f : A -> res (list pyval)) l envss env :
  res_map f l = Ok envss -> env ∈ concat envss -> exists x envs, f x = Ok envs /\ env ∈ envs.
Proof.
  rewrite res_map_Ok_Forall2. intros HF Hin. induction HF as [|x envs l envss Hx _ IH]; simpl in Hin.
  - by apply elem_of_nil in Hin.
  - apply elem_of_app in Hin as [Hin|Hin]; eauto.
Qed.

(** C24: evidence only, never authorization.  Whatever is lifted onto the evidence
    plane, from a proof artifact, an assessment or a whole estate, and whatever
    the artifact contained, no key of the emitted envelope at any depth is an
    authorization key, bare or behind a namespace. *)
Theorem plane_never_authorizes env :
  emitted env -> Forall (fun k => forbidden_key k = false) (all_keys env).
Proof.
  intros [artifact repo when envs e E Hin|artifact repo anchor when envs e E Hin|r repo when envs e E Hin].
  - by eapply proof_keys.
  - by eapply scr_keys.
  - unfold estate_evidence_envelopes in E. apply bind_Ok_inv in E as (ns & En & E).
    apply bind_Ok_inv in E as (aggs & Ea & [= <-]). apply elem_of_app in Hin as [Hin|Hin].
    + destruct (lifted_elem _ _ _ _ En Hin) as (sc & envs & El & He). by eapply scr_keys.
    + destruct (lifted_elem _ _ _ _ Ea Hin) as (sc & envs & El & He). unfold lift_scored in El.
      destruct (sc_anchor sc) as [[|c anchor]|]; [|by eapply scr_keys|];
        injection El as <-; by apply elem_of_nil in He.
Qed.

Lemma kri_bands_Ok evals :
  res_map kri_band (map kri_json evals) =
  Ok (map (fun k => PDict [("id", PStr (k_id k)); ("band", PStr (k_band k))]) evals).
Proof. induction evals as [|k evals IH]; simpl; [done|]. by rewrite IH. Qed.

Lemma kri_bands_keys evals :
  Forall (fun k => forbidden_key k = false)
    (all_keys (PList (map (fun k => PDict [("id", PStr (k_id k)); ("band", PStr (k_band k))]) evals))).
Proof. induction evals as [|k evals IH]; simpl; [constructor|]. by repeat constructor. Qed.

Lemma known_level lv :
  lv ∈ ["rejected"; "speculative"; "empirical"] -> exists c, epistemic_to_confidence (PStr lv) = Ok c.
Proof. intros Hl. repeat (apply elem_of_cons in Hl as [->|Hl]; [by eexists|]). by apply elem_of_nil in Hl. Qed.

Lemma envelope_Ok record extension :
  Forall (fun k => forbidden_key k = false) (all_keys (PDict record)) ->
  Forall (fun k => forbidden_key k = false) (all_keys (PDict extension)) ->
  envelope record extension = Ok (PDict [("observation", PDict record); ("gbrg_extension", PDict extension)]).
Proof.
  intros Hr Hx. unfold envelope, assert_evidence_only. rewrite (proj2 (walk_Ok _ "$")); [done|].
  cbn [all_keys map concat fst snd]. rewrite app_nil_r. by repeat (apply Forall_cons || apply Forall_app; split).
Qed.

(** The keys of a record with known keys, one after the other. *)
Ltac allowed_keys := repeat (apply Forall_cons; split; [reflexivity|]); try apply Forall_nil_2.

Lemma scr_envelope_Ok a rt lv scope bands slug anchor repo path blob conf when metric value :
  rating a = PStr rt -> _scr_metric_value metric (PDict (proof_artifact a)) = Ok value ->
  Forall (fun k => forbidden_key k = false) (all_keys (PList bands)) ->
  exists o x,
    scr_envelope (PDict (proof_artifact a)) (PStr lv) (PStr scope) (PList bands) slug anchor repo path blob conf when metric
      = Ok (PDict [("observation", PDict o); ("gbrg_extension", PDict x)]) /\
    assoc "value" o = Some (PStr value) /\ assoc "gbrgnrg:riskClass" x = Some (PStr (a_verdict a)).
Proof.
  intros Hr Hv Hb. unfold scr_envelope. rewrite Hv. cbn [mbind res_bind].
  eexists _, _. split; [refine (envelope_Ok _ _ _ _)|split; reflexivity].
  - allowed_keys.
  - change (default PNone (assoc "rating" (proof_artifact a))) with (rating a). rewrite Hr.
    allowed_keys. apply Forall_app. split; [exact Hb|allowed_keys].
Qed.

(** Every assessment can be lifted.  When its rating is a text and the anchor
    has a source file, the lift returns two envelopes, for the residual score and
    the rating; the scored verdict crosses only as the risk class of the
    extension. *)
Theorem assessment_lifts fsum weights crosswalk dr id s controls metrics refs persist f a f' repo anchor when rt data :
  assess fsum weights crosswalk dr id s controls metrics refs persist f = Ok (a, f') -> rating a = PStr rt ->
  read_bytes (cell_source_path anchor) = Ok data ->
  exists o1 o2 x1 x2,
    scr_to_observations (PDict (proof_artifact a)) repo anchor when =
      Ok [PDict [("observation", PDict o1); ("gbrg_extension", PDict x1)];
          PDict [("observation", PDict o2); ("gbrg_extension", PDict x2)]] /\
    assoc "value" o1 = Some (PStr (fmt_g 6 (py_round 6 (residualScore a)))) /\ assoc "value" o2 = Some (PStr rt) /\
    assoc "gbrgnrg:riskClass" x1 = Some (PStr (a_verdict a)) /\ assoc "gbrgnrg:riskClass" x2 = Some (PStr (a_verdict a)).
Proof.
  intros E Hr Hd. apply assess_level in E. destruct (known_level _ E) as [c Hc].
  pose proof (kri_bands_keys (kriEvaluations a)) as Hb.
  assert (_scr_metric_value "rating" (PDict (proof_artifact a)) = Ok rt) as Hrt
    by (change (Ok (py_str (rating a)) = Ok rt); by rewrite Hr).
  set (path := cell_source_path anchor) in *. set (blob := sha1_hex ("blob " +:+ pretty (String.length data) +:+ String zero data)).
  destruct (scr_envelope_Ok a rt (a_level a) (riskScope a) _ (_sanitize_id (subjectId a)) anchor repo path blob c when
    "residualScore" _ Hr eq_refl Hb) as (o1 & x1 & E1 & Hv1 & Hx1).
  destruct (scr_envelope_Ok a rt (a_level a) (riskScope a) _ (_sanitize_id (subjectId a)) anchor repo path blob c when
    "rating" rt Hr Hrt Hb) as (o2 & x2 & E2 & Hv2 & Hx2).
  exists o1, o2, x1, x2. split; [|exact (conj Hv1 (conj Hv2 (conj Hx1 Hx2)))].
  change (scr_to_observations (PDict (proof_artifact a)) repo anchor when) with
    (confidence ← epistemic_to_confidence (PStr (a_level a));
     source_blob ← git_blob_sha path;
     bands ← res_map kri_band (map kri_json (kriEvaluations a));
     res_map (scr_envelope (PDict (proof_artifact a)) (PStr (a_level a)) (PStr (riskScope a)) (PList bands)
       (_sanitize_id (subjectId a)) anchor repo path source_blob confidence when) _SCR_METRICS).
  rewrite Hc, kri_bands_Ok. unfold git_blob_sha. rewrite Hd. cbn [mbind res_bind res_map _SCR_METRICS].
  fold blob. rewrite E1, E2. reflexivity.
Qed.
End lift.

(** ** Witnesses *)

Section witnesses.
#[local] Existing Instance demo_float_repr.

Definition demo_files (path : string) : res string :=
  if String.eqb path "gbrg/build.rs" then Ok "fn main() {}" else Raise (FileNotFound path).

Example source_path_ex :
  (cell_source_path "code://rust/crates/core/src/lib.rs#f", _sanitize_id "--code://rust/a b#f()") =
  ("gbrg/crates/core/src/lib.rs", "code-//rust/a-b-f").
Proof. vm_compute. reflexivity. Qed.

(** The identifier [git hash-object] prints for these bytes. *)
Example blob_ex : git_blob_sha demo_files "gbrg/build.rs" = Ok "e71fdf55421d043f171eba8c32329338498cad17".
Proof. vm_compute. reflexivity. Qed.

(** An artifact that smuggles a decision into a field that is copied. *)
Definition smuggled : pyval := PDict [
  ("cell_id", PStr "code://rust/build.rs#main"); ("claim", PDict [("epistemicLevel", PStr "proved")]);
  ("dependents_count", PInt 3); ("test_coverage_reach", PBool true); ("churn", half);
  ("status", PDict [("x:allow", PBool true)])].

Example smuggled_ex :
  proof_to_observations demo_files smuggled "org/repo" "2026-01-01T00:00:00Z" =
  Raise (AssertionError ("evidence-only invariant violated: authorization key 'x:allow' at $.gbrg_extension.gbrgnrg:status" +:+
                         ". GBRG emits evidence, never a decision.")).
Proof. vm_compute. reflexivity. Qed.

Definition clean : pyval := PDict [
  ("cell_id", PStr "code://rust/build.rs#main"); ("claim", PDict [("epistemicLevel", PStr "proved")]);
  ("dependents_count", PInt 3); ("test_coverage_reach", PBool true); ("churn", half); ("verdict", PStr "VERIFIES")].

Lemma plane_never_authorizes_witness :
  exists env, emitted demo_files env /\ Forall (fun k => forbidden_key k = false) (all_keys env).
Proof.
  destruct (res_view (@length pyval) (proof_to_observations demo_files clean "org/repo" "2026-01-01T00:00:00Z") 3)
    as (envs & E & Hn); [vm_compute; reflexivity|].
  destruct envs as [|env envs]; [discriminate Hn|]. exists env.
  assert (emitted demo_files env) as He by (apply (by_proof _ _ _ _ _ _ E); by left).
  split; [exact He|exact (plane_never_authorizes _ _ He)].
Defined.

Lemma assessment_lifts_witness :
  exists a f' e1 e2,
    assess demo_sum demo_weights demo_crosswalk demo_seal "code://rust/build.rs#main" demo_node [] [] [] false None = Ok (a, f') /\
    scr_to_observations demo_files (PDict (proof_artifact a)) "org/repo" "code://rust/build.rs#main" "2026-01-01T00:00:00Z" = Ok [e1; e2].
Proof.
  destruct (res_view (fun af => rating af.1)
    (assess demo_sum demo_weights demo_crosswalk demo_seal "code://rust/build.rs#main" demo_node [] [] [] false None) (PStr "Medium"))
    as ([a f'] & E & Hr); [vm_compute; reflexivity|].
  destruct (assessment_lifts demo_files demo_sum demo_weights demo_crosswalk demo_seal "code://rust/build.rs#main" demo_node [] [] []
    false None a f' "org/repo" "code://rust/build.rs#main" "2026-01-01T00:00:00Z" "Medium" "fn main() {}" E Hr)
    as (o1 & o2 & x1 & x2 & Hl & _); [vm_compute; reflexivity|].
  eexists a, f', _, _. split; [exact E|exact Hl].
Defined.
End witnesses.
