(* ===== verification/OmniriskAllocation.v ===== *)
(** * Risk allocation trees

    Models [gbrg/governance/omnirisk_allocation.py]: the walk that aggregates a
    tree of risk nodes and collects violations, the reconciliation of cuts, the
    verdict and its seal.

    The rounding of [sum] over floats, the clock and the random id are arguments.
    So is the order in which the set of incompatible term regimes is iterated,
    which depends on the hash seed of the process.  Tenors are texts.  Two NaN
    count as one member of a set: they are the one object the JSON reader makes. *)

From Stdlib Require Import SpecFloat.
From S2P Require Import Prelude PyVal FloatOrder Json PyText Sha256 Ledger Gate McpGate SupplyChainRisk.
Local Open Scope string_scope.

Definition OMNI_AGENT_REF : string := "agent-registry://gbrg/omnirisk-allocation-walker".
Definition CONTRACT_URN : string := "gbrg.omnirisk-allocation.v0".
Definition KERNEL_RISK_REF : string :=
  "economic-prophet@feat/risk-adjusted-profit-raroc:src/open_ep_framework/risk_measures.py".
Definition KERNEL_RAROC_REF : string :=
  "economic-prophet@feat/risk-adjusted-profit-raroc:src/open_ep_framework/risk_adjusted_profit.py".
Definition KERNEL_REGIME_REF : string := "economic-prophet:memory-regime-characterizer(in-flight)".

Definition NONCOHERENT_MEASURES : list string := ["var"; "sharpe"; "stddev"].
Definition MIN_SAMPLES : Z := 30.
Definition TOL : spec_float := F64.of_dec 1 6.
Definition TOL4 : spec_float := F64.of_dec 1 4.
Definition ASSET_CLASSES : list string := ["credit"; "equity"; "market"].
Definition REQUIRED_REGIME_KEYS : list string := ["memory_regime"; "market_regime"].
Definition _TERM_REGIME_INCOMPATIBLE : list (string * string) := [("inverted", "upward"); ("mean_reverting", "persistent")].

(** [OmniriskContractError], which other code tells apart from its base class. *)
Definition contract_error (msg : string) : exn := ContractError msg.

(** The sets of a roll-up are lists of their members. *)
Record NodeAgg := mkAgg {
  g_ref : pyval;
  g_ec : spec_float;
  g_standalone : spec_float;
  g_value : spec_float;
  g_principal : spec_float;
  g_duration : spec_float;
  g_convexity : spec_float;
  g_average_life : spec_float;
  g_rar : spec_float;
  g_provisional : bool;
  g_measures : list pyval;
  g_alphas : list spec_float;
  g_horizons : list spec_float;
  g_term_regimes : list pyval;
  g_tenors : list pyval;
  g_leaf_durations : list spec_float
}.

(** Members of a set of floats: zero has one sign, NaN is one object. *)
Definition same_member (a b : spec_float) : bool := F64.eqb a b || (is_nan a && is_nan b).

Fixpoint float_set (l : list spec_float) : list spec_float :=
  match l with
  | [] => []
  | x :: l => let s := float_set l in if existsb (same_member x) s then s else x :: s
  end.

Definition nonzero (f : spec_float) : bool := match f with S754_zero _ => false | _ => true end.

Definition fabs (x : spec_float) : spec_float := SFabs x.

(** [abs(a - b) > tol]. *)
Definition apart (tol a b : spec_float) : bool := F64.ltb tol (fabs (F64.sub a b)).

Section walker.
Context `{FloatRepr}.
Variable fsum : list spec_float -> spec_float.
Variable incompatible : list (string * string).

(** ** Labels *)

Definition node_ref_of (node : pyval) : res pyval := py_get node "node_ref" (PStr "<unknown>").

Definition label_of (node : pyval) (k : string) : res pyval :=
  label ← py_get node "label" (PDict []); py_get label k PNone.

Definition validate_regime (node : pyval) : res (list string) :=
  ref ← node_ref_of node;
  regime ← label_of node "regime";
  match regime with
  | PDict (kv :: d) =>
    match List.filter (fun k => negb (assoc_mem k (kv :: d))) REQUIRED_REGIME_KEYS with
    | [] => Ok []
    | missing => Ok ["REJECTED: node " +:+ py_repr ref +:+ " regime label missing keys " +:+ py_repr (PList (map PStr missing))]
    end
  | _ => Ok ["REJECTED: node " +:+ py_repr ref +:+ " is missing its regime label"]
  end.

(** [0.0 <= attach < detach <= 1.0]. *)
Definition coherent_tranche (attach detach : pyval) : res bool :=
  a ← py_le (PFloat F64.zero) attach;
  if negb a then Ok false else
  b ← py_lt attach detach;
  if negb b then Ok false else py_le detach (PFloat F1).

Definition validate_structure (node : pyval) : res (list string) :=
  ref ← node_ref_of node;
  structure ← label_of node "structure";
  if negb (truthy structure) then Ok [] else
  kind ← py_get structure "kind" PNone;
  if negb (eq_str kind "tranche") then Ok [] else
  attach ← py_get structure "attach" PNone;
  detach ← py_get structure "detach" PNone;
  match attach, detach with
  | PNone, _ | _, PNone => Ok ["REJECTED: tranche node " +:+ py_repr ref +:+ " missing attach/detach"]
  | _, _ =>
    ok ← coherent_tranche attach detach;
    Ok (if ok : bool then []
        else ["REJECTED: tranche node " +:+ py_repr ref +:+ " incoherent structure attach=" +:+ py_str attach +:+ " detach=" +:+
              py_str detach +:+ " (require 0<=attach<detach<=1)"])
  end.

Definition _asset_class_ok (node : pyval) : res (list string) :=
  ref ← node_ref_of node;
  ac ← label_of node "asset_class";
  if negb (hashable ac) then Raise TypeError else
  Ok (if existsb (eq_str ac) ASSET_CLASSES then []
      else ["REJECTED: node " +:+ py_repr ref +:+ " asset_class " +:+ py_repr ac +:+ " not in " +:+
            py_repr (PList (map PStr (py_sort String.ltb ASSET_CLASSES)))]).

(** ** Leaves *)

Definition get_float (d : pyval) (k : string) (dflt : pyval) : res spec_float := v ← py_get d k dflt; py_float v.

Definition opt_member (v : pyval) : res (list pyval) :=
  if negb (truthy v) then Ok [] else if hashable v then Ok [v] else Raise TypeError.

Definition _leaf_agg (node : pyval) : res (NodeAgg * list string) :=
  r ← py_get node "risk" (PDict []);
  t ← py_get node "term" (PDict []);
  ref ← py_item node "node_ref";
  ns ← py_get r "n_samples" (PInt 0); n ← py_int_of ns;
  measure ← py_get r "measure" (PStr "expected_shortfall");
  ecap ← py_get r "economic_capital" (PFloat F64.zero);
  ec ← get_float r "component_contribution" ecap;
  standalone ← get_float r "standalone_capital" (PFloat ec);
  duration ← get_float t "duration" (PFloat F64.zero);
  value ← get_float t "value" (PFloat F64.zero);
  principal ← get_float t "principal" (PFloat F64.zero);
  convexity ← get_float t "convexity" (PFloat F64.zero);
  life ← get_float t "average_life" (PFloat F64.zero);
  rar ← get_float r "risk_adjusted_return" (PFloat F64.zero);
  prov ← py_get r "provisional" (PBool (n <? MIN_SAMPLES)%Z);
  if negb (hashable measure) then Raise TypeError else
  alpha ← get_float r "alpha" (PFloat F64.zero);
  horizon ← get_float r "horizon" (PFloat F1);
  tr ← py_get t "term_regime" PNone; regimes ← opt_member tr;
  tb ← py_get t "tenor_bucket" PNone; tenors ← opt_member tb;
  Ok (mkAgg ref ec standalone value principal duration convexity life rar (truthy prov) [measure] [alpha] [horizon]
        regimes tenors [duration],
      if F64.ltb (F64.add standalone TOL) ec then
        ["REJECTED: leaf " +:+ py_repr ref +:+ " component contribution " +:+ py_repr (PFloat ec) +:+ " exceeds its own " +:+
         "standalone capital " +:+ py_repr (PFloat standalone) +:+ " — super-additive; a coherent measure's " +:+
         "marginal contribution can never exceed standalone (bad diversification model)"]
      else []).

(** ** One node over its children *)

Definition float_list (l : list spec_float) : string := py_repr (PList (map PFloat (py_sort F64.ltb l))).

Definition mixed_basis (children : list NodeAgg) : bool :=
  Nat.ltb 1 (length (List.filter nonzero (float_set (concat (map g_alphas children))))) ||
  Nat.ltb 1 (length (float_set (concat (map g_horizons children)))).

Definition has_regime (children : list NodeAgg) (name : string) : bool :=
  existsb (fun v => eq_str v name) (concat (map g_term_regimes children)).

Definition term_clash (node_ref : pyval) (children : list NodeAgg) (p : string * string) : option string :=
  if has_regime children p.1 && has_regime children p.2 then
    Some ("REJECTED: node " +:+ py_repr node_ref +:+ " aggregates incompatible term regimes " +:+
          py_repr (PList [PStr p.1; PStr p.2]) +:+ " without an explicit rescale")
  else None.

Definition text_set (l : list pyval) : res (list string) := t ← all_texts l; Ok (remove_dups t).

Definition _check_homogeneity (node_ref : pyval) (children : list NodeAgg) (rescale : bool) : res (list string) :=
  if rescale then Ok [] else
  let alphas := float_set (concat (map g_alphas children)) in
  let horizons := float_set (concat (map g_horizons children)) in
  tenors ← text_set (concat (map g_tenors children));
  Ok ((if mixed_basis children then
         ["REJECTED: node " +:+ py_repr node_ref +:+ " aggregates incompatible confidence/horizon (alphas=" +:+
          float_list (List.filter nonzero alphas) +:+ ", horizons=" +:+ float_list horizons +:+ ") without an explicit rescale"]
       else []) ++
      omap (term_clash node_ref children) incompatible ++
      (if Nat.ltb 1 (length tenors) then
         ["REJECTED: node " +:+ py_repr node_ref +:+ " aggregates mixed tenors " +:+
          py_repr (PList (map PStr (py_sort String.ltb tenors))) +:+ " without an explicit rescale"]
       else []))%list.

Definition fmin (a b : spec_float) : spec_float := if F64.ltb b a then b else a.

Definition _check_weighted (ref : pyval) (name : string) (declared computed : spec_float) (bound_inputs : option (list spec_float)) :
    list string :=
  let average :=
    if apart TOL4 declared computed then
      ["REJECTED: node " +:+ py_repr ref +:+ " declared " +:+ name +:+ " " +:+ py_repr (PFloat declared) +:+ " != value-weighted aggregate " +:+
       fmt_fixed 6 computed]
    else [] in
  match bound_inputs with
  | Some (x :: xs) =>
    let lo := foldl fmin x xs in
    let hi := foldl F64.max x xs in
    if F64.ltb declared (F64.sub lo TOL) || F64.ltb (F64.add hi TOL) declared then
      ["REJECTED: node " +:+ py_repr ref +:+ " " +:+ name +:+ " " +:+ py_repr (PFloat declared) +:+ " is outside its children's [" +:+
       py_repr (PFloat lo) +:+ ", " +:+ py_repr (PFloat hi) +:+ "] (a weighted average is bounded by its inputs)"]
    else average
  | _ => average
  end.

(** A declared sensitivity, when there is one. *)
Definition check_declared (ref term : pyval) (name : string) (computed : spec_float) (bound_inputs : option (list spec_float)) :
    res (list string) :=
  present ← py_in name term;
  if present : bool then d ← py_item term name; f ← py_float d; Ok (_check_weighted ref name f computed bound_inputs) else Ok [].

Definition noncoherent (override : bool) (ref child : pyval) : res (list string) :=
  risk ← py_get child "risk" (PDict []); measure ← py_get risk "measure" PNone;
  if negb (hashable measure) then Raise TypeError else
  Ok (if existsb (eq_str measure) NONCOHERENT_MEASURES && negb override then
        ["REJECTED: node " +:+ py_repr ref +:+ " allocates over non-coherent measure " +:+ py_repr measure +:+
         " without incoherence_override"]
      else []).

Definition weighted_average (weight sens : NodeAgg -> spec_float) (cs : list NodeAgg) : spec_float :=
  let total := fsum (map weight cs) in
  if F64.ltb F64.zero total then F64.div (fsum (map (fun c => F64.mul (weight c) (sens c)) cs)) total else F64.zero.

Definition conserved (ref declared : pyval) (computed_ec : spec_float) : res (list string) :=
  present ← py_in "economic_capital" declared;
  if present : bool then
    v ← py_item declared "economic_capital"; f ← py_float v;
    Ok (if apart TOL f computed_ec then
          ["REJECTED: node " +:+ py_repr ref +:+ " declared EC " +:+ py_str v +:+ " != sum of child contributions " +:+
           fmt_fixed 6 computed_ec +:+ " (conservation violation)"]
        else [])
  else Ok [].

(** The roll-up of the children and what it violates. *)
Definition roll_up (allow_provisional : bool) (node ref : pyval) (cs : list NodeAgg) : res (NodeAgg * list string) :=
  let ec := fsum (map g_ec cs) in
  let standalone := fsum (map g_standalone cs) in
  let rar := fsum (map g_rar cs) in
  let duration := weighted_average g_value g_duration cs in
  let convexity := weighted_average g_value g_convexity cs in
  let wal := weighted_average g_principal g_average_life cs in
  let leaf_durations := concat (map g_leaf_durations cs) in
  declared ← py_get node "risk" (PDict []);
  conservation ← conserved ref declared ec;
  term ← py_get node "term" (PDict []);
  vd ← check_declared ref term "duration" duration (Some leaf_durations);
  vc ← check_declared ref term "convexity" convexity None;
  vl ← check_declared ref term "average_life" wal None;
  let child_provisional := existsb g_provisional cs in
  p ← py_get declared "provisional" (PBool false);
  let node_provisional := truthy p in
  Ok (mkAgg ref ec standalone (fsum (map g_value cs)) (fsum (map g_principal cs)) duration convexity wal rar
        (child_provisional || node_provisional) (concat (map g_measures cs)) (float_set (concat (map g_alphas cs)))
        (float_set (concat (map g_horizons cs))) (concat (map g_term_regimes cs)) (concat (map g_tenors cs)) leaf_durations,
      ((if F64.ltb (F64.add standalone TOL) ec then
          ["REJECTED: node " +:+ py_repr ref +:+ " aggregate EC " +:+ fmt_fixed 6 ec +:+ " EXCEEDS the sum of standalone risks " +:+
           fmt_fixed 6 standalone +:+ " — super-additive; a coherent measure cannot do this (bad diversification model)"]
        else []) ++ conservation ++ vd ++ vc ++ vl ++
       (if child_provisional && negb node_provisional && negb allow_provisional then
          ["REJECTED: node " +:+ py_repr ref +:+ " silently rolls a provisional (n<" +:+ pretty MIN_SAMPLES +:+
           ") child into a non-provisional total (mark it provisional or set allow_provisional)"]
        else []))%list).

(** ** The walk *)

Section tree.
Variables (incoherence_override allow_provisional rescale : bool).

Fixpoint walk (node : pyval) {struct node} : res (NodeAgg * list string) :=
  let walk_children :=
    match node with
    | PDict d =>
      (fix find (d : list (string * pyval)) : res (list (NodeAgg * list string)) :=
         match d with
         | [] => Ok []
         | (k, v) :: d =>
           if String.eqb k "children" then
             match v with
             | PList l =>
               (fix each (l : list pyval) : res (list (NodeAgg * list string)) :=
                  match l with
                  | [] => Ok []
                  | c :: l => a ← walk c; r ← each l; Ok (a :: r)
                  end) l
             | _ => Ok []
             end
           else find d
         end) d
    | _ => Ok []
    end in
  ref ← py_get node "node_ref" PNone;
  if negb (truthy ref) then Raise (contract_error "every node requires a node_ref") else
  v1 ← validate_regime node;
  v2 ← _asset_class_ok node;
  v3 ← validate_structure node;
  children ← py_get node "children" PNone;
  if negb (truthy children) then leaf ← _leaf_agg node; Ok (leaf.1, v1 ++ v2 ++ v3 ++ leaf.2)%list else
  items ← py_iter children;
  gates ← res_map (noncoherent incoherence_override ref) items;
  walked ← walk_children;
  homogeneity ← _check_homogeneity ref walked.*1 rescale;
  up ← roll_up allow_provisional node ref walked.*1;
  Ok (up.1, v1 ++ v2 ++ v3 ++ concat gates ++ concat walked.*2 ++ homogeneity ++ up.2)%list.

(** ** The cuts *)

Definition walk_cuts (cuts : dict) : res (list (string * NodeAgg) * list string) :=
  walked ← res_map (fun nr : string * pyval => a ← walk nr.2; Ok (nr.1, (a.1, a.2))) cuts;
  Ok (map (fun w : string * (NodeAgg * list string) => (w.1, w.2.1)) walked,
      concat (map (fun w : string * (NodeAgg * list string) => w.2.2) walked)).
End tree.

Definition totals : list (string * (NodeAgg -> spec_float)) :=
  [("ec", g_ec); ("value", g_value); ("principal", g_principal); ("duration", g_duration); ("convexity", g_convexity);
   ("average_life", g_average_life)].

Definition disagreement (base_name : string) (base : NodeAgg) (other_name : string) (other : NodeAgg)
    (attr : string * (NodeAgg -> spec_float)) : option string :=
  let (a, b) := (attr.2 base, attr.2 other) in
  if apart TOL4 a b then
    Some ("REJECTED: cut '" +:+ base_name +:+ "' and cut '" +:+ other_name +:+ "' disagree on bank total " +:+ attr.1 +:+ " (" +:+
          fmt_fixed 6 a +:+ " != " +:+ fmt_fixed 6 b +:+ ") — allocation is not cut-invariant")
  else None.

Definition reconcile_cuts (cut_aggs : list (string * NodeAgg)) : list string :=
  match cut_aggs with
  | (n0, base) :: rest => concat (map (fun no : string * NodeAgg => omap (disagreement n0 base no.1 no.2) totals) rest)
  | [] => []
  end.

Definition economic_profit (rar hurdle ec : spec_float) : spec_float := F64.sub rar (F64.mul hurdle ec).
Definition raroc (rar ec : spec_float) : spec_float := if nonzero ec then F64.div rar ec else F64.inf.

(** ** The verdict *)

Record AllocationVerdict := mkAllocation {
  tree_id : pyval;
  al_verdict : string;
  al_status : string;
  al_level : string;
  al_reason : string;
  bank_total_ec : spec_float;
  bank_raroc : option spec_float;
  bank_economic_profit : spec_float;
  cut_invariant : bool;
  al_violations : list string;
  proof_id : string;
  al_receipt : string
}.

Definition allocation_artifact (v : AllocationVerdict) : dict :=
  [("schemaVersion", PStr "gbrg.omnirisk-allocation-proof-artifact.v0"); ("version", PStr "1.0.0");
   ("proofId", PStr (proof_id v)); ("treeId", tree_id v);
   ("claim", PDict [
     ("claimId", PStr ("claim.omnirisk-allocation." +:+ py_str (tree_id v)));
     ("claimType", PStr "omnirisk_capital_allocation");
     ("statement", PStr ("tree " +:+ py_repr (tree_id v) +:+ " bank EC " +:+ py_repr (PFloat (bank_total_ec v)) +:+ " (" +:+
        (if cut_invariant v then "cut-invariant" else "NOT cut-invariant") +:+ ") -> " +:+ al_verdict v));
     ("epistemicLevel", PStr (al_level v))]);
   ("status", PStr (al_status v)); ("verdict", PStr (al_verdict v)); ("reason", PStr (al_reason v));
   ("bankTotalEconomicCapital", PFloat (bank_total_ec v));
   ("bankRaroc", match bank_raroc v with Some r => PFloat r | None => PNone end);
   ("bankEconomicProfit", PFloat (bank_economic_profit v)); ("cutInvariant", PBool (cut_invariant v));
   ("violations", PList (map PStr (al_violations v)));
   ("consumes", PDict [("risk_kernel", PStr KERNEL_RISK_REF); ("raroc_kernel", PStr KERNEL_RAROC_REF);
                       ("memory_regime", PStr KERNEL_REGIME_REF)]);
   ("contractUrn", PStr CONTRACT_URN); ("declared_by", PStr OMNI_AGENT_REF)].

Definition project_allocation (violations : list string) (bank_raroc : option spec_float) (hurdle : spec_float) :
    string * string * string * string :=
  match violations, bank_raroc with
  | _ :: _, _ => (REJECTED, "FAILED", "rejected", "REJECTED: " +:+ str_join "; " violations)
  | [], Some r =>
    if F64.ltb r hurdle then
      (FLAGGED, "BLOCKED", "speculative",
       "FLAGGED value-destroying: bank RAROC " +:+ fmt_fixed 6 r +:+ " < hurdle " +:+ fmt_fixed 6 hurdle)
    else (VERIFIES, "PROVED", "empirical", "VERIFIES: conservation + coherence + cut-invariance hold; RAROC >= hurdle")
  | [], None => (VERIFIES, "PROVED", "empirical", "VERIFIES: conservation + coherence + cut-invariance hold; RAROC >= hurdle")
  end.

(** The ledger a caller names, or the default one, which [_ledger_exists] never
    finds. *)
Definition _ledger_exists (named : bool) (f : file) : bool :=
  named && match f with Some _ => true | None => false end.

Definition last_link (named : bool) (f : file) : res pyval :=
  records ← (if _ledger_exists named f then read_all f true else Ok []);
  match last records with
  | None => Ok (PStr GENESIS)
  | Some last => h ← py_get last "hash" PNone; if truthy h then Ok h else py_get last "receipt" PNone
  end.

Definition with_ids (v : AllocationVerdict) (id receipt : string) : AllocationVerdict :=
  mkAllocation (tree_id v) (al_verdict v) (al_status v) (al_level v) (al_reason v) (bank_total_ec v) (bank_raroc v)
    (bank_economic_profit v) (cut_invariant v) (al_violations v) id receipt.

Definition seal_allocation (dr : seal_draw) (result : AllocationVerdict) (named persist : bool) (f : file) :
    res (AllocationVerdict * file) :=
  let result := with_ids result ("proof-omni-" +:+ s_hex dr) (al_receipt result) in
  prev ← last_link named f;
  let core : dict :=
    [("type", PStr "OmniriskAllocationVerdict"); ("ts", PStr (s_ts dr)); ("prev_hash", prev);
     ("artifact", PDict (allocation_artifact result))] in
  let event_hash := _sha (PDict core) in
  let event : dict := (core ++ [("hash", PStr event_hash)])%list in
  Ok (with_ids result (proof_id result) event_hash, if persist then append (PDict event) f else f).

Definition flag (spec : pyval) (k : string) : res bool := v ← py_get spec k (PBool false); Ok (truthy v).

Definition evaluate_tree (dr : seal_draw) (spec : pyval) (named persist : bool) (f : file) : res (AllocationVerdict * file) :=
  id ← py_get spec "tree_id" (PStr "<unnamed>");
  cuts ← py_get spec "cuts" PNone;
  match cuts with
  | PDict (c :: cs) =>
    hurdle ← get_float spec "hurdle_rate" (PFloat F64.zero);
    incoherence_override ← flag spec "incoherence_override";
    allow_provisional ← flag spec "allow_provisional";
    rescale ← flag spec "rescale";
    walked ← walk_cuts incoherence_override allow_provisional rescale (c :: cs);
    let (cut_aggs, found) := (walked : list (string * NodeAgg) * list string) in
    let violations := (found ++ reconcile_cuts cut_aggs)%list in
    match cut_aggs with
    | (_, bank) :: _ =>
      let rr := if nonzero (g_ec bank) then Some (raroc (g_rar bank) (g_ec bank)) else None in
      let '(verdict, status, level, reason) := project_allocation violations rr hurdle in
      seal_allocation dr
        (mkAllocation id verdict status level reason (g_ec bank) rr (economic_profit (g_rar bank) hurdle (g_ec bank))
           (negb (existsb (substring_of "not cut-invariant") violations)) violations "" "") named persist f
    | [] => Raise IndexError
    end
  | _ => Raise (contract_error "tree requires a non-empty 'cuts' map")
  end.
End walker.

(** ** Sets of floats *)

(** Floats are one member of a set exactly when these agree. *)
Definition member_key (f : spec_float) : option (Z * Z * Z) := if is_nan f then None else Some (key f).

Lemma same_member_key a b : same_member a b = true <-> member_key a = member_key b.
Proof.
  unfold same_member, member_key, F64.eqb, SFeqb.
  destruct a as [s1|[]| |[] m1 e1], b as [s2|[]| |[] m2 e2]; simpl; try (split; done).
  all: change (Pos.compare_cont Eq) with Pos.compare.
  all: destruct (Z.compare_spec e1 e2), (Pos.compare_spec m1 m2); simpl; split; intros Hx; try done; try (injection Hx; lia);
    try (by subst).
Qed.

Lemma nonzero_key a b : member_key a = member_key b -> nonzero a = nonzero b.
Proof. destruct a as [s1|[]| |[] m1 e1], b as [s2|[]| |[] m2 e2]; done. Qed.

Lemma float_set_spec l :
  NoDup (map member_key (float_set l)) /\ (forall x, x ∈ float_set l -> x ∈ l) /\
  (forall x, x ∈ l -> exists y, y ∈ float_set l /\ member_key y = member_key x).
Proof.
  induction l as [|x l (Hnd & Hsub & Hcov)]; simpl; [split_and!; [constructor|done|by intros x ?%elem_of_nil]|].
  destruct (existsb (same_member x) (float_set l)) eqn:E.
  - apply existsb_exists in E as (y & Hy%list_elem_of_In & Hs%same_member_key). split_and!; [done|set_solver|].
    intros z [->|Hz]%elem_of_cons; [by exists y|auto].
  - split_and!.
    + simpl. apply NoDup_cons. split; [|done]. intros (y & Hk & Hy)%list_elem_of_fmap.
      assert (existsb (same_member x) (float_set l) = true); [|congruence].
      apply existsb_exists. exists y. split; [by apply list_elem_of_In|by apply same_member_key].
    + intros z [->|Hz]%elem_of_cons; set_solver.
    + intros z [->|Hz]%elem_of_cons; [exists x; split; [by left|done]|].
      destruct (Hcov z Hz) as (y & ? & ?). exists y. split; [by right|done].
Qed.

(** A set keeps at most one of the members that pass a test exactly when all
    that pass are the same. *)
Lemma float_set_one (test : spec_float -> bool) l :
  (forall a b, member_key a = member_key b -> test a = test b) ->
  Nat.ltb 1 (length (List.filter test (float_set l))) = false <->
  forall a b, a ∈ l -> b ∈ l -> test a = true -> test b = true -> member_key a = member_key b.
Proof.
  intros Ht. destruct (float_set_spec l) as (Hnd & Hsub & Hcov). rewrite Nat.ltb_ge.
  apply (NoDup_map_lfilter _ test) in Hnd. split.
  - intros Hl a b Ha Hb Hta Htb. destruct (Hcov a Ha) as (y & Hy & Ey), (Hcov b Hb) as (z & Hz & Ez).
    assert (y ∈ List.filter test (float_set l)) as Hy' by (apply elem_of_lfilter; by rewrite (Ht _ _ Ey)).
    assert (z ∈ List.filter test (float_set l)) as Hz' by (apply elem_of_lfilter; by rewrite (Ht _ _ Ez)).
    destruct (List.filter test (float_set l)) as [|w [|]]; simpl in Hl; [by apply elem_of_nil in Hy'| |lia].
    apply list_elem_of_singleton in Hy' as ->, Hz' as ->. congruence.
  - intros Hall. destruct (List.filter test (float_set l)) as [|y [|z rest]] eqn:E; simpl; try lia. exfalso.
    assert (y ∈ List.filter test (float_set l)) as [Hy Hty]%elem_of_lfilter by (rewrite E; by left).
    assert (z ∈ List.filter test (float_set l)) as [Hz Htz]%elem_of_lfilter by (rewrite E; right; by left).
    simpl in Hnd. apply NoDup_cons in Hnd as [Hn _]. apply Hn.
    rewrite (Hall y z (Hsub _ Hy) (Hsub _ Hz) Hty Htz). by left.
Qed.

(** ** The laws *)

Section laws.
Context `{FloatRepr}.
Variable fsum : list spec_float -> spec_float.
Variable incompatible : list (string * string).
Variables (override allow_provisional rescale : bool).

(** The labels every node carries. *)
Definition regime_ok (node : pyval) : Prop :=
  exists regime, label_of node "regime" = Ok (PDict regime) /\
    Forall (fun k => assoc_mem k regime = true) REQUIRED_REGIME_KEYS.

Definition class_ok (node : pyval) : Prop :=
  exists ac, label_of node "asset_class" = Ok (PStr ac) /\ ac ∈ ASSET_CLASSES.

Definition structure_ok (node : pyval) : Prop :=
  forall d, label_of node "structure" = Ok (PDict d) -> assoc "kind" d = Some (PStr "tranche") ->
    exists attach detach, assoc "attach" d = Some attach /\ assoc "detach" d = Some detach /\
      coherent_tranche attach detach = Ok true.

Definition labelled (node : pyval) : Prop := regime_ok node /\ class_ok node /\ structure_ok node.

Definition measure_ok (child : pyval) : Prop :=
  override = true \/ forall risk m, py_get child "risk" (PDict []) = Ok risk -> py_get risk "measure" PNone = Ok (PStr m) ->
    m ∉ NONCOHERENT_MEASURES.

(** Children that can be added up: one confidence level (zero is none), one
    horizon, one tenor and no incompatible term regimes. *)
Definition homogeneous (cs : list NodeAgg) : Prop :=
  (forall a b, a ∈ concat (map g_alphas cs) -> b ∈ concat (map g_alphas cs) -> nonzero a = true -> nonzero b = true ->
     member_key a = member_key b) /\
  (forall a b, a ∈ concat (map g_horizons cs) -> b ∈ concat (map g_horizons cs) -> member_key a = member_key b) /\
  (forall p, p ∈ incompatible ->
     ~ (PStr p.1 ∈ concat (map g_term_regimes cs) /\ PStr p.2 ∈ concat (map g_term_regimes cs))) /\
  (forall s t, PStr s ∈ concat (map g_tenors cs) -> PStr t ∈ concat (map g_tenors cs) -> s = t).

(** A declared value, and the law it has to obey. *)
Definition declared_obeys (doc : pyval) (name : string) (law : spec_float -> Prop) : Prop :=
  forall d v f, doc = PDict d -> assoc name d = Some v -> py_float v = Ok f -> law f.

Definition bounded_by (inputs : list spec_float) (f : spec_float) : Prop :=
  match inputs with
  | [] => True
  | x :: xs => F64.ltb f (F64.sub (foldl fmin x xs) TOL) = false /\ F64.ltb (F64.add (foldl F64.max x xs) TOL) f = false
  end.

Definition average_ok (computed f : spec_float) : Prop := apart TOL4 f computed = false.

(** The risk, the term and the sensitivities of a node over its children. *)
Definition roll_up_ok (node : pyval) (agg : NodeAgg) (cs : list NodeAgg) : Prop :=
  exists risk term,
    py_get node "risk" (PDict []) = Ok risk /\ py_get node "term" (PDict []) = Ok term /\
    F64.ltb (F64.add (g_standalone agg) TOL) (g_ec agg) = false /\
    declared_obeys risk "economic_capital" (fun f => apart TOL f (g_ec agg) = false) /\
    declared_obeys term "duration" (fun f => bounded_by (g_leaf_durations agg) f /\ average_ok (g_duration agg) f) /\
    declared_obeys term "convexity" (average_ok (g_convexity agg)) /\
    declared_obeys term "average_life" (average_ok (g_average_life agg)) /\
    (existsb g_provisional cs = true -> allow_provisional = true \/
       exists p, py_get risk "provisional" (PBool false) = Ok p /\ truthy p = true).

Inductive lawful : pyval -> NodeAgg -> Prop :=
| lawful_leaf node agg vs children :
    labelled node -> py_get node "children" PNone = Ok children -> truthy children = false ->
    _leaf_agg node = Ok (agg, vs) -> F64.ltb (F64.add (g_standalone agg) TOL) (g_ec agg) = false -> lawful node agg
| lawful_node node ref agg vs l cs :
    labelled node -> py_get node "children" PNone = Ok (PList l) -> l <> [] ->
    Forall measure_ok l -> Forall2 lawful l cs -> (rescale = false -> homogeneous cs) ->
    py_get node "node_ref" PNone = Ok ref -> roll_up fsum allow_provisional node ref cs = Ok (agg, vs) ->
    roll_up_ok node agg cs -> lawful node agg.

Lemma existsb_text v l : existsb (eq_str v) l = true <-> exists t, v = PStr t /\ t ∈ l.
Proof.
  rewrite existsb_exists. split.
  - intros (t & Ht%list_elem_of_In & ->%eq_str_true). eauto.
  - intros (t & -> & Ht%list_elem_of_In). exists t. split; [done|]. apply String.eqb_refl.
Qed.

(** *** Each check reports exactly the nodes that break its law *)

Lemma regime_law node vs : validate_regime node = Ok vs -> vs = [] <-> regime_ok node.
Proof.
  unfold validate_regime, regime_ok. intros E. apply bind_Ok_inv in E as (ref & _ & E).
  apply bind_Ok_inv in E as (regime & -> & E).
  assert (forall r : dict, List.filter (fun k => negb (assoc_mem k r)) REQUIRED_REGIME_KEYS = [] <->
    Forall (fun k => assoc_mem k r = true) REQUIRED_REGIME_KEYS) as Hf.
  { intros r. unfold REQUIRED_REGIME_KEYS. simpl. rewrite !Forall_cons. do 2 destruct (assoc_mem _ r); simpl; naive_solver. }
  destruct regime as [| | | | | |[|kv d]];
    try (injection E as <-; split; [done|intros (r & [= <-] & Hr); by apply Hf in Hr]);
    try (injection E as <-; split; [done|naive_solver]).
  specialize (Hf (kv :: d)). destruct (List.filter _ _) as [|m ms]; injection E as <-.
  - split; [|done]. intros _. exists (kv :: d). naive_solver.
  - split; [done|]. intros (r & [= <-] & Hr). by apply Hf in Hr.
Qed.

Lemma class_law node vs : _asset_class_ok node = Ok vs -> vs = [] <-> class_ok node.
Proof.
  unfold _asset_class_ok, class_ok. intros E. apply bind_Ok_inv in E as (ref & _ & E).
  apply bind_Ok_inv in E as (ac & -> & E). destruct (hashable ac); [|discriminate E]. cbn [negb] in E.
  destruct (existsb (eq_str ac) ASSET_CLASSES) eqn:Ea; injection E as <-.
  - apply existsb_text in Ea as (t & -> & Ht). split; [intros _; by exists t|reflexivity].
  - split; [done|]. intros (t & [= ->] & Ht). rewrite (proj2 (existsb_text (PStr t) _)) in Ea; [done|eauto].
Qed.

Lemma tranche_given a b : coherent_tranche a b = Ok true -> a <> PNone /\ b <> PNone.
Proof.
  unfold coherent_tranche. intros E. apply bind_Ok_inv in E as ([] & Ea & E); [|done].
  apply bind_Ok_inv in E as ([] & Eb & E); [|done]. split; intros ->; [done|]. by destruct a.
Qed.

Lemma tranche_law A B (m1 m2 : string) vs :
  match A, B with
  | PNone, _ | _, PNone => Ok [m1]
  | _, _ => ok ← coherent_tranche A B; Ok (if ok : bool then [] else [m2])
  end = Ok vs -> vs = [] <-> coherent_tranche A B = Ok true.
Proof.
  destruct A; [|destruct B..]; intros E;
    first [injection E as <-; split; [done|]; intros [? ?]%tranche_given; congruence
          |apply bind_Ok_inv in E as ([] & -> & [= <-]); split; congruence].
Qed.

Lemma structure_law node vs : validate_structure node = Ok vs -> vs = [] <-> structure_ok node.
Proof.
  unfold validate_structure, structure_ok. intros E. apply bind_Ok_inv in E as (ref & _ & E).
  apply bind_Ok_inv in E as (structure & -> & E).
  destruct (truthy structure) eqn:Et; simpl in E.
  2: { injection E as <-. split; [|done]. intros _ d [= ->]. by destruct d. }
  apply bind_Ok_inv in E as (kind & Ek & E). destruct structure as [| | | | | |d]; try discriminate Ek. injection Ek as <-.
  destruct (eq_str _ "tranche") eqn:Ekind; simpl in E.
  2: { injection E as <-. split; [|done]. intros _ d' [= <-] Hk. rewrite Hk in Ekind. done. }
  apply eq_str_true in Ekind. destruct (assoc "kind" d) as [k|] eqn:Ek; [simpl in Ekind; subst k|discriminate Ekind].
  transitivity (exists a b, assoc "attach" d = Some a /\ assoc "detach" d = Some b /\ coherent_tranche a b = Ok true).
  2: { split; [by intros Hd d' [= <-] _|]. intros Hd. by apply (Hd d). }
  cbn [py_get mbind res_bind] in E. set (A := default PNone (assoc "attach" d)) in *. set (B := default PNone (assoc "detach" d)) in *.
  transitivity (coherent_tranche A B = Ok true).
  - by eapply tranche_law.
  - split.
    + intros Ht. destruct (tranche_given _ _ Ht) as [HA HB]. subst A B.
      destruct (assoc "attach" d) as [a|], (assoc "detach" d) as [b|]; [by exists a, b|by destruct HB|by destruct HA|by destruct HA].
    + intros (a & b & Ha & Hb & Ht). subst A B. by rewrite Ha, Hb.
Qed.

Lemma measure_law ref child vs : noncoherent override ref child = Ok vs -> vs = [] <-> measure_ok child.
Proof.
  unfold noncoherent, measure_ok. intros E. apply bind_Ok_inv in E as (risk & Er & E).
  apply bind_Ok_inv in E as (m & Em & E). destruct (hashable m); [|discriminate E]. cbn [negb] in E.
  destruct (existsb (eq_str m) NONCOHERENT_MEASURES) eqn:Ex, override; cbn [andb negb] in E; injection E as <-;
    try (split; [by left|done]).
  - split; [done|]. intros [?|Hm]; [done|]. apply existsb_text in Ex as (t & -> & Ht). by destruct (Hm _ _ Er Em).
  - split; [|done]. intros _. right. intros risk' t Er' Em'. rewrite Er in Er'. injection Er' as <-.
    rewrite Em in Em'. injection Em' as ->. intros Ht. rewrite (proj2 (existsb_text (PStr t) _)) in Ex; [done|eauto].
Qed.

Lemma measures_law ref l gates : res_map (noncoherent override ref) l = Ok gates -> concat gates = [] <-> Forall measure_ok l.
Proof.
  rewrite res_map_Ok_Forall2. induction 1 as [|c vs l gates Hc _ IH]; simpl; [by split; constructor|].
  rewrite Forall_cons, <- IH, <- (measure_law _ _ _ Hc). split; [by intros [-> ->]%app_eq_nil|by intros [-> ->]].
Qed.

Lemma has_regime_spec cs name : has_regime cs name = true <-> PStr name ∈ concat (map g_term_regimes cs).
Proof.
  unfold has_regime. rewrite existsb_exists. split.
  - intros (v & Hv%list_elem_of_In & ->%eq_str_true). done.
  - intros Hv. exists (PStr name). split; [by apply list_elem_of_In|]. apply String.eqb_refl.
Qed.

Lemma all_texts_elem l t : all_texts l = Ok t -> l = map PStr t.
Proof.
  revert t; induction l as [|v l IH]; intros t; simpl; [by intros [= <-]|].
  destruct v; try done. intros E. apply bind_Ok_inv in E as (t' & Et & [= <-]). simpl. by rewrite (IH _ Et).
Qed.

Lemma one_text l t : text_set l = Ok t ->
  Nat.ltb 1 (length t) = false <-> forall a b, PStr a ∈ l -> PStr b ∈ l -> a = b.
Proof.
  unfold text_set. intros E. apply bind_Ok_inv in E as (ts & Et & [= <-]). apply all_texts_elem in Et as ->.
  assert (forall x, PStr x ∈ map PStr ts <-> x ∈ remove_dups ts) as Hin.
  { intros x. rewrite elem_of_remove_dups. change (map PStr ts) with (PStr <$> ts). rewrite list_elem_of_fmap. naive_solver. }
  pose proof (NoDup_remove_dups ts) as Hnd. rewrite Nat.ltb_ge. setoid_rewrite Hin.
  destruct (remove_dups ts) as [|x [|y l]]; simpl.
  - split; [|lia]. intros _ a b ?%elem_of_nil. done.
  - split; [|lia]. intros _ a b ->%list_elem_of_singleton ->%list_elem_of_singleton. done.
  - split; [lia|]. intros Hall. apply NoDup_cons in Hnd as [Hx _]. exfalso. apply Hx.
    rewrite (Hall x y) by set_solver. by left.
Qed.

Lemma incompatible_law ref cs :
  omap (term_clash ref cs) incompatible = [] <->
  forall p, p ∈ incompatible ->
    ~ (PStr p.1 ∈ concat (map g_term_regimes cs) /\ PStr p.2 ∈ concat (map g_term_regimes cs)).
Proof.
  rewrite omap_nil, Forall_forall. apply forall_proper. intros p. unfold term_clash. rewrite <- !has_regime_spec.
  generalize (has_regime cs p.1) (has_regime cs p.2). intros [] []; cbn [andb]; naive_solver.
Qed.

Lemma homogeneity_law ref cs vs :
  _check_homogeneity incompatible ref cs rescale = Ok vs -> vs = [] <-> (rescale = false -> homogeneous cs).
Proof.
  unfold _check_homogeneity. destruct rescale; [by intros [= <-]|]. intros E.
  apply bind_Ok_inv in E as (ts & Et & [= <-]).
  transitivity (homogeneous cs); [|naive_solver]. unfold homogeneous. rewrite <- (one_text _ _ Et), <- (incompatible_law ref).
  rewrite <- (float_set_one nonzero _ nonzero_key).
  assert ((forall a b, a ∈ concat (map g_horizons cs) -> b ∈ concat (map g_horizons cs) -> member_key a = member_key b) <->
    Nat.ltb 1 (length (float_set (concat (map g_horizons cs)))) = false) as ->.
  { rewrite <- (List.filter_true (float_set _)), (float_set_one (fun _ => true)) by done. naive_solver. }
  unfold mixed_basis.
  destruct (Nat.ltb 1 (length (List.filter nonzero _))), (Nat.ltb 1 (length (float_set (concat (map g_horizons cs)))));
    cbn [orb]; try (split; [by intros ?|by intros (? & ? & _)]).
  rewrite app_nil_l. split.
  - intros [-> Hn]%app_eq_nil. by destruct (Nat.ltb 1 (length ts)).
  - by intros (_ & _ & -> & ->).
Qed.

(** A check on a declared value, run when the document has one. *)
Lemma declared_law doc name (check : pyval -> spec_float -> list string) (law : spec_float -> Prop) vs :
  (forall v f, check v f = [] <-> law f) ->
  (present ← py_in name doc; if present : bool then v ← py_item doc name; f ← py_float v; Ok (check v f) else Ok []) = Ok vs ->
  vs = [] <-> declared_obeys doc name law.
Proof.
  intros Hc E. apply bind_Ok_inv in E as ([] & Ep & E); unfold declared_obeys.
  - apply bind_Ok_inv in E as (v & Ev & E). apply bind_Ok_inv in E as (f & Ef & [= <-]). rewrite Hc.
    destruct doc as [| | | | | |d]; try discriminate Ev. simpl in Ev.
    destruct (assoc name d) as [w|] eqn:Ew; [injection Ev as ->|discriminate Ev]. split.
    + intros Hl d' v' f' [= <-]. rewrite Ew. intros [= <-]. rewrite Ef. by intros [= <-].
    + intros Hl. by apply (Hl d v f).
  - injection E as <-. split; [|done]. intros _ d v f -> Hv. simpl in Ep. unfold assoc_mem in Ep. by rewrite Hv in Ep.
Qed.

Lemma if_nil {A} (b : bool) (x : A) : (if b then [x] else []) = [] <-> b = false.
Proof. by destruct b. Qed.

Lemma conserved_law ref declared ec vs :
  conserved ref declared ec = Ok vs -> vs = [] <-> declared_obeys declared "economic_capital" (fun f => apart TOL f ec = false).
Proof.
  unfold conserved. apply (declared_law _ _ (fun v f => if apart TOL f ec then _ else [])). intros v f. apply if_nil.
Qed.

Lemma average_law ref term name computed vs :
  check_declared ref term name computed None = Ok vs -> vs = [] <-> declared_obeys term name (average_ok computed).
Proof.
  unfold check_declared. apply (declared_law _ _ (fun _ f => _check_weighted ref name f computed None)). intros v f. apply if_nil.
Qed.

Lemma duration_law ref term name computed inputs vs :
  check_declared ref term name computed (Some inputs) = Ok vs ->
  vs = [] <-> declared_obeys term name (fun f => bounded_by inputs f /\ average_ok computed f).
Proof.
  unfold check_declared. apply (declared_law _ _ (fun _ f => _check_weighted ref name f computed (Some inputs))).
  intros v f. unfold _check_weighted, bounded_by, average_ok.
  destruct inputs as [|x xs]; [rewrite if_nil; tauto|]. 
  generalize (F64.ltb f (F64.sub (foldl fmin x xs) TOL)) (F64.ltb (F64.add (foldl F64.max x xs) TOL) f). intros [] []; cbn [orb];
    rewrite ?if_nil; [split; [discriminate|intros [[??]?]; discriminate]..|tauto].
Qed.

Lemma roll_up_law node ref cs agg vs :
  roll_up fsum allow_provisional node ref cs = Ok (agg, vs) -> vs = [] <-> roll_up_ok node agg cs.
Proof.
  unfold roll_up. intros E. apply bind_Ok_inv in E as (risk & Er & E). apply bind_Ok_inv in E as (v1 & E1 & E).
  apply bind_Ok_inv in E as (term & Et & E). apply bind_Ok_inv in E as (v2 & E2 & E). apply bind_Ok_inv in E as (v3 & E3 & E).
  apply bind_Ok_inv in E as (v4 & E4 & E). apply bind_Ok_inv in E as (p & Ep & E). injection E as <- <-.
  apply conserved_law in E1. apply duration_law in E2. apply average_law in E3, E4.
  rewrite !app_nil, !if_nil, E1, E2, E3, E4. unfold roll_up_ok.
  cbn [g_standalone g_ec g_leaf_durations g_duration g_convexity g_average_life]. rewrite Er, Et.
  assert (existsb g_provisional cs && negb (truthy p) && negb allow_provisional = false <->
    (existsb g_provisional cs = true -> allow_provisional = true \/
      exists q, py_get risk "provisional" (PBool false) = Ok q /\ truthy q = true)) as ->.
  { rewrite Ep. destruct (existsb g_provisional cs), (truthy p) eqn:Etp, allow_provisional; simpl; naive_solver. }
  naive_solver.
Qed.

Lemma leaf_law node agg vs :
  _leaf_agg node = Ok (agg, vs) -> vs = [] <-> F64.ltb (F64.add (g_standalone agg) TOL) (g_ec agg) = false.
Proof.
  unfold _leaf_agg. intros E. do 16 apply bind_Ok_inv in E as (? & _ & E).
  destruct (hashable _); [|discriminate E]. cbn [negb] in E. do 6 apply bind_Ok_inv in E as (? & _ & E).
  injection E as <- <-. apply if_nil.
Qed.

#[local] Abbreviation walk_node := (walk fsum incompatible override allow_provisional rescale).

(** One step of the walk. *)
Lemma walk_inv node agg vs :
  walk_node node = Ok (agg, vs) ->
  exists d ref v1 v2 v3 children,
    node = PDict d /\ py_get node "node_ref" PNone = Ok ref /\ validate_regime node = Ok v1 /\ _asset_class_ok node = Ok v2 /\
    validate_structure node = Ok v3 /\ children = default PNone (assoc "children" d) /\
    ((truthy children = false /\ exists vl, _leaf_agg node = Ok (agg, vl) /\ vs = (v1 ++ v2 ++ v3 ++ vl)%list) \/
     exists l gates walked vh vr,
       assoc "children" d = Some (PList l) /\ l <> [] /\ res_map (noncoherent override ref) l = Ok gates /\
       res_map walk_node l = Ok walked /\ _check_homogeneity incompatible ref walked.*1 rescale = Ok vh /\
       roll_up fsum allow_provisional node ref walked.*1 = Ok (agg, vr) /\
       vs = (v1 ++ v2 ++ v3 ++ concat gates ++ concat walked.*2 ++ vh ++ vr)%list).
Proof.
  destruct node as [| | | | | |d]; try discriminate. cbn [walk].
  match goal with |- context [@mbind _ _ _ _ _ ?w] =>
    match type of w with res (list (NodeAgg * list string)) => set (walk_children := w) end end.
  assert (walk_children = match assoc "children" d with Some (PList l) => res_map walk_node l | _ => Ok [] end) as Hw.
  { subst walk_children. induction d as [|[k v] d IH]; [done|]. cbn [assoc].
    destruct (String.eqb k "children"); [|exact IH]. destruct v as [| | | | |l|]; try reflexivity. clear IH.
    induction l as [|c l IHl]; [done|]. cbn [res_map]. by rewrite <- IHl. }
  clearbody walk_children. intros E. apply bind_Ok_inv in E as (ref & Er & E).
  destruct (truthy ref); [|discriminate E]. cbn [negb] in E. apply bind_Ok_inv in E as (v1 & E1 & E).
  apply bind_Ok_inv in E as (v2 & E2 & E). apply bind_Ok_inv in E as (v3 & E3 & E).
  apply bind_Ok_inv in E as (children & [= <-] & E).
  exists d, ref, v1, v2, v3, (default PNone (assoc "children" d)). split_and!; [done..|].
  destruct (truthy (default PNone (assoc "children" d))) eqn:Et; cbn [negb] in E.
  - right. apply bind_Ok_inv in E as (items & Ei & E). apply bind_Ok_inv in E as (gates & Eg & E).
    destruct (assoc "children" d) as [c|]; [|discriminate Et]. cbn [default] in *.
    assert (exists l, c = PList l /\ l <> []) as (l & -> & Hl).
    { destruct c as [| | | |t|l|kvs]; try discriminate Ei; injection Ei as <-.
      - destruct t as [|x t]; discriminate.
      - exists l. split; [done|]. by intros ->.
      - destruct kvs as [|[k v] kvs]; discriminate. }
    injection Ei as <-. rewrite Hw in E. apply bind_Ok_inv in E as (walked & Ew & E).
    apply bind_Ok_inv in E as (vh & Eh & E). apply bind_Ok_inv in E as ([agg' vr] & Eu & [= <- <-]).
    exists l, gates, walked, vh, vr. by split_and!.
  - left. split; [done|]. apply bind_Ok_inv in E as ([agg' vl] & El & [= <- <-]). by exists vl.
Qed.

(** The walk reports nothing exactly on the lawful roll-up, which is the only
    one of its node. *)
Definition law_holds (node : pyval) : Prop :=
  forall agg vs, walk_node node = Ok (agg, vs) ->
    (vs = [] <-> lawful node agg) /\ forall agg', lawful node agg' -> agg' = agg.

Lemma children_law l walked :
  Forall law_holds l -> res_map walk_node l = Ok walked ->
  (concat walked.*2 = [] <-> Forall2 lawful l walked.*1) /\ forall cs, Forall2 lawful l cs -> cs = walked.*1.
Proof.
  intros HF. rewrite res_map_Ok_Forall2. intros Hw.
  induction Hw as [|c [a vs] l walked Hc _ IH]; [split; [by split|by inversion 1]|].
  apply Forall_cons in HF as [Hl HF]. destruct (IH HF) as [IH1 IH2], (Hl _ _ Hc) as [Hc1 Hc2]. simpl. split.
  - rewrite app_nil, IH1, Hc1. by rewrite Forall2_cons.
  - inversion 1 as [|? a' ? cs' Ha Hcs]; subst. by rewrite (Hc2 _ Ha), (IH2 _ Hcs).
Qed.

(** A leaf has only the leaf roll-up, and an inner node only the other. *)
Lemma lawful_leaf_inv d agg :
  lawful (PDict d) agg -> truthy (default PNone (assoc "children" d)) = false ->
  labelled (PDict d) /\ (exists vs, _leaf_agg (PDict d) = Ok (agg, vs)) /\ F64.ltb (F64.add (g_standalone agg) TOL) (g_ec agg) = false.
Proof.
  inversion 1 as [n a vs ch Hlb Hc Hf Hla Hltb|n r a vs l cs Hlb Hc Hln]; subst; [eauto|].
  injection Hc as ->. by destruct l.
Qed.

Lemma lawful_node_inv d l agg :
  lawful (PDict d) agg -> assoc "children" d = Some (PList l) -> l <> [] ->
  labelled (PDict d) /\ Forall measure_ok l /\ exists cs ref vs,
    Forall2 lawful l cs /\ (rescale = false -> homogeneous cs) /\ py_get (PDict d) "node_ref" PNone = Ok ref /\
    roll_up fsum allow_provisional (PDict d) ref cs = Ok (agg, vs) /\ roll_up_ok (PDict d) agg cs.
Proof.
  intros Hl Ha Hne. inversion Hl as [n a vs ch Hlb Hc Hf Hla Hltb|n r a vs l' cs Hlb Hc Hln Hm Hcs Hh Hr Hru Hok]; subst.
  - simpl in Hc. rewrite Ha in Hc. injection Hc as <-. by destruct l.
  - simpl in Hc. rewrite Ha in Hc. injection Hc as <-. split_and!; [done..|]. by exists cs, r, vs.
Qed.

Lemma walk_law_node d :
  (forall l, assoc "children" d = Some (PList l) -> Forall law_holds l) -> law_holds (PDict d).
Proof.
  intros IH agg vs E.
  apply walk_inv in E as (d' & ref & v1 & v2 & v3 & children & [= <-] & Er & E1 & E2 & E3 & -> & E).
  apply regime_law in E1. apply class_law in E2. apply structure_law in E3.
  assert (v1 = [] /\ v2 = [] /\ v3 = [] <-> labelled (PDict d)) as Hlab by (unfold labelled; tauto).
  destruct E as [(Ht & vl & El & ->)|(l & gates & walked & vh & vr & Hl & Hne & Eg & Ew & Eh & Eu & ->)].
  - rewrite !app_nil. pose proof (leaf_law _ _ _ El) as Hleaf. split; [split|].
    + intros (? & ? & ? & Hv). eapply (lawful_leaf _ _ vl); [by apply Hlab|reflexivity|done|done|by apply Hleaf].
    + intros (Hlb & _ & Hok)%lawful_leaf_inv; [|done]. apply Hlab in Hlb as (? & ? & ?). split_and!; [done..|]. by apply Hleaf.
    + intros agg' (_ & (vs' & El') & _)%lawful_leaf_inv; [|done]. rewrite El in El'. by injection El' as ->.
  - destruct (children_law _ _ (IH _ Hl) Ew) as [Hcs Huniq].
    rewrite !app_nil, (measures_law _ _ _ Eg), Hcs, (homogeneity_law _ _ _ Eh), (roll_up_law _ _ _ _ _ Eu). split; [split|].
    + intros (? & ? & ? & ? & ? & ? & ?).
      eapply (lawful_node _ ref _ vr l); try done; [by apply Hlab|simpl; by rewrite Hl].
    + intros (Hlb & Hm & cs & r & vs' & Hc & Hh & _ & _ & Hok)%(lawful_node_inv _ l); [|done..].
      pose proof (Huniq _ Hc) as ->. apply Hlab in Hlb as (? & ? & ?). by split_and!.
    + intros agg' (_ & _ & cs & r & vs' & Hc & _ & Hr & Hu & _)%(lawful_node_inv _ l); [|done..].
      rewrite (Huniq _ Hc) in Hu. rewrite Er in Hr. injection Hr as <-. rewrite Eu in Hu. by injection Hu as ->.
Qed.

Lemma walk_law node : law_holds node.
Proof.
  enough (law_holds node /\ forall l, node = PList l -> Forall law_holds l) as [? _] by done.
  assert (forall v, (forall d, v <> PDict d) -> law_holds v) as Hflat.
  { intros v Hv agg vs E. apply walk_inv in E as (d & ? & ? & ? & ? & ? & -> & _). by destruct (Hv d). }
  induction node as [| | | | |l IH|d IH] using pyval_rect'; (split; [try (by apply Hflat)|intros ? [= ]]; try done).
  - subst. eapply Forall_impl; [exact IH|]. by intros v [Hv _].
  - apply walk_law_node. intros l Hl%assoc_elem. rewrite Forall_forall in IH. by apply (IH _ Hl).
Qed.

(** ** The verdict on a tree *)

Definition cuts_agree (aggs : list NodeAgg) : Prop :=
  match aggs with
  | [] => True
  | base :: rest => Forall (fun other => Forall (fun attr : string * (NodeAgg -> spec_float) =>
      apart TOL4 (attr.2 base) (attr.2 other) = false) totals) rest
  end.

Lemma reconcile_law aggs : reconcile_cuts aggs = [] <-> cuts_agree aggs.*2.
Proof.
  destruct aggs as [|[n0 base] rest]; [done|]. unfold reconcile_cuts, cuts_agree. cbn [fmap list_fmap snd].
  rewrite concat_map_nil, Forall_fmap. apply Forall_iff. intros [n other]. rewrite omap_nil. apply Forall_iff.
  intros attr. unfold disagreement. simpl. generalize (apart TOL4 (attr.2 base) (attr.2 other)). by intros [].
Qed.

(** The trees every cut of which is lawful, with the same bank totals. *)
Definition lawful_cuts (cuts : dict) : Prop :=
  exists aggs, Forall2 lawful cuts.*2 aggs /\ cuts_agree aggs.

Lemma walk_cuts_law cuts aggs found :
  walk_cuts fsum incompatible override allow_provisional rescale cuts = Ok (aggs, found) ->
  (found ++ reconcile_cuts aggs)%list = [] <-> lawful_cuts cuts.
Proof.
  unfold walk_cuts, lawful_cuts. intros E. apply bind_Ok_inv in E as (walked & Ew & [= <- <-]).
  assert (res_map walk_node cuts.*2 = Ok (map snd walked)) as Hw.
  { apply res_map_Ok_Forall2. apply res_map_Ok_Forall2 in Ew.
    change (map snd walked) with (snd <$> walked). rewrite Forall2_fmap. eapply Forall2_impl; [exact Ew|].
    intros [n r] w E. apply bind_Ok_inv in E as ([a vs] & Ea & [= <-]). done. }
  destruct (children_law _ _ (proj2 (Forall_forall _ _) (fun x _ => walk_law x)) Hw) as [Hcs Huniq].
  rewrite app_nil, reconcile_law.
  assert (concat (map (fun w : string * (NodeAgg * list string) => w.2.2) walked) = concat (map snd walked).*2) as ->.
  { f_equal. change ((map snd walked).*2) with (map snd (map snd walked)). by rewrite map_map. }
  assert ((map (fun w : string * (NodeAgg * list string) => (w.1, w.2.1)) walked).*2 = (map snd walked).*1) as ->.
  { change (map snd (map (fun w : string * (NodeAgg * list string) => (w.1, w.2.1)) walked) = map fst (map snd walked)).
    by rewrite !map_map. }
  rewrite Hcs. split; [eauto|]. intros (aggs & Ha & Hc). pose proof (Huniq _ Ha) as ->. done.
Qed.
End laws.

Section verdict.
Context `{FloatRepr}.
Variable fsum : list spec_float -> spec_float.
Variable incompatible : list (string * string).

#[local] Abbreviation evaluate := (evaluate_tree fsum incompatible).

(** What an evaluated tree went through. *)
Lemma evaluate_inv dr spec named persist f v f' :
  evaluate dr spec named persist f = Ok (v, f') ->
  exists cuts o p r hurdle v0 level reason,
    py_get spec "cuts" PNone = Ok (PDict cuts) /\ get_float spec "hurdle_rate" (PFloat F64.zero) = Ok hurdle /\
    flag spec "incoherence_override" = Ok o /\ flag spec "allow_provisional" = Ok p /\ flag spec "rescale" = Ok r /\
    (al_violations v0 = [] <-> lawful_cuts fsum incompatible o p r cuts) /\
    project_allocation (al_violations v0) (bank_raroc v0) hurdle = (al_verdict v0, al_status v0, level, reason) /\
    seal_allocation dr v0 named persist f = Ok (v, f').
Proof.
  unfold evaluate_tree. intros E. apply bind_Ok_inv in E as (id & _ & E). apply bind_Ok_inv in E as (cuts & Ec & E).
  destruct cuts as [| | | | | |[|c cs]]; try discriminate E. apply bind_Ok_inv in E as (hurdle & Eh & E).
  apply bind_Ok_inv in E as (o & Eo & E). apply bind_Ok_inv in E as (p & Ep & E). apply bind_Ok_inv in E as (r & Er & E).
  apply bind_Ok_inv in E as ([aggs found] & Ew & E). destruct aggs as [|[n bank] aggs]; [discriminate E|].
  destruct (project_allocation _ _ hurdle) as [[[verdict status] level] reason] eqn:Ev.
  eexists (c :: cs), o, p, r, hurdle, _, level, reason. split_and!; [done..| | |exact E]; [|exact Ev].
  by apply walk_cuts_law in Ew.
Qed.

Lemma seal_allocation_inv dr v0 named persist f v f' :
  seal_allocation dr v0 named persist f = Ok (v, f') ->
  exists prev event,
    last_link named f = Ok prev /\ v = with_ids v0 ("proof-omni-" +:+ s_hex dr) (al_receipt v) /\
    f' = (if persist then append (PDict event) f else f) /\
    assoc "prev_hash" event = Some prev /\ assoc "hash" event = Some (PStr (al_receipt v)) /\
    al_receipt v = _sha (PDict (assoc_del "hash" event)) /\
    assoc "artifact" event = Some (PDict (allocation_artifact v)).
Proof.
  unfold seal_allocation. intros E. apply bind_Ok_inv in E as (prev & Ep & [= <- <-]).
  eexists prev, _. split_and!; [exact Ep|reflexivity..].
Qed.

(** ** Properties *)

(** C21: a tree is rejected exactly when it breaks a law.  Every node of every cut
    is labelled, leaves contribute no more than they hold, capital is conserved
    over coherent measures, declared sensitivities are the weighted averages and
    bounded by the leaves, nothing mixed or provisional is rolled up silently,
    and all cuts have the same bank totals; then the tree VERIFIES unless its
    return on capital is below the hurdle. *)
Theorem allocation_verdict_iff dr spec named persist f v f' :
  evaluate dr spec named persist f = Ok (v, f') ->
  exists cuts o p r hurdle,
    py_get spec "cuts" PNone = Ok (PDict cuts) /\ get_float spec "hurdle_rate" (PFloat F64.zero) = Ok hurdle /\
    flag spec "incoherence_override" = Ok o /\ flag spec "allow_provisional" = Ok p /\ flag spec "rescale" = Ok r /\
    let sound := lawful_cuts fsum incompatible o p r cuts in
    let short := exists x, bank_raroc v = Some x /\ F64.ltb x hurdle = true in
    (al_verdict v = REJECTED <-> ~ sound) /\ (al_verdict v = FLAGGED <-> sound /\ short) /\
    (al_verdict v = VERIFIES <-> sound /\ ~ short).
Proof.
  intros E. apply evaluate_inv in E as (cuts & o & p & r & hurdle & v0 & level & reason & Ec & Eh & Eo & Ep & Er & Hv & Ev & Es).
  exists cuts, o, p, r, hurdle. split_and!; [done..|]. apply seal_allocation_inv in Es as (? & ? & _ & -> & _).
  cbn [with_ids al_verdict bank_raroc]. cbv zeta. rewrite <- Hv. revert Ev. unfold project_allocation.
  assert (REJECTED <> FLAGGED /\ REJECTED <> VERIFIES /\ FLAGGED <> VERIFIES) as (H1 & H2 & H3) by done.
  destruct (al_violations v0) as [|viol viols].
  2: { intros [= <- _ _ _]. assert (viol :: viols <> []) by done. split_and!; split; tauto || congruence. }
  destruct (bank_raroc v0) as [q|]; [destruct (F64.ltb q hurdle) eqn:Eq|]; intros [= <- _ _ _].
  - assert (exists x, Some q = Some x /\ F64.ltb x hurdle = true) by eauto. split_and!; split; tauto || congruence.
  - assert (~ exists x, Some q = Some x /\ F64.ltb x hurdle = true) by (intros (y & [= <-] & Hy); congruence).
    split_and!; split; tauto || congruence.
  - assert (~ exists x, None = Some x /\ F64.ltb x hurdle = true) by (by intros (y & ? & _)).
    split_and!; split; tauto || congruence.
Qed.

(** On a named ledger the next link is the chain head. *)
Lemma last_link_is_head f recs h s :
  _read_raw f = Ok recs -> chain GENESIS None recs h s -> Forall (fun r => is_event r = true) recs ->
  last_link true f = Ok (PStr h).
Proof.
  intros Hr Hc He. unfold last_link, _ledger_exists. destruct f as [ls|]; cbn [andb].
  - rewrite (read_all_verified _ _ _ _ Hr Hc). cbn [mbind res_bind].
    destruct recs as [|rec recs _] using rev_ind; [by inversion Hc|].
    rewrite last_snoc. rewrite Forall_app, Forall_singleton in He. destruct He as [_ He].
    destruct (chain_last_event _ _ _ _ _ _ Hc He) as (d & -> & Hh & E). simpl. rewrite Hh. simpl. rewrite E. done.
  - injection Hr as <-. by inversion Hc.
Qed.

(** A verdict sealed in a ledger the caller names links to its head.  After
    any interleaving of the server and the scorers the ledger verifies with the
    receipt of the verdict as its seal, and the record carries the artifact. *)
Theorem allocation_receipt_is_head dr spec f v f' :
  rtc ledger_step None f -> evaluate dr spec true true f = Ok (v, f') ->
  extends f f' /\ exists n event,
    verify_ledger f' GENESIS = Ok (mkVerifyResult true n (Some (al_receipt v)) None None) /\
    f' = append (PDict event) f /\ assoc "artifact" event = Some (PDict (allocation_artifact v)).
Proof.
  intros (recs & h & s & Hr & Hc & He)%ledger_steps_single_writer E.
  apply evaluate_inv in E as (cuts & o & p & r & hurdle & v0 & level & reason & _ & _ & _ & _ & _ & _ & _ & Es).
  apply seal_allocation_inv in Es as (prev & event & Ep & _ & -> & Hprev & Hhash & Hsha & Hart).
  rewrite (last_link_is_head _ _ _ _ Hr Hc He) in Ep. injection Ep as <-.
  destruct (append_event_verifies _ _ _ _ _ _ _ Hr Hc Hhash Hprev Hsha) as [Hr' Hc'].
  split; [by eexists|]. eexists _, event. split_and!; [|done|done]. apply (verify_ledger_chain _ GENESIS). eauto 10.
Qed.

(** A verdict sealed in the default ledger breaks it.  Without a path the
    walker takes the ledger for empty and links its record to the genesis hash,
    but appends it to the default ledger all the same, which then no longer
    verifies when it already held a record. *)
Theorem default_ledger_broken dr spec f v f' recs h s :
  _read_raw f = Ok recs -> chain GENESIS None recs h s -> h <> GENESIS ->
  evaluate_tree fsum incompatible dr spec false true f = Ok (v, f') ->
  verify_ledger f' GENESIS = Ok (broken (length recs + 1) (length recs) (BrokenLink (length recs) (PStr GENESIS) h)).
Proof.
  intros Hr Hc Hne E.
  apply evaluate_inv in E as (cuts & o & p & r & hurdle & v0 & level & reason & _ & _ & _ & _ & _ & _ & _ & Es).
  apply seal_allocation_inv in Es as (prev & event & [= <-] & _ & -> & Hprev & Hhash & _).
  unfold verify_ledger. rewrite (read_append _ _ _ Hr). cbn [mbind res_bind].
  rewrite (verify_loop_chain _ _ _ _ _ _ _ _ Hc), length_app.
  simpl. unfold verify_record. simpl. unfold assoc_mem. rewrite Hhash, Hprev. cbn [mbind res_bind of_option eq_str].
  by rewrite (proj2 (String.eqb_neq GENESIS h) (not_eq_sym Hne)).
Qed.
End verdict.

(** ** Witnesses *)

Section witnesses.
#[local] Existing Instance demo_float_repr.

Definition demo_label : pyval := PDict [
  ("regime", PDict [("memory_regime", PStr "short"); ("market_regime", PStr "calm")]); ("asset_class", PStr "credit")].

Definition demo_leaf (ref : string) (ec : pyval) : pyval := PDict [
  ("node_ref", PStr ref); ("label", demo_label);
  ("risk", PDict [("component_contribution", ec); ("standalone_capital", PInt 9); ("risk_adjusted_return", PInt 2); ("n_samples", PInt 40)]);
  ("term", PDict [("value", PInt 10); ("duration", PInt 3)])].

Definition demo_root (declared ec : pyval) : pyval := PDict [
  ("node_ref", PStr "bank"); ("label", demo_label); ("risk", PDict [("economic_capital", declared)]);
  ("term", PDict [("duration", PInt 3)]); ("children", PList [demo_leaf "a" ec; demo_leaf "b" ec])].

Definition demo_spec (declared ec : pyval) : pyval :=
  PDict [("tree_id", PStr "t"); ("hurdle_rate", half); ("cuts", PDict [("product", demo_root declared ec)])].

#[local] Abbreviation demo_evaluate spec named f :=
  (evaluate_tree demo_sum _TERM_REGIME_INCOMPATIBLE demo_seal spec named true f).

Example allocation_verdicts_ex :
  map (fun s : pyval * pyval => match demo_evaluate (demo_spec s.1 s.2) true None with
                                | Ok (v, _) => (al_verdict v, length (al_violations v)) | Raise _ => (EmptyString, O) end)
    [(PInt 6, PInt 3); (PInt 10, PInt 5); (PInt 7, PInt 3); (PInt 20, PInt 10)]
  = [(VERIFIES, O); (FLAGGED, O); (REJECTED, 1%nat); (REJECTED, 3%nat)].
Proof. vm_compute. reflexivity. Qed.

(** Capital that is not a number passes every law: no comparison with it is true. *)
Example nan_capital_verifies :
  match demo_evaluate (demo_spec (PInt 5) (PFloat S754_nan)) true None with
  | Ok (v, _) => al_verdict v = VERIFIES /\ bank_total_ec v = S754_nan
  | Raise _ => False
  end.
Proof. vm_compute. auto. Qed.

Lemma allocation_verdict_iff_witness :
  exists v f', demo_evaluate (demo_spec (PInt 6) (PInt 3)) true None = Ok (v, f') /\
    exists o p r, lawful_cuts demo_sum _TERM_REGIME_INCOMPATIBLE o p r [("product", demo_root (PInt 6) (PInt 3))].
Proof.
  destruct (res_view (fun vf => al_verdict vf.1) (demo_evaluate (demo_spec (PInt 6) (PInt 3)) true None) VERIFIES)
    as ([v f'] & E & Hv); [vm_compute; reflexivity|].
  exists v, f'. split; [exact E|].
  destruct (allocation_verdict_iff _ _ _ _ _ _ _ _ _ E) as (cuts & o & p & r & hurdle & Ec & _ & _ & _ & _ & _ & _ & [Hs _]).
  injection Ec as <-. destruct (Hs Hv) as [Hl _]. exists o, p, r. exact Hl.
Defined.

Lemma allocation_receipt_is_head_witness :
  exists v f', demo_evaluate (demo_spec (PInt 6) (PInt 3)) true None = Ok (v, f') /\
    exists n, verify_ledger f' GENESIS = Ok (mkVerifyResult true n (Some (al_receipt v)) None None).
Proof.
  destruct (is_ok_Ok (demo_evaluate (demo_spec (PInt 6) (PInt 3)) true None)) as [[v f'] E]; [vm_compute; reflexivity|].
  exists v, f'. split; [exact E|].
  destruct (allocation_receipt_is_head _ _ _ _ _ _ _ (rtc_refl _ None) E) as (_ & n & event & Hv & _). exists n. exact Hv.
Defined.

Lemma default_ledger_broken_witness :
  exists v f', demo_evaluate (demo_spec (PInt 6) (PInt 3)) false (ledger_of [PDict demo1]) = Ok (v, f') /\
    verify_ledger f' GENESIS = Ok (broken 2 1 (BrokenLink 1 (PStr GENESIS) (hash_of demo1))).
Proof.
  destruct (is_ok_Ok (demo_evaluate (demo_spec (PInt 6) (PInt 3)) false (ledger_of [PDict demo1]))) as [[v f'] E];
    [vm_compute; reflexivity|].
  exists v, f'. split; [exact E|].
  refine (default_ledger_broken _ _ _ _ _ _ _ [PDict demo1] (hash_of demo1) (Some (hash_of demo1)) _ _ _ E).
  - reflexivity.
  - econstructor; [|constructor]. apply intact_event; vm_compute; reflexivity.
  - intros Hh. apply (f_equal (fun h => String.eqb h GENESIS)) in Hh. vm_compute in Hh. discriminate Hh.
Defined.
End witnesses.
