(* ===== verification/PortfolioBinding.v ===== *)
(** * Binding positions to the hierarchy

    Models [gbrg/governance/portfolio_position_binding.py]: a book of positions
    is attributed to instruments and issuers, summed into the leaves of the risk
    allocation tree, reconciled across its cuts and handed to the walker of
    [OmniriskAllocation].

    References of leaves are texts, or absent.  The order in which a set of
    leaves is iterated depends on the hash seed of the process; it is an
    argument, of which only that it lists the members of the set is used. *)

From Stdlib Require Import SpecFloat.
From S2P Require Import Prelude PyVal FloatOrder Json PyText Sha256 Ledger Gate McpGate SupplyChainRisk OmniriskAllocation.
Local Open Scope string_scope.

Definition PPB_AGENT_REF : string := "agent-registry://gbrg/portfolio-position-binding-validator".
Definition PPB_CONTRACT_URN : string := "gbrg.portfolio-position-binding.v0".
Definition WALKER_REF : string := "gbrg.governance.omnirisk_allocation:evaluate_tree (OMNI-1)".
Definition LADDER_CREDIT_REF : string :=
  "economic-prophet@feat/risk-adjusted-profit-raroc:risk_measures.LossDistribution.simulate_credit".
Definition LADDER_EQUITY_REF : string :=
  "economic-prophet@feat/risk-adjusted-profit-raroc:risk_measures.LossDistribution.simulate_equity".
Definition LADDER_CRYPTO_REF : string := "economic-prophet@feat/crypto-asset-class:risk_measures(in-flight)".
Definition ER_ENTITY_REF : string := "regis-entity-graph:schemas/node.schema.json#EntityNode{node_id,kind}".

Definition ASSET_CLASS_LADDER : list (string * string) :=
  [("credit", LADDER_CREDIT_REF); ("equity", LADDER_EQUITY_REF); ("market", LADDER_EQUITY_REF); ("crypto", LADDER_CRYPTO_REF)].
Definition ISSUER_ENTITY_KINDS : list string := ["ORG"; "PERSON"; "ENTITY_CLUSTER"].

(** [PortfolioBindingError]. *)
Definition binding_error (msg : string) : exn := ValueError msg.

Section binding.
Context `{FloatRepr}.
Variable fsum : list spec_float -> spec_float.
Variable incompatible : list (string * string).
Variable iter_set : list string -> list string.

(** ** The nodes of a tree *)

Definition _declared_exposure (node : pyval) : res (option spec_float) :=
  risk ← py_get node "risk" (PDict []);
  ec ← py_in "economic_capital" risk;
  if ec : bool then v ← py_item risk "economic_capital"; f ← py_float v; Ok (Some f) else
  cc ← py_in "component_contribution" risk;
  if cc : bool then v ← py_item risk "component_contribution"; f ← py_float v; Ok (Some f) else Ok None.

(** A reference of a leaf. *)
Definition ref_of (v : pyval) : res (option string) :=
  match v with PStr s => Ok (Some s) | PNone => Ok None | _ => Raise TypeError end.

Record visit := mkVisit { v_node : pyval; v_leaf : bool; v_leaves : list (option string) }.

Definition leaves_of (vs : list visit) : list (option string) :=
  concat (map v_leaves (List.filter v_leaf vs)).

(** Children first, then the node with the leaves below it. *)
Fixpoint _iter_nodes (node : pyval) {struct node} : res (list visit) :=
  let below :=
    match node with
    | PDict d =>
      (fix find (d : list (string * pyval)) : res (list visit) :=
         match d with
         | [] => Ok []
         | (k, v) :: d =>
           if String.eqb k "children" then
             match v with
             | PList l =>
               (fix each (l : list pyval) : res (list visit) :=
                  match l with
                  | [] => Ok []
                  | c :: l => a ← _iter_nodes c; r ← each l; Ok (a ++ r)%list
                  end) l
             | PDict (_ :: _) | PStr _ => Raise AttributeError
             | _ => Raise TypeError
             end
           else find d
         end) d
    | _ => Ok []
    end in
  children ← py_get node "children" PNone;
  if negb (truthy children) then
    ref ← py_get node "node_ref" PNone; leaf ← ref_of ref; Ok [mkVisit node true [leaf]]
  else
    vs ← below; Ok (vs ++ [mkVisit node false (leaves_of vs)])%list.

Definition _cut_leaves (root : pyval) : res (list (option string)) :=
  vs ← _iter_nodes root;
  res_map (fun v => r ← py_get (v_node v) "node_ref" PNone; ref_of r) (List.filter v_leaf vs).

(** ** Instruments and issuers *)

Definition class_violation (iref : string) (ac : pyval) : res (list string) :=
  if negb (truthy ac) then
    Ok ["REJECTED: instrument " +:+ repr_str iref +:+ " carries no asset_class (unclassifiable exposure — cannot pick an F builder)"]
  else if negb (hashable ac) then Raise TypeError
  else if existsb (eq_str ac) ASSET_CLASS_LADDER.*1 then Ok []
  else Ok ["REJECTED: instrument " +:+ repr_str iref +:+ " asset_class " +:+ py_repr ac +:+ " is not on the asset-class ladder " +:+
           py_repr (PList (map PStr (py_sort String.ltb ASSET_CLASS_LADDER.*1)))].

(** [entities.get(issuer)]: keys are texts. *)
Definition entity_get (entities issuer : pyval) : res pyval :=
  match issuer with
  | PStr k => py_get entities k PNone
  | v => match entities with PDict _ => if hashable v then Ok PNone else Raise TypeError | _ => Raise AttributeError end
  end.

Definition issuer_violation (entities : pyval) (iref : string) (issuer : pyval) : res (list string) :=
  if negb (truthy issuer) then
    Ok ["REJECTED: instrument " +:+ repr_str iref +:+ " has no issuer_ref (unattributed exposure — no counterparty)"]
  else
    ent ← entity_get entities issuer;
    match ent with
    | PNone => Ok ["REJECTED: instrument " +:+ repr_str iref +:+ " issuer " +:+ py_repr issuer +:+
                   " does not resolve to an entity in the roster (unattributed exposure)"]
    | _ =>
      kind ← py_get ent "kind" PNone;
      if negb (hashable kind) then Raise TypeError else
      Ok (if existsb (eq_str kind) ISSUER_ENTITY_KINDS then []
          else ["REJECTED: instrument " +:+ repr_str iref +:+ " issuer " +:+ py_repr issuer +:+ " resolves to a " +:+ py_repr kind +:+
                " node, not an issuer kind " +:+ py_repr (PList (map PStr (py_sort String.ltb ISSUER_ENTITY_KINDS)))])
    end.

Definition instrument_violations (entities : pyval) (ii : string * pyval) : res (list string) :=
  ac ← py_get ii.2 "asset_class" PNone; v1 ← class_violation ii.1 ac;
  issuer ← py_get ii.2 "issuer_ref" PNone; v2 ← issuer_violation entities ii.1 issuer;
  Ok (v1 ++ v2)%list.

Definition _validate_instruments_and_issuers (spec : pyval) : res (list string) :=
  entities ← py_get spec "entities" (PDict []);
  instruments ← py_get spec "instruments" (PDict []);
  items ← py_items instruments;
  vs ← res_map (instrument_violations entities) items;
  Ok (concat vs).

(** ** Positions *)

Definition known_instrument (iref instruments : pyval) : res bool :=
  match iref with
  | PStr k => py_in k instruments
  | v => if hashable v then Ok false else Raise TypeError
  end.

(** The exposures summed so far, and the violations. *)
Definition add_position (instruments : pyval) (st : list (string * spec_float) * list string) (pos : pyval) :
    res (list (string * spec_float) * list string) :=
  let (exposure, vs) := st in
  pid ← py_get pos "position_id" (PStr "<unknown>");
  iref ← py_get pos "instrument_ref" PNone;
  known ← known_instrument iref instruments;
  if negb known then
    Ok (exposure, (vs ++ ["REJECTED: position " +:+ py_repr pid +:+ " references unknown instrument " +:+ py_repr iref])%list)
  else
    leaf ← py_get pos "leaf_ref" PNone;
    if negb (truthy leaf) then Ok (exposure, (vs ++ ["REJECTED: position " +:+ py_repr pid +:+ " has no leaf_ref"])%list)
    else
      match leaf with
      | PStr l =>
        e ← py_get pos "exposure" (PFloat F64.zero); x ← py_float e;
        Ok (assoc_set l (F64.add (default F64.zero (assoc l exposure)) x) exposure, vs)
      | _ => Raise TypeError
      end.

Definition _validate_positions (spec : pyval) : res (list (string * spec_float) * list string) :=
  instruments ← py_get spec "instruments" (PDict []);
  ps ← py_get spec "positions" (PList []);
  positions ← py_iter ps;
  res_fold (add_position instruments) ([], []) positions.

(** ** Reconciliation across cuts *)

(** The leaves seen again, and the set of all. *)
Fixpoint repeated (seen : list (option string)) (leaves : list (option string)) : list (option string) * list (option string) :=
  match leaves with
  | [] => ([], seen)
  | l :: leaves =>
    if bool_decide (l ∈ seen) then let (r, s) := repeated seen leaves in (l :: r, s)
    else repeated (seen ++ [l])%list leaves
  end.

Definition opt_repr (l : option string) : string := match l with Some s => repr_str s | None => "None" end.

(** [sorted] over references, which fails on a missing one among others. *)
Definition sort_refs (l : list (option string)) : res string :=
  match l with
  | [None] => Ok "[None]"
  | _ => names ← res_map (of_option TypeError) l; Ok (py_repr (PList (map PStr (py_sort String.ltb names))))
  end.

Definition minus_refs (a b : list (option string)) : list (option string) :=
  List.filter (fun l => negb (bool_decide (l ∈ b))) a.

Definition cut_repeats (nr : string * pyval) : res (string * (list string * list (option string))) :=
  leaves ← _cut_leaves nr.2;
  let (again, seen) := repeated [] leaves in
  Ok (nr.1, (map (fun l => "REJECTED: leaf " +:+ opt_repr l +:+ " appears more than once in cut " +:+ repr_str nr.1 +:+
                           " — exposure double-counted within a single org-cut") again, seen)).

Definition same_leaves (base_name : string) (base : list (option string)) (no : string * list (option string)) : res (list string) :=
  let only_base := minus_refs base no.2 in
  let only_other := minus_refs no.2 base in
  match only_base, only_other with
  | [], [] => Ok []
  | _, _ =>
    sb ← sort_refs only_base;
    so ← sort_refs only_other;
    Ok ["REJECTED: cuts " +:+ repr_str base_name +:+ " and " +:+ repr_str no.1 +:+ " do not cover the same leaves (only in " +:+ base_name +:+
        ": " +:+ sb +:+ "; only in " +:+ no.1 +:+ ": " +:+ so +:+ ") — the book is not reconciled across org-cuts " +:+
        "(a position present in one cut and absent in another double-counts or leaks exposure)"]
  end.

Definition _check_cross_cut_reconciliation (cuts : dict) (backed_leaves : list string) : res (list string) :=
  walked ← res_map cut_repeats cuts;
  let sets := map (fun w : string * (list string * list (option string)) => (w.1, w.2.2)) walked in
  diffs ← (match sets with (n0, base) :: rest => res_map (same_leaves n0 base) rest | [] => Ok [] end);
  let all_cut_leaves := concat sets.*2 in
  let orphans := List.filter (fun l => negb (bool_decide (Some l ∈ all_cut_leaves))) backed_leaves in
  Ok (concat (map (fun w : string * (list string * list (option string)) => w.2.1) walked) ++ concat diffs ++
      map (fun l => "REJECTED: leaf " +:+ repr_str l +:+
                    " is backed by positions but appears in no cut of the hierarchy (orphaned exposure — not allocated anywhere)")
        (iter_set orphans))%list.

(** ** Conservation *)

Definition backing_of (leaf_exposure : list (string * spec_float)) (l : option string) : option spec_float :=
  match l with Some s => assoc s leaf_exposure | None => None end.

Definition conserve_node (leaf_exposure : list (string * spec_float)) (cut_name : string) (v : visit) : res (list string) :=
  ref ← py_get (v_node v) "node_ref" (PStr "<unknown>");
  let backings := map (backing_of leaf_exposure) (v_leaves v) in
  let backing := fsum (map (default F64.zero) backings) in
  if negb (existsb (fun b => match b with Some _ => true | None => false end) backings) then
    Ok ["REJECTED: " +:+ (if v_leaf v then "leaf" else "hierarchy node") +:+ " " +:+ py_repr ref +:+ " in cut " +:+ repr_str cut_name +:+
        " has NO backing positions (phantom node — risk asserted with no holdings)"]
  else
    declared ← _declared_exposure (v_node v);
    Ok (match (declared : option spec_float) with
        | Some d =>
          if apart TOL backing d then
            ["REJECTED: node " +:+ py_repr ref +:+ " in cut " +:+ repr_str cut_name +:+ " declared exposure " +:+ py_repr (PFloat d) +:+
             " != Sum(backing position exposures) " +:+ fmt_fixed 6 backing +:+
             " (conservation violation — book does not source the asserted risk)"]
          else []
        | None => []
        end).

Definition conserve_cut (leaf_exposure : list (string * spec_float)) (nr : string * pyval) : res (list string) :=
  vs ← _iter_nodes nr.2; r ← res_map (conserve_node leaf_exposure nr.1) vs; Ok (concat r).

Definition _check_conservation_and_phantoms (cuts : dict) (leaf_exposure : list (string * spec_float)) : res (list string) :=
  vs ← res_map (conserve_cut leaf_exposure) cuts; Ok (concat vs).

(** ** The verdict *)

Record BindingVerdict := mkBinding {
  binding_id : pyval;
  b_verdict : string;
  b_status : string;
  b_level : string;
  b_reason : string;
  book_total_exposure : spec_float;
  b_positions : nat;
  leaves_backed : nat;
  tree_walker_verdict : string;
  b_violations : list string;
  b_proof_id : string;
  b_receipt : string
}.

Definition binding_artifact (v : BindingVerdict) : dict :=
  [("schemaVersion", PStr "gbrg.portfolio-position-binding-proof-artifact.v0"); ("version", PStr "1.0.0");
   ("proofId", PStr (b_proof_id v)); ("bindingId", binding_id v);
   ("claim", PDict [
     ("claimId", PStr ("claim.portfolio-position-binding." +:+ py_str (binding_id v)));
     ("claimType", PStr "portfolio_position_hierarchy_binding");
     ("statement", PStr ("binding " +:+ py_repr (binding_id v) +:+ ": " +:+ pretty (b_positions v) +:+ " positions backing " +:+
        pretty (leaves_backed v) +:+ " leaves, book exposure " +:+ py_repr (PFloat (book_total_exposure v)) +:+ " -> " +:+ b_verdict v));
     ("epistemicLevel", PStr (b_level v))]);
   ("status", PStr (b_status v)); ("verdict", PStr (b_verdict v)); ("reason", PStr (b_reason v));
   ("bookTotalExposure", PFloat (book_total_exposure v)); ("positions", PInt (Z.of_nat (b_positions v)));
   ("leavesBacked", PInt (Z.of_nat (leaves_backed v))); ("treeWalkerVerdict", PStr (tree_walker_verdict v));
   ("violations", PList (map PStr (b_violations v)));
   ("consumes", PDict [("omnirisk_walker", PStr WALKER_REF);
                       ("asset_class_ladder", PDict (map (fun kv : string * string => (kv.1, PStr kv.2)) ASSET_CLASS_LADDER));
                       ("entity_resolution", PStr ER_ENTITY_REF)]);
   ("contractUrn", PStr PPB_CONTRACT_URN); ("declared_by", PStr PPB_AGENT_REF)].

Definition project_binding (violations : list string) : string * string * string * string :=
  match violations with
  | _ :: _ => (REJECTED, "FAILED", "rejected", "REJECTED: " +:+ str_join "; " violations)
  | [] => (VERIFIES, "PROVED", "empirical",
           "VERIFIES: every exposure is sourced to a position, attributed to an entity, " +:+
           "and classified on the ladder; the book conserves into the walker's hierarchy")
  end.

Definition with_proof (v : BindingVerdict) (id receipt : string) : BindingVerdict :=
  mkBinding (binding_id v) (b_verdict v) (b_status v) (b_level v) (b_reason v) (book_total_exposure v) (b_positions v)
    (leaves_backed v) (tree_walker_verdict v) (b_violations v) id receipt.

Definition seal_binding (dr : seal_draw) (result : BindingVerdict) (named persist : bool) (f : file) :
    res (BindingVerdict * file) :=
  let result := with_proof result ("proof-ppb-" +:+ s_hex dr) (b_receipt result) in
  prev ← last_link named f;
  let core : dict :=
    [("type", PStr "PortfolioPositionBindingVerdict"); ("ts", PStr (s_ts dr)); ("prev_hash", prev);
     ("artifact", PDict (binding_artifact result))] in
  let event_hash := _sha (PDict core) in
  let event : dict := (core ++ [("hash", PStr event_hash)])%list in
  Ok (with_proof result (b_proof_id result) event_hash, if persist then append (PDict event) f else f).

(** What the walker says of the tree: its verdict and a violation. *)
Definition ask_walker (dr : seal_draw) (tree : pyval) : res (string * list string) :=
  match evaluate_tree fsum incompatible dr tree false false None with
  | Ok (wv, _) =>
    Ok (al_verdict wv,
        if String.eqb (al_verdict wv) REJECTED then
          ["REJECTED: the target RiskAllocationTree is itself rejected by the OMNI-1 walker (" +:+ al_reason wv +:+ ")"]
        else [])
  | Raise (ContractError msg) => Ok ("MALFORMED", ["REJECTED: target tree is malformed for the OMNI-1 walker: " +:+ msg])
  | Raise e => Raise e
  end.

Definition cuts_of (spec : pyval) : res (pyval * dict) :=
  tree ← py_get spec "tree" PNone;
  match tree with
  | PDict t =>
    match assoc "cuts" t with
    | Some (PDict (c :: cs)) => Ok (tree, c :: cs)
    | _ => Raise (binding_error "binding requires a 'tree' with a non-empty 'cuts' map")
    end
  | _ => Raise (binding_error "binding requires a 'tree' with a non-empty 'cuts' map")
  end.

Definition evaluate_binding (dr walker_draw : seal_draw) (spec : pyval) (named persist : bool) (f : file) :
    res (BindingVerdict * file) :=
  id ← py_get spec "binding_id" (PStr "<unnamed>");
  tc ← cuts_of spec;
  let (tree, cuts) := (tc : pyval * dict) in
  positions ← py_get spec "positions" PNone;
  match positions with
  | PList (p :: ps) =>
    v1 ← _validate_instruments_and_issuers spec;
    ev ← _validate_positions spec;
    let (leaf_exposure, v2) := (ev : list (string * spec_float) * list string) in
    v3 ← _check_cross_cut_reconciliation cuts leaf_exposure.*1;
    v4 ← _check_conservation_and_phantoms cuts leaf_exposure;
    wv ← ask_walker walker_draw tree;
    let (walker_verdict, v5) := (wv : string * list string) in
    let violations := (v1 ++ v2 ++ v3 ++ v4 ++ v5)%list in
    let book_total := match leaf_exposure with [] => F64.zero | _ => fsum leaf_exposure.*2 end in
    let '(verdict, status, level, reason) := project_binding violations in
    seal_binding dr
      (mkBinding id verdict status level reason book_total (length (p :: ps)) (length leaf_exposure) walker_verdict violations "" "")
      named persist f
  | _ => Raise (binding_error "binding requires a non-empty 'positions' list")
  end.
End binding.

(** ** What a bound book is *)

(** The leaves under a node, in order, and the nodes of a tree. *)
Inductive leaves_under : pyval -> list (option string) -> Prop :=
| under_leaf node children ref leaf :
    py_get node "children" PNone = Ok children -> truthy children = false ->
    py_get node "node_ref" PNone = Ok ref -> ref_of ref = Ok leaf -> leaves_under node [leaf]
| under_node node c cs lss :
    py_get node "children" PNone = Ok (PList (c :: cs)) -> Forall2 leaves_under (c :: cs) lss ->
    leaves_under node (concat lss).

Inductive node_in : pyval -> pyval -> Prop :=
| in_root node : node_in node node
| in_child node l c n : py_get node "children" PNone = Ok (PList l) -> c ∈ l -> node_in c n -> node_in node n.

Section laws.
Context `{FloatRepr}.
Variable fsum : list spec_float -> spec_float.

Definition instrument_ok (entities inst : pyval) : Prop :=
  exists rung issuer ent kind,
    py_get inst "asset_class" PNone = Ok (PStr rung) /\ rung ∈ ASSET_CLASS_LADDER.*1 /\
    py_get inst "issuer_ref" PNone = Ok (PStr issuer) /\ issuer <> EmptyString /\
    py_get entities issuer PNone = Ok ent /\ py_get ent "kind" PNone = Ok (PStr kind) /\ kind ∈ ISSUER_ENTITY_KINDS.

Definition position_ok (instruments pos : pyval) : Prop :=
  exists iref leaf,
    py_get pos "instrument_ref" PNone = Ok (PStr iref) /\ py_in iref instruments = Ok true /\
    py_get pos "leaf_ref" PNone = Ok (PStr leaf) /\ leaf <> EmptyString.

(** The exposure a position adds to a leaf. *)
Definition holding (l : string) (pos : pyval) : option spec_float :=
  match py_get pos "leaf_ref" PNone, (e ← py_get pos "exposure" (PFloat F64.zero); py_float e) with
  | Ok (PStr l'), Ok x => if String.eqb l' l then Some x else None
  | _, _ => None
  end.

(** What the positions say a leaf holds. *)
Definition booked (positions : list pyval) (l : string) : option spec_float :=
  match omap (holding l) positions with [] => None | xs => Some (fold_left F64.add xs F64.zero) end.

Definition backing (book : string -> option spec_float) (l : option string) : spec_float :=
  default F64.zero (l ≫= book).

(** A cut places every backed leaf once and nothing else, and every node that
    declares an exposure declares what the positions under it add up to. *)
Definition cut_ok (book : string -> option spec_float) (root : pyval) : Prop :=
  exists leaves,
    leaves_under root leaves /\ NoDup leaves /\
    (forall l, l ∈ leaves <-> exists s, l = Some s /\ is_Some (book s)) /\
    forall node below d, node_in root node -> leaves_under node below -> _declared_exposure node = Ok (Some d) ->
      apart TOL (fsum (map (backing book) below)) d = false.

(** *** Walking a cut *)

Lemma iter_nodes_inv node vs :
  _iter_nodes node = Ok vs ->
  exists children, py_get node "children" PNone = Ok children /\
    ((truthy children = false /\ exists ref leaf,
        py_get node "node_ref" PNone = Ok ref /\ ref_of ref = Ok leaf /\ vs = [mkVisit node true [leaf]]) \/
     (exists c cs vss, children = PList (c :: cs) /\ res_map _iter_nodes (c :: cs) = Ok vss /\
        vs = (concat vss ++ [mkVisit node false (leaves_of (concat vss))])%list)).
Proof.
  destruct node as [| | | | | |d]; try discriminate. cbn [_iter_nodes].
  match goal with |- context [@mbind _ _ _ _ _ ?w] =>
    match type of w with res (list visit) => set (walk_children := w) end end.
  assert (forall l, assoc "children" d = Some (PList l) -> walk_children = (vss ← res_map _iter_nodes l; Ok (concat vss))) as Hw.
  { subst walk_children. intros l. induction d as [|[k v] d IH]; [done|]. cbn [assoc].
    destruct (String.eqb k "children"); [|exact IH]. intros [= ->]. clear IH.
    induction l as [|c l IHl]; [done|]. cbn [res_map]. rewrite IHl.
    destruct (_iter_nodes c); [|done]. cbn [mbind res_bind]. by destruct (res_map _iter_nodes l). }
  assert (forall v, assoc "children" d = Some v -> truthy v = true -> is_ok walk_children = true -> exists l, v = PList l) as Hl.
  { subst walk_children. intros v. clear Hw. induction d as [|[k v'] d IH]; [done|]. cbn [assoc].
    destruct (String.eqb k "children"); [|exact IH]. intros [= ->] Ht. clear IH.
    destruct v as [| | | | |l|[|]]; try discriminate; eauto. }
  clearbody walk_children. intros E. apply bind_Ok_inv in E as (children & [= <-] & E). eexists. split; [reflexivity|].
  destruct (truthy (default PNone (assoc "children" d))) eqn:Et; cbn [negb] in E.
  - right. destruct (assoc "children" d) as [v|] eqn:Ea; [|done]. cbn [default] in *.
    apply bind_Ok_inv in E as (ws & Ews & [= <-]). destruct (Hl v eq_refl Et) as (l & ->); [by rewrite Ews|].
    destruct l as [|c cs]; [done|]. rewrite (Hw _ eq_refl) in Ews. apply bind_Ok_inv in Ews as (vss & Hv & [= <-]). by exists c, cs, vss.
  - left. split; [done|]. apply bind_Ok_inv in E as (ref & Er & E). apply bind_Ok_inv in E as (leaf & El & [= <-]). eauto.
Qed.

Lemma leaves_of_app a b : leaves_of (a ++ b) = (leaves_of a ++ leaves_of b)%list.
Proof. unfold leaves_of. by rewrite List.filter_app, map_app, concat_app. Qed.

Lemma leaves_of_concat vss : leaves_of (concat vss) = concat (map leaves_of vss).
Proof. induction vss as [|vs vss IH]; [done|]. simpl. by rewrite leaves_of_app, IH. Qed.

Definition visit_ok (root : pyval) (leaves : list (option string)) (v : visit) : Prop :=
  node_in root (v_node v) /\ leaves_under (v_node v) (v_leaves v) /\ v_leaves v ⊆ leaves /\ v_leaves v <> [] /\
  (v_leaf v = true -> exists ref leaf, py_get (v_node v) "node_ref" PNone = Ok ref /\ ref_of ref = Ok leaf /\ v_leaves v = [leaf]).

(** A walk visits the nodes of the tree, each with the leaves under it. *)
Definition walk_ok (root : pyval) : Prop :=
  forall vs, _iter_nodes root = Ok vs ->
    leaves_under root (leaves_of vs) /\ leaves_of vs <> [] /\ Forall (visit_ok root (leaves_of vs)) vs /\
    forall n, node_in root n -> exists v, v ∈ vs /\ v_node v = n.

Lemma walk_ok_step root :
  (forall l, py_get root "children" PNone = Ok (PList l) -> Forall walk_ok l) -> walk_ok root.
Proof.
  intros IH vs E. apply iter_nodes_inv in E as (children & Ec & [(Ht & ref & leaf & Er & El & ->)|(c & cs & vss & -> & Ev & ->)]).
  - assert (leaves_under root [leaf]) as Hu by (by eapply under_leaf).
    split_and!; [exact Hu|done| |].
    + apply Forall_singleton. split_and!; simpl; [constructor|exact Hu|done|done|eauto].
    + intros n Hn. inversion Hn as [|? l c ? Hl Hc]; subst; [eexists; split; [by left|done]|].
      rewrite Ec in Hl. injection Hl as ->. destruct l; [by apply elem_of_nil in Hc|done].
  - specialize (IH _ Ec). apply res_map_Ok_Forall2 in Ev.
    assert (leaves_of (concat vss ++ [mkVisit root false (leaves_of (concat vss))]) = concat (map leaves_of vss)) as Hlv.
    { rewrite leaves_of_app, leaves_of_concat. apply app_nil_r. }
    rewrite Hlv.
    assert (Forall2 (fun x vs => leaves_under x (leaves_of vs) /\ leaves_of vs <> [] /\
      Forall (visit_ok x (leaves_of vs)) vs /\ forall n, node_in x n -> exists v, v ∈ vs /\ v_node v = n) (c :: cs) vss) as Hall.
    { revert IH Ev. generalize (c :: cs). intros l HF Ev. clear -HF Ev.
      induction Ev as [|x vs l vss Hx _ IHv]; constructor; apply Forall_cons in HF as [Hw HF]; [by apply Hw|by apply IHv]. }
    assert (leaves_under root (concat (map leaves_of vss))) as Hu.
    { apply (under_node _ c cs); [done|]. apply Forall2_fmap_r. eapply Forall2_impl; [exact Hall|]. by intros x vs (? & _). }
    assert (concat (map leaves_of vss) <> []) as Hne.
    { inversion Hall as [|x vs l vss0 (_ & Hvs & _)]; subst. simpl. intros [? _]%app_nil. by apply Hvs. }
    split_and!; [exact Hu|exact Hne| |].
    + apply Forall_app. split.
      * apply Forall_forall. intros v (vs & Hv & Hvs)%list_elem_of_In%in_concat.
        apply list_elem_of_In in Hv, Hvs. apply list_elem_of_lookup in Hv as [i Hi].
        destruct (Forall2_lookup_r _ _ _ _ _ Hall Hi) as (x & Hx & _ & _ & Hok & _).
        rewrite Forall_forall in Hok. destruct (Hok _ Hvs) as (Hn & Hlu & Hsub & Hnn & Hleaf). split_and!; [|done| |done|done].
        -- eapply in_child; [exact Ec| |exact Hn]. by eapply list_elem_of_lookup_2.
        -- intros y Hy%Hsub. apply list_elem_of_In, in_concat. exists (leaves_of vs).
           split; [apply in_map; apply list_elem_of_In; by eapply list_elem_of_lookup_2|by apply list_elem_of_In].
      * apply Forall_singleton. split_and!; simpl; rewrite ?leaves_of_concat; [constructor|done|done|done|done].
    + intros n Hn. inversion Hn as [|? l x ? Hl Hx Hxn]; subst; [eexists; split; [apply elem_of_app; right; by left|done]|].
      rewrite Ec in Hl. injection Hl as <-. apply list_elem_of_lookup in Hx as [i Hi].
      destruct (Forall2_lookup_l _ _ _ _ _ Hall Hi) as (vs & Hvs & _ & _ & _ & Hin).
      destruct (Hin _ Hxn) as (v & Hv & <-). exists v. split; [|done]. apply elem_of_app. left.
      apply list_elem_of_In, in_concat. exists vs. split; apply list_elem_of_In; [by eapply list_elem_of_lookup_2|done].
Qed.

Lemma iter_nodes_walk root : walk_ok root.
Proof.
  enough (walk_ok root /\ forall l, root = PList l -> Forall walk_ok l) as [? _] by done.
  induction root as [| | | | |l IH|d IH] using pyval_rect'; (split; [|intros ? [= ]]); try (apply walk_ok_step; done).
  - subst. eapply Forall_impl; [exact IH|]. by intros v [Hv _].
  - apply walk_ok_step. intros l [= Hl]. destruct (assoc "children" d) as [v|] eqn:Ea; [|done]. simpl in Hl. subst v.
    apply assoc_elem in Ea. rewrite Forall_forall in IH. by apply (IH _ Ea).
Qed.

Lemma leaves_under_unique node l1 : leaves_under node l1 -> forall l2, leaves_under node l2 -> l1 = l2.
Proof.
  revert node l1. fix F 3. intros node l1 H1 l2 H2.
  destruct H1 as [node ch ref leaf Hc Ht Hr Hl|node c cs lss Hc HF].
  - inversion H2 as [? ch' ref' leaf' Hc' Ht' Hr' Hl'|? c' cs' ? Hc']; subst; [congruence|].
    rewrite Hc in Hc'. injection Hc' as ->. done.
  - inversion H2 as [? ch' ? ? Hc' Ht'|? c' cs' lss' Hc' HF']; subst.
    + rewrite Hc in Hc'. injection Hc' as <-. done.
    + rewrite Hc in Hc'. injection Hc' as <- <-. f_equal. clear - F HF HF'.
      revert lss' HF'. induction HF as [|x ls xs lss Hx HF IH]; intros lss' HF'; inversion HF'; subst; [done|].
      f_equal; [by eapply F|by apply IH].
Qed.

Lemma cut_leaves_walk root vs : _iter_nodes root = Ok vs -> _cut_leaves root = Ok (leaves_of vs).
Proof.
  intros E. unfold _cut_leaves. rewrite E. cbn [mbind res_bind]. destruct (iter_nodes_walk _ _ E) as (_ & _ & Hv & _).
  revert Hv. unfold leaves_of at 1. generalize (concat (map v_leaves (List.filter v_leaf vs))). intros all Hv. clear E.
  unfold leaves_of. induction Hv as [|v vs (_ & _ & _ & _ & Hleaf) _ IH]; [done|]. simpl. destruct (v_leaf v); [|exact IH].
  destruct (Hleaf eq_refl) as (ref & leaf & Er & El & Hl). cbn [res_map]. rewrite Er. cbn [mbind res_bind]. rewrite El.
  cbn [mbind res_bind map concat]. by rewrite IH, Hl.
Qed.

(** *** The cuts agree *)

Lemma repeated_spec seen leaves again all :
  repeated seen leaves = (again, all) -> NoDup seen ->
  (again = [] <-> NoDup (seen ++ leaves)) /\ forall l, l ∈ all <-> l ∈ seen \/ l ∈ leaves.
Proof.
  revert seen again all. induction leaves as [|x leaves IH]; intros seen again all E Hs; simpl in E.
  - injection E as <- <-. rewrite app_nil_r. split; [done|]. intros l. rewrite elem_of_nil. tauto.
  - case_bool_decide as Hx.
    + destruct (repeated seen leaves) as [r s] eqn:Er. injection E as <- <-. destruct (IH _ _ _ Er Hs) as [_ IHs]. split.
      * split; [done|]. intros (_ & Hd & _)%NoDup_app. destruct (Hd x Hx). by left.
      * intros l. rewrite IHs, elem_of_cons. naive_solver.
    + assert (NoDup (seen ++ [x])) as Hs' by (apply NoDup_app; split_and!; [done| |apply NoDup_singleton]; intros y Hy ->%list_elem_of_singleton; done).
      destruct (IH _ _ _ E Hs') as [IHn IHs]. rewrite IHn, <- app_assoc. split; [done|].
      intros l. rewrite IHs, elem_of_app, list_elem_of_singleton, elem_of_cons. tauto.
Qed.

Lemma minus_refs_nil a b : minus_refs a b = [] <-> a ⊆ b.
Proof.
  unfold minus_refs, subseteq, list_subseteq. induction a as [|x a IH]; simpl.
  - split; [by intros _ l Hl%elem_of_nil|done].
  - setoid_rewrite elem_of_cons. case_bool_decide as Hx; simpl; [rewrite IH; naive_solver|].
    split; [done|]. intros Hs. destruct Hx. apply Hs. by left.
Qed.

Lemma same_leaves_law n0 base no v : same_leaves n0 base no = Ok v -> v = [] <-> forall l, l ∈ base <-> l ∈ no.2.
Proof.
  unfold same_leaves. intros E.
  assert ((minus_refs base no.2 = [] /\ minus_refs no.2 base = []) <-> forall l, l ∈ base <-> l ∈ no.2) as <-.
  { rewrite !minus_refs_nil. unfold subseteq, list_subseteq. naive_solver. }
  destruct (minus_refs base no.2) as [|x a], (minus_refs no.2 base) as [|y b];
    [injection E as <-; tauto| | |];
    (apply bind_Ok_inv in E as (? & _ & E); apply bind_Ok_inv in E as (? & _ & [= <-]); split; [done|by intros []]).
Qed.

(** *** Instruments and positions *)

Lemma class_violation_law iref ac v :
  class_violation iref ac = Ok v -> v = [] <-> exists rung, ac = PStr rung /\ rung ∈ ASSET_CLASS_LADDER.*1.
Proof.
  unfold class_violation. intros E. rewrite <- existsb_text.
  destruct (truthy ac) eqn:Et; cbn [negb] in E.
  - destruct (hashable ac); [|discriminate E]. cbn [negb] in E.
    destruct (existsb (eq_str ac) ASSET_CLASS_LADDER.*1); injection E as <-; done.
  - injection E as <-. split; [done|]. intros (t & -> & Ht)%existsb_text. destruct t; [|done].
    repeat (apply elem_of_cons in Ht as [?|Ht]; [done|]). by apply elem_of_nil in Ht.
Qed.

Lemma issuer_violation_law entities iref issuer v :
  issuer_violation entities iref issuer = Ok v -> v = [] <->
  exists i ent kind, issuer = PStr i /\ i <> EmptyString /\ py_get entities i PNone = Ok ent /\
    py_get ent "kind" PNone = Ok (PStr kind) /\ kind ∈ ISSUER_ENTITY_KINDS.
Proof.
  unfold issuer_violation. intros E. destruct (truthy issuer) eqn:Et; cbn [negb] in E.
  2: { injection E as <-. split; [done|]. intros (i & ? & ? & -> & Hi & _). by destruct i. }
  apply bind_Ok_inv in E as (ent & Ee & E).
  destruct ent as [| | | | | |kvs]; try discriminate E.
  - injection E as <-. split; [done|]. intros (i & ent & kind & -> & _ & Hg & Hk & _). simpl in Ee.
    rewrite Hg in Ee. by injection Ee as ->.
  - apply bind_Ok_inv in E as (kind & Ek & E). destruct (hashable kind); [|discriminate E]. cbn [negb] in E.
    destruct issuer as [| | | |i| |]; try (destruct entities; discriminate Ee).
    simpl in Ee. destruct (existsb (eq_str kind) ISSUER_ENTITY_KINDS) eqn:Eb; injection E as <-.
    + apply existsb_text in Eb as (t & -> & Ht). split; [|done]. intros _. exists i, (PDict kvs), t. split_and!; try done. by intros ->.
    + split; [done|]. intros (i' & ent & k & [= <-] & _ & Hg & Hk & Hin). rewrite Hg in Ee. injection Ee as ->.
      rewrite Hk in Ek. injection Ek as <-. rewrite (proj2 (existsb_text (PStr k) _)) in Eb; [done|eauto].
Qed.

Lemma instrument_law entities ii v : instrument_violations entities ii = Ok v -> v = [] <-> instrument_ok entities ii.2.
Proof.
  unfold instrument_violations, instrument_ok. intros E. apply bind_Ok_inv in E as (ac & Ha & E).
  apply bind_Ok_inv in E as (v1 & E1 & E). apply bind_Ok_inv in E as (issuer & Hi & E). apply bind_Ok_inv in E as (v2 & E2 & [= <-]).
  rewrite app_nil, (class_violation_law _ _ _ E1), (issuer_violation_law _ _ _ _ E2), Ha, Hi. split.
  - intros [(r & -> & Hr) (i & ent & kind & -> & ?)]. exists r, i, ent, kind. tauto.
  - intros (r & i & ent & kind & [= ->] & Hr & [= ->] & ?). split; eauto 10.
Qed.

Lemma instruments_law entities items vss :
  res_map (instrument_violations entities) items = Ok vss -> concat vss = [] <-> Forall (instrument_ok entities) items.*2.
Proof.
  rewrite res_map_Ok_Forall2, Forall_fmap. induction 1 as [|ii v items vss Hv _ IH]; [done|]. simpl.
  by rewrite app_nil, Forall_cons, (instrument_law _ _ _ Hv), IH.
Qed.

Lemma add_position_inv instruments e vs pos e' vs' :
  add_position instruments (e, vs) pos = Ok (e', vs') ->
  (position_ok instruments pos /\ vs' = vs /\ exists leaf x,
     (forall l, holding l pos = if String.eqb leaf l then Some x else None) /\
     e' = assoc_set leaf (F64.add (default F64.zero (assoc leaf e)) x) e) \/
  (~ position_ok instruments pos /\ vs' <> [] /\ e' = e).
Proof.
  unfold add_position, position_ok, holding. intros E. apply bind_Ok_inv in E as (pid & _ & E).
  apply bind_Ok_inv in E as (iref & -> & E). apply bind_Ok_inv in E as (known & Hk & E).
  destruct known; cbn [negb] in E.
  2: { right. injection E as <- <-. split_and!; [|by intros [_ ?]%app_nil|done].
       intros (i & l & [= ->] & Hi & _). simpl in Hk. congruence. }
  apply bind_Ok_inv in E as (leaf & -> & E). destruct (truthy leaf) eqn:Et; cbn [negb] in E.
  2: { right. injection E as <- <-. split_and!; [|by intros [_ ?]%app_nil|done]. intros (i & l & _ & _ & [= ->] & Hl). by destruct l. }
  left. destruct leaf as [| | | |l| |]; try discriminate E. apply bind_Ok_inv in E as (ex & He & E).
  apply bind_Ok_inv in E as (x & Hx & [= <- <-]). rewrite He. cbn [mbind res_bind]. rewrite Hx. split_and!; [|done|by exists l, x].
  destruct iref as [| | | |i| |]; try discriminate Hk. exists i, l. split_and!; try done. by intros ->.
Qed.

Lemma positions_law instruments positions e vs :
  res_fold (add_position instruments) ([], []) positions = Ok (e, vs) ->
  NoDup e.*1 /\ (vs = [] <-> Forall (position_ok instruments) positions) /\ (vs = [] -> forall l, assoc l e = booked positions l).
Proof.
  revert e vs. induction positions as [|pos positions IH] using rev_ind; intros e vs E.
  - injection E as <- <-. split_and!; [constructor|done|done].
  - rewrite res_fold_app in E. apply bind_Ok_inv in E as ([e0 vs0] & E0 & E). destruct (IH _ _ E0) as (Hnd & Hvs & Hb).
    simpl in E. apply bind_Ok_inv in E as ([e1 vs1] & Ea & [= <- <-]). rewrite Forall_app, Forall_singleton.
    apply add_position_inv in Ea as [(Hok & -> & leaf & x & Hh & ->)|(Hno & Hne & ->)]; [|by split_and!; tauto].
    split_and!; [by apply NoDup_assoc_set|tauto|]. intros Hnil l. unfold booked. rewrite omap_app. simpl. rewrite Hh.
    specialize (Hb Hnil l). unfold booked in Hb. destruct (String.eqb_spec leaf l) as [<-|Hl].
    + rewrite assoc_set_eq, Hb. destruct (omap (holding leaf) positions) as [|y ys]; [done|]. simpl.
      by rewrite fold_left_app.
    + rewrite assoc_set_ne, app_nil_r by congruence. exact Hb.
Qed.

(** *** Conservation *)

Definition backed (book : string -> option spec_float) (l : option string) : Prop := exists s, l = Some s /\ is_Some (book s).

Definition node_sound (book : string -> option spec_float) (v : visit) : Prop :=
  (exists l, l ∈ v_leaves v /\ backed book l) /\
  forall d, _declared_exposure (v_node v) = Ok (Some d) -> apart TOL (fsum (map (backing book) (v_leaves v))) d = false.

Lemma backing_of_Some e l : is_Some (backing_of e l) <-> backed (fun s => assoc s e) l.
Proof. unfold backed. destruct l as [s|]; simpl; split; [eauto|by intros (? & [= <-] & ?)|by intros []|by intros (? & [=] & _)]. Qed.

Lemma conserve_node_law e name v r :
  conserve_node fsum e name v = Ok r -> r = [] <-> node_sound (fun s => assoc s e) v.
Proof.
  unfold conserve_node, node_sound. intros E. apply bind_Ok_inv in E as (ref & _ & E). rewrite map_map in E.
  change (fun x => default F64.zero (backing_of e x)) with (backing (fun s => assoc s e)) in E.
  match type of E with (if negb ?b then _ else _) = _ => assert (b = true <-> exists l, l ∈ v_leaves v /\ backed (fun s => assoc s e) l) as Hb end.
  { rewrite existsb_exists. setoid_rewrite <- backing_of_Some. split.
    - intros (o & (l & <- & Hl%list_elem_of_In)%in_map_iff & Ho). exists l. split; [done|]. by destruct (backing_of e l).
    - intros (l & Hl%list_elem_of_In & x & Hx). exists (Some x). split; [|done]. rewrite <- Hx. by apply in_map. }
  destruct (existsb _ _) eqn:Eb; cbn [negb] in E.
  - apply bind_Ok_inv in E as ([d|] & Hd & E); rewrite Hd; (split; [intros Hr; split; [by apply Hb|]|intros [_ Ha]]).
    + intros d' [= <-]. destruct (apart TOL _ d); [|done]. injection E as <-. discriminate Hr.
    + rewrite (Ha d eq_refl) in E. by injection E as <-.
    + done.
    + by injection E as <-.
  - injection E as <-. split; [done|]. intros [Hl _]. by apply Hb in Hl.
Qed.

Lemma conserve_cut_law e nr r vs :
  conserve_cut fsum e nr = Ok r -> _iter_nodes nr.2 = Ok vs -> r = [] <-> Forall (node_sound (fun s => assoc s e)) vs.
Proof.
  unfold conserve_cut. intros E Hv. rewrite Hv in E. cbn [mbind res_bind] in E. apply bind_Ok_inv in E as (rs & Hr & [= <-]).
  apply res_map_Ok_Forall2 in Hr. clear Hv. induction Hr as [|v r vs rs Hv _ IH]; [done|]. simpl.
  by rewrite app_nil, Forall_cons, IH, (conserve_node_law _ _ _ _ Hv).
Qed.

Lemma elem_of_leaves_of l vs : l ∈ leaves_of vs -> exists v, v ∈ vs /\ v_leaf v = true /\ l ∈ v_leaves v.
Proof.
  unfold leaves_of. rewrite list_elem_of_In, in_concat. intros (x & (v & <- & Hv)%in_map_iff & Hl).
  apply list_elem_of_In, elem_of_lfilter in Hv as [Hv Ht]. exists v. split_and!; [done..|]. by apply list_elem_of_In.
Qed.

(** A cut is in order when its nodes are sound and its leaves are the backed
    ones, each once. *)
Lemma cut_ok_visits book root vs :
  _iter_nodes root = Ok vs ->
  cut_ok book root <-> NoDup (leaves_of vs) /\ (forall l, backed book l -> l ∈ leaves_of vs) /\ Forall (node_sound book) vs.
Proof.
  intros E. destruct (iter_nodes_walk _ _ E) as (Hu & _ & Hv & Hn). rewrite Forall_forall in Hv. split.
  - intros (leaves & Hl & Hd & Hb & Hc). rewrite <- (leaves_under_unique _ _ Hl _ Hu) in Hv |- *.
    split_and!; [done|by intros l Hbl; apply Hb|]. apply Forall_forall. intros v Hin.
    destruct (Hv _ Hin) as (Hni & Hlu & Hsub & Hne & _). split; [|intros d; by apply Hc].
    destruct (v_leaves v) as [|l ls]; [done|]. exists l. split; [by left|]. apply Hb, Hsub. by left.
  - intros (Hd & Hb & Hs). rewrite Forall_forall in Hs. exists (leaves_of vs). split_and!; [done..| |].
    + intros l. split; [|apply Hb]. intros (v & Hin & Ht & Hl)%elem_of_leaves_of.
      destruct (Hs _ Hin) as [(l' & Hl' & Hb') _], (Hv _ Hin) as (_ & _ & _ & _ & Hleaf).
      destruct (Hleaf Ht) as (ref & leaf & _ & _ & Hls). rewrite Hls in Hl, Hl'.
      apply list_elem_of_singleton in Hl as ->, Hl' as ->. exact Hb'.
    + intros node below d (v & Hin & <-)%Hn Hlu Hdecl. destruct (Hv _ Hin) as (_ & Hlu' & _).
      rewrite (leaves_under_unique _ _ Hlu _ Hlu'). by apply (Hs _ Hin).
Qed.

Lemma cut_ok_leaves book root vs l : cut_ok book root -> _iter_nodes root = Ok vs -> l ∈ leaves_of vs <-> backed book l.
Proof.
  intros (leaves & Hl & _ & Hb & _) E. destruct (iter_nodes_walk _ _ E) as (Hu & _).
  rewrite <- (leaves_under_unique _ _ Hl _ Hu). apply Hb.
Qed.

(** *** All the checks on the cuts *)

Section cuts.
Variable iter_set : list string -> list string.
Hypothesis iter_set_perm : forall l, iter_set l ≡ₚ l.
Variables (cuts : dict) (vss : list (list visit)).
Hypothesis walked_cuts : Forall2 (fun nr vs => _iter_nodes nr.2 = Ok vs) cuts vss.

Definition same_as_first (sets : list (list (option string))) : Prop :=
  match sets with [] => True | base :: rest => Forall (fun other => forall l, l ∈ base <-> l ∈ other) rest end.

Lemma cut_repeats_law nr vs w :
  _iter_nodes nr.2 = Ok vs -> cut_repeats nr = Ok w ->
  (w.2.1 = [] <-> NoDup (leaves_of vs)) /\ forall l, l ∈ w.2.2 <-> l ∈ leaves_of vs.
Proof.
  intros Hv E. unfold cut_repeats in E. rewrite (cut_leaves_walk _ _ Hv) in E. cbn [mbind res_bind] in E.
  destruct (repeated [] (leaves_of vs)) as [again seen] eqn:Er. injection E as <-. simpl.
  destruct (repeated_spec _ _ _ _ Er (NoDup_nil_2)) as [Ha Hs]. split.
  - rewrite <- Ha. by destruct again.
  - intros l. rewrite Hs, elem_of_nil. tauto.
Qed.

Lemma orphans_nil (keys : list string) (test : string -> bool) (msg : string -> string) :
  map msg (iter_set (List.filter (fun l => negb (test l)) keys)) = [] <-> Forall (fun l => test l = true) keys.
Proof.
  assert (forall l, map msg (iter_set l) = [] <-> l = []) as ->.
  { intros l. pose proof (Permutation_length (iter_set_perm l)) as Hl. split.
    - by destruct (iter_set l), l.
    - intros ->. by destruct (iter_set []). }
  induction keys as [|k keys IH]; [done|]. simpl. rewrite Forall_cons. destruct (test k); simpl; naive_solver.
Qed.

Lemma reconciliation_law keys v :
  _check_cross_cut_reconciliation iter_set cuts keys = Ok v ->
  v = [] <-> Forall (fun vs => NoDup (leaves_of vs)) vss /\ same_as_first (map leaves_of vss) /\
             Forall (fun k => exists vs, vs ∈ vss /\ Some k ∈ leaves_of vs) keys.
Proof.
  unfold _check_cross_cut_reconciliation. intros E. apply bind_Ok_inv in E as (walked & Ew & E).
  apply bind_Ok_inv in E as (diffs & Ed & [= <-]). apply res_map_Ok_Forall2 in Ew.
  assert (Forall2 (fun vs (w : string * (list string * list (option string))) =>
    (w.2.1 = [] <-> NoDup (leaves_of vs)) /\ forall l, l ∈ w.2.2 <-> l ∈ leaves_of vs) vss walked) as Hw.
  { eapply Forall2_join; [exact walked_cuts|exact Ew|]. intros nr vs w. apply cut_repeats_law. }
  rewrite !app_nil, concat_map_nil, orphans_nil. f_equiv; [|f_equiv].
  - clear -Hw. induction Hw as [|vs w vss walked [Hn _] _ IH]; [done|]. by rewrite !Forall_cons, Hn, IH.
  - clear -Hw Ed. destruct Hw as [|vs0 w0 vss walked [_ H0] Hw]; [by injection Ed as <-|]. simpl in *.
    revert diffs Ed. induction Hw as [|vs w vss walked [_ Hs] _ IH]; intros diffs Ed; [by injection Ed as <-|].
    simpl in Ed. apply bind_Ok_inv in Ed as (v1 & E1 & Ed). apply bind_Ok_inv in Ed as (v2 & E2 & [= <-]). simpl.
    rewrite app_nil, Forall_cons, (IH _ E2), (same_leaves_law _ _ _ _ E1). simpl. setoid_rewrite H0. by setoid_rewrite Hs.
  - apply Forall_iff. intros k. rewrite bool_decide_eq_true. clear -Hw.
    induction Hw as [|vs w vss walked [_ Hs] _ IH]; simpl; [rewrite elem_of_nil; setoid_rewrite elem_of_nil; naive_solver|].
    rewrite elem_of_app, IH, Hs. setoid_rewrite elem_of_cons. naive_solver.
Qed.

Lemma conservation_law e v :
  _check_conservation_and_phantoms fsum cuts e = Ok v -> v = [] <-> Forall (Forall (node_sound (fun s => assoc s e))) vss.
Proof.
  unfold _check_conservation_and_phantoms. intros E. apply bind_Ok_inv in E as (rs & Er & [= <-]).
  apply res_map_Ok_Forall2 in Er.
  assert (Forall2 (fun vs r => r = [] <-> Forall (node_sound (fun s => assoc s e)) vs) vss rs) as Hr.
  { eapply Forall2_join; [exact walked_cuts|exact Er|]. intros nr vs r Hv Hr. by apply (conserve_cut_law _ nr). }
  clear -Hr. induction Hr as [|vs r vss rs Hr _ IH]; [done|]. simpl. by rewrite app_nil, Forall_cons, Hr, IH.
Qed.

Lemma cuts_law e v3 v4 :
  _check_cross_cut_reconciliation iter_set cuts e.*1 = Ok v3 -> _check_conservation_and_phantoms fsum cuts e = Ok v4 ->
  cuts <> [] -> v3 = [] /\ v4 = [] <-> Forall (cut_ok (fun s => assoc s e)) cuts.*2.
Proof.
  intros E3 E4 Hne. rewrite (reconciliation_law _ _ E3), (conservation_law _ _ E4).
  assert (forall l, backed (fun s => assoc s e) l <-> exists k, l = Some k /\ k ∈ e.*1) as Hk.
  { intros l. unfold backed. setoid_rewrite <- not_eq_None_Some. setoid_rewrite assoc_None. f_equiv. intros s.
    destruct (decide (s ∈ e.*1)); naive_solver. }
  split.
  - intros [(Hnd & Hsame & Hor) Hs]. apply Forall_fmap, Forall_forall. intros nr [i Hi]%list_elem_of_lookup.
    destruct (Forall2_lookup_l _ _ _ _ _ walked_cuts Hi) as (vs & Hvs & Ev). apply (cut_ok_visits _ _ _ Ev).
    apply list_elem_of_lookup_2 in Hvs. pose proof (proj1 (Forall_forall _ _) Hor) as Hor0. rewrite Forall_forall in Hnd, Hs. split_and!; [by apply Hnd| |by apply Hs].
    intros l (k & -> & Hin)%Hk. destruct (Hor0 _ Hin) as (vs' & Hvs' & Hl).
    destruct vss as [|b rest]; [by apply elem_of_nil in Hvs|]. simpl in Hsame. rewrite Forall_fmap, Forall_forall in Hsame.
    assert (forall x, x ∈ b :: rest -> forall l, l ∈ leaves_of b <-> l ∈ leaves_of x) as Hall.
    { intros x [->|Hx]%elem_of_cons l; [done|]. by apply Hsame. }
    by apply (Hall _ Hvs), (Hall _ Hvs').
  - rewrite Forall_fmap. intros Hok.
    assert (Forall (fun vs => NoDup (leaves_of vs) /\ (forall l, l ∈ leaves_of vs <-> backed (fun s => assoc s e) l) /\
      Forall (node_sound (fun s => assoc s e)) vs) vss) as Hall.
    { apply Forall_forall. intros vs [i Hi]%list_elem_of_lookup.
      destruct (Forall2_lookup_r _ _ _ _ _ walked_cuts Hi) as (nr & Hnr & Hv). apply list_elem_of_lookup_2 in Hnr.
      rewrite Forall_forall in Hok. specialize (Hok _ Hnr).
      destruct (proj1 (cut_ok_visits _ _ _ Hv) Hok) as (? & _ & ?). split_and!; [done| |done].
      intros l. by apply (cut_ok_leaves _ nr.2). }
    split_and!; [by eapply Forall_impl; [exact Hall|]; intros ? (? & _)| | |by eapply Forall_impl; [exact Hall|]; intros ? (_ & _ & ?)].
    + destruct vss as [|b rest]; [done|]. simpl. apply Forall_cons in Hall as [(_ & Hb & _) Hall].
      apply Forall_fmap. eapply Forall_impl; [exact Hall|]. intros vs (_ & Hvs & _) l. simpl. by rewrite Hb, Hvs.
    + apply Forall_forall. intros k Hin. destruct walked_cuts as [|nr vs cuts' vss' Hv _]; [done|].
      exists vs. split; [by left|]. apply Forall_cons in Hall as [(_ & Hb & _) _]. apply Hb, Hk. eauto.
Qed.
End cuts.
End laws.

Section verdict.
Context `{FloatRepr}.
Variable fsum : list spec_float -> spec_float.
Variable incompatible : list (string * string).
Variable iter_set : list string -> list string.
Hypothesis iter_set_perm : forall l, iter_set l ≡ₚ l.

#[local] Abbreviation evaluate := (evaluate_binding fsum incompatible iter_set).

Definition walker_accepts (dr : seal_draw) (tree : pyval) : Prop :=
  exists wv g, evaluate_tree fsum incompatible dr tree false false None = Ok (wv, g) /\ al_verdict wv <> REJECTED.

Lemma ask_walker_law dr tree verdict vs : ask_walker fsum incompatible dr tree = Ok (verdict, vs) -> vs = [] <-> walker_accepts dr tree.
Proof.
  unfold ask_walker, walker_accepts. destruct (evaluate_tree _ _ _ _ _ _ _) as [[wv g]|[]] eqn:Ew; try discriminate.
  - intros [= <- <-]. destruct (String.eqb_spec (al_verdict wv) REJECTED) as [Hr|Hr].
    + split; [done|]. intros (wv' & g' & [= <- <-] & Hn). done.
    + split; [eauto|done].
  - intros [= <- <-]. split; [done|]. by intros (? & ? & [=] & _).
Qed.

Lemma cut_ok_ext f g root : (forall s, f s = g s) -> cut_ok fsum f root <-> cut_ok fsum g root.
Proof.
  intros Hfg. unfold cut_ok.
  assert (forall l, map (backing f) l = map (backing g) l) as Hm.
  { intros l. apply map_ext. intros [s|]; [|done]. unfold backing. simpl. by rewrite Hfg. }
  f_equiv. intros leaves. repeat setoid_rewrite Hfg. by setoid_rewrite Hm.
Qed.

Lemma cuts_of_inv spec tree cuts :
  cuts_of spec = Ok (tree, cuts) ->
  exists t, tree = PDict t /\ py_get spec "tree" PNone = Ok tree /\ assoc "cuts" t = Some (PDict cuts) /\ cuts <> [].
Proof.
  unfold cuts_of. intros E. apply bind_Ok_inv in E as (tr & Et & E). destruct tr as [| | | | | |t]; try discriminate E.
  destruct (assoc "cuts" t) as [[| | | | | |[|c cs]]|] eqn:Ec; try discriminate E. injection E as <- <-. eauto.
Qed.

Definition book_bound (wd : seal_draw) (tree entities : pyval) (instruments cuts : dict) (positions : list pyval) : Prop :=
  Forall (instrument_ok entities) instruments.*2 /\ Forall (position_ok (PDict instruments)) positions /\
  Forall (cut_ok fsum (booked positions)) cuts.*2 /\ walker_accepts wd tree.

(** What an evaluated binding went through. *)
Lemma evaluate_binding_inv dr wd spec named persist f v f' :
  evaluate dr wd spec named persist f = Ok (v, f') ->
  exists entities instruments positions tree cuts v0 level reason,
    py_get spec "entities" (PDict []) = Ok entities /\ py_get spec "instruments" (PDict []) = Ok (PDict instruments) /\
    py_get spec "positions" PNone = Ok (PList positions) /\ py_get spec "tree" PNone = Ok (PDict tree) /\
    assoc "cuts" tree = Some (PDict cuts) /\
    (b_violations v0 = [] <-> book_bound wd (PDict tree) entities instruments cuts positions) /\
    project_binding (b_violations v0) = (b_verdict v0, b_status v0, level, reason) /\
    seal_binding dr v0 named persist f = Ok (v, f').
Proof.
  unfold evaluate_binding. intros E. apply bind_Ok_inv in E as (id & _ & E). apply bind_Ok_inv in E as ([tree cuts] & Et & E).
  apply cuts_of_inv in Et as (t & -> & Et & Ec & Hne). apply bind_Ok_inv in E as (positions & Ep & E).
  destruct positions as [| | | | |[|p ps]|]; try discriminate E. apply bind_Ok_inv in E as (v1 & E1 & E).
  apply bind_Ok_inv in E as ([e v2] & E2 & E). apply bind_Ok_inv in E as (v3 & E3 & E). apply bind_Ok_inv in E as (v4 & E4 & E).
  apply bind_Ok_inv in E as ([wv v5] & E5 & E).
  destruct (project_binding _) as [[[verdict status] level] reason] eqn:Ev.
  unfold _validate_instruments_and_issuers in E1. apply bind_Ok_inv in E1 as (entities & Een & E1).
  apply bind_Ok_inv in E1 as (instruments & Ei & E1). apply bind_Ok_inv in E1 as (items & Eit & E1).
  apply bind_Ok_inv in E1 as (vss & Evs & [= <-]). destruct instruments as [| | | | | |instruments]; try discriminate Eit. injection Eit as <-.
  assert (res_fold (add_position (PDict instruments)) ([], []) (p :: ps) = Ok (e, v2)) as Hps.
  { unfold _validate_positions in E2. rewrite Ei in E2. destruct spec as [| | | | | |spec]; try discriminate Ep.
    simpl in Ep. destruct (assoc "positions" spec) as [l|] eqn:El; [|discriminate Ep]. injection Ep as ->.
    cbn [mbind res_bind py_get] in E2. rewrite El in E2. exact E2. }
  exists entities, instruments, (p :: ps), t, cuts. eexists _, level, reason.
  split_and!; [exact Een|exact Ei|exact Ep|exact Et|exact Ec| | |exact E]; [|exact Ev].
  destruct (positions_law _ _ _ _ Hps) as (_ & Hpok & Hbook).
  assert (exists vss, Forall2 (fun nr vs => _iter_nodes nr.2 = Ok vs) cuts vss) as [wss Hws].
  { unfold _check_conservation_and_phantoms in E4. apply bind_Ok_inv in E4 as (rs & Hr & _). apply res_map_Ok_Forall2 in Hr.
    clear -Hr. induction Hr as [|nr r cuts rs Hr _ [wss IH]]; [by exists []|]. apply bind_Ok_inv in Hr as (vs & Hv & _).
    exists (vs :: wss). by constructor. }
  simpl. unfold book_bound. rewrite !app_nil, (instruments_law _ _ _ Evs), (ask_walker_law _ _ _ _ E5), Hpok.
  assert (v3 = [] /\ v4 = [] <-> Forall (cut_ok fsum (fun s => assoc s e)) cuts.*2) as Hcuts by (by eapply cuts_law).
  assert (Forall (position_ok (PDict instruments)) (p :: ps) ->
    (Forall (cut_ok fsum (booked (p :: ps))) cuts.*2 <-> Forall (cut_ok fsum (fun s => assoc s e)) cuts.*2)) as Hext.
  { intros Hb%Hpok. specialize (Hbook Hb). apply Forall_iff. intros root. apply cut_ok_ext. intros s. by rewrite Hbook. }
  tauto.
Qed.

Lemma seal_binding_inv dr v0 named persist f v f' :
  seal_binding dr v0 named persist f = Ok (v, f') ->
  exists prev event,
    last_link named f = Ok prev /\ v = with_proof v0 ("proof-ppb-" +:+ s_hex dr) (b_receipt v) /\
    f' = (if persist then append (PDict event) f else f) /\
    assoc "prev_hash" event = Some prev /\ assoc "hash" event = Some (PStr (b_receipt v)) /\
    b_receipt v = _sha (PDict (assoc_del "hash" event)) /\
    assoc "artifact" event = Some (PDict (binding_artifact v)).
Proof.
  unfold seal_binding. intros E. apply bind_Ok_inv in E as (prev & Ep & [= <- <-]).
  eexists prev, _. split_and!; [exact Ep|reflexivity..].
Qed.

(** ** Properties *)

(** A book VERIFIES exactly when it sources the hierarchy.  Every instrument
    is on the ladder with an issuer the roster lists as one, every position is in
    a listed instrument and at a leaf, every cut places each leaf the positions
    back exactly once and no other, what a node declares is within tolerance of
    the exposures of the positions below it, and the walker accepts the tree;
    any other book is REJECTED. *)
Theorem binding_verifies_iff dr wd spec named persist f v f' :
  evaluate dr wd spec named persist f = Ok (v, f') ->
  exists entities instruments positions tree cuts,
    py_get spec "entities" (PDict []) = Ok entities /\ py_get spec "instruments" (PDict []) = Ok (PDict instruments) /\
    py_get spec "positions" PNone = Ok (PList positions) /\ py_get spec "tree" PNone = Ok (PDict tree) /\
    assoc "cuts" tree = Some (PDict cuts) /\
    let bound := book_bound wd (PDict tree) entities instruments cuts positions in
    (b_verdict v = VERIFIES <-> bound) /\ (b_verdict v = REJECTED <-> ~ bound).
Proof.
  intros E. apply evaluate_binding_inv in E as (en & ins & ps & t & cuts & v0 & level & reason & ? & ? & ? & ? & ? & Hv & Ev & Es).
  exists en, ins, ps, t, cuts. split_and!; [done..|]. apply seal_binding_inv in Es as (? & ? & _ & -> & _).
  cbn [with_proof b_verdict]. cbv zeta. rewrite <- Hv. assert (VERIFIES <> REJECTED) by done. revert Ev. unfold project_binding.
  destruct (b_violations v0) as [|viol viols]; intros [= <- _ _ _]; [|assert (viol :: viols <> []) by done]; split; split; tauto || congruence.
Qed.

(** A verdict sealed in a ledger the caller names links to its head. *)
Lemma binding_receipt_is_head dr wd spec f v f' :
  rtc ledger_step None f -> evaluate dr wd spec true true f = Ok (v, f') ->
  extends f f' /\ exists n event,
    verify_ledger f' GENESIS = Ok (mkVerifyResult true n (Some (b_receipt v)) None None) /\
    f' = append (PDict event) f /\ assoc "artifact" event = Some (PDict (binding_artifact v)).
Proof.
  intros (recs & h & s & Hr & Hc & He)%ledger_steps_single_writer E.
  apply evaluate_binding_inv in E as (en & ins & ps & t & cuts & v0 & level & reason & _ & _ & _ & _ & _ & _ & _ & Es).
  apply seal_binding_inv in Es as (prev & event & Ep & _ & -> & Hprev & Hhash & Hsha & Hart).
  rewrite (last_link_is_head _ _ _ _ Hr Hc He) in Ep. injection Ep as <-.
  destruct (append_event_verifies _ _ _ _ _ _ _ Hr Hc Hhash Hprev Hsha) as [Hr' Hc'].
  split; [by eexists|]. eexists _, event. split_and!; [|done|done]. apply (verify_ledger_chain _ GENESIS). eauto 10.
Qed.
End verdict.

(** ** Witnesses *)

Section witnesses.
#[local] Existing Instance demo_float_repr.

Definition demo_tree : pyval := PDict [
  ("tree_id", PStr "t"); ("hurdle_rate", half);
  ("cuts", PDict [("product", demo_root (PInt 6) (PInt 3)); ("desk", demo_root (PInt 6) (PInt 3))])].

Definition demo_position (inst leaf : string) (x : Z) : pyval :=
  PDict [("position_id", PStr "p"); ("instrument_ref", PStr inst); ("leaf_ref", PStr leaf); ("exposure", PInt x)].

Definition demo_binding (kind rung : string) (positions : list pyval) : pyval := PDict [
  ("binding_id", PStr "b"); ("tree", demo_tree); ("entities", PDict [("org:1", PDict [("kind", PStr kind)])]);
  ("instruments", PDict [("bond", PDict [("asset_class", PStr rung); ("issuer_ref", PStr "org:1")])]);
  ("positions", PList positions)].

Definition demo_book : list pyval := [demo_position "bond" "a" 1; demo_position "bond" "b" 3; demo_position "bond" "a" 2].

#[local] Abbreviation demo_evaluate spec :=
  (evaluate_binding demo_sum _TERM_REGIME_INCOMPATIBLE (fun l => l) demo_seal demo_seal spec true true None).

(** The book that sums to the tree is accepted; one with an issuer of the wrong
    kind, off the ladder, short of exposure, without backing for a leaf, or with a
    leaf outside the hierarchy is not. *)
Example binding_verdicts_ex :
  map (fun s => match demo_evaluate s with Ok (v, _) => (b_verdict v, length (b_violations v)) | Raise _ => (EmptyString, O) end)
    [demo_binding "ORG" "credit" demo_book; demo_binding "PLACE" "credit" demo_book; demo_binding "ORG" "fx" demo_book;
     demo_binding "ORG" "credit" [demo_position "bond" "a" 1; demo_position "bond" "b" 3];
     demo_binding "ORG" "credit" [demo_position "bond" "a" 6];
     demo_binding "ORG" "credit" (demo_position "bond" "z" 1 :: demo_book);
     demo_binding "ORG" "credit" (demo_position "loan" "a" 1 :: demo_book)]
  = [(VERIFIES, O); (REJECTED, 1); (REJECTED, 1); (REJECTED, 4); (REJECTED, 4); (REJECTED, 1); (REJECTED, 1)]%nat.
Proof. vm_compute. reflexivity. Qed.

Lemma binding_verifies_iff_witness :
  exists v f', demo_evaluate (demo_binding "ORG" "credit" demo_book) = Ok (v, f') /\
    Forall (cut_ok demo_sum (booked demo_book)) [demo_root (PInt 6) (PInt 3); demo_root (PInt 6) (PInt 3)].
Proof.
  destruct (res_view (fun vf => b_verdict vf.1) (demo_evaluate (demo_binding "ORG" "credit" demo_book)) VERIFIES)
    as ([v f'] & E & Hv); [vm_compute; reflexivity|].
  exists v, f'. split; [exact E|].
  destruct (binding_verifies_iff demo_sum _TERM_REGIME_INCOMPATIBLE (fun l => l) (fun l => Permutation_refl l) _ _ _ _ _ _ _ _ E)
    as (en & ins & ps & tr & cuts & _ & _ & Hp & Ht & Hc & [Hb _] & _).
  injection Hp as <-. injection Ht as <-. injection Hc as <-. destruct (Hb Hv) as (_ & _ & Hcuts & _). exact Hcuts.
Defined.
End witnesses.
