(* ===== verification/MeshTopology.v ===== *)
(** * The k-mesh of triads

    Models [automation/mesh_topology.py]: the balanced ternary tree over the
    backends, the nested leader rotation and the quorum of quorums.

    [build_tree] recurses on the parts of a list, which are shorter than the
    list: the model recurses on a fuel, the length of the list, and
    [build_tree_total] shows that it is enough. *)

From S2P Require Import Prelude.
Local Open Scope Z_scope.

Inductive tree :=
| Leaf (backend : string)
| Node (children : list tree).

Section tree_ind.
Variable P : tree -> Prop.
Hypothesis Hleaf : forall x, P (Leaf x).
Hypothesis Hnode : forall cs, Forall P cs -> P (Node cs).

Fixpoint tree_ind' (t : tree) : P t :=
  match t with
  | Leaf x => Hleaf x
  | Node cs => Hnode cs ((fix go l : Forall P l :=
      match l with [] => Forall_nil_2 _ | c :: cs => Forall_cons_2 _ _ _ (tree_ind' c) (go cs) end) cs)
  end.
End tree_ind.

(** ** Construction *)

Definition split_sizes (n : nat) : list nat :=
  map (fun i => (n / 3 + (if Nat.ltb i (n mod 3) then 1 else 0))%nat) (seq 0 3).

(** The loop over the sizes: an empty part is not appended. *)
Fixpoint split_parts {A} (sizes : list nat) (nodes : list A) : list (list A) :=
  match sizes with
  | [] => []
  | O :: sizes => split_parts sizes nodes
  | s :: sizes => take s nodes :: split_parts sizes (drop s nodes)
  end.

Definition _split3 (nodes : list string) : list (list string) :=
  split_parts (split_sizes (length nodes)) nodes.

Fixpoint build_tree_fuel (fuel : nat) (nodes : list string) : res tree :=
  match nodes with
  | [] => Raise (ValueError "mesh needs at least one backend")
  | _ =>
    if Nat.leb (length nodes) 3 then Ok (Node (map Leaf nodes))
    else match fuel with
         | O => Raise (OtherError "fuel")
         | S fuel => cs ← res_map (build_tree_fuel fuel) (_split3 nodes); Ok (Node cs)
         end
  end.

Definition build_tree (nodes : list string) : res tree := build_tree_fuel (length nodes) nodes.

(** ** Observations *)

Fixpoint leaves (t : tree) : list string :=
  match t with
  | Leaf x => [x]
  | Node cs => concat (map leaves cs)
  end.

(** [max(...)] of a generator: an empty one raises. *)
Definition py_max (l : list Z) : res Z :=
  match l with
  | [] => Raise (ValueError "max() arg is an empty sequence")
  | x :: xs => Ok (foldl Z.max x xs)
  end.

Fixpoint depth (t : tree) : res Z :=
  match t with
  | Leaf _ => Ok 0
  | Node cs => ds ← res_map depth cs; m ← py_max ds; Ok (1 + m)
  end.

Fixpoint turn_length (t : tree) : res Z :=
  match t with
  | Leaf _ => Ok 1
  | Node cs => ds ← res_map turn_length cs; m ← py_max ds; Ok (Z.of_nat (length cs) * m)
  end.

(** [tree[epoch % c]] with [c = 0] raises. *)
Fixpoint tree_leader (t : tree) (epoch : Z) : res string :=
  match t with
  | Leaf x => Ok x
  | Node cs =>
    let c := Z.of_nat (length cs) in
    let pick := fix pick (l : list tree) (i : nat) : res string :=
      match l, i with
      | [], _ => Raise ZeroDivisionError
      | child :: _, O => tree_leader child (epoch / c)
      | _ :: l, S i => pick l i
      end in
    pick cs (Z.to_nat (epoch mod c))
  end.

Definition _quorum (c : nat) : nat := (c / 2 + 1)%nat.

Fixpoint tree_healthy (t : tree) (up : gset string) : bool :=
  match t with
  | Leaf x => bool_decide (x ∈ up)
  | Node cs =>
    let healthy := length (List.filter (fun child => tree_healthy child up) cs) in
    Nat.leb (_quorum (length cs)) healthy
  end.

(** ** Well-formed trees: every internal node has one to three children *)

Fixpoint wf (t : tree) : bool :=
  match t with
  | Leaf _ => true
  | Node cs => Nat.leb 1 (length cs) && Nat.leb (length cs) 3 && forallb wf cs
  end.

(** The perfect tree of depth [d]. *)
Fixpoint perfect (d : nat) (t : tree) : bool :=
  match d, t with
  | O, Leaf _ => true
  | S d, Node cs => Nat.eqb (length cs) 3 && forallb (perfect d) cs
  | _, _ => false
  end.

(** The product of the arities above a backend: the number of epochs in which
    the backend has one turn. *)
Fixpoint path_product (x : string) (t : tree) : option Z :=
  match t with
  | Leaf y => if String.eqb x y then Some 1 else None
  | Node cs =>
    let find := fix find (l : list tree) : option Z :=
      match l with
      | [] => None
      | c :: l => match path_product x c with Some p => Some p | None => find l end
      end in
    p ← find cs; Some (Z.of_nat (length cs) * p)
  end.

(** ** Splitting *)

Lemma split_parts_concat {A} sizes (nodes : list A) :
  sum_list sizes = length nodes -> concat (split_parts sizes nodes) = nodes.
Proof.
  revert nodes; induction sizes as [|[|s] sizes IH]; intros nodes E; simpl in *.
  - by destruct nodes.
  - by apply IH.
  - rewrite IH; [apply (take_drop (S s))|]. rewrite length_drop. lia.
Qed.

Lemma split_parts_length {A} sizes (nodes : list A) :
  sum_list sizes = length nodes ->
  map length (split_parts sizes nodes) = List.filter (fun s => negb (Nat.eqb s 0)) sizes.
Proof.
  revert nodes; induction sizes as [|[|s] sizes IH]; intros nodes E; simpl in *; [done|by apply IH|].
  rewrite IH by (rewrite length_drop; lia). f_equal.
  change (length (take (S s) nodes) = S s). rewrite length_take. lia.
Qed.

Lemma split_sizes_sum n : sum_list (split_sizes n) = n.
Proof.
  unfold split_sizes. pose proof (Nat.div_mod_eq n 3). pose proof (Nat.mod_upper_bound n 3).
  set (q := (n / 3)%nat) in *. set (r := (n mod 3)%nat) in *. clearbody q r. simpl.
  destruct r as [|[|[|]]]; simpl; lia.
Qed.

(** The parts of a list of more than three nodes: three, each shorter than the
    list and at most a third of it rounded up, the first of just that size. *)
Lemma _split3_spec nodes :
  (3 < length nodes)%nat ->
  exists a b c, _split3 nodes = [a; b; c] /\ (a ++ b ++ c)%list = nodes /\
    (length c <= length b <= length a)%nat /\ (1 <= length c)%nat /\ (length a < length nodes)%nat /\
    (length nodes <= 3 * length a < length nodes + 3)%nat /\ (length a <= S (length c))%nat.
Proof.
  intros Hn. unfold _split3. set (n := length nodes) in *.
  pose proof (split_parts_concat (split_sizes n) nodes (split_sizes_sum n)) as Hc.
  pose proof (split_parts_length (split_sizes n) nodes (split_sizes_sum n)) as Hl.
  pose proof (Nat.div_mod_eq n 3) as Hq. pose proof (Nat.mod_upper_bound n 3) as Hr.
  assert (exists x y z, split_sizes n = [x; y; z] /\ (z <= y <= x)%nat /\ (1 <= z)%nat /\
    (x + y + z = n)%nat /\ (x <= S z)%nat) as (x & y & z & Es & Hord & Hz & Hsum & Hxz).
  { unfold split_sizes. set (q := (n / 3)%nat) in *. set (r := (n mod 3)%nat) in *. clearbody q r.
    simpl. eexists _, _, _. split; [reflexivity|]. destruct r as [|[|[|]]]; simpl; lia. }
  rewrite Es in *. clear Hq Hr.
  destruct x as [|x], y as [|y], z as [|z]; try lia. simpl in Hl, Hc |- *.
  injection Hl as H1 H2 H3. rewrite app_nil_r in Hc. eexists _, _, _.
  split; [reflexivity|]. split; [exact Hc|]. simpl. rewrite H1, H2, H3. lia.
Qed.

Lemma res_map_three {A B} (f : A -> res B) a b c l :
  res_map f [a; b; c] = Ok l <-> exists x y z, f a = Ok x /\ f b = Ok y /\ f c = Ok z /\ l = [x; y; z].
Proof.
  rewrite res_map_Ok_Forall2. split.
  - intros Hf. repeat match goal with Hf : Forall2 _ (_ :: _) _ |- _ => inversion Hf; clear Hf; subst end.
    match goal with Hf : Forall2 _ [] _ |- _ => inversion Hf; subst end. eauto 10.
  - intros (x & y & z & ? & ? & ? & ->). by repeat constructor.
Qed.

(** A property of the tree of a list follows from the short case and from the
    three parts. *)
Lemma build_tree_ind (P : list string -> tree -> Prop) :
  (forall nodes, (1 <= length nodes <= 3)%nat -> P nodes (Node (map Leaf nodes))) ->
  (forall nodes a b c ta tb tc, (3 < length nodes)%nat ->
     _split3 nodes = [a; b; c] -> P a ta -> P b tb -> P c tc -> P nodes (Node [ta; tb; tc])) ->
  forall nodes, nodes <> [] -> exists t, build_tree nodes = Ok t /\ P nodes t.
Proof.
  intros Hshort Hlong.
  assert (Hgen : forall fuel nodes, (length nodes <= fuel)%nat -> nodes <> [] ->
    exists t, build_tree_fuel fuel nodes = Ok t /\ P nodes t).
  { induction fuel as [|fuel IH]; intros nodes Hf Hne; [by destruct nodes; simpl in Hf; [|lia]|].
    assert (Hlen : (1 <= length nodes)%nat) by (destruct nodes; simpl; [done|lia]).
    simpl. destruct nodes as [|x nodes']; [done|]. set (nodes := x :: nodes') in *.
    destruct (Nat.leb_spec (length nodes) 3) as [Hs|Hl]; [eexists; split; [done|]; apply Hshort; lia|].
    destruct (_split3_spec nodes Hl) as (a & b & c & Es & Ecat & Hord & Hc1 & Ha & _).
    assert (Hne' : forall l : list string, (1 <= length l)%nat -> l <> []) by (intros [|]; simpl; [lia|done]).
    destruct (IH a) as (ta & Eta & Pa); [lia|apply Hne'; lia|].
    destruct (IH b) as (tb & Etb & Pb); [lia|apply Hne'; lia|].
    destruct (IH c) as (tc & Etc & Pc); [lia|apply Hne'; lia|].
    rewrite Es. exists (Node [ta; tb; tc]). split; [|by eapply Hlong].
    by rewrite (proj2 (res_map_three _ _ _ _ [ta; tb; tc])) by eauto 10. }
  intros nodes Hne. by apply Hgen.
Qed.

(** ** Maxima *)

(** The depth is the logarithm in base three, rounded up, and at least one. *)
Definition depth_ok (n : nat) (t : tree) : Prop :=
  exists d, depth t = Ok d /\ 1 <= d /\ Z.of_nat n <= 3 ^ d /\ (d = 1 \/ 3 ^ (d - 1) < Z.of_nat n).

Lemma foldl_max_replicate n m x : x <= m -> foldl Z.max m (replicate n x) = m.
Proof. intros Hx. induction n as [|n IH]; simpl; [done|]. by rewrite Z.max_l. Qed.

Lemma res_map_leaves (f : tree -> res Z) v nodes :
  (forall x, f (Leaf x) = Ok v) -> res_map f (map Leaf nodes) = Ok (replicate (length nodes) v).
Proof. intros Hf. induction nodes as [|x nodes IH]; simpl; [done|]. by rewrite Hf, IH. Qed.

Lemma py_max_replicate n v : (1 <= n)%nat -> py_max (replicate n v) = Ok v.
Proof. destruct n; [lia|]. intros _. simpl. by rewrite foldl_max_replicate. Qed.

Lemma depth_leaves nodes : (1 <= length nodes)%nat -> depth (Node (map Leaf nodes)) = Ok 1.
Proof.
  intros Hn. simpl. rewrite (res_map_leaves _ 0) by done. simpl. by rewrite py_max_replicate.
Qed.

Lemma depth_three n na nb nc ta tb tc :
  (3 < n)%nat -> (nc <= nb <= na)%nat -> (n <= 3 * na < n + 3)%nat ->
  depth_ok na ta -> depth_ok nb tb -> depth_ok nc tc -> depth_ok n (Node [ta; tb; tc]).
Proof.
  intros Hn Hord Hthird (da & Ea & Ha1 & Ha2 & Ha3) (db & Eb & Hb1 & _ & Hb3) (dc & Ec & Hc1 & _ & Hc3).
  assert (Hle : forall d m, 1 <= d -> (d = 1 \/ 3 ^ (d - 1) < Z.of_nat m) -> (m <= na)%nat -> d <= da).
  { intros d m Hd [->|Hm] Hmn; [lia|]. apply Z.nlt_ge. intros Hlt.
    assert (3 ^ da <= 3 ^ (d - 1)) by (apply Z.pow_le_mono_r; lia). lia. }
  pose proof (Hle db nb Hb1 Hb3 ltac:(lia)). pose proof (Hle dc nc Hc1 Hc3 ltac:(lia)).
  exists (1 + da). simpl. rewrite Ea, Eb, Ec. simpl.
  replace (Z.max (Z.max da db) dc) with da by lia.
  split_and!; [done|lia| |right].
  - rewrite Z.pow_add_r by lia. lia.
  - replace (1 + da - 1) with (1 + (da - 1)) by lia. rewrite Z.pow_add_r by lia.
    destruct Ha3 as [->|Ha3]; [simpl; lia|]. lia.
Qed.

(** ** Leaders *)

Lemma pick_lookup (cs : list tree) (e : Z) (i : nat) :
  (fix pick (l : list tree) (i : nat) : res string :=
     match l, i with
     | [], _ => Raise ZeroDivisionError
     | child :: _, O => tree_leader child e
     | _ :: l, S i => pick l i
     end) cs i = match cs !! i with Some c => tree_leader c e | None => Raise ZeroDivisionError end.
Proof. revert i; induction cs as [|c cs IH]; intros [|i]; simpl; auto. Qed.

Lemma tree_leader_node cs e :
  tree_leader (Node cs) e =
  match cs !! Z.to_nat (e mod Z.of_nat (length cs)) with
  | Some c => tree_leader c (e / Z.of_nat (length cs))
  | None => Raise ZeroDivisionError
  end.
Proof. simpl. apply pick_lookup. Qed.

Lemma wf_node cs : wf (Node cs) = true -> (1 <= length cs <= 3)%nat /\ Forall (fun c => wf c = true) cs.
Proof.
  cbn [wf]. rewrite !andb_true_iff, !Nat.leb_le, forallb_forall, Forall_forall.
  intros [[??] Hf]. split; [lia|]. intros c Hc. by apply Hf, list_elem_of_In.
Qed.

Lemma leader_index (cs : list tree) e :
  (1 <= length cs)%nat -> (Z.to_nat (e mod Z.of_nat (length cs)) < length cs)%nat.
Proof. intros Hl. pose proof (Z.mod_pos_bound e (Z.of_nat (length cs))). lia. Qed.

Lemma elem_of_leaves_node x cs : x ∈ leaves (Node cs) <-> exists c, c ∈ cs /\ x ∈ leaves c.
Proof.
  simpl. rewrite list_elem_of_In, in_concat. setoid_rewrite in_map_iff.
  setoid_rewrite <- list_elem_of_In. naive_solver.
Qed.

(** Every epoch has a leader, one of the backends. *)
Lemma tree_leader_leaf t e : wf t = true -> exists x, tree_leader t e = Ok x /\ x ∈ leaves t.
Proof.
  revert e; induction t as [x|cs IH] using tree_ind'; intros e Hw; [eexists; split; [done|set_solver]|].
  apply wf_node in Hw as [Hl Hcs]. rewrite tree_leader_node.
  destruct (lookup_lt_is_Some_2 cs _ (leader_index cs e (proj1 Hl))) as [c Hc]. rewrite Hc.
  rewrite Forall_lookup in IH, Hcs. destruct (IH _ _ Hc (e / Z.of_nat (length cs)) (Hcs _ _ Hc)) as (x & Hx & Hin).
  exists x. split; [done|]. apply elem_of_leaves_node. exists c. split; [|done]. by eapply list_elem_of_lookup_2.
Qed.

Lemma path_product_node x cs :
  path_product x (Node cs) =
  p ← foldr (fun c acc => match path_product x c with Some p => Some p | None => acc end) None cs;
  Some (Z.of_nat (length cs) * p).
Proof. reflexivity. Qed.

Lemma path_product_None x t : x ∉ leaves t -> path_product x t = None.
Proof.
  induction t as [y|cs IH] using tree_ind'; intros Hx.
  - simpl in *. destruct (String.eqb_spec x y); [set_solver|done].
  - rewrite path_product_node. rewrite elem_of_leaves_node in Hx.
    assert (foldr (fun c acc => match path_product x c with Some p => Some p | None => acc end) None cs = None)
      as ->; [|done].
    induction IH as [|c cs Hc _ IH']; [done|]. simpl. rewrite Hc by set_solver.
    apply IH'. intros (c' & ? & ?). apply Hx. exists c'. set_solver.
Qed.

(** In a tree of distinct backends, the path product of a backend is the arity
    times the path product in the one child that holds it. *)
Lemma path_product_child x cs i c :
  NoDup (leaves (Node cs)) -> cs !! i = Some c -> x ∈ leaves c ->
  path_product x (Node cs) = (p ← path_product x c; Some (Z.of_nat (length cs) * p)) /\
  forall j c', cs !! j = Some c' -> j <> i -> x ∉ leaves c'.
Proof.
  rewrite path_product_node. generalize (Z.of_nat (length cs)). intros n.
  revert i; induction cs as [|c0 cs IH]; intros i Hnd Hi Hx; [done|].
  simpl in Hnd. apply NoDup_app in Hnd as (H0 & Hd & Hnd). destruct i as [|i]; simpl in Hi.
  - injection Hi as ->. assert (Hno : forall c', c' ∈ cs -> x ∉ leaves c').
    { intros c' Hc' Hx'. apply (Hd _ Hx). apply (elem_of_leaves_node x cs). eauto. }
    split.
    + simpl. destruct (path_product x c) as [p|] eqn:E; [done|].
      assert (foldr (fun c acc => match path_product x c with Some p => Some p | None => acc end) None cs = None)
        as ->; [|done].
      clear -Hno. induction cs as [|c' cs IH]; [done|]. simpl.
      rewrite path_product_None by (apply Hno; set_solver). apply IH. set_solver.
    + intros [|j] c' Hj Hne; [done|]. apply Hno. by eapply list_elem_of_lookup_2.
  - assert (x ∉ leaves c0).
    { intros Hx0. apply (Hd _ Hx0). apply (elem_of_leaves_node x cs). exists c. split; [|done].
      by eapply list_elem_of_lookup_2. }
    destruct (IH i Hnd Hi Hx) as [E Ho]. split.
    + simpl. by rewrite path_product_None.
    + intros [|j] c' Hj Hne; simpl in Hj; [by injection Hj as <-|]. eapply Ho; [done|congruence].
Qed.

(** The turns of a backend: one epoch in every [path_product], at a fixed
    residue. *)
Lemma tree_leader_turn t x :
  wf t = true -> NoDup (leaves t) -> x ∈ leaves t ->
  exists p r, path_product x t = Some p /\ 0 <= r < p /\
    forall e, tree_leader t e = Ok x <-> e mod p = r.
Proof.
  induction t as [y|cs IH] using tree_ind'; intros Hw Hnd Hx.
  - exists 1, 0. simpl in *. assert (x = y) as -> by set_solver. rewrite String.eqb_refl.
    split_and!; [done|lia|lia|]. intros e. rewrite Z.mod_1_r. done.
  - apply elem_of_leaves_node in Hx as (c & Hc & Hx).
    apply list_elem_of_lookup in Hc as [i Hi]. destruct (wf_node _ Hw) as [Hl Hcs].
    rewrite Forall_lookup in IH, Hcs. destruct (path_product_child _ _ _ _ Hnd Hi Hx) as [Ep Ho].
    assert (Hndc : NoDup (leaves c)).
    { simpl in Hnd. revert Hnd. apply list_elem_of_lookup_2, list_elem_of_split in Hi as (l1 & l2 & ->).
      rewrite map_app, concat_app. simpl. rewrite !NoDup_app. tauto. }
    destruct (IH _ _ Hi (Hcs _ _ Hi) Hndc Hx) as (p & r & Epc & Hr & Hturn).
    pose proof (lookup_lt_Some _ _ _ Hi) as Hil. set (n := Z.of_nat (length cs)) in *.
    assert (0 < n) by lia. exists (n * p), (Z.of_nat i + n * r). rewrite Ep, Epc.
    split_and!; [done|nia|nia|]. intros e. rewrite tree_leader_node. fold n.
    pose proof (Z.mod_pos_bound e n ltac:(lia)) as He.
    rewrite Z.rem_mul_r by lia.
    destruct (decide (Z.to_nat (e mod n) = i)) as [Ei|Hne].
    + rewrite Ei, Hi, Hturn. split; intros E; nia.
    + destruct (lookup_lt_is_Some_2 cs (Z.to_nat (e mod n))) as [c' Hc']; [lia|]. rewrite Hc'.
      destruct (tree_leader_leaf c' (e / n) (Hcs _ _ Hc')) as (y & Ey & Hy).
      rewrite Ey. split.
      * intros [= ->]. destruct (Ho _ _ Hc' Hne Hy).
      * intros E. exfalso. apply Hne. assert (e mod n = Z.of_nat i); [|lia].
        set (k := (e / n) mod p - r). assert (Hk : k * n = Z.of_nat i - e mod n) by (unfold k; lia).
        assert (k = 0) by (destruct (Z.lt_trichotomy k 0) as [|[|]]; nia). nia.
Qed.

(** ** Perfect trees *)

Lemma perfect_node d t :
  perfect (S d) t = true -> exists a b c, t = Node [a; b; c] /\
    perfect d a = true /\ perfect d b = true /\ perfect d c = true.
Proof.
  destruct t as [|cs]; [done|]. cbn [perfect]. rewrite andb_true_iff, Nat.eqb_eq.
  destruct cs as [|a [|b [|c [|]]]]; simpl; intros [Hl Hf]; try discriminate.
  rewrite !andb_true_iff in Hf. exists a, b, c. naive_solver.
Qed.

Lemma perfect_three d a b c :
  perfect (S d) (Node [a; b; c]) = perfect d a && (perfect d b && (perfect d c && true)).
Proof. reflexivity. Qed.

Lemma build_tree_perfect d nodes :
  length nodes = (3 ^ S d)%nat -> exists t, build_tree nodes = Ok t /\ perfect (S d) t = true.
Proof.
  intros Hl. assert (nodes <> []) as Hne.
  { intros ->. simpl in Hl. pose proof (Nat.pow_nonzero 3 d). lia. }
  destruct (build_tree_ind (fun l t => forall d, length l = (3 ^ S d)%nat -> perfect (S d) t = true))
    with (nodes := nodes) as (t & Et & Ht); [..|done|by eauto].
  - intros l Hs [|d'] Hd.
    + destruct l as [|? [|? [|? [|]]]]; simpl in *; try lia; try discriminate; done.
    + simpl in Hd. pose proof (Nat.pow_nonzero 3 d'). lia.
  - intros l a b c ta tb tc Hl3 Es Ha Hb Hc [|d'] Hd; [simpl in Hd; lia|].
    destruct (_split3_spec l Hl3) as (a' & b' & c' & Es' & Ecat & Hord & _ & _ & Hthird & Hac).
    rewrite Es in Es'. injection Es' as <- <- <-.
    assert (length l = (length a + length b + length c)%nat) by (rewrite <- Ecat, !length_app; lia).
    change (3 ^ S (S d'))%nat with (3 * 3 ^ S d')%nat in Hd.
    rewrite perfect_three. by rewrite Ha, Hb, Hc by lia.
Qed.

Lemma perfect_wf d t : perfect d t = true -> wf t = true.
Proof.
  revert t; induction d as [|d IH]; intros t Hp; [by destruct t|].
  apply perfect_node in Hp as (a & b & c & -> & Ha & Hb & Hc). simpl. by rewrite !IH.
Qed.

Lemma perfect_turn_length d t : perfect d t = true -> turn_length t = Ok (3 ^ Z.of_nat d).
Proof.
  revert t; induction d as [|d IH]; intros t Hp; [by destruct t|].
  apply perfect_node in Hp as (a & b & c & -> & Ha & Hb & Hc). simpl turn_length.
  rewrite !IH by done. simpl. rewrite !Z.max_id.
  replace (Z.of_nat (S d)) with (1 + Z.of_nat d) by lia. by rewrite Z.pow_add_r by lia.
Qed.

Lemma perfect_path_product d t x p :
  perfect d t = true -> path_product x t = Some p -> p = 3 ^ Z.of_nat d.
Proof.
  revert t p; induction d as [|d IH]; intros t p Hp E.
  - destruct t; [|done]. simpl in E. destruct (String.eqb _ _); by simplify_eq.
  - apply perfect_node in Hp as (a & b & c & -> & Ha & Hb & Hc).
    replace (Z.of_nat (S d)) with (1 + Z.of_nat d) by lia. rewrite Z.pow_add_r by lia.
    rewrite path_product_node in E. simpl in E.
    destruct (path_product x a) eqn:Ea; [|destruct (path_product x b) eqn:Eb;
      [|destruct (path_product x c) eqn:Ec]]; simpl in E; simplify_eq;
      match goal with E : path_product x ?t = Some ?q |- _ => by rewrite (IH t q) end.
Qed.

(** A residue is met once in every window of the length of its modulus. *)
Lemma residue_once p r s : 0 <= r < p -> exists e, s <= e < s + p /\ e mod p = r /\
  forall e', s <= e' < s + p -> e' mod p = r -> e' = e.
Proof.
  intros Hr. exists (s + (r - s) mod p).
  pose proof (Z.mod_pos_bound (r - s) p ltac:(lia)) as Hb. split; [lia|].
  assert (Hm : (s + (r - s) mod p) mod p = r).
  { rewrite Zplus_mod_idemp_r. replace (s + (r - s)) with r by lia. apply Z.mod_small. lia. }
  split; [done|]. intros e' He' Hm'.
  assert ((e' - (s + (r - s) mod p)) mod p = 0) as Hz.
  { rewrite Zminus_mod, Hm, Hm', Z.sub_diag. apply Z.mod_0_l. lia. }
  apply Z.mod_divide in Hz as [k Hk]; [|lia].
  assert (k = 0) by (destruct (Z.lt_trichotomy k 0) as [|[|]]; nia). lia.
Qed.

(** ** Quorums *)

Lemma filter_length_le {A} (f : A -> bool) l : (length (List.filter f l) <= length l)%nat.
Proof. induction l as [|x l IH]; simpl; [lia|]. destruct (f x); simpl; lia. Qed.

(** Two strict majorities of a list meet. *)
Lemma majorities_meet {A} (f g : A -> bool) l :
  (length l < length (List.filter f l) + length (List.filter g l))%nat ->
  exists x, x ∈ l /\ f x = true /\ g x = true.
Proof.
  induction l as [|x l IH]; simpl; [lia|]. intros Hl.
  destruct (f x) eqn:Ef, (g x) eqn:Eg; [exists x; set_solver| | |]; simpl in Hl;
    destruct IH as (y & ? & ? & ?); (lia || (exists y; set_solver)).
Qed.

Lemma tree_healthy_majority cs up :
  tree_healthy (Node cs) up = true ->
  (length cs < 2 * length (List.filter (fun c => tree_healthy c up) cs))%nat.
Proof.
  cbn [tree_healthy]. unfold _quorum. rewrite Nat.leb_le.
  pose proof (Nat.div_mod_eq (length cs) 2). pose proof (Nat.mod_upper_bound (length cs) 2). lia.
Qed.

(** The backends of a tree that are down. *)
Definition down (t : tree) (up : gset string) : nat :=
  length (List.filter (fun x => negb (bool_decide (x ∈ up))) (leaves t)).

Lemma down_three a b c up : down (Node [a; b; c]) up = (down a up + (down b up + down c up))%nat.
Proof. unfold down. simpl. rewrite !List.filter_app, !length_app. simpl. lia. Qed.

Lemma perfect_unhealthy_down d t up :
  perfect d t = true -> tree_healthy t up = false -> (2 ^ d <= down t up)%nat.
Proof.
  revert t; induction d as [|d IH]; intros t Hp Hu.
  - destruct t; [|done]. unfold down. simpl in *. rewrite Hu. simpl. lia.
  - apply perfect_node in Hp as (a & b & c & -> & Ha & Hb & Hc). rewrite down_three. simpl Nat.pow.
    pose proof (IH a Ha). pose proof (IH b Hb). pose proof (IH c Hc). simpl in Hu.
    destruct (tree_healthy a up), (tree_healthy b up), (tree_healthy c up); simpl in Hu;
      try discriminate; lia || (repeat match goal with E : false = false -> _ |- _ => specialize (E eq_refl) end; lia).
Qed.

Lemma build_tree_leaves nodes :
  nodes <> [] -> exists t, build_tree nodes = Ok t /\ leaves t = nodes /\ wf t = true.
Proof.
  apply (build_tree_ind (fun l t => leaves t = l /\ wf t = true)).
  - intros l Hs. split.
    + clear Hs. induction l as [|x l IH]; [done|]. simpl in *. by rewrite IH.
    + destruct l as [|? [|? [|? [|]]]]; simpl in *; done || lia.
  - intros l a b c ta tb tc Hl Es [La Wa] [Lb Wb] [Lc Wc]; simpl.
    destruct (_split3_spec l Hl) as (a' & b' & c' & Es' & Ecat & _).
    rewrite Es in Es'. injection Es' as <- <- <-.
    by rewrite La, Lb, Lc, Wa, Wb, Wc, app_nil_r.
Qed.

Lemma build_tree_depth nodes :
  nodes <> [] -> exists t, build_tree nodes = Ok t /\ depth_ok (length nodes) t.
Proof.
  apply (build_tree_ind (fun l t => depth_ok (length l) t)).
  - intros l Hs. exists 1. split; [apply depth_leaves; lia|]. split_and!; [lia|lia|by left].
  - intros l a b c ta tb tc Hl Es Da Db Dc.
    destruct (_split3_spec l Hl) as (a' & b' & c' & Es' & _ & Hord & _ & _ & Hthird & _).
    rewrite Es in Es'. injection Es' as <- <- <-.
    eapply depth_three; [| | |exact Da|exact Db|exact Dc]; lia.
Qed.

(** ** Properties *)

(** [build_tree] returns for every non-empty list of backends a tree whose
    leaves are the backends in order, whose nodes have one to three children,
    and whose depth is the logarithm in base three of their number, rounded up
    (and at least one). *)
Theorem build_tree_balanced nodes :
  nodes <> [] ->
  exists t d, build_tree nodes = Ok t /\ leaves t = nodes /\ wf t = true /\ depth t = Ok d /\
    1 <= d /\ Z.of_nat (length nodes) <= 3 ^ d /\ (d = 1 \/ 3 ^ (d - 1) < Z.of_nat (length nodes)).
Proof.
  intros Hne. destruct (build_tree_leaves nodes Hne) as (t & Et & Hl & Hw).
  destruct (build_tree_depth nodes Hne) as (t' & Et' & d & Hd).
  rewrite Et in Et'. injection Et' as <-. by exists t, d.
Qed.

(** Every backend has exactly one turn in each period of its own, the
    product of the arities above it: it leads exactly at the epochs of one
    residue, negative epochs included, and every epoch has one leader. *)
Theorem leader_rotation_periodic nodes :
  nodes <> [] -> NoDup nodes ->
  exists t, build_tree nodes = Ok t /\
    (forall e, exists x, tree_leader t e = Ok x /\ x ∈ nodes) /\
    forall x, x ∈ nodes -> exists p r, path_product x t = Some p /\ 0 <= r < p /\
      forall e, tree_leader t e = Ok x <-> e mod p = r.
Proof.
  intros Hne Hnd. destruct (build_tree_leaves nodes Hne) as (t & Et & Hl & Hw).
  exists t. split; [done|]. rewrite <- Hl in *. split.
  - intros e. by apply tree_leader_leaf.
  - intros x Hx. by apply tree_leader_turn.
Qed.

(** In a mesh of a power of three backends the rotation is even: one turn is
    as many epochs as there are backends, and in every window of one turn each
    backend leads exactly once. *)
Theorem full_turn_even d nodes t :
  length nodes = (3 ^ S d)%nat -> NoDup nodes -> build_tree nodes = Ok t ->
  turn_length t = Ok (Z.of_nat (length nodes)) /\
  forall start x, x ∈ nodes -> exists e, start <= e < start + Z.of_nat (length nodes) /\
    tree_leader t e = Ok x /\
    forall e', start <= e' < start + Z.of_nat (length nodes) -> tree_leader t e' = Ok x -> e' = e.
Proof.
  intros Hlen Hnd Et.
  destruct (build_tree_leaves nodes) as (t0 & Et0 & Hl & _).
  { intros ->. simpl in Hlen. pose proof (Nat.pow_nonzero 3 d). lia. }
  rewrite Et in Et0. injection Et0 as <-. destruct (build_tree_perfect d nodes Hlen) as (t' & Et' & Hp).
  rewrite Et in Et'. injection Et' as <-.
  assert (Hn : Z.of_nat (length nodes) = 3 ^ Z.of_nat (S d)) by (rewrite Hlen, Nat2Z.inj_pow; done).
  rewrite Hn. split; [by apply perfect_turn_length|]. intros start x Hx.
  destruct (tree_leader_turn t x) as (p & r & Ep & Hr & Hturn); [by eapply perfect_wf|by rewrite Hl..|].
  pose proof (perfect_path_product _ _ _ _ Hp Ep) as ->.
  destruct (residue_once _ _ start Hr) as (e & He & Hm & Hu).
  exists e. split; [done|]. split; [by apply Hturn|]. intros e' He' Hlead. by apply Hu, Hturn.
Qed.

(** Away from a power of three the rotation is not even: with four backends
    a full turn is six epochs and two backends lead twice as often as the other
    two. *)
Theorem four_backends_uneven :
  let nodes := ["a"; "b"; "c"; "d"]%string in
  exists t, build_tree nodes = Ok t /\ turn_length t = Ok 6 /\
    map (tree_leader t) [0; 1; 2; 3; 4; 5] = map Ok ["a"; "c"; "d"; "b"; "c"; "d"]%string.
Proof. eexists. split_and!; vm_compute; reflexivity. Qed.

(** C11: no split brain.  Two sets of backends that both make a mesh healthy have
    a backend of the mesh in common. *)
Theorem quorums_intersect t up1 up2 :
  tree_healthy t up1 = true -> tree_healthy t up2 = true ->
  exists x, x ∈ leaves t /\ x ∈ up1 /\ x ∈ up2.
Proof.
  induction t as [y|cs IH] using tree_ind'; intros H1 H2.
  - simpl in *. apply bool_decide_eq_true in H1, H2. exists y. set_solver.
  - apply tree_healthy_majority in H1, H2.
    destruct (majorities_meet (fun c => tree_healthy c up1) (fun c => tree_healthy c up2) cs)
      as (c & Hc & Hc1 & Hc2); [lia|].
    rewrite Forall_forall in IH. destruct (IH c Hc Hc1 Hc2) as (x & ? & ?).
    exists x. split; [|done]. apply elem_of_leaves_node. eauto.
Qed.

(** A mesh of [3^d] backends survives every loss of fewer than [2^d] of
    them. *)
Theorem mesh_fault_tolerance d nodes up :
  length nodes = (3 ^ S d)%nat ->
  exists t, build_tree nodes = Ok t /\ ((down t up < 2 ^ S d)%nat -> tree_healthy t up = true).
Proof.
  intros Hlen. destruct (build_tree_perfect d nodes Hlen) as (t & Et & Hp). exists t. split; [done|].
  intros Hd. destruct (tree_healthy t up) eqn:E; [done|].
  pose proof (perfect_unhealthy_down _ _ _ Hp E). lia.
Qed.

(** ** Witnesses *)

Definition nine : list string := ["a"; "b"; "c"; "d"; "e"; "f"; "g"; "h"; "i"]%string.

Lemma build_tree_balanced_witness :
  exists t d, build_tree nine = Ok t /\ leaves t = nine /\ wf t = true /\ depth t = Ok d /\
    1 <= d /\ Z.of_nat (length nine) <= 3 ^ d /\ (d = 1 \/ 3 ^ (d - 1) < Z.of_nat (length nine)).
Proof. apply build_tree_balanced. discriminate. Defined.

Lemma leader_rotation_periodic_witness :
  exists t, build_tree nine = Ok t /\
    (forall e, exists x, tree_leader t e = Ok x /\ x ∈ nine) /\
    forall x, x ∈ nine -> exists p r, path_product x t = Some p /\ 0 <= r < p /\
      forall e, tree_leader t e = Ok x <-> e mod p = r.
Proof. apply leader_rotation_periodic; [discriminate|]. repeat constructor; set_solver. Defined.

Lemma full_turn_even_witness :
  exists t, turn_length t = Ok 9 /\ forall x, x ∈ nine -> exists e, 4 <= e < 13 /\
    tree_leader t e = Ok x /\ forall e', 4 <= e' < 13 -> tree_leader t e' = Ok x -> e' = e.
Proof.
  destruct (build_tree nine) as [t|] eqn:E; [|vm_compute in E; discriminate E].
  exists t. destruct (full_turn_even 1 nine t) as [Ht Hlead]; [reflexivity| |exact E|].
  - repeat constructor; set_solver.
  - split; [exact Ht|]. exact (Hlead 4).
Defined.

Lemma quorums_intersect_witness :
  exists x, x ∈ leaves (Node (map Leaf ["a"; "b"; "c"]%string)) /\
    x ∈ ({["a"; "b"]}%string : gset string) /\ x ∈ ({["b"; "c"]}%string : gset string).
Proof. apply quorums_intersect; vm_compute; reflexivity. Defined.

Lemma mesh_fault_tolerance_witness :
  exists t, build_tree nine = Ok t /\
    ((down t {["a"; "b"; "c"; "d"; "e"; "f"]}%string < 2 ^ 2)%nat ->
     tree_healthy t {["a"; "b"; "c"; "d"; "e"; "f"]}%string = true).
Proof. apply (mesh_fault_tolerance 1). reflexivity. Defined.
