(* ===== verification/TriadRotation.v ===== *)
(** * Rotation of the triad masters

    Models [automation/triad_rotation.py]: the rotation of the three roles
    around the triangle, the map from wall-clock time to epochs (binary64, as
    the interpreter computes it), the evenness count and the check that receipts
    were written in turn.  [datetime.strptime] is the parameter [strptime], from
    a text to the unix time it denotes. *)

From Stdlib Require Import SpecFloat.
From S2P Require Import Prelude PyVal PyText Json.
Local Open Scope Z_scope.

Record Assignment := mkAssignment {
  a_epoch : Z;
  leader : string;
  attestor : string;
  witness : string
}.

Definition writer_replica (a : Assignment) : string * string := (leader a, attestor a).

Definition rotate (masters : list string) (epoch step : Z) : res Assignment :=
  if negb (Nat.eqb (length masters) 3) || negb (Nat.eqb (size (list_to_set masters : gset string)) 3) then
    Raise (ValueError "a triad is exactly 3 distinct masters")
  else if step mod 3 =? 0 then
    Raise (ValueError ("step " +:+ pretty step +:+ " is a multiple of 3 — it never leaves a vertex (not triangular-even)"))
  else
    let shift := (epoch * step) mod 3 in
    order ← res_map (fun i => of_option IndexError (masters !! Z.to_nat ((i + shift) mod 3))) [0; 1; 2];
    match order with
    | [l; a; w] => Ok (mkAssignment epoch l a w)
    | _ => Raise IndexError
    end.

(** [math.floor]. *)
Definition py_floor (f : spec_float) : res Z :=
  match f with
  | S754_zero _ => Ok 0
  | S754_finite s m e =>
    let z := if s then Z.neg m else Z.pos m in
    Ok (if 0 <=? e then z * 2 ^ e else z / 2 ^ (- e))
  | S754_infinity _ => Raise (OtherError "cannot convert float infinity to integer")
  | S754_nan => Raise (ValueError "cannot convert float NaN to integer")
  end.

Definition epoch_for_time (t_epoch_s period_s phase_s : spec_float) : res Z :=
  if F64.leb period_s F64.zero then Raise (ValueError "period_s must be positive")
  else py_floor (F64.div (F64.sub t_epoch_s phase_s) period_s).

(** [counts[k] += 1]. *)
Fixpoint incr (k : string) (counts : list (string * Z)) : res (list (string * Z)) :=
  match counts with
  | [] => Raise (KeyError k)
  | (k', n) :: counts =>
    if String.eqb k' k then Ok ((k', n + 1) :: counts)
    else counts' ← incr k counts; Ok ((k', n) :: counts')
  end.

Definition leader_counts (masters : list string) (epochs : list Z) (step : Z) : res (list (string * Z)) :=
  let counts := foldl (fun d m => assoc_set m 0 d) [] masters in
  res_fold (fun counts e => a ← rotate masters e step; incr (leader a) counts) counts epochs.

Record RotationSchedule := mkSchedule {
  s_masters : list string;
  period_s : spec_float;
  s_step : Z;
  phase_s : spec_float
}.

Definition at_epoch (s : RotationSchedule) (epoch : Z) : res Assignment :=
  rotate (s_masters s) epoch (s_step s).

Definition at_time (s : RotationSchedule) (t : spec_float) : res Assignment :=
  e ← epoch_for_time t (period_s s) (phase_s s); at_epoch s e.

Section receipts.
Context `{FloatRepr}.
Variable strptime : string -> option spec_float.

Definition _parse_iso_z (ts : pyval) : option spec_float :=
  match ts with PStr s => strptime s | _ => None end.

Definition scheduled_leader_at (s : RotationSchedule) (issued_at : pyval) : res (option string) :=
  match _parse_iso_z issued_at with
  | None => Ok None
  | Some t => a ← at_time s t; Ok (Some (leader a))
  end.

(** The reason one receipt adds, if any. *)
Definition receipt_reason (s : RotationSchedule) (i : nat) (r : pyval) : res (list string) :=
  match r with
  | PDict d =>
    let writer := default PNone (assoc "writer_principal" d) in
    expected ← scheduled_leader_at s (default PNone (assoc "issued_at" d));
    match expected with
    | None => Ok []
    | Some expected =>
      if negb (hashable writer) then Raise TypeError
      else if existsb (eq_str writer) (s_masters s) && negb (eq_str writer expected) then
        Ok ["receipt[" +:+ pretty i +:+ "] writer " +:+ py_str writer +:+
            " wrote out of turn — scheduled leader was " +:+ expected]%string
      else Ok []
    end
  | _ => Ok []
  end.

Fixpoint reasons_from (s : RotationSchedule) (i : nat) (receipts : list pyval) : res (list string) :=
  match receipts with
  | [] => Ok []
  | r :: rs => here ← receipt_reason s i r; rest ← reasons_from s (S i) rs; Ok (here ++ rest)
  end.

Definition writers_on_schedule (receipts : list pyval) (s : RotationSchedule) : res (bool * list string) :=
  reasons ← reasons_from s 0 receipts;
  Ok (match reasons with [] => true | _ => false end, reasons).
End receipts.

(** ** Lemmas *)

Lemma distinct_three (masters : list string) :
  length masters = 3%nat -> size (list_to_set masters : gset string) = 3%nat <-> NoDup masters.
Proof.
  intros Hl. split.
  - intros Hs. destruct masters as [|x [|y [|z [|]]]]; try discriminate. cbn [list_to_set] in Hs.
    assert (Hne : forall a b : string, size (({[a]} ∪ {[b]}) : gset string) <> 3%nat).
    { intros a b E. destruct (decide (a = b)) as [->|Hab].
      - assert ({[b; b]} = ({[b]} : gset string)) as Eb by set_solver.
        rewrite Eb, size_singleton in E. lia.
      - rewrite size_union, !size_singleton in E by set_solver. lia. }
    constructor; [|constructor; [|apply NoDup_singleton]].
    + rewrite elem_of_cons, list_elem_of_singleton. intros [-> | ->].
      * apply (Hne y z). rewrite <- Hs. f_equal. set_solver.
      * apply (Hne y z). rewrite <- Hs. f_equal. set_solver.
    + rewrite list_elem_of_singleton. intros ->. apply (Hne x z). rewrite <- Hs. f_equal. set_solver.
  - intros Hnd. rewrite size_list_to_set by done. done.
Qed.

Definition triad (masters : list string) (x y z : string) : Prop :=
  masters = [x; y; z] /\ x <> y /\ y <> z /\ x <> z.

Lemma eq_str_PStr (v : pyval) (t : string) : eq_str v t = true -> v = PStr t.
Proof. destruct v; try done. simpl. by intros ->%String.eqb_eq. Qed.

Lemma triad_of masters : length masters = 3%nat -> NoDup masters -> exists x y z, triad masters x y z.
Proof.
  intros Hl Hnd. destruct masters as [|x [|y [|z [|]]]]; try discriminate.
  exists x, y, z. rewrite !NoDup_cons in Hnd. split; [done|]. set_solver.
Qed.

(** The assignment by the shift, in a triad. *)
Lemma rotate_triad masters x y z epoch step :
  triad masters x y z -> step mod 3 <> 0 ->
  rotate masters epoch step = Ok
    (if (epoch * step) mod 3 =? 0 then mkAssignment epoch x y z
     else if (epoch * step) mod 3 =? 1 then mkAssignment epoch y z x
     else mkAssignment epoch z x y).
Proof.
  intros (-> & ? & ? & ?) Hs. unfold rotate.
  assert (NoDup [x; y; z]) as Hnd by (repeat constructor; set_solver).
  rewrite (proj2 (distinct_three [x; y; z] eq_refl) Hnd).
  destruct (Z.eqb_spec (step mod 3) 0); [done|]. simpl.
  pose proof (Z.mod_pos_bound (epoch * step) 3 ltac:(lia)) as Hb.
  assert ((epoch * step) mod 3 = 0 \/ (epoch * step) mod 3 = 1 \/ (epoch * step) mod 3 = 2)
    as [->|[->| ->]] by lia; reflexivity.
Qed.

(** Three consecutive epochs take the three shifts. *)
Lemma shifts_turn e step :
  step mod 3 <> 0 ->
  let sh k := ((e + k) * step) mod 3 in
  sh 1 <> sh 0 /\ sh 2 <> sh 1 /\ sh 2 <> sh 0 /\ forall k, 0 <= sh k < 3.
Proof.
  intros Hs sh. unfold sh.
  assert (Hk : forall k, ((e + k) * step) mod 3 = ((e mod 3 + k mod 3) * (step mod 3)) mod 3).
  { intros k. rewrite Z.mul_mod, Z.add_mod by lia. by rewrite Zmult_mod_idemp_l. }
  rewrite !Hk. pose proof (Z.mod_pos_bound e 3 ltac:(lia)). pose proof (Z.mod_pos_bound step 3 ltac:(lia)).
  assert (He : e mod 3 = 0 \/ e mod 3 = 1 \/ e mod 3 = 2) by lia.
  assert (Hst : step mod 3 = 1 \/ step mod 3 = 2) by lia.
  destruct He as [->|[->| ->]], Hst as [->| ->]; (split_and!; [done..|]); intros k; apply Z.mod_pos_bound; lia.
Qed.

Lemma perm_rotl (x y z : string) : [y; z; x] ≡ₚ [x; y; z].
Proof. apply (Permutation_app_comm [y; z] [x]). Qed.
Lemma perm_rotr (x y z : string) : [z; x; y] ≡ₚ [x; y; z].
Proof. apply (Permutation_app_comm [z] [x; y]). Qed.
Lemma perm_swap3 (x y z : string) : [x; z; y] ≡ₚ [x; y; z].
Proof. constructor. constructor. Qed.
Lemma perm_swap3l (x y z : string) : [y; x; z] ≡ₚ [x; y; z].
Proof. constructor. Qed.
Lemma perm_rev3 (x y z : string) : [z; y; x] ≡ₚ [x; y; z].
Proof. etransitivity; [apply perm_swap3l|]. etransitivity; [apply perm_swap3|]. apply perm_swap3l. Qed.

#[local] Hint Resolve perm_rotl perm_rotr perm_swap3 perm_swap3l perm_rev3 : core.

Lemma rotate_Ok_inv masters e step a :
  rotate masters e step = Ok a -> length masters = 3%nat /\ NoDup masters /\ step mod 3 <> 0.
Proof.
  unfold rotate. destruct (Nat.eqb_spec (length masters) 3) as [Hl|]; simpl; [|done].
  destruct (Nat.eqb_spec (size (list_to_set masters : gset string)) 3) as [Hd|]; simpl; [|done].
  destruct (Z.eqb_spec (step mod 3) 0); [done|]. intros _.
  split_and!; [done|by apply distinct_three|done].
Qed.

(** [range(e, e + n)]. *)
Fixpoint epoch_range (e : Z) (n : nat) : list Z :=
  match n with O => [] | S n => e :: epoch_range (e + 1) n end.

Lemma epoch_range_3 e k :
  epoch_range e (3 * S k) = e :: (e + 1) :: (e + 2) :: epoch_range (e + 3) (3 * k).
Proof.
  replace (3 * S k)%nat with (S (S (S (3 * k)))) by lia. cbn [epoch_range].
  by rewrite <- !Z.add_assoc.
Qed.

Lemma one_turn_counts masters x y z e step k :
  triad masters x y z -> step mod 3 <> 0 ->
  res_fold (fun counts e => a ← rotate masters e step; incr (leader a) counts)
    [(x, k); (y, k); (z, k)] [e; e + 1; e + 2] = Ok [(x, k + 1); (y, k + 1); (z, k + 1)].
Proof.
  intros Ht Hs. cbn [res_fold]. rewrite !(rotate_triad masters x y z) by done.
  pose proof (shifts_turn e step Hs) as (H1 & H2 & H3 & Hb).
  pose proof (Hb 0) as B0. pose proof (Hb 1) as B1. pose proof (Hb 2) as B2. rewrite Z.add_0_r in *.
  destruct Ht as (_ & Hxy & Hyz & Hxz).
  apply String.eqb_neq in Hxy, Hyz, Hxz.
  set (s0 := (e * step) mod 3) in *. set (s1 := ((e + 1) * step) mod 3) in *.
  set (s2 := ((e + 2) * step) mod 3) in *. clearbody s0 s1 s2.
  destruct (Z.eqb_spec s0 0), (Z.eqb_spec s0 1), (Z.eqb_spec s1 0), (Z.eqb_spec s1 1),
    (Z.eqb_spec s2 0), (Z.eqb_spec s2 1); try lia;
    repeat (cbn [leader mbind res_bind incr]; rewrite ?Hxy, ?Hyz, ?Hxz, ?String.eqb_refl); reflexivity.
Qed.

Lemma turns_counts masters x y z step n :
  triad masters x y z -> step mod 3 <> 0 ->
  forall e k, res_fold (fun counts e => a ← rotate masters e step; incr (leader a) counts)
    [(x, k); (y, k); (z, k)] (epoch_range e (3 * n)) =
    Ok [(x, k + Z.of_nat n); (y, k + Z.of_nat n); (z, k + Z.of_nat n)].
Proof.
  intros Ht Hs. induction n as [|n IH]; intros e k.
  - simpl. by rewrite Z.add_0_r.
  - rewrite epoch_range_3. change (e :: e + 1 :: e + 2 :: ?l) with ([e; e + 1; e + 2] ++ l).
    rewrite res_fold_app, one_turn_counts by done. cbn [mbind res_bind]. rewrite IH.
    by replace (k + 1 + Z.of_nat n) with (k + Z.of_nat (S n)) by lia.
Qed.

Lemma receipt_reason_nil `{FloatRepr} strptime s i r here :
  receipt_reason strptime s i r = Ok here ->
  here = [] <->
  forall d w t a, r = PDict d -> assoc "writer_principal" d = Some (PStr w) -> w ∈ s_masters s ->
    assoc "issued_at" d = Some (PStr t) ->
    (forall u, strptime t = Some u -> at_time s u = Ok a -> w = leader a).
Proof.
  intros Eh. unfold receipt_reason in Eh. destruct r as [| | | | | |d];
    try (injection Eh as <-; split; [by intros _ ? ? ? ? ?|done]).
  apply bind_Ok_inv in Eh as (exp & Ee & Eh). unfold scheduled_leader_at in Ee.
  destruct (assoc "issued_at" d) as [[| | | |t| |]|] eqn:Et; simpl in Ee;
    try (injection Ee as <-; injection Eh as <-; split; [by intros _ ? ? ? ? [= <-] ? ? ?; congruence|done]).
  destruct (strptime t) as [u|] eqn:Eu; simpl in Ee;
    [|injection Ee as <-; injection Eh as <-; split; [by intros _ ? ? ? ? [= <-] ? ? ?; congruence|done]].
  apply bind_Ok_inv in Ee as (a & Ea & Ee). injection Ee as <-.
  destruct (hashable (default PNone (assoc "writer_principal" d))); simpl in Eh; [|done].
  destruct (existsb (eq_str _) (s_masters s)) eqn:Ex.
  - apply existsb_exists in Ex as (m & Hm & Em). apply list_elem_of_In in Hm. apply eq_str_PStr in Em.
    destruct (assoc "writer_principal" d) as [w|] eqn:Ew; simpl in Em; [|done]. subst w. simpl in Eh.
    destruct (String.eqb_spec m (leader a)) as [->|Hne]; injection Eh as <-.
    + split; [|done]. intros _ d' w t' a' [= <-] Hw _ Ht u' Hu Ha. congruence.
    + split; [done|]. intros Hall. destruct Hne. by eapply (Hall d m t a).
  - injection Eh as <-. split; [|done]. intros _ d' w t' a' [= <-] Hw Hm. exfalso.
    rewrite Hw in Ex. simpl in Ex. rewrite (proj2 (existsb_exists _ _)) in Ex; [done|].
    exists w. split; [by apply list_elem_of_In|]. simpl. apply String.eqb_refl.
Qed.

(** ** Properties *)

(** Triangular evenness.  For a triad and a step not divisible by three, any
    three consecutive epochs give each role to each master exactly once: the
    three leaders, the three attestors and the three witnesses are each a
    permutation of the masters. *)
Theorem rotation_even masters e step :
  length masters = 3%nat -> NoDup masters -> step mod 3 <> 0 ->
  exists a0 a1 a2,
    rotate masters e step = Ok a0 /\ rotate masters (e + 1) step = Ok a1 /\
    rotate masters (e + 2) step = Ok a2 /\
    [leader a0; leader a1; leader a2] ≡ₚ masters /\
    [attestor a0; attestor a1; attestor a2] ≡ₚ masters /\
    [witness a0; witness a1; witness a2] ≡ₚ masters.
Proof.
  intros Hl Hnd Hs. destruct (triad_of _ Hl Hnd) as (x & y & z & Ht).
  pose proof (shifts_turn e step Hs) as (H1 & H2 & H3 & Hb).
  rewrite Z.add_0_r in *. pose proof (Hb 0) as B0. pose proof (Hb 1) as B1. pose proof (Hb 2) as B2.
  rewrite Z.add_0_r in *.
  do 3 (erewrite rotate_triad by done). destruct Ht as (-> & _).
  set (s0 := (e * step) mod 3) in *. set (s1 := ((e + 1) * step) mod 3) in *.
  set (s2 := ((e + 2) * step) mod 3) in *. clearbody s0 s1 s2.
  eexists _, _, _. split_and!; [done..| | |];
    destruct (Z.eqb_spec s0 0), (Z.eqb_spec s0 1), (Z.eqb_spec s1 0), (Z.eqb_spec s1 1),
      (Z.eqb_spec s2 0), (Z.eqb_spec s2 1); try lia; simpl; auto.
Qed.

(** The writer is never the replica.  [rotate] returns exactly for three
    distinct masters and a step not divisible by three, and then the three roles
    are held by three different masters. *)
Theorem rotate_roles_distinct masters e step :
  (is_ok (rotate masters e step) = true <->
   length masters = 3%nat /\ NoDup masters /\ step mod 3 <> 0) /\
  forall a, rotate masters e step = Ok a ->
    a_epoch a = e /\ (writer_replica a).1 <> (writer_replica a).2 /\
    [leader a; attestor a; witness a] ≡ₚ masters.
Proof.
  split; [split|].
  - destruct (rotate masters e step) eqn:E; [|done]. intros _. by eapply rotate_Ok_inv.
  - intros (Hl & Hnd & Hs). destruct (triad_of _ Hl Hnd) as (x & y & z & Ht).
    by rewrite (rotate_triad _ x y z).
  - intros a E. pose proof (rotate_Ok_inv _ _ _ _ E) as (Hl & Hnd & Hs).
    destruct (triad_of _ Hl Hnd) as (x & y & z & Ht).
    rewrite (rotate_triad _ x y z) in E by done. destruct Ht as (-> & ? & ? & ?).
    destruct (Z.eqb ((e * step) mod 3) 0), (Z.eqb ((e * step) mod 3) 1); injection E as <-; simpl; split_and!; auto.
Qed.

(** Over any whole number of turns every master leads equally often. *)
Theorem leader_counts_even masters e step n :
  length masters = 3%nat -> NoDup masters -> step mod 3 <> 0 ->
  exists counts, leader_counts masters (epoch_range e (3 * n)) step = Ok counts /\
    forall m, m ∈ masters -> assoc m counts = Some (Z.of_nat n).
Proof.
  intros Hl Hnd Hs. destruct (triad_of _ Hl Hnd) as (x & y & z & Ht). unfold leader_counts.
  assert (foldl (fun d m => assoc_set m 0 d) [] masters = [(x, 0); (y, 0); (z, 0)]) as ->.
  { destruct Ht as (-> & Hxy & Hyz & Hxz). apply String.eqb_neq in Hxy, Hyz, Hxz.
    simpl. rewrite Hxy. simpl. by rewrite Hxz, Hyz. }
  rewrite (turns_counts _ x y z) by done. eexists. split; [done|].
  destruct Ht as (-> & Hxy & Hyz & Hxz). apply String.eqb_neq in Hxy, Hyz, Hxz.
  intros m Hm. simpl. rewrite !elem_of_cons in Hm.
  destruct Hm as [->|[->|[->|Hm]]]; rewrite ?Hxy, ?Hyz, ?Hxz, ?String.eqb_refl; [done..|].
  by apply not_elem_of_nil in Hm.
Qed.

(** The schedule check passes exactly when no master of the triad wrote out
    of turn: every dated receipt whose writer is a master was written by the
    leader scheduled at its time. *)
Theorem writers_on_schedule_iff `{FloatRepr} strptime receipts s okb reasons :
  writers_on_schedule strptime receipts s = Ok (okb, reasons) ->
  (okb = true <->
   forall d w t a, PDict d ∈ receipts -> assoc "writer_principal" d = Some (PStr w) -> w ∈ s_masters s ->
     assoc "issued_at" d = Some (PStr t) ->
     (forall u, strptime t = Some u -> at_time s u = Ok a -> w = leader a)).
Proof.
  unfold writers_on_schedule. intros E. apply bind_Ok_inv in E as (rs & Er & E). injection E as <- <-.
  transitivity (rs = []); [by destruct rs|].
  revert Er. generalize 0%nat. revert rs.
  induction receipts as [|r receipts IH]; intros rs i Er; simpl in Er.
  { injection Er as <-. split; [|done]. intros _ d w t a Hd. by apply not_elem_of_nil in Hd. }
  apply bind_Ok_inv in Er as (here & Eh & Er). apply bind_Ok_inv in Er as (rest & Erest & Er).
  injection Er as <-. specialize (IH _ _ Erest).
  assert (Hhere : here = [] <->
    forall d w t a, r = PDict d -> assoc "writer_principal" d = Some (PStr w) -> w ∈ s_masters s ->
      assoc "issued_at" d = Some (PStr t) ->
      (forall u, strptime t = Some u -> at_time s u = Ok a -> w = leader a)).
  { by eapply receipt_reason_nil. }
  split.
  - intros [-> ->]%app_nil d w t a Hd. apply elem_of_cons in Hd as [<-|Hd]; [by eapply Hhere|].
    by eapply IH.
  - intros Hall. apply app_nil. split; [apply Hhere|apply IH]; intros d w t a Hd.
    + subst r. apply Hall. by left.
    + apply Hall. by right.
Qed.

(** ** Witnesses *)

Definition m123 : list string := ["m1"; "m2"; "m3"]%string.

Lemma rotation_even_witness :
  exists a0 a1 a2,
    rotate m123 (-4) 2 = Ok a0 /\ rotate m123 (-3) 2 = Ok a1 /\ rotate m123 (-2) 2 = Ok a2 /\
    [leader a0; leader a1; leader a2] ≡ₚ m123 /\ [attestor a0; attestor a1; attestor a2] ≡ₚ m123 /\
    [witness a0; witness a1; witness a2] ≡ₚ m123.
Proof.
  apply (rotation_even m123 (-4) 2); [reflexivity|repeat constructor; set_solver|discriminate].
Defined.

Lemma leader_counts_even_witness :
  exists counts, leader_counts m123 (epoch_range 5 6) 1 = Ok counts /\
    forall m, m ∈ m123 -> assoc m counts = Some 2.
Proof.
  apply (leader_counts_even m123 5 1 2); [reflexivity|repeat constructor; set_solver|discriminate].
Defined.

Definition demo_schedule : RotationSchedule := mkSchedule m123 (F64.of_Z 10) 1 F64.zero.
Definition demo_strptime (s : string) : option spec_float :=
  if String.eqb s "t25" then Some (F64.of_Z 25) else None.
Definition demo_receipt : dict := [("writer_principal", PStr "m1"); ("issued_at", PStr "t25")].

Lemma writers_on_schedule_iff_witness :
  false = true <->
  forall d w t a, PDict d ∈ [PDict demo_receipt] ->
    assoc "writer_principal" d = Some (PStr w) -> w ∈ m123 -> assoc "issued_at" d = Some (PStr t) ->
    (forall u, demo_strptime t = Some u -> at_time demo_schedule u = Ok a -> w = leader a).
Proof.
  eapply (@writers_on_schedule_iff demo_float_repr demo_strptime [PDict demo_receipt] demo_schedule).
  vm_compute. reflexivity.
Defined.
