(* ===== verification/Regex.v ===== *)
(** * Regular expressions

    The patterns of [re] that the modelled code compiles: classes of characters,
    sequence, choice and repetition, anchored with [^] and [$].  Matching is by
    derivatives with the absorbing and neutral cases simplified; it decides
    membership in the language of the pattern.  [$] also matches before a line
    feed that ends the text. *)

From Stdlib Require Import Ascii.
From S2P Require Import Prelude.
Local Open Scope string_scope.

Inductive re : Type :=
| RVoid
| REps
| RChar (p : ascii -> bool)
| RSeq (a b : re)
| RAlt (a b : re)
| RStar (a : re).

Inductive lang : re -> string -> Prop :=
| lang_eps : lang REps ""
| lang_char p c : p c = true -> lang (RChar p) (String c "")
| lang_seq a b s t : lang a s -> lang b t -> lang (RSeq a b) (s +:+ t)
| lang_alt_l a b s : lang a s -> lang (RAlt a b) s
| lang_alt_r a b s : lang b s -> lang (RAlt a b) s
| lang_star_nil a : lang (RStar a) ""
| lang_star_app a s t : lang a s -> lang (RStar a) t -> lang (RStar a) (s +:+ t).

Fixpoint nullable (r : re) : bool :=
  match r with
  | RVoid | RChar _ => false
  | REps | RStar _ => true
  | RSeq a b => nullable a && nullable b
  | RAlt a b => nullable a || nullable b
  end.

Definition seq_re (a b : re) : re :=
  match a, b with
  | RVoid, _ | _, RVoid => RVoid
  | REps, b => b
  | a, REps => a
  | a, b => RSeq a b
  end.

Definition alt_re (a b : re) : re :=
  match a, b with RVoid, b => b | a, RVoid => a | a, b => RAlt a b end.

Fixpoint deriv (c : ascii) (r : re) : re :=
  match r with
  | RVoid | REps => RVoid
  | RChar p => if p c then REps else RVoid
  | RSeq a b => alt_re (seq_re (deriv c a) b) (if nullable a then deriv c b else RVoid)
  | RAlt a b => alt_re (deriv c a) (deriv c b)
  | RStar a => seq_re (deriv c a) (RStar a)
  end.

Fixpoint full_match (r : re) (s : string) : bool :=
  match s with EmptyString => nullable r | String c s => full_match (deriv c r) s end.

(** [re.compile("^r$").match(s)]: a final line feed may follow. *)
Fixpoint anchored_match (r : re) (s : string) : bool :=
  match s with
  | EmptyString => nullable r
  | String c EmptyString => nullable (deriv c r) || (Ascii.eqb c "010" && nullable r)
  | String c s => anchored_match (deriv c r) s
  end.

(** ** Building patterns *)

Definition between (lo hi c : ascii) : bool :=
  ((N_of_ascii lo <=? N_of_ascii c) && (N_of_ascii c <=? N_of_ascii hi))%N.
Definition one_of (chars : string) (c : ascii) : bool := existsb (Ascii.eqb c) (String.list_ascii_of_string chars).
Definition lower_hex (c : ascii) : bool := between "0"%char "9"%char c || between "a"%char "f"%char c.
Definition alnum (c : ascii) : bool := between "A"%char "Z"%char c || between "a"%char "z"%char c || between "0"%char "9"%char c.

Fixpoint lit (s : string) : re := match s with EmptyString => REps | String c s => RSeq (RChar (Ascii.eqb c)) (lit s) end.
Fixpoint times (n : nat) (r : re) : re := match n with O => REps | S n => RSeq r (times n r) end.
Fixpoint up_to (n : nat) (r : re) : re := match n with O => REps | S n => RAlt REps (RSeq r (up_to n r)) end.
Definition at_least (n : nat) (r : re) : re := RSeq (times n r) (RStar r).
Definition plus (r : re) : re := at_least 1 r.
Fixpoint words (ws : list string) : re := match ws with [] => RVoid | w :: ws => RAlt (lit w) (words ws) end.

(** ** Matching decides the language *)

Lemma lang_void s : ~ lang RVoid s.
Proof. by inversion 1. Qed.

Lemma lang_eps_iff s : lang REps s <-> s = "".
Proof. split; [by inversion 1|intros ->; constructor]. Qed.

Lemma lang_seq_iff a b s : lang (RSeq a b) s <-> exists s1 s2, s = s1 +:+ s2 /\ lang a s1 /\ lang b s2.
Proof. split; [inversion 1; eauto|]. intros (? & ? & -> & ? & ?). by constructor. Qed.

Lemma lang_alt_iff a b s : lang (RAlt a b) s <-> lang a s \/ lang b s.
Proof. split; [inversion 1; auto|intros [?|?]; by constructor]. Qed.

Lemma seq_re_lang a b s : lang (seq_re a b) s <-> lang (RSeq a b) s.
Proof.
  assert (forall x, lang (RSeq RVoid x) s <-> lang RVoid s) as Hl.
  { intros x. rewrite lang_seq_iff. split; [by intros (? & ? & _ & ?%lang_void & _)|by intros ?%lang_void]. }
  assert (forall x, lang (RSeq x RVoid) s <-> lang RVoid s) as Hr.
  { intros x. rewrite lang_seq_iff. split; [by intros (? & ? & _ & _ & ?%lang_void)|by intros ?%lang_void]. }
  assert (forall x, lang (RSeq REps x) s <-> lang x s) as El.
  { intros x. rewrite lang_seq_iff. split; [by intros (? & ? & -> & ->%lang_eps_iff & ?)|].
    intros ?. exists "", s. by rewrite lang_eps_iff. }
  assert (forall x, lang (RSeq x REps) s <-> lang x s) as Er.
  { intros x. rewrite lang_seq_iff. split.
    - intros (? & ? & -> & ? & ->%lang_eps_iff). by rewrite string_app_nil_r.
    - intros ?. exists s, "". by rewrite lang_eps_iff, string_app_nil_r. }
  destruct a, b; simpl; rewrite ?Hl, ?Hr, ?El, ?Er; done.
Qed.

Lemma alt_re_lang a b s : lang (alt_re a b) s <-> lang a s \/ lang b s.
Proof. pose proof (lang_void s). rewrite <- lang_alt_iff. destruct a, b; simpl; rewrite ?lang_alt_iff; tauto. Qed.

Lemma nullable_lang r : nullable r = true <-> lang r "".
Proof.
  induction r as [| |p|a IHa b IHb|a IHa b IHb|a IHa]; simpl.
  - split; [done|by inversion 1].
  - split; [constructor|done].
  - split; [done|by inversion 1].
  - rewrite andb_true_iff, IHa, IHb, lang_seq_iff. split; [intros [? ?]; by exists "", ""|].
    intros (s1 & s2 & E & ? & ?). by destruct s1, s2.
  - by rewrite orb_true_iff, IHa, IHb, lang_alt_iff.
  - split; [constructor|done].
Qed.

Lemma star_cons a c s : lang (RStar a) (String c s) <-> exists s1 s2, s = s1 +:+ s2 /\ lang a (String c s1) /\ lang (RStar a) s2.
Proof.
  split.
  - remember (RStar a) as r eqn:Er. remember (String c s) as t eqn:Et. intros Hl. revert Er Et.
    induction Hl as [| | | | | |a' s1 s2 H1 _ H2 IH]; intros [= ->] Et; try done.
    destruct s1 as [|c' s1]; [by apply IH|]. rewrite string_app_cons in Et. injection Et as -> <-. eauto.
  - intros (s1 & s2 & -> & ? & ?). rewrite <- string_app_cons. by constructor.
Qed.

Lemma deriv_lang c r s : lang (deriv c r) s <-> lang r (String c s).
Proof.
  revert s. induction r as [| |p|a IHa b IHb|a IHa b IHb|a IHa]; intros s; simpl.
  - split; by inversion 1.
  - split; by inversion 1.
  - destruct (p c) eqn:Ep.
    + rewrite lang_eps_iff. split; [intros ->; by constructor|by inversion 1].
    + split; [by inversion 1|]. inversion 1; subst. congruence.
  - rewrite alt_re_lang, seq_re_lang, !lang_seq_iff. setoid_rewrite IHa. split.
    + intros [(s1 & s2 & -> & H1 & H2)|Hb].
      * exists (String c s1), s2. by rewrite string_app_cons.
      * destruct (nullable a) eqn:En; [|by apply lang_void in Hb]. exists "", (String c s). by rewrite <- nullable_lang, <- IHb.
    + intros (s1 & s2 & E & H1 & H2). destruct s1 as [|c' s1].
      * right. apply nullable_lang in H1 as ->. apply IHb. by rewrite E.
      * rewrite string_app_cons in E. injection E as <- ->. left. eauto.
  - by rewrite alt_re_lang, IHa, IHb, lang_alt_iff.
  - rewrite seq_re_lang, lang_seq_iff, star_cons. by setoid_rewrite IHa.
Qed.

Lemma full_match_lang r s : full_match r s = true <-> lang r s.
Proof. revert r. induction s as [|c s IH]; intros r; simpl; [apply nullable_lang|]. by rewrite IH, deriv_lang. Qed.

Lemma anchored_match_lang r s :
  anchored_match r s = true <-> lang r s \/ exists t, s = t +:+ String "010" "" /\ lang r t.
Proof.
  revert r. induction s as [|c s IH]; intros r.
  - simpl. rewrite nullable_lang. split; [auto|]. by intros [?|([] & E & _)].
  - destruct s as [|c' s].
    + simpl. rewrite orb_true_iff, andb_true_iff, Ascii.eqb_eq, !nullable_lang, deriv_lang. f_equiv. split.
      * intros [-> ?]. by exists "".
      * intros ([|x [|]] & E & ?); [|done..]. rewrite string_app_nil_l in E. by injection E as ->.
    + change (anchored_match r (String c (String c' s))) with (anchored_match (deriv c r) (String c' s)).
      rewrite IH, deriv_lang. f_equiv. split.
      * intros (t & E & Ht). exists (String c t). by rewrite string_app_cons, <- E, <- deriv_lang.
      * intros ([|x t] & E & Ht); [done|]. rewrite string_app_cons in E. injection E as <- ->. exists t. by rewrite deriv_lang.
Qed.

