(* ===== verification/Lazerus.v ===== *)
(** * Integrity receipts

    Models [automation/lazerus.py]: the token grammar of the receipts that the
    masters publish, and the linter that admits a receipt only when every token
    of it is well formed.

    [\d] of a pattern over texts accepts every decimal digit of the character
    database; those outside ASCII are an argument. *)

From Stdlib Require Import Ascii.
From S2P Require Import Prelude PyVal PyText Json Regex.
Local Open Scope string_scope.

Section lint.
Context `{FloatRepr}.
Variable other_digit : re.

(** A compiled pattern with its text. *)
Record pattern := mkPattern { p_text : string; p_re : re }.

Definition match_pattern (p : pattern) (s : string) : bool := anchored_match (p_re p) s.

Definition d : re := RAlt (RChar (between "0"%char "9"%char)) other_digit.
Definition hex : re := RChar lower_hex.
Definition id_char : re := RChar (fun c => alnum c || one_of "._-" c).
Definition did_char : re := RChar (fun c => alnum c || one_of ":._-/%#" c).
Definition seqs (l : list re) : re := foldr RSeq REps l.

Definition RE_TIME : pattern :=
  mkPattern "^\d{4}-\d{2}-\d{2}T\d{2}:\d{2}:\d{2}Z$"
    (seqs [times 4 d; lit "-"; times 2 d; lit "-"; times 2 d; lit "T"; times 2 d; lit ":"; times 2 d; lit ":"; times 2 d; lit "Z"]).
Definition RE_SHA256 : pattern := mkPattern "^sha256:[0-9a-f]{64}$" (seqs [lit "sha256:"; times 64 hex]).
Definition RE_LZ_ID : pattern :=
  mkPattern "^urn:lz:(bie|nie|cie|rie|report|mix):[A-Za-z0-9._\-]{6,}$"
    (seqs [lit "urn:lz:"; words ["bie"; "nie"; "cie"; "rie"; "report"; "mix"]; lit ":"; at_least 6 id_char]).
Definition RE_KOE_ID : pattern :=
  mkPattern "^urn:lz:koe:[A-Za-z0-9._\-]{6,}$" (seqs [lit "urn:lz:koe:"; at_least 6 id_char]).
Definition RE_DID : pattern :=
  mkPattern "^did:(web|key):[A-Za-z0-9:._\-/%#]+$" (seqs [lit "did:"; words ["web"; "key"]; lit ":"; Regex.plus did_char]).
Definition RE_BLS_SIG : pattern :=
  mkPattern "^bls:[0-9a-f]{96}(?:[0-9a-f]{96})?$" (seqs [lit "bls:"; times 96 hex; up_to 1 (times 96 hex)]).
Definition RE_GIT_SHA : pattern := mkPattern "^[0-9a-f]{7,40}$" (seqs [times 7 hex; up_to 33 hex]).

Record ClusterReceipt := mkReceipt {
  cluster : string;
  receipt_id : string;
  issued_at : string;
  state_root : string;
  commit : string;
  writer_principal : string;
  replica_principal : string;
  quorum_sigs : list string;
  koe_id : option string
}.

(** [LintResult]: a receipt, or the errors. *)
Inductive LintResult := LintOk (receipt : ClusterReceipt) | LintErrors (errors : list string).

Definition quarantined (r : LintResult) : bool :=
  match r with LintOk rec => match koe_id rec with Some _ => true | None => false end | LintErrors _ => false end.

Definition type_name (v : pyval) : string :=
  match v with
  | PNone => "NoneType" | PBool _ => "bool" | PInt _ => "int" | PFloat _ => "float"
  | PStr _ => "str" | PList _ => "list" | PDict _ => "dict"
  end.

(** The token of a field, and the errors it adds. *)
Definition check (raw : dict) (name : string) (p : pattern) (required : bool) : option string * list string :=
  match default PNone (assoc name raw) with
  | PNone => (None, if required then [name +:+ ": missing (required)"] else [])
  | PStr v => if match_pattern p v then (Some v, []) else (None, [name +:+ ": " +:+ repr_str v +:+ " does not match " +:+ p_text p])
  | v => (None, [name +:+ ": " +:+ py_repr v +:+ " does not match " +:+ p_text p])
  end.

Definition check_sig (s : pyval) : list string :=
  match s with
  | PStr t => if match_pattern RE_BLS_SIG t then [] else ["quorum_sigs: " +:+ repr_str t +:+ " is not a bls: signature"]
  | v => ["quorum_sigs: " +:+ py_repr v +:+ " is not a bls: signature"]
  end.

Definition check_sigs (raw : dict) : list string :=
  match default (PList []) (assoc "quorum_sigs" raw) with
  | PList (s :: sigs) => concat (map check_sig (s :: sigs))
  | _ => ["quorum_sigs: must be a non-empty list of bls: signatures"]
  end.

Definition text_of (v : pyval) : option string := match v with PStr s => Some s | _ => None end.

Definition sig_texts (raw : dict) : list string :=
  match default (PList []) (assoc "quorum_sigs" raw) with
  | PList sigs => omap text_of sigs
  | _ => []
  end.

Definition self_attested (w r : option string) : list string :=
  match w, r with
  | Some w, Some r => if negb (String.eqb w "") && negb (String.eqb r "") && String.eqb w r
      then ["writer_principal == replica_principal: a replica may not self-attest"] else []
  | _, _ => []
  end.

Definition lint_receipt (raw : pyval) : LintResult :=
  match raw with
  | PDict raw =>
    let '(c, e1) := check raw "cluster" RE_DID true in
    let '(i, e2) := check raw "receipt_id" RE_LZ_ID true in
    let '(t, e3) := check raw "issued_at" RE_TIME true in
    let '(sr, e4) := check raw "state_root" RE_SHA256 true in
    let '(cm, e5) := check raw "commit" RE_GIT_SHA true in
    let '(w, e6) := check raw "writer_principal" RE_DID true in
    let '(r, e7) := check raw "replica_principal" RE_DID true in
    let '(k, e8) := check raw "koe_id" RE_KOE_ID false in
    let errors := (e1 ++ e2 ++ e3 ++ e4 ++ e5 ++ e6 ++ e7 ++ e8 ++ check_sigs raw ++ self_attested w r)%list in
    match errors, c, i, t, sr, cm, w, r with
    | [], Some c, Some i, Some t, Some sr, Some cm, Some w, Some r => LintOk (mkReceipt c i t sr cm w r (sig_texts raw) k)
    | _, _, _, _, _, _, _, _ => LintErrors errors
    end
  | v => LintErrors ["receipt must be an object, got " +:+ type_name v]
  end.

(** ** Admissible receipts *)

Definition token (p : pattern) (s : string) : Prop := lang (p_re p) s \/ exists t, s = t +:+ String "010" "" /\ lang (p_re p) t.

Definition required (raw : dict) (name : string) (p : pattern) (s : string) : Prop := assoc name raw = Some (PStr s) /\ token p s.

Definition optional (raw : dict) (name : string) (p : pattern) (o : option string) : Prop :=
  match o with
  | Some s => required raw name p s
  | None => default PNone (assoc name raw) = PNone
  end.

(** What a receipt is read from. *)
Definition admissible (raw : pyval) (rec : ClusterReceipt) : Prop :=
  exists doc, raw = PDict doc /\
    required doc "cluster" RE_DID (cluster rec) /\ required doc "receipt_id" RE_LZ_ID (receipt_id rec) /\
    required doc "issued_at" RE_TIME (issued_at rec) /\ required doc "state_root" RE_SHA256 (state_root rec) /\
    required doc "commit" RE_GIT_SHA (commit rec) /\ required doc "writer_principal" RE_DID (writer_principal rec) /\
    required doc "replica_principal" RE_DID (replica_principal rec) /\ optional doc "koe_id" RE_KOE_ID (koe_id rec) /\
    assoc "quorum_sigs" doc = Some (PList (map PStr (quorum_sigs rec))) /\ quorum_sigs rec <> [] /\
    Forall (token RE_BLS_SIG) (quorum_sigs rec) /\ writer_principal rec <> replica_principal rec.

Lemma match_pattern_token p s : match_pattern p s = true <-> token p s.
Proof. apply anchored_match_lang. Qed.

Lemma check_required raw name p s e : check raw name p true = (s, e) -> e = [] <-> exists t, s = Some t /\ required raw name p t.
Proof.
  unfold check, required. setoid_rewrite <- match_pattern_token. intros E.
  destruct (assoc name raw) as [v|]; [|injection E as <- <-; split; [done|by intros (? & ? & _)]]. simpl in E.
  destruct v as [| | | |v| |]; try (injection E as <- <-; split; [done|by intros (? & ? & _)]).
  destruct (match_pattern p v) eqn:Em; injection E as <- <-; (split; [|by intros (? & ? & _)]); [|done]. eauto.
Qed.

Lemma required_check raw name p s b : required raw name p s -> check raw name p b = (Some s, []).
Proof. intros [E Ht%match_pattern_token]. unfold check. rewrite E. simpl. by rewrite Ht. Qed.

Lemma optional_check raw name p o : optional raw name p o -> check raw name p false = (o, []).
Proof. destruct o as [s|]; [apply required_check|]. simpl. intros E. unfold check. by rewrite E. Qed.

Lemma check_optional raw name p s e : check raw name p false = (s, e) -> e = [] <-> optional raw name p s.
Proof.
  unfold check, optional, required. intros E.
  destruct (assoc name raw) as [v|]; [|by injection E as <- <-]. simpl in E.
  destruct v as [| | | |v| |]; try (by injection E as <- <-).
  destruct (match_pattern p v) eqn:Em; injection E as <- <-; [|done]. apply match_pattern_token in Em. done.
Qed.

Lemma check_sig_nil v : check_sig v = [] <-> exists s, v = PStr s /\ token RE_BLS_SIG s.
Proof.
  setoid_rewrite <- match_pattern_token. destruct v as [| | | |s| |]; simpl; try (split; [done|by intros (? & ? & _)]).
  destruct (match_pattern RE_BLS_SIG s) eqn:Em.
  - split; [eauto|done].
  - split; [done|]. intros (? & [= <-] & ?). congruence.
Qed.

Lemma check_sigs_nil raw :
  check_sigs raw = [] <->
  assoc "quorum_sigs" raw = Some (PList (map PStr (sig_texts raw))) /\ sig_texts raw <> [] /\ Forall (token RE_BLS_SIG) (sig_texts raw).
Proof.
  unfold check_sigs, sig_texts. destruct (assoc "quorum_sigs" raw) as [[| | | | |sigs|]|]; simpl; try (split; [done|by intros (? & _)]).
  assert (concat (map check_sig sigs) = [] <-> sigs = map PStr (omap text_of sigs) /\ Forall (token RE_BLS_SIG) (omap text_of sigs)) as Hs.
  { induction sigs as [|v sigs IH]; [done|]. cbn [map concat]. rewrite app_nil, check_sig_nil, IH. split.
    - intros [(s & -> & Hs) [E HF]]. simpl. split; [by f_equal|by constructor].
    - intros [E HF]. destruct v as [| | | |s| |]; simpl in E; try (destruct (list_omap _ _ text_of sigs); discriminate E).
      simpl in HF. injection E as E. apply Forall_cons in HF as [? ?]. eauto. }
  destruct sigs as [|v sigs]; [split; [done|by intros (_ & ? & _)]|]. rewrite Hs. split.
  - intros [E HF]. split_and!; [exact (f_equal (fun l => Some (PList l)) E)| |exact HF].
    intros Hn. change (omap text_of (v :: sigs) = []) in Hn. by rewrite Hn in E.
  - intros (E & _ & HF). split; [|exact HF]. exact (f_equal (fun o => match o with Some (PList l) => l | _ => [] end) E).
Qed.

Lemma self_attested_nil w r : w <> "" -> self_attested (Some w) (Some r) = [] <-> w <> r.
Proof.
  intros Hw. simpl. apply String.eqb_neq in Hw. rewrite Hw. simpl.
  destruct (String.eqb_spec w r) as [->|Hne]; [rewrite Hw|rewrite andb_false_r]; simpl; done.
Qed.

Lemma did_nonempty s : token RE_DID s -> s <> "".
Proof. intros Ht ->. apply match_pattern_token in Ht. discriminate Ht. Qed.

(** The linter admits exactly the admissible receipts, and reads them as they
    are. *)
Lemma lint_admits raw rec : lint_receipt raw = LintOk rec -> admissible raw rec.
Proof.
  destruct raw as [| | | | | |doc]; try done. unfold lint_receipt.
  destruct (check doc "cluster" RE_DID true) as [c e1] eqn:E1. apply check_required in E1.
  destruct (check doc "receipt_id" RE_LZ_ID true) as [i e2] eqn:E2. apply check_required in E2.
  destruct (check doc "issued_at" RE_TIME true) as [t e3] eqn:E3. apply check_required in E3.
  destruct (check doc "state_root" RE_SHA256 true) as [sr e4] eqn:E4. apply check_required in E4.
  destruct (check doc "commit" RE_GIT_SHA true) as [cm e5] eqn:E5. apply check_required in E5.
  destruct (check doc "writer_principal" RE_DID true) as [w e6] eqn:E6. apply check_required in E6.
  destruct (check doc "replica_principal" RE_DID true) as [r e7] eqn:E7. apply check_required in E7.
  destruct (check doc "koe_id" RE_KOE_ID false) as [k e8] eqn:E8. apply check_optional in E8.
  set (errors := (e1 ++ e2 ++ e3 ++ e4 ++ e5 ++ e6 ++ e7 ++ e8 ++ check_sigs doc ++ self_attested w r)%list).
  assert (errors = [] -> e1 = [] /\ e2 = [] /\ e3 = [] /\ e4 = [] /\ e5 = [] /\ e6 = [] /\ e7 = [] /\ e8 = [] /\
    check_sigs doc = [] /\ self_attested w r = []) as Herr by (subst errors; rewrite !app_nil; done).
  clearbody errors. rewrite check_sigs_nil in Herr. intros E.
  destruct errors as [|? errors]; [|discriminate E]. destruct (Herr eq_refl) as (H1 & H2 & H3 & H4 & H5 & H6 & H7 & H8 & (? & ? & ?) & Ha).
  apply E1 in H1 as (c' & -> & ?). apply E2 in H2 as (i' & -> & ?). apply E3 in H3 as (t' & -> & ?). apply E4 in H4 as (sr' & -> & ?).
  apply E5 in H5 as (cm' & -> & ?). apply E6 in H6 as (w' & -> & Hw). apply E7 in H7 as (r' & -> & ?). apply E8 in H8.
  injection E as <-. apply self_attested_nil in Ha; [|by eapply did_nonempty, Hw]. exists doc. by split_and!.
Qed.

Lemma admits_lint raw rec : admissible raw rec -> lint_receipt raw = LintOk rec.
Proof.
  intros (doc & -> & H1 & H2 & H3 & H4 & H5 & H6 & H7 & H8 & Hs & Hne & HF & Hwr). unfold lint_receipt.
  rewrite (required_check _ _ _ _ _ H1), (required_check _ _ _ _ _ H2), (required_check _ _ _ _ _ H3), (required_check _ _ _ _ _ H4),
    (required_check _ _ _ _ _ H5), (required_check _ _ _ _ _ H6), (required_check _ _ _ _ _ H7), (optional_check _ _ _ _ H8).
  rewrite (proj2 (self_attested_nil _ _ (did_nonempty _ (proj2 H6))) Hwr).
  assert (sig_texts doc = quorum_sigs rec) as Ht.
  { unfold sig_texts. rewrite Hs. simpl. clear. induction (quorum_sigs rec) as [|s l IH]; [done|]. exact (f_equal (cons s) IH). }
  rewrite (proj2 (check_sigs_nil doc)) by (rewrite Ht; done). rewrite Ht. by destruct rec.
Qed.

(** A receipt is admitted exactly when every token of it is in the language
    of its pattern.  The required tokens are there, a quarantine token if there is
    one, at least one signature and no malformed one, and the writer is not the
    replica; and the receipt read is the one given.  A receipt with a fault
    anywhere is refused as a whole. *)
Theorem lint_iff_admissible raw : 
  (forall rec, lint_receipt raw = LintOk rec <-> admissible raw rec) /\
  ((exists errors, lint_receipt raw = LintErrors errors) <-> forall rec, ~ admissible raw rec).
Proof.
  assert (forall rec, lint_receipt raw = LintOk rec <-> admissible raw rec) as Hiff
    by (intros rec; split; [apply lint_admits|apply admits_lint]).
  split; [exact Hiff|]. setoid_rewrite <- Hiff. split.
  - intros [errors ->] rec. done.
  - intros Hn. destruct (lint_receipt raw) as [rec|errors]; [by destruct (Hn rec)|eauto].
Qed.
End lint.

(** ** Examples *)

Section examples.
#[local] Existing Instance demo_float_repr.

Definition demo_root_hash (c : ascii) : string := "sha256:" +:+ str_repeat 64 c.

Definition demo_doc (who writer replica : string) (root : ascii) (sha : string) (koe : pyval) : dict :=
  [("cluster", PStr who); ("receipt_id", PStr "urn:lz:rie:000001"); ("issued_at", PStr "2026-01-02T03:04:05Z");
   ("state_root", PStr (demo_root_hash root)); ("commit", PStr sha); ("writer_principal", PStr writer);
   ("replica_principal", PStr replica); ("koe_id", koe); ("quorum_sigs", PList [PStr ("bls:" +:+ str_repeat 96 "a")])].

Example lint_ex :
  map (fun raw => match lint_receipt RVoid raw with LintOk _ => O | LintErrors e => length e end)
    [PDict (demo_doc "did:web:m1" "did:key:w" "did:key:r" "a" "0123456" PNone);
     PDict (demo_doc "did:web:m1" "did:key:w" "did:key:w" "a" "0123456" (PStr "urn:lz:koe:000001"));
     PDict (demo_doc "m1" "did:key:w" "did:key:r" "z" "012345" (PStr "koe")); PNone] = [0; 1; 4; 1]%nat.
Proof. vm_compute. reflexivity. Qed.

(** The dollar of a pattern matches before a final line feed, so a replica that
    attests itself passes when the feed is added to one of its two names. *)
Example line_feed_self_attests :
  match lint_receipt RVoid (PDict (demo_doc "did:web:m1" "did:key:w" ("did:key:w" +:+ String "010" "") "a" "0123456" PNone)) with
  | LintOk rec => py_strip (writer_principal rec) = py_strip (replica_principal rec)
  | LintErrors _ => False
  end.
Proof. vm_compute. reflexivity. Qed.
End examples.
