(* ===== verification/MacroTriad.v ===== *)
(** * The quorum of the master triad

    Models [automation/triad_receipts.py] (the collection of the masters'
    receipts), [automation/macro_triad.py] (the quorum over them) and
    [propose_state_failback] of [automation/beacon_producers.py], which turns a
    master that the quorum names sick into a reviewed revert.

    A receipt file is what [read_text] makes of it: its text, or an exception,
    whose message is an argument. *)

From Stdlib Require Import Ascii SpecFloat.
From S2P Require Import Prelude PyVal PyText Json JsonParse Regex Lazerus TriadRotation.
Local Open Scope string_scope.

Section triad.
Context `{FloatRepr}.
Variable other_digit : re.
Variable exc_text : exn -> string.

#[local] Abbreviation lint := (lint_receipt other_digit).

(** ** Collecting receipts *)

(** What the collector keeps, what it refuses, and the masters it has seen. *)
Record collected := mkCollected { c_receipts : list pyval; c_rejected : list pyval; c_seen : list string }.

Definition reject (c : collected) (entry : dict) : collected :=
  mkCollected (c_receipts c) (c_rejected c ++ [PDict entry])%list (c_seen c).

(** [except (FileNotFoundError, ValueError)]; a text that is not JSON raises one
    of the latter. *)
Definition is_unreadable (e : exn) : bool :=
  match e with FileNotFound _ | ValueError _ | JSONDecodeError => true | _ => false end.

Definition read_json (file : res string) : res pyval := text ← file; loads text.

Definition cluster_field (raw : pyval) : pyval :=
  match raw with PDict d => default PNone (assoc "cluster" d) | _ => PNone end.

Definition collect_file (c : collected) (pf : string * res string) : res collected :=
  let (path, file) := pf in
  match read_json file with
  | Raise e => if is_unreadable e then Ok (reject c [("path", PStr path); ("reason", PStr ("unreadable: " +:+ exc_text e))]) else Raise e
  | Ok raw =>
    Ok (match lint raw with
        | LintErrors errors =>
          reject c [("path", PStr path); ("cluster", cluster_field raw); ("reason", PStr (str_join "; " errors))]
        | LintOk rec =>
          if bool_decide (cluster rec ∈ c_seen c) then
            reject c [("path", PStr path); ("cluster", PStr (cluster rec)); ("reason", PStr "duplicate master in this round")]
          else mkCollected (c_receipts c ++ [raw])%list (c_rejected c) (cluster rec :: c_seen c)
        end)
  end.

Definition collect_files (files : list (string * res string)) : res collected := res_fold collect_file (mkCollected [] [] []) files.

(** The document, written with a temporary file and a rename when a path is given. *)
Definition collect_receipts (now : string) (files : list (string * res string)) (repo : string) (quorum : Z) : res dict :=
  c ← collect_files files;
  Ok [("repo", PStr repo); ("quorum", PInt quorum); ("receipts", PList (c_receipts c)); ("rejected", PList (c_rejected c));
      ("collected_at", PStr now)].

(** ** The quorum *)

Record SickCluster := mkSick { s_cluster : pyval; s_reason : string; head_commit : option string; s_koe : option string }.

Record TriadAssessment := mkTriad {
  quorum_ok : bool;
  canonical_state_root : option string;
  canonical_commit : option string;
  healthy_clusters : list string;
  sick_clusters : list SickCluster;
  t_reasons : list string
}.

Definition needs_failback (a : TriadAssessment) : bool :=
  quorum_ok a && match sick_clusters a with [] => false | _ => true end.

Definition votes_map := list (string * list ClusterReceipt).

Definition add_vote (rec : ClusterReceipt) (by_state : votes_map) : votes_map :=
  assoc_set (state_root rec) (default [] (assoc (state_root rec) by_state) ++ [rec])%list by_state.

Record tally := mkTally { t_sick : list SickCluster; t_trail : list string; t_votes : votes_map }.

Definition count_receipt (t : tally) (ir : nat * pyval) : tally :=
  let (idx, raw) := ir in
  match lint raw with
  | LintErrors errors =>
    let cid := cluster_field raw in
    let why := str_join "; " errors in
    mkTally
      (t_sick t ++ [mkSick (py_or cid (PStr ("<receipt[" +:+ pretty idx +:+ "]>"))) ("malformed receipt: " +:+ why) None None])%list
      (t_trail t ++ ["receipt[" +:+ pretty idx +:+ "] rejected (" +:+ py_str (py_or cid (PStr "unknown")) +:+ "): " +:+ why])%list
      (t_votes t)
  | LintOk rec =>
    match koe_id rec with
    | Some koe =>
      mkTally (t_sick t ++ [mkSick (PStr (cluster rec)) "quarantined by Lazerus koe_id" (Some (commit rec)) (Some koe)])%list
        (t_trail t ++ [cluster rec +:+ ": quarantined (" +:+ koe +:+ ")"])%list (t_votes t)
    | None => mkTally (t_sick t) (t_trail t) (add_vote rec (t_votes t))
    end
  end.

(** [max(l, key=f)]: the first of the largest. *)
Fixpoint max_by {A} (f : A -> nat) (best : A) (l : list A) : A :=
  match l with [] => best | x :: l => max_by f (if Nat.ltb (f best) (f x) then x else best) l end.

Definition votes_for (by_state : votes_map) (root : string) : list ClusterReceipt := default [] (assoc root by_state).

Definition winner (by_state : votes_map) (quorum : Z) : option string :=
  match py_sort String.ltb by_state.*1 with
  | [] => None
  | r :: roots =>
    let w := max_by (fun r => length (votes_for by_state r)) r roots in
    if (Z.of_nat (length (votes_for by_state w)) <? quorum)%Z then None else Some w
  end.

Definition unreconciled (quorum : Z) (rv : string * list ClusterReceipt) : list SickCluster :=
  map (fun rec => mkSick (PStr (cluster rec)) ("unreconciled: no quorum, committed to " +:+ str_take 19 rv.1 +:+ "…") (Some (commit rec)) None)
    rv.2.

Definition diverged (rv : string * list ClusterReceipt) : list SickCluster :=
  map (fun rec => mkSick (PStr (cluster rec)) ("diverged: committed to " +:+ str_take 19 rv.1 +:+ "… not the canonical state") (Some (commit rec)) None)
    rv.2.

Definition assess_triad (receipts : list pyval) (quorum : Z) : TriadAssessment :=
  let t := fold_left count_receipt (enumerate 0 receipts) (mkTally [] [] []) in
  let q := pretty quorum in
  match winner (t_votes t) quorum with
  | None =>
    let split := py_sort key_ltb (t_votes t) in
    mkTriad false None None []
      (t_sick t ++ concat (map (unreconciled quorum) split))%list
      (t_trail t ++
       map (fun rv : string * list ClusterReceipt => "state " +:+ str_take 19 rv.1 +:+ "… has " +:+ pretty (length rv.2) +:+
                                                     " vote(s) — short of quorum " +:+ q) split ++
       ["NO quorum: no state reached " +:+ q +:+ " agreeing masters — no trusted failback target"])%list
  | Some root =>
    let canonical := votes_for (t_votes t) root in
    let target := match canonical with rec :: _ => commit rec | [] => EmptyString end in
    let others := List.filter (fun rv : string * list ClusterReceipt => negb (String.eqb rv.1 root)) (t_votes t) in
    mkTriad true (Some root) (Some target) (map cluster canonical)
      (t_sick t ++ concat (map diverged others))%list
      (t_trail t ++
       ["quorum OK: " +:+ pretty (length canonical) +:+ "/" +:+ pretty (length receipts) +:+ " masters agree on " +:+ str_take 19 root +:+
        "… (commit " +:+ str_take 12 target +:+ ") — canonical healthy state"] ++
       concat (map (fun rv : string * list ClusterReceipt =>
         map (fun rec => cluster rec +:+ ": diverged from canonical (serving " +:+ str_take 12 (commit rec) +:+ ")") rv.2) others))%list
  end.

(** ** Proposing a failback *)

Definition LF : string := String "010" "".

Definition failback_beacon (now : string) (repo : pyval) (quorum : Z) (n : nat) (kind_class base : string) (a : TriadAssessment)
    (good root : string) (sick : SickCluster) (head : string) : dict :=
  let revert_range := good +:+ ".." +:+ head in
  let who := py_str (s_cluster sick) in
  let healthy := pretty (length (healthy_clusters a)) in
  let fence := match s_koe sick with Some k => if String.eqb k "" then "" else " Lazerus quarantine `" +:+ k +:+ "`." | None => "" end in
  let body :=
    "The k3s master triad diverged. A quorum of " +:+ healthy +:+ " masters agree on state `" +:+ root +:+ "` (commit `" +:+ good +:+
    "`); master `" +:+ who +:+ "` diverged to commit `" +:+ head +:+ "`." +:+ fence +:+ LF +:+ LF +:+
    "- **failback:** revert `" +:+ revert_range +:+ "` — amplify the sick cluster back to the last state the master quorum stands behind." +:+ LF +:+
    "- **why a revert (not a patch):** Argo CD `selfHeal: true` re-applies git, so only a git revert of the divergent range sticks." +:+ LF +:+
    "- **why a PR (not auto-merge):** a production failback is reviewed." +:+ LF +:+
    "- **quorum:** " +:+ healthy +:+ "/" +:+ pretty n +:+ " masters (≥ " +:+ pretty quorum +:+
    ") — a trusted target exists, so this is a decision, not a guess." +:+ LF +:+ LF +:+
    "Opened by the macro-triad self-heal responder (class `" +:+ kind_class +:+ "`)." in
  [("kind_class", PStr kind_class); ("system", PStr (py_str repo +:+ "::" +:+ who));
   ("evidence", PDict [("detector", PStr "lazerus_macro_triad"); ("reproducible", PBool true); ("stale", PBool false)]);
   ("evidence_ref", PStr (match s_koe sick with Some (String c k) => String c k | _ => "lazerus://triad/" +:+ who end));
   ("plan", PDict []);
   ("detail", PDict [("cluster", s_cluster sick); ("canonical_commit", PStr good); ("sick_commit", PStr head);
                     ("koe_id", match s_koe sick with Some k => PStr k | None => PNone end); ("reason", PStr (s_reason sick));
                     ("healthy_quorum", PList (map PStr (healthy_clusters a)))]);
   ("proposal", PDict [("repo", repo); ("base", PStr base);
                       ("branch", PStr ("self-heal/" +:+ kind_class +:+ "/failback-" +:+ str_take 12 head));
                       ("title", PStr ("revert(self-heal): fail " +:+ who +:+ " back to " +:+ str_take 12 good +:+ " (quorum-blessed state)"));
                       ("revert", PStr revert_range); ("body", PStr body)]);
   ("observed_at", PStr now)].

Definition propose_state_failback (now : string) (receipts : list pyval) (repo : pyval) (quorum : Z) (kind_class base : string) : list dict :=
  let a := assess_triad receipts quorum in
  if negb (needs_failback a) then [] else
  let good := default EmptyString (canonical_commit a) in
  omap (fun sick =>
    match head_commit sick with
    | Some (String c h) =>
      if String.eqb (String c h) good then None
      else Some (failback_beacon now repo quorum (length receipts) kind_class base a good
                   (default EmptyString (canonical_state_root a)) sick (String c h))
    | _ => None
    end) (sick_clusters a).

(** ** The detector *)

Definition _DEFAULT_INFRA_REPO : string := "SocioProphet/prophet-platform".

Definition read_quorum (doc : dict) : res Z :=
  match py_int_of (py_or (default (PInt 2) (assoc "quorum" doc)) (PInt 2)) with
  | Ok q => Ok q
  | Raise TypeError | Raise (ValueError _) => Ok 2%Z
  | Raise e => Raise e
  end.

Definition split_brain (now : string) (repo : pyval) (a : TriadAssessment) : dict :=
  [("kind_class", PStr "deploy_regression"); ("system", PStr (py_str repo +:+ "::macro-triad"));
   ("detail", PDict [("condition", PStr "split-brain: no k3s master quorum -> no trusted failback target");
                     ("sick", PList (map s_cluster (sick_clusters a))); ("reasons", PList (map PStr (t_reasons a)))]);
   ("observed_at", PStr now)].

Definition off_schedule (now : string) (repo : pyval) (why : list string) : dict :=
  [("kind_class", PStr "deploy_regression"); ("system", PStr (py_str repo +:+ "::macro-triad-rotation"));
   ("detail", PDict [("condition", PStr "off-schedule writer: a master led out of its rotation turn"); ("reasons", PList (map PStr why))]);
   ("observed_at", PStr now)].

(** The failbacks or, without one, the split for a human to see. *)
Definition divergence_beacons (now : string) (receipts : list pyval) (repo : pyval) (quorum : Z) : list dict :=
  match propose_state_failback now receipts repo quorum "deploy_regression" "main" with
  | [] =>
    let a := assess_triad receipts quorum in
    if negb (quorum_ok a) && (quorum <=? Z.of_nat (length receipts))%Z then [split_brain now repo a] else []
  | out => out
  end.

Definition detect_macro_triad_divergence (strptime : string -> option spec_float) (now : string) (file : res string) (schedule : option RotationSchedule) : res (list dict) :=
  match read_json file with
  | Raise e => if is_unreadable e then Ok [] else Raise e
  | Ok (PDict doc) =>
    match default PNone (assoc "receipts" doc) with
    | PList (r :: rs) =>
      let receipts := r :: rs in
      let repo := py_or (default PNone (assoc "repo" doc)) (PStr _DEFAULT_INFRA_REPO) in
      quorum ← read_quorum doc;
      let out := divergence_beacons now receipts repo quorum in
      match schedule with
      | None => Ok out
      | Some s => w ← writers_on_schedule strptime receipts s;
        let (ok, why) := (w : bool * list string) in
        Ok (if ok then out else (out ++ [off_schedule now repo why])%list)
      end
    | _ => Ok []
    end
  | Ok _ => Ok []
  end.

(** ** Ballots *)

(** The vote of a receipt: it is admitted and not fenced. *)
Definition vote (raw : pyval) : option ClusterReceipt :=
  match lint raw with LintOk rec => match koe_id rec with None => Some rec | Some _ => None end | LintErrors _ => None end.

Definition supporters (receipts : list pyval) (root : string) : list ClusterReceipt :=
  List.filter (fun rec => String.eqb (state_root rec) root) (omap vote receipts).

(** The name an assessment uses for the master of a receipt. *)
Definition master_name (ir : nat * pyval) : pyval :=
  match lint ir.2 with
  | LintOk rec => PStr (cluster rec)
  | LintErrors _ => py_or (cluster_field ir.2) (PStr ("<receipt[" +:+ pretty ir.1 +:+ "]>"))
  end.

Lemma add_vote_for rec m root :
  votes_for (add_vote rec m) root = (votes_for m root ++ if String.eqb (state_root rec) root then [rec] else [])%list.
Proof.
  unfold votes_for, add_vote. destruct (String.eqb_spec (state_root rec) root) as [<-|Hne].
  - by rewrite assoc_set_eq.
  - by rewrite assoc_set_ne, app_nil_r by congruence.
Qed.

Lemma assoc_set_concat {A} k (x : A) (m : list (string * list A)) :
  concat (assoc_set k (default [] (assoc k m) ++ [x])%list m).*2 ≡ₚ concat m.*2 ++ [x].
Proof.
  induction m as [|[k' v] m IH]; simpl; [done|]. destruct (String.eqb k' k); simpl.
  - rewrite <- !app_assoc. apply Permutation_app_head, Permutation_app_comm.
  - rewrite <- app_assoc. by apply Permutation_app_head.
Qed.

(** What has been counted: the votes, and the names of the others. *)
Record counted (receipts : list (nat * pyval)) (t : tally) : Prop := {
  cnt_for root : votes_for (t_votes t) root = supporters receipts.*2 root;
  cnt_nodup : NoDup (t_votes t).*1;
  cnt_keys root : root ∈ (t_votes t).*1 -> votes_for (t_votes t) root <> [];
  cnt_all : map (fun rec => PStr (cluster rec)) (concat (t_votes t).*2) ++ map s_cluster (t_sick t) ≡ₚ map master_name receipts
}.

Lemma supporters_snoc receipts raw root :
  supporters (receipts ++ [raw]) root = (supporters receipts root ++ match vote raw with Some rec => if String.eqb (state_root rec) root then [rec] else [] | None => [] end)%list.
Proof.
  unfold supporters. rewrite omap_app, List.filter_app. f_equal. simpl. destruct (vote raw) as [rec|]; [|done].
  simpl. by destruct (String.eqb (state_root rec) root).
Qed.

Lemma count_step receipts t ir : counted receipts t -> counted (receipts ++ [ir]) (count_receipt t ir).
Proof.
  intros [Hfor Hnd Hk Hall]. destruct ir as [idx raw]. unfold count_receipt.
  assert (forall n, map (fun rec => PStr (cluster rec)) (concat (t_votes t).*2) ++ map s_cluster (t_sick t) ++ [n] ≡ₚ
    map master_name receipts ++ [n]) as Hsick by (intros n; by rewrite app_assoc, Hall).
  destruct (lint raw) as [rec|errors] eqn:El; [destruct (koe_id rec) as [koe|] eqn:Ek|].
  2: split; cbn [t_votes t_sick].
  1,6: split; cbn [t_votes t_sick]; [|done|done|]; [intros root; rewrite fmap_app, Hfor; simpl; rewrite supporters_snoc; unfold vote; rewrite El, ?Ek, app_nil_r; done
    |rewrite !map_app; simpl; unfold master_name at 2; simpl; rewrite El; apply Hsick].
  - intros root. rewrite add_vote_for, Hfor, fmap_app. simpl. rewrite supporters_snoc. unfold vote. by rewrite El, Ek.
  - by apply NoDup_assoc_set.
  - intros root Hr. unfold add_vote in Hr. rewrite assoc_set_keys in Hr. rewrite add_vote_for. intros [E1 E2]%app_nil. destruct Hr as [->|Hr].
    + by rewrite String.eqb_refl in E2.
    + by apply (Hk root).
  - rewrite map_app. simpl. unfold master_name at 2. simpl. rewrite El, <- Hall. unfold add_vote.
    rewrite assoc_set_concat, map_app, <- !app_assoc. apply Permutation_app_head. simpl. apply Permutation_cons_append.
Qed.

Lemma count_all receipts : counted (enumerate 0 receipts) (fold_left count_receipt (enumerate 0 receipts) (mkTally [] [] [])).
Proof.
  generalize (enumerate 0 receipts). intros l. induction l as [|ir l IH] using rev_ind.
  - split; simpl; [done|constructor|by intros ? ?%elem_of_nil|done].
  - rewrite fold_left_app. by apply count_step.
Qed.

Lemma enumerate_snd {A} i (l : list A) : (enumerate i l).*2 = l.
Proof. revert i. induction l as [|x l IH]; intros i; [done|]. simpl. by rewrite IH. Qed.

Lemma max_by_spec {A} (f : A -> nat) best l :
  max_by f best l ∈ best :: l /\ forall x, x ∈ best :: l -> (f x <= f (max_by f best l))%nat.
Proof.
  revert best. induction l as [|y l IH]; intros best; simpl.
  - split; [by left|]. by intros x ->%list_elem_of_singleton.
  - specialize (IH (if Nat.ltb (f best) (f y) then y else best)) as [IHe IHm].
    destruct (Nat.ltb_spec (f best) (f y)); (split; [set_solver|]); intros x [->|[->|Hx]%elem_of_cons]%elem_of_cons;
      try (apply IHm; set_solver).
    + etransitivity; [|apply IHm; by left]. lia.
    + etransitivity; [|apply IHm; by left]. lia.
Qed.

Section winner.
Variables (receipts : list pyval) (quorum : Z).
Hypothesis quorum_pos : (0 < quorum)%Z.

#[local] Abbreviation counted_votes := (t_votes (fold_left count_receipt (enumerate 0 receipts) (mkTally [] [] []))).

Lemma votes_supporters root : votes_for counted_votes root = supporters receipts root.
Proof. rewrite (cnt_for _ _ (count_all receipts)). by rewrite enumerate_snd. Qed.

Lemma supported_key root : supporters receipts root <> [] -> root ∈ (counted_votes).*1.
Proof.
  rewrite <- votes_supporters. unfold votes_for. intros Hne.
  destruct (decide (root ∈ (counted_votes).*1)) as [?|Hn]; [done|]. apply assoc_None in Hn. by rewrite Hn in Hne.
Qed.

Lemma winner_Some root :
  winner counted_votes quorum = Some root ->
  (quorum <= Z.of_nat (length (supporters receipts root)))%Z /\
  forall other, (length (supporters receipts other) <= length (supporters receipts root))%nat.
Proof.
  unfold winner. destruct (py_sort _ _) as [|r roots] eqn:Es; [done|].
  destruct (max_by_spec (fun r => length (votes_for counted_votes r)) r roots) as [_ Hmax].
  destruct (Z.ltb_spec (Z.of_nat (length (votes_for counted_votes (max_by (fun r => length (votes_for counted_votes r)) r roots)))) quorum) as [|Hq]; [done|].
  intros [= <-]. rewrite votes_supporters in Hq. split; [exact Hq|]. intros other.
  destruct (supporters receipts other) as [|x xs] eqn:Eo; [simpl; lia|]. rewrite <- Eo, <- !votes_supporters. apply Hmax.
  rewrite <- Es, elem_of_py_sort. apply supported_key. by rewrite Eo.
Qed.

Lemma winner_None root : winner counted_votes quorum = None -> (Z.of_nat (length (supporters receipts root)) < quorum)%Z.
Proof.
  unfold winner. destruct (py_sort _ _) as [|r roots] eqn:Es.
  - intros _. destruct (supporters receipts root) as [|x xs] eqn:Eo; [done|].
    assert (root ∈ py_sort String.ltb (counted_votes).*1) as Hin by (apply elem_of_py_sort, supported_key; by rewrite Eo).
    rewrite Es in Hin. by apply elem_of_nil in Hin.
  - destruct (max_by_spec (fun r => length (votes_for counted_votes r)) r roots) as [_ Hmax].
    destruct (Z.ltb_spec (Z.of_nat (length (votes_for counted_votes (max_by (fun r => length (votes_for counted_votes r)) r roots)))) quorum) as [Hq|]; [|done].
    intros _. destruct (supporters receipts root) as [|x xs] eqn:Eo; [done|]. rewrite <- Eo, <- votes_supporters.
    assert (root ∈ r :: roots) as Hin%Hmax by (rewrite <- Es, elem_of_py_sort; apply supported_key; by rewrite Eo). lia.
Qed.
End winner.

(** Two states never share a supporter. *)
Lemma supporters_disjoint receipts r1 r2 :
  r1 <> r2 -> (length (supporters receipts r1) + length (supporters receipts r2) <= length receipts)%nat.
Proof.
  intros Hne. unfold supporters.
  assert (length (omap vote receipts) <= length receipts)%nat as Hl.
  { induction receipts as [|x l IH]; [done|]. simpl. destruct (vote x); simpl; unfold omap in *; lia. }
  revert Hl. generalize (omap vote receipts). intros l Hl. etransitivity; [|exact Hl]. clear Hl.
  induction l as [|rec l IH]; [done|]. simpl. destruct (String.eqb_spec (state_root rec) r1), (String.eqb_spec (state_root rec) r2); simpl; congruence || lia.
Qed.

Lemma concat_split root (m : votes_map) :
  NoDup m.*1 ->
  concat m.*2 ≡ₚ votes_for m root ++ concat (List.filter (fun rv : string * list ClusterReceipt => negb (String.eqb rv.1 root)) m).*2.
Proof.
  unfold votes_for. induction m as [|[k v] m IH]; [done|]. simpl. intros [Hk Hnd]%NoDup_cons.
  destruct (String.eqb_spec k root) as [->|Hne]; simpl.
  - rewrite (IH Hnd). apply assoc_None in Hk. by rewrite Hk.
  - rewrite (IH Hnd), !app_assoc. apply Permutation_app_tail, Permutation_app_comm.
Qed.

Lemma named_as (f : string * list ClusterReceipt -> list SickCluster) m :
  (forall rv, map s_cluster (f rv) = map (fun rec => PStr (cluster rec)) rv.2) ->
  map s_cluster (concat (map f m)) = map (fun rec => PStr (cluster rec)) (concat m.*2).
Proof. intros Hf. induction m as [|rv m IH]; [done|]. simpl. by rewrite !map_app, IH, Hf. Qed.

Lemma concat_perm {A} (l l' : list (list A)) : l ≡ₚ l' -> concat l ≡ₚ concat l'.
Proof.
  induction 1 as [|x l l' _ IH|x y l|l1 l2 l3 _ IH1 _ IH2]; simpl; [done|by apply Permutation_app_head| |by etransitivity].
  rewrite !app_assoc. apply Permutation_app_tail, Permutation_app_comm.
Qed.

(** Every receipt is accounted for once. *)
Lemma assessment_accounts receipts quorum :
  map PStr (healthy_clusters (assess_triad receipts quorum)) ++ map s_cluster (sick_clusters (assess_triad receipts quorum))
  ≡ₚ map master_name (enumerate 0 receipts).
Proof.
  destruct (count_all receipts) as [_ Hnd _ Hall]. unfold assess_triad.
  set (t := fold_left count_receipt _ _) in *. destruct (winner (t_votes t) quorum) as [root|]; cbn [healthy_clusters sick_clusters].
  - rewrite <- Hall, map_app, (named_as diverged); [|intros rv; unfold diverged; by rewrite map_map].
    rewrite (concat_split root _ Hnd), map_app, map_map, <- !app_assoc. apply Permutation_app_head, Permutation_app_comm.
  - rewrite <- Hall, map_app, (named_as (unreconciled quorum)); [|intros rv; unfold unreconciled; by rewrite map_map].
    simpl. etransitivity; [apply Permutation_app_comm|]. apply Permutation_app_tail. apply Permutation_map, concat_perm.
    apply fmap_Permutation, py_sort_perm.
Qed.

(** ** Properties *)

(** The triad is judged by its majority.  A canonical state is declared exactly
    when some state has a quorum of admitted, unfenced receipts; it is one with the
    most of them, its masters are the healthy ones, and every receipt is either
    healthy or named sick.  When the quorum is a majority no other state could
    have been declared. *)
Theorem triad_quorum_sound receipts quorum :
  (0 < quorum)%Z ->
  let a := assess_triad receipts quorum in
  (quorum_ok a = true <-> exists root, (quorum <= Z.of_nat (length (supporters receipts root)))%Z) /\
  (quorum_ok a = true -> exists root rec recs,
     canonical_state_root a = Some root /\ supporters receipts root = rec :: recs /\ canonical_commit a = Some (commit rec) /\
     healthy_clusters a = map cluster (rec :: recs) /\
     (forall other, (length (supporters receipts other) <= length (supporters receipts root))%nat) /\
     ((Z.of_nat (length receipts) < 2 * quorum)%Z -> forall other, other <> root ->
        (Z.of_nat (length (supporters receipts other)) < quorum)%Z)) /\
  (quorum_ok a = false -> canonical_state_root a = None /\ canonical_commit a = None /\ healthy_clusters a = []) /\
  map PStr (healthy_clusters a) ++ map s_cluster (sick_clusters a) ≡ₚ map master_name (enumerate 0 receipts).
Proof.
  intros Hq a. split_and!; [| | |apply assessment_accounts]; subst a; unfold assess_triad;
    destruct (winner _ quorum) as [root|] eqn:Ew; cbn [quorum_ok canonical_state_root canonical_commit healthy_clusters]; try done.
  - apply winner_Some in Ew as [Hn _]. split; [eauto|done].
  - split; [done|]. intros [root Hr]. pose proof (winner_None _ _ Hq root Ew). lia.
  - intros _. apply winner_Some in Ew as [Hn Hmax]. rewrite votes_supporters.
    destruct (supporters receipts root) as [|rec recs] eqn:Er; [simpl in Hn; lia|].
    exists root, rec, recs. split_and!; rewrite ?Er; try done.
    intros Hm other Hne. pose proof (supporters_disjoint receipts _ _ Hne) as Hd. rewrite Er in Hd. lia.
Qed.

(** *** Collection *)

Definition master_of (raw : pyval) : option string := match lint raw with LintOk rec => Some (cluster rec) | LintErrors _ => None end.

(** What is kept was admitted, one receipt per master. *)
Definition round_ok (c : collected) : Prop :=
  Forall (fun raw => exists rec, lint raw = LintOk rec) (c_receipts c) /\ NoDup (omap master_of (c_receipts c)) /\
  c_seen c ≡ₚ omap master_of (c_receipts c).

Lemma collect_round files c : collect_files files = Ok c -> round_ok c.
Proof.
  unfold collect_files. apply (res_fold_inv round_ok).
  - intros [path file] c1 c2 _ (Hl & Hn & Hs) E. unfold collect_file in E.
    destruct (read_json file) as [raw|e].
    2: { destruct (is_unreadable e); [|done]. injection E as <-. by split_and!. }
    injection E as <-. destruct (lint raw) as [rec|errors] eqn:El; [|by split_and!].
    case_bool_decide as Hin; [by split_and!|]. unfold round_ok. cbn [c_receipts c_seen].
    assert (omap master_of (c_receipts c1 ++ [raw]) = omap master_of (c_receipts c1) ++ [cluster rec])%list as ->.
    { rewrite omap_app. simpl. unfold master_of at 2. by rewrite El. }
    split_and!.
    + apply Forall_app. split; [done|]. apply Forall_singleton. eauto.
    + rewrite NoDup_app. split_and!; [done| |apply NoDup_singleton]. intros y Hy ->%list_elem_of_singleton. apply Hin. by rewrite Hs.
    + rewrite Hs. apply Permutation_cons_append.
  - split_and!; simpl; [constructor|constructor|done].
Qed.

Lemma supporters_elem receipts root rec :
  rec ∈ supporters receipts root <-> exists raw, raw ∈ receipts /\ vote raw = Some rec /\ state_root rec = root.
Proof.
  unfold supporters. rewrite elem_of_lfilter, String.eqb_eq, list_elem_of_omap. naive_solver.
Qed.

Lemma vote_Some raw rec : vote raw = Some rec <-> lint raw = LintOk rec /\ koe_id rec = None.
Proof. unfold vote. destruct (lint raw) as [r|]; [destruct (koe_id r) eqn:Ek|]; split; try naive_solver congruence. Qed.

Lemma supporters_masters receipts root :
  NoDup (omap master_of receipts) -> NoDup (map cluster (supporters receipts root)).
Proof.
  unfold supporters. intros Hn. apply (NoDup_map_lfilter cluster).
  enough (sublist (map cluster (omap vote receipts)) (omap master_of receipts)) as Hs by (by eapply sublist_NoDup).
  clear Hn. induction receipts as [|raw l IH]; [done|]. simpl. unfold vote at 1, master_of at 1. destruct (lint raw) as [rec|]; [|exact IH].
  destruct (koe_id rec); simpl; [by apply sublist_cons|by apply sublist_skip].
Qed.

Lemma fenced_sick l sick head :
  sick ∈ t_sick (fold_left count_receipt l (mkTally [] [] [])) -> head_commit sick = Some head ->
  exists ir rec, ir ∈ l /\ lint ir.2 = LintOk rec /\ koe_id rec <> None /\ commit rec = head /\ s_cluster sick = PStr (cluster rec).
Proof.
  intros Hin Hh. induction l as [|[i raw] l IH] using rev_ind; [by apply elem_of_nil in Hin|].
  rewrite fold_left_app in Hin. simpl in Hin. unfold count_receipt at 1 in Hin.
  assert (sick ∈ t_sick (fold_left count_receipt l (mkTally [] [] [])) -> exists ir rec, ir ∈ (l ++ [(i, raw)])%list /\ lint ir.2 = LintOk rec /\
    koe_id rec <> None /\ commit rec = head /\ s_cluster sick = PStr (cluster rec)) as Hold.
  { intros (ir & rec & Hir & ?)%IH. exists ir, rec. split; [by apply elem_of_app; left|done]. }
  destruct (lint raw) as [rec|] eqn:El; [destruct (koe_id rec) as [k|] eqn:Ek|]; cbn [t_sick] in Hin; [|by apply Hold|];
    apply elem_of_app in Hin as [Ho|Ho%list_elem_of_singleton]; [by apply Hold|subst sick|by apply Hold|subst sick].
  - injection Hh as <-. exists (i, raw), rec. split_and!; [apply elem_of_app; right; by left|done|congruence|done|done].
  - discriminate Hh.
Qed.

(** The masters that the votes for a state name sick. *)
Lemma voted_sick receipts (f : string * list ClusterReceipt -> list SickCluster) m sick :
  (forall rv s, s ∈ f rv -> exists rec, rec ∈ rv.2 /\ head_commit s = Some (commit rec) /\ s_cluster s = PStr (cluster rec)) ->
  m ⊆ t_votes (fold_left count_receipt (enumerate 0 receipts) (mkTally [] [] [])) ->
  sick ∈ concat (map f m) ->
  exists rv rec, rv ∈ m /\ rec ∈ supporters receipts rv.1 /\ head_commit sick = Some (commit rec) /\ s_cluster sick = PStr (cluster rec).
Proof.
  intros Hf Hm (x & (rv & <- & Hrv%list_elem_of_In)%in_map_iff & Hs%list_elem_of_In)%list_elem_of_In%in_concat.
  destruct (Hf _ _ Hs) as (rec & Hrec & ? & ?). exists rv, rec. split_and!; [done| |done..].
  rewrite <- votes_supporters. unfold votes_for. apply Hm in Hrv. destruct rv as [root v].
  rewrite (assoc_NoDup root v); [done| |done]. apply (cnt_nodup _ _ (count_all receipts)).
Qed.

(** A sick master with a commit is a fenced or a diverged one. *)
Lemma sick_commit receipts quorum sick head :
  sick ∈ sick_clusters (assess_triad receipts quorum) -> head_commit sick = Some head ->
  exists raw rec, raw ∈ receipts /\ lint raw = LintOk rec /\ commit rec = head /\ s_cluster sick = PStr (cluster rec) /\
    (koe_id rec <> None \/ canonical_state_root (assess_triad receipts quorum) <> Some (state_root rec)).
Proof.
  intros Hin Hh. revert Hin. unfold assess_triad.
  destruct (winner _ quorum) as [root|] eqn:Ew; cbn [sick_clusters canonical_state_root]; intros [Hin|Hin]%elem_of_app.
  1,3: destruct (fenced_sick _ _ _ Hin Hh) as ([i raw] & rec & Hir & El & Hk & Hc & Hn); exists raw, rec; split_and!; auto;
    rewrite <- (enumerate_snd 0 receipts); by apply (list_elem_of_fmap_2 snd _ (i, raw)).
  - eapply (voted_sick receipts) in Hin as ([r v] & rec & Hrv & (raw & Hraw & Hv & Hr)%supporters_elem & Hh' & Hn).
    + apply elem_of_lfilter in Hrv as [_ Hr'%negb_true_iff%String.eqb_neq]. apply vote_Some in Hv as [El _].
      exists raw, rec. split_and!; [done..|congruence|done|]. right. simpl in *. congruence.
    + intros rv s (rec & <- & Hrec%list_elem_of_In)%list_elem_of_In%in_map_iff. eauto.
    + intros rv [? _]%elem_of_lfilter. done.
  - eapply (voted_sick receipts) in Hin as ([r v] & rec & Hrv & (raw & Hraw & Hv & Hr)%supporters_elem & Hh' & Hn).
    + apply vote_Some in Hv as [El _]. exists raw, rec. split_and!; [done..|congruence|done|by right].
    + intros rv s (rec & <- & Hrec%list_elem_of_In)%list_elem_of_In%in_map_iff. eauto.
    + intros rv Hrv. by apply elem_of_py_sort in Hrv.
Qed.

(** C13: a failback is never proposed without a quorum of different masters behind
    its target.  From the receipts a collection keeps, a proposal reverts what one
    admitted receipt serves, which is fenced or committed to another state, and at
    least a quorum of masters with different names hold unfenced receipts for the
    one canonical state, the first of which serves the target. *)
Theorem failback_needs_quorum now files c repo quorum kind base beacon :
  collect_files files = Ok c -> (0 < quorum)%Z ->
  beacon ∈ propose_state_failback now (c_receipts c) repo quorum kind base ->
  exists root first rest raw rec,
    supporters (c_receipts c) root = first :: rest /\ NoDup (map cluster (first :: rest)) /\
    (quorum <= Z.of_nat (length (first :: rest)))%Z /\
    raw ∈ c_receipts c /\ lint raw = LintOk rec /\ (koe_id rec <> None \/ state_root rec <> root) /\ commit rec <> commit first /\
    exists proposal, assoc "proposal" beacon = Some (PDict proposal) /\
      assoc "revert" proposal = Some (PStr (commit first +:+ ".." +:+ commit rec)).
Proof.
  intros (_ & Hnd & _)%collect_round Hq Hin. unfold propose_state_failback in Hin.
  set (a := assess_triad (c_receipts c) quorum) in Hin. destruct (needs_failback a) eqn:Enf; [|by apply elem_of_nil in Hin].
  cbn [negb] in Hin. apply andb_prop in Enf as [Eok _]. apply list_elem_of_omap in Hin as (sick & Hs & E).
  destruct (head_commit sick) as [[|ch h]|] eqn:Eh; try discriminate E.
  destruct (sick_commit _ _ _ _ Hs Eh) as (raw & rec & Hraw & El & Hc & _ & Hwhy).
  revert Eok Hwhy E. subst a. unfold assess_triad. destruct (winner _ quorum) as [root|] eqn:Ew; [|done].
  cbn [quorum_ok canonical_state_root canonical_commit default]. intros _ Hwhy E. rewrite votes_supporters in E.
  apply winner_Some in Ew as [Hn _]. destruct (supporters (c_receipts c) root) as [|first rest] eqn:Er; [simpl in Hn; lia|].
  unfold id in E. destruct (String.eqb_spec (String ch h) (commit first)) as [|Hne]; [discriminate E|]. injection E as <-.
  exists root, first, rest, raw, rec. rewrite Er. split_and!; [done| |done..| |by rewrite Hc|].
  - rewrite <- Er. by apply supporters_masters.
  - destruct Hwhy as [?|?]; [by left|right; congruence].
  - eexists. split; [reflexivity|]. rewrite Hc. reflexivity.
Qed.
End triad.

(** ** Witnesses *)

Section witnesses.
#[local] Existing Instance demo_float_repr.

Definition demo_master (who : string) (root : ascii) (sha : string) (koe : pyval) : pyval :=
  PDict (demo_doc who "did:key:w" "did:key:r" root sha koe).

#[local] Abbreviation demo_text who root sha koe := (dumps (demo_master who root sha koe)).

Definition demo_files : list (string * res string) :=
  [("m1.json", Ok (demo_text "did:web:m1" "a"%char "0123456" PNone)); ("m2.json", Ok (demo_text "did:web:m2" "a"%char "0123456" PNone));
   ("m3.json", Ok (demo_text "did:web:m3" "b"%char "7654321" PNone)); ("m1.json", Ok (demo_text "did:web:m1" "a"%char "0123456" PNone));
   ("m4.json", Raise (FileNotFound "m4.json")); ("m5.json", Ok "{")].

#[local] Abbreviation demo_collect := (collect_files RVoid (fun _ => "unreadable") demo_files).

Example collect_ex :
  match demo_collect with Ok c => (length (c_receipts c), length (c_rejected c)) | Raise _ => (O, O) end = (3, 3)%nat.
Proof. vm_compute. reflexivity. Qed.

Definition demo_receipts : list pyval :=
  [demo_master "did:web:m1" "a" "0123456" PNone; demo_master "did:web:m2" "a" "0123456" PNone; demo_master "did:web:m3" "b" "7654321" PNone].

Lemma triad_quorum_sound_witness :
  quorum_ok (assess_triad RVoid demo_receipts 2) = true /\
  forall other, other <> demo_root_hash "a" -> (Z.of_nat (length (supporters RVoid demo_receipts other)) < 2)%Z.
Proof.
  assert (quorum_ok (assess_triad RVoid demo_receipts 2) = true) as Hok by (vm_compute; reflexivity). split; [exact Hok|].
  destruct (triad_quorum_sound RVoid demo_receipts 2 eq_refl) as (_ & Hs & _ & _).
  destruct (Hs Hok) as (root & rec & recs & Hr & _ & _ & _ & _ & Hm).
  assert (canonical_state_root (assess_triad RVoid demo_receipts 2) = Some (demo_root_hash "a")) as Hc by (vm_compute; reflexivity).
  rewrite Hc in Hr. injection Hr as <-. apply Hm. reflexivity.
Defined.

Lemma failback_needs_quorum_witness :
  exists c beacon root, demo_collect = Ok c /\
    beacon ∈ propose_state_failback RVoid "now" (c_receipts c) (PStr "r") 2 "k" "main" /\
    (2 <= Z.of_nat (length (supporters RVoid (c_receipts c) root)))%Z.
Proof.
  destruct (res_view (fun c => length (propose_state_failback RVoid "now" (c_receipts c) (PStr "r") 2 "k" "main")) demo_collect 1%nat)
    as (c & E & Hl); [vm_compute; reflexivity|].
  destruct (propose_state_failback RVoid "now" (c_receipts c) (PStr "r") 2 "k" "main") as [|b bs] eqn:Eb; [discriminate Hl|].
  assert (b ∈ propose_state_failback RVoid "now" (c_receipts c) (PStr "r") 2 "k" "main") as Hin by (rewrite Eb; left).
  destruct (failback_needs_quorum RVoid (fun _ => "unreadable") "now" demo_files c (PStr "r") 2 "k" "main" b E eq_refl Hin)
    as (root & first & rest & raw & rec & Hs & _ & Hn & _).
  exists c, b, root. rewrite Eb, Hs. split_and!; [exact E|left|exact Hn].
Defined.

(** The masters that agree on a state need not agree on its commit: the target is
    what the first of them says, so one master of the quorum picks it. *)
Example first_master_picks_target :
  let receipts := [demo_master "did:web:m1" "a" "bad0bad" PNone; demo_master "did:web:m2" "a" "0123456" PNone;
                   demo_master "did:web:m3" "b" "7654321" PNone] in
  canonical_commit (assess_triad RVoid receipts 2) = Some "bad0bad" /\
  map (fun b => match assoc "proposal" b with Some (PDict p) => assoc "revert" p | _ => None end)
    (propose_state_failback RVoid "now" receipts (PStr "r") 2 "k" "main") = [Some (PStr "bad0bad..7654321")].
Proof. vm_compute. auto. Qed.

(** A master that adds a line feed to its name in a second file votes twice. *)
Example line_feed_votes_twice :
  match collect_files RVoid (fun _ => "unreadable")
    [("m1.json", Ok (demo_text "did:web:m1" "b"%char "7654321" PNone));
     ("m1b.json", Ok (demo_text ("did:web:m1" +:+ String "010" "") "b"%char "7654321" PNone));
     ("m2.json", Ok (demo_text "did:web:m2" "a"%char "0123456" PNone))] with
  | Ok c => canonical_state_root (assess_triad RVoid (c_receipts c) 2) = Some (demo_root_hash "b")
  | Raise _ => False
  end.
Proof. vm_compute. reflexivity. Qed.
End witnesses.
