(* ===== verification/Gf256.v ===== *)
(** * GF(256) by logarithm tables

    Models the field arithmetic of [automation/holographic_ida.py]: the tables
    [_EXP] and [_LOG] as [_init_tables] fills them, [_mul] and [_inv] with
    Python's indexing (a negative index counts from the end, one outside the
    list raises), and shows that on bytes they are the operations of a field
    whose addition is exclusive or. *)

From Stdlib Require Import Ring_theory.
From S2P Require Import Prelude.
Local Open Scope Z_scope.

(** [l[i]]. *)
Definition py_index {A} (l : list A) (i : Z) : res A :=
  let j := if i <? 0 then i + Z.of_nat (length l) else i in
  if j <? 0 then Raise IndexError else of_option IndexError (l !! Z.to_nat j).

(** [2 * x] with the field reduction. *)
Definition xtime (x : Z) : Z := Z.lxor (Z.shiftl x 1) (if Z.land x 128 =? 0 then 0 else 283).

(** The first loop: [i] from 0 to 254 with the running power [x]. *)
Fixpoint fill (steps : nat) (i : nat) (x : Z) (exp log : list Z) : list Z * list Z :=
  match steps with
  | O => (exp, log)
  | S steps =>
    let exp := <[i := x]> exp in
    let log := <[Z.to_nat x := Z.of_nat i]> log in
    fill steps (S i) (Z.lxor x (xtime x)) exp log
  end.

(** The second loop copies the period. *)
Definition extend_exp (exp : list Z) : list Z :=
  foldl (fun exp i => <[i := default 0 (exp !! (i - 255)%nat)]> exp) exp (seq 255 257).

Definition _init_tables : list Z * list Z :=
  let (exp, log) := fill 255 0 1 (replicate 512 0) (replicate 256 0) in
  (extend_exp exp, log).

Definition _EXP : list Z := Eval vm_compute in fst _init_tables.
Definition _LOG : list Z := Eval vm_compute in snd _init_tables.

Lemma tables_filled : _init_tables = (_EXP, _LOG).
Proof. vm_compute. reflexivity. Qed.

Definition _mul (a b : Z) : res Z :=
  if (a =? 0) || (b =? 0) then Ok 0
  else la ← py_index _LOG a; lb ← py_index _LOG b; py_index _EXP (la + lb).

Definition _inv (a : Z) : res Z :=
  if a =? 0 then Raise ZeroDivisionError
  else la ← py_index _LOG a; py_index _EXP (255 - la).

(** ** The field *)

Definition is_byte (z : Z) : bool := (0 <=? z) && (z <? 256).

Record gf := mkGf { val : Z; val_byte : is_byte val = true }.

Lemma is_byte_spec z : is_byte z = true <-> 0 <= z < 256.
Proof. unfold is_byte. rewrite andb_true_iff, Z.leb_le, Z.ltb_lt. lia. Qed.

Lemma gf_eq (a b : gf) : val a = val b -> a = b.
Proof. destruct a, b; simpl; intros ->. f_equal. apply (proof_irrel _). Qed.

(** Every byte, for exhaustive checks. *)
Definition all_bytes : list Z := map Z.of_nat (seq 0 256).

Lemma elem_of_all_bytes z : is_byte z = true <-> z ∈ all_bytes.
Proof.
  rewrite is_byte_spec. unfold all_bytes. rewrite list_elem_of_In, in_map_iff.
  setoid_rewrite in_seq. split.
  - intros Hz. exists (Z.to_nat z). lia.
  - intros (n & <- & Hn). lia.
Qed.

Lemma for_all_bytes (P : Z -> bool) :
  forallb P all_bytes = true -> forall z, is_byte z = true -> P z = true.
Proof.
  rewrite forallb_forall. intros HP z Hz. apply HP, list_elem_of_In. by apply elem_of_all_bytes.
Qed.

Lemma lxor_byte a b : is_byte a = true -> is_byte b = true -> is_byte (Z.lxor a b) = true.
Proof.
  rewrite !is_byte_spec. intros Ha Hb. split; [apply Z.lxor_nonneg; lia|].
  destruct (Z.eq_dec (Z.lxor a b) 0) as [->|Hne]; [lia|].
  apply Z.log2_lt_cancel. eapply Z.le_lt_trans; [apply Z.log2_lxor; lia|].
  assert (Hl : forall x, 0 <= x < 256 -> Z.log2 x < 8).
  { intros x Hx. destruct (Z.eq_dec x 0) as [->|]; [done|]. apply Z.log2_lt_pow2; lia. }
  apply Z.max_lub_lt; by apply Hl.
Qed.

(** The logarithms as total functions on bytes. *)
Definition glog (a : Z) : Z := default 0 (_LOG !! Z.to_nat a).
Definition gexp (i : Z) : Z := default 0 (_EXP !! Z.to_nat i).

Definition zmul (a b : Z) : Z :=
  if (a =? 0) || (b =? 0) then 0 else gexp (glog a + glog b).
Definition zinv (a : Z) : Z := if a =? 0 then 0 else gexp (255 - glog a).

Lemma lookup_byte {A} (l : list A) d z :
  0 <= z < Z.of_nat (length l) -> py_index l z = Ok (default d (l !! Z.to_nat z)).
Proof.
  intros Hz. unfold py_index. destruct (Z.ltb_spec z 0); [lia|]. destruct (Z.ltb_spec z 0); [lia|].
  destruct (lookup_lt_is_Some_2 l (Z.to_nat z)) as [x ->]; [lia|]. done.
Qed.

Lemma length_LOG : length _LOG = 256%nat. Proof. reflexivity. Qed.
Lemma length_EXP : length _EXP = 512%nat. Proof. reflexivity. Qed.

Lemma glog_range a : is_byte a = true -> 0 <= glog a < 255.
Proof.
  intros Ha. assert (H : (0 <=? glog a) && (glog a <? 255) = true).
  { revert a Ha. apply for_all_bytes. vm_compute. reflexivity. }
  rewrite andb_true_iff, Z.leb_le, Z.ltb_lt in H. lia.
Qed.

Definition exp_checks (i : Z) : bool :=
  is_byte (gexp i) && negb (gexp i =? 0) && (glog (gexp i) =? i mod 255) && (gexp i =? gexp (i mod 255)).

Lemma gexp_spec i : 0 <= i < 511 ->
  is_byte (gexp i) = true /\ gexp i <> 0 /\ glog (gexp i) = i mod 255 /\ gexp i = gexp (i mod 255).
Proof.
  intros Hi. assert (Hc : forallb exp_checks (map Z.of_nat (seq 0 511)) = true) by (vm_compute; reflexivity).
  rewrite forallb_forall in Hc. specialize (Hc i).
  assert (Hin : In i (map Z.of_nat (seq 0 511))).
  { apply in_map_iff. exists (Z.to_nat i). rewrite in_seq. lia. }
  specialize (Hc Hin). unfold exp_checks in Hc.
  rewrite !andb_true_iff, negb_true_iff, Z.eqb_neq, !Z.eqb_eq in Hc. tauto.
Qed.

Lemma gexp_glog a : is_byte a = true -> a <> 0 -> gexp (glog a) = a.
Proof.
  intros Ha Hne. assert (H : (a =? 0) || (gexp (glog a) =? a) = true).
  { clear Hne. revert a Ha. apply for_all_bytes. vm_compute. reflexivity. }
  rewrite orb_true_iff, !Z.eqb_eq in H. tauto.
Qed.

(** On bytes the Python operations are the total ones. *)
Lemma _mul_zmul a b : is_byte a = true -> is_byte b = true -> _mul a b = Ok (zmul a b).
Proof.
  intros Ha Hb. unfold _mul, zmul. destruct (_ || _); [done|].
  pose proof (glog_range a Ha). pose proof (glog_range b Hb).
  rewrite is_byte_spec in *. rewrite !(lookup_byte _LOG 0) by (rewrite length_LOG; lia). cbn [mbind res_bind].
  fold (glog a) (glog b). by rewrite (lookup_byte _EXP 0) by (rewrite length_EXP; lia).
Qed.

Lemma _inv_zinv a : is_byte a = true -> a <> 0 -> _inv a = Ok (zinv a).
Proof.
  intros Ha Hne. unfold _inv, zinv. destruct (Z.eqb_spec a 0); [done|].
  pose proof (glog_range a Ha). rewrite is_byte_spec in *.
  rewrite (lookup_byte _LOG 0) by (rewrite length_LOG; lia). cbn [mbind res_bind]. fold (glog a).
  by rewrite (lookup_byte _EXP 0) by (rewrite length_EXP; lia).
Qed.

Lemma zmul_byte a b : is_byte a = true -> is_byte b = true -> is_byte (zmul a b) = true.
Proof.
  intros Ha Hb. unfold zmul. destruct (_ || _); [done|]. apply gexp_spec.
  pose proof (glog_range a Ha). pose proof (glog_range b Hb). lia.
Qed.

Lemma zinv_byte a : is_byte a = true -> is_byte (zinv a) = true.
Proof.
  intros Ha. unfold zinv. destruct (_ =? _); [done|]. apply gexp_spec.
  pose proof (glog_range a Ha). lia.
Qed.

Lemma zmul_comm a b : zmul a b = zmul b a.
Proof. unfold zmul. by rewrite orb_comm, Z.add_comm. Qed.

Lemma zmul_0_l a : zmul 0 a = 0. Proof. done. Qed.
Lemma zmul_0_r a : zmul a 0 = 0. Proof. by rewrite zmul_comm. Qed.

Lemma zmul_nonzero a b : is_byte a = true -> is_byte b = true -> a <> 0 -> b <> 0 ->
  zmul a b = gexp ((glog a + glog b) mod 255) /\ zmul a b <> 0.
Proof.
  intros Ha Hb Hna Hnb. unfold zmul.
  destruct (Z.eqb_spec a 0), (Z.eqb_spec b 0); try done. simpl.
  pose proof (glog_range a Ha). pose proof (glog_range b Hb).
  destruct (gexp_spec (glog a + glog b)) as (_ & ? & _ & ?); [lia|]. done.
Qed.

Lemma zmul_assoc a b c : is_byte a = true -> is_byte b = true -> is_byte c = true ->
  zmul a (zmul b c) = zmul (zmul a b) c.
Proof.
  intros Ha Hb Hc. destruct (Z.eq_dec a 0) as [->|Hna]; [done|].
  destruct (Z.eq_dec b 0) as [->|Hnb]; [by rewrite ?zmul_0_r, ?zmul_0_l, ?zmul_0_r|].
  destruct (Z.eq_dec c 0) as [->|Hnc]; [by rewrite !zmul_0_r|].
  assert (Hl : forall x y, is_byte x = true -> is_byte y = true -> x <> 0 -> y <> 0 ->
    glog (zmul x y) = (glog x + glog y) mod 255).
  { intros x y Hx Hy Hnx Hny. rewrite (proj1 (zmul_nonzero x y Hx Hy Hnx Hny)).
    pose proof (Z.mod_pos_bound (glog x + glog y) 255 ltac:(lia)).
    rewrite (proj1 (proj2 (proj2 (gexp_spec ((glog x + glog y) mod 255) ltac:(lia))))).
    by rewrite Z.mod_mod. }
  rewrite (proj1 (zmul_nonzero a (zmul b c) Ha (zmul_byte _ _ Hb Hc) Hna (proj2 (zmul_nonzero b c Hb Hc Hnb Hnc)))).
  rewrite (proj1 (zmul_nonzero (zmul a b) c (zmul_byte _ _ Ha Hb) Hc (proj2 (zmul_nonzero a b Ha Hb Hna Hnb)) Hnc)).
  rewrite !Hl by done. rewrite Zplus_mod_idemp_l, Zplus_mod_idemp_r. by rewrite Z.add_assoc.
Qed.

Lemma zmul_1_l a : is_byte a = true -> zmul 1 a = a.
Proof.
  intros Ha. assert (H : zmul 1 a =? a = true); [|by apply Z.eqb_eq].
  revert a Ha. apply for_all_bytes. vm_compute. reflexivity.
Qed.

Lemma zinv_l a : is_byte a = true -> a <> 0 -> zmul (zinv a) a = 1.
Proof.
  intros Ha Hne. assert (H : (a =? 0) || (zmul (zinv a) a =? 1) = true).
  { clear Hne. revert a Ha. apply for_all_bytes. vm_compute. reflexivity. }
  rewrite orb_true_iff, !Z.eqb_eq in H. tauto.
Qed.

(** ** Distribution over exclusive or

    The table product agrees with the shift-and-add product, which is linear in
    its second argument bit by bit. *)

Fixpoint peasant (fuel : nat) (x y : Z) (i : Z) : Z :=
  match fuel with
  | O => 0
  | S fuel => Z.lxor (if Z.testbit y i then x else 0) (peasant fuel (xtime x) y (i + 1))
  end.

Lemma peasant_lxor fuel x y z i :
  peasant fuel x (Z.lxor y z) i = Z.lxor (peasant fuel x y i) (peasant fuel x z i).
Proof.
  revert x i; induction fuel as [|fuel IH]; intros x i; simpl; [done|].
  rewrite IH, Z.lxor_spec. generalize (peasant fuel (xtime x) y (i + 1)), (peasant fuel (xtime x) z (i + 1)).
  intros p q. destruct (Z.testbit y i), (Z.testbit z i); simpl; rewrite ?Z.lxor_0_l.
  - rewrite (Z.lxor_comm x p), <- Z.lxor_assoc, (Z.lxor_assoc p x x), Z.lxor_nilpotent, Z.lxor_0_r. done.
  - by rewrite Z.lxor_assoc.
  - by rewrite <- !Z.lxor_assoc, (Z.lxor_comm x p).
  - done.
Qed.

Definition mul_agrees (a : Z) : bool := forallb (fun b => zmul a b =? peasant 8 a b 0) all_bytes.

Lemma zmul_peasant a b : is_byte a = true -> is_byte b = true -> zmul a b = peasant 8 a b 0.
Proof.
  intros Ha Hb. assert (H : mul_agrees a = true).
  { revert a Ha. apply for_all_bytes. vm_compute. reflexivity. }
  apply Z.eqb_eq. revert b Hb. by apply for_all_bytes.
Qed.

Lemma zmul_lxor_r a b c : is_byte a = true -> is_byte b = true -> is_byte c = true ->
  zmul a (Z.lxor b c) = Z.lxor (zmul a b) (zmul a c).
Proof.
  intros Ha Hb Hc. rewrite !zmul_peasant by (done || by apply lxor_byte). apply peasant_lxor.
Qed.

(** ** The field structure *)

Definition g0 : gf := mkGf 0 eq_refl.
Definition g1 : gf := mkGf 1 eq_refl.
Definition gadd (a b : gf) : gf := mkGf (Z.lxor (val a) (val b)) (lxor_byte _ _ (val_byte a) (val_byte b)).
Definition gmul (a b : gf) : gf := mkGf (zmul (val a) (val b)) (zmul_byte _ _ (val_byte a) (val_byte b)).
Definition ginv (a : gf) : gf := mkGf (zinv (val a)) (zinv_byte _ (val_byte a)).

Lemma gf_ring : ring_theory g0 g1 gadd gmul gadd id eq.
Proof.
  constructor; intros; apply gf_eq; simpl.
  - apply Z.lxor_0_l.
  - apply Z.lxor_comm.
  - symmetry. apply Z.lxor_assoc.
  - by apply zmul_1_l, val_byte.
  - apply zmul_comm.
  - apply zmul_assoc; apply val_byte.
  - rewrite !(zmul_comm _ (val z)). apply zmul_lxor_r; apply val_byte.
  - done.
  - apply Z.lxor_nilpotent.
Qed.

Lemma ginv_l a : a <> g0 -> gmul (ginv a) a = g1.
Proof.
  intros Hne. apply gf_eq. simpl. apply zinv_l; [apply val_byte|]. intros E. apply Hne. by apply gf_eq.
Qed.

Lemma gadd_eq_0 a b : gadd a b = g0 <-> a = b.
Proof.
  split; [|intros ->; apply gf_eq; apply Z.lxor_nilpotent].
  intros E. apply (f_equal val) in E. simpl in E. by apply gf_eq, Z.lxor_eq.
Qed.
