(* ===== verification/HolographicIda.v ===== *)
(** * Holographic dispersal of leaves

    Models [automation/holographic_ida.py]: polynomial evaluation, product and
    interpolation over GF(256) with their in-place loops, [disperse] and
    [reconstruct].  Bytes are integers; a [dict] from points to fragments is the
    list of its items.

    The polynomials of the proofs are lists of field elements, lowest
    coefficient first; the Python functions are related to them by what they
    return on the lists of their values. *)

From Stdlib Require Import Ring Ring_theory.
From S2P Require Import Prelude Sha256 Gf256.
Local Open Scope Z_scope.

Abbreviation bytes := (list Z).

(** ** Polynomials as the code computes them *)

Definition _eval_poly (coeffs : list Z) (x : Z) : res Z :=
  res_fold (fun acc c => m ← _mul acc x; Ok (Z.lxor m c)) 0 (rev coeffs).

(** [out[i] ^= _mul(p, q)] for consecutive [i] and the pairs in order. *)
Fixpoint xor_row (out : list Z) (i : nat) (terms : list (Z * Z)) : res (list Z) :=
  match terms with
  | [] => Ok out
  | (p, q) :: terms =>
    old ← py_index out (Z.of_nat i);
    m ← _mul p q;
    xor_row (<[i := Z.lxor old m]> out) (S i) terms
  end.

Definition _poly_mul (a b : list Z) : res (list Z) :=
  let out := replicate (length a + length b - 1) 0 in
  res_fold (fun out (iai : nat * Z) =>
    let (i, ai) := iai in
    if ai =? 0 then Ok out else xor_row out i (map (fun bj => (ai, bj)) b))
    out (enumerate 0 a).

(** The inner loop of the interpolation: numerator and denominator of the
    [i]-th Lagrange basis polynomial. *)
Definition basis_step (i : nat) (xi : Z) (st : list Z * Z) (jx : nat * Z) : res (list Z * Z) :=
  let (num, denom) := st in
  let (j, xj) := jx in
  if Nat.eqb j i then Ok (num, denom)
  else
    num ← _poly_mul num [xj; 1];
    denom ← _mul denom (Z.lxor xi xj);
    Ok (num, denom).

Definition interpolate_step (xs ys coeffs : list Z) (ix : nat * Z) : res (list Z) :=
  let (i, xi) := ix in
  nd ← res_fold (basis_step i xi) ([1], 1) (enumerate 0 xs);
  let (num, denom) := (nd : list Z * Z) in
  yi ← py_index ys (Z.of_nat i);
  d ← _inv denom;
  scale ← _mul yi d;
  xor_row coeffs 0 (map (fun nd => (nd, scale)) num).

Definition _interpolate_coeffs (xs ys : list Z) : res (list Z) :=
  res_fold (interpolate_step xs ys) (replicate (length xs) 0) (enumerate 0 xs).

(** ** Dispersal *)

Record Dispersal := mkDispersal {
  d_k : Z;
  d_n : Z;
  orig_len : nat;
  d_xs : list Z;
  fragments : list (Z * bytes)
}.

Definition string_of_bytes (b : bytes) : string :=
  foldr (fun z s => String (Ascii.ascii_of_nat (Z.to_nat z)) s) EmptyString b.

Definition merkle_root (leaf : bytes) : string := "sha256:" +:+ sha256_hex (string_of_bytes leaf).

(** [data[start:start + k] for start in range(0, len(data), k)]. *)
Fixpoint blocks {A} (fuel k : nat) (data : list A) : list (list A) :=
  match fuel, data with
  | S fuel, _ :: _ => take k data :: blocks fuel k (drop k data)
  | _, _ => []
  end.

(** [frags[x].append(v)]. *)
Fixpoint frag_append (x v : Z) (frags : list (Z * bytes)) : res (list (Z * bytes)) :=
  match frags with
  | [] => Raise (KeyError (pretty x))
  | (y, b) :: frags =>
    if y =? x then
      if is_byte v then Ok ((y, b ++ [v]) :: frags)
      else Raise (ValueError "byte must be in range(0, 256)")
    else frags' ← frag_append x v frags; Ok ((y, b) :: frags')
  end.

Definition disperse_block (points : list Z) (frags : list (Z * bytes)) (block : bytes) :
    res (list (Z * bytes)) :=
  res_fold (fun frags x => v ← _eval_poly block x; frag_append x v frags) frags points.

Definition disperse (leaf : bytes) (k n : Z) (xs : option (list Z)) : res Dispersal :=
  if negb ((1 <=? k) && (k <=? n) && (n <=? 255)) then Raise (ValueError "require 1 <= k <= n <= 255")
  else
    let points := match xs with Some xs => xs | None => map Z.of_nat (seq 1 (Z.to_nat n)) end in
    if negb (Z.of_nat (length points) =? n) || negb (bool_decide (NoDup points))
       || existsb (fun p => p =? 0) points then
      Raise (ValueError "xs must be n distinct nonzero points")
    else
      let pad := (- Z.of_nat (length leaf)) mod k in
      let data := leaf ++ replicate (Z.to_nat pad) 0 in
      frags ← res_fold (disperse_block points) (map (fun x => (x, [])) points)
                (blocks (length data) (Z.to_nat k) data);
      Ok (mkDispersal k n (length leaf) points frags).

(** [fragments[x]]. *)
Fixpoint frag_get (x : Z) (frags : list (Z * bytes)) : res bytes :=
  match frags with
  | [] => Raise (KeyError (pretty x))
  | (y, b) :: frags => if y =? x then Ok b else frag_get x frags
  end.

(** The coefficients at one position; [bytearray.extend] takes bytes only. *)
Definition reconstruct_at (frags : list (Z * bytes)) (xs : list Z) (pos : nat) : res bytes :=
  ys ← res_map (fun x => f ← frag_get x frags; py_index f (Z.of_nat pos)) xs;
  coeffs ← _interpolate_coeffs xs ys;
  if forallb is_byte coeffs then Ok coeffs else Raise (ValueError "byte must be in range(0, 256)").

Definition reconstruct (frags : list (Z * bytes)) (k orig_len : nat) : res bytes :=
  let xs := py_sort Z.ltb frags.*1 in
  if Nat.ltb (length xs) k then
    Raise (ValueError ("need " +:+ pretty k +:+ " fragments to reconstruct; got " +:+ pretty (length xs)))
  else
    let xs := take k xs in
    x0 ← py_index xs 0;
    f0 ← frag_get x0 frags;
    out ← res_map (reconstruct_at frags xs) (seq 0 (length f0));
    Ok (take orig_len (concat out)).

(** ** Polynomials over the field *)

Add Ring gf256 : gf_ring.

Lemma val_gadd a b : Z.lxor (val a) (val b) = val (gadd a b).
Proof. done. Qed.

Lemma _mul_vals a b : _mul (val a) (val b) = Ok (val (gmul a b)).
Proof. apply _mul_zmul; apply val_byte. Qed.

#[local] Opaque gmul gadd.

Abbreviation vals := (map val).

Definition ev (c : list gf) (x : gf) : gf := foldr (fun c acc => gadd c (gmul x acc)) g0 c.

Fixpoint gpow (x : gf) (n : nat) : gf := match n with O => g1 | S n => gmul x (gpow x n) end.

Definition gprod (l : list gf) : gf := foldr gmul g1 l.

Lemma vals_lookup (l : list gf) i x : l !! i = Some x -> vals l !! i = Some (val x).
Proof. intros E. change (vals l) with (val <$> l). by rewrite list_lookup_fmap, E. Qed.

Lemma py_index_vals (l : list gf) i x : l !! i = Some x -> py_index (vals l) (Z.of_nat i) = Ok (val x).
Proof.
  intros E. unfold py_index. destruct (Z.ltb_spec (Z.of_nat i) 0); [lia|].
  destruct (Z.ltb_spec (Z.of_nat i) 0); [lia|]. rewrite Nat2Z.id. by rewrite (vals_lookup _ _ _ E).
Qed.

Lemma ev_app c1 c2 x : ev (c1 ++ c2) x = gadd (ev c1 x) (gmul (gpow x (length c1)) (ev c2 x)).
Proof. induction c1 as [|c c1 IH]; simpl; [ring|]. rewrite IH. ring. Qed.

Lemma ev_replicate_0 n x : ev (replicate n g0) x = g0.
Proof. induction n as [|n IH]; simpl; [done|]. rewrite IH. ring. Qed.

Lemma ev_insert out i o m x :
  out !! i = Some o -> ev (<[i := gadd o m]> out) x = gadd (ev out x) (gmul m (gpow x i)).
Proof.
  revert i; induction out as [|c out IH]; intros [|i] E; simpl in *; try done.
  - injection E as ->. ring.
  - rewrite IH by done. ring.
Qed.

Lemma ev_map_gmul_r c s x : ev (map (fun y => gmul y s) c) x = gmul (ev c x) s.
Proof. induction c as [|c cs IH]; simpl; [ring|]. rewrite IH. ring. Qed.

Lemma ev_map_gmul_l c s x : ev (map (gmul s) c) x = gmul s (ev c x).
Proof. induction c as [|c cs IH]; simpl; [ring|]. rewrite IH. ring. Qed.

Lemma _eval_poly_vals c x : _eval_poly (vals c) (val x) = Ok (val (ev c x)).
Proof.
  unfold _eval_poly. induction c as [|c cs IH]; [done|].
  simpl rev. rewrite res_fold_app, IH. cbn [mbind res_bind res_fold].
  rewrite _mul_vals. cbn [mbind res_bind]. simpl ev.
  rewrite val_gadd.
  do 2 f_equal. ring.
Qed.

Definition pair_vals (t : gf * gf) : Z * Z := (val t.1, val t.2).

Lemma xor_row_vals out i terms :
  (i + length terms <= length out)%nat ->
  exists out', xor_row (vals out) i (map pair_vals terms) = Ok (vals out') /\ length out' = length out /\
    forall x, ev out' x = gadd (ev out x) (gmul (gpow x i) (ev (map (fun t => gmul t.1 t.2) terms) x)).
Proof.
  revert out i; induction terms as [|[p q] terms IH]; intros out i Hl; simpl in *.
  - exists out. split_and!; [done|done|]. intros x. ring.
  - destruct (lookup_lt_is_Some_2 out i) as [o Ho]; [lia|].
    rewrite (py_index_vals _ _ _ Ho). cbn [mbind res_bind]. rewrite _mul_vals. cbn [mbind res_bind].
    rewrite val_gadd.
    change (vals out) with (val <$> out). rewrite <- list_fmap_insert.
    destruct (IH (<[i := gadd o (gmul p q)]> out) (S i)) as (out' & E & El & Hev);
      [rewrite length_insert; lia|].
    exists out'. split; [exact E|]. rewrite length_insert in El. split; [done|].
    intros x. rewrite Hev, (ev_insert _ _ _ _ _ Ho). simpl. ring.
Qed.

Lemma _poly_mul_loop a b out i :
  (1 <= length b)%nat -> (i + length a + length b <= S (length out))%nat ->
  exists out',
    res_fold (fun out (iai : nat * Z) =>
      let (i, ai) := iai in
      if ai =? 0 then Ok out else xor_row out i (map (fun bj => (ai, bj)) (vals b)))
      (vals out) (enumerate i (vals a)) = Ok (vals out') /\ length out' = length out /\
    forall x, ev out' x = gadd (ev out x) (gmul (gpow x i) (gmul (ev a x) (ev b x))).
Proof.
  intros Hb. revert out i; induction a as [|a0 a IH]; intros out i Hl; simpl in *.
  - exists out. split_and!; [done|done|]. intros x. ring.
  - destruct (Z.eqb_spec (val a0) 0) as [E0|_]; cbn [mbind res_bind].
    + destruct (IH out (S i)) as (out' & E & El & Hev); [lia|]. exists out'. split_and!; [done|done|].
      intros x. rewrite Hev. assert (a0 = g0) as -> by (by apply gf_eq). simpl. ring.
    + destruct (xor_row_vals out i (map (fun bj => (a0, bj)) b)) as (o1 & E1 & El1 & Hev1);
        [rewrite length_map; lia|].
      rewrite map_map in E1. rewrite map_map. unfold pair_vals in E1. simpl in E1. rewrite E1.
      cbn [mbind res_bind].
      destruct (IH o1 (S i)) as (out' & E & El & Hev); [lia|]. exists out'.
      split; [exact E|]. split; [congruence|].
      intros x. rewrite Hev, Hev1, map_map. simpl. rewrite ev_map_gmul_l. ring.
Qed.

Lemma vals_replicate n : replicate n 0 = vals (replicate n g0).
Proof. induction n as [|n IH]; simpl; [done|]. by rewrite IH. Qed.

Lemma _poly_mul_vals a b :
  (1 <= length b)%nat ->
  exists q, _poly_mul (vals a) (vals b) = Ok (vals q) /\
    length q = (length a + length b - 1)%nat /\ forall x, ev q x = gmul (ev a x) (ev b x).
Proof.
  intros Hb. unfold _poly_mul. rewrite !length_map, vals_replicate.
  destruct (_poly_mul_loop a b (replicate (length a + length b - 1) g0) 0 Hb) as (q & E & El & Hev);
    [rewrite length_replicate; lia|].
  exists q. split; [exact E|]. rewrite length_replicate in El. split; [done|].
  intros x. rewrite Hev, ev_replicate_0. simpl. ring.
Qed.

(** The basis polynomials: the loop runs over the other points. *)

Lemma basis_loop i xi l off num denom :
  (i < off \/ off + length l <= i)%nat ->
  exists num', res_fold (basis_step i (val xi)) (vals num, val denom) (enumerate off (vals l))
      = Ok (vals num', val (gmul denom (gprod (map (gadd xi) l)))) /\
    length num' = (length num + length l)%nat /\
    forall x, ev num' x = gmul (ev num x) (gprod (map (gadd x) l)).
Proof.
  revert off num denom; induction l as [|y l IH]; intros off num denom Hi; simpl in *.
  - exists num. split; [do 3 f_equal; ring|]. split; [lia|]. intros x. ring.
  - destruct (Nat.eqb_spec off i); [lia|].
    destruct (_poly_mul_vals num [y; g1]) as (n1 & E1 & El1 & Hev1); [simpl; lia|].
    change [val y; 1] with (vals [y; g1]). rewrite E1. cbn [mbind res_bind].
    rewrite val_gadd, _mul_vals. cbn [mbind res_bind].
    destruct (IH (S off) n1 (gmul denom (gadd xi y))) as (n2 & E2 & El2 & Hev2); [lia|].
    exists n2. rewrite E2. split; [do 3 f_equal; ring|]. simpl in El1. split; [lia|].
    intros x. rewrite Hev2, Hev1. simpl. ring.
Qed.

Lemma enumerate_app {A} off (l1 l2 : list A) :
  enumerate off (l1 ++ l2) = enumerate off l1 ++ enumerate (off + length l1) l2.
Proof.
  revert off; induction l1 as [|x l1 IH]; intros off; simpl; [by rewrite Nat.add_0_r|].
  by rewrite IH, Nat.add_succ_r.
Qed.

Lemma basis_step_self i xi st y : basis_step i xi st (i, y) = Ok st.
Proof. unfold basis_step. destruct st. by rewrite Nat.eqb_refl. Qed.

Lemma basis_loop_skip l1 xi l2 :
  exists num, res_fold (basis_step (length l1) (val xi)) ([1], 1) (enumerate 0 (vals (l1 ++ xi :: l2)))
      = Ok (vals num, val (gprod (map (gadd xi) (l1 ++ l2)))) /\
    length num = S (length l1 + length l2) /\
    forall x, ev num x = gprod (map (gadd x) (l1 ++ l2)).
Proof.
  assert (Hprod : forall x, gprod (map (gadd x) (l1 ++ l2)) =
    gmul (gprod (map (gadd x) l1)) (gprod (map (gadd x) l2))).
  { intros x. clear. induction l1 as [|y l IH]; simpl; [ring|]. rewrite IH. ring. }
  destruct (basis_loop (length l1) xi l1 0 [g1] g1) as (n1 & E1 & El1 & Hev1); [lia|].
  destruct (basis_loop (length l1) xi l2 (S (length l1)) n1 (gmul g1 (gprod (map (gadd xi) l1))))
    as (n2 & E2 & El2 & Hev2); [lia|].
  exists n2. rewrite map_app, enumerate_app, res_fold_app, length_map.
  change ([1], 1) with (vals [g1], val g1). rewrite E1. simpl enumerate. simpl res_fold at 1.
  cbn [mbind res_bind]. rewrite basis_step_self. cbn [mbind res_bind]. rewrite E2.
  rewrite Hprod. split; [do 3 f_equal; ring|]. simpl in *. split; [lia|].
  intros x. rewrite Hev2, Hev1, Hprod. simpl. ring.
Qed.

(** *** Interpolation *)

(** The other points of [l1 ++ xi :: l2]. *)
Lemma gprod_zero l : g0 ∈ l -> gprod l = g0.
Proof.
  induction l as [|y l IH]; [by intros ?%not_elem_of_nil|]. simpl.
  intros [<-|Hin]%elem_of_cons; [ring|]. rewrite IH by done. ring.
Qed.

Lemma gmul_eq_0 a b : gmul a b = g0 -> a <> g0 -> b = g0.
Proof.
  intros E Ha. transitivity (gmul (gmul (ginv a) a) b); [rewrite ginv_l by done; ring|].
  transitivity (gmul (ginv a) (gmul a b)); [ring|]. rewrite E. ring.
Qed.

Lemma gprod_nonzero l : g0 ∉ l -> gprod l <> g0.
Proof.
  induction l as [|y l IH]; simpl; intros Hin.
  - intros E. by apply (f_equal val) in E.
  - rewrite not_elem_of_cons in Hin. destruct Hin as [Hy Hl]. intros E.
    apply gmul_eq_0 in E; [by apply IH|]. congruence.
Qed.

Lemma diff_nonzero (x : gf) l : x ∉ l -> g0 ∉ map (gadd x) l.
Proof.
  intros Hx Hin. apply list_elem_of_In, in_map_iff in Hin as (y & E & Hy).
  apply gadd_eq_0 in E as ->. by apply Hx, list_elem_of_In.
Qed.

Lemma _inv_vals a : a <> g0 -> _inv (val a) = Ok (val (ginv a)).
Proof.
  intros Hne. apply _inv_zinv; [apply val_byte|]. intros E. apply Hne. by apply gf_eq.
Qed.

(** One step adds a polynomial that takes the value [y] at its own point and
    vanishes at the others. *)
Lemma interpolate_step_vals l1 xi l2 ys y coeffs :
  NoDup (l1 ++ xi :: l2) -> length coeffs = length (l1 ++ xi :: l2) -> ys !! length l1 = Some y ->
  exists c', interpolate_step (vals (l1 ++ xi :: l2)) (vals ys) (vals coeffs) (length l1, val xi) = Ok (vals c') /\
    length c' = length coeffs /\
    ev c' xi = gadd (ev coeffs xi) y /\
    forall x, x ∈ l1 ++ l2 -> ev c' x = ev coeffs x.
Proof.
  intros Hnd Hl Hy. apply NoDup_Permutation_proper with (y := xi :: (l1 ++ l2)) in Hnd;
    [|by rewrite Permutation_middle]. apply NoDup_cons in Hnd as [Hxi _].
  unfold interpolate_step. destruct (basis_loop_skip l1 xi l2) as (num & E & El & Hev).
  rewrite E. cbn [mbind res_bind]. set (d := gprod (map (gadd xi) (l1 ++ l2))).
  assert (Hd : d <> g0) by by apply gprod_nonzero, diff_nonzero.
  rewrite (py_index_vals _ _ _ Hy). cbn [mbind res_bind]. rewrite _inv_vals by done. cbn [mbind res_bind].
  rewrite _mul_vals. cbn [mbind res_bind]. set (s := gmul y (ginv d)).
  destruct (xor_row_vals coeffs 0 (map (fun nd => (nd, s)) num)) as (c' & Ec & Elc & Hevc).
  { rewrite length_map, length_app in *. simpl in Hl. lia. }
  exists c'. rewrite map_map in *. split; [exact Ec|]. split; [done|].
  assert (Hval : forall x, ev c' x = gadd (ev coeffs x) (gmul (gprod (map (gadd x) (l1 ++ l2))) s)).
  { intros x. rewrite Hevc. simpl. rewrite (ev_map_gmul_r num s), Hev. ring. }
  split.
  - rewrite Hval. fold d. unfold s. f_equal.
    transitivity (gmul y (gmul (ginv d) d)); [ring|]. rewrite ginv_l by done. ring.
  - intros x Hx. rewrite Hval, gprod_zero; [ring|].
    apply list_elem_of_In, in_map_iff. exists x. split; [by apply gadd_eq_0|by apply list_elem_of_In].
Qed.

Lemma interpolate_loop xs ys l1 l2 coeffs :
  NoDup xs -> length ys = length xs -> xs = l1 ++ l2 -> length coeffs = length xs ->
  (forall i x, l1 !! i = Some x -> Some (ev coeffs x) = ys !! i) ->
  (forall x, x ∈ l2 -> ev coeffs x = g0) ->
  exists c', res_fold (interpolate_step (vals xs) (vals ys)) (vals coeffs)
      (enumerate (length l1) (vals l2)) = Ok (vals c') /\
    length c' = length xs /\ forall i x, xs !! i = Some x -> Some (ev c' x) = ys !! i.
Proof.
  intros Hnd Hly. revert l1 coeffs; induction l2 as [|xi l2 IH]; intros l1 coeffs Hxs Hl Hdone Htodo.
  - exists coeffs. rewrite app_nil_r in Hxs. subst. split_and!; [done|done|exact Hdone].
  - destruct (lookup_lt_is_Some_2 ys (length l1)) as [y Hy].
    { rewrite Hly, Hxs, length_app. simpl. lia. }
    destruct (interpolate_step_vals l1 xi l2 ys y coeffs) as (c1 & E1 & El1 & Hxi & Hoth);
      [congruence|congruence|done|].
    rewrite <- Hxs in E1. cbn [map enumerate res_fold]. rewrite E1. cbn [mbind res_bind].
    destruct (IH (l1 ++ [xi]) c1) as (c' & E & El & Hev).
    + by rewrite <- app_assoc.
    + congruence.
    + intros i x Hi. apply lookup_app_Some in Hi as [Hi|[Hge Hi]].
      * rewrite Hoth; [by apply Hdone|]. apply elem_of_app. left. by eapply list_elem_of_lookup_2.
      * apply list_lookup_singleton_Some in Hi as [Hz <-].
        assert (i = length l1) as -> by lia. rewrite Hxi, Hy, Htodo by set_solver. f_equal. ring.
    + intros x Hx. rewrite Hoth by set_solver. apply Htodo. set_solver.
    + exists c'. rewrite length_app, Nat.add_1_r in E. done.
Qed.

Lemma _interpolate_vals xs ys :
  NoDup xs -> length ys = length xs ->
  exists c, _interpolate_coeffs (vals xs) (vals ys) = Ok (vals c) /\ length c = length xs /\
    forall i x, xs !! i = Some x -> Some (ev c x) = ys !! i.
Proof.
  intros Hnd Hl. unfold _interpolate_coeffs. rewrite length_map, vals_replicate.
  apply (interpolate_loop xs ys [] xs); try done.
  - by rewrite length_replicate.
  - intros x _. apply ev_replicate_0.
Qed.

(** *** Uniqueness: synthetic division by [x + a] *)

Fixpoint sdiv (c : list gf) (a : gf) : list gf * gf :=
  match c with
  | [] => ([], g0)
  | c0 :: c =>
    match c with
    | [] => ([], c0)
    | _ => let (s, r) := sdiv c a in (r :: s, gadd c0 (gmul a r))
    end
  end.

Lemma sdiv_spec c a x :
  ev c x = gadd (gmul (gadd x a) (ev (sdiv c a).1 x)) (sdiv c a).2 /\
  length (sdiv c a).1 = pred (length c).
Proof.
  induction c as [|c0 c IH]; [split; simpl; [ring|done]|].
  destruct c as [|c1 c]; [split; simpl; [ring|done]|].
  change (sdiv (c0 :: c1 :: c) a) with (let (s, r) := sdiv (c1 :: c) a in (r :: s, gadd c0 (gmul a r))).
  destruct (sdiv (c1 :: c) a) as [s r]. destruct IH as [E El]. cbn [fst snd] in *. split.
  - change (ev (c0 :: c1 :: c) x) with (gadd c0 (gmul x (ev (c1 :: c) x))). rewrite E. simpl.
    change (gadd c0 (gmul a r)) with (gadd c0 (id (gmul a r))). ring.
  - simpl in *. lia.
Qed.

Lemma sdiv_zero c a : Forall (eq g0) (sdiv c a).1 -> (sdiv c a).2 = g0 -> Forall (eq g0) c.
Proof.
  induction c as [|c0 c IH]; [done|]. destruct c as [|c1 c].
  - simpl. intros _ ->. by repeat constructor.
  - change (sdiv (c0 :: c1 :: c) a) with (let (s, r) := sdiv (c1 :: c) a in (r :: s, gadd c0 (gmul a r))).
    destruct (sdiv (c1 :: c) a) as [s r]. cbn [fst snd] in *. intros Hs Hr.
    apply Forall_cons in Hs as [<- Hs]. constructor; [|by apply IH].
    rewrite <- Hr. ring.
Qed.

(** A polynomial of [k] coefficients with [k] distinct roots is zero. *)
Lemma roots_zero xs c :
  NoDup xs -> length c = length xs -> Forall (fun x => ev c x = g0) xs -> Forall (eq g0) c.
Proof.
  revert c; induction xs as [|a xs IH]; intros c Hnd Hl Hr; [by destruct c|].
  apply NoDup_cons in Hnd as [Ha Hnd]. apply Forall_cons in Hr as [Ea Hr].
  assert (Hrem : (sdiv c a).2 = g0).
  { destruct (sdiv_spec c a a) as [E _]. rewrite Ea in E. rewrite (proj2 (gadd_eq_0 a a) eq_refl) in E.
    rewrite E. ring. }
  apply (sdiv_zero c a); [|done]. apply IH; [done|rewrite (proj2 (sdiv_spec c a a)), Hl; done|].
  rewrite Forall_forall in *. intros x Hx. destruct (sdiv_spec c a x) as [E _].
  rewrite (Hr x Hx), Hrem in E. apply (gmul_eq_0 (gadd x a)).
  - rewrite E. ring.
  - intros Exa. apply gadd_eq_0 in Exa as ->. done.
Qed.

Lemma ev_zip_gadd c1 c2 x :
  length c1 = length c2 -> ev (zip_with gadd c1 c2) x = gadd (ev c1 x) (ev c2 x).
Proof.
  revert c2; induction c1 as [|a c1 IH]; intros [|b c2] Hl; simpl in *; try lia; [ring|].
  rewrite IH by lia. ring.
Qed.

Lemma poly_unique xs c1 c2 :
  NoDup xs -> length c1 = length xs -> length c2 = length xs ->
  (forall x, x ∈ xs -> ev c1 x = ev c2 x) -> c1 = c2.
Proof.
  intros Hnd H1 H2 Hev.
  assert (Hz : Forall (eq g0) (zip_with gadd c1 c2)).
  { apply (roots_zero xs); [done|rewrite length_zip_with; lia|].
    apply Forall_forall. intros x Hx. rewrite ev_zip_gadd by lia. apply gadd_eq_0. auto. }
  clear -Hz H1 H2. assert (Hl : length c1 = length c2) by congruence. clear H1 H2.
  revert c2 Hz Hl; induction c1 as [|a c1 IH]; intros [|b c2] Hz Hl; simpl in *; try lia; [done|].
  apply Forall_cons in Hz as [E Hz]. f_equal; [by apply gadd_eq_0|]. apply IH; [done|lia].
Qed.

(** Interpolating the evaluations of a block gives the block back. *)
Lemma interpolate_block xs block :
  NoDup xs -> length block = length xs ->
  _interpolate_coeffs (vals xs) (vals (map (ev block) xs)) = Ok (vals block).
Proof.
  intros Hnd Hl. destruct (_interpolate_vals xs (map (ev block) xs)) as (c & E & Elc & Hev);
    [done|by rewrite length_map|].
  rewrite E. do 2 f_equal. apply (poly_unique xs); [done..|].
  intros x Hx. apply list_elem_of_lookup in Hx as [i Hi]. specialize (Hev _ _ Hi).
  change (map (ev block) xs) with (ev block <$> xs) in Hev. rewrite list_lookup_fmap, Hi in Hev.
  by injection Hev.
Qed.

(** ** Dispersal and reconstruction *)

Lemma bytes_vals (l : bytes) : forallb is_byte l = true -> exists g, l = vals g.
Proof.
  induction l as [|z l IH]; simpl; [by exists []|]. rewrite andb_true_iff. intros [Hz Hl].
  destruct (IH Hl) as [g ->]. by exists (mkGf z Hz :: g).
Qed.

Lemma blocks_map {A B} (f : A -> B) fuel k l : blocks fuel k (map f l) = map (map f) (blocks fuel k l).
Proof.
  revert l; induction fuel as [|fuel IH]; intros [|x l]; [done..|]. cbn [blocks map].
  change (f x :: map f l) with (map f (x :: l)). by rewrite firstn_map, skipn_map, IH.
Qed.

Lemma blocks_spec {A} fuel k m (l : list A) :
  (0 < k)%nat -> length l = (m * k)%nat -> (length l <= fuel)%nat ->
  concat (blocks fuel k l) = l /\ Forall (fun b => length b = k) (blocks fuel k l).
Proof.
  intros Hk. revert m l; induction fuel as [|fuel IH]; intros m l Hl Hf.
  - destruct l; simpl in *; [done|lia].
  - destruct l as [|x l']; [done|]. set (l := x :: l') in *.
    change (blocks (S fuel) k l) with (take k l :: blocks fuel k (drop k l)).
    destruct m as [|m]; [simpl in Hl; lia|].
    assert (Hd : length (drop k l) = (m * k)%nat) by (rewrite length_drop; simpl in Hl |- *; lia).
    destruct (IH m (drop k l) Hd) as [Hc Hb]; [lia|].
    split; [simpl concat; rewrite Hc; apply take_drop|].
    constructor; [|done]. rewrite length_take. simpl in Hl |- *. lia.
Qed.

(** The fragments after the blocks [done]. *)
Definition frag_state (points : list gf) (done : list (list gf)) : list (Z * bytes) :=
  map (fun x => (val x, map (fun b => val (ev b x)) done)) points.

Lemma frag_append_at x v b l1 l2 :
  x ∉ l1.*1 -> is_byte v = true -> frag_append x v (l1 ++ (x, b) :: l2) = Ok (l1 ++ (x, b ++ [v]) :: l2).
Proof.
  intros Hx Hv. induction l1 as [|[y c] l1 IH]; simpl in *.
  - by rewrite Z.eqb_refl, Hv.
  - rewrite not_elem_of_cons in Hx. destruct Hx as [Hne Hx]. destruct (Z.eqb_spec y x); [congruence|].
    by rewrite IH.
Qed.

Lemma frag_state_keys points done : (frag_state points done).*1 = vals points.
Proof. unfold frag_state. induction points as [|x l IH]; [done|]. exact (f_equal (cons (val x)) IH). Qed.

Lemma vals_elem x l : val x ∈ vals l <-> x ∈ l.
Proof.
  rewrite !list_elem_of_In, in_map_iff. split; [|eauto]. intros (y & E & Hy).
  by apply gf_eq in E as ->.
Qed.

Lemma NoDup_vals l : NoDup l -> NoDup (vals l).
Proof.
  intros Hnd. induction Hnd as [|x l Hx _ IH]; simpl; constructor; [|done]. by rewrite vals_elem.
Qed.

Lemma disperse_block_loop block done l1 l2 :
  NoDup (l1 ++ l2) ->
  res_fold (fun frags x => v ← _eval_poly (vals block) x; frag_append x v frags)
    (frag_state l1 (done ++ [block]) ++ frag_state l2 done) (vals l2)
  = Ok (frag_state (l1 ++ l2) (done ++ [block])).
Proof.
  revert l1; induction l2 as [|x l2 IH]; intros l1 Hnd; simpl.
  - unfold frag_state. by rewrite !app_nil_r.
  - rewrite _eval_poly_vals. cbn [mbind res_bind].
    change (frag_state (x :: l2) done) with ((val x, map (fun b => val (ev b x)) done) :: frag_state l2 done).
    rewrite frag_append_at; [|rewrite frag_state_keys, vals_elem|apply val_byte].
    + cbn [mbind res_bind]. assert (l1 ++ x :: l2 = (l1 ++ [x]) ++ l2) as Ea by by rewrite <- app_assoc.
      rewrite Ea in *. rewrite <- IH by done.
      f_equal. unfold frag_state. rewrite (map_app _ l1 [x]), <- app_assoc. simpl. by rewrite map_app.
    + intros Hx. apply NoDup_app in Hnd as (_ & Hd & _). apply (Hd x Hx). by left.
Qed.

Lemma disperse_blocks points done todo :
  NoDup points ->
  res_fold (disperse_block (vals points)) (frag_state points done) (map (map val) todo)
  = Ok (frag_state points (done ++ todo)).
Proof.
  intros Hnd. revert done; induction todo as [|b todo IH]; intros done; simpl.
  - by rewrite app_nil_r.
  - assert (disperse_block (vals points) (frag_state points done) (vals b)
      = Ok (frag_state points (done ++ [b]))) as -> by exact (disperse_block_loop b done [] points Hnd).
    cbn [mbind res_bind]. by rewrite IH, <- app_assoc.
Qed.

Lemma frag_get_elem x f (fr : list (Z * bytes)) : NoDup fr.*1 -> (x, f) ∈ fr -> frag_get x fr = Ok f.
Proof.
  intros Hnd Hin. induction fr as [|[y g] fr IH]; [by apply not_elem_of_nil in Hin|].
  simpl in *. apply NoDup_cons in Hnd as [Hy Hnd]. apply elem_of_cons in Hin as [[= <- <-]|Hin].
  - by rewrite Z.eqb_refl.
  - destruct (Z.eqb_spec y x) as [->|]; [|by apply IH].
    destruct Hy. apply list_elem_of_fmap. by exists (x, f).
Qed.

Lemma frag_get_state points done fr x :
  NoDup fr.*1 -> fr ⊆ frag_state points done -> val x ∈ fr.*1 ->
  frag_get (val x) fr = Ok (map (fun b => val (ev b x)) done).
Proof.
  intros Hnd Hsub Hx. apply frag_get_elem; [done|].
  apply list_elem_of_fmap in Hx as ([y f] & E & Hy). simpl in E. subst y.
  pose proof (Hsub _ Hy) as Hs. apply list_elem_of_In, in_map_iff in Hs as (x' & [= Ex Ef] & _).
  apply gf_eq in Ex as ->. by subst f.
Qed.

Lemma res_map_seq {A B} (f : nat -> res B) (g : A -> B) l off :
  (forall i b, l !! i = Some b -> f (off + i)%nat = Ok (g b)) ->
  res_map f (seq off (length l)) = Ok (map g l).
Proof.
  revert off; induction l as [|x l IH]; intros off Hf; simpl; [done|].
  pose proof (Hf 0%nat x eq_refl) as H0. rewrite Nat.add_0_r in H0. rewrite H0. simpl.
  rewrite IH; [done|]. intros i b Hi. rewrite <- (Hf (S i) b Hi). f_equal. lia.
Qed.

(** The points a reconstruction uses are distinct field elements. *)
Lemma keys_vals (fr : list (Z * bytes)) k :
  NoDup fr.*1 -> forallb is_byte fr.*1 = true ->
  exists gxs, take k (py_sort Z.ltb fr.*1) = vals gxs /\ NoDup gxs /\
    forall x, x ∈ gxs -> val x ∈ fr.*1.
Proof.
  intros Hnd Hbytes.
  assert (Hb : forall z, z ∈ take k (py_sort Z.ltb fr.*1) -> z ∈ fr.*1).
  { intros z Hz. apply (elem_of_py_sort Z.ltb). eapply subseteq_take, Hz. }
  assert (Hndt : NoDup (take k (py_sort Z.ltb fr.*1))).
  { eapply sublist_NoDup; [|apply sublist_take]. by rewrite py_sort_perm. }
  destruct (bytes_vals (take k (py_sort Z.ltb fr.*1))) as [gxs E].
  { apply forallb_forall. intros z Hz. rewrite forallb_forall in Hbytes.
    apply Hbytes, list_elem_of_In, Hb. by apply list_elem_of_In. }
  exists gxs. rewrite E in *. split; [done|]. split; [by eapply NoDup_fmap_1|].
  intros x Hx. apply Hb. by apply vals_elem.
Qed.

Lemma state_keys_bytes points done (fr : list (Z * bytes)) :
  fr ⊆ frag_state points done -> forallb is_byte fr.*1 = true.
Proof.
  intros Hsub. apply forallb_forall. intros z Hz.
  apply list_elem_of_In, list_elem_of_fmap in Hz as ([y f] & -> & Hy).
  apply Hsub, list_elem_of_In, in_map_iff in Hy as (x & [= <- _] & _). apply val_byte.
Qed.

Lemma vals_bytes g : forallb is_byte (vals g) = true.
Proof. induction g as [|x g IH]; simpl; [done|]. by rewrite val_byte, IH. Qed.

Lemma concat_map_vals (l : list (list gf)) : concat (map (map val) l) = vals (concat l).
Proof. symmetry. apply concat_map. Qed.

Lemma points_ok n xs :
  1 <= n <= 255 ->
  (forall l, xs = Some l -> NoDup l /\ Z.of_nat (length l) = n /\ Forall (fun x => 1 <= x <= 255) l) ->
  let points := match xs with Some l => l | None => map Z.of_nat (seq 1 (Z.to_nat n)) end in
  NoDup points /\ Z.of_nat (length points) = n /\ Forall (fun x => 1 <= x <= 255) points.
Proof.
  intros Hn Hxs. destruct xs as [l|]; [by apply Hxs|]. simpl. split_and!.
  - apply (NoDup_fmap_2 Z.of_nat), NoDup_seq.
  - rewrite length_map, length_seq. lia.
  - apply Forall_forall. intros z Hz. apply list_elem_of_In, in_map_iff in Hz as (i & <- & Hi).
    apply in_seq in Hi. lia.
Qed.

Lemma no_zero_point points :
  Forall (fun x => 1 <= x <= 255) points -> existsb (fun p => p =? 0) points = false.
Proof.
  induction 1 as [|x l Hx _ IH]; simpl; [done|]. destruct (Z.eqb_spec x 0); [lia|done].
Qed.

(** Padding completes the last block. *)
Lemma padded_blocks (gl : list gf) k :
  1 <= k ->
  let data := vals gl ++ replicate (Z.to_nat ((- Z.of_nat (length gl)) mod k)) 0 in
  exists blks, blocks (length data) (Z.to_nat k) data = map (map val) blks /\
    concat (map (map val) blks) = data /\ Forall (fun b => length b = Z.to_nat k) blks.
Proof.
  intros Hk data. set (pad := Z.to_nat ((- Z.of_nat (length gl)) mod k)) in *.
  set (gd := gl ++ replicate pad g0).
  assert (Ed : data = vals gd) by (unfold data, gd; by rewrite map_app, <- vals_replicate).
  assert (exists m, length gd = (m * Z.to_nat k)%nat) as [m Hm].
  { unfold gd. rewrite length_app, length_replicate. exists (Z.to_nat ((Z.of_nat (length gl) + Z.of_nat pad) / k)).
    assert (Hz : (Z.of_nat (length gl) + Z.of_nat pad) mod k = 0).
    { unfold pad. rewrite Z2Nat.id by (apply Z.mod_pos_bound; lia).
      rewrite Zplus_mod_idemp_r. by replace (_ + - _) with 0 by lia. }
    apply Z.div_exact in Hz; [|lia].
    assert (0 <= (Z.of_nat (length gl) + Z.of_nat pad) / k) by (apply Z.div_pos; lia).
    apply Nat2Z.inj. rewrite Nat2Z.inj_mul, !Z2Nat.id by lia. lia. }
  exists (blocks (length gd) (Z.to_nat k) gd).
  destruct (blocks_spec (length gd) (Z.to_nat k) m gd) as [Hc Hb]; [lia|done|lia|].
  rewrite Ed, length_map, blocks_map. split_and!; [done| |done].
  rewrite concat_map_vals. by rewrite Hc.
Qed.

Lemma reconstruct_state points blks fr k gl :
  NoDup fr.*1 -> fr ⊆ frag_state points blks -> (0 < k <= length fr)%nat ->
  Forall (fun b => length b = k) blks -> (exists pad, concat (map (map val) blks) = vals gl ++ pad) ->
  reconstruct fr k (length (vals gl)) = Ok (vals gl).
Proof.
  intros Hnd Hsub Hk Hblk [pad Hcat]. unfold reconstruct.
  rewrite py_sort_length, length_fmap. destruct (Nat.ltb_spec (length fr) k); [lia|].
  destruct (keys_vals fr k Hnd (state_keys_bytes _ _ _ Hsub)) as (gxs & E & Hndg & Hkeys). rewrite E.
  assert (Hlg : length gxs = k).
  { apply (f_equal length) in E. rewrite length_map, length_take, py_sort_length, length_fmap in E. lia. }
  destruct gxs as [|x0 gxs']; [simpl in Hlg; lia|]. set (gxs := x0 :: gxs') in *.
  change (py_index (vals gxs) 0) with (@Ok Z (val x0)). cbn [mbind res_bind].
  rewrite (frag_get_state points blks fr x0) by (done || apply Hkeys; by left).
  cbn [mbind res_bind]. rewrite !length_map.
  rewrite (res_map_seq _ (map val) blks).
  - cbn [mbind res_bind]. rewrite Hcat, <- (length_map val gl). by rewrite take_app_length.
  - intros i b Hi. simpl plus. unfold reconstruct_at.
    assert (res_map (fun x => f ← frag_get x fr; py_index f (Z.of_nat i)) (vals gxs)
            = Ok (vals (map (ev b) gxs))) as ->.
    { clear E Hndg Hlg. induction gxs as [|x l IH]; [done|]. simpl.
      rewrite (frag_get_state points blks fr x) by (done || apply Hkeys; by left). cbn [mbind res_bind].
      erewrite lookup_byte with (d := 0).
      2: { rewrite length_map. pose proof (lookup_lt_Some _ _ _ Hi). lia. }
      rewrite Nat2Z.id. change (map (fun b => val (ev b x)) blks) with ((fun b => val (ev b x)) <$> blks).
      rewrite list_lookup_fmap, Hi. cbn [mbind res_bind fmap option_fmap option_map default].
      rewrite IH by (intros; apply Hkeys; by right). done. }
    cbn [mbind res_bind]. rewrite Forall_lookup in Hblk.
    rewrite interpolate_block; [|done|rewrite Hlg; by eapply Hblk]. cbn [mbind res_bind].
    by rewrite vals_bytes.
Qed.

(** Fragments of equal length at distinct points always interpolate, right or
    wrong. *)
Lemma reconstruct_total (fr : list (Z * bytes)) k len L :
  NoDup fr.*1 -> forallb is_byte fr.*1 = true -> (0 < k <= length fr)%nat ->
  Forall (fun xf => forallb is_byte xf.2 = true /\ length xf.2 = L) fr ->
  exists rec, reconstruct fr k len = Ok rec /\ forallb is_byte rec = true.
Proof.
  intros Hnd Hbytes Hk Hfr. unfold reconstruct.
  rewrite py_sort_length, length_fmap. destruct (Nat.ltb_spec (length fr) k); [lia|].
  destruct (keys_vals fr k Hnd Hbytes) as (gxs & E & Hndg & Hkeys). rewrite E.
  assert (Hlg : length gxs = k).
  { apply (f_equal length) in E. rewrite length_map, length_take, py_sort_length, length_fmap in E. lia. }
  assert (Hget : forall x, x ∈ gxs -> exists g, frag_get (val x) fr = Ok (vals g) /\ length g = L).
  { intros x Hx. apply Hkeys, list_elem_of_fmap in Hx as ([y f] & Ey & Hy). simpl in Ey. subst y.
    rewrite Forall_forall in Hfr. destruct (Hfr _ Hy) as [Hb Hl]. simpl in *.
    destruct (bytes_vals f Hb) as [g ->]. exists g. rewrite length_map in Hl.
    split; [by apply frag_get_elem|done]. }
  destruct gxs as [|x0 gxs']; [simpl in Hlg; lia|]. set (gxs := x0 :: gxs') in *.
  change (py_index (vals gxs) 0) with (@Ok Z (val x0)). cbn [mbind res_bind].
  destruct (Hget x0) as (g0' & -> & Hg0); [by left|]. cbn [mbind res_bind]. rewrite length_map, Hg0.
  clearbody gxs. assert (Hpos : forall pos, (pos < L)%nat -> exists c, reconstruct_at fr (vals gxs) pos = Ok (vals c)).
  { intros pos Hp. unfold reconstruct_at. assert (exists gys, res_map (fun x => f ← frag_get x fr; py_index f (Z.of_nat pos)) (vals gxs)
      = Ok (vals gys) /\ length gys = length gxs) as (gys & -> & Hlys).
    { clear -Hget Hp. induction gxs as [|x l IH]; [by exists []|]. simpl.
      destruct (Hget x) as (g & -> & Hg); [by left|]. cbn [mbind res_bind].
      destruct (lookup_lt_is_Some_2 g pos) as [y Hy]; [lia|]. rewrite (py_index_vals _ _ _ Hy).
      cbn [mbind res_bind]. destruct IH as (gys & -> & Hl); [intros; apply Hget; by right|].
      exists (y :: gys). simpl. by rewrite Hl. }
    cbn [mbind res_bind]. destruct (_interpolate_vals gxs gys Hndg Hlys) as (c & -> & _).
    cbn [mbind res_bind]. rewrite vals_bytes. by exists c. }
  assert (exists cs, res_map (reconstruct_at fr (vals gxs)) (seq 0 L) = Ok (map (map val) cs)) as [cs ->].
  { assert (Hseq : forall pos, pos ∈ seq 0 L -> (pos < L)%nat) by (intros ? ?%elem_of_seq; lia).
    revert Hseq. clear -Hpos. induction (seq 0 L) as [|pos l IH]; intros Hseq; [by exists []|]. simpl.
    destruct (Hpos pos) as [c ->]; [apply Hseq; by left|]. cbn [mbind res_bind].
    destruct IH as [cs ->]; [intros; apply Hseq; by right|]. by exists (c :: cs). }
  cbn [mbind res_bind]. eexists. split; [done|]. rewrite concat_map_vals.
  apply forallb_forall. intros z Hz. apply list_elem_of_In in Hz. apply subseteq_take in Hz.
  apply list_elem_of_In, in_map_iff in Hz as (x & <- & _). apply val_byte.
Qed.

(** What a dispersal stores: the evaluations of the blocks of the padded leaf. *)
Lemma disperse_spec leaf k n xs :
  forallb is_byte leaf = true -> 1 <= k <= n -> n <= 255 ->
  (forall l, xs = Some l -> NoDup l /\ Z.of_nat (length l) = n /\ Forall (fun x => 1 <= x <= 255) l) ->
  exists gp gl blks pad,
    disperse leaf k n xs = Ok (mkDispersal k n (length leaf) (vals gp) (frag_state gp blks)) /\
    leaf = vals gl /\ NoDup gp /\ Z.of_nat (length gp) = n /\
    Forall (fun b => length b = Z.to_nat k) blks /\ concat (map (map val) blks) = leaf ++ pad.
Proof.
  intros Hleaf Hk Hn Hxs.
  set (points := match xs with Some l => l | None => map Z.of_nat (seq 1 (Z.to_nat n)) end).
  destruct (points_ok n xs ltac:(lia) Hxs) as (Hnd & Hlen & Hrange). fold points in Hnd, Hlen, Hrange.
  destruct (bytes_vals points) as [gp Egp].
  { apply forallb_forall. intros z Hz. apply is_byte_spec. rewrite Forall_forall in Hrange.
    apply list_elem_of_In, Hrange in Hz. lia. }
  destruct (bytes_vals leaf Hleaf) as [gl ->].
  destruct (padded_blocks gl k) as (blks & Eblks & Hcat & Hblk); [lia|].
  exists gp, gl, blks. eexists. split_and!; [|done| |rewrite Egp, length_map in Hlen; done|done|exact Hcat].
  - unfold disperse. fold points. rewrite !(proj2 (Z.leb_le _ _)) by lia. simpl negb. cbv iota.
    rewrite (proj2 (Z.eqb_eq _ _) Hlen), bool_decide_true by done. simpl orb.
    rewrite no_zero_point by done. cbv zeta iota. rewrite length_map in *. rewrite Eblks.
    assert (map (fun x => (x, [])) points = frag_state gp []) as ->.
    { rewrite Egp. unfold frag_state. by rewrite map_map. }
    rewrite Egp, disperse_blocks; [done|]. rewrite Egp in Hnd. by eapply NoDup_fmap_1.
  - rewrite Egp in Hnd. by eapply NoDup_fmap_1.
Qed.

(** ** Properties *)

(** C3: holographic recovery.  Dispersing a leaf succeeds for every admissible
    [k], [n] and choice of distinct points in 1..255, and reconstructing from
    any [k] or more of the fragments, whichever they are and in whatever order,
    gives the leaf back byte for byte. *)
Theorem any_k_fragments_reconstruct leaf k n xs :
  forallb is_byte leaf = true -> 1 <= k <= n -> n <= 255 ->
  (forall l, xs = Some l -> NoDup l /\ Z.of_nat (length l) = n /\ Forall (fun x => 1 <= x <= 255) l) ->
  exists d, disperse leaf k n xs = Ok d /\
    forall fr, NoDup fr.*1 -> fr ⊆ fragments d -> k <= Z.of_nat (length fr) ->
      reconstruct fr (Z.to_nat k) (orig_len d) = Ok leaf.
Proof.
  intros Hleaf Hk Hn Hxs.
  destruct (disperse_spec leaf k n xs Hleaf Hk Hn Hxs) as (gp & gl & blks & pad & Ed & -> & Hnd & _ & Hblk & Hcat).
  eexists. split; [exact Ed|]. intros fr Hndf Hsub Hlf.
  apply (reconstruct_state gp blks fr (Z.to_nat k) gl); [done|done|lia|done|by eexists].
Qed.

(** Fewer than [k] fragments reconstruct nothing: the call raises, whatever
    the fragments are. *)
Theorem too_few_fragments_raise fr k len :
  (length fr < k)%nat ->
  exists msg, reconstruct fr k len = Raise (ValueError msg).
Proof.
  intros Hl. unfold reconstruct. rewrite py_sort_length, length_fmap.
  destruct (Nat.ltb_spec (length fr) k); [by eexists|lia].
Qed.

(** ** Witnesses *)

Definition demo_leaf : bytes := [104; 111; 108; 111; 0; 255; 7].

Lemma any_k_fragments_reconstruct_witness :
  exists d, disperse demo_leaf 3 5 (Some [9; 200; 17; 255; 1]) = Ok d /\
    forall fr, NoDup fr.*1 -> fr ⊆ fragments d -> 3 <= Z.of_nat (length fr) ->
      reconstruct fr 3 (orig_len d) = Ok demo_leaf.
Proof.
  apply any_k_fragments_reconstruct; [reflexivity|lia|lia|].
  intros l [= <-]. split_and!; [|reflexivity|repeat constructor; lia].
  repeat constructor; set_solver.
Defined.

Lemma too_few_fragments_raise_witness :
  exists msg, reconstruct [(1, [3]); (2, [5])] 3 4 = Raise (ValueError msg).
Proof. apply too_few_fragments_raise. simpl. lia. Defined.

(** A concrete run: five fragments, three of them taken out of order. *)
Example disperse_reconstruct_run :
  match disperse demo_leaf 3 5 None with
  | Ok d => match fragments d with
            | [f1; f2; f3; f4; f5] => reconstruct [f5; f1; f3] 3 (orig_len d)
            | _ => Raise IndexError
            end
  | Raise e => Raise e
  end = Ok demo_leaf.
Proof. vm_compute. reflexivity. Qed.
