(* ===== verification/StorageResilience.v ===== *)
(** * Storage placement over the mesh

    Models [automation/storage_resilience.py] (the placement, its resilience
    predicates and the assignment of shards to nodes) and
    [automation/storage_placement.py] (the declared tiers, validated when they
    are loaded, and the posture of the moment).

    A YAML or JSON file is the value it parses to.  The probability estimates
    [expected_durable_under_seizure] and [survival_probability] use the C
    library's power function and are left out. *)

From Stdlib Require Import Ascii SpecFloat.
From S2P Require Import Prelude PyVal PyText Json MeshTopology.
Local Open Scope Z_scope.

(** ** The placement *)

Record Placement := mkPlacement {
  replicas : Z;
  rs_k : Z;
  rs_m : Z;
  encrypted_at_rest : bool;
  shard_replicas : Z
}.

Definition rs_n (p : Placement) : Z := rs_k p + rs_m p.

Definition durability_overhead (p : Placement) : res spec_float :=
  py_truediv (rs_n p * shard_replicas p) (rs_k p).

Definition durable (surviving_shards : Z) (p : Placement) : bool := rs_k p <=? surviving_shards.

Definition confidential (seized_shards : Z) (p : Placement) : bool :=
  if encrypted_at_rest p then true else seized_shards <? rs_k p.

Definition write_consistent_under_partition (reachable_replicas : Z) (p : Placement) : bool :=
  replicas p / 2 + 1 <=? reachable_replicas.

Definition read_available_under_partition (reachable_shards : Z) (p : Placement) : bool :=
  rs_k p <=? reachable_shards.

Definition max_seizable_nodes (p : Placement) : Z := rs_m p.

(** ** Shards on nodes *)

(** [range(z)]. *)
Definition py_range (z : Z) : list nat := seq 0 (Z.to_nat z).

(** [ordered[(slot * stride) % len(ordered)]]. *)
Definition strided (ordered : list string) (stride : Z) (slot : nat) : res string :=
  let n := Z.of_nat (length ordered) in
  if n =? 0 then Raise ZeroDivisionError
  else of_option IndexError (ordered !! Z.to_nat ((Z.of_nat slot * stride) mod n)).

(** [max(1, len(ordered) // total)]. *)
Definition stride_of (ordered : list string) (total : Z) : res Z :=
  if total =? 0 then Raise ZeroDivisionError else Ok (Z.max 1 (Z.of_nat (length ordered) / total)).

Definition disperse_shards (nodes : list string) (p : Placement) : res (list (string * string)) :=
  tree ← build_tree nodes;
  let ordered := leaves tree in
  if Z.of_nat (length ordered) <? rs_n p then
    Raise (ValueError ("need " +:+ pretty (rs_n p) +:+ " distinct nodes for the shards; mesh has "
                       +:+ pretty (length ordered)))
  else
    stride ← stride_of ordered (rs_n p);
    res_fold (fun d i => node ← strided ordered stride i;
                         Ok (assoc_set node ("shard-" +:+ pretty i) d)) [] (py_range (rs_n p)).

(** The two nested loops that hand out consecutive slots: for each key, [r]
    nodes. *)
Fixpoint place_keys {K} (ordered : list string) (stride : Z) (r : nat) (keys : list K) (slot : nat) :
    res (list (K * list string)) :=
  match keys with
  | [] => Ok []
  | x :: keys =>
    ns ← res_map (strided ordered stride) (seq slot r);
    rest ← place_keys ordered stride r keys (slot + r);
    Ok ((x, ns) :: rest)
  end.

Definition disperse_with_replicas (nodes : list string) (p : Placement) :
    res (list (string * list string)) :=
  tree ← build_tree nodes;
  let ordered := leaves tree in
  let total := rs_n p * shard_replicas p in
  if Z.of_nat (length ordered) <? total then
    Raise (ValueError ("need " +:+ pretty total +:+ " distinct nodes for " +:+ pretty (rs_n p) +:+
                       " shards × " +:+ pretty (shard_replicas p) +:+ " replicas; mesh has "
                       +:+ pretty (length ordered)))
  else
    stride ← stride_of ordered total;
    place_keys ordered stride (Z.to_nat (shard_replicas p))
      (map (fun s => "shard-" +:+ pretty s) (py_range (rs_n p))) 0.

(** ** The declared tiers *)

Definition _validate (tier : string) (p : Placement) : res unit :=
  let tag := "tier '" +:+ tier +:+ "': " in
  if rs_k p <? 1 then Raise (ValueError (tag +:+ "rs_k must be >= 1"))
  else if rs_m p <? 0 then Raise (ValueError (tag +:+ "rs_m must be >= 0"))
  else if replicas p <? 1 then Raise (ValueError (tag +:+ "replicas must be >= 1"))
  else if shard_replicas p <? 1 then
    Raise (ValueError (tag +:+ "shard_replicas must be >= 1 (1 = no shard replication)"))
  else if negb (encrypted_at_rest p) then
    Raise (ValueError (tag +:+ "encrypted_at_rest MUST be true — seizable tiers cannot store plaintext (a captured node must yield ciphertext)"))
  else Ok tt.

Definition _tier_to_placement (spec : pyval) : res Placement :=
  r0 ← py_get spec "replicas" (PInt 3); r ← py_int_of r0;
  k0 ← py_item spec "rs_k"; k ← py_int_of k0;
  m0 ← py_item spec "rs_m"; m ← py_int_of m0;
  e ← py_get spec "encrypted_at_rest" (PBool true);
  s0 ← py_get spec "shard_replicas" (PInt 1); s ← py_int_of s0;
  Ok (mkPlacement r k m (truthy e) s).

(** [tier in tiers] for any value of [tier]. *)
Definition tier_in (tier tiers : pyval) : res bool :=
  match tier with
  | PStr t => py_in t tiers
  | _ => match tiers with
         | PDict _ => if hashable tier then Ok false else Raise TypeError
         | PList l => Ok false
         | _ => Raise TypeError
         end
  end.

(** The parsed registry, [PNone] for an empty file. *)
Definition load_placement (threat_tier : option string) (file : pyval) : res Placement :=
  let data := py_or file (PDict []) in
  tiers0 ← py_get data "tiers" PNone;
  let tiers := py_or tiers0 (PDict []) in
  tier ← (match threat_tier with
          | Some (String c t) => Ok (PStr (String c t))
          | _ => py_get data "default_tier" PNone
          end);
  if negb (truthy tier) then Raise (ValueError "no threat tier requested and no default_tier declared")
  else
    known ← tier_in tier tiers;
    if negb known then Raise (ValueError "unknown threat tier")
    else match tier with
         | PStr t =>
           spec ← py_item tiers t;
           p ← _tier_to_placement spec;
           _ ← _validate t p;
           Ok p
         | _ => Raise TypeError
         end.

Definition load_all (file : pyval) : res (list (string * Placement)) :=
  let data := py_or file (PDict []) in
  tiers0 ← py_get data "tiers" PNone;
  match py_or tiers0 (PDict []) with
  | PDict items =>
    res_map (fun ts : string * pyval =>
      p ← _tier_to_placement ts.2; _ ← _validate ts.1 p; Ok (ts.1, p)) items
  | _ => Raise AttributeError
  end.

(** The posture file: absent or not JSON, or its value. *)
Definition load_runtime_placement (posture : option pyval) (file : pyval) : res Placement :=
  floor ← load_placement None file;
  match posture with
  | Some (PDict d) =>
    match default PNone (assoc "tier" d) with
    | PStr (String c t) =>
      match load_placement (Some (String c t)) file with
      | Raise (ValueError _) => Ok floor
      | Raise e => Raise e
      | Ok chosen =>
        oc ← durability_overhead chosen;
        ofl ← durability_overhead floor;
        Ok (if F64.leb ofl oc then chosen else floor)
      end
    | _ => Ok floor
    end
  | _ => Ok floor
  end.

(** ** Distinct slots *)

(** The node of a slot. *)
Definition slot_node (ordered : list string) (stride : Z) (slot : nat) : string :=
  default ""%string (ordered !! Z.to_nat (Z.of_nat slot * stride)).

Section slots.
Context (ordered : list string) (total : Z).
Hypothesis Htotal : 0 < total <= Z.of_nat (length ordered).

Let stride : Z := Z.max 1 (Z.of_nat (length ordered) / total).

Lemma stride_spec : stride_of ordered total = Ok stride /\ 1 <= stride /\
  (total - 1) * stride < Z.of_nat (length ordered).
Proof.
  unfold stride_of. destruct (Z.eqb_spec total 0); [lia|]. fold stride. split; [done|].
  assert (1 <= Z.of_nat (length ordered) / total) by (apply Z.div_le_lower_bound; lia).
  unfold stride. rewrite Z.max_r by done. split; [done|].
  pose proof (Z.mul_div_le (Z.of_nat (length ordered)) total ltac:(lia)). nia.
Qed.

Lemma slot_in_range slot : Z.of_nat slot < total ->
  0 <= Z.of_nat slot * stride < Z.of_nat (length ordered).
Proof. intros Hs. destruct stride_spec as (_ & ? & ?). nia. Qed.

Lemma strided_slot slot : Z.of_nat slot < total ->
  strided ordered stride slot = Ok (slot_node ordered stride slot).
Proof.
  intros Hs. pose proof (slot_in_range slot Hs). unfold strided, slot_node.
  destruct (Z.eqb_spec (Z.of_nat (length ordered)) 0); [lia|]. rewrite Z.mod_small by lia.
  by destruct (lookup_lt_is_Some_2 ordered (Z.to_nat (Z.of_nat slot * stride))) as [x ->]; [lia|].
Qed.

Lemma slot_node_elem slot : Z.of_nat slot < total -> slot_node ordered stride slot ∈ ordered.
Proof.
  intros Hs. pose proof (slot_in_range slot Hs). unfold slot_node.
  destruct (lookup_lt_is_Some_2 ordered (Z.to_nat (Z.of_nat slot * stride))) as [x E]; [lia|].
  rewrite E. by eapply list_elem_of_lookup_2.
Qed.

Lemma slots_NoDup off n :
  NoDup ordered -> Z.of_nat (off + n) <= total -> NoDup (map (slot_node ordered stride) (seq off n)).
Proof.
  intros Hnd Hn. apply NoDup_fmap_2_strong; [|apply NoDup_seq].
  intros i j Hi Hj E. apply elem_of_seq in Hi, Hj.
  pose proof (slot_in_range i ltac:(lia)). pose proof (slot_in_range j ltac:(lia)).
  unfold slot_node in E.
  destruct (lookup_lt_is_Some_2 ordered (Z.to_nat (Z.of_nat i * stride))) as [x Ex]; [lia|].
  destruct (lookup_lt_is_Some_2 ordered (Z.to_nat (Z.of_nat j * stride))) as [y Ey]; [lia|].
  rewrite Ex, Ey in E. simpl in E. subst y.
  pose proof (NoDup_lookup _ _ _ _ Hnd Ex Ey). destruct stride_spec as (_ & ? & _). nia.
Qed.

(** The placement of the keys: consecutive runs of [r] slots. *)
Lemma place_keys_spec {K} (keys : list K) r slot :
  Z.of_nat (slot + length keys * r) <= total ->
  exists out, place_keys ordered stride r keys slot = Ok out /\ out.*1 = keys /\
    Forall (fun kn => length kn.2 = r) out /\
    concat out.*2 = map (slot_node ordered stride) (seq slot (length keys * r)).
Proof.
  revert slot; induction keys as [|x keys IH]; intros slot Hs; simpl in *; [by exists []|].
  assert (res_map (strided ordered stride) (seq slot r) = Ok (slot_node ordered stride <$> seq slot r)) as ->.
  { apply res_map_pure, Forall_forall. intros i Hi. apply elem_of_seq in Hi. apply strided_slot. lia. }
  cbn [mbind res_bind]. destruct (IH (slot + r)%nat) as (out & -> & Hk & Hl & Hc); [lia|].
  cbn [mbind res_bind]. eexists. split; [done|]. rewrite !fmap_cons, Hk. split_and!; [done| |].
  - constructor; [|done]. simpl. by rewrite length_fmap, length_seq.
  - cbn [concat]. by rewrite Hc, seq_app, map_app.
Qed.
End slots.

(** ** Seizure *)

(** A key survives when one of its nodes is not seized. *)
Definition survives {K} (seized : gset string) (kn : K * list string) : bool :=
  existsb (fun n => negb (bool_decide (n ∈ seized))) kn.2.

Lemma lost_bound {K} (out : list (K * list string)) r (seized : gset string) :
  Forall (fun kn => length kn.2 = r) out -> NoDup (concat out.*2) ->
  (r * length (List.filter (fun kn => negb (survives seized kn)) out) <= size seized)%nat.
Proof.
  intros Hl Hnd. set (lost := List.filter (fun kn => negb (survives seized kn)) out).
  assert (Hlen : (r * length lost)%nat = length (concat lost.*2)).
  { unfold lost. clear Hnd lost. induction Hl as [|kn out Hkn _ IH]; simpl; [lia|].
    destruct (negb (survives seized kn)); simpl; [|done].
    change (r * S (length (List.filter (fun kn => negb (survives seized kn)) out)) =
      length (kn.2 ++ concat (List.filter (fun kn => negb (survives seized kn)) out).*2))%nat.
    rewrite length_app, Hkn. lia. }
  assert (Hndl : NoDup (concat lost.*2)).
  { unfold lost. clear Hl Hlen lost. induction out as [|kn out IH]; simpl in *; [constructor|].
    apply NoDup_app in Hnd as (H1 & H2 & H3). specialize (IH H3).
    destruct (negb (survives seized kn)); simpl; [|done]. apply NoDup_app. split_and!; [done| |done].
    intros x Hx Hin. apply (H2 x Hx). revert Hin. rewrite !list_elem_of_In, !in_concat.
    intros (l & Hl & Hin). exists l. split; [|done]. revert Hl. clear.
    change (map snd ?l) with (l.*2). rewrite <- !list_elem_of_In, !list_elem_of_fmap.
    intros (kn' & -> & Hk). exists kn'. split; [done|]. revert Hk. rewrite !list_elem_of_In, filter_In. tauto. }
  assert (Hsub : forall x, x ∈ concat lost.*2 -> x ∈ seized).
  { intros x. rewrite list_elem_of_In, in_concat. intros (l & Hin & Hx).
    apply list_elem_of_In, list_elem_of_fmap in Hin as (kn & -> & Hkn).
    apply list_elem_of_In, filter_In in Hkn as [_ Hkn]. unfold survives in Hkn.
    apply negb_true_iff in Hkn. destruct (decide (x ∈ seized)) as [|Hno]; [done|]. exfalso.
    rewrite (proj2 (existsb_exists _ _)) in Hkn; [done|]. exists x. split; [done|].
    by rewrite bool_decide_false. }
  rewrite Hlen, <- (size_list_to_set (C := gset string)) by done. apply subseteq_size.
  intros x Hx. apply Hsub. by apply elem_of_list_to_set in Hx.
Qed.

Lemma filter_negb_length {A} (f : A -> bool) l :
  (length (List.filter f l) + length (List.filter (fun x => negb (f x)) l) = length l)%nat.
Proof. induction l as [|x l IH]; simpl; [done|]. destruct (f x); simpl; lia. Qed.

(** With fewer than [(m + 1) * r] nodes seized, at most [m] keys are lost. *)
Lemma survivors {K} (out : list (K * list string)) r m (seized : gset string) :
  Forall (fun kn => length kn.2 = r) out -> NoDup (concat out.*2) -> (0 < r)%nat ->
  (size seized < (m + 1) * r)%nat ->
  (length out <= m + length (List.filter (survives seized) out))%nat.
Proof.
  intros Hl Hnd Hr Hs. pose proof (lost_bound out r seized Hl Hnd).
  pose proof (filter_negb_length (survives seized) out). nia.
Qed.

(** ** Loading *)

(** What the loader guarantees of a placement. *)
Definition safe (p : Placement) : Prop :=
  1 <= rs_k p /\ 0 <= rs_m p /\ 1 <= replicas p /\ 1 <= shard_replicas p /\ encrypted_at_rest p = true.

Lemma _validate_safe t p u : _validate t p = Ok u -> safe p.
Proof.
  unfold _validate, safe.
  destruct (Z.ltb_spec (rs_k p) 1); [done|]. destruct (Z.ltb_spec (rs_m p) 0); [done|].
  destruct (Z.ltb_spec (replicas p) 1); [done|]. destruct (Z.ltb_spec (shard_replicas p) 1); [done|].
  destruct (encrypted_at_rest p); done.
Qed.

Lemma load_placement_safe t file p : load_placement t file = Ok p -> safe p.
Proof.
  unfold load_placement. intros E. apply bind_Ok_inv in E as (tiers0 & _ & E).
  apply bind_Ok_inv in E as (tier & _ & E). destruct (negb (truthy tier)); [done|].
  apply bind_Ok_inv in E as (known & _ & E). destruct known; [|done].
  destruct tier; try done. simpl in E. apply bind_Ok_inv in E as (spec & _ & E).
  apply bind_Ok_inv in E as (q & _ & E). apply bind_Ok_inv in E as (u & Hv & E).
  injection E as <-. by eapply _validate_safe.
Qed.

Lemma leb_refl_finite f : F64.is_finite f = true -> F64.leb f f = true.
Proof.
  unfold F64.leb, SFleb. destruct f as [s| | |s m e]; try done; intros _; simpl.
  rewrite Z.compare_refl. pose proof (Pos.compare_cont_refl m Eq) as Hm. destruct s; by rewrite Hm.
Qed.

Lemma truediv_finite a b f : py_truediv a b = Ok f -> F64.is_finite f = true.
Proof.
  unfold py_truediv. destruct b as [|b|b]; [done|..]; (destruct a as [|a|a]; [by intros [= <-]|..]);
    destruct (SFdiv_core_binary _ _ _ _ _ _) as [[q e] l];
    destruct (F64.is_finite (binary_round_aux _ _ _ _ _ _)) eqn:E; try done; by intros [= <-].
Qed.

(** ** Properties *)

(** Replication past half the mesh.  On distinct nodes with room for every
    copy, each shard gets [shard_replicas] nodes, all copies on different nodes
    of the mesh, and the leaf stays reconstructable after the seizure of any
    set of fewer than [(rs_m + 1) * shard_replicas] nodes. *)
Theorem dispersed_shards_survive nodes p :
  NoDup nodes -> safe p -> rs_n p * shard_replicas p <= Z.of_nat (length nodes) ->
  exists out, disperse_with_replicas nodes p = Ok out /\
    Z.of_nat (length out) = rs_n p /\ Forall (fun kn => Z.of_nat (length kn.2) = shard_replicas p) out /\
    NoDup (concat out.*2) /\ Forall (fun n => n ∈ nodes) (concat out.*2) /\
    forall seized : gset string, Z.of_nat (size seized) < (rs_m p + 1) * shard_replicas p ->
      durable (Z.of_nat (length (List.filter (survives seized) out))) p = true.
Proof.
  intros Hnd (Hk & Hm & _ & Hr & _) Hroom. unfold rs_n in *.
  assert (Hpos : 0 < (rs_k p + rs_m p) * shard_replicas p) by nia.
  destruct (build_tree_leaves nodes) as (t & Et & Hl & _); [intros ->; simpl in Hroom; lia|].
  unfold disperse_with_replicas. rewrite Et. cbn [mbind res_bind]. rewrite Hl. unfold rs_n.
  destruct (Z.ltb_spec (Z.of_nat (length nodes)) ((rs_k p + rs_m p) * shard_replicas p)); [lia|].
  destruct (stride_spec nodes _ (conj Hpos Hroom)) as (Es & _). rewrite Es. cbn [mbind res_bind].
  set (keys := map _ (py_range (rs_k p + rs_m p))).
  assert (Hlk : length keys = Z.to_nat (rs_k p + rs_m p)).
  { unfold keys, py_range. by rewrite length_map, length_seq. }
  destruct (place_keys_spec nodes _ (conj Hpos Hroom) keys (Z.to_nat (shard_replicas p)) 0)
    as (out & Eo & Hkeys & Hlen & Hc); [rewrite Hlk; nia|].
  exists out. rewrite Eo. assert (Hlo : length out = length keys) by (rewrite <- Hkeys; by rewrite length_fmap).
  assert (Hndc : NoDup (concat out.*2)) by (rewrite Hc; apply slots_NoDup; [lia|done|rewrite Hlk; nia]).
  split_and!; [done|lia| |done| |].
  - eapply Forall_impl; [exact Hlen|]. simpl. intros; lia.
  - rewrite Hc. apply Forall_forall. intros x Hx. apply list_elem_of_In, in_map_iff in Hx as (i & <- & Hi).
    apply in_seq in Hi. apply slot_node_elem; [lia|]. rewrite Hlk in Hi. nia.
  - intros seized Hs. unfold durable. apply Z.leb_le.
    pose proof (survivors out (Z.to_nat (shard_replicas p)) (Z.to_nat (rs_m p)) seized Hlen Hndc
      ltac:(lia) ltac:(nia)). lia.
Qed.

(** No forked truth, and reads that survive.  Two disjoint parts of a
    partition cannot both reach a write quorum, and losing no more shards than
    [max_seizable_nodes] leaves the state durable and readable. *)
Theorem partition_cannot_fork p r1 r2 seized :
  r1 + r2 <= replicas p -> seized <= max_seizable_nodes p ->
  write_consistent_under_partition r1 p && write_consistent_under_partition r2 p = false /\
  durable (rs_n p - seized) p && read_available_under_partition (rs_n p - seized) p = true.
Proof.
  unfold write_consistent_under_partition, durable, read_available_under_partition, max_seizable_nodes, rs_n.
  pose proof (Z.div_mod (replicas p) 2 ltac:(lia)). pose proof (Z.mod_pos_bound (replicas p) 2 ltac:(lia)).
  intros Hr Hs. split.
  - apply andb_false_iff. rewrite !Z.leb_gt. lia.
  - rewrite andb_true_iff, !Z.leb_le. lia.
Qed.

(** The runtime posture can only add resilience.  Whatever the posture file
    says, the placement that new writes use passed the fail-closed validation
    and its storage overhead is at least that of the declared floor. *)
Theorem runtime_placement_above_floor posture file floor p :
  load_placement None file = Ok floor -> load_runtime_placement posture file = Ok p ->
  safe p /\ forall fo op, durability_overhead floor = Ok fo -> durability_overhead p = Ok op ->
    F64.leb fo op = true.
Proof.
  intros Hf E. unfold load_runtime_placement in E. rewrite Hf in E. cbn [mbind res_bind] in E.
  assert (Hfloor : safe floor /\ forall fo op, durability_overhead floor = Ok fo ->
    durability_overhead floor = Ok op -> F64.leb fo op = true).
  { split; [by eapply load_placement_safe|]. intros fo op H1 H2. rewrite H1 in H2. injection H2 as <-.
    by eapply leb_refl_finite, truediv_finite. }
  destruct posture as [[| | | | | |d]|]; try (by injection E as <-).
  destruct (default PNone (assoc "tier" d)) as [| | | |[|c t]| |]; try (by injection E as <-).
  destruct (load_placement (Some (String c t)) file) as [chosen|e] eqn:Ec;
    [|destruct e; try done; by injection E as <-].
  apply bind_Ok_inv in E as (oc & Eoc & E). apply bind_Ok_inv in E as (ofl & Eofl & E).
  destruct (F64.leb ofl oc) eqn:Ele; injection E as <-; [|done].
  split; [by eapply load_placement_safe|]. intros fo op H1 H2. congruence.
Qed.

(** ** Witnesses *)

Definition demo_placement : Placement := mkPlacement 3 2 1 true 2.
Definition six : list string := ["a"; "b"; "c"; "d"; "e"; "f"]%string.

Lemma dispersed_shards_survive_witness :
  exists out, disperse_with_replicas six demo_placement = Ok out /\
    Z.of_nat (length out) = 3 /\ Forall (fun kn => Z.of_nat (length kn.2) = 2) out /\
    NoDup (concat out.*2) /\ Forall (fun n => n ∈ six) (concat out.*2) /\
    forall seized : gset string, Z.of_nat (size seized) < 4 ->
      durable (Z.of_nat (length (List.filter (survives seized) out))) demo_placement = true.
Proof.
  apply (dispersed_shards_survive six demo_placement).
  - repeat constructor; set_solver.
  - repeat split; discriminate.
  - discriminate.
Defined.

Lemma partition_cannot_fork_witness :
  write_consistent_under_partition 1 demo_placement && write_consistent_under_partition 2 demo_placement = false /\
  durable (3 - 1) demo_placement && read_available_under_partition (3 - 1) demo_placement = true.
Proof. apply (partition_cannot_fork demo_placement 1 2 1); discriminate. Defined.

Definition demo_tiers : pyval :=
  PDict [("default_tier", PStr "elevated");
         ("tiers", PDict [("baseline", PDict [("rs_k", PInt 6); ("rs_m", PInt 1)]);
                          ("elevated", PDict [("rs_k", PInt 6); ("rs_m", PInt 3)]);
                          ("siege", PDict [("rs_k", PInt 6); ("rs_m", PInt 6); ("shard_replicas", PInt 2)])])]%string.

Lemma runtime_placement_above_floor_witness :
  exists floor p, load_placement None demo_tiers = Ok floor /\
    load_runtime_placement (Some (PDict [("tier"%string, PStr "siege")])) demo_tiers = Ok p /\ p <> floor /\
    safe p /\ forall fo op, durability_overhead floor = Ok fo -> durability_overhead p = Ok op ->
      F64.leb fo op = true.
Proof.
  exists (mkPlacement 3 6 3 true 1), (mkPlacement 3 6 6 true 2).
  split; [vm_compute; reflexivity|]. split; [vm_compute; reflexivity|]. split; [discriminate|].
  apply (runtime_placement_above_floor (Some (PDict [("tier"%string, PStr "siege")])) demo_tiers);
    vm_compute; reflexivity.
Defined.
