(* ===== verification/MeshThreat.v ===== *)
(** * The adaptive threat posture of the mesh

    Models [automation/vantage_reports.py] (what a node reports, and the
    collection of the reports), [automation/mesh_threat.py] (the quorum over the
    reports, the levels, the control step, the choice of a tier by expected value)
    and [detect_mesh_threat] of [automation/detectors.py], which runs the step on
    the posture file that [StorageResilience.load_runtime_placement] reads.

    Files are the value [json.loads] makes of them, or the exception reading them.
    A sort compares floats that are numbers; reports that are not are refused by
    the collection. *)

From Stdlib Require Import SpecFloat.
From S2P Require Import Prelude PyVal FloatOrder PyText Json Lazerus StorageResilience.
Local Open Scope string_scope.

(** ** Levels *)

Definition LEVELS : list string := ["calm"; "elevated"; "hostile"].

Fixpoint index_of (s : string) (l : list string) : option nat :=
  match l with
  | [] => None
  | x :: l => if String.eqb x s then Some O else S <$> index_of s l
  end.

Definition _rank (level : string) : res nat := of_option (ValueError "tuple.index(x): x not in tuple") (index_of level LEVELS).

(** ** Signals *)

Record VantageReport := mkVantage {
  vantage : string;
  r_unreachable : spec_float;
  anomalies_seen : Z;
  partition_suspected : bool
}.

Record ThreatSignals := mkSignals {
  unreachable_fraction : spec_float;
  anomalies : Z;
  partition : bool;
  vantages : nat
}.

Definition half_of (n : nat) : nat := Nat.div n 2.

(** [statistics.median] of floats; of integers it is an integer, or the mean of
    the middle two as a float. *)
Definition median_float (l : list spec_float) : res spec_float :=
  let d := py_sort F64.ltb l in
  let n := length d in
  hi ← of_option IndexError (d !! half_of n);
  if Nat.odd n then Ok hi
  else lo ← of_option IndexError (d !! (half_of n - 1)%nat); Ok (F64.div (F64.add lo hi) (F64.of_Z 2)).

Definition median_int (l : list Z) : res Z :=
  let d := py_sort Z.ltb l in
  let n := length d in
  hi ← of_option IndexError (d !! half_of n);
  if Nat.odd n then Ok hi
  else lo ← of_option IndexError (d !! (half_of n - 1)%nat); m ← py_truediv (lo + hi) 2; trunc m.

Definition blind : ThreatSignals := mkSignals (F64.of_Z 1) (10 ^ 9) true 0.

Definition suspects (reports : list VantageReport) : nat := length (List.filter partition_suspected reports).

Definition aggregate_vantages (reports : list VantageReport) (quorum : Z) : res ThreatSignals :=
  match reports with
  | [] => Ok blind
  | _ =>
    if (Z.of_nat (length reports) <? quorum)%Z then Ok blind else
    unreachable ← median_float (map r_unreachable reports);
    seen ← median_int (map anomalies_seen reports);
    Ok (mkSignals unreachable seen (Nat.ltb (length reports) (2 * suspects reports)) (length reports))
  end.

(** ** Policy *)

Record ThreatPolicy := mkThreatPolicy {
  tier_by_level : list (string * pyval);
  elevated_min_unreachable : spec_float;
  elevated_min_anomalies : Z;
  hostile_min_unreachable : spec_float;
  hostile_min_anomalies : Z;
  deescalate_dwell : Z
}.

Definition bad_tiers : exn := ValueError "threat_policy.tier_by_level must map exactly ('calm', 'elevated', 'hostile')".

(** [dict(tier_by_level)], once its keys are the levels. *)
Definition read_tiers (v : pyval) : res (list (string * pyval)) :=
  match v with
  | PDict d =>
    if forallb (fun k => existsb (String.eqb k) LEVELS) d.*1 && forallb (fun k => assoc_mem k d) LEVELS then Ok d else Raise bad_tiers
  | PList l => if forallb hashable l then Raise bad_tiers else Raise TypeError
  | PStr _ => Raise bad_tiers
  | _ => Raise TypeError
  end.

Section threat.
Context `{FloatRepr}.

Definition get_or_empty (v : pyval) (k : string) : res pyval := x ← py_get v k PNone; Ok (py_or x (PDict [])).

Definition load_threat_policy (file : pyval) : res ThreatPolicy :=
  data ← get_or_empty (py_or file (PDict [])) "threat_policy";
  tiers0 ← get_or_empty data "tier_by_level";
  tiers ← read_tiers tiers0;
  esc ← get_or_empty data "escalate_if";
  el ← get_or_empty esc "elevated";
  eu0 ← py_get el "min_unreachable" (PFloat (F64.of_dec 10 2)); eu ← py_float eu0;
  ea0 ← py_get el "min_anomalies" (PInt 1); ea ← py_int_of ea0;
  ho ← get_or_empty esc "hostile";
  hu0 ← py_get ho "min_unreachable" (PFloat (F64.of_dec 25 2)); hu ← py_float hu0;
  ha0 ← py_get ho "min_anomalies" (PInt 3); ha ← py_int_of ha0;
  dw0 ← py_get data "deescalate_dwell" (PInt 6); dw ← py_int_of dw0;
  Ok (mkThreatPolicy tiers eu ea hu ha dw).

Definition _raw_level (s : ThreatSignals) (p : ThreatPolicy) : string :=
  if Nat.eqb (vantages s) 0 then "hostile"
  else if partition s || F64.leb (hostile_min_unreachable p) (unreachable_fraction s) || (hostile_min_anomalies p <=? anomalies s)%Z
  then "hostile"
  else if F64.leb (elevated_min_unreachable p) (unreachable_fraction s) || (elevated_min_anomalies p <=? anomalies s)%Z
  then "elevated"
  else "calm".

(** ** The assessment *)

Inductive actuation := auto_escalate | hold | propose_deescalate.

Definition actuation_text (a : actuation) : string :=
  match a with auto_escalate => "auto_escalate" | hold => "hold" | propose_deescalate => "propose_deescalate" end.

Record ThreatAssessment := mkThreat {
  a_level : string;
  a_tier : pyval;
  a_actuation : actuation;
  proposed_level : option string;
  proposed_tier : option pyval;
  a_reasons : list string
}.

Definition tier_of (p : ThreatPolicy) (level : string) : res pyval := of_option (KeyError level) (assoc level (tier_by_level p)).

Definition signal_text (raw : string) (s : ThreatSignals) : string :=
  "raw=" +:+ raw +:+ " (unreachable=" +:+ fmt_fixed 2 (unreachable_fraction s) +:+ ", anomalies=" +:+ pretty (anomalies s) +:+
  ", partition=" +:+ (if partition s then "True" else "False") +:+ ", vantages=" +:+ pretty (vantages s) +:+ ")".

Definition assess_threat (s : ThreatSignals) (previous_level : string) (calm_dwell : Z) (p : ThreatPolicy) : res ThreatAssessment :=
  let raw := _raw_level s p in
  let why := signal_text raw s in
  rr ← _rank raw; rp ← _rank previous_level;
  if Nat.ltb rp rr then
    tier ← tier_of p raw;
    Ok (mkThreat raw tier auto_escalate None None
          [why; "ESCALATE " +:+ previous_level +:+ "->" +:+ raw +:+ " (auto: more resilience is always safe)"])
  else if Nat.ltb rr rp then
    if (deescalate_dwell p <=? calm_dwell)%Z then
      tier ← tier_of p previous_level; lower ← tier_of p raw;
      Ok (mkThreat previous_level tier propose_deescalate (Some raw) (Some lower)
            [why; "PROPOSE de-escalate " +:+ previous_level +:+ "->" +:+ raw +:+ " (calm " +:+ pretty calm_dwell +:+ ">=" +:+
                  pretty (deescalate_dwell p) +:+ " epochs; reviewed)"])
    else
      tier ← tier_of p previous_level;
      Ok (mkThreat previous_level tier hold None None
            [why; "HOLD " +:+ previous_level +:+ " (calm only " +:+ pretty calm_dwell +:+ "<" +:+ pretty (deescalate_dwell p) +:+
                  " epochs — do not drop resilience yet)"])
  else
    tier ← tier_of p previous_level; Ok (mkThreat previous_level tier hold None None [why]).

(** ** The control step *)

Record MeshThreatState := mkState { level : string; calm_dwell : Z }.

Definition step (reports : list VantageReport) (st : MeshThreatState) (p : ThreatPolicy) (quorum : Z) :
    res (MeshThreatState * ThreatAssessment) :=
  sig ← aggregate_vantages reports quorum;
  a ← assess_threat sig (level st) (calm_dwell st) p;
  match a_actuation a with
  | auto_escalate => Ok (mkState (a_level a) 0, a)
  | propose_deescalate => Ok (mkState (default "" (proposed_level a)) 0, a)
  | hold =>
    rr ← _rank (_raw_level sig p); rl ← _rank (level st);
    Ok (mkState (level st) (if Nat.ltb rr rl then calm_dwell st + 1 else 0)%Z, a)
  end.

(** ** A tier by expected value *)

(** What the choice asks of a placement. *)
Record tier_model := mkTierModel { survival_probability : spec_float -> res spec_float; overhead_of : res spec_float }.

Record TierChoice := mkChoice { t_tier : string; expected_value : spec_float; p_survive : spec_float; t_cost : spec_float; t_overhead : spec_float }.

(** [a < b] on pairs of floats. *)
Definition pair_ltb (a b : TierChoice) : bool :=
  if F64.eqb (expected_value a) (expected_value b) then
    if F64.eqb (t_overhead a) (t_overhead b) then false else F64.ltb (t_overhead a) (t_overhead b)
  else F64.ltb (expected_value a) (expected_value b).

(** [l.sort(reverse=True)] keeps the order of equal elements. *)
Definition sort_reverse {A} (ltb : A -> A -> bool) (l : list A) : list A := rev (py_sort ltb (rev l)).

Definition tier_choice (threat_frac value_of_state unit_storage_cost : spec_float) (np : string * tier_model) : res TierChoice :=
  p ← survival_probability np.2 threat_frac;
  overhead ← overhead_of np.2;
  let cost := F64.mul overhead unit_storage_cost in
  Ok (mkChoice np.1 (F64.sub (F64.mul value_of_state p) cost) p cost overhead).

Definition optimal_tier (placements : list (string * tier_model)) (threat_frac value_of_state unit_storage_cost : spec_float) :
    res (string * list TierChoice) :=
  cs ← res_map (tier_choice threat_frac value_of_state unit_storage_cost) placements;
  let ranked := sort_reverse pair_ltb cs in
  match ranked with [] => Raise IndexError | c :: _ => Ok (t_tier c, ranked) end.

(** ** Reports of the nodes *)

Definition build_report (now vantage : string) (peers_total peers_unreachable anomalies_seen : Z) (partition_suspected : option bool) : res dict :=
  if ((peers_total <? 0) || (peers_unreachable <? 0) || (anomalies_seen <? 0))%Z then Raise (ValueError "counts must be non-negative")
  else if (peers_total <? peers_unreachable)%Z then Raise (ValueError "peers_unreachable cannot exceed peers_total")
  else
    frac ← (if (peers_total =? 0)%Z then Ok F64.zero else py_truediv peers_unreachable peers_total);
    let suspected := match partition_suspected with
                     | Some b => b
                     | None => if (peers_total =? 0)%Z then false else (peers_total / 2 <? peers_unreachable)%Z
                     end in
    Ok [("vantage", PStr vantage); ("unreachable_fraction", PFloat (py_round 6 frac)); ("anomalies_seen", PInt anomalies_seen);
        ("partition_suspected", PBool suspected); ("observed_at", PStr now)].

(** A probe that raises counts as unreachable. *)
Definition unreachable_peers (reach : string -> res pyval) (peers : list string) : nat :=
  length (List.filter (fun p => match reach p with Ok v => negb (truthy v) | Raise _ => true end) peers).

Definition probe_and_report (now vantage : string) (peers : list string) (reach : string -> res pyval) (anomalies_seen : Z) : res dict :=
  build_report now vantage (Z.of_nat (length peers)) (Z.of_nat (unreachable_peers reach peers)) anomalies_seen None.

Definition valid_fraction (uf : pyval) : res bool :=
  match uf with
  | PInt _ | PFloat _ => f ← py_float uf; Ok (F64.leb F64.zero f && F64.leb f (F64.of_Z 1))
  | _ => Ok false
  end.

(** The error of a malformed report. *)
Definition _valid_report (r : pyval) : res (option string) :=
  match r with
  | PDict r =>
    match default PNone (assoc "vantage" r) with
    | PStr (String _ _) =>
      let uf := default PNone (assoc "unreachable_fraction" r) in
      good ← valid_fraction uf;
      if negb good then Ok (Some ("unreachable_fraction: " +:+ py_repr uf +:+ " not a number in [0,1]")) else
      let an := default (PInt 0) (assoc "anomalies_seen" r) in
      match an with
      | PInt z =>
        if (z <? 0)%Z then Ok (Some ("anomalies_seen: " +:+ py_repr an +:+ " not a non-negative int"))
        else match default (PBool false) (assoc "partition_suspected" r) with
             | PBool _ => Ok None
             | _ => Ok (Some "partition_suspected: not a bool")
             end
      | _ => Ok (Some ("anomalies_seen: " +:+ py_repr an +:+ " not a non-negative int"))
      end
    | _ => Ok (Some "vantage: missing or not a string")
    end
  | v => Ok (Some ("not an object (" +:+ type_name v +:+ ")"))
  end.

Definition is_read_error (e : exn) : bool := match e with FileNotFound _ | ValueError _ | JSONDecodeError => true | _ => false end.

Record gathered := mkGathered { g_reports : list pyval; g_rejected : list pyval; g_seen : list string }.

Definition refuse (g : gathered) (entry : dict) : gathered := mkGathered (g_reports g) (g_rejected g ++ [PDict entry])%list (g_seen g).

Definition collect_report (exc_text : exn -> string) (g : gathered) (pf : string * res pyval) : res gathered :=
  let (path, file) := pf in
  match file with
  | Raise e => if is_read_error e then Ok (refuse g [("path", PStr path); ("reason", PStr ("unreadable: " +:+ exc_text e))]) else Raise e
  | Ok raw =>
    err ← _valid_report raw;
    match err with
    | Some e => Ok (refuse g [("path", PStr path); ("reason", PStr e)])
    | None =>
      match raw with
      | PDict d =>
        match assoc "vantage" d with
        | Some (PStr v) =>
          Ok (if bool_decide (v ∈ g_seen g) then
                refuse g [("path", PStr path); ("vantage", PStr v); ("reason", PStr "duplicate vantage this round")]
              else mkGathered (g_reports g ++ [raw])%list (g_rejected g) (v :: g_seen g))
        | _ => Raise TypeError
        end
      | _ => Raise TypeError
      end
    end
  end.

Definition collect_reports (exc_text : exn -> string) (now : string) (files : list (string * res pyval)) (quorum : Z) : res dict :=
  g ← res_fold (collect_report exc_text) (mkGathered [] [] []) files;
  Ok [("quorum", PInt quorum); ("reports", PList (g_reports g)); ("rejected", PList (g_rejected g)); ("collected_at", PStr now)].

(** ** The detector *)

(** A report as the detector reads it; [None] when it is dropped. *)
Definition read_report (r : pyval) : res (option VantageReport) :=
  match r with
  | PDict d =>
    let parsed :=
      u ← py_float (default (PFloat F64.zero) (assoc "unreachable_fraction" d));
      a ← py_int_of (default (PInt 0) (assoc "anomalies_seen" d));
      Ok (mkVantage (py_str (default (PStr "?") (assoc "vantage" d))) u a (truthy (default (PBool false) (assoc "partition_suspected" d)))) in
    match parsed with
    | Ok v => Ok (Some v)
    | Raise TypeError | Raise (ValueError _) => Ok None
    | Raise e => Raise e
    end
  | _ => Ok None
  end.

Definition prior_state (file : res pyval) : res MeshThreatState :=
  match (prev ← file;
         l ← py_get prev "level" (PStr "calm");
         c ← py_get prev "calm_dwell" (PInt 0);
         dwell ← py_int_of c;
         Ok (mkState (py_str l) dwell)) with
  | Ok st => Ok st
  | Raise e => if is_read_error e || bool_decide (e = TypeError) then Ok (mkState "calm" 0) else Raise e
  end.

Definition state_doc (now : string) (st : MeshThreatState) (a : ThreatAssessment) : pyval :=
  PDict [("level", PStr (level st)); ("calm_dwell", PInt (calm_dwell st));
         ("tier", match a_actuation a with propose_deescalate => default PNone (proposed_tier a) | _ => a_tier a end);
         ("actuation", PStr (actuation_text (a_actuation a))); ("updated_at", PStr now)].

Definition transition_beacon (now : string) (prior new : MeshThreatState) (a : ThreatAssessment) : dict :=
  [("kind_class", PStr "deploy_regression"); ("system", PStr "mesh::threat-posture");
   ("detail", PDict [("condition", PStr (match a_actuation a with
                                         | auto_escalate => "threat ESCALATED — harder placement tier auto-applied"
                                         | _ => "threat cleared — de-escalation applied (reviewed direction)"
                                         end));
                     ("from_level", PStr (level prior)); ("to_level", PStr (level new)); ("tier", PStr (level new));
                     ("reasons", PList (map PStr (a_reasons a)))]);
   ("observed_at", PStr now)].

(** The posture file after the run, and the beacons. *)
Definition detect_mesh_threat (now : string) (policy : option ThreatPolicy) (reports_file state_file : res pyval) :
    res (res pyval * list dict) :=
  match policy, reports_file with
  | None, _ => Ok (state_file, [])
  | Some _, Raise e => if is_read_error e then Ok (state_file, []) else Raise e
  | Some p, Ok (PDict doc) =>
    match default PNone (assoc "reports" doc) with
    | PList (r :: rs) =>
      quorum ← py_int_of (py_or (default (PInt 3) (assoc "quorum" doc)) (PInt 3));
      read ← res_map read_report (r :: rs);
      let reports := omap id read in
      match reports with
      | [] => Ok (state_file, [])
      | _ =>
        prior ← prior_state state_file;
        sa ← step reports prior p quorum;
        let (new, a) := (sa : MeshThreatState * ThreatAssessment) in
        Ok (Ok (state_doc now new a), if String.eqb (level new) (level prior) then [] else [transition_beacon now prior new a])
      end
    | _ => Ok (state_file, [])
    end
  | Some _, Ok _ => Ok (state_file, [])
  end.
End threat.

(** ** Medians follow the majority *)

Lemma odd_half n : Nat.odd n = true -> n = (2 * half_of n + 1)%nat.
Proof. unfold half_of. intros [k ->]%Nat.odd_spec. replace (2 * k + 1)%nat with (1 + k * 2)%nat by lia.
  rewrite Nat.div_add by done. simpl. lia. Qed.

Lemma count_perm {A} (P : A -> bool) l l' : l ≡ₚ l' -> length (List.filter P l) = length (List.filter P l').
Proof. intros Hp. by apply Permutation_length, lfilter_perm. Qed.

(** The middle of an odd number of sorted values. *)
Lemma majority_up {A} (R : A -> A -> Prop) (P : A -> bool) d l x :
  StronglySorted R d -> d ≡ₚ l -> (forall a b, R a b -> P a = true -> P b = true) -> Nat.odd (length l) = true ->
  d !! half_of (length d) = Some x -> (length l < 2 * length (List.filter P l))%nat -> P x = true.
Proof.
  intros Hs Hp HP Ho Hx Hc. eapply sorted_index_up; [exact Hs|exact HP|exact Hx|].
  rewrite (count_perm P _ _ Hp). rewrite Hp in *. apply odd_half in Ho. lia.
Qed.

Lemma majority_down {A} (R : A -> A -> Prop) (P : A -> bool) d l x :
  StronglySorted R d -> d ≡ₚ l -> (forall a b, R a b -> P b = true -> P a = true) -> Nat.odd (length l) = true ->
  d !! half_of (length d) = Some x -> (length l < 2 * length (List.filter P l))%nat -> P x = true.
Proof.
  intros Hs Hp HP Ho Hx Hc. eapply sorted_index_down; [exact Hs|exact HP|exact Hx|].
  rewrite (count_perm P _ _ Hp). rewrite Hp in *. apply odd_half in Ho. lia.
Qed.

Lemma median_float_odd l m :
  median_float l = Ok m -> Nat.odd (length l) = true -> py_sort F64.ltb l !! half_of (length (py_sort F64.ltb l)) = Some m.
Proof.
  unfold median_float. intros E Ho. apply bind_Ok_inv in E as (hi & Eh & E). rewrite py_sort_length in E at 1. rewrite Ho in E.
  injection E as <-. destruct (_ !! _); [|done]. by injection Eh as ->.
Qed.

Lemma median_int_odd l m :
  median_int l = Ok m -> Nat.odd (length l) = true -> py_sort Z.ltb l !! half_of (length (py_sort Z.ltb l)) = Some m.
Proof.
  unfold median_int. intros E Ho. apply bind_Ok_inv in E as (hi & Eh & E). rewrite py_sort_length in E at 1. rewrite Ho in E.
  injection E as <-. destruct (_ !! _); [|done]. by injection Eh as ->.
Qed.

Lemma sorted_ints l : StronglySorted Z.le (py_sort Z.ltb l).
Proof.
  eapply StronglySorted_weaken; [|apply py_sort_StronglySorted].
  - unfold not_after. intros a b Hab. by apply Z.ltb_ge.
  - unfold not_after. intros a b c. rewrite !Z.ltb_ge. lia.
  - intros a b. rewrite Z.ltb_lt, Z.ltb_ge. lia.
Qed.

Lemma count_map {A B} (f : A -> B) (P : B -> bool) l : length (List.filter P (map f l)) = length (List.filter (fun x => P (f x)) l).
Proof. induction l as [|x l IH]; [done|]. simpl. destruct (P (f x)); simpl; by rewrite IH. Qed.

Section byzantine.
Variables (reports : list VantageReport) (quorum : Z) (sig : ThreatSignals).
Hypothesis aggregated : aggregate_vantages reports quorum = Ok sig.
Hypothesis enough : reports <> [] /\ (quorum <= Z.of_nat (length reports))%Z.
Hypothesis odd_reports : Nat.odd (length reports) = true.
Hypothesis numbers : Forall (fun r => is_nan (r_unreachable r) = false) reports.

Definition most (P : VantageReport -> bool) : Prop := (length reports < 2 * length (List.filter P reports))%nat.

Lemma aggregated_inv :
  median_float (map r_unreachable reports) = Ok (unreachable_fraction sig) /\ median_int (map anomalies_seen reports) = Ok (anomalies sig) /\
  partition sig = Nat.ltb (length reports) (2 * suspects reports) /\ vantages sig = length reports.
Proof.
  destruct enough as [Hne Hq]. revert aggregated. unfold aggregate_vantages. destruct reports as [|r rs]; [done|].
  destruct (Z.ltb_spec (Z.of_nat (length (r :: rs))) quorum); [lia|]. intros E.
  apply bind_Ok_inv in E as (u & Eu & E). apply bind_Ok_inv in E as (a & Ea & [= <-]). done.
Qed.

Lemma median_numbers : Forall (fun f => is_nan f = false) (map r_unreachable reports).
Proof. by apply Forall_map. Qed.

Lemma most_unreachable t : most (fun r => F64.leb t (r_unreachable r)) -> F64.leb t (unreachable_fraction sig) = true.
Proof.
  destruct aggregated_inv as (Hm & _). intros Hc. apply median_float_odd in Hm; [|by rewrite length_map].
  refine (majority_up _ (F64.leb t) _ _ _ (sorted_floats _ median_numbers) (py_sort_perm _ _) _ _ Hm _).
  - intros a b Hab Ha. by eapply leb_trans.
  - by rewrite length_map.
  - rewrite length_map, count_map. exact Hc.
Qed.

Lemma most_reachable t : most (fun r => F64.ltb (r_unreachable r) t) -> F64.ltb (unreachable_fraction sig) t = true.
Proof.
  destruct aggregated_inv as (Hm & _). intros Hc. apply median_float_odd in Hm; [|by rewrite length_map].
  refine (majority_down _ (fun x => F64.ltb x t) _ _ _ (sorted_floats _ median_numbers) (py_sort_perm _ _) _ _ Hm _).
  - intros a b Hab Ha. by eapply leb_ltb_trans.
  - by rewrite length_map.
  - rewrite length_map, count_map. exact Hc.
Qed.

Lemma most_anomalous t : most (fun r => (t <=? anomalies_seen r)%Z) -> (t <=? anomalies sig)%Z = true.
Proof.
  destruct aggregated_inv as (_ & Hm & _). intros Hc. apply median_int_odd in Hm; [|by rewrite length_map].
  refine (majority_up _ (Z.leb t) _ _ _ (sorted_ints _) (py_sort_perm _ _) _ _ Hm _).
  - intros a b. rewrite !Z.leb_le. lia.
  - by rewrite length_map.
  - rewrite length_map, count_map. exact Hc.
Qed.

Lemma most_clean t : most (fun r => (anomalies_seen r <? t)%Z) -> (anomalies sig <? t)%Z = true.
Proof.
  destruct aggregated_inv as (_ & Hm & _). intros Hc. apply median_int_odd in Hm; [|by rewrite length_map].
  refine (majority_down _ (fun x => x <? t)%Z _ _ _ (sorted_ints _) (py_sort_perm _ _) _ _ Hm _).
  - intros a b. rewrite !Z.ltb_lt. lia.
  - by rewrite length_map.
  - rewrite length_map, count_map. exact Hc.
Qed.

Lemma most_imp (P Q : VantageReport -> bool) : (forall r, P r = true -> Q r = true) -> most P -> most Q.
Proof.
  unfold most. intros HPQ Hm. enough (length (List.filter P reports) <= length (List.filter Q reports))%nat by lia.
  clear -HPQ. induction reports as [|r l IH]; [done|]. simpl. specialize (HPQ r). destruct (P r), (Q r); simpl; lia || by specialize (HPQ eq_refl).
Qed.
End byzantine.

(** ** The control step *)

Section control.
Context `{FloatRepr}.

(** A level at least as severe as another. *)
Definition at_least_as (hi lo : string) : Prop := exists a b, _rank lo = Ok a /\ _rank hi = Ok b /\ (a <= b)%nat.
Definition below (lo hi : string) : Prop := exists a b, _rank lo = Ok a /\ _rank hi = Ok b /\ (a < b)%nat.

Lemma below_levels lo hi : below lo hi -> at_least_as lo lo /\ at_least_as hi hi /\ at_least_as hi lo.
Proof. intros (x & y & Hx & Hy & Hl). unfold at_least_as. split_and!; repeat eexists; eauto; lia. Qed.

Lemma not_below_at_least lo hi : below lo hi -> ~ at_least_as lo hi.
Proof. intros (x & y & Hx & Hy & Hl) (x' & y' & Hx' & Hy' & Hl'). rewrite Hx in Hy'. rewrite Hy in Hx'. simplify_eq. lia. Qed.

(** What one step does, by the raw level of its reports. *)
Lemma control_step_inv reports st p quorum st' a :
  step reports st p quorum = Ok (st', a) ->
  exists sig, aggregate_vantages reports quorum = Ok sig /\
    let raw := _raw_level sig p in
    (below (level st) raw /\ st' = mkState raw 0 /\ a_actuation a = auto_escalate /\ tier_of p raw = Ok (a_tier a)) \/
    (below raw (level st) /\ (deescalate_dwell p <= calm_dwell st)%Z /\ st' = mkState raw 0 /\ a_actuation a = propose_deescalate /\
       exists t, proposed_tier a = Some t /\ tier_of p raw = Ok t) \/
    (below raw (level st) /\ (calm_dwell st < deescalate_dwell p)%Z /\ st' = mkState (level st) (calm_dwell st + 1) /\
       a_actuation a = hold /\ tier_of p (level st) = Ok (a_tier a)) \/
    (at_least_as (level st) raw /\ at_least_as raw (level st) /\ st' = mkState (level st) 0 /\ a_actuation a = hold /\
       tier_of p (level st) = Ok (a_tier a)).
Proof.
  unfold step. intros E. apply bind_Ok_inv in E as (sig & Es & E). apply bind_Ok_inv in E as (a0 & Ea & E).
  exists sig. split; [done|]. cbv zeta. unfold below, at_least_as. unfold assess_threat in Ea.
  apply bind_Ok_inv in Ea as (rr & Hrr & Ea). apply bind_Ok_inv in Ea as (rp & Hrp & Ea).
  destruct (Nat.ltb_spec rp rr) as [Hlt|Hge].
  { apply bind_Ok_inv in Ea as (t & Ht & [= <-]). injection E as <- <-. left. by eauto 10. }
  destruct (Nat.ltb_spec rr rp) as [Hlt|Hge2].
  - destruct (Z.leb_spec (deescalate_dwell p) (calm_dwell st)) as [Hd|Hd].
    + apply bind_Ok_inv in Ea as (t & Ht & Ea). apply bind_Ok_inv in Ea as (lower & Hl & [= <-]). injection E as <- <-.
      right. left. split_and!; [by eauto|done..|by eauto].
    + apply bind_Ok_inv in Ea as (t & Ht & [= <-]). cbn [a_actuation] in E. rewrite Hrr, Hrp in E. cbn [mbind res_bind] in E.
      rewrite (proj2 (Nat.ltb_lt rr rp) Hlt) in E. injection E as <- <-. right. right. left. split_and!; [by eauto|done..].
  - apply bind_Ok_inv in Ea as (t & Ht & [= <-]). cbn [a_actuation] in E. rewrite Hrr, Hrp in E. cbn [mbind res_bind] in E.
    rewrite (proj2 (Nat.ltb_ge rr rp) Hge2) in E. injection E as <- <-. right. right. right. split_and!; [by eauto|by eauto|done..].
Qed.

Lemma hostile_top l : at_least_as l "hostile" -> l = "hostile".
Proof.
  intros (x & y & [= <-] & Hy & Hl). unfold _rank, LEVELS in Hy. cbn [index_of] in Hy.
  destruct (String.eqb_spec "calm" l); [by cbn in Hy; injection Hy as <-; lia|]. destruct (String.eqb_spec "elevated" l); [by cbn in Hy; injection Hy as <-; lia|].
  by destruct (String.eqb_spec "hostile" l).
Qed.

(** The level in force after a step covers what was sensed. *)
Lemma step_covers reports st p quorum st' a sig :
  step reports st p quorum = Ok (st', a) -> aggregate_vantages reports quorum = Ok sig -> at_least_as (level st') (_raw_level sig p).
Proof.
  intros E Es. apply control_step_inv in E as (sig' & Es' & Hc). rewrite Es in Es'. injection Es' as <-. cbv zeta in Hc.
  destruct Hc as [(Hb & -> & _)|[(Hb & _ & -> & _)|[(Hb & _ & -> & _)|(Hl & _ & -> & _)]]]; cbn [level];
    by destruct (below_levels _ _ Hb) as (? & ? & ?) || done.
Qed.

(** *** Runs of the controller *)

(** A run with its history, latest first: what was sensed, under which level. *)
Inductive runs (p : ThreatPolicy) (quorum : Z) (s0 : MeshThreatState) : list (string * string) -> MeshThreatState -> Prop :=
| runs_start : runs p quorum s0 [] s0
| runs_step hist st reports sig st' a :
    runs p quorum s0 hist st -> aggregate_vantages reports quorum = Ok sig -> step reports st p quorum = Ok (st', a) ->
    runs p quorum s0 ((_raw_level sig p, level st) :: hist) st'.

(** The dwell counts the latest rounds that sensed less than the level in force. *)
Lemma runs_dwell p quorum s0 hist st :
  calm_dwell s0 = 0%Z -> runs p quorum s0 hist st ->
  (0 <= calm_dwell st)%Z /\ (Z.to_nat (calm_dwell st) <= length hist)%nat /\
  Forall (fun e : string * string => e.2 = level st /\ below e.1 (level st)) (take (Z.to_nat (calm_dwell st)) hist).
Proof.
  intros H0. induction 1 as [|hist st reports sig st' a _ (IH1 & IH2 & IH3) Es E]; [rewrite H0; split_and!; simpl; [done|lia|constructor]|].
  apply control_step_inv in E as (sig' & Es' & Hc). rewrite Es in Es'. injection Es' as <-. cbv zeta in Hc.
  destruct Hc as [(_ & -> & _)|[(_ & _ & -> & _)|[(Hb & _ & -> & _)|(_ & _ & -> & _)]]]; cbn [calm_dwell level];
    try (split_and!; simpl; [done|lia|constructor]).
  replace (Z.to_nat (calm_dwell st + 1)) with (S (Z.to_nat (calm_dwell st))) by lia. split_and!; simpl; [lia|lia|]. by constructor.
Qed.

(** ** Properties *)

(** C15: resilience is raised at once and lowered only after a sustained calm.  In
    every run of the controller from a state without dwell, the level in force
    after a round covers what the round sensed, so a blind round is hostile; and
    a round that lowers the level follows at least [deescalate_dwell] rounds in a
    row that all held that level and all sensed less. *)
Theorem drop_needs_dwell p quorum s0 hist st reports sig st' a :
  calm_dwell s0 = 0%Z -> runs p quorum s0 hist st -> aggregate_vantages reports quorum = Ok sig ->
  step reports st p quorum = Ok (st', a) ->
  at_least_as (level st') (_raw_level sig p) /\ (vantages sig = 0%nat -> level st' = "hostile") /\
  (below (level st') (level st) -> (0 <= deescalate_dwell p)%Z ->
     (Z.to_nat (deescalate_dwell p) <= length hist)%nat /\
     Forall (fun e : string * string => e.2 = level st /\ below e.1 (level st)) (take (Z.to_nat (deescalate_dwell p)) hist)).
Proof.
  intros H0 Hr Es E. pose proof (step_covers _ _ _ _ _ _ _ E Es) as Hcov. split; [exact Hcov|].
  destruct (runs_dwell _ _ _ _ _ H0 Hr) as (Hd & Hl & HF). split.
  - intros Hv. unfold _raw_level in Hcov. rewrite Hv in Hcov. by apply hostile_top.
  - intros Hb Hp. assert (deescalate_dwell p <= calm_dwell st)%Z as Hdw.
    { apply control_step_inv in E as (sig' & _ & Hc). cbv zeta in Hc. apply not_below_at_least in Hb as Hn.
      destruct Hc as [(Hu & -> & _)|[(_ & ? & _)|[(Hu & _ & -> & _)|(Hu & _ & -> & _)]]]; cbn [level] in *; [|done|..]; destruct Hn.
      - by apply below_levels in Hu as (_ & _ & ?).
      - by apply below_levels in Hu as (_ & ? & _).
      - destruct Hu as (x & y & _ & Hy & _). by exists y, y. }
    split; [lia|]. apply (Forall_take _ (Z.to_nat (deescalate_dwell p))) in HF. rewrite take_take in HF.
    by replace (Z.to_nat (deescalate_dwell p) `min` Z.to_nat (calm_dwell st))%nat with (Z.to_nat (deescalate_dwell p)) in HF by lia.
Qed.

(** A report that asks for nothing, and one that asks for the hardest level. *)
Definition quiet (p : ThreatPolicy) (r : VantageReport) : bool :=
  negb (partition_suspected r) && F64.ltb (r_unreachable r) (elevated_min_unreachable p) &&
  F64.ltb (r_unreachable r) (hostile_min_unreachable p) && (anomalies_seen r <? elevated_min_anomalies p)%Z &&
  (anomalies_seen r <? hostile_min_anomalies p)%Z.

Lemma quiet_calm p reports quorum sig :
  aggregate_vantages reports quorum = Ok sig -> reports <> [] /\ (quorum <= Z.of_nat (length reports))%Z ->
  Nat.odd (length reports) = true -> Forall (fun r => is_nan (r_unreachable r) = false) reports ->
  most reports (quiet p) -> _raw_level sig p = "calm".
Proof.
  intros Es He Ho Hn Hq. unfold _raw_level.
  destruct (aggregated_inv _ _ _ Es He Ho Hn) as (_ & _ & Hp & Hv). rewrite Hv.
  assert (Nat.eqb (length reports) 0 = false) as -> by (destruct reports; [by destruct He|done]).
  assert (forall Q, (forall r, quiet p r = true -> Q r = true) -> most reports Q) as Himp by (intros Q HQ; by eapply most_imp).
  assert (partition sig = false) as ->.
  { rewrite Hp. apply Nat.ltb_ge. unfold most, suspects in *. clear -Hq. enough (length (List.filter (quiet p) reports) +
      length (List.filter partition_suspected reports) <= length reports)%nat by lia.
    clear. induction reports as [|r l IH]; [done|]. simpl. unfold quiet at 1. destruct (partition_suspected r); simpl; [lia|].
    destruct (_ && _ && _ && _); simpl; lia. }
  rewrite (leb_not_ltb _ (hostile_min_unreachable p)), (leb_not_ltb _ (elevated_min_unreachable p)).
  2,3: eapply most_reachable; try done; apply Himp; unfold quiet; intros r; rewrite !andb_true_iff; tauto.
  assert (forall t, (forall r, quiet p r = true -> (anomalies_seen r <? t)%Z = true) -> (t <=? anomalies sig)%Z = false) as Ha.
  { intros t Ht. apply Z.leb_gt. apply Z.ltb_lt. eapply most_clean; try done. by apply Himp. }
  rewrite !Ha; [done|..]; unfold quiet; intros r; rewrite !andb_true_iff; tauto.
Qed.

(** A minority of vantages cannot move the posture.  With an odd number of
    reports that make the quorum, when most of them are quiet the step does not
    escalate, whatever the others claim; when most of them cannot reach the share
    of the mesh that the policy calls hostile, or have seen that many anomalies,
    or suspect a partition, the level in force afterwards is hostile, whatever
    the others deny. *)
Theorem minority_cannot_move p reports quorum st st' a :
  step reports st p quorum = Ok (st', a) -> reports <> [] /\ (quorum <= Z.of_nat (length reports))%Z ->
  Nat.odd (length reports) = true -> Forall (fun r => is_nan (r_unreachable r) = false) reports ->
  (most reports (quiet p) -> a_actuation a <> auto_escalate /\ at_least_as (level st) (level st')) /\
  (most reports (fun r => F64.leb (hostile_min_unreachable p) (r_unreachable r)) \/
   most reports (fun r => (hostile_min_anomalies p <=? anomalies_seen r)%Z) \/ most reports partition_suspected ->
   level st' = "hostile").
Proof.
  intros E He Ho Hn. destruct (control_step_inv _ _ _ _ _ _ E) as (sig & Es & Hc). cbv zeta in Hc. split.
  - intros Hq. pose proof (quiet_calm p _ _ _ Es He Ho Hn Hq) as Hr. rewrite Hr in Hc.
    destruct Hc as [((x & y & _ & [= <-] & Hl) & _)|[(Hb & _ & -> & -> & _)|[(Hb & _ & -> & -> & _)|(Hl & _ & -> & -> & _)]]];
      [lia| | |]; (split; [done|]); cbn [level].
    + by apply below_levels in Hb as (_ & _ & ?).
    + by apply below_levels in Hb as (_ & ? & _).
    + destruct Hl as (x & y & _ & Hy & _). by exists y, y.
  - intros Hm. pose proof (step_covers _ _ _ _ _ _ _ E Es) as Hcov. apply hostile_top.
    destruct (aggregated_inv _ _ _ Es He Ho Hn) as (_ & _ & Hp & Hv). unfold _raw_level in Hcov. rewrite Hv in Hcov.
    destruct (Nat.eqb (length reports) 0); [done|].
    assert (partition sig || F64.leb (hostile_min_unreachable p) (unreachable_fraction sig) || (hostile_min_anomalies p <=? anomalies sig)%Z = true) as Hh.
    { rewrite !orb_true_iff. destruct Hm as [Hm|[Hm|Hm]].
      - left. right. by eapply most_unreachable.
      - right. by eapply most_anomalous.
      - left. left. rewrite Hp. by apply Nat.ltb_lt. }
    by rewrite Hh in Hcov.
Qed.

(** *** The posture file *)

Lemma prior_state_doc now st a : prior_state (Ok (state_doc now st a)) = Ok st.
Proof. by destruct st. Qed.

Lemma step_tier reports st p quorum st' a :
  step reports st p quorum = Ok (st', a) ->
  exists t, tier_of p (level st') = Ok t /\ forall now d, state_doc now st' a = PDict d -> assoc "tier" d = Some t.
Proof.
  intros E. apply control_step_inv in E as (sig & _ & Hc). cbv zeta in Hc. unfold state_doc.
  destruct Hc as [(_ & -> & -> & Ht)|[(_ & _ & -> & -> & t & Hp & Ht)|[(_ & _ & -> & -> & Ht)|(_ & _ & -> & -> & Ht)]]]; cbn [level];
    (eexists; split; [exact Ht|]; intros now d [= <-]; simpl); try reflexivity. by rewrite Hp.
Qed.

(** The detector is the controller, with its memory in the posture file.  A run
    either leaves the file and says nothing, or does one step from the state the
    file holds to the state it then holds; the tier it writes is the one the
    policy declares for the new level, a beacon is sent exactly when the level
    changed, and when the storage layer declares that tier and it is no weaker
    than its floor, new leaves are placed with it. *)
Theorem detector_refines_step now p reports_file state_file state_file' beacons :
  detect_mesh_threat now (Some p) reports_file state_file = Ok (state_file', beacons) ->
  (state_file' = state_file /\ beacons = []) \/
  exists reports quorum prior new a doc tier,
    reports <> [] /\ prior_state state_file = Ok prior /\ step reports prior p quorum = Ok (new, a) /\
    state_file' = Ok (PDict doc) /\ prior_state state_file' = Ok new /\ tier_of p (level new) = Ok tier /\ assoc "tier" doc = Some tier /\
    (beacons = [] <-> level new = level prior) /\
    forall storage t floor chosen oc ofl,
      tier = PStr t -> t <> "" -> load_placement None storage = Ok floor -> load_placement (Some t) storage = Ok chosen ->
      durability_overhead chosen = Ok oc -> durability_overhead floor = Ok ofl -> F64.leb ofl oc = true ->
      load_runtime_placement (Some (PDict doc)) storage = Ok chosen.
Proof.
  unfold detect_mesh_threat. destruct reports_file as [v|e]; [|destruct (is_read_error e); [intros [= <- <-]; by left|done]].
  destruct v as [| | | | | |d]; try (intros [= <- <-]; by left).
  destruct (default PNone (assoc "reports" d)) as [| | | | |[|r rs]|]; try (intros [= <- <-]; by left). intros E.
  apply bind_Ok_inv in E as (quorum & _ & E). apply bind_Ok_inv in E as (read & _ & E).
  destruct (omap id read) as [|r0 rs0] eqn:Er; [injection E as <- <-; by left|].
  apply bind_Ok_inv in E as (prior & Hp & E). apply bind_Ok_inv in E as ([new a] & Es & E). injection E as <- <-. right.
  destruct (step_tier _ _ _ _ _ _ Es) as (tier & Ht & Hd). eexists (r0 :: rs0), quorum, prior, new, a, _, tier.
  split_and!; [done..|reflexivity|apply prior_state_doc|exact Ht|by apply (Hd now)| |].
  - destruct (String.eqb_spec (level new) (level prior)) as [He|He]; by split.
  - intros storage t floor chosen oc ofl -> Hne Hf Hch Hoc Hofl Hle. specialize (Hd now _ eq_refl).
    unfold load_runtime_placement. rewrite Hf. cbn [mbind res_bind]. rewrite Hd. cbn [default]. destruct t as [|c t]; [done|].
    simpl. rewrite Hch. rewrite Hoc, Hofl. cbn [mbind res_bind]. by rewrite Hle.
Qed.
End control.

(** ** Witnesses *)

Section witnesses.
#[local] Existing Instance demo_float_repr.

Definition demo_policy : ThreatPolicy :=
  mkThreatPolicy [("calm", PStr "baseline"); ("elevated", PStr "hardened"); ("hostile", PStr "hostile")]
    (F64.of_dec 10 2) 1 (F64.of_dec 25 2) 3 2.

Definition seen (n : Z) : VantageReport := mkVantage "v" F64.zero n false.
Definition cut_off : VantageReport := mkVantage "w" (F64.of_Z 1) 9 true.
Definition calm_round : list VantageReport := [seen 0; seen 0; seen 0].
Definition elevated_round : list VantageReport := [seen 1; seen 1; seen 1].
Definition hostile_round : list VantageReport := [seen 3; seen 3; seen 3].

(** The levels after each round. *)
Fixpoint levels (st : MeshThreatState) (rounds : list (list VantageReport)) : list string :=
  match rounds with
  | [] => []
  | r :: rounds => match step r st demo_policy 3 with Ok (st', _) => level st' :: levels st' rounds | Raise _ => ["raised"] end
  end.

Example levels_ex :
  levels (mkState "calm" 0) [hostile_round; calm_round; elevated_round; calm_round; calm_round; []; [cut_off; seen 0; seen 0]] =
  ["hostile"; "hostile"; "hostile"; "calm"; "calm"; "hostile"; "hostile"].
Proof. vm_compute. reflexivity. Qed.

(** The drop is applied by the step itself, and to what the last round sensed: two
    rounds at elevated and a single calm one lead from hostile to calm. *)
Example one_calm_round_clears : levels (mkState "hostile" 0) [elevated_round; elevated_round; calm_round] = ["hostile"; "hostile"; "calm"].
Proof. vm_compute. reflexivity. Qed.

Lemma drop_needs_dwell_witness :
  exists st' a, step calm_round (mkState "hostile" 2) demo_policy 3 = Ok (st', a) /\ level st' = "calm" /\
    Forall (fun e : string * string => e.2 = "hostile" /\ below e.1 "hostile") [("elevated", "hostile"); ("elevated", "hostile")].
Proof.
  destruct (is_ok_Ok (step calm_round (mkState "hostile" 2) demo_policy 3)) as [[st' a] E]; [vm_compute; reflexivity|].
  exists st', a. split; [exact E|].
  assert (level st' = "calm") as Hl by (vm_compute in E; injection E as <- _; reflexivity). split; [exact Hl|].
  destruct (is_ok_Ok (step elevated_round (mkState "hostile" 0) demo_policy 3)) as [[s1 a1] E1]; [vm_compute; reflexivity|].
  assert (s1 = mkState "hostile" 1) as H1 by (vm_compute in E1; injection E1 as <- _; reflexivity). subst s1.
  destruct (is_ok_Ok (step elevated_round (mkState "hostile" 1) demo_policy 3)) as [[s2 a2] E2]; [vm_compute; reflexivity|].
  assert (s2 = mkState "hostile" 2) as H2 by (vm_compute in E2; injection E2 as <- _; reflexivity). subst s2.
  set (sig1 := mkSignals F64.zero 1 false 3). set (sig0 := mkSignals F64.zero 0 false 3).
  assert (aggregate_vantages elevated_round 3 = Ok sig1) as A1 by (vm_compute; reflexivity).
  assert (aggregate_vantages calm_round 3 = Ok sig0) as A0 by (vm_compute; reflexivity).
  pose proof (runs_step demo_policy 3 _ _ _ _ _ _ _ (runs_step demo_policy 3 _ _ _ _ _ _ _ (runs_start demo_policy 3 (mkState "hostile" 0)) A1 E1) A1 E2) as Hr.
  destruct (drop_needs_dwell _ _ (mkState "hostile" 0) _ _ _ _ _ _ eq_refl Hr A0 E) as (_ & _ & Hd).
  assert (below (level st') "hostile") as Hb by (rewrite Hl; exists 0%nat, 2%nat; split_and!; [reflexivity..|lia]).
  assert (0 <= deescalate_dwell demo_policy)%Z as Hp by (simpl; lia). destruct (Hd Hb Hp) as [_ HF]. exact HF.
Defined.

Lemma minority_cannot_move_witness :
  (exists st' a, step [cut_off; seen 0; seen 0] (mkState "calm" 0) demo_policy 3 = Ok (st', a) /\ a_actuation a <> auto_escalate) /\
  (exists st' a, step [seen 3; seen 0; seen 9] (mkState "calm" 0) demo_policy 3 = Ok (st', a) /\ level st' = "hostile").
Proof.
  assert (forall l, length l = 3%nat -> l <> [] /\ (3 <= Z.of_nat (length l))%Z /\ Nat.odd (length (l : list VantageReport)) = true) as Hl.
  { intros l Hl. split_and!; [by intros ->|lia|by rewrite Hl]. }
  split.
  - destruct (is_ok_Ok (step [cut_off; seen 0; seen 0] (mkState "calm" 0) demo_policy 3)) as [[st' a] E]; [vm_compute; reflexivity|].
    exists st', a. split; [exact E|]. destruct (Hl _ (eq_refl : length [cut_off; seen 0; seen 0] = 3%nat)) as (H1 & H2 & H3).
    destruct (minority_cannot_move _ _ _ _ _ _ E (conj H1 H2) H3) as [Hq _]; [repeat constructor|].
    destruct Hq as [Hq _]; [vm_compute; lia|exact Hq].
  - destruct (is_ok_Ok (step [seen 3; seen 0; seen 9] (mkState "calm" 0) demo_policy 3)) as [[st' a] E]; [vm_compute; reflexivity|].
    exists st', a. split; [exact E|]. destruct (Hl _ (eq_refl : length [seen 3; seen 0; seen 9] = 3%nat)) as (H1 & H2 & H3).
    destruct (minority_cannot_move _ _ _ _ _ _ E (conj H1 H2) H3) as [_ Hq]; [repeat constructor|]. apply Hq. right. left. vm_compute. lia.
Defined.

Definition report_doc (n : Z) : pyval :=
  PDict [("vantage", PStr "v"); ("unreachable_fraction", PFloat F64.zero); ("anomalies_seen", PInt n)].
Definition reports_doc (n : Z) : res pyval := Ok (PDict [("quorum", PInt 3); ("reports", PList [report_doc n; report_doc n; report_doc n])]).

Lemma detector_refines_step_witness :
  exists file beacons, detect_mesh_threat "now" (Some demo_policy) (reports_doc 3) (Raise (FileNotFound "state")) = Ok (file, beacons) /\
    exists new, prior_state file = Ok new /\ level new = "hostile".
Proof.
  destruct (res_view (fun fb => (is_ok fb.1, match prior_state fb.1 with Ok st => level st | _ => EmptyString end))
    (detect_mesh_threat "now" (Some demo_policy) (reports_doc 3) (Raise (FileNotFound "state"))) (true, "hostile"))
    as ([file beacons] & E & Hv); [vm_compute; reflexivity|].
  exists file, beacons. split; [exact E|].
  destruct (detector_refines_step _ _ _ _ _ _ E) as [[-> _]|(reports & quorum & prior & new & a & doc & tier & _ & _ & _ & Hf & Hn & _)];
    [discriminate Hv|].
  exists new. split; [exact Hn|]. simpl in Hv. rewrite Hn in Hv. by injection Hv.
Defined.

(** The beacon of a transition gives the level where it says tier. *)
Example beacon_names_level :
  match detect_mesh_threat "now" (Some demo_policy) (reports_doc 1) (Raise (FileNotFound "state")) with
  | Ok (Ok (PDict d), [b]) =>
    assoc "tier" d = Some (PStr "hardened") /\
    match assoc "detail" b with Some (PDict detail) => assoc "tier" detail = Some (PStr "elevated") | _ => False end
  | _ => False
  end.
Proof. vm_compute. auto. Qed.

(** A posture file that names no level stops the detector for good. *)
Example unknown_level_raises :
  detect_mesh_threat "now" (Some demo_policy) (reports_doc 3) (Ok (PDict [("level", PStr "none")])) =
  Raise (ValueError "tuple.index(x): x not in tuple").
Proof. vm_compute. reflexivity. Qed.

(** An integer past the floats ends the collection of the reports. *)
Example huge_fraction_raises : is_ok (_valid_report (PDict [("vantage", PStr "v"); ("unreachable_fraction", PInt (10 ^ 400))])) = false.
Proof. vm_compute. reflexivity. Qed.

Definition model_of (p o : spec_float) : tier_model := mkTierModel (fun _ => Ok p) (Ok o).

(** Values a ten-billionth apart are not a tie: the cheaper tier wins. *)
Example near_tie_prefers_cheap :
  match optimal_tier [("cheap", model_of (F64.of_dec 5000000001 10) (F64.of_Z 1)); ("hard", model_of (F64.of_dec 5 1) (F64.of_Z 2))]
          F64.zero (F64.of_Z 1) F64.zero with
  | Ok (t, _) => t = "cheap"
  | Raise _ => False
  end /\
  match optimal_tier [("cheap", model_of (F64.of_dec 5 1) (F64.of_Z 1)); ("hard", model_of (F64.of_dec 5 1) (F64.of_Z 2))]
          F64.zero (F64.of_Z 1) F64.zero with
  | Ok (t, _) => t = "hard"
  | Raise _ => False
  end.
Proof. vm_compute. auto. Qed.
End witnesses.
