(* ===== verification/LeafPropagation.v ===== *)
(** * The write and read path of a leaf

    Models [automation/leaf_propagation.py].  The two injected seams are an
    interface: a store that [propagate] writes fragments to is any type with
    the laws of [FragStore]; the [get] that [fetch] reads through is any
    function, so that a reader may be lied to, and an exception of it is an
    unreachable copy.  The in-memory store of the source is an instance. *)

From Stdlib Require Import Ascii.
From S2P Require Import Prelude PyVal Sha256 Gf256 HolographicIda MeshTopology StorageResilience.
Local Open Scope Z_scope.

(** ** The store interface *)

Class FragStore (S : Type) := {
  frag_put : string -> string -> bytes -> S -> S;
  frag_read : string -> string -> S -> option bytes;
  frag_read_put_eq node key b s : frag_read node key (frag_put node key b s) = Some b;
  frag_read_put_ne node key node' key' b s :
    (node, key) <> (node', key') -> frag_read node' key' (frag_put node key b s) = frag_read node' key' s
}.

(** [in_memory_store]. *)
Abbreviation memory := (gmap (string * string) bytes).

Definition in_memory_put (node frag : string) (data : bytes) (store : memory) : memory :=
  <[(node, frag) := data]> store.

Definition in_memory_get (node frag : string) (store : memory) : option bytes := store !! (node, frag).

#[export] Program Instance in_memory_store : FragStore memory :=
  {| frag_put := in_memory_put; frag_read := in_memory_get |}.
Next Obligation. intros. apply lookup_insert_eq. Qed.
Next Obligation. intros. by apply lookup_insert_ne. Qed.

(** ** Manifests *)

Definition _frag_key (root : string) (index : Z) : string := root +:+ "#" +:+ pretty index.

Record PropagationManifest := mkManifest {
  m_root : string;
  m_k : Z;
  m_n : Z;
  m_orig_len : nat;
  m_tier : pyval;
  m_replicas : Z;
  fragment_nodes : list (Z * list string)
}.

Definition _place (nodes : list string) (xs : list Z) (replicas : Z) : res (list (Z * list string)) :=
  tree ← build_tree nodes;
  let ordered := leaves tree in
  let total := Z.of_nat (length xs) * replicas in
  if Z.of_nat (length ordered) <? total then
    Raise (ValueError ("need " +:+ pretty total +:+ " distinct nodes for " +:+ pretty (length xs) +:+
                       " fragments × " +:+ pretty replicas +:+ " replicas; mesh has " +:+ pretty (length ordered)))
  else
    stride ← stride_of ordered total;
    place_keys ordered stride (Z.to_nat replicas) xs 0.

(** ** Write *)

Section propagate.
Context {S : Type} `{FragStore S}.

Definition put_copies (root : string) (frags : list (Z * bytes)) (s : S) (xn : Z * list string) : res S :=
  let (x, node_list) := xn in
  match node_list with
  | [] => Ok s
  | _ =>
    b ← frag_get x frags;
    Ok (foldl (fun s node => frag_put node (_frag_key root x) b s) s node_list)
  end.

Definition propagate (leaf : bytes) (nodes : list string) (p : Placement) (tier : string) (s : S) :
    res (PropagationManifest * S) :=
  let k := rs_k p in
  let n := rs_n p in
  let r := shard_replicas p in
  d ← disperse leaf k n None;
  let root := merkle_root leaf in
  mapping ← _place nodes (d_xs d) r;
  s' ← res_fold (put_copies root (fragments d)) s mapping;
  Ok (mkManifest root k n (orig_len d) (PStr tier) r mapping, s').
End propagate.

(** ** Read *)

Section fetch.
(** [get(node, frag)]: bytes, nothing, or an exception. *)
Variable get : string -> string -> res (option bytes).
Variable reachable : option (gset string).

Definition unreachable (node : string) : bool :=
  match reachable with Some r => negb (bool_decide (node ∈ r)) | None => false end.

(** The first copy of a fragment that answers. *)
Fixpoint first_copy (key : string) (node_list : list string) : option bytes :=
  match node_list with
  | [] => None
  | node :: node_list =>
    if unreachable node then first_copy key node_list
    else match get node key with
         | Ok (Some b) => Some b
         | Ok None | Raise _ => first_copy key node_list
         end
  end.

Definition available (m : PropagationManifest) : list (Z * bytes) :=
  omap (fun xn : Z * list string =>
    (fun b => (xn.1, b)) <$> first_copy (_frag_key (m_root m) xn.1) xn.2) (fragment_nodes m).

(** [itertools.combinations(l, k)], in its order. *)
Fixpoint combinations {A} (k : nat) (l : list A) : list (list A) :=
  match k, l with
  | O, _ => [[]]
  | Datatypes.S _, [] => []
  | Datatypes.S k', x :: l' => (map (cons x) (combinations k' l') ++ combinations k l')%list
  end.

(** The search over the subsets, at most [budget] of them. *)
Fixpoint try_combos (m : PropagationManifest) (avail : list (Z * bytes)) (budget : nat)
    (combos : list (list Z)) : res bytes :=
  match budget, combos with
  | Datatypes.S budget, combo :: combos =>
    sub ← res_map (fun x => b ← frag_get x avail; Ok (x, b)) combo;
    rec ← reconstruct sub (Z.to_nat (m_k m)) (m_orig_len m);
    if String.eqb (merkle_root rec) (m_root m) then Ok rec else try_combos m avail budget combos
  | _, _ => Raise IntegrityError
  end.

Definition fetch (m : PropagationManifest) (max_attempts : nat) : res bytes :=
  let avail := available m in
  if Z.of_nat (length avail) <? m_k m then Raise LeafUnavailable
  else if m_k m <? 0 then Raise (ValueError "r must be non-negative")
  else try_combos m avail max_attempts (combinations (Z.to_nat (m_k m)) (py_sort Z.ltb avail.*1)).
End fetch.

(** ** Combinations *)

Lemma combinations_sublist {A} k (l c : list A) :
  c ∈ combinations k l <-> c `sublist_of` l /\ length c = k.
Proof.
  revert k c; induction l as [|x l IH]; intros [|k] c; simpl.
  - rewrite list_elem_of_singleton. split; [intros ->; split; [constructor|done]|].
    intros [_ Hl]. by destruct c.
  - split; [by intros ?%not_elem_of_nil|]. intros [Hs Hl]. apply sublist_nil_r in Hs as ->. done.
  - rewrite list_elem_of_singleton. split; [intros ->; split; [apply sublist_nil_l|done]|].
    intros [_ Hl]. by destruct c.
  - rewrite elem_of_app, IH. rewrite list_elem_of_In, in_map_iff. split.
    + intros [(c' & <- & Hc)|[Hs Hl]].
      * apply list_elem_of_In, IH in Hc as [Hs Hl]. split; [by constructor|simpl; by rewrite Hl].
      * split; [by constructor|done].
    + intros [Hs Hl]. inversion Hs as [|? c' ? Hs'|? ? ? Hs']; subst.
      * left. exists c'. split; [done|]. apply list_elem_of_In, IH. simpl in Hl. split; [done|lia].
      * by right.
Qed.

Lemma combinations_first {A} k (l : list A) :
  (k <= length l)%nat -> exists cs, combinations k l = take k l :: cs.
Proof.
  revert l; induction k as [|k IH]; intros [|x l] Hk; simpl in *; [by eexists|by eexists|lia|].
  destruct (IH l) as [cs ->]; [lia|]. simpl. by eexists.
Qed.

(** ** Puts *)

Section puts.
Context {S : Type} `{FragStore S}.

Lemma read_copies key b nl node key' (s : S) :
  frag_read node key' (foldl (fun s node => frag_put node key b s) s nl) =
  if bool_decide (node ∈ nl /\ key' = key) then Some b else frag_read node key' s.
Proof.
  revert s; induction nl as [|n nl IH]; intros s; cbn [foldl].
  - rewrite bool_decide_false; [done|]. intros [Hin _]. by apply not_elem_of_nil in Hin.
  - rewrite IH. destruct (decide (node ∈ nl /\ key' = key)) as [Hy|Hn].
    { rewrite !bool_decide_true; [done|set_solver|done]. }
    rewrite (bool_decide_false _ Hn). destruct (decide (node = n /\ key' = key)) as [[-> ->]|Hne].
    + rewrite frag_read_put_eq, bool_decide_true; [done|set_solver].
    + rewrite frag_read_put_ne by naive_solver. rewrite bool_decide_false; [done|set_solver].
Qed.

(** After the writes every copy of every fragment can be read back, since the
    copies are on different nodes. *)
Lemma put_copies_read root frags mapping (s s' : S) x nl b node :
  res_fold (put_copies root frags) s mapping = Ok s' -> NoDup (concat mapping.*2) ->
  (x, nl) ∈ mapping -> frag_get x frags = Ok b -> node ∈ nl ->
  frag_read node (_frag_key root x) s' = Some b.
Proof.
  assert (Hkeep : forall mapping (s s' : S) node key, res_fold (put_copies root frags) s mapping = Ok s' ->
    node ∉ concat mapping.*2 -> frag_read node key s' = frag_read node key s).
  { clear. intros mapping. induction mapping as [|[x nl] mapping IH]; intros s s' node key E Hn;
      cbn [res_fold] in E; [by injection E as <-|].
    apply bind_Ok_inv in E as (s1 & E1 & E2). rewrite fmap_cons in Hn. cbn [concat] in Hn.
    rewrite not_elem_of_app in Hn. destruct Hn as [Hn1 Hn2]. rewrite (IH _ _ _ _ E2 Hn2).
    unfold put_copies in E1. destruct nl as [|n0 nl']; [by injection E1 as <-|].
    apply bind_Ok_inv in E1 as (b & _ & E1). injection E1 as <-.
    change (frag_read node key (foldl (fun s node => frag_put node (_frag_key root x) b s) s (n0 :: nl'))
      = frag_read node key s).
    rewrite read_copies, bool_decide_false; [done|]. by intros [? _]. }
  revert s; induction mapping as [|[y nl0] mapping IH]; intros s E Hnd Hin Hb Hn; cbn [res_fold] in E;
    [by apply not_elem_of_nil in Hin|].
  apply bind_Ok_inv in E as (s1 & E1 & E2). rewrite fmap_cons in Hnd. cbn [concat] in Hnd.
  apply NoDup_app in Hnd as (_ & Hd & Hnd). apply elem_of_cons in Hin as [[= <- <-]|Hin].
  - rewrite (Hkeep _ _ _ _ _ E2) by (by apply Hd). unfold put_copies in E1.
    destruct nl as [|n0 nl']; [by apply not_elem_of_nil in Hn|].
    rewrite Hb in E1. cbn [mbind res_bind] in E1. injection E1 as <-.
    change (frag_read node (_frag_key root x)
      (foldl (fun s node => frag_put node (_frag_key root x) b s) s (n0 :: nl')) = Some b).
    by rewrite read_copies, bool_decide_true.
  - by eapply IH.
Qed.

Lemma put_copies_total root frags mapping (s : S) :
  Forall (fun xn => is_ok (frag_get xn.1 frags) = true) mapping ->
  exists s', res_fold (put_copies root frags) s mapping = Ok s'.
Proof.
  intros Hf. revert s; induction Hf as [|[x nl] mapping Hx _ IH]; intros s; cbn [res_fold]; [by eexists|].
  assert (exists s1, put_copies root frags s (x, nl) = Ok s1) as [s1 ->]; [|apply IH].
  unfold put_copies. destruct nl as [|n0 nl']; [by eexists|]. simpl in Hx.
  destruct (frag_get x frags) as [b|]; [by eexists|done].
Qed.
End puts.

(** ** Keys of different leaves *)

Definition not_hash (c : Ascii.ascii) : Prop := c <> "#"%char.

Lemma merkle_root_not_hash leaf : string_Forall not_hash (merkle_root leaf).
Proof.
  unfold merkle_root. apply string_Forall_app. split; [by repeat split|]. apply sha256_hex_chars. intros n.
  unfold not_hash, hex_char. generalize (Z.to_nat n). intros k. do 16 (destruct k as [|k]; [done|]). done.
Qed.

Lemma _frag_key_inj leaf leaf' x x' :
  _frag_key (merkle_root leaf) x = _frag_key (merkle_root leaf') x' -> merkle_root leaf = merkle_root leaf'.
Proof.
  unfold _frag_key. intros E. refine (proj1 (string_split_unique not_hash _ _ _ _ _ _ _ _ E));
    [apply merkle_root_not_hash..| |]; by intros Hn.
Qed.

(** A write touches the fragments of its own leaf only. *)
Lemma propagate_keeps {S} `{FragStore S} leaf nodes p tier (s s' : S) m node root x :
  propagate leaf nodes p tier s = Ok (m, s') ->
  (forall y, _frag_key root x <> _frag_key (merkle_root leaf) y) ->
  frag_read node (_frag_key root x) s' = frag_read node (_frag_key root x) s.
Proof.
  unfold propagate. intros E Hk. apply bind_Ok_inv in E as (d & _ & E). apply bind_Ok_inv in E as (mapping & _ & E).
  apply bind_Ok_inv in E as (s1 & E & E1). injection E1 as _ <-.
  revert s E. induction mapping as [|[y nl] mapping IH]; intros s E; cbn [res_fold] in E; [by simplify_eq|].
  apply bind_Ok_inv in E as (s2 & E1 & E2). rewrite (IH _ E2). unfold put_copies in E1.
  destruct nl as [|n0 nl]; [by simplify_eq|]. apply bind_Ok_inv in E1 as (b & _ & E1). injection E1 as <-.
  change (frag_read node (_frag_key root x)
    (foldl (fun s node => frag_put node (_frag_key (merkle_root leaf) y) b s) s (n0 :: nl)) = frag_read node (_frag_key root x) s).
  rewrite read_copies, bool_decide_false; [done|]. intros [_ Ek]. by apply (Hk y).
Qed.

(** ** Placement *)

Lemma _place_spec nodes xs r :
  NoDup nodes -> 0 < Z.of_nat (length xs) * r <= Z.of_nat (length nodes) -> 0 < r ->
  exists mapping, _place nodes xs r = Ok mapping /\ mapping.*1 = xs /\
    Forall (fun xn => length xn.2 = Z.to_nat r) mapping /\ NoDup (concat mapping.*2).
Proof.
  intros Hnd Hroom Hr. unfold _place.
  destruct (build_tree_leaves nodes) as (t & Et & Hl & _); [intros ->; simpl in Hroom; lia|].
  rewrite Et. cbn [mbind res_bind]. rewrite Hl.
  destruct (Z.ltb_spec (Z.of_nat (length nodes)) (Z.of_nat (length xs) * r)); [lia|].
  destruct (stride_spec nodes _ Hroom) as (Es & _). rewrite Es. cbn [mbind res_bind].
  destruct (place_keys_spec nodes _ Hroom xs (Z.to_nat r) 0) as (out & Eo & Hk & Hlen & Hc); [nia|].
  exists out. split_and!; [done..|]. rewrite Hc. apply slots_NoDup; [lia|done|nia].
Qed.

(** What a write leaves behind. *)
Lemma propagate_spec {S} `{FragStore S} leaf nodes p tier (s : S) :
  forallb is_byte leaf = true -> NoDup nodes -> safe p -> rs_n p <= 255 ->
  rs_n p * shard_replicas p <= Z.of_nat (length nodes) ->
  exists gp gl blks pad mapping s',
    propagate leaf nodes p tier s =
      Ok (mkManifest (merkle_root leaf) (rs_k p) (rs_n p) (length leaf) (PStr tier) (shard_replicas p) mapping, s') /\
    leaf = vals gl /\ NoDup gp /\ Z.of_nat (length gp) = rs_n p /\
    Forall (fun b => length b = Z.to_nat (rs_k p)) blks /\ concat (map (map val) blks) = (leaf ++ pad)%list /\
    mapping.*1 = vals gp /\ Forall (fun xn => length xn.2 = Z.to_nat (shard_replicas p)) mapping /\
    NoDup (concat mapping.*2) /\
    forall x nl node, (val x, nl) ∈ mapping -> node ∈ nl ->
      frag_read node (_frag_key (merkle_root leaf) (val x)) s' = Some (map (fun b => val (ev b x)) blks).
Proof.
  intros Hleaf Hnd (Hk & Hm & _ & Hr & _) Hn Hroom. unfold rs_n in *.
  destruct (disperse_spec leaf (rs_k p) (rs_k p + rs_m p) None Hleaf ltac:(lia) Hn ltac:(done))
    as (gp & gl & blks & pad & Ed & Hl & Hndg & Hlg & Hblk & Hcat).
  unfold propagate, rs_n. rewrite Ed. cbn [mbind res_bind d_xs fragments orig_len].
  destruct (_place_spec nodes (vals gp) (shard_replicas p) Hnd) as (mapping & Em & Hkeys & Hlen & Hndm);
    [rewrite length_map, Hlg; nia|lia|].
  rewrite Em. cbn [mbind res_bind].
  assert (Hget : forall x, x ∈ gp -> frag_get (val x) (frag_state gp blks) = Ok (map (fun b => val (ev b x)) blks)).
  { intros x Hx. apply (frag_get_state gp); [|done|]; rewrite frag_state_keys; [|by apply vals_elem].
    by apply NoDup_vals. }
  assert (Hin : forall xn, xn ∈ mapping -> exists x, xn.1 = val x /\ x ∈ gp).
  { intros xn Hxn. assert (Hv : xn.1 ∈ vals gp) by (rewrite <- Hkeys; by apply list_elem_of_fmap_2).
    apply list_elem_of_In, in_map_iff in Hv as (x & <- & Hx). exists x. split; [done|by apply list_elem_of_In]. }
  destruct (put_copies_total (merkle_root leaf) (frag_state gp blks) mapping s) as [s' Es].
  { apply Forall_forall. intros xn Hxn. destruct (Hin _ Hxn) as (x & -> & Hx). by rewrite Hget. }
  rewrite Es. exists gp, gl, blks, pad, mapping, s'. split_and!; try done.
  intros x nl node Hxn Hnode. destruct (Hin _ Hxn) as (x' & E & Hx'). simpl in E. apply gf_eq in E as <-.
  eapply put_copies_read; [exact Es|done|exact Hxn|by apply Hget|done].
Qed.

(** ** Selecting fragments *)

Abbreviation select avail combo := (res_map (fun x => b ← frag_get x avail; Ok (x, b)) combo).

Lemma select_spec (avail : list (Z * bytes)) combo :
  NoDup avail.*1 -> combo ⊆ avail.*1 ->
  exists sub, select avail combo = Ok sub /\ sub.*1 = combo /\ sub ⊆ avail.
Proof.
  intros Hnd. induction combo as [|x combo IH]; intros Hs; cbn [res_map].
  - exists []. split_and!; [done|done|]. intros y Hy. by apply not_elem_of_nil in Hy.
  - destruct (proj1 (list_elem_of_fmap _ _ _) (Hs x ltac:(by left))) as ([y b] & Ey & Hin).
    simpl in Ey. subst y. rewrite (frag_get_elem x b) by done. cbn [mbind res_bind].
    destruct IH as (sub & -> & Ek & Hsub); [intros y Hy; apply Hs; by right|]. cbn [mbind res_bind].
    exists ((x, b) :: sub). rewrite fmap_cons, Ek. split_and!; [done|done|].
    intros y [->|Hy]%elem_of_cons; [done|by apply Hsub].
Qed.

(** The keys of the available fragments are keys of the manifest. *)
Lemma available_keys get reachable m :
  (available get reachable m).*1 `sublist_of` (fragment_nodes m).*1.
Proof.
  unfold available. induction (fragment_nodes m) as [|[x nl] l IH]; [constructor|].
  cbn [omap list_omap]. simpl. destruct (first_copy _ _ _ _); simpl; by constructor.
Qed.

(** When the subsets never make the reconstruction raise and one of them is
    right, the search ends in bytes that match the root. *)
Lemma try_combos_finds m avail budget combos :
  (length combos <= budget)%nat ->
  (forall c, c ∈ combos -> exists sub rec, select avail c = Ok sub /\
     reconstruct sub (Z.to_nat (m_k m)) (m_orig_len m) = Ok rec) ->
  (exists c sub rec, c ∈ combos /\ select avail c = Ok sub /\
     reconstruct sub (Z.to_nat (m_k m)) (m_orig_len m) = Ok rec /\ merkle_root rec = m_root m) ->
  exists rec, try_combos m avail budget combos = Ok rec /\ merkle_root rec = m_root m.
Proof.
  revert budget; induction combos as [|c combos IH]; intros [|budget] Hb Hall (c0 & sub0 & rec0 & Hin & Hs & Hr & Hm);
    simpl in Hb; try lia; try (by apply not_elem_of_nil in Hin).
  cbn [try_combos]. destruct (Hall c) as (sub & rec & Es & Er); [by left|].
  rewrite Es. cbn [mbind res_bind]. rewrite Er. cbn [mbind res_bind].
  destruct (String.eqb_spec (merkle_root rec) (m_root m)) as [E|Hne]; [by exists rec|].
  apply IH; [lia|intros c' Hc'; apply Hall; by right|].
  apply elem_of_cons in Hin as [->|Hin]; [|by eauto 10]. congruence.
Qed.

Lemma try_combos_root m avail budget combos rec :
  try_combos m avail budget combos = Ok rec ->
  merkle_root rec = m_root m /\ exists c sub, c ∈ combos /\ select avail c = Ok sub /\
    reconstruct sub (Z.to_nat (m_k m)) (m_orig_len m) = Ok rec.
Proof.
  revert budget; induction combos as [|c combos IH]; intros [|budget] E; cbn [try_combos] in E; try done.
  apply bind_Ok_inv in E as (sub & Es & E). apply bind_Ok_inv in E as (r & Er & E).
  destruct (String.eqb_spec (merkle_root r) (m_root m)) as [Em|_].
  - injection E as <-. split; [done|]. exists c, sub. split_and!; [by left|done|done].
  - destruct (IH _ E) as (Hm & c' & sub' & Hin & ?). split; [done|]. exists c', sub'.
    split; [by right|done].
Qed.

(** ** Reading after a seizure *)

(** The readers of a mesh whose seized nodes answer nothing and whose other
    nodes answer from the store. *)
Definition seizure_view {S} `{FragStore S} (s : S) (seized : gset string)
    (get : string -> string -> res (option bytes)) (reachable : option (gset string)) : Prop :=
  forall node key,
    (node ∉ seized -> unreachable reachable node = false /\ get node key = Ok (frag_read node key s)) /\
    (node ∈ seized -> unreachable reachable node = true \/ forall b, get node key <> Ok (Some b)).

Lemma first_copy_view {S} `{FragStore S} (s : S) seized get reachable key b {K} (x : K) nl :
  seizure_view s seized get reachable ->
  (forall node, node ∈ nl -> frag_read node key s = Some b) ->
  first_copy get reachable key nl = if survives seized (x, nl) then Some b else None.
Proof.
  intros Hv Hst. induction nl as [|node nl IH]; [done|]. cbn [first_copy survives existsb snd].
  rewrite IH by (intros; apply Hst; by right). unfold survives. cbn [existsb snd].
  destruct (Hv node key) as [Hup Hdown]. destruct (decide (node ∈ seized)) as [Hin|Hout].
  - rewrite (bool_decide_true (node ∈ seized)) by done. simpl negb. rewrite orb_false_l.
    destruct (Hdown Hin) as [->|Hno]; [done|].
    destruct (unreachable reachable node); [done|].
    destruct (get node key) as [[b'|]|]; [by destruct (Hno b')|done..].
  - rewrite (bool_decide_false (node ∈ seized)) by done. simpl.
    destruct (Hup Hout) as [-> ->]. by rewrite Hst by (by left).
Qed.

(** The state of the store a write leaves, as the reader relies on it. *)
Definition stored_at {S} `{FragStore S} (s : S) root (gp : list gf) blks (mapping : list (Z * list string)) : Prop :=
  forall x nl node, (val x, nl) ∈ mapping -> node ∈ nl ->
    frag_read node (_frag_key root (val x)) s = Some (map (fun b => val (ev b x)) blks).

Lemma available_view {S} `{FragStore S} (s : S) seized get reachable m gp blks mapping :
  seizure_view s seized get reachable -> stored_at s (m_root m) gp blks (fragment_nodes m) ->
  mapping = fragment_nodes m -> (forall z, z ∈ mapping.*1 -> z ∈ vals gp) ->
  available get reachable m ⊆ frag_state gp blks /\
  length (available get reachable m) = length (List.filter (survives seized) mapping).
Proof.
  intros Hv Hst -> Hk. unfold available, stored_at in *. revert Hst Hk.
  induction (fragment_nodes m) as [|[z nl] l IH]; intros Hst Hk.
  { split; [|done]. intros y Hy. by apply not_elem_of_nil in Hy. }
  destruct IH as [IHs IHl]; [intros x nl' node Hin; apply Hst; by right|intros z' Hz; apply Hk; by right|].
  assert (Hz : z ∈ vals gp) by (apply Hk; by left).
  apply list_elem_of_In, in_map_iff in Hz as (x & <- & Hx).
  cbn [omap list_omap]. simpl fst. simpl snd.
  rewrite (first_copy_view s seized get reachable _ (map (fun b => val (ev b x)) blks) (val x) nl) by
    (done || (intros node Hn; eapply Hst; [by left|done])).
  cbn [List.filter]. destruct (survives seized (val x, nl)); simpl; [|done].
  split; [|by rewrite IHl].
  intros y [->|Hy]%elem_of_cons; [|by apply IHs].
  apply list_elem_of_In, in_map_iff. by exists x.
Qed.

(** Any [k] genuine fragments among the available ones give the leaf. *)
Lemma genuine_combo gp blks gl pad k sub :
  sub ⊆ frag_state gp blks -> NoDup sub.*1 -> length sub = k -> (0 < k)%nat ->
  Forall (fun b => length b = k) blks -> concat (map (map val) blks) = (vals gl ++ pad)%list ->
  reconstruct sub k (length (vals gl)) = Ok (vals gl).
Proof.
  intros Hs Hnd Hl Hk Hb Hc. apply (reconstruct_state gp blks); [done|done|lia|done|by exists pad].
Qed.

Lemma filter_bool_perm {A} (f : A -> bool) l1 l2 : l1 ≡ₚ l2 -> List.filter f l1 ≡ₚ List.filter f l2.
Proof.
  induction 1 as [|x l1 l2 _ IH|x y l|l1 l2 l3 _ IH1 _ IH2]; simpl.
  - done.
  - destruct (f x); [by constructor|done].
  - destruct (f x), (f y); try done. constructor.
  - by rewrite IH1.
Qed.

Lemma filter_bool_sublist {A} (f : A -> bool) l : List.filter f l `sublist_of` l.
Proof. induction l as [|x l IH]; simpl; [done|]. destruct (f x); by constructor. Qed.

(** Every subset of equally long fragments reconstructs to something. *)
Lemma combo_total (avail : list (Z * bytes)) k L len c :
  NoDup avail.*1 -> forallb is_byte avail.*1 = true ->
  Forall (fun xb => forallb is_byte xb.2 = true /\ length xb.2 = L) avail ->
  c ∈ combinations k (py_sort Z.ltb avail.*1) -> (0 < k)%nat ->
  exists sub rec, select avail c = Ok sub /\ reconstruct sub k len = Ok rec.
Proof.
  intros Hnd Hbytes Hav Hc Hk. apply combinations_sublist in Hc as [Hc Hl].
  assert (Hsub : c ⊆ avail.*1).
  { intros z Hz. apply (elem_of_py_sort Z.ltb). by eapply elem_of_sublist. }
  destruct (select_spec avail c Hnd Hsub) as (sub & Es & Ek & Hsa).
  destruct (reconstruct_total sub k len L) as (rec & Er & _).
  - rewrite Ek. eapply sublist_NoDup; [|exact Hc]. by rewrite py_sort_perm.
  - rewrite Ek. apply forallb_forall. intros z Hz. rewrite forallb_forall in Hbytes.
    apply Hbytes, list_elem_of_In, Hsub. by apply list_elem_of_In.
  - rewrite <- (length_fmap fst sub), Ek. lia.
  - rewrite Forall_forall in *. intros xb Hxb. by apply Hav, Hsa.
  - by exists sub, rec.
Qed.

(** Among the sorted keys there is a subset of [k] whose fragments satisfy a
    predicate that [k] available fragments satisfy. *)
Lemma genuine_keys (avail : list (Z * bytes)) (P : Z * bytes -> bool) k :
  NoDup avail.*1 -> (k <= length (List.filter P avail))%nat ->
  exists c, c `sublist_of` py_sort Z.ltb avail.*1 /\ length c = k /\
    forall x, x ∈ c -> exists b, (x, b) ∈ avail /\ P (x, b) = true.
Proof.
  intros Hnd Hk. set (Q := fun x => existsb (fun xb => Z.eqb xb.1 x && P xb) avail).
  set (c0 := List.filter Q (py_sort Z.ltb avail.*1)).
  assert (HQ : forall x, Q x = true <-> exists b, (x, b) ∈ avail /\ P (x, b) = true).
  { intros x. unfold Q. rewrite existsb_exists. split.
    - intros ([y b] & Hin & E). simpl in E. apply andb_true_iff in E as [Ey EP].
      apply Z.eqb_eq in Ey as ->. exists b. by rewrite list_elem_of_In.
    - intros (b & Hin & HP). exists (x, b). rewrite list_elem_of_In in Hin. simpl. by rewrite Z.eqb_refl. }
  assert (Hlen : length c0 = length (List.filter P avail)).
  { transitivity (length (List.filter Q avail.*1)).
    - unfold c0. apply Permutation_length, filter_bool_perm, py_sort_perm.
    - clear c0 Hk. assert (Hf : forall xb, xb ∈ avail -> Q xb.1 = P xb).
      { intros [x b] Hin. destruct (P (x, b)) eqn:EP; simpl.
        - apply HQ. eauto.
        - apply not_true_is_false. rewrite HQ. intros (b' & Hin' & EP').
          pose proof (frag_get_elem _ _ _ Hnd Hin) as G. rewrite (frag_get_elem _ _ _ Hnd Hin') in G.
          injection G as ->. congruence. }
      clear HQ. generalize Q Hf. clear. intros Q Hf. induction avail as [|xb avail IH]; [done|].
      rewrite fmap_cons. cbn [List.filter]. rewrite (Hf xb) by (by left).
      destruct (P xb); simpl; rewrite IH by (intros; apply Hf; by right); done. }
  exists (take k c0). split_and!.
  - etransitivity; [apply sublist_take|]. unfold c0. apply filter_bool_sublist.
  - rewrite length_take. lia.
  - intros x Hx. apply subseteq_take in Hx. unfold c0 in Hx.
    apply list_elem_of_In, filter_In in Hx as [_ Hx]. by apply HQ.
Qed.

(** ** What a reader relies on *)

(** The copies a manifest names are those of the leaf's dispersal. *)
Record written_leaf {S} `{FragStore S} (leaf : bytes) (p : Placement) (m : PropagationManifest) (s : S) : Prop := {
  w_root : m_root m = merkle_root leaf;
  w_k : m_k m = rs_k p;
  w_len : m_orig_len m = length leaf;
  w_frags : exists gp gl blks pad,
    leaf = vals gl /\ NoDup gp /\ Z.of_nat (length gp) = rs_n p /\
    Forall (fun b => length b = Z.to_nat (rs_k p)) blks /\ concat (map (map val) blks) = (leaf ++ pad)%list /\
    (fragment_nodes m).*1 ≡ₚ vals gp /\ stored_at s (m_root m) gp blks (fragment_nodes m);
  w_copies : Forall (fun xn => length xn.2 = Z.to_nat (shard_replicas p)) (fragment_nodes m);
  w_spread : NoDup (concat (fragment_nodes m).*2)
}.

Lemma propagate_writes {S} `{FragStore S} leaf nodes p tier (s : S) :
  forallb is_byte leaf = true -> NoDup nodes -> safe p -> rs_n p <= 255 ->
  rs_n p * shard_replicas p <= Z.of_nat (length nodes) ->
  exists m s', propagate leaf nodes p tier s = Ok (m, s') /\
    m = mkManifest (merkle_root leaf) (rs_k p) (rs_n p) (length leaf) (PStr tier) (shard_replicas p) (fragment_nodes m) /\
    written_leaf leaf p m s' /\ NoDup (fragment_nodes m).*1.
Proof.
  intros Hleaf Hnd Hsafe Hn Hroom.
  destruct (propagate_spec leaf nodes p tier s Hleaf Hnd Hsafe Hn Hroom)
    as (gp & gl & blks & pad & mapping & s' & Ep & Hl & Hndg & Hlg & Hblk & Hcat & Hkeys & Hlen & Hndm & Hst).
  eexists _, s'. split_and!; [exact Ep|done| |simpl; rewrite Hkeys; by apply NoDup_vals].
  split; try done. exists gp, gl, blks, pad. simpl. by rewrite Hkeys.
Qed.

(** The order in which the manifest lists the fragments does not matter. *)
Lemma written_leaf_perm {S} `{FragStore S} leaf p m m' (s : S) :
  m_root m' = m_root m -> m_k m' = m_k m -> m_orig_len m' = m_orig_len m ->
  fragment_nodes m' ≡ₚ fragment_nodes m -> written_leaf leaf p m s -> written_leaf leaf p m' s.
Proof.
  intros Hr Hk Hl Hp [Wr Wk Wl (gp & gl & blks & pad & E & ? & ? & ? & ? & Hkeys & Hst) Wc Ws].
  split; [congruence..| |by rewrite Hp|].
  - exists gp, gl, blks, pad. split_and!; try done; [by rewrite Hp|]. rewrite Hr.
    intros x nl node Hin. apply Hst. by rewrite <- Hp.
  - assert (Hc : concat (fragment_nodes m').*2 ≡ₚ concat (fragment_nodes m).*2); [|by rewrite Hc]. clear -Hp.
    induction Hp as [|x l l' _ IH|x y l|l1 l2 l3 _ IH1 _ IH2]; cbn [fmap list_fmap concat]; [done|by rewrite IH| |by rewrite IH1].
    by rewrite !app_assoc, (Permutation_app_comm y.2).
Qed.

Lemma fetch_written {S} `{FragStore S} leaf p m (s : S) seized get reachable max_attempts :
  written_leaf leaf p m s -> safe p -> seizure_view s seized get reachable ->
  Z.of_nat (size seized) < (rs_m p + 1) * shard_replicas p -> (0 < max_attempts)%nat ->
  fetch get reachable m max_attempts = Ok leaf.
Proof.
  intros [Wr Wk Wl (gp & gl & blks & pad & -> & Hndg & Hlg & Hblk & Hcat & Hkeys & Hst) Hlen Hndm]
    (Hk & Hm & _ & Hr & _) Hv Hs Hmax.
  destruct (available_view s seized get reachable m gp blks _ Hv Hst eq_refl) as [Hsub Hla].
  { intros z Hz. by rewrite <- Hkeys. }
  pose proof (survivors (fragment_nodes m) (Z.to_nat (shard_replicas p)) (Z.to_nat (rs_m p)) seized Hlen Hndm
    ltac:(lia) ltac:(nia)) as Hsv.
  assert (Hlm : length (fragment_nodes m) = length gp).
  { rewrite <- (length_fmap fst (fragment_nodes m)), Hkeys. apply length_map. }
  assert (Hge : (Z.to_nat (rs_k p) <= length (available get reachable m))%nat).
  { rewrite Hla. unfold rs_n in Hlg. lia. }
  assert (Hnda : NoDup (available get reachable m).*1).
  { eapply sublist_NoDup; [|apply available_keys]. rewrite Hkeys. by apply NoDup_vals. }
  unfold fetch. rewrite Wk. destruct (Z.ltb_spec (Z.of_nat (length (available get reachable m))) (rs_k p)); [lia|].
  destruct (Z.ltb_spec (rs_k p) 0); [lia|].
  set (avail := available get reachable m) in *. set (keys := py_sort Z.ltb avail.*1).
  destruct (combinations_first (Z.to_nat (rs_k p)) keys) as [cs ->].
  { unfold keys. by rewrite py_sort_length, length_fmap. }
  destruct max_attempts as [|budget]; [lia|]. cbn [try_combos].
  destruct (select_spec avail (take (Z.to_nat (rs_k p)) keys) Hnda) as (sub & -> & Ek & Hsa).
  { intros z Hz. apply (elem_of_py_sort Z.ltb). eapply subseteq_take, Hz. }
  cbn [mbind res_bind]. rewrite Wk, Wl.
  rewrite (genuine_combo gp blks gl pad); [|set_solver| | |lia|done|done].
  - cbn [mbind res_bind]. by rewrite Wr, String.eqb_refl.
  - rewrite Ek. eapply sublist_NoDup; [|apply sublist_take]. unfold keys. by rewrite py_sort_perm.
  - rewrite <- (length_fmap fst sub), Ek, length_take. unfold keys. rewrite py_sort_length, length_fmap. lia.
Qed.

(** ** Properties *)

(** C2: a written leaf can be read after a raid.  Write a leaf at any admissible
    placement on a mesh with room for its copies, in any store; then seize any
    set of fewer than [(rs_m + 1) * shard_replicas] nodes, so that they answer
    nothing or are cut off.  Reading returns the leaf, byte for byte. *)
Theorem fetch_after_seizure {S} `{FragStore S} leaf nodes p tier (s : S) max_attempts :
  forallb is_byte leaf = true -> NoDup nodes -> safe p -> rs_n p <= 255 ->
  rs_n p * shard_replicas p <= Z.of_nat (length nodes) -> (0 < max_attempts)%nat ->
  exists m s', propagate leaf nodes p tier s = Ok (m, s') /\
    forall seized get reachable,
      seizure_view s' seized get reachable ->
      Z.of_nat (size seized) < (rs_m p + 1) * shard_replicas p ->
      fetch get reachable m max_attempts = Ok leaf.
Proof.
  intros Hleaf Hnd Hsafe Hn Hroom Hmax.
  destruct (propagate_writes leaf nodes p tier s Hleaf Hnd Hsafe Hn Hroom) as (m & s' & Ep & _ & Hw & _).
  exists m, s'. split; [done|]. intros seized get reachable Hv Hs. by apply (fetch_written leaf p m s' seized).
Qed.

Lemma reconstruct_bytes fr k len rec : reconstruct fr k len = Ok rec -> forallb is_byte rec = true.
Proof.
  unfold reconstruct. destruct (Nat.ltb _ _); [done|]. intros E.
  apply bind_Ok_inv in E as (x0 & _ & E). apply bind_Ok_inv in E as (f0 & _ & E).
  apply bind_Ok_inv in E as (out & Eo & E). injection E as <-.
  apply forallb_forall. intros z Hz. apply list_elem_of_In, subseteq_take in Hz.
  apply list_elem_of_In, in_concat in Hz as (c & Hc & Hz).
  apply res_map_Ok_Forall2 in Eo. apply list_elem_of_In, list_elem_of_lookup in Hc as [i Hi].
  destruct (Forall2_lookup_r _ _ _ _ _ Eo Hi) as (pos & _ & Ec). unfold reconstruct_at in Ec.
  apply bind_Ok_inv in Ec as (ys & _ & Ec). apply bind_Ok_inv in Ec as (co & _ & Ec).
  destruct (forallb is_byte co) eqn:Eb; [|done]. injection Ec as <-.
  rewrite forallb_forall in Eb. auto.
Qed.

Lemma string_of_bytes_inj b1 b2 :
  forallb is_byte b1 = true -> forallb is_byte b2 = true ->
  string_of_bytes b1 = string_of_bytes b2 -> b1 = b2.
Proof.
  revert b2; induction b1 as [|x b1 IH]; intros [|y b2] H1 H2 E; simpl in *; try done.
  rewrite andb_true_iff, is_byte_spec in H1, H2. destruct H1 as [Hx H1], H2 as [Hy H2].
  injection E as Ex Eb. apply (f_equal Ascii.nat_of_ascii) in Ex.
  rewrite !Ascii.nat_ascii_embedding in Ex by lia. f_equal; [lia|]. by apply IH.
Qed.

(** C7: no silent wrong read.  Whatever the nodes answer, and whatever the
    manifest says about places and sizes, a read that returns gives bytes of the
    committed root: the leaf itself, or an explicit SHA-256 collision with it. *)
Theorem fetch_never_lies get reachable m max_attempts leaf rec :
  m_root m = merkle_root leaf -> forallb is_byte leaf = true ->
  fetch get reachable m max_attempts = Ok rec ->
  rec = leaf \/ collision_between [string_of_bytes rec] [string_of_bytes leaf].
Proof.
  intros Hroot Hleaf E. unfold fetch in E. destruct (_ <? m_k m); [done|]. destruct (m_k m <? 0); [done|].
  apply try_combos_root in E as (Hm & c & sub & _ & _ & Er).
  rewrite Hroot in Hm. apply string_app_inv_l in Hm.
  destruct (sha256_eq_or_collision _ _ [string_of_bytes rec] [string_of_bytes leaf]
    ltac:(by left) ltac:(by left) Hm) as [Es|Hc]; [left|by right].
  apply string_of_bytes_inj in Es; [done| |done]. by eapply reconstruct_bytes.
Qed.

(** A fragment that some node of the manifest holds in the store. *)
Definition genuine {S} `{FragStore S} (s : S) (m : PropagationManifest) (xb : Z * bytes) : bool :=
  existsb (fun xn : Z * list string =>
    Z.eqb xn.1 xb.1 &&
    existsb (fun node => bool_decide (frag_read node (_frag_key (m_root m) xb.1) s = Some xb.2)) xn.2)
    (fragment_nodes m).

Lemma genuine_state {S} `{FragStore S} (s : S) m gp blks xb :
  stored_at s (m_root m) gp blks (fragment_nodes m) ->
  (fragment_nodes m).*1 = vals gp -> genuine s m xb = true -> xb ∈ frag_state gp blks.
Proof.
  destruct xb as [x b]. intros Hst Hk Hg. apply existsb_exists in Hg as ([y nl] & Hin & Hg).
  apply andb_true_iff in Hg as [Ey Hg]. simpl in *. apply Z.eqb_eq in Ey as ->.
  apply existsb_exists in Hg as (node & Hnode & Hr). apply bool_decide_eq_true in Hr.
  apply list_elem_of_In in Hin, Hnode.
  assert (Hx : x ∈ vals gp) by (rewrite <- Hk; by apply (list_elem_of_fmap_2 fst) in Hin).
  apply list_elem_of_In, in_map_iff in Hx as (x' & <- & Hx').
  rewrite (Hst _ _ _ Hin Hnode) in Hr. injection Hr as <-. apply list_elem_of_In, in_map_iff. by exists x'.
Qed.

(** A liar is routed around.  After a write, let the nodes answer anything,
    as long as the answers are equally long: if [k] of the fragments that come
    back are genuine and the subsets fit the attempt budget, the read returns
    bytes of the committed root. *)
Theorem fetch_routes_around_liars {S} `{FragStore S} leaf nodes p tier (s : S) m s' get reachable L max_attempts :
  forallb is_byte leaf = true -> NoDup nodes -> safe p -> rs_n p <= 255 ->
  rs_n p * shard_replicas p <= Z.of_nat (length nodes) ->
  propagate leaf nodes p tier s = Ok (m, s') ->
  Forall (fun xb => forallb is_byte xb.2 = true /\ length xb.2 = L) (available get reachable m) ->
  rs_k p <= Z.of_nat (length (List.filter (genuine s' m) (available get reachable m))) ->
  (length (combinations (Z.to_nat (rs_k p)) (py_sort Z.ltb (available get reachable m).*1)) <= max_attempts)%nat ->
  exists rec, fetch get reachable m max_attempts = Ok rec /\ merkle_root rec = m_root m.
Proof.
  intros Hleaf Hnd Hsafe Hn Hroom Ep Hav Hgen Hbudget.
  destruct (propagate_spec leaf nodes p tier s Hleaf Hnd Hsafe Hn Hroom)
    as (gp & gl & blks & pad & mapping & s1 & Ep' & -> & Hndg & Hlg & Hblk & Hcat & Hkeys & Hlen & Hndm & Hst).
  rewrite Ep in Ep'. injection Ep' as -> ->. destruct Hsafe as (Hk & _).
  set (m := mkManifest _ _ _ _ _ _ _) in *. set (avail := available get reachable m) in *.
  assert (Hnda : NoDup avail.*1).
  { eapply sublist_NoDup; [|apply available_keys]. simpl. rewrite Hkeys. by apply NoDup_vals. }
  assert (Hbytes : forallb is_byte avail.*1 = true).
  { apply forallb_forall. intros z Hz. apply list_elem_of_In in Hz.
    eapply elem_of_sublist in Hz; [|apply available_keys]. simpl in Hz. rewrite Hkeys in Hz.
    apply list_elem_of_In, in_map_iff in Hz as (x & <- & _). apply val_byte. }
  pose proof (filter_length_le (genuine s1 m) avail).
  unfold fetch. fold avail. simpl m_k. destruct (Z.ltb_spec (Z.of_nat (length avail)) (rs_k p)); [lia|].
  destruct (Z.ltb_spec (rs_k p) 0); [lia|]. apply try_combos_finds; [done| |].
  - intros c Hc. simpl m_k. apply (combo_total avail (Z.to_nat (rs_k p)) L); done || lia.
  - destruct (genuine_keys avail (genuine s1 m) (Z.to_nat (rs_k p))) as (c & Hc & Hcl & Hcg); [done|lia|].
    destruct (select_spec avail c Hnda) as (sub & Es & Ek & Hsub).
    { intros z Hz. apply (elem_of_py_sort Z.ltb). by eapply elem_of_sublist. }
    exists c, sub, (vals gl). split; [by apply combinations_sublist|]. split; [done|]. simpl m_k. simpl m_orig_len.
    split; [|done]. apply (genuine_combo gp blks gl pad); [| | |lia|done|done].
    + intros [x b] Hxb. assert (Hx : x ∈ c) by (rewrite <- Ek; by apply (list_elem_of_fmap_2 fst) in Hxb).
      destruct (Hcg x Hx) as (b' & Hin & Hg). apply (genuine_state s1 m gp blks) in Hg; [|done|done].
      pose proof (frag_get_elem _ _ _ Hnda (Hsub _ Hxb)) as G1.
      rewrite (frag_get_elem _ _ _ Hnda Hin) in G1. by injection G1 as ->.
    + rewrite Ek. eapply sublist_NoDup; [|exact Hc]. by rewrite py_sort_perm.
    + by rewrite <- (length_fmap fst sub), Ek.
Qed.

(** ** A concrete mesh *)

Definition mesh : list string := ["a"; "b"; "c"]%string.
Definition plain : Placement := mkPlacement 3 2 1 true 1.
Definition secret : bytes := [115; 101; 99; 114].

Definition written : PropagationManifest * memory := Eval vm_compute in
  match propagate secret mesh plain "runtime" (∅ : memory) with
  | Ok ms => ms
  | Raise _ => (mkManifest "" 0 0 0 PNone 0 [], ∅)
  end.

Definition honest_get (node key : string) : res (option bytes) := Ok (frag_read node key (snd written)).
(** Node [b] lies, answers with a cut fragment, or is down. *)
Definition lying_get (node key : string) : res (option bytes) :=
  if String.eqb node "b" then Ok (Some [1; 2]) else honest_get node key.
Definition cut_get (node key : string) : res (option bytes) :=
  if String.eqb node "b" then Ok (Some []) else honest_get node key.
Definition raided_get (node key : string) : res (option bytes) :=
  if String.eqb node "b" then Raise (OtherError "connection refused") else honest_get node key.

(** A cut fragment is not routed around.  With two genuine fragments out of
    three and [k = 2], one node that answers with too short a fragment makes the
    read raise [IndexError], where the other two suffice; a liar of the right
    length, or a node that is down, does no harm. *)
Theorem short_fragment_crashes_fetch :
  fetch cut_get None (fst written) 500 = Raise IndexError /\
  fetch lying_get None (fst written) 500 = Ok secret /\
  fetch raided_get None (fst written) 500 = Ok secret.
Proof. split_and!; vm_compute; reflexivity. Qed.

(** ** Witnesses *)

Lemma fetch_after_seizure_witness :
  exists m s', propagate secret mesh plain "runtime" (∅ : memory) = Ok (m, s') /\
    forall seized get reachable,
      seizure_view s' seized get reachable -> Z.of_nat (size seized) < 2 ->
      fetch get reachable m 500 = Ok secret.
Proof.
  apply (fetch_after_seizure secret mesh plain "runtime" (∅ : memory) 500).
  - reflexivity.
  - repeat constructor; set_solver.
  - repeat split; discriminate.
  - discriminate.
  - discriminate.
  - lia.
Defined.

Lemma fetch_never_lies_witness :
  secret = secret \/ collision_between [string_of_bytes secret] [string_of_bytes secret].
Proof. apply (fetch_never_lies lying_get None (fst written) 500); vm_compute; reflexivity. Defined.

Lemma fetch_routes_around_liars_witness :
  exists rec, fetch lying_get None (fst written) 500 = Ok rec /\ merkle_root rec = m_root (fst written).
Proof.
  apply (fetch_routes_around_liars secret mesh plain "runtime" (∅ : memory) (fst written) (snd written)
    lying_get None 2 500).
  - reflexivity.
  - repeat constructor; set_solver.
  - repeat split; discriminate.
  - discriminate.
  - discriminate.
  - vm_cast_no_check (@eq_refl (res (PropagationManifest * memory)) (Ok written)).
  - vm_compute. repeat constructor.
  - vm_compute. discriminate.
  - vm_compute. lia.
Defined.
