(* ===== verification/ManifestStore.v ===== *)
(** * Manifests that can be found by their root

    Models [automation/manifest_store.py], and the class of blob stores its
    [put_blob] and [get_blob] stand for.  A blob is the text of its bytes.  As
    with [fetch], the [get_blob] a reader uses is any function.

    Of a manifest that some node serves, a root that is not a text is the root
    of no leaf; a node name that is not one names no node; a negative length, or
    a list for a node name, raises as soon as the manifest is read. *)

From S2P Require Import Prelude PyVal Json PyText JsonParse Sha256 HolographicIda StorageResilience LeafPropagation.
Local Open Scope string_scope.

(** ** The store interface *)

Class BlobStore (S : Type) := {
  blob_put : string -> string -> string -> S -> S;
  blob_read : string -> string -> S -> option string;
  blob_read_put_eq node key b s : blob_read node key (blob_put node key b s) = Some b;
  blob_read_put_ne node key node' key' b s :
    (node, key) <> (node', key') -> blob_read node' key' (blob_put node key b s) = blob_read node' key' s
}.

Definition blob_put_all {S} `{BlobStore S} (targets : list string) (key b : string) (s : S) : S :=
  foldl (fun s node => blob_put node key b s) s targets.

Lemma read_put_all {S} `{BlobStore S} targets key b node key' (s : S) :
  blob_read node key' (blob_put_all targets key b s) =
  if bool_decide (node ∈ targets /\ key' = key) then Some b else blob_read node key' s.
Proof.
  unfold blob_put_all. revert s; induction targets as [|n targets IH]; intros s; cbn [foldl].
  - rewrite bool_decide_false; [done|]. intros [Hin _]. by apply not_elem_of_nil in Hin.
  - rewrite IH. destruct (decide (node ∈ targets /\ key' = key)) as [Hy|Hn].
    { rewrite !bool_decide_true; [done|set_solver|done]. }
    rewrite (bool_decide_false _ Hn). destruct (decide (node = n /\ key' = key)) as [[-> ->]|Hne].
    + rewrite blob_read_put_eq, bool_decide_true; [done|set_solver].
    + rewrite blob_read_put_ne by naive_solver. rewrite bool_decide_false; [done|set_solver].
Qed.

(** ** Rendezvous hashing *)

(** The digest of a name and a node; digests of equal length compare as their
    hexadecimal texts do. *)
Definition _weight (root node : string) : string := sha256_hex (root +:+ "|" +:+ node).

Definition heavier (root a b : string) : bool := String.ltb (_weight root b) (_weight root a).

Definition manifest_nodes (root : string) (nodes : list string) (replicas : Z) : res (list string) :=
  if ((replicas <? 1) || (Z.of_nat (length nodes) <? replicas))%Z then
    Raise (ValueError ("replicas must be in 1.." +:+ pretty (length nodes)))
  else Ok (take (Z.to_nat replicas) (py_sort (heavier root) (remove_dups nodes))).

Definition _key (root : string) : string := "manifest:" +:+ root.

(** ** The text of a manifest *)

Definition node_names (nl : pyval) : res (list string) :=
  l ← py_iter nl;
  if forallb hashable l then Ok (omap (fun v => match v with PStr s => Some s | _ => None end) l)
  else Raise TypeError.

Fixpoint zset {A} (k : Z) (v : A) (d : list (Z * A)) : list (Z * A) :=
  match d with
  | [] => [(k, v)]
  | (k', v') :: d => if Z.eqb k' k then (k', v) :: d else (k', v') :: zset k v d
  end.

(** [{int(x): list(nl) for x, nl in ...}]. *)
Definition fragment_entry (kv : string * pyval) : res (Z * list string) :=
  x ← py_int kv.1; nl ← node_names kv.2; Ok (x, nl).

Definition fragment_dict (d : dict) : res (list (Z * list string)) :=
  entries ← res_map fragment_entry d;
  Ok (foldl (fun acc (e : Z * list string) => zset e.1 e.2 acc) [] entries).

Definition manifest_json (m : PropagationManifest) : pyval :=
  PDict [("root", PStr (m_root m)); ("k", PInt (m_k m)); ("n", PInt (m_n m));
         ("orig_len", PInt (Z.of_nat (m_orig_len m))); ("tier", m_tier m); ("replicas", PInt (m_replicas m));
         ("fragment_nodes", PDict (map (fun xn => (pretty xn.1, PList (map PStr xn.2))) (fragment_nodes m)))].

Section manifests.
Context `{FloatRepr}.

Definition _serialize (m : PropagationManifest) : string := dumps (norm (manifest_json m)).

Definition int_item (d : pyval) (k : string) : res Z := v ← py_item d k; py_int_of v.

Definition _deserialize (blob : string) : res (option PropagationManifest) :=
  d ← loads blob;
  root ← py_item d "root";
  k ← int_item d "k";
  n ← int_item d "n";
  orig_len ← int_item d "orig_len";
  tier ← py_item d "tier";
  replicas ← int_item d "replicas";
  fn ← py_item d "fragment_nodes";
  items ← py_items fn;
  fragment_nodes ← fragment_dict items;
  if (orig_len <? 0)%Z then Raise (OtherError "negative length")
  else Ok match root with
          | PStr root => Some (mkManifest root k n (Z.to_nat orig_len) tier replicas fragment_nodes)
          | _ => None
          end.

(** ** Publishing and resolving *)

Definition publish_manifest {S} `{BlobStore S} (manifest : PropagationManifest) (nodes : list string) (replicas : Z) (s : S) :
    res (list string * S) :=
  let blob := _serialize manifest in
  targets ← manifest_nodes (m_root manifest) nodes replicas;
  Ok (targets, blob_put_all targets (_key (m_root manifest)) blob s).

Section resolve.
Variable get_blob : string -> string -> res (option string).
Variable reachable : option (gset string).

Fixpoint first_manifest (root : string) (targets : list string) : res PropagationManifest :=
  match targets with
  | [] => Raise ManifestUnavailable
  | node :: targets =>
    if unreachable reachable node then first_manifest root targets
    else
      match get_blob node (_key root) with
      | Ok (Some blob) =>
        served ← _deserialize blob;
        match (served : option PropagationManifest) with
        | Some m => if String.eqb (m_root m) root then Ok m else first_manifest root targets
        | None => first_manifest root targets
        end
      | Ok None | Raise _ => first_manifest root targets
      end
  end.

Definition resolve_manifest (root : string) (nodes : list string) (replicas : Z) : res PropagationManifest :=
  targets ← manifest_nodes root nodes replicas;
  first_manifest root targets.
End resolve.

(** ** Where a manifest is *)

Lemma manifest_nodes_spec root nodes replicas :
  NoDup nodes -> (1 <= replicas <= Z.of_nat (length nodes))%Z ->
  exists targets, manifest_nodes root nodes replicas = Ok targets /\ NoDup targets /\ targets ⊆ nodes /\
    Z.of_nat (length targets) = replicas.
Proof.
  intros Hnd Hr. unfold manifest_nodes.
  assert (Hp : py_sort (heavier root) (remove_dups nodes) ≡ₚ nodes).
  { rewrite py_sort_perm. apply NoDup_Permutation; [apply NoDup_remove_dups|done|].
    intros x. apply elem_of_remove_dups. }
  destruct (Z.ltb_spec replicas 1), (Z.ltb_spec (Z.of_nat (length nodes)) replicas); try lia. simpl.
  eexists. split; [done|]. split_and!.
  - eapply sublist_NoDup; [|apply sublist_take]. by rewrite Hp.
  - intros x Hx%subseteq_take. by rewrite <- Hp.
  - rewrite length_take, Hp. lia.
Qed.

(** ** Reading a manifest back *)

Lemma zset_fresh {A} k (v : A) d : k ∉ d.*1 -> zset k v d = (d ++ [(k, v)])%list.
Proof.
  induction d as [|[k' v'] d IH]; [done|]. rewrite fmap_cons, not_elem_of_cons. simpl. intros [Hne Hd].
  rewrite (proj2 (Z.eqb_neq k' k)) by done. by rewrite IH.
Qed.

Lemma foldl_zset {A} (l acc : list (Z * A)) :
  NoDup (acc ++ l)%list.*1 -> foldl (fun acc (e : Z * A) => zset e.1 e.2 acc) acc l = (acc ++ l)%list.
Proof.
  revert acc; induction l as [|[k v] l IH]; intros acc Hnd; cbn [foldl]; [by rewrite app_nil_r|].
  assert (Hk : k ∉ acc.*1).
  { rewrite fmap_app, NoDup_app in Hnd. destruct Hnd as (_ & Hd & _). intros Hin. apply (Hd k Hin). by left. }
  rewrite zset_fresh by done. rewrite IH; rewrite <- app_assoc; done.
Qed.

Lemma node_names_list nl : node_names (PList (map PStr nl)) = Ok nl.
Proof.
  unfold node_names. cbn [py_iter mbind res_bind]. rewrite (proj2 (forallb_forall _ _)).
  - f_equal. induction nl as [|x nl IH]; [done|]. cbn. by f_equal.
  - intros v (s & <- & _)%in_map_iff. done.
Qed.

Definition fragment_json (xn : Z * list string) : string * pyval := (pretty xn.1, PList (map PStr xn.2)).

Lemma fragment_entry_json xn : fragment_entry (fragment_json xn) = Ok xn.
Proof. destruct xn. unfold fragment_entry, fragment_json. cbn [fst snd]. by rewrite py_int_pretty, node_names_list. Qed.

(** The dictionary of the fragments as it is written, sorted by the texts of
    their numbers. *)
Definition sorted_fragments (fn : list (Z * list string)) : dict := py_sort key_ltb (map fragment_json fn).

Lemma norm_fragments fn :
  norm (PDict (map (fun xn => (pretty xn.1, PList (map PStr xn.2))) fn)) = PDict (sorted_fragments fn).
Proof.
  cbn [norm]. unfold sorted_fragments. do 2 f_equal. rewrite map_map. apply map_ext. intros [x nl].
  unfold fragment_json. cbn [norm fst snd]. by rewrite map_map.
Qed.

Lemma sorted_fragments_textual fn : NoDup fn.*1 -> textual (PDict (sorted_fragments fn)).
Proof.
  intros Hnd. apply textual_dict. unfold sorted_fragments. rewrite py_sort_perm. split.
  - replace (map fragment_json fn).*1 with (pretty <$> fn.*1) by (clear; induction fn as [|xn fn IH]; [done|]; cbn; by f_equal).
    by apply NoDup_fmap_2; [apply _|].
  - apply Forall_forall. intros kv Hkv. apply list_elem_of_fmap in Hkv as ([x nl] & -> & _). apply textual_list.
    apply Forall_forall. intros v Hv. apply list_elem_of_fmap in Hv as (s & -> & _). done.
Qed.

Lemma fragment_dict_sorted fn :
  NoDup fn.*1 -> exists l, fragment_dict (sorted_fragments fn) = Ok l /\ l ≡ₚ fn.
Proof.
  intros Hnd. unfold fragment_dict.
  assert (E : res_map fragment_entry (map fragment_json fn) = Ok fn).
  { apply res_map_Ok_Forall2. clear Hnd. induction fn as [|xn fn IH]; simpl; constructor; [apply fragment_entry_json|done]. }
  assert (Hp : map fragment_json fn ≡ₚ sorted_fragments fn) by (unfold sorted_fragments; by rewrite py_sort_perm).
  destruct (res_map_perm fragment_entry _ (sorted_fragments fn) _ Hp E) as (l & -> & Hl).
  cbn [mbind res_bind]. exists l. split; [|done]. rewrite foldl_zset; [done|]. cbn [app]. by rewrite <- Hl.
Qed.

(** A manifest reads back as it was, but for the order of its fragments. *)
Lemma deserialize_serialize m t :
  NoDup (fragment_nodes m).*1 -> m_tier m = PStr t ->
  exists l, l ≡ₚ fragment_nodes m /\
    _deserialize (_serialize m) = Ok (Some (mkManifest (m_root m) (m_k m) (m_n m) (m_orig_len m) (m_tier m) (m_replicas m) l)).
Proof.
  intros Hnd Ht. unfold _deserialize, _serialize.
  set (fn := PDict (sorted_fragments (fragment_nodes m))).
  assert (En : norm (manifest_json m) =
    PDict [("fragment_nodes", fn); ("k", PInt (m_k m)); ("n", PInt (m_n m)); ("orig_len", PInt (Z.of_nat (m_orig_len m)));
           ("replicas", PInt (m_replicas m)); ("root", PStr (m_root m)); ("tier", m_tier m)]).
  { unfold manifest_json, fn. rewrite <- norm_fragments, Ht. reflexivity. }
  rewrite En, loads_dumps.
  2: { apply textual_dict. split; [apply (bool_decide_unpack _); reflexivity|].
       rewrite Ht. constructor; [by apply sorted_fragments_textual|]. repeat constructor. }
  destruct (fragment_dict_sorted _ Hnd) as (l & El & Hl). exists l. split; [done|].
  unfold int_item. cbn -[fragment_dict Z.ltb]. rewrite El. cbn [mbind res_bind].
  destruct (Z.ltb_spec (Z.of_nat (m_orig_len m)) 0); [lia|]. by rewrite Nat2Z.id.
Qed.

(** ** Finding it after a seizure *)

(** What the readers of a mesh see of its blobs when some nodes are seized. *)
Definition blob_view {S} `{BlobStore S} (s : S) (seized : gset string)
    (get_blob : string -> string -> res (option string)) (reachable : option (gset string)) : Prop :=
  forall node key,
    (node ∉ seized -> unreachable reachable node = false /\ get_blob node key = Ok (blob_read node key s)) /\
    (node ∈ seized -> unreachable reachable node = true \/ forall b, get_blob node key <> Ok (Some b)).

Lemma some_target_left (targets : list string) (seized : gset string) :
  NoDup targets -> (size seized < length targets)%nat -> exists t, t ∈ targets /\ t ∉ seized.
Proof.
  intros Hnd Hs. destruct (decide (Exists (fun t => t ∉ seized) targets)) as [Hex|Hno].
  - apply Exists_exists in Hex as (t & ? & ?). eauto.
  - assert (Hsub : list_to_set targets ⊆ seized).
    { intros t Ht%elem_of_list_to_set. destruct (decide (t ∈ seized)) as [|Hn]; [done|].
      destruct Hno. apply Exists_exists. eauto. }
    apply subseteq_size in Hsub. rewrite size_list_to_set in Hsub by done. lia.
Qed.

(** The manifest of the leaf, wherever its copies are and in any order. *)
Record same_manifest (m m' : PropagationManifest) : Prop := {
  sm_root : m_root m' = m_root m;
  sm_k : m_k m' = m_k m;
  sm_n : m_n m' = m_n m;
  sm_len : m_orig_len m' = m_orig_len m;
  sm_tier : m_tier m' = m_tier m;
  sm_replicas : m_replicas m' = m_replicas m;
  sm_nodes : fragment_nodes m' ≡ₚ fragment_nodes m
}.

Definition manifest_held {S} `{BlobStore S} (m : PropagationManifest) (nodes : list string) (replicas : Z) (s : S) : Prop :=
  forall targets node, manifest_nodes (m_root m) nodes replicas = Ok targets -> node ∈ targets ->
    blob_read node (_key (m_root m)) s = Some (_serialize m).

Lemma publish_held {S} `{BlobStore S} m nodes replicas (s s' : S) targets :
  publish_manifest m nodes replicas s = Ok (targets, s') -> manifest_held m nodes replicas s'.
Proof.
  unfold publish_manifest. intros E targets' node Et Hn. rewrite Et in E. cbn [mbind res_bind] in E. simplify_eq.
  by rewrite read_put_all, bool_decide_true.
Qed.

Lemma first_manifest_found {S} `{BlobStore S} m m' (s : S) seized get_blob reachable targets :
  _deserialize (_serialize m) = Ok (Some m') -> m_root m' = m_root m -> blob_view s seized get_blob reachable ->
  (forall node, node ∈ targets -> blob_read node (_key (m_root m)) s = Some (_serialize m)) ->
  (exists t, t ∈ targets /\ t ∉ seized) ->
  first_manifest get_blob reachable (m_root m) targets = Ok m'.
Proof.
  intros Hd Hr Hv. induction targets as [|node targets IH]; intros Hheld (t & Hin & Hout); [by apply not_elem_of_nil in Hin|].
  cbn [first_manifest]. destruct (Hv node (_key (m_root m))) as [Hup Hdown].
  destruct (decide (node ∈ seized)) as [Hs|Hs].
  - assert (Hrest : first_manifest get_blob reachable (m_root m) targets = Ok m').
    { apply IH; [intros; apply Hheld; by right|]. apply elem_of_cons in Hin as [->|Hin]; [done|eauto]. }
    destruct (Hdown Hs) as [->|Hno]; [done|]. destruct (unreachable reachable node); [done|].
    destruct (get_blob node _) as [[b|]|]; [by destruct (Hno b)|done..].
  - destruct (Hup Hs) as [-> ->]. rewrite Hheld by (by left). rewrite Hd. cbn [mbind res_bind].
    by rewrite Hr, String.eqb_refl.
Qed.

Lemma resolve_held {S} `{BlobStore S} m t nodes replicas (s : S) seized get_blob reachable :
  NoDup nodes -> (1 <= replicas <= Z.of_nat (length nodes))%Z -> NoDup (fragment_nodes m).*1 -> m_tier m = PStr t ->
  manifest_held m nodes replicas s -> blob_view s seized get_blob reachable -> (Z.of_nat (size seized) < replicas)%Z ->
  exists m', resolve_manifest get_blob reachable (m_root m) nodes replicas = Ok m' /\ same_manifest m m'.
Proof.
  intros Hnd Hrep Hfn Ht Hheld Hv Hs. destruct (deserialize_serialize m t Hfn Ht) as (l & Hl & Hd).
  destruct (manifest_nodes_spec (m_root m) nodes replicas Hnd Hrep) as (targets & Et & Hndt & _ & Hlen).
  unfold resolve_manifest. rewrite Et. cbn [mbind res_bind]. eexists. split.
  - eapply first_manifest_found; [exact Hd|done|done|by intros; eapply Hheld|]. apply some_target_left; [done|lia].
  - by split.
Qed.

(** A manifest can be found by its root after a raid.  Publish a manifest
    with [replicas] copies on any mesh of distinct nodes and seize fewer than
    [replicas] of them: whoever knows the root reads the manifest back, up to
    the order of its fragments. *)
Theorem manifest_survives_seizure {S} `{BlobStore S} m t nodes replicas (s : S) :
  NoDup nodes -> (1 <= replicas <= Z.of_nat (length nodes))%Z -> NoDup (fragment_nodes m).*1 -> m_tier m = PStr t ->
  exists targets s', publish_manifest m nodes replicas s = Ok (targets, s') /\
    forall seized get_blob reachable,
      blob_view s' seized get_blob reachable -> (Z.of_nat (size seized) < replicas)%Z ->
      exists m', resolve_manifest get_blob reachable (m_root m) nodes replicas = Ok m' /\ same_manifest m m'.
Proof.
  intros Hnd Hrep Hfn Ht. destruct (manifest_nodes_spec (m_root m) nodes replicas Hnd Hrep) as (targets & Et & _).
  destruct (publish_manifest m nodes replicas s) as [[tg s']|] eqn:Ep; [|unfold publish_manifest in Ep; by rewrite Et in Ep].
  exists tg, s'. split; [done|]. intros seized get_blob reachable Hv Hs. eapply resolve_held; [..|exact Hs]; try done.
  by eapply publish_held.
Qed.
End manifests.

(** ** In memory *)

Abbreviation blobs := (gmap (string * string) string).

#[export] Program Instance in_memory_blobs : BlobStore blobs :=
  {| blob_put node key b s := <[(node, key) := b]> s; blob_read node key s := s !! (node, key) |}.
Next Obligation. intros. apply lookup_insert_eq. Qed.
Next Obligation. intros. by apply lookup_insert_ne. Qed.

Section sample.
Existing Instance demo_float_repr.

Lemma manifest_survives_seizure_witness :
  exists targets s', publish_manifest (fst written) mesh 2 (∅ : blobs) = Ok (targets, s') /\
    forall seized get_blob reachable,
      blob_view s' seized get_blob reachable -> (Z.of_nat (size seized) < 2)%Z ->
      exists m', resolve_manifest get_blob reachable (m_root (fst written)) mesh 2 = Ok m' /\ same_manifest (fst written) m'.
Proof.
  apply (manifest_survives_seizure (fst written) "runtime" mesh 2 (∅ : blobs)).
  - repeat constructor; set_solver.
  - by split.
  - apply (bool_decide_unpack _). vm_compute. exact I.
  - reflexivity.
Defined.

(** A copy that is not JSON stops the search, although another copy is intact. *)
Definition garbled (node key : string) : res (option string) :=
  match manifest_nodes (m_root (fst written)) mesh 2 with
  | Ok (first :: _) => Ok (Some (if String.eqb node first then "?" else _serialize (fst written)))
  | _ => Ok None
  end.

Example garbled_copy_stops_resolution :
  resolve_manifest garbled None (m_root (fst written)) mesh 2 = Raise JSONDecodeError /\
  is_ok (resolve_manifest (fun _ _ => Ok (Some (_serialize (fst written)))) None (m_root (fst written)) mesh 2) = true.
Proof. split; vm_compute; reflexivity. Qed.
End sample.
