(* ===== verification/MeshNamespace.v ===== *)
(** * The mutable name layer

    Models [automation/mesh_namespace.py]: blobs replicated under a name to the
    nodes of highest rendezvous weight, and on top of them a last-writer-wins
    register per path.  The fields of a reference are whatever a replica
    served; comparing two that are neither texts nor integers raises. *)

From S2P Require Import Prelude PyVal Json PyText JsonParse Sha256 LeafPropagation ManifestStore.
Local Open Scope string_scope.

(** The computation of [manifest_nodes], for a name. *)
Definition ref_nodes (key : string) (nodes : list string) (replicas : Z) : res (list string) :=
  manifest_nodes key nodes replicas.

Definition _blob_key (name : string) : string := "ns:" +:+ name.

Definition publish_blob {S} `{BlobStore S} (name blob : string) (nodes : list string) (replicas : Z) (s : S) :
    res (list string * S) :=
  targets ← ref_nodes name nodes replicas;
  Ok (targets, blob_put_all targets (_blob_key name) blob s).

Section read.
Variable get_blob : string -> string -> res (option string).
Variable reachable : option (gset string).

Definition read_one (name node : string) : option string :=
  if unreachable reachable node then None
  else match get_blob node (_blob_key name) with Ok b => b | Raise _ => None end.

Definition read_all (name : string) (nodes : list string) (replicas : Z) : res (list string) :=
  targets ← ref_nodes name nodes replicas;
  Ok (omap (read_one name) (targets : list string)).
End read.

(** ** References *)

Record NamespaceRef := mkNsRef {
  ns_path : pyval;
  ns_root : pyval;
  ns_version : Z;
  ns_updated_at : pyval;
  ns_writer : pyval
}.

(** [a > b]. *)
Definition py_gt (a b : pyval) : res bool :=
  match a, b with
  | PStr s, PStr t => Ok (String.ltb t s)
  | _, _ => match as_int a, as_int b with Some x, Some y => Ok (y <? x)%Z | _, _ => Raise TypeError end
  end.

(** [a._key() > b._key()], the tuples compared from the left. *)
Definition key_gt (a b : NamespaceRef) : res bool :=
  if negb (ns_version a =? ns_version b)%Z then Ok (ns_version b <? ns_version a)%Z
  else if negb (py_eq (ns_updated_at a) (ns_updated_at b)) then py_gt (ns_updated_at a) (ns_updated_at b)
  else if negb (py_eq (ns_writer a) (ns_writer b)) then py_gt (ns_writer a) (ns_writer b)
  else Ok false.

Definition ref_json (r : NamespaceRef) : pyval :=
  PDict [("path", ns_path r); ("root", ns_root r); ("version", PInt (ns_version r));
         ("updated_at", ns_updated_at r); ("writer", ns_writer r)].

(** The exceptions [resolve_ref] skips a reply on. *)
Definition skipped (e : exn) : bool :=
  match e with ValueError _ | JSONDecodeError | KeyError _ => true | _ => false end.

Definition from_bytes (b : string) : res NamespaceRef :=
  d ← loads b;
  path ← py_item d "path";
  root ← py_item d "root";
  version ← int_item d "version";
  updated_at ← py_item d "updated_at";
  writer ← py_item d "writer";
  Ok (mkNsRef path root version updated_at writer).

Definition better (path : string) (best : option NamespaceRef) (b : string) : res (option NamespaceRef) :=
  match from_bytes b with
  | Raise e => if skipped e then Ok best else Raise e
  | Ok r =>
    if negb (eq_str (ns_path r) path) then Ok best
    else match best with
         | None => Ok (Some r)
         | Some r' => gt ← key_gt r r'; Ok (if gt : bool then Some r else best)
         end
  end.

Definition resolve_ref (get_blob : string -> string -> res (option string)) (reachable : option (gset string))
    (path : string) (nodes : list string) (replicas : Z) : res (option NamespaceRef) :=
  replies ← read_all get_blob reachable path nodes replicas;
  res_fold (better path) None replies.

Section refs.
Context `{FloatRepr}.

Definition to_bytes (r : NamespaceRef) : string := dumps (norm (ref_json r)).

Definition publish_ref {S} `{BlobStore S} (r : NamespaceRef) (nodes : list string) (replicas : Z) (s : S) :
    res (list string * S) :=
  match ns_path r with
  | PStr path => publish_blob path (to_bytes r) nodes replicas s
  | _ => Raise TypeError
  end.

(** ** References writers make *)

(** The fields a writer of this code puts in. *)
Definition written_ref (path root : string) (version : Z) (at_ writer : string) : NamespaceRef :=
  mkNsRef (PStr path) (PStr root) version (PStr at_) (PStr writer).

Definition proper_ref (path : string) (r : NamespaceRef) : Prop :=
  exists root version at_ writer, r = written_ref path root version at_ writer.

Lemma from_to_bytes path r : proper_ref path r -> from_bytes (to_bytes r) = Ok r.
Proof.
  intros (root & version & at_ & writer & ->). unfold from_bytes, to_bytes.
  replace (norm (ref_json (written_ref path root version at_ writer))) with
    (PDict [("path", PStr path); ("root", PStr root); ("updated_at", PStr at_); ("version", PInt version); ("writer", PStr writer)])
    by reflexivity.
  rewrite loads_dumps; [reflexivity|]. apply textual_dict. split; [apply (bool_decide_unpack _); reflexivity|]. repeat constructor.
Qed.

(** ** The order of the register *)

(** [b] is an earlier write than [a], for references writers make. *)
Definition earlier (b a : NamespaceRef) : Prop :=
  match ns_updated_at b, ns_updated_at a, ns_writer b, ns_writer a with
  | PStr ub, PStr ua, PStr wb, PStr wa =>
    (ns_version b < ns_version a)%Z \/
    (ns_version b = ns_version a /\ (String.ltb ub ua = true \/ (ub = ua /\ String.ltb wb wa = true)))
  | _, _, _, _ => False
  end.

Lemma key_gt_earlier path a b :
  proper_ref path a -> proper_ref path b ->
  exists g, key_gt a b = Ok g /\ (g = true <-> earlier b a).
Proof.
  intros (ra & va & ua & wa & ->) (rb & vb & ub & wb & ->). unfold key_gt, earlier. cbn.
  destruct (Z.eqb_spec va vb) as [->|Hv]; simpl.
  - destruct (String.eqb_spec ua ub) as [->|Hu]; simpl.
    + assert (Hirr : forall x, String.ltb x x <> true) by (intros x; unfold String.ltb; by rewrite string_compare_refl).
      destruct (String.eqb_spec wa wb) as [->|Hw]; simpl; eexists; (split; [reflexivity|]).
      * split; [done|]. intros [?|(_ & [Hl|(_ & Hl)])]; [lia|by destruct (Hirr _ Hl)..].
      * split; [auto|]. intros [?|(_ & [?|(_ & ?)])]; [lia|by edestruct Hirr|done].
    + eexists. split; [reflexivity|]. split; [auto|]. intros [?|(_ & [?|(-> & _)])]; [lia|done|done].
  - eexists. split; [reflexivity|]. rewrite Z.ltb_lt. split; [auto|]. by intros [?|[? _]].
Qed.

Lemma ltb_trans a b c : String.ltb a b = true -> String.ltb b c = true -> String.ltb a c = true.
Proof.
  unfold String.ltb. destruct (String.compare a b) eqn:E1; [done| |done]. destruct (String.compare b c) eqn:E2; [done| |done].
  intros _ _. by rewrite (string_lt_trans _ _ _ E1 E2).
Qed.

Lemma ltb_total a b : a = b \/ String.ltb a b = true \/ String.ltb b a = true.
Proof.
  unfold String.ltb. rewrite (String.compare_antisym b a). destruct (String.compare a b) eqn:E; auto.
  left. by apply String.compare_eq_iff.
Qed.

Lemma earlier_irrefl a : ~ earlier a a.
Proof.
  assert (Hirr : forall x, String.ltb x x <> true) by (intros x; unfold String.ltb; by rewrite string_compare_refl).
  unfold earlier. repeat case_match; try tauto. intros [?|(_ & [Hl|(_ & Hl)])]; [lia|by destruct (Hirr _ Hl)..].
Qed.

(** Whatever is proper lies on one side. *)
Lemma earlier_cotrans path a b c :
  proper_ref path a -> proper_ref path b -> proper_ref path c -> earlier a b -> earlier a c \/ earlier c b.
Proof.
  intros (ra & va & ua & wa & ->) (rb & vb & ub & wb & ->) (rc & vc & uc & wc & ->). unfold earlier. cbn.
  intros [?|(-> & Hs)]; [destruct (decide (va < vc)%Z); [by left; left|right; left; lia]|].
  destruct (Z.lt_total vb vc) as [?|[<-|?]]; [by left; left| |by right; left].
  destruct Hs as [Hu|(-> & Hw)].
  - destruct (ltb_total ua uc) as [<-|[?|?]]; [by right; auto|by left; auto|]. right. right. split; [done|]. left. by eapply ltb_trans.
  - destruct (ltb_total ub uc) as [<-|[?|?]]; [|by left; auto|by right; auto].
    destruct (ltb_total wa wc) as [<-|[?|?]]; [by right; auto|by left; auto 6|]. right. right. split; [done|]. right.
    split; [done|]. by eapply ltb_trans.
Qed.

Lemma earlier_asym path a b : proper_ref path a -> proper_ref path b -> earlier a b -> ~ earlier b a.
Proof.
  assert (Hasym : forall x y, String.ltb x y = true -> String.ltb y x = true -> False).
  { intros x y Hx Hy. pose proof (ltb_trans _ _ _ Hx Hy) as Hl. unfold String.ltb in Hl. by rewrite string_compare_refl in Hl. }
  assert (Hirr : forall x, String.ltb x x = true -> False) by (intros x Hx; exact (Hasym _ _ Hx Hx)).
  intros (ra & va & ua & wa & ->) (rb & vb & ub & wb & ->). unfold earlier. cbn.
  intros [?|(-> & [Hu|(-> & Hw)])] [?|(? & [Hu'|(? & Hw')])]; try lia; subst;
    first [exact (Hasym _ _ Hu Hu')|exact (Hasym _ _ Hw Hw')|exact (Hirr _ Hu)|exact (Hirr _ Hu')].
Qed.

Lemma better_fold path refs best :
  Forall (proper_ref path) refs -> from_option (proper_ref path) True best ->
  exists r, res_fold (better path) best (map to_bytes refs) = Ok r /\
    match r with
    | None => best = None /\ refs = []
    | Some r => proper_ref path r /\ (Some r = best \/ r ∈ refs) /\
                (forall x, Some x = best \/ x ∈ refs -> ~ earlier r x)
    end.
Proof.
  intros Hall. revert best. induction Hall as [|x refs Hx Hall IH]; intros best Hbest; cbn [map res_fold].
  - exists best. split; [done|]. destruct best as [r|]; [|done]. split_and!; [done|by left|].
    intros x [[= ->]|Hx]; [|by apply not_elem_of_nil in Hx]. unfold earlier.
    destruct Hbest as (? & v & u & w & ->). cbn. intros [?|(_ & [Hl|(_ & Hl)])]; [lia|..];
      unfold String.ltb in Hl; by rewrite string_compare_refl in Hl.
  - unfold better at 2. rewrite (from_to_bytes path x Hx). destruct Hx as (ro & v & u & w & Ex).
    assert (Hx : proper_ref path x) by (rewrite Ex; by repeat eexists). replace (eq_str (ns_path x) path) with true by (rewrite Ex; symmetry; apply String.eqb_refl). cbn [negb].
    clear Ex.
    assert (Hgo : forall best', from_option (proper_ref path) True (Some best') ->
      (Some best' = best \/ best' = x) -> (forall y, Some y = best \/ y = x -> ~ earlier best' y) ->
      exists r, res_fold (better path) (Some best') (map to_bytes refs) = Ok r /\
        match r with
        | None => best = None /\ x :: refs = []
        | Some r => proper_ref path r /\ (Some r = best \/ r ∈ x :: refs) /\
                    (forall y, Some y = best \/ y ∈ x :: refs -> ~ earlier r y)
        end).
    { intros best' Hp Hfrom Hmax. destruct (IH (Some best') Hp) as ([r|] & -> & Hr); [|by destruct Hr as [? _]].
      exists (Some r). split; [done|]. destruct Hr as (Hpr & Hin & Hle). split_and!; [done| |].
      - destruct Hin as [[= ->]|Hin]; [|right; by right]. destruct Hfrom as [?| ->]; [by left|right; left].
      - intros y Hy. assert (Hpy : proper_ref path y).
        { destruct Hy as [<-|[->|Hy]%elem_of_cons]; [done|done|]. by eapply (proj1 (Forall_forall _ _) Hall). }
        destruct Hin as [[= ->]|Hin].
        + destruct Hy as [?|[->|Hy]%elem_of_cons]; [by apply Hmax; left|by apply Hmax; right|]. apply Hle. by right.
        + intros Hc. assert (Hy' : Some y = best \/ y = x).
          { destruct Hy as [?|[->|Hy]%elem_of_cons]; [by left|by right|]. exfalso. apply (Hle y); [by right|done]. }
          destruct (earlier_cotrans path r y best') as [Hb|Hb]; [done..| |].
          * by apply (Hle best'); [left|].
          * by apply (Hmax y). }
    destruct best as [b|].
    + destruct (key_gt_earlier path x b Hx Hbest) as (g & -> & Hg). cbn [mbind res_bind]. destruct g.
      * apply Hgo; [done|by right|]. intros y [[= ->]| ->]; [|apply earlier_irrefl]. eapply earlier_asym; [done..|]. by apply Hg.
      * apply Hgo; [done|by left|]. intros y [[= ->]| ->]; [apply earlier_irrefl|]. by intros ?%Hg.
    + apply Hgo; [done|by right|]. intros y [?| ->]; [done|apply earlier_irrefl].
Qed.

(** The register is last-writer-wins.  Whatever replicas answer with
    references written for the path, resolving it returns one of them that none
    of the others is a later write than, and returns none only if no replica
    answers. *)
Theorem resolve_is_latest get_blob reachable path nodes replicas targets refs :
  ref_nodes path nodes replicas = Ok targets ->
  omap (read_one get_blob reachable path) targets = map to_bytes refs -> Forall (proper_ref path) refs ->
  exists r, resolve_ref get_blob reachable path nodes replicas = Ok r /\
    match r with
    | None => refs = []
    | Some r => r ∈ refs /\ forall x, x ∈ refs -> ~ earlier r x
    end.
Proof.
  intros Et Er Hall. unfold resolve_ref, read_all. rewrite Et. cbn [mbind res_bind]. rewrite Er.
  destruct (better_fold path refs None Hall I) as (r & -> & Hr). exists r. split; [done|]. destruct r as [r|].
  - destruct Hr as (_ & [?|Hin] & Hle); [done|]. split; [done|]. intros x Hx. apply Hle. by right.
  - apply Hr.
Qed.

(** ** Names after a seizure *)

Definition name_held {S} `{BlobStore S} (name b : string) (nodes : list string) (replicas : Z) (s : S) : Prop :=
  forall targets node, ref_nodes name nodes replicas = Ok targets -> node ∈ targets ->
    blob_read node (_blob_key name) s = Some b.

Lemma publish_blob_held {S} `{BlobStore S} name b nodes replicas (s s' : S) targets :
  publish_blob name b nodes replicas s = Ok (targets, s') -> name_held name b nodes replicas s'.
Proof.
  unfold publish_blob. intros E targets' node Et Hn. rewrite Et in E. cbn [mbind res_bind] in E. simplify_eq.
  by rewrite read_put_all, bool_decide_true.
Qed.

Lemma read_one_view {S} `{BlobStore S} (s : S) seized get_blob reachable name node b :
  blob_view s seized get_blob reachable -> blob_read node (_blob_key name) s = Some b ->
  read_one get_blob reachable name node = if bool_decide (node ∈ seized) then None else Some b.
Proof.
  intros Hv Hb. unfold read_one. destruct (Hv node (_blob_key name)) as [Hup Hdown]. case_bool_decide as Hs.
  - destruct (Hdown Hs) as [->|Hno]; [done|]. destruct (unreachable _ _); [done|].
    destruct (get_blob _ _) as [[b'|]|]; [by destruct (Hno b')|done..].
  - destruct (Hup Hs) as [-> ->]. done.
Qed.

(** Every replica that answers answers alike, and one does. *)
Lemma read_all_held {S} `{BlobStore S} name b nodes replicas (s : S) seized get_blob reachable :
  NoDup nodes -> (1 <= replicas <= Z.of_nat (length nodes))%Z -> name_held name b nodes replicas s ->
  blob_view s seized get_blob reachable -> (Z.of_nat (size seized) < replicas)%Z ->
  exists n, read_all get_blob reachable name nodes replicas = Ok (replicate (Datatypes.S n) b).
Proof.
  intros Hnd Hrep Hheld Hv Hs. destruct (manifest_nodes_spec name nodes replicas Hnd Hrep) as (targets & Et & Hndt & _ & Hlen).
  unfold read_all, ref_nodes. rewrite Et. cbn [mbind res_bind].
  destruct (some_target_left targets seized Hndt ltac:(lia)) as (t & Hin & Hout).
  assert (Hb : forall node, node ∈ targets -> blob_read node (_blob_key name) s = Some b) by (intros; by eapply Hheld).
  clear -Hv Hb Hin Hout. assert (Hrep : exists n, omap (read_one get_blob reachable name) targets = replicate n b /\
    (Exists (fun t => t ∉ seized) targets -> n <> 0)).
  { clear Hin Hout. induction targets as [|node targets IH].
    - exists 0. split; [done|]. by intros ?%Exists_nil.
    - destruct IH as (n & E & Hn); [intros; apply Hb; by right|]. cbn [omap list_omap].
      rewrite (read_one_view s seized get_blob reachable name node b) by (done || (apply Hb; by left)).
      case_bool_decide as Hs.
      + exists n. split; [done|]. intros [?|?]%Exists_cons; [done|auto].
      + exists (Datatypes.S n). split; [by rewrite E|done]. }
  destruct Hrep as ([|n] & E & Hn); [|exists n; by rewrite E]. destruct Hn; [|done]. apply Exists_exists. eauto.
Qed.

Lemma read_all_absent {S} `{BlobStore S} name nodes replicas (s : S) seized get_blob reachable :
  NoDup nodes -> (1 <= replicas <= Z.of_nat (length nodes))%Z ->
  (forall node, blob_read node (_blob_key name) s = None) -> blob_view s seized get_blob reachable ->
  read_all get_blob reachable name nodes replicas = Ok [].
Proof.
  intros Hnd Hrep Hno Hv. destruct (manifest_nodes_spec name nodes replicas Hnd Hrep) as (targets & Et & _).
  unfold read_all, ref_nodes. rewrite Et. cbn [mbind res_bind]. f_equal. clear Et.
  induction targets as [|node targets IH]; [done|]. cbn [omap list_omap]. unfold read_one at 1.
  destruct (Hv node (_blob_key name)) as [Hup Hdown]. rewrite (Hno node) in Hup. rewrite IH.
  destruct (decide (node ∈ seized)) as [Hs|Hs].
  - destruct (Hdown Hs) as [->|Hnb]; [done|]. destruct (unreachable _ _); [done|].
    destruct (get_blob _ _) as [[b'|]|]; [by destruct (Hnb b')|done..].
  - destruct (Hup Hs) as [-> ->]. done.
Qed.

Lemma resolve_held_ref {S} `{BlobStore S} path r nodes replicas (s : S) seized get_blob reachable :
  NoDup nodes -> (1 <= replicas <= Z.of_nat (length nodes))%Z -> proper_ref path r ->
  name_held path (to_bytes r) nodes replicas s ->
  blob_view s seized get_blob reachable -> (Z.of_nat (size seized) < replicas)%Z ->
  resolve_ref get_blob reachable path nodes replicas = Ok (Some r).
Proof.
  intros Hnd Hrep Hr Hheld Hv Hs. destruct (read_all_held _ _ _ _ s seized get_blob reachable Hnd Hrep Hheld Hv Hs) as [n E].
  unfold resolve_ref. rewrite E. cbn [mbind res_bind].
  replace (replicate (Datatypes.S n) (to_bytes r)) with (map to_bytes (replicate (Datatypes.S n) r)) by apply (fmap_replicate to_bytes).
  destruct (better_fold path (replicate (Datatypes.S n) r) None) as ([r'|] & -> & Hr'); [by apply Forall_replicate|done| |].
  - destruct Hr' as (_ & [?|Hin] & _); [done|]. by apply elem_of_replicate in Hin as [-> _].
  - by destruct Hr' as [_ ?].
Qed.
End refs.

(** ** Three replicas that disagree *)

Section sample.
Existing Instance demo_float_repr.

Definition first_draft : NamespaceRef := written_ref "/a" "r1" 1 "t1" "laptop".
Definition second_draft : NamespaceRef := written_ref "/a" "r2" 2 "t1" "laptop".
Definition phone_draft : NamespaceRef := written_ref "/a" "r3" 2 "t1" "phone".

Definition split_replies (node key : string) : res (option string) :=
  if String.eqb node "a" then Ok (Some (to_bytes first_draft))
  else if String.eqb node "b" then Ok (Some (to_bytes second_draft))
  else Ok (Some (to_bytes phone_draft)).

Lemma resolve_is_latest_witness :
  exists r, resolve_ref split_replies None "/a" ["a"; "b"; "c"] 3 = Ok r /\
    match r with
    | None => [phone_draft; second_draft; first_draft] = []
    | Some r => r ∈ [phone_draft; second_draft; first_draft] /\
                forall x, x ∈ [phone_draft; second_draft; first_draft] -> ~ earlier r x
    end.
Proof.
  destruct (ref_nodes "/a" ["a"; "b"; "c"] 3) as [targets|] eqn:E; [|vm_compute in E; discriminate].
  refine (resolve_is_latest split_replies None "/a" ["a"; "b"; "c"] 3 targets _ E _ _).
  - vm_compute in E. injection E as <-. vm_compute. reflexivity.
  - repeat constructor; by repeat eexists.
Defined.

Example phone_wins : resolve_ref split_replies None "/a" ["a"; "b"; "c"] 3 = Ok (Some phone_draft).
Proof. vm_compute. reflexivity. Qed.

(** A replica that serves JSON other than an object is not skipped. *)
Example list_reply_raises : resolve_ref (fun _ _ => Ok (Some "[]")) None "/a" ["a"; "b"; "c"] 3 = Raise TypeError.
Proof. vm_compute. reflexivity. Qed.
End sample.
