(* ===== verification/MeshSync.v ===== *)
(** * The Drive: files by name over the mesh

    Models [automation/mesh_sync.py]: files, their directory index, pushing and
    pulling a directory.  The store a writer uses is any type with the laws of
    [MeshStore]; a reader goes through any [get] and [get_blob].  The clock is
    an argument; the placement is the one [put_file] is given or has loaded.  A
    directory is the list of its files, by their relative paths, in the order
    they sort.  An index that lists something other than names raises when it
    is sorted. *)

From Stdlib Require Import Ascii.
From S2P Require Import Prelude PyVal Json PyText JsonParse Sha256 Gf256 HolographicIda MeshTopology StorageResilience LeafPropagation ManifestStore MeshNamespace.
Local Open Scope string_scope.

(** ** The store *)

Class MeshStore (S : Type) := {
  mesh_frags :: FragStore S;
  mesh_blobs :: BlobStore S;
  blob_read_frag_put node key b node' key' (s : S) : blob_read node' key' (frag_put node key b s) = blob_read node' key' s;
  frag_read_blob_put node key b node' key' (s : S) : frag_read node' key' (blob_put node key b s) = frag_read node' key' s
}.

Definition get_of {S} `{BlobStore S} (s : S) (node key : string) : res (option string) := Ok (blob_read node key s).

(** ** The index *)

Definition _INDEX : string := "__index__".

Definition set_add (paths : list pyval) (x : pyval) : list pyval :=
  if existsb (py_eq x) paths then paths else (paths ++ [x])%list.

(** [set(json.loads(b))]. *)
Definition index_entries (b : string) : res (list pyval) :=
  v ← loads b;
  l ← py_iter v;
  if forallb hashable l then Ok l else Raise TypeError.

Definition index_union (paths : list pyval) (b : string) : list pyval :=
  match index_entries b with Ok l => foldl set_add paths l | Raise _ => paths end.

Definition _index_read (get_blob : string -> string -> res (option string)) (reachable : option (gset string))
    (nodes : list string) (replicas : Z) : res (list pyval) :=
  replies ← read_all get_blob reachable _INDEX nodes replicas;
  Ok (foldl index_union [] replies).

(** [sorted(paths)]. *)
Definition sort_names (paths : list pyval) : res (list string) :=
  names ← res_map (fun v => match v with PStr s => Ok s | _ => Raise TypeError end) paths;
  Ok (py_sort String.ltb names).

Definition list_files (get_blob : string -> string -> res (option string)) (reachable : option (gset string))
    (nodes : list string) (replicas : Z) : res (list string) :=
  paths ← _index_read get_blob reachable nodes replicas;
  sort_names paths.

Section files.
Context `{FloatRepr} {S : Type} `{MeshStore S}.

Definition index_text (names : list string) : string := dumps (PList (map PStr names)).

Definition _index_add (nodes : list string) (path : string) (replicas : Z) (s : S) : res S :=
  paths ← _index_read (get_of s) None nodes replicas;
  names ← sort_names (set_add paths (PStr path));
  pub ← publish_blob _INDEX (index_text names) nodes replicas s;
  Ok (snd (pub : list string * S)).

(** ** Files *)

Definition put_file (nodes : list string) (path : string) (data : bytes) (writer now : string) (placement : Placement)
    (replicas : Z) (s : S) : res (NamespaceRef * S) :=
  ms ← propagate data nodes placement "runtime" s;
  let (m, s) := (ms : PropagationManifest * S) in
  pub ← publish_manifest m nodes replicas s;
  let s := snd (pub : list string * S) in
  cur ← resolve_ref (get_of s) None path nodes replicas;
  let version := match (cur : option NamespaceRef) with Some r => (ns_version r + 1)%Z | None => 1%Z end in
  let ref := written_ref path (m_root m) version now writer in
  pub ← publish_ref ref nodes replicas s;
  s ← _index_add nodes path replicas (snd (pub : list string * S));
  Ok (ref, s).
End files.

Section reading.
Variable get : string -> string -> res (option bytes).
Variable get_blob : string -> string -> res (option string).
Variable reachable : option (gset string).

Definition get_file (nodes : list string) (path : string) (replicas : Z) : res (bytes * NamespaceRef) :=
  ref ← resolve_ref get_blob reachable path nodes replicas;
  match (ref : option NamespaceRef) with
  | None => Raise (FileNotFound path)
  | Some ref =>
    match ns_root ref with
    | PStr root =>
      m ← resolve_manifest get_blob reachable root nodes replicas;
      data ← fetch get reachable m 500;
      Ok (data, ref)
    | _ => Raise TypeError
    end
  end.

(** [path.lstrip("/")]. *)
Fixpoint lstrip_slash (s : string) : string :=
  match s with String "/" s => lstrip_slash s | _ => s end.

Definition pull_one (nodes : list string) (replicas : Z) (st : list (string * bytes) * list string) (path : string) :
    res (list (string * bytes) * list string) :=
  let (local_dir, pulled) := st in
  match get_file nodes path replicas with
  | Ok (data, _) => Ok (assoc_set (lstrip_slash path) data local_dir, (pulled ++ [path])%list)
  | Raise (FileNotFound _) => Ok st
  | Raise e => Raise e
  end.

Definition pull_dir (nodes : list string) (replicas : Z) (local_dir : list (string * bytes)) :
    res (list (string * bytes) * list string) :=
  paths ← list_files get_blob reachable nodes replicas;
  res_fold (pull_one nodes replicas) (local_dir, []) paths.
End reading.

Section push.
Context `{FloatRepr} {S : Type} `{MeshStore S}.

Definition push_one (nodes : list string) (writer : string) (placement : Placement) (replicas : Z)
    (st : S * list string) (file : string * bytes * string) : res (S * list string) :=
  let '(p, data, now) := file in
  let rel := "/" +:+ replace_char "\" "/" p in
  rs ← put_file nodes rel data writer now placement replicas st.1;
  Ok (snd (rs : NamespaceRef * S), (st.2 ++ [rel])%list).

Definition push_dir (nodes : list string) (local_dir : list (string * bytes * string)) (writer : string)
    (placement : Placement) (replicas : Z) (s : S) : res (S * list string) :=
  res_fold (push_one nodes writer placement replicas) (s, []) local_dir.
End push.

(** ** Blobs and fragments do not touch each other *)

Section frame.
Context `{FloatRepr} {S : Type} `{MeshStore S}.

Lemma frag_read_blobs targets key b node key' (s : S) :
  frag_read node key' (blob_put_all targets key b s) = frag_read node key' s.
Proof.
  unfold blob_put_all. revert s; induction targets as [|t targets IH]; intros s; cbn [foldl]; [done|].
  by rewrite IH, frag_read_blob_put.
Qed.

Lemma propagate_keeps_blobs leaf nodes p tier (s s' : S) m node key :
  propagate leaf nodes p tier s = Ok (m, s') -> blob_read node key s' = blob_read node key s.
Proof.
  unfold propagate. intros E. apply bind_Ok_inv in E as (d & _ & E). apply bind_Ok_inv in E as (mapping & _ & E).
  apply bind_Ok_inv in E as (s1 & E & E1). injection E1 as _ <-.
  eapply (res_fold_inv (fun s1 => blob_read node key s1 = blob_read node key s)); [|done|exact E].
  intros [x nl] s2 s3 _ Hs E2. unfold put_copies in E2. destruct nl as [|n0 nl]; [by simplify_eq|].
  apply bind_Ok_inv in E2 as (b & _ & E2). injection E2 as <-. rewrite <- Hs. clear.
  change (blob_read node key (foldl (fun s node => frag_put node (_frag_key (merkle_root leaf) x) b s) s2 (n0 :: nl)) = blob_read node key s2).
  generalize (n0 :: nl). intros l. revert s2; induction l as [|t l IH]; intros s2; cbn [foldl]; [done|].
  by rewrite IH, blob_read_frag_put.
Qed.

Lemma keys_differ root name : _key root <> _blob_key name.
Proof. done. Qed.
End frame.

(** ** Reading the index *)

Definition names_of {A} (f : gmap string A) : list string := py_sort String.ltb (map_to_list f).*1.

Lemma elem_of_names_of {A} (f : gmap string A) x : x ∈ names_of f <-> is_Some (f !! x).
Proof.
  unfold names_of. rewrite elem_of_py_sort, list_elem_of_fmap. split.
  - intros ([k v] & -> & Hin). apply elem_of_map_to_list in Hin. eauto.
  - intros [v Hv]. exists (x, v). split; [done|]. by apply elem_of_map_to_list.
Qed.

Lemma NoDup_names_of {A} (f : gmap string A) : NoDup (names_of f).
Proof. unfold names_of. rewrite py_sort_perm. apply NoDup_fst_map_to_list. Qed.

Lemma names_of_unique {A} (f : gmap string A) l :
  NoDup l -> (forall x, x ∈ l <-> is_Some (f !! x)) -> py_sort String.ltb l = names_of f.
Proof.
  intros Hnd Hl. unfold names_of. apply sorted_names_unique; [apply names_sorted..|]. rewrite !py_sort_perm.
  apply NoDup_Permutation; [done|apply NoDup_fst_map_to_list|]. intros x. rewrite Hl, <- elem_of_names_of.
  unfold names_of. by rewrite elem_of_py_sort.
Qed.

Lemma names_of_fmap {A B} (g : A -> B) (f : gmap string A) : names_of (g <$> f) = names_of f.
Proof.
  unfold names_of at 1. apply names_of_unique; [apply NoDup_fst_map_to_list|]. intros x. rewrite <- (elem_of_py_sort String.ltb).
  change (x ∈ names_of (g <$> f) <-> is_Some (f !! x)). by rewrite elem_of_names_of, lookup_fmap, fmap_is_Some.
Qed.

Lemma existsb_names x l : existsb (py_eq (PStr x)) (map PStr l) = bool_decide (x ∈ l).
Proof.
  induction l as [|y l IH]; [done|]. cbn [map existsb]. rewrite IH. cbn [py_eq].
  destruct (String.eqb_spec x y) as [->|Hne]; simpl.
  - symmetry. apply bool_decide_true. by left.
  - apply bool_decide_ext. rewrite elem_of_cons. naive_solver.
Qed.

Lemma set_add_names x l : set_add (map PStr l) (PStr x) = map PStr (if bool_decide (x ∈ l) then l else l ++ [x])%list.
Proof. unfold set_add. rewrite existsb_names. case_bool_decide; [done|]. by rewrite map_app. Qed.

Lemma foldl_set_add_new l acc :
  NoDup (acc ++ l)%list -> foldl set_add (map PStr acc) (map PStr l) = map PStr (acc ++ l)%list.
Proof.
  revert acc; induction l as [|x l IH]; intros acc Hnd; cbn [map foldl]; [by rewrite app_nil_r|].
  assert (Hx : x ∉ acc) by (apply NoDup_app in Hnd as (_ & Hd & _); intros Hin; apply (Hd x Hin); by left).
  rewrite set_add_names, bool_decide_false by done. rewrite IH; rewrite <- app_assoc; done.
Qed.

Lemma foldl_set_add_old l acc : l ⊆ acc -> foldl set_add (map PStr acc) (map PStr l) = map PStr acc.
Proof.
  induction l as [|x l IH]; intros Hl; cbn [map foldl]; [done|]. rewrite set_add_names, bool_decide_true by (apply Hl; by left).
  apply IH. set_solver.
Qed.

Lemma sort_names_ok l : sort_names (map PStr l) = Ok (py_sort String.ltb l).
Proof.
  unfold sort_names. replace (res_map _ (map PStr l)) with (Ok l); [done|]. symmetry.
  induction l as [|x l IH]; [done|]. cbn [map res_map mbind res_bind]. by rewrite IH.
Qed.

Section index.
Context `{FloatRepr}.

Lemma index_entries_text names : index_entries (index_text names) = Ok (map PStr names).
Proof.
  unfold index_entries, index_text. rewrite loads_dumps.
  - cbn [mbind res_bind py_iter]. rewrite (proj2 (forallb_forall _ _)); [done|]. by intros v (s & <- & _)%in_map_iff.
  - apply textual_list. apply Forall_forall. intros v Hv. apply list_elem_of_fmap in Hv as (s & -> & _). done.
Qed.

Lemma index_union_replies names n :
  NoDup names -> foldl index_union [] (replicate (Datatypes.S n) (index_text names)) = map PStr names.
Proof.
  intros Hnd. cbn [replicate foldl]. unfold index_union at 2. rewrite index_entries_text.
  change (@nil pyval) with (map PStr []). rewrite (foldl_set_add_new names []) by done. cbn [app].
  induction n as [|n IH]; [done|]. cbn [replicate foldl]. unfold index_union at 2. rewrite index_entries_text.
  by rewrite foldl_set_add_old.
Qed.
End index.

(** ** The Drive as a map *)

Section drive.
Context `{FloatRepr} {S : Type} `{MeshStore S}.
Variables (nodes : list string) (p : Placement) (replicas : Z).
Hypothesis Hnd : NoDup nodes.
Hypothesis Hrep : (1 <= replicas <= Z.of_nat (length nodes))%Z.
Hypothesis Hsafe : safe p.
Hypothesis Hn : (rs_n p <= 255)%Z.
Hypothesis Hroom : (rs_n p * shard_replicas p <= Z.of_nat (length nodes))%Z.

(** A leaf whose fragments and manifest are where a reader looks for them. *)
Definition leaf_held (data : bytes) (s : S) : Prop :=
  exists m, written_leaf data p m s /\ manifest_held m nodes replicas s /\
    NoDup (fragment_nodes m).*1 /\ m_tier m = PStr "runtime".

Abbreviation files := (gmap string (bytes * NamespaceRef)).

Definition index_ok {A} (f : gmap string A) (s : S) : Prop :=
  (f = ∅ /\ forall node, blob_read node (_blob_key _INDEX) s = None) \/
  (f <> ∅ /\ name_held _INDEX (index_text (names_of f)) nodes replicas s).

Record drive_ok (f : files) (s : S) : Prop := {
  d_file path data r : f !! path = Some (data, r) ->
    proper_ref path r /\ ns_root r = PStr (merkle_root data) /\ name_held path (to_bytes r) nodes replicas s /\ leaf_held data s;
  d_absent path : f !! path = None -> path <> _INDEX -> forall node, blob_read node (_blob_key path) s = None;
  d_index : index_ok f s;
  d_no_index : f !! _INDEX = None
}.

(** What a reader sees of the mesh after a seizure. *)
Definition mesh_view (s : S) (seized : gset string) get get_blob reachable : Prop :=
  seizure_view s seized get reachable /\ blob_view s seized get_blob reachable.

Definition tolerated (seized : gset string) : Prop :=
  (Z.of_nat (size seized) < replicas)%Z /\ (Z.of_nat (size seized) < (rs_m p + 1) * shard_replicas p)%Z.

Lemma get_file_ok f s seized get get_blob reachable path data r :
  drive_ok f s -> mesh_view s seized get get_blob reachable -> tolerated seized ->
  f !! path = Some (data, r) -> get_file get get_blob reachable nodes path replicas = Ok (data, r).
Proof.
  intros Hok [Hv Hbv] [Ht1 Ht2] Hf. destruct (d_file f s Hok path data r Hf) as (Hr & Hroot & Hname & m & Hw & Hm & Hndm & Htier).
  unfold get_file. rewrite (resolve_held_ref path r nodes replicas s seized get_blob reachable) by done.
  cbn [mbind res_bind]. rewrite Hroot, <- (w_root _ _ _ _ Hw).
  destruct (resolve_held m "runtime" nodes replicas s seized get_blob reachable) as (m' & -> & [? ? ? ? ? ? ?]); [done..|].
  cbn [mbind res_bind]. rewrite (fetch_written data p m' s seized); [done| |done..|lia]. by eapply written_leaf_perm.
Qed.

Lemma get_file_absent f s seized get get_blob reachable path :
  drive_ok f s -> mesh_view s seized get get_blob reachable -> f !! path = None -> path <> _INDEX ->
  get_file get get_blob reachable nodes path replicas = Raise (FileNotFound path).
Proof.
  intros Hok [_ Hbv] Hf Hne. unfold get_file, resolve_ref.
  rewrite (read_all_absent path nodes replicas s seized get_blob reachable); [done..|by apply (d_absent f s Hok)|done].
Qed.

Lemma index_read_ok {A} (f : gmap string A) s seized get_blob reachable :
  index_ok f s -> blob_view s seized get_blob reachable -> (Z.of_nat (size seized) < replicas)%Z ->
  _index_read get_blob reachable nodes replicas = Ok (map PStr (names_of f)).
Proof.
  intros Hok Hv Hs. unfold _index_read. destruct Hok as [[-> Hno]|[_ Hheld]].
  - rewrite (read_all_absent _ nodes replicas s seized) by done. done.
  - destruct (read_all_held _ _ nodes replicas s seized get_blob reachable Hnd Hrep Hheld Hv Hs) as [n ->].
    cbn [mbind res_bind]. by rewrite index_union_replies by apply NoDup_names_of.
Qed.

Lemma list_files_ok {A} (f : gmap string A) s seized get_blob reachable :
  index_ok f s -> blob_view s seized get_blob reachable -> (Z.of_nat (size seized) < replicas)%Z ->
  list_files get_blob reachable nodes replicas = Ok (names_of f).
Proof.
  intros Hok Hv Hs. unfold list_files. rewrite (index_read_ok f s seized) by done. cbn [mbind res_bind].
  rewrite sort_names_ok. f_equal. apply names_of_unique; [apply NoDup_names_of|]. apply elem_of_names_of.
Qed.

Lemma own_view (s : S) : blob_view s ∅ (get_of s) None.
Proof. intros node key. split; [done|set_solver]. Qed.

Lemma publish_blob_total name b (s : S) :
  exists targets, publish_blob name b nodes replicas s = Ok (targets, blob_put_all targets (_blob_key name) b s).
Proof.
  destruct (manifest_nodes_spec name nodes replicas Hnd Hrep) as (targets & Et & _). exists targets.
  unfold publish_blob, ref_nodes. by rewrite Et.
Qed.

Lemma index_add_ok {A} (f : gmap string A) s path x :
  index_ok f s -> exists targets,
    _index_add nodes path replicas s =
      Ok (blob_put_all targets (_blob_key _INDEX) (index_text (names_of (<[path := x]> f))) s) /\
    ref_nodes _INDEX nodes replicas = Ok targets.
Proof.
  intros Hok. unfold _index_add. rewrite (index_read_ok f s ∅) by (done || apply own_view || (rewrite size_empty; lia)).
  cbn [mbind res_bind]. rewrite set_add_names, sort_names_ok. cbn [mbind res_bind].
  rewrite (names_of_unique (<[path := x]> f)).
  - destruct (manifest_nodes_spec _INDEX nodes replicas Hnd Hrep) as (targets & Et & _). exists targets.
    unfold publish_blob, ref_nodes. by rewrite Et.
  - case_bool_decide as Hin; [apply NoDup_names_of|]. apply NoDup_app. split_and!; [apply NoDup_names_of| |apply NoDup_singleton].
    by intros y Hy ->%list_elem_of_singleton.
  - intros y. rewrite lookup_insert_is_Some, <- elem_of_names_of. case_bool_decide as Hin; [|rewrite elem_of_app, list_elem_of_singleton];
      destruct (decide (path = y)); naive_solver.
Qed.

(** ** One write *)

Lemma read_put_other targets key b node key' (s : S) :
  key' <> key -> blob_read node key' (blob_put_all targets key b s) = blob_read node key' s.
Proof. intros Hne. rewrite read_put_all, bool_decide_false; [done|]. by intros [_ ?]. Qed.

Lemma blob_key_ne a b : a <> b -> _blob_key a <> _blob_key b.
Proof. intros Hne E%string_app_inv_l. done. Qed.

Lemma key_ne a b : a <> b -> _key a <> _key b.
Proof. intros Hne E%string_app_inv_l. done. Qed.

Lemma written_leaf_frame data m (s s' : S) :
  (forall node x, frag_read node (_frag_key (merkle_root data) x) s' = frag_read node (_frag_key (merkle_root data) x) s) ->
  written_leaf data p m s -> written_leaf data p m s'.
Proof.
  intros Hf [Wr Wk Wl (gp & gl & blks & pad & E & ? & ? & ? & ? & Hkeys & Hst) Wc Ws]. split; try done.
  exists gp, gl, blks, pad. split_and!; try done. intros x nl node Hin Hnode. rewrite Wr, Hf, <- Wr. by eapply Hst.
Qed.

Lemma leaf_held_frame data (s s' : S) :
  (forall node x, frag_read node (_frag_key (merkle_root data) x) s' = frag_read node (_frag_key (merkle_root data) x) s) ->
  (forall node, blob_read node (_key (merkle_root data)) s' = blob_read node (_key (merkle_root data)) s) ->
  leaf_held data s -> leaf_held data s'.
Proof.
  intros Hf Hb (m & Hw & Hm & Hrest). exists m. split; [by eapply written_leaf_frame|]. split; [|done].
  intros targets node Et Hin. rewrite (w_root _ _ _ _ Hw), Hb, <- (w_root _ _ _ _ Hw). by eapply Hm.
Qed.

(** What [put_file] leaves: each blob it writes, and all else as it was. *)
Lemma put_file_effect f s path data writer now :
  drive_ok f s -> forallb is_byte data = true -> path <> _INDEX ->
  exists r s', put_file nodes path data writer now p replicas s = Ok (r, s') /\
    r = written_ref path (merkle_root data) (match f !! path with Some x => ns_version x.2 + 1 | None => 1 end)%Z now writer /\
    name_held path (to_bytes r) nodes replicas s' /\ leaf_held data s' /\
    name_held _INDEX (index_text (names_of (<[path := (data, r)]> f))) nodes replicas s' /\
    (forall node name, name <> path -> name <> _INDEX -> blob_read node (_blob_key name) s' = blob_read node (_blob_key name) s) /\
    (forall data', merkle_root data' <> merkle_root data -> leaf_held data' s -> leaf_held data' s').
Proof.
  intros Hok Hdata Hpath. unfold put_file.
  destruct (propagate_writes data nodes p "runtime" s Hdata Hnd Hsafe Hn Hroom) as (m & s1 & Ep & Em & Hw & Hfn).
  rewrite Ep. cbn [mbind res_bind]. pose proof (w_root _ _ _ _ Hw) as Wr.
  destruct (manifest_nodes_spec (m_root m) nodes replicas Hnd Hrep) as (tg1 & Et1 & _). unfold publish_manifest. rewrite Et1.
  cbn [mbind res_bind snd]. set (s2 := blob_put_all tg1 _ _ s1).
  assert (H2 : forall node name, blob_read node (_blob_key name) s2 = blob_read node (_blob_key name) s).
  { intros node name. unfold s2. rewrite read_put_other by (symmetry; apply keys_differ).
    apply (propagate_keeps_blobs _ _ _ _ _ _ _ _ _ Ep). }
  assert (Hcur : resolve_ref (get_of s2) None path nodes replicas = Ok (snd <$> f !! path)).
  { destruct (f !! path) as [[d r]|] eqn:Ef; cbn [fmap option_fmap option_map snd].
    - destruct (d_file f s Hok path d r Ef) as (Hr & _ & Hname & _).
      apply (resolve_held_ref path r nodes replicas s2 ∅); [done..| |apply own_view|rewrite size_empty; lia].
      intros targets node Et Hin. rewrite H2. by eapply Hname.
    - unfold resolve_ref. rewrite (read_all_absent path nodes replicas s2 ∅); [done..| |apply own_view].
      intros node. rewrite H2. by apply (d_absent f s Hok). }
  rewrite Hcur. cbn [mbind res_bind]. set (version := match snd <$> f !! path with Some _ => _ | None => _ end).
  set (r := written_ref path (m_root m) version now writer). unfold publish_ref. cbn [ns_path r written_ref].
  destruct (publish_blob_total path (to_bytes r) s2) as (tg2 & Ep2). rewrite Ep2. cbn [mbind res_bind snd].
  set (s3 := blob_put_all tg2 _ _ s2) in *.
  destruct (index_add_ok f s3 path (data, r)) as (tg3 & Ei & Et3).
  { destruct (d_index f s Hok) as [[? Hno]|[? Hheld]]; [left|right]; (split; [done|]).
    - intros node. unfold s3. rewrite read_put_other by (by apply blob_key_ne). by rewrite H2.
    - intros targets node Et Hin. unfold s3. rewrite read_put_other by (by apply blob_key_ne). rewrite H2. by eapply Hheld. }
  rewrite Ei. cbn [mbind res_bind]. set (s4 := blob_put_all tg3 _ _ s3).
  assert (Hm4 : forall node root, blob_read node (_key root) s4 = blob_read node (_key root) s2).
  { intros. unfold s4, s3. by rewrite !read_put_other by apply keys_differ. }
  assert (Hf4 : forall node key, frag_read node key s4 = frag_read node key s1).
  { intros. unfold s4, s3, s2. by rewrite !frag_read_blobs. }
  exists r, s4. split_and!; [done|unfold r, version; rewrite Wr; by destruct (f !! path) as [[]|]| | | | |].
  - intros targets node Et Hin. unfold s4. rewrite read_put_other by (by apply blob_key_ne).
    exact (publish_blob_held _ _ _ _ _ _ _ Ep2 targets node Et Hin).
  - exists m. split_and!; [| |done|by rewrite Em].
    + eapply written_leaf_frame; [|exact Hw]. intros. apply Hf4.
    + intros targets node Et Hin. rewrite Hm4. unfold s2. rewrite Et1 in Et. simplify_eq. by rewrite read_put_all, bool_decide_true.
  - intros targets node Et Hin. rewrite Et3 in Et. simplify_eq. unfold s4. by rewrite read_put_all, bool_decide_true.
  - intros node name H1 H3. unfold s4, s3. rewrite !read_put_other by (by apply blob_key_ne). apply H2.
  - intros data' Hne. apply leaf_held_frame.
    + intros node x. rewrite Hf4. apply (propagate_keeps _ _ _ _ _ _ _ _ _ _ Ep). intros y E. by apply _frag_key_inj in E.
    + intros node. rewrite Hm4. unfold s2. rewrite read_put_other by (apply key_ne; congruence).
      apply (propagate_keeps_blobs _ _ _ _ _ _ _ _ _ Ep).
Qed.

Lemma put_file_ok f s path data writer now :
  drive_ok f s -> forallb is_byte data = true -> path <> _INDEX ->
  (forall path' data' r', f !! path' = Some (data', r') -> merkle_root data' = merkle_root data -> data' = data) ->
  exists r s', put_file nodes path data writer now p replicas s = Ok (r, s') /\ drive_ok (<[path := (data, r)]> f) s' /\
    r = written_ref path (merkle_root data) (match f !! path with Some x => ns_version x.2 + 1 | None => 1 end)%Z now writer.
Proof.
  intros Hok Hdata Hpath Hsame. destruct (put_file_effect f s path data writer now Hok Hdata Hpath)
    as (r & s' & E & Er & Hname & Hleaf & Hindex & Hother & Hkeep).
  exists r, s'. split; [done|]. split; [|done].
  assert (Hr : proper_ref path r /\ ns_root r = PStr (merkle_root data)) by (rewrite Er; split; [by repeat eexists|done]).
  split.
  - intros path' data' r'. destruct (decide (path = path')) as [<-|Hne].
    + rewrite lookup_insert_eq. intros [= <- <-]. destruct Hr. done.
    + rewrite lookup_insert_ne by done. intros Hf. destruct (d_file f s Hok _ _ _ Hf) as (H1 & H2 & H3 & H4).
      split_and!; [done|done| |].
      * intros targets node Et Hin. rewrite Hother; [by eapply H3|done|]. intros ->. by rewrite (d_no_index f s Hok) in Hf.
      * destruct (decide (merkle_root data' = merkle_root data)) as [Hm|Hm]; [|by apply Hkeep].
        by rewrite (Hsame _ _ _ Hf Hm).
  - intros path' [Hf Hne]%lookup_insert_None Hi node. rewrite Hother by done. by apply (d_absent f s Hok).
  - right. split; [apply insert_non_empty|done].
  - rewrite lookup_insert_ne by done. apply Hok.
Qed.

(** ** Runs *)

Record write := mkWrite { w_path : string; w_data : bytes; w_writer : string; w_now : string }.

Definition do_write (s : S) (w : write) : res S :=
  rs ← put_file nodes (w_path w) (w_data w) (w_writer w) (w_now w) p replicas s; Ok (snd (rs : NamespaceRef * S)).

Definition run_writes (ops : list write) (s : S) : res S := res_fold do_write s ops.

(** The specification: the last write under each path, and how many there were. *)
Definition latest (ops : list write) : gmap string (write * Z) :=
  foldl (fun f w => <[w_path w := (w, match f !! w_path w with Some x => x.2 + 1 | None => 1 end)%Z]> f) ∅ ops.

(** The content and the reference it is read with. *)
Definition as_file (wv : write * Z) : bytes * NamespaceRef :=
  let w := wv.1 in (w_data w, written_ref (w_path w) (merkle_root (w_data w)) wv.2 (w_now w) (w_writer w)).

Definition legal (w : write) : Prop := forallb is_byte (w_data w) = true /\ w_path w <> _INDEX.

Definition clash (ops : list write) : Prop :=
  exists w1 w2, w1 ∈ ops /\ w2 ∈ ops /\
    collision_between [string_of_bytes (w_data w1)] [string_of_bytes (w_data w2)].

Lemma clash_mono ops1 ops2 : ops1 ⊆ ops2 -> clash ops1 -> clash ops2.
Proof. intros Hs (w1 & w2 & ? & ? & ?). exists w1, w2. eauto. Qed.

Lemma latest_from ops path w v : latest ops !! path = Some (w, v) -> w ∈ ops /\ w_path w = path.
Proof.
  induction ops as [|w' ops IH] using rev_ind; [done|]. unfold latest. rewrite foldl_app. cbn [foldl]. fold (latest ops).
  destruct (decide (w_path w' = path)) as [<-|Hne].
  - rewrite lookup_insert_eq. intros [= <- _]. set_solver.
  - rewrite lookup_insert_ne by done. intros [? ?]%IH. set_solver.
Qed.

Lemma run_writes_ok ops s0 :
  (forall node key, blob_read node key s0 = None) -> Forall legal ops ->
  clash ops \/ exists s, run_writes ops s0 = Ok s /\ drive_ok (as_file <$> latest ops) s.
Proof.
  intros Hempty. induction ops as [|w ops IH] using rev_ind; intros Hlegal.
  - right. exists s0. split; [done|]. unfold latest. cbn [foldl]. rewrite fmap_empty.
    split; [by intros ? ? ?|done|left; done|done].
  - apply Forall_app in Hlegal as [Hl [[Hb Hp] _]%Forall_cons].
    destruct (IH Hl) as [Hc|(s & Es & Hok)]; [left; eapply clash_mono; [|exact Hc]; set_solver|].
    destruct (decide (Exists (fun w' => merkle_root (w_data w') = merkle_root (w_data w) /\ w_data w' <> w_data w) ops)) as [Hx|Hx].
    { left. apply Exists_exists in Hx as (w' & Hin & Hm & Hd). exists w', w. split_and!; [set_solver..|].
      exists (string_of_bytes (w_data w')), (string_of_bytes (w_data w)). split_and!; [by left..| |by apply string_app_inv_l in Hm].
      intros E%string_of_bytes_inj; [done| |done]. by apply (proj1 (Forall_forall _ _) Hl w' Hin). }
    destruct (put_file_ok _ s (w_path w) (w_data w) (w_writer w) (w_now w) Hok Hb Hp) as (r & s' & Ep & Hok' & Er).
    { intros path' data' r' Hf' Hm. rewrite lookup_fmap in Hf'. destruct (latest ops !! path') as [[w' v']|] eqn:El; [|done].
      cbn in Hf'. injection Hf' as <- <-. destruct (latest_from _ _ _ _ El) as [Hin _].
      destruct (decide (w_data w' = w_data w)) as [|Hne]; [done|]. destruct Hx. apply Exists_exists. eauto. }
    right. exists s'. split.
    + unfold run_writes in *. rewrite res_fold_app, Es. cbn [mbind res_bind res_fold]. unfold do_write. by rewrite Ep.
    + unfold latest. rewrite foldl_app. cbn [foldl]. fold (latest ops). rewrite fmap_insert.
      replace (as_file (w, _)) with (w_data w, r); [done|]. unfold as_file. cbn [fst snd]. rewrite Er, lookup_fmap.
      by destruct (latest ops !! w_path w) as [[]|].
Qed.

(** C4: the Drive is a map from names to contents that survives seizure.  Write
    any sequence of files on an empty mesh with room for the placement; then
    let fewer nodes be seized than there are replicas of a name and than the
    placement tolerates.  Unless two of the contents are a SHA-256 collision,
    every write succeeds; reading a path returns the content last written under
    it, its writer and its version, which counts the writes, or that there is
    none; and the listing is the sorted list of the paths. *)
Theorem drive_refines_map ops s0 :
  (forall node key, blob_read node key s0 = None) -> Forall legal ops ->
  clash ops \/
  exists s, run_writes ops s0 = Ok s /\
    forall seized get get_blob reachable, mesh_view s seized get get_blob reachable -> tolerated seized ->
      (forall path, path <> _INDEX ->
         get_file get get_blob reachable nodes path replicas =
         match latest ops !! path with Some wv => Ok (as_file wv) | None => Raise (FileNotFound path) end) /\
      list_files get_blob reachable nodes replicas = Ok (names_of (latest ops)).
Proof.
  intros Hempty Hlegal. destruct (run_writes_ok ops s0 Hempty Hlegal) as [?|(s & Es & Hok)]; [by left|].
  right. exists s. split; [done|]. intros seized get get_blob reachable Hv Ht. split.
  - intros path Hp. destruct (latest ops !! path) as [wv|] eqn:E.
    + eapply get_file_ok; [done..|]. by rewrite lookup_fmap, E.
    + eapply get_file_absent; [done..| |done]. by rewrite lookup_fmap, E.
  - rewrite (list_files_ok _ s seized get_blob reachable (d_index _ _ Hok) (proj2 Hv) (proj1 Ht)). by rewrite names_of_fmap.
Qed.

(** ** Pushing and pulling a directory *)

(** The path a file comes back under: [push_dir] turns backslashes into slashes
    and [pull_dir] drops leading slashes. *)
Definition restored (path : string) : string := lstrip_slash ("/" +:+ replace_char "\" "/" path).

(** A path that comes back as it is: no backslash, no leading slash. *)
Definition relative (path : string) : Prop :=
  string_Forall (fun c => c <> "\"%char) path /\ match path with String "/" _ => False | _ => True end.

Definition pushed_write (writer : string) (file : string * bytes * string) : write :=
  mkWrite ("/" +:+ replace_char "\" "/" file.1.1) file.1.2 writer file.2.

Lemma push_runs writer files s acc :
  res_fold (push_one nodes writer p replicas) (s, acc) files =
  s' ← run_writes (map (pushed_write writer) files) s; Ok (s', (acc ++ map w_path (map (pushed_write writer) files))%list).
Proof.
  revert s acc; induction files as [|[[path data] now] files IH]; intros s acc; cbn [map res_fold run_writes].
  - cbn [mbind res_bind]. by rewrite app_nil_r.
  - unfold run_writes. cbn [res_fold]. unfold push_one at 2. cbn [fst snd].
    change (do_write s (pushed_write writer (path, data, now))) with
      (rs ← put_file nodes ("/" +:+ replace_char "\" "/" path) data writer now p replicas s; Ok (snd (rs : NamespaceRef * S))).
    destruct (put_file _ _ _ _ _ _ _ _) as [[r s']|]; cbn [mbind res_bind snd]; [|done]. rewrite IH.
    unfold run_writes. destruct (res_fold do_write _ _); cbn [mbind res_bind]; [|done]. by rewrite <- app_assoc.
Qed.

Lemma latest_once ops w : NoDup (map w_path ops) -> w ∈ ops -> latest ops !! w_path w = Some (w, 1%Z).
Proof.
  induction ops as [|w' ops IH] using rev_ind; [by intros _ ?%not_elem_of_nil|]. rewrite map_app. intros Hnd'.
  apply NoDup_app in Hnd' as (H1 & H2 & _). unfold latest. rewrite foldl_app. cbn [foldl]. fold (latest ops).
  rewrite elem_of_app, list_elem_of_singleton. intros [Hin| ->].
  - rewrite lookup_insert_ne; [by apply IH|]. intros E. apply (H2 (w_path w)); [by apply list_elem_of_fmap_2|]. rewrite <- E. left.
  - rewrite lookup_insert_eq. destruct (latest ops !! w_path w') as [[w2 v]|] eqn:El; [|done]. exfalso.
    destruct (latest_from _ _ _ _ El) as [Hin E]. apply (H2 (w_path w2)); [by apply list_elem_of_fmap_2|]. rewrite E. left.
Qed.

Lemma names_of_once ops : NoDup (map w_path ops) -> names_of (latest ops) ≡ₚ map w_path ops.
Proof.
  intros Hnd'. apply NoDup_Permutation; [apply NoDup_names_of|done|]. intros x. rewrite elem_of_names_of, list_elem_of_fmap. split.
  - intros [[w v] El]. destruct (latest_from _ _ _ _ El) as [? <-]. eauto.
  - intros (w & -> & Hin). rewrite latest_once by done. eauto.
Qed.

Lemma pull_fold get get_blob reachable (content : string -> bytes) l local acc :
  (forall path, path ∈ l -> exists r, get_file get get_blob reachable nodes path replicas = Ok (content path, r)) ->
  NoDup (local.*1 ++ map lstrip_slash l)%list ->
  res_fold (pull_one get get_blob reachable nodes replicas) (local, acc) l =
    Ok ((local ++ map (fun path => (lstrip_slash path, content path)) l)%list, (acc ++ l)%list).
Proof.
  revert local acc; induction l as [|path l IH]; intros local acc Hget Hnd'; cbn [map res_fold].
  - by rewrite !app_nil_r.
  - destruct (Hget path) as [r Er]; [by left|]. unfold pull_one at 2. rewrite Er. cbn [mbind res_bind].
    assert (Hfresh : PyVal.assoc (lstrip_slash path) local = None).
    { apply assoc_None. intros Hin. apply NoDup_app in Hnd' as (_ & Hd & _). apply (Hd _ Hin). left. }
    rewrite assoc_set_fresh by done. rewrite IH.
    + by rewrite <- !app_assoc.
    + intros path' Hin. apply Hget. by right.
    + rewrite fmap_app, <- app_assoc. exact Hnd'.
Qed.

Lemma restored_relative path : relative path -> restored path = path.
Proof.
  intros [Hb Hs]. unfold restored. assert (E : replace_char "\" "/" path = path).
  { clear Hs. unfold replace_char. induction path as [|c path IH]; [done|]. destruct Hb as [Hc Hb]. simpl.
    rewrite (proj2 (Ascii.eqb_neq c "\") Hc). by rewrite IH. }
  rewrite E. change ("/" +:+ path) with (String "/" path). cbn [lstrip_slash].
  destruct path as [|[[] [] [] [] [] [] [] []] path]; done.
Qed.

End drive.

(** ** In memory *)

Record mesh_memory := mkMemory { frag_map : memory; blob_map : blobs }.

#[export] Program Instance memory_frags : FragStore mesh_memory := {|
  frag_put node key b s := mkMemory (frag_put node key b (frag_map s)) (blob_map s);
  frag_read node key s := frag_read node key (frag_map s)
|}.
Next Obligation. intros. apply (frag_read_put_eq (S:=memory)). Qed.
Next Obligation. intros. by apply (frag_read_put_ne (S:=memory)). Qed.

#[export] Program Instance memory_blobs : BlobStore mesh_memory := {|
  blob_put node key b s := mkMemory (frag_map s) (blob_put node key b (blob_map s));
  blob_read node key s := blob_read node key (blob_map s)
|}.
Next Obligation. intros. apply (blob_read_put_eq (S:=blobs)). Qed.
Next Obligation. intros. by apply (blob_read_put_ne (S:=blobs)). Qed.

#[export] Program Instance memory_mesh : MeshStore mesh_memory :=
  {| mesh_frags := memory_frags; mesh_blobs := memory_blobs |}.
Solve Obligations with done.

Section sample.
Existing Instance demo_float_repr.

Definition no_files : mesh_memory := mkMemory ∅ ∅.

Definition note (data : bytes) : write := mkWrite "/note" data "laptop" "t1".

Lemma drive_refines_map_witness :
  clash [note secret; note [1%Z]] \/
  exists s, run_writes mesh plain 2 [note secret; note [1%Z]] no_files = Ok s /\
    forall seized get get_blob reachable, mesh_view s seized get get_blob reachable -> tolerated plain 2 seized ->
      (forall path, path <> _INDEX ->
         get_file get get_blob reachable mesh path 2 =
         match latest [note secret; note [1%Z]] !! path with
         | Some wv => Ok (as_file wv)
         | None => Raise (FileNotFound path)
         end) /\
      list_files get_blob reachable mesh 2 = Ok (names_of (latest [note secret; note [1%Z]])).
Proof.
  apply (drive_refines_map mesh plain 2).
  - repeat constructor; set_solver.
  - by split.
  - repeat split; discriminate.
  - discriminate.
  - discriminate.
  - reflexivity.
  - repeat constructor; discriminate.
Defined.

Example second_version : as_file <$> latest [note secret; note [1%Z]] !! "/note" =
  Some ([1%Z], written_ref "/note" (merkle_root [1%Z]) 2 "t1" "laptop").
Proof. reflexivity. Qed.


(** A file name may hold a backslash; the file comes back as one in a directory. *)
Example backslash_name_changed :
  match push_dir mesh [("a\b", [7%Z], "t1")] "laptop" plain 2 no_files with
  | Ok (s, _) => pull_dir (fun node key => Ok (frag_read node key s)) (get_of s) None mesh 2 [] = Ok ([("a/b", [7%Z])], ["/a/b"])
  | Raise _ => False
  end.
Proof. vm_compute. reflexivity. Qed.

(** The index is a name like any other.  A file written under it first cannot
    be read, and the fields of its reference are listed as files; once there is
    an index, writing such a file raises after its fragments are stored. *)
Definition clobbered : res mesh_memory := run_writes mesh plain 2 [mkWrite _INDEX [7%Z] "laptop" "t2"] no_files.

Example index_name_clobbers :
  match clobbered with
  | Ok s => list_files (get_of s) None mesh 2 = Ok ["__index__"; "path"; "root"; "updated_at"; "version"; "writer"] /\
            get_file (fun node key => Ok (frag_read node key s)) (get_of s) None mesh _INDEX 2 = Raise TypeError
  | Raise _ => False
  end /\
  run_writes mesh plain 2 [note secret; mkWrite _INDEX [7%Z] "laptop" "t2"] no_files = Raise TypeError.
Proof. vm_compute. auto. Qed.

(** Two devices add a file at once: both read the index before either writes
    it, and the path of the first is lost. *)
Definition concurrent_adds : res mesh_memory :=
  paths ← _index_read (get_of no_files) None mesh 2;
  one ← sort_names (set_add paths (PStr "/one"));
  two ← sort_names (set_add paths (PStr "/two"));
  s ← publish_blob _INDEX (index_text one) mesh 2 no_files;
  s ← publish_blob _INDEX (index_text two) mesh 2 (snd (s : list string * mesh_memory));
  Ok (snd (s : list string * mesh_memory)).

Example concurrent_add_lost :
  match concurrent_adds with Ok s => list_files (get_of s) None mesh 2 = Ok ["/two"] | Raise _ => False end.
Proof. vm_compute. reflexivity. Qed.
End sample.
