(* ===== verification/Continuity.v ===== *)
(** * Continuity: clipboard, beam and handoff

    Models [automation/continuity.py], a few well-known names of the Drive.  The
    random id of a beamed item is an argument. *)

From S2P Require Import Prelude PyVal Json Gf256 HolographicIda StorageResilience LeafPropagation ManifestStore MeshNamespace MeshSync.
Local Open Scope string_scope.

Definition CLIPBOARD : string := "/continuity/clipboard".
Definition _INBOX : string := "/continuity/inbox/".
Definition _HANDOFF : string := "/continuity/handoff/".

(** The copies of a name when nothing else is asked for. *)
Definition default_replicas : Z := 5.

Section continuity_write.
Context `{FloatRepr} {S : Type} `{MeshStore S}.
Variables (nodes : list string) (placement : Placement).

Definition clipboard_set (data : bytes) (writer now : string) (s : S) : res S :=
  rs ← put_file nodes CLIPBOARD data writer now placement default_replicas s; Ok (snd (rs : NamespaceRef * S)).

(** [uuid] is the hexadecimal text of the random id. *)
Definition beam (to_device : string) (data : bytes) (writer now uuid : string) (s : S) : res (string * S) :=
  let path := _INBOX +:+ to_device +:+ "/" +:+ uuid in
  rs ← put_file nodes path data writer now placement default_replicas s; Ok (path, snd (rs : NamespaceRef * S)).

Definition handoff_set (activity : string) (state : bytes) (device now : string) (s : S) : res (NamespaceRef * S) :=
  put_file nodes (_HANDOFF +:+ activity) state device now placement default_replicas s.
End continuity_write.

Section continuity_read.
Variable get : string -> string -> res (option bytes).
Variable get_blob : string -> string -> res (option string).
Variable reachable : option (gset string).
Variable nodes : list string.

Definition clipboard_get : res (option bytes) :=
  match get_file get get_blob reachable nodes CLIPBOARD default_replicas with
  | Ok (data, _) => Ok (Some data)
  | Raise (FileNotFound _) => Ok None
  | Raise e => Raise e
  end.

Definition inbox (device : string) : res (list (string * bytes)) :=
  let prefix := _INBOX +:+ device +:+ "/" in
  paths ← list_files get_blob reachable nodes default_replicas;
  res_map (fun path => dr ← get_file get get_blob reachable nodes path default_replicas; Ok (path, fst (dr : bytes * NamespaceRef)))
    (List.filter (String.prefix prefix) paths).

Definition handoff_get (activity : string) : res (option (bytes * pyval * Z)) :=
  match get_file get get_blob reachable nodes (_HANDOFF +:+ activity) default_replicas with
  | Ok (data, ref) => Ok (Some (data, ns_writer ref, ns_version ref))
  | Raise (FileNotFound _) => Ok None
  | Raise e => Raise e
  end.
End continuity_read.

(** ** On the Drive *)

Section continuity.
Context `{FloatRepr} {S : Type} `{MeshStore S}.
Variables (nodes : list string) (p : Placement).
Hypothesis Hnd : NoDup nodes.
Hypothesis Hrep : (default_replicas <= Z.of_nat (length nodes))%Z.
Hypothesis Hsafe : safe p.
Hypothesis Hn : (rs_n p <= 255)%Z.
Hypothesis Hroom : (rs_n p * shard_replicas p <= Z.of_nat (length nodes))%Z.

(** An activity resumes where it was left.  After any sequence of writes on
    the Drive, hand off an activity: it succeeds, and whoever resumes it after a
    tolerated seizure gets the state, the device that handed it off and the
    number of times it was written (unless two contents are a SHA-256
    collision). *)
Theorem handoff_resumes ops activity state device now (s0 : S) :
  (forall node key, blob_read node key s0 = None) -> Forall legal ops -> forallb is_byte state = true ->
  let handed := (ops ++ [mkWrite (_HANDOFF +:+ activity) state device now])%list in
  clash handed \/
  exists s r s', run_writes nodes p default_replicas ops s0 = Ok s /\
    handoff_set nodes p activity state device now s = Ok (r, s') /\
    forall seized get get_blob reachable,
      mesh_view s' seized get get_blob reachable -> tolerated p default_replicas seized ->
      exists n, latest handed !! (_HANDOFF +:+ activity) = Some (mkWrite (_HANDOFF +:+ activity) state device now, n) /\
        handoff_get get get_blob reachable nodes activity = Ok (Some (state, PStr device, n)).
Proof.
  intros Hempty Hlegal Hstate handed. set (w := mkWrite _ _ _ _) in handed.
  assert (Hrep' : (1 <= default_replicas <= Z.of_nat (length nodes))%Z) by (unfold default_replicas in *; lia).
  destruct (run_writes_ok nodes p default_replicas Hnd Hrep' Hsafe Hn Hroom handed s0 Hempty) as [?|(s' & Es & Hok)];
    [apply Forall_app; by repeat constructor|by left|]. right.
  unfold run_writes, handed in Es. rewrite res_fold_app in Es. apply bind_Ok_inv in Es as (s & Es & Ew).
  cbn [res_fold] in Ew. apply bind_Ok_inv in Ew as (s1 & Ew & [= <-]). unfold do_write in Ew.
  apply bind_Ok_inv in Ew as ([r s2] & Ew & [= <-]). exists s, r, s2. split_and!; [exact Es|exact Ew|].
  intros seized get get_blob reachable Hv Ht. eexists. assert (El : latest handed !! (_HANDOFF +:+ activity) =
    Some (w, match latest ops !! (_HANDOFF +:+ activity) with Some x => x.2 + 1 | None => 1 end)%Z).
  { unfold handed, latest. rewrite foldl_app. cbn [foldl]. fold (latest ops). apply lookup_insert_eq. }
  split; [exact El|]. unfold handoff_get.
  rewrite (get_file_ok nodes p default_replicas Hnd Hrep' Hsafe _ _ seized get get_blob reachable _ _ _ Hok Hv Ht
    ltac:(rewrite lookup_fmap, El; reflexivity)). done.
Qed.

(** The item beamed to a device under a path. *)
Definition item (ops : list write) (path : string) : string * bytes :=
  (path, match latest ops !! path with Some wv => w_data wv.1 | None => [] end).

(** An inbox holds exactly what was beamed to it.  After any sequence of
    writes on the Drive and any tolerated seizure, the inbox of a device is the
    paths written under its prefix, in order, each with the bytes last written
    there (unless two contents are a SHA-256 collision). *)
Theorem inbox_exact ops (s0 : S) :
  (forall node key, blob_read node key s0 = None) -> Forall legal ops ->
  clash ops \/
  exists s, run_writes nodes p default_replicas ops s0 = Ok s /\
    forall seized get get_blob reachable device,
      mesh_view s seized get get_blob reachable -> tolerated p default_replicas seized ->
      inbox get get_blob reachable nodes device =
        Ok (map (item ops) (List.filter (String.prefix (_INBOX +:+ device +:+ "/")) (names_of (latest ops)))).
Proof.
  intros Hempty Hlegal.
  assert (Hrep' : (1 <= default_replicas <= Z.of_nat (length nodes))%Z) by (unfold default_replicas in *; lia).
  destruct (run_writes_ok nodes p default_replicas Hnd Hrep' Hsafe Hn Hroom ops s0 Hempty Hlegal) as [?|(s & Es & Hok)]; [by left|].
  right. exists s. split; [done|]. intros seized get get_blob reachable device Hv Ht. unfold inbox.
  rewrite (list_files_ok nodes default_replicas Hnd Hrep' _ s seized get_blob reachable (d_index _ _ _ _ _ Hok) (proj2 Hv) (proj1 Ht)).
  cbn [mbind res_bind]. rewrite names_of_fmap. apply res_map_pure, Forall_forall. intros path [Hin _]%elem_of_lfilter.
  apply elem_of_names_of in Hin as [wv El]. unfold item. rewrite El.
  rewrite (get_file_ok nodes p default_replicas Hnd Hrep' Hsafe _ _ seized get get_blob reachable path _ _ Hok Hv Ht
    ltac:(rewrite lookup_fmap, El; reflexivity)). done.
Qed.
End continuity.

Section sample.
Existing Instance demo_float_repr.

Definition five : list string := ["a"; "b"; "c"; "d"; "e"].
Definition beamed : write := mkWrite (_INBOX +:+ "phone/01") [7%Z] "laptop" "t1".

Lemma handoff_resumes_witness :
  clash [beamed; mkWrite (_HANDOFF +:+ "edit") secret "laptop" "t2"] \/
  exists s r s', run_writes five plain default_replicas [beamed] no_files = Ok s /\
    handoff_set five plain "edit" secret "laptop" "t2" s = Ok (r, s') /\
    forall seized get get_blob reachable,
      mesh_view s' seized get get_blob reachable -> tolerated plain default_replicas seized ->
      exists n, latest [beamed; mkWrite (_HANDOFF +:+ "edit") secret "laptop" "t2"] !! (_HANDOFF +:+ "edit") =
          Some (mkWrite (_HANDOFF +:+ "edit") secret "laptop" "t2", n) /\
        handoff_get get get_blob reachable five "edit" = Ok (Some (secret, PStr "laptop", n)).
Proof.
  apply (handoff_resumes five plain ltac:(apply (bool_decide_unpack _); reflexivity) ltac:(discriminate)
    ltac:(repeat split; discriminate) ltac:(discriminate) ltac:(discriminate) [beamed] "edit" secret "laptop" "t2" no_files).
  - reflexivity.
  - repeat constructor; discriminate.
  - reflexivity.
Defined.

Lemma inbox_exact_witness :
  clash [beamed] \/
  exists s, run_writes five plain default_replicas [beamed] no_files = Ok s /\
    forall seized get get_blob reachable device,
      mesh_view s seized get get_blob reachable -> tolerated plain default_replicas seized ->
      inbox get get_blob reachable five device =
        Ok (map (item [beamed]) (List.filter (String.prefix (_INBOX +:+ device +:+ "/")) (names_of (latest [beamed])))).
Proof.
  apply (inbox_exact five plain ltac:(apply (bool_decide_unpack _); reflexivity) ltac:(discriminate)
    ltac:(repeat split; discriminate) ltac:(discriminate) ltac:(discriminate) [beamed] no_files).
  - reflexivity.
  - repeat constructor; discriminate.
Defined.
End sample.
