(* ===== verification/ControlLoop.v ===== *)
(** * The closed control loop

    Models [automation/control_loop.py].  The injected [observe], [act] and
    [clock] are functions of a world of any type, which they may change;
    [observe] may raise.  [act] is the effect of the call, raised exception or
    not, since the loop drops the exception.

    The [while True] loop runs on a fuel of [max_iterations + 1] rounds; that it
    never runs out is [run_bounded]. *)

From Stdlib Require Import SpecFloat.
From S2P Require Import Prelude PyVal PyText Json.
Local Open Scope Z_scope.

Definition _EPS : spec_float := F64.of_dec 1 12.

Record step := mkStep {
  iter : nat;
  s_error : spec_float;
  elapsed_s : spec_float;
  acted : bool
}.

Inductive stop_reason :=
| Reached (err target : spec_float)
| Exhausted (max_iterations : nat)
| DeadlineExceeded (deadline : spec_float)
| Stuck (patience : nat)
| NoInvariant (kind : string).

Record LoopResult := mkResult {
  converged : bool;
  iterations : nat;
  initial_error : spec_float;
  final_error : spec_float;
  trace : list step;
  fail_closed_state : option string;
  l_reason : stop_reason
}.

Record loop := mkLoop {
  max_iterations : nat;
  deadline_s : spec_float;
  target : spec_float;
  patience : nat;
  safe_state : string
}.

(** [ControlLoop.__init__]. *)
Definition ControlLoop (max_iterations : Z) (deadline_s target : spec_float) (patience : Z)
    (safe_state : string) : res loop :=
  if max_iterations <? 1 then Raise (ValueError "control loop must be bounded: max_iterations >= 1")
  else if F64.leb deadline_s F64.zero then Raise (ValueError "control loop must be bounded: deadline_s > 0")
  else if patience <? 1 then Raise (ValueError "patience >= 1")
  else Ok (mkLoop (Z.to_nat max_iterations) deadline_s target (Z.to_nat patience) safe_state).

Section loop.
Context {W : Type}.
Variable observe : W -> res spec_float * W.
Variable act : W -> W.
Variable clock : W -> spec_float * W.

Definition _observe (w : W) : spec_float * W :=
  match observe w with
  | (Ok e, w) => (e, w)
  | (Raise _, w) => (F64.inf, w)
  end.

Definition _act (w : W) : W := act w.

Section run.
Variable c : loop.

Definition at_target (err : spec_float) : bool := F64.leb err (F64.add (target c) _EPS).

(** The [while] loop: the trace so far is kept in reverse. *)
Fixpoint run_loop (fuel : nat) (t0 err best : spec_float) (stall i : nat) (rtrace : list step) (w : W) :
    option (list step * spec_float * bool * stop_reason * W) :=
  match fuel with
  | O => None
  | S fuel =>
    let (now, w) := clock w in
    let st := mkStep i err (py_round 6 (F64.sub now t0)) false in
    if at_target err then Some (st :: rtrace, err, true, Reached err (target c), w)
    else if Nat.leb (max_iterations c) i then Some (st :: rtrace, err, false, Exhausted (max_iterations c), w)
    else
      let (now, w) := clock w in
      if F64.ltb (deadline_s c) (F64.sub now t0) then
        Some (st :: rtrace, err, false, DeadlineExceeded (deadline_s c), w)
      else
        let better := F64.ltb err (F64.sub best _EPS) in
        let best := if better then err else best in
        let stall := if better then 0%nat else S stall in
        if negb better && Nat.leb (patience c) stall then
          Some (st :: rtrace, err, false, Stuck (patience c), w)
        else
          let st := mkStep i err (elapsed_s st) true in
          let w := _act w in
          let (err, w) := _observe w in
          run_loop fuel t0 err best stall (S i) (st :: rtrace) w
  end.

Definition run (w : W) : option (LoopResult * W) :=
  let (t0, w) := clock w in
  let (err, w) := _observe w in
  match run_loop (S (max_iterations c)) t0 err F64.inf 0 0 [] w with
  | None => None
  | Some (rtrace, final, conv, reason, w) =>
    (* the terminal condition is re-checked after the last act *)
    let conv := conv || at_target final in
    Some (mkResult conv (length rtrace) err final (rev rtrace)
            (if conv then None else Some (safe_state c)) reason, w)
  end.
End run.
End loop.

(** [heal]: the loop on a registered invariant, or a failure that cannot claim
    convergence.  An exception of the executor is dropped by [act]. *)
Definition heal {W} (INVARIANTS : list (string * (W -> res spec_float * W))) (kind_class : string)
    (executor : W -> W) (clock : W -> spec_float * W) (c : loop) (w : W) : option (LoopResult * W) :=
  match assoc kind_class INVARIANTS with
  | None => Some (mkResult false 0 F64.inf F64.inf [] (Some "quarantine-escalate"%string)
                    (NoInvariant kind_class), w)
  | Some invariant => run invariant executor clock c w
  end.

(** ** Lemmas *)

Section loop_lemmas.
Context {W : Type}.
Variable observe : W -> res spec_float * W.
Variable act : W -> W.
Variable clock : W -> spec_float * W.
Variable c : loop.

#[local] Abbreviation loop_from := (run_loop observe act clock c).

(** One more step is recorded in every round, and there are at most as many
    rounds as iterations left, plus one. *)
Lemma run_loop_bounded fuel t0 err best stall i rtrace w :
  (max_iterations c - i < fuel)%nat -> (i <= max_iterations c)%nat ->
  exists rtrace' final conv reason w',
    loop_from fuel t0 err best stall i rtrace w = Some (rtrace', final, conv, reason, w') /\
    (length rtrace < length rtrace' <= length rtrace + S (max_iterations c - i))%nat /\
    conv = at_target c final /\ exists st rest, rtrace' = st :: rest /\ s_error st = final.
Proof.
  revert err best stall i rtrace w; induction fuel as [|fuel IH];
    intros err best stall i rtrace w Hf Hi; [lia|].
  cbn [run_loop]. destruct (clock w) as [now1 w1].
  destruct (at_target c err) eqn:Et.
  { eexists _, _, _, _, _. split; [done|]. simpl. split_and!; [lia|lia|done|by eexists _, _]. }
  destruct (Nat.leb_spec (max_iterations c) i) as [Hle|Hlt].
  { eexists _, _, _, _, _. split; [done|]. simpl. split_and!; [lia|lia|done|by eexists _, _]. }
  destruct (clock w1) as [now2 w2].
  destruct (F64.ltb (deadline_s c) _).
  { eexists _, _, _, _, _. split; [done|]. simpl. split_and!; [lia|lia|done|by eexists _, _]. }
  set (better := F64.ltb err _). destruct (negb better && _).
  { eexists _, _, _, _, _. split; [done|]. simpl. split_and!; [lia|lia|done|by eexists _, _]. }
  destruct (_observe observe (_act act w2)) as [err' w3].
  match goal with |- context [loop_from fuel t0 err' ?b ?s (S i) ?r w3] =>
    destruct (IH err' b s (S i) r w3) as (rt & fin & conv & reason & w' & -> & Hl & Hc & Hst); [lia|lia|] end.
  exists rt, fin, conv, reason, w'. split; [done|]. simpl in Hl. split; [lia|done].
Qed.
End loop_lemmas.

(** Every run returns; it converged exactly when its last error is on target. *)
Lemma run_loop_converged {W} observe act clock (c : loop) (w : W) result w' :
  run observe act clock c w = Some (result, w') ->
  converged result = at_target c (final_error result) /\
  fail_closed_state result = (if converged result then None else Some (safe_state c)).
Proof.
  unfold run. destruct (clock w) as [t0 w0]. destruct (_observe observe w0) as [err w1].
  destruct (run_loop_bounded observe act clock c (S (max_iterations c)) t0 err F64.inf 0 0 [] w1)
    as (rt & fin & conv & reason & w2 & -> & _ & Hc & _); [lia|lia|].
  intros [= <- <-]. simpl. by rewrite Hc, orb_diag.
Qed.

Lemma run_returns {W} observe act clock (c : loop) (w : W) :
  exists result w', run observe act clock c w = Some (result, w').
Proof.
  unfold run. destruct (clock w) as [t0 w0]. destruct (_observe observe w0) as [err w1].
  destruct (run_loop_bounded observe act clock c (S (max_iterations c)) t0 err F64.inf 0 0 [] w1)
    as (rt & fin & conv & reason & w2 & -> & _); [lia|lia|]. by eexists _, _.
Qed.

(** What acting, observing and reading the clock preserve holds of the world a
    run leaves. *)
Section preserved.
Context {W : Type}.
Variable observe : W -> res spec_float * W.
Variable act : W -> W.
Variable clock : W -> spec_float * W.
Variable c : loop.
Variable P : W -> Prop.
Hypothesis act_P : forall w, P w -> P (act w).
Hypothesis clock_P : forall w, P w -> P (clock w).2.
Hypothesis observe_P : forall w, P w -> P (observe w).2.

Lemma _observe_preserves w : P w -> P (_observe observe w).2.
Proof. intros Hw. pose proof (observe_P w Hw) as Ho. unfold _observe. by destruct (observe w) as [[] ?]. Qed.

Lemma run_loop_preserves fuel t0 err best stall i rtrace w rt fin conv reason w' :
  P w -> run_loop observe act clock c fuel t0 err best stall i rtrace w = Some (rt, fin, conv, reason, w') -> P w'.
Proof.
  revert err best stall i rtrace w; induction fuel as [|fuel IH]; intros err best stall i rtrace w Hw; cbn [run_loop]; [done|].
  pose proof (clock_P w Hw) as H1. destruct (clock w) as [now1 w1]. cbn [snd] in H1.
  destruct (at_target c err); [by intros [= <- <- <- <- <-]|].
  destruct (Nat.leb _ _); [by intros [= <- <- <- <- <-]|].
  pose proof (clock_P w1 H1) as H2. destruct (clock w1) as [now2 w2]. cbn [snd] in H2.
  destruct (F64.ltb (deadline_s c) _); [by intros [= <- <- <- <- <-]|].
  cbv zeta. destruct (_ && _); [by intros [= <- <- <- <- <-]|].
  pose proof (_observe_preserves _ (act_P w2 H2)) as H3. unfold _act. destruct (_observe observe (act w2)) as [err' w3]. by apply IH.
Qed.

Lemma run_preserves w result w' : P w -> run observe act clock c w = Some (result, w') -> P w'.
Proof.
  intros Hw Hr. unfold run in Hr. pose proof (clock_P w Hw) as H0. destruct (clock w) as [t0 w0]. cbn [snd] in H0.
  pose proof (_observe_preserves _ H0) as H1. destruct (_observe observe w0) as [err w1]. cbn [snd] in H1.
  destruct (run_loop _ _ _ _ _ _ _ _ _ _ _ _) as [[[[[rt fin] conv] reason] w2]|] eqn:El; [|done].
  injection Hr as <- <-. by eapply run_loop_preserves.
Qed.
End preserved.

(** A world whose error and time can be read off, and whose action improves
    the error by more than the tolerance until the target is met. *)
Section progress.
Context {W : Type}.
Variable error time : W -> spec_float.
Variable act : W -> W.
Variable c : loop.

Definition plain_observe (w : W) : res spec_float * W := (Ok (error w), w).
Definition plain_clock (w : W) : spec_float * W := (time w, w).

Lemma run_loop_progress n fuel t0 best stall i rtrace w :
  (n < fuel)%nat -> (i + n <= max_iterations c)%nat ->
  at_target c (error (Nat.iter n act w)) = true ->
  (forall j, (j < n)%nat -> F64.ltb (error (act (Nat.iter j act w))) (F64.sub (error (Nat.iter j act w)) _EPS) = true) ->
  (forall j, (j < n)%nat -> F64.ltb (deadline_s c) (F64.sub (time (Nat.iter j act w)) t0) = false) ->
  F64.ltb (error w) (F64.sub best _EPS) = true ->
  exists rt fin reason w',
    run_loop plain_observe act plain_clock c fuel t0 (error w) best stall i rtrace w
    = Some (rt, fin, true, reason, w').
Proof.
  revert fuel best stall i rtrace w; induction n as [|n IH];
    intros fuel best stall i rtrace w Hf Hi Ht Hdec Hdl Hbest; (destruct fuel as [|fuel]; [lia|]);
    cbn [run_loop]; unfold plain_clock at 1.
  - simpl in Ht. rewrite Ht. by eexists _, _, _, _.
  - destruct (at_target c (error w)) eqn:Et; [by eexists _, _, _, _|].
    destruct (Nat.leb_spec (max_iterations c) i); [lia|].
    pose proof (Hdl 0%nat ltac:(lia)) as Hd0. simpl in Hd0. unfold plain_clock at 1. rewrite Hd0.
    cbn zeta. rewrite Hbest. cbn [negb andb].
    unfold _observe, plain_observe, _act. cbn zeta.
    assert (Hit : forall j, Nat.iter j act (act w) = Nat.iter (S j) act w).
    { intros j. induction j as [|j IHj]; [done|]. simpl in *. by rewrite IHj. }
    apply IH; [lia|lia| | | |].
    + by rewrite Hit.
    + intros j Hj. rewrite Hit. apply (Hdec (S j)). lia.
    + intros j Hj. rewrite Hit. apply (Hdl (S j)). lia.
    + apply (Hdec 0%nat). lia.
Qed.
End progress.

(** ** The calls of a run *)

Section rounds.
Context {W : Type}.
Variable observe : W -> res spec_float * W.
Variable act : W -> W.
Variable clock : W -> spec_float * W.
Variable c : loop.

Definition tick (w : W) : W := (clock w).2.

(** What happens between two observations: the clock is read twice, the action
    is called once and the error is observed once.  [rounds w es w'] is a
    sequence of them in which the errors [es] were observed. *)
Inductive rounds : W -> list spec_float -> W -> Prop :=
| rounds_none w : rounds w [] w
| rounds_next w e w1 es w2 :
    _observe observe (act (tick (tick w))) = (e, w1) -> rounds w1 es w2 -> rounds w (e :: es) w2.

(** The steps recorded of an error and the errors observed after it: every one
    but the last was followed by the action, and every one but the last is off
    target. *)
Definition recorded (i : nat) (err : spec_float) (es : list spec_float) (steps : list step) : Prop :=
  map iter steps = seq i (S (length es)) /\ map s_error steps = err :: es /\
  map acted steps = (repeat true (length es) ++ [false])%list /\
  Forall (fun e => at_target c e = false) (removelast (err :: es)).

Lemma recorded_last i err t : recorded i err [] [mkStep i err t false].
Proof. by split_and!. Qed.

Lemma recorded_next i err t e es steps :
  at_target c err = false -> recorded (S i) e es steps -> recorded i err (e :: es) (mkStep i err t true :: steps).
Proof. intros He (H1 & H2 & H3 & H4). split_and!; simpl; [by rewrite H1|by rewrite H2|by rewrite H3|by constructor]. Qed.

Lemma last_next (e : spec_float) es d : List.last (e :: es) d = List.last es e.
Proof. revert e d; induction es as [|e' es IH]; intros e d; [done|]. change (List.last (e' :: es) d = List.last (e' :: es) e). by rewrite !IH. Qed.

(** The world a run leaves: the clock was read once or twice since the last
    observation. *)
Definition left_after (w w' : W) : Prop := w' = tick w \/ w' = tick (tick w).

Lemma run_loop_rounds fuel t0 err best stall i rtrace w :
  (max_iterations c - i < fuel)%nat -> (i <= max_iterations c)%nat ->
  exists steps es reason w1 w',
    run_loop observe act clock c fuel t0 err best stall i rtrace w
      = Some (rev steps ++ rtrace, List.last es err, at_target c (List.last es err), reason, w')%list /\
    rounds w es w1 /\ left_after w1 w' /\ recorded i err es steps /\ (i + length es <= max_iterations c)%nat.
Proof.
  revert err best stall i rtrace w; induction fuel as [|fuel IH];
    intros err best stall i rtrace w Hf Hi; [lia|]. cbn [run_loop].
  assert (Hstop : forall (conv : bool) (reason : stop_reason) (w' : W) t, left_after w w' -> at_target c err = conv ->
    exists steps es reason' w1 w'',
      Some (mkStep i err t false :: rtrace, err, conv, reason, w')%list
        = Some (rev steps ++ rtrace, List.last es err, at_target c (List.last es err), reason', w'')%list /\
      rounds w es w1 /\ left_after w1 w'' /\ recorded i err es steps /\ (i + length es <= max_iterations c)%nat).
  { intros conv reason w' t Hw Hc. exists [mkStep i err t false], [], reason, w, w'. simpl. rewrite Hc.
    split_and!; [done|constructor|done|done..|lia]. }
  assert (E1 : clock w = ((clock w).1, tick w)) by apply surjective_pairing. rewrite E1.
  destruct (at_target c err) eqn:Et; [apply Hstop; [by left|done]|].
  destruct (Nat.leb_spec (max_iterations c) i) as [Hle|Hlt]; [apply Hstop; [by left|done]|].
  assert (E2 : clock (tick w) = ((clock (tick w)).1, tick (tick w))) by apply surjective_pairing. rewrite E2.
  destruct (F64.ltb (deadline_s c) _); [apply Hstop; [by right|done]|]. cbv zeta.
  destruct (negb _ && _); [apply Hstop; [by right|done]|]. unfold _act. cbn [elapsed_s].
  destruct (_observe observe (act (tick (tick w)))) as [e w3] eqn:Eo.
  match goal with |- context [run_loop _ _ _ _ fuel t0 e ?b ?s (S i) ?r w3] =>
    destruct (IH e b s (S i) r w3) as (steps & es & reason & w1 & w' & -> & Hr & Hl & Hs & Hn); [lia|lia|] end.
  match goal with |- context [mkStep i err ?t true] => exists (mkStep i err t true :: steps) end.
  exists (e :: es), reason, w1, w'. split; [cbn [rev]; by rewrite <- app_assoc, last_next|].
  split; [by econstructor|]. split; [done|]. split; [by apply recorded_next|]. simpl. lia.
Qed.
End rounds.

(** ** Properties *)

(** C32: the loop is bounded and fail-closed.  Whatever the world does, a run
    returns.  It observes the error once ([e0]) and then makes at most
    [max_iterations] rounds, each of one action followed by one observation,
    and nothing else but reading the clock; the errors it observed are those of
    its trace, in order, and it acted after each of them but the last.  It goes
    on from an error only when that is off target, it claims convergence
    exactly when the last error it observed is within the target, and otherwise
    it hands back the safe state. *)
Theorem run_bounded_fail_closed {W} observe act clock (c : loop) (w : W) :
  exists result w' e0 es w0 w1, run observe act clock c w = Some (result, w') /\
    _observe observe (tick clock w) = (e0, w0) /\ rounds observe act clock w0 es w1 /\ left_after clock w1 w' /\
    (length es <= max_iterations c)%nat /\ recorded c 0 e0 es (trace result) /\
    iterations result = length (trace result) /\ initial_error result = e0 /\
    final_error result = List.last es e0 /\
    converged result = at_target c (final_error result) /\
    fail_closed_state result = (if converged result then None else Some (safe_state c)).
Proof.
  unfold run. rewrite (surjective_pairing (clock w)). fold (tick clock w).
  destruct (_observe observe (tick clock w)) as [e0 w0].
  destruct (run_loop_rounds observe act clock c (S (max_iterations c)) (clock w).1 e0 F64.inf 0 0 [] w0)
    as (steps & es & reason & w1 & w' & -> & Hr & Hl & Hs & Hn); [lia|lia|].
  eexists _, w', e0, es, w0, w1. split; [reflexivity|]. cbn [trace iterations initial_error final_error converged fail_closed_state].
  rewrite app_nil_r, rev_involutive, length_rev, orb_diag. by split_and!.
Qed.

(** The loop converges when its action does.  If from a finite error every
    action lowers the error by more than the tolerance, the target is met after
    [n] of them, [n] within [max_iterations], and the deadline is not passed
    before, then the run reports convergence and no safe state. *)
Theorem run_converges {W} (error time : W -> spec_float) act (c : loop) (w : W) n :
  (n <= max_iterations c)%nat -> F64.ltb (error w) F64.inf = true ->
  at_target c (error (Nat.iter n act w)) = true ->
  (forall j, (j < n)%nat ->
     F64.ltb (error (act (Nat.iter j act w))) (F64.sub (error (Nat.iter j act w)) _EPS) = true) ->
  (forall j, (j < n)%nat -> F64.ltb (deadline_s c) (F64.sub (time (Nat.iter j act w)) (time w)) = false) ->
  exists result w', run (plain_observe error) act (plain_clock time) c w = Some (result, w') /\
    converged result = true /\ fail_closed_state result = None.
Proof.
  intros Hn Hfin Ht Hdec Hdl. unfold run. cbn [plain_clock _observe plain_observe].
  destruct (run_loop_progress error time act c n (S (max_iterations c)) (time w) F64.inf 0 0 [] w)
    as (rt & fin & reason & w' & E); [lia|lia|done|done|done|done|].
  unfold _observe, plain_observe. unfold plain_observe in E. rewrite E.
  eexists _, _. split; [reflexivity|]. done.
Qed.

(** ** Witnesses *)

(** A world that counts down. *)
Definition demo_loop : loop := mkLoop 5 (F64.of_Z 30) F64.zero 2 "quarantine-escalate".

Lemma run_converges_witness :
  exists result w',
    run (plain_observe (fun w : nat => F64.of_Z (Z.of_nat w))) Nat.pred (plain_clock (fun _ => F64.zero)) demo_loop 3%nat
      = Some (result, w') /\ converged result = true /\ fail_closed_state result = None.
Proof.
  apply (run_converges _ _ _ _ _ 3).
  - simpl. lia.
  - vm_compute. reflexivity.
  - vm_compute. reflexivity.
  - intros j Hj. destruct j as [|[|[|]]]; [vm_compute; reflexivity..|lia].
  - intros j Hj. vm_compute. reflexivity.
Defined.
