(* ===== verification/RateLimiter.v ===== *)
(** * The API rate limiter

    Models [automation/rate_limiter.py].  The readings of the monotonic clock
    that a call takes are its arguments.  The lock makes the first part of
    [acquire] one atomic step; the back-off part runs outside the lock, so its
    [backoff_events += 1] is a read and a write that other threads may come
    between, and the threads are a step relation. *)

From Stdlib Require Import SpecFloat.
From S2P Require Import Prelude PyVal PyText.
Local Open Scope Z_scope.

Definition HOURLY_LIMIT : Z := 5000.
Definition SAFETY_BUFFER : Z := 500.
Definition AVAILABLE_QUOTA : Z := HOURLY_LIMIT - SAFETY_BUFFER.
Definition BACKOFF_THRESHOLD : spec_float := F64.of_dec 80 2.
Definition EMERGENCY_THRESHOLD : spec_float := F64.of_dec 95 2.

Record RateLimiterMetrics := mkMetrics {
  calls_this_hour : Z;
  calls_today : Z;
  backoff_events : Z;
  blocked_events : Z;
  emergency_stops : Z;
  hour_reset_at : string
}.

Record RateLimiter := mkLimiter {
  hourly_limit : Z;
  safety_buffer : Z;
  available_quota : Z;
  metrics : RateLimiterMetrics;
  _hour_start : spec_float
}.

Definition new_limiter (hourly_limit safety_buffer : Z) (now : spec_float) (utc : string) : RateLimiter :=
  mkLimiter hourly_limit safety_buffer (hourly_limit - safety_buffer) (mkMetrics 0 0 0 0 0 utc) now.

Definition with_metrics (l : RateLimiter) (m : RateLimiterMetrics) : RateLimiter :=
  mkLimiter (hourly_limit l) (safety_buffer l) (available_quota l) m (_hour_start l).

(** The readings of one call: the clock before and after an hour's end, and the
    wall clock. *)
Record reading := mkReading { now1 : spec_float; now2 : spec_float; utc : string }.

Definition hour_over (r : reading) (l : RateLimiter) : bool :=
  F64.leb (F64.of_Z 3600) (F64.sub (now1 r) (_hour_start l)).

Definition _maybe_reset_hour (r : reading) (l : RateLimiter) : RateLimiter :=
  if hour_over r l then
    let m := metrics l in
    mkLimiter (hourly_limit l) (safety_buffer l) (available_quota l)
      (mkMetrics 0 (calls_today m) (backoff_events m) (blocked_events m) (emergency_stops m) (utc r))
      (now2 r)
  else l.

Definition _usage_fraction (l : RateLimiter) : res spec_float :=
  if available_quota l =? 0 then Ok (F64.of_Z 1)
  else py_truediv (calls_this_hour (metrics l)) (available_quota l).

Definition _backoff_delay (usage : spec_float) : spec_float :=
  let t := F64.div (F64.sub usage BACKOFF_THRESHOLD) (F64.sub EMERGENCY_THRESHOLD BACKOFF_THRESHOLD) in
  F64.add (F64.of_dec 1 2) (F64.mul t (F64.of_dec 49 2)).

(** The part of [acquire] under the lock: the usage of a granted call, or
    nothing for a blocked one. *)
Definition acquire_locked (cost : Z) (r : reading) (l : RateLimiter) :
    res (RateLimiter * option spec_float) :=
  let l := _maybe_reset_hour r l in
  usage ← _usage_fraction l;
  let m := metrics l in
  if F64.leb EMERGENCY_THRESHOLD usage then
    Ok (with_metrics l (mkMetrics (calls_this_hour m) (calls_today m) (backoff_events m)
          (blocked_events m + 1) (emergency_stops m + 1) (hour_reset_at m)), None)
  else if available_quota l <? calls_this_hour m + cost then
    Ok (with_metrics l (mkMetrics (calls_this_hour m) (calls_today m) (backoff_events m)
          (blocked_events m + 1) (emergency_stops m) (hour_reset_at m)), None)
  else
    Ok (with_metrics l (mkMetrics (calls_this_hour m + cost) (calls_today m + cost) (backoff_events m)
          (blocked_events m) (emergency_stops m) (hour_reset_at m)), Some usage).

Definition set_backoff (n : Z) (l : RateLimiter) : RateLimiter :=
  let m := metrics l in
  with_metrics l (mkMetrics (calls_this_hour m) (calls_today m) n (blocked_events m) (emergency_stops m)
                    (hour_reset_at m)).

(** [acquire] with no other thread: the answer, the sleep and the limiter. *)
Definition acquire (cost : Z) (r : reading) (l : RateLimiter) :
    res (RateLimiter * bool * option spec_float) :=
  lu ← acquire_locked cost r l;
  match lu : RateLimiter * option spec_float with
  | (l, None) => Ok (l, false, None)
  | (l, Some usage) =>
    if F64.leb BACKOFF_THRESHOLD usage then
      Ok (set_backoff (backoff_events (metrics l) + 1) l, true, Some (_backoff_delay usage))
    else Ok (l, true, None)
  end.

Definition remaining (r : reading) (l : RateLimiter) : Z * RateLimiter :=
  let l := _maybe_reset_hour r l in
  (Z.max 0 (available_quota l - calls_this_hour (metrics l)), l).

Definition usage_fraction (r : reading) (l : RateLimiter) : res (spec_float * RateLimiter) :=
  let l := _maybe_reset_hour r l in u ← _usage_fraction l; Ok (u, l).

Definition seconds_until_reset (now : spec_float) (l : RateLimiter) : spec_float :=
  F64.max F64.zero (F64.sub (F64.of_Z 3600) (F64.sub now (_hour_start l))).

Definition get_metrics (r : reading) (now : spec_float) (l : RateLimiter) : res (dict * RateLimiter) :=
  let l := _maybe_reset_hour r l in
  u ← _usage_fraction l;
  let m := metrics l in
  Ok ([("calls_this_hour", PInt (calls_this_hour m)); ("calls_today", PInt (calls_today m));
       ("remaining_this_hour", PInt (Z.max 0 (available_quota l - calls_this_hour m)));
       ("usage_pct", PFloat (py_round 1 (F64.mul u (F64.of_Z 100))));
       ("backoff_events", PInt (backoff_events m)); ("blocked_events", PInt (blocked_events m));
       ("emergency_stops", PInt (emergency_stops m));
       ("seconds_until_reset", PFloat (py_round 1 (seconds_until_reset now l)));
       ("hour_reset_at", PStr (hour_reset_at m))]%string, l).

(** ** Threads *)

(** Where a thread is: between calls, about to read the counter, or about to
    write it back. *)
Inductive thread := Idle | ToRead | ToWrite (n : Z).

(** The limiter, its threads, and the costs granted in the hour window that is
    open. *)
Record system := mkSystem { lim : RateLimiter; threads : list thread; granted : list Z }.

Inductive step : system -> system -> Prop :=
| step_grant s i cost r l usage :
    threads s !! i = Some Idle -> 0 <= cost ->
    acquire_locked cost r (lim s) = Ok (l, Some usage) ->
    step s (mkSystem l (<[i := if F64.leb BACKOFF_THRESHOLD usage then ToRead else Idle]> (threads s))
              (cost :: (if hour_over r (lim s) then [] else granted s)))
| step_block s i cost r l :
    threads s !! i = Some Idle -> acquire_locked cost r (lim s) = Ok (l, None) ->
    step s (mkSystem l (threads s) (if hour_over r (lim s) then [] else granted s))
| step_look s r :
    step s (mkSystem (_maybe_reset_hour r (lim s)) (threads s)
              (if hour_over r (lim s) then [] else granted s))
| step_read s i :
    threads s !! i = Some ToRead ->
    step s (mkSystem (lim s) (<[i := ToWrite (backoff_events (metrics (lim s)))]> (threads s)) (granted s))
| step_write s i n :
    threads s !! i = Some (ToWrite n) ->
    step s (mkSystem (set_backoff (n + 1) (lim s)) (<[i := Idle]> (threads s)) (granted s)).

Definition start (limit buffer : Z) (now : spec_float) (utc : string) (n : nat) : system :=
  mkSystem (new_limiter limit buffer now utc) (replicate n Idle) [].

(** ** The quota *)

Definition zsum (l : list Z) : Z := foldr Z.add 0 l.

Definition quota_inv (q : Z) (s : system) : Prop :=
  available_quota (lim s) = q /\ calls_this_hour (metrics (lim s)) = zsum (granted s) /\
  0 <= zsum (granted s) <= q.

Lemma reset_quota r l : available_quota (_maybe_reset_hour r l) = available_quota l.
Proof. unfold _maybe_reset_hour. by destruct (hour_over r l). Qed.

Lemma reset_calls r l :
  calls_this_hour (metrics (_maybe_reset_hour r l)) = if hour_over r l then 0 else calls_this_hour (metrics l).
Proof. unfold _maybe_reset_hour. by destruct (hour_over r l). Qed.

(** What the locked part does to the counter. *)
Lemma acquire_locked_inv cost r l l' u :
  acquire_locked cost r l = Ok (l', u) ->
  available_quota l' = available_quota l /\
  match u with
  | None => calls_this_hour (metrics l') = calls_this_hour (metrics (_maybe_reset_hour r l))
  | Some usage =>
    calls_this_hour (metrics l') = calls_this_hour (metrics (_maybe_reset_hour r l)) + cost /\
    calls_this_hour (metrics l') <= available_quota l /\
    F64.leb EMERGENCY_THRESHOLD usage = false
  end.
Proof.
  unfold acquire_locked. rewrite <- (reset_quota r l). generalize (_maybe_reset_hour r l). clear l. intros l E.
  apply bind_Ok_inv in E as (usage & _ & E).
  destruct (F64.leb EMERGENCY_THRESHOLD usage) eqn:Ee; [by injection E as <- <-|].
  destruct (Z.ltb_spec (available_quota l) (calls_this_hour (metrics l) + cost)); injection E as <- <-; [done|].
  done.
Qed.

Lemma step_quota q s s' : 0 <= q -> step s s' -> quota_inv q s -> quota_inv q s'.
Proof.
  intros Hq Hs (Hav & Hc & Hb).
  assert (Hwin : forall r, calls_this_hour (metrics (_maybe_reset_hour r (lim s)))
      = zsum (if hour_over r (lim s) then [] else granted s) /\
    0 <= zsum (if hour_over r (lim s) then [] else granted s) <= q).
  { intros r. rewrite reset_calls. destruct (hour_over r (lim s)); simpl; lia. }
  destruct Hs as [s i cost r l usage _ Hcost E|s i cost r l _ E|s r|s i _|s i n _]; unfold quota_inv; cbn [lim granted].
  - apply acquire_locked_inv in E as (Ea & Ec & El & _). destruct (Hwin r) as [Hw Hw']. simpl. lia.
  - apply acquire_locked_inv in E as (Ea & Ec). destruct (Hwin r) as [Hw Hw']. lia.
  - rewrite reset_quota. destruct (Hwin r). split_and!; done || lia.
  - done.
  - done.
Qed.

(** ** Properties *)

(** C29: the quota holds under every interleaving.  However many threads call the
    limiter, in any order, with any clock and any costs, the calls granted since
    the last reset of the hour never add up to more than the quota, and the
    counter is exactly their sum. *)
Theorem quota_never_exceeded limit buffer now utc n s :
  0 <= limit - buffer -> rtc step (start limit buffer now utc n) s ->
  zsum (granted s) <= limit - buffer /\ calls_this_hour (metrics (lim s)) = zsum (granted s).
Proof.
  intros Hq Hr. assert (Hinv : quota_inv (limit - buffer) s); [|destruct Hinv as (_ & ? & ?); lia].
  assert (H0 : quota_inv (limit - buffer) (start limit buffer now utc n)) by (unfold quota_inv; simpl; lia).
  revert H0. induction Hr as [s|s1 s2 s3 Hs _ IH]; intros H0; [done|]. apply IH. by eapply step_quota.
Qed.

Definition hour0 : reading := mkReading F64.zero F64.zero "".

(** The back-off counter is not thread-safe.  Two threads that are both
    delayed can leave the counter at one: the increment is outside the lock. *)
Theorem backoff_update_lost :
  exists s, rtc step (mkSystem (with_metrics (new_limiter HOURLY_LIMIT SAFETY_BUFFER F64.zero "")
                                  (mkMetrics 3600 3600 0 0 0 "")) [Idle; Idle] [3600]) s /\
    threads s = [Idle; Idle] /\ granted s = [1; 1; 3600] /\ backoff_events (metrics (lim s)) = 1.
Proof.
  eexists. split; [|split; [|split; [|]]].
  - eapply rtc_l; [eapply (step_grant _ 0 1 hour0); [reflexivity|lia|vm_compute; reflexivity]|].
    eapply rtc_l; [eapply (step_grant _ 1 1 hour0); [reflexivity|lia|vm_compute; reflexivity]|].
    eapply rtc_l; [eapply (step_read _ 0); vm_compute; reflexivity|].
    eapply rtc_l; [eapply (step_read _ 1); vm_compute; reflexivity|].
    eapply rtc_l; [eapply (step_write _ 0); vm_compute; reflexivity|].
    eapply rtc_l; [eapply (step_write _ 1); vm_compute; reflexivity|]. apply rtc_refl.
  - vm_compute. reflexivity.
  - vm_compute. reflexivity.
  - vm_compute. reflexivity.
Qed.

(** ** Witnesses *)

Definition granted_once : system :=
  match acquire_locked 3 hour0 (new_limiter 10 2 F64.zero "") with
  | Ok (l, _) => mkSystem l [Idle] [3]
  | Raise _ => start 10 2 F64.zero "" 1
  end.

Lemma quota_never_exceeded_witness :
  zsum (granted granted_once) <= 10 - 2 /\
  calls_this_hour (metrics (lim granted_once)) = zsum (granted granted_once).
Proof.
  apply (quota_never_exceeded 10 2 F64.zero "" 1 granted_once); [lia|].
  eapply rtc_l; [|apply rtc_refl].
  apply (step_grant (start 10 2 F64.zero "" 1) 0 3 hour0 (lim granted_once) F64.zero);
    [reflexivity|lia|vm_compute; reflexivity].
Defined.
