(* ===== verification/DurableQueue.v ===== *)
(** * The durable queue

    Models [automation/durable_queue.py].  The directory is the map from file names
    to entries of its visible files and the same map of the claimed ones; a
    rename and an unlink are atomic.  Producers and consumers are separate
    processes, so the consumer's loop is a step relation at the grain of those
    operations, with a crash possible after a claim; [get_nowait] is the run of
    one consumer with nobody in between.

    The temporary file of a [put] is in neither map: its name begins with
    ".tmp-", which no operation of the queue looks at and no id begins with, so a
    [put] is the rename that publishes its item, and a producer that crashes
    before it leaves the queue as it was.  Reading, unlinking and returning a
    claimed item are one step of its consumer, since no one else touches it.

    The clock reading and the random suffix of an id are arguments of [put]. *)

From Stdlib Require Import Ascii.
From S2P Require Import Prelude PyVal PyText.
Local Open Scope string_scope.

(** ** Item ids *)

Definition item_id (monotonic_ns : Z) (uuid_hex : string) : string :=
  zero_padded 20 monotonic_ns +:+ "-" +:+ uuid_hex.

Definition file_name (item_id : string) : string := item_id +:+ ".json".

Arguments zero_padded : simpl never.
Arguments item_id : simpl never.
Arguments file_name : simpl never.

(** ** The queue *)

Record DurableQueue := mkQueue {
  visible : gmap string pyval;
  claimed : gmap string pyval
}.

Definition put (monotonic_ns : Z) (uuid_hex : string) (entry : pyval) (q : DurableQueue) :
    string * DurableQueue :=
  let id := item_id monotonic_ns uuid_hex in
  (id, mkQueue (<[file_name id := entry]> (visible q)) (claimed q)).

Definition keys (m : gmap string pyval) : list string := (map_to_list m).*1.

Definition _pending (q : DurableQueue) : list string := py_sort String.ltb (keys (visible q)).

(** The claim: the rename moves the file out of the visible set. *)
Definition claim (p : string) (q : DurableQueue) : option (pyval * DurableQueue) :=
  match visible q !! p with
  | Some e => Some (e, mkQueue (delete p (visible q)) (<[p := e]> (claimed q)))
  | None => None
  end.

Definition unlink (p : string) (q : DurableQueue) : DurableQueue :=
  mkQueue (visible q) (delete p (claimed q)).

Fixpoint get_from (paths : list string) (q : DurableQueue) : res (pyval * DurableQueue) :=
  match paths with
  | [] => Raise QueueEmpty
  | p :: paths =>
    match claim p q with
    | None => get_from paths q
    | Some (e, q) => Ok (e, unlink p q)
    end
  end.

Definition get_nowait (q : DurableQueue) : res (pyval * DurableQueue) := get_from (_pending q) q.

Definition empty (q : DurableQueue) : bool := match _pending q with [] => true | _ => false end.

Definition qsize (q : DurableQueue) : nat := length (_pending q).

Definition peek_all (q : DurableQueue) : list pyval := omap (fun p => visible q !! p) (_pending q).

(** ** Processes *)

Inductive consumer :=
| CIdle
| Scanning (paths : list string)
| Claimed (p : string).

(** The directory, the consumers, and what was put and delivered so far. *)
Record system := mkSystem {
  queue : DurableQueue;
  consumers : list consumer;
  produced : list (string * pyval);
  delivered : list (string * pyval)
}.

Inductive step : system -> system -> Prop :=
| step_put s ns uuid e :
    file_name (item_id ns uuid) ∉ (produced s).*1 ->
    step s (mkSystem (put ns uuid e (queue s)).2 (consumers s) (produced s ++ [(file_name (item_id ns uuid), e)])%list
              (delivered s))
| step_scan s i :
    consumers s !! i = Some CIdle ->
    step s (mkSystem (queue s) (<[i := Scanning (_pending (queue s))]> (consumers s)) (produced s) (delivered s))
| step_claim s i p ps e q :
    consumers s !! i = Some (Scanning (p :: ps)) -> claim p (queue s) = Some (e, q) ->
    step s (mkSystem q (<[i := Claimed p]> (consumers s)) (produced s) (delivered s))
| step_miss s i p ps :
    consumers s !! i = Some (Scanning (p :: ps)) -> claim p (queue s) = None ->
    step s (mkSystem (queue s) (<[i := Scanning ps]> (consumers s)) (produced s) (delivered s))
| step_none s i :
    consumers s !! i = Some (Scanning []) ->
    step s (mkSystem (queue s) (<[i := CIdle]> (consumers s)) (produced s) (delivered s))
| step_return s i p e :
    consumers s !! i = Some (Claimed p) -> claimed (queue s) !! p = Some e ->
    step s (mkSystem (unlink p (queue s)) (<[i := CIdle]> (consumers s)) (produced s)
              (delivered s ++ [(p, e)])%list)
| step_crash s i p :
    consumers s !! i = Some (Claimed p) ->
    step s (mkSystem (queue s) (<[i := CIdle]> (consumers s)) (produced s) (delivered s)).

Definition start (n : nat) : system := mkSystem (mkQueue ∅ ∅) (replicate n CIdle) [] [].

(** Every item put is in exactly one place, with its entry. *)
Definition everything (s : system) : list (string * pyval) :=
  (map_to_list (visible (queue s)) ++ map_to_list (claimed (queue s)) ++ delivered s)%list.

Definition queue_inv (s : system) : Prop :=
  everything s ≡ₚ produced s /\ NoDup (produced s).*1.

Lemma everything_NoDup s : queue_inv s -> NoDup (everything s).*1.
Proof. intros [Hp Hnd]. by rewrite Hp. Qed.

Lemma elem_everything s p e :
  visible (queue s) !! p = Some e \/ claimed (queue s) !! p = Some e \/ (p, e) ∈ delivered s ->
  (p, e) ∈ everything s.
Proof. unfold everything. rewrite !elem_of_app, !elem_of_map_to_list. tauto. Qed.

Lemma fresh_places s p :
  queue_inv s -> p ∉ (produced s).*1 -> visible (queue s) !! p = None.
Proof.
  intros [Hp _] Hn. destruct (visible (queue s) !! p) as [e|] eqn:E; [|done]. destruct Hn.
  rewrite <- Hp. apply list_elem_of_fmap. exists (p, e). split; [done|]. apply elem_everything. auto.
Qed.

(** A visible item has not been claimed. *)
Lemma visible_not_claimed s p e :
  queue_inv s -> visible (queue s) !! p = Some e -> claimed (queue s) !! p = None.
Proof.
  intros Hi Hv. destruct (claimed (queue s) !! p) as [e'|] eqn:E; [|done]. exfalso.
  pose proof (everything_NoDup s Hi) as Hnd. unfold everything in Hnd. rewrite fmap_app in Hnd.
  apply NoDup_app in Hnd as (_ & Hd & _). apply (Hd p).
  - apply list_elem_of_fmap. exists (p, e). split; [done|]. by apply elem_of_map_to_list.
  - rewrite fmap_app, elem_of_app. left. apply list_elem_of_fmap. exists (p, e').
    split; [done|]. by apply elem_of_map_to_list.
Qed.

Lemma step_inv s s' : step s s' -> queue_inv s -> queue_inv s'.
Proof.
  intros Hs Hi. pose proof Hi as [Hp Hnd]. unfold queue_inv, everything in *.
  destruct Hs as [s ns uuid e Hf|s i _|s i p ps e q _ Hc|s i p ps _ _|s i _|s i p e _ Hc|s i p _];
    cbn [queue produced delivered put visible claimed snd]; try done.
  - split.
    + rewrite map_to_list_insert by (by apply fresh_places). rewrite <- Hp.
      apply Permutation_cons_append.
    + rewrite fmap_app. apply NoDup_app. split_and!; [done| |apply NoDup_singleton].
      intros x Hx Hin. apply list_elem_of_singleton in Hin as ->. done.
  - split; [|done]. unfold claim in Hc. destruct (visible (queue s) !! p) as [e'|] eqn:Ev; [|done].
    injection Hc as <- <-. cbn [visible claimed].
    rewrite map_to_list_insert by (by eapply visible_not_claimed).
    rewrite <- Hp, <- (map_to_list_delete (visible (queue s)) p e') by done. cbn [app].
    by rewrite <- Permutation_middle.
  - split; [|done]. rewrite <- Hp, <- (map_to_list_delete (claimed (queue s)) p e) by done. cbn [unlink visible claimed].
    apply Permutation_app_head. rewrite app_assoc. symmetry. apply Permutation_cons_append.
Qed.

(** ** Ids sort by the clock *)

Lemma zero_padded_S w n :
  zero_padded (S w) n = zero_padded w (n / 10)%Z +:+ String (digit_char (n mod 10)%Z) "".
Proof. reflexivity. Qed.

Lemma zero_padded_length w n : String.length (zero_padded w n) = w.
Proof.
  revert n; induction w as [|w IH]; intros n; [done|]. rewrite zero_padded_S.
  assert (Hl : forall a b, String.length (a +:+ b) = (String.length a + String.length b)%nat).
  { clear. induction a as [|c a IH]; intros b; [done|]. rewrite string_app_cons. simpl. by rewrite IH. }
  rewrite Hl, IH. simpl. lia.
Qed.

Lemma digit_compare a b :
  (0 <= a < 10)%Z -> (0 <= b < 10)%Z -> Ascii.compare (digit_char a) (digit_char b) = (a ?= b)%Z.
Proof.
  intros Ha Hb.
  assert (a = 0 \/ a = 1 \/ a = 2 \/ a = 3 \/ a = 4 \/ a = 5 \/ a = 6 \/ a = 7 \/ a = 8 \/ a = 9)%Z as Ca by lia.
  assert (b = 0 \/ b = 1 \/ b = 2 \/ b = 3 \/ b = 4 \/ b = 5 \/ b = 6 \/ b = 7 \/ b = 8 \/ b = 9)%Z as Cb by lia.
  clear Ha Hb. repeat destruct Ca as [->|Ca]; try subst a;
    repeat destruct Cb as [->|Cb]; try subst b; reflexivity.
Qed.

Lemma zero_padded_lt w n m :
  (0 <= n < m)%Z -> (m < 10 ^ Z.of_nat w)%Z -> String.compare (zero_padded w n) (zero_padded w m) = Lt.
Proof.
  revert n m; induction w as [|w IH]; intros n m Hn Hm; [simpl in Hm; lia|]. rewrite !zero_padded_S.
  rewrite compare_app by by rewrite !zero_padded_length.
  replace (Z.of_nat (S w)) with (1 + Z.of_nat w)%Z in Hm by lia. rewrite Z.pow_add_r in Hm by lia.
  pose proof (Z.div_mod n 10 ltac:(lia)). pose proof (Z.div_mod m 10 ltac:(lia)).
  pose proof (Z.mod_pos_bound n 10 ltac:(lia)). pose proof (Z.mod_pos_bound m 10 ltac:(lia)).
  destruct (Z.eq_dec (n / 10) (m / 10)) as [E|Hne].
  - rewrite E, string_compare_refl. cbn [String.compare]. rewrite digit_compare by lia.
    destruct (Z.compare_spec (n mod 10) (m mod 10)); [lia|done|lia].
  - by rewrite IH; [|lia|lia].
Qed.

Lemma item_id_lt n m u v :
  (0 <= n < m)%Z -> (m < 10 ^ 20)%Z ->
  String.compare (file_name (item_id n u)) (file_name (item_id m v)) = Lt.
Proof.
  intros Hn Hm. unfold file_name, item_id. rewrite !string_app_assoc, compare_app by by rewrite !zero_padded_length.
  by rewrite (zero_padded_lt 20 n m).
Qed.

(** ** First in, first out *)

(** The queue whose visible files are the given ones. *)
Definition queue_of (l : list (string * pyval)) : DurableQueue := mkQueue (list_to_map l) ∅.

Definition increasing (l : list string) : Prop := StronglySorted (fun a b => String.compare a b = Lt) l.

Lemma increasing_NoDup l : increasing l -> NoDup l.
Proof.
  induction 1 as [|x l _ IH Hx]; constructor; [|done]. intros Hin. rewrite Forall_forall in Hx.
  specialize (Hx x Hin). by rewrite string_compare_refl in Hx.
Qed.

Lemma pending_queue_of l : increasing l.*1 -> _pending (queue_of l) = l.*1.
Proof.
  intros Hl. apply sorted_names_unique; [apply names_sorted| |].
  - clear -Hl. induction Hl as [|x l' _ IH Hx]; constructor; [done|].
    eapply Forall_impl; [exact Hx|]. intros. apply not_after_spec. by right.
  - unfold _pending, keys. rewrite py_sort_perm. simpl.
    by rewrite map_to_list_to_map by (by apply increasing_NoDup).
Qed.

Lemma get_queue_of id e l :
  increasing ((id, e) :: l).*1 -> get_nowait (queue_of ((id, e) :: l)) = Ok (e, queue_of l).
Proof.
  intros Hl. unfold get_nowait. rewrite (pending_queue_of _ Hl). cbn [fmap list_fmap fst get_from claim queue_of visible].
  apply increasing_NoDup in Hl. rewrite fmap_cons, NoDup_cons in Hl. destruct Hl as [Hid _].
  unfold claim. cbn [visible queue_of list_to_map foldr fst snd]. simpl. rewrite lookup_insert_eq. unfold unlink.
  cbn [visible claimed]. unfold queue_of. do 3 f_equal.
  - apply delete_insert_id. by apply not_elem_of_list_to_map_1.
  - by apply delete_insert_id.
Qed.

(** [n] calls of [get_nowait]. *)
Fixpoint drain (n : nat) (q : DurableQueue) : res (list pyval * DurableQueue) :=
  match n with
  | O => Ok ([], q)
  | S n => eq ← get_nowait q; let (e, q) := (eq : pyval * DurableQueue) in
           r ← drain n q; let (es, q) := (r : list pyval * DurableQueue) in Ok (e :: es, q)
  end.

(** The calls of [put] that a sequence of items stands for. *)
Record item := mkItem { ns : Z; uuid : string; entry : pyval }.

Definition put_all (items : list item) (q : DurableQueue) : DurableQueue :=
  foldl (fun q it => (put (ns it) (uuid it) (entry it) q).2) q items.

Definition stored (it : item) : string * pyval := (file_name (item_id (ns it) (uuid it)), entry it).

(** Clock readings strictly increase and fit the twenty digits of an id. *)
Definition clock_ordered (items : list item) : Prop :=
  StronglySorted (fun a b => (ns a < ns b)%Z) items /\ Forall (fun a => (0 <= ns a < 10 ^ 20)%Z) items.

Lemma clock_ordered_increasing items : clock_ordered items -> increasing (map stored items).*1.
Proof.
  intros [Hs Hb]. induction Hs as [|a l _ IH Ha]; [constructor|].
  inversion Hb as [|? ? Hab Hlb]; subst. cbn [map]. rewrite fmap_cons. constructor; [by apply IH|].
  rewrite <- list_fmap_compose. apply Forall_fmap. rewrite Forall_forall in Ha, Hlb |- *.
  intros b Hin. specialize (Ha b Hin). specialize (Hlb b Hin). cbn [compose stored fst]. apply item_id_lt; lia.
Qed.

Lemma put_all_visible items q :
  visible (put_all items q) = list_to_map (rev (map stored items)) ∪ visible q /\
  claimed (put_all items q) = claimed q.
Proof.
  revert q; induction items as [|it items IH]; intros q; cbn [put_all foldl map rev].
  - split; [|done]. symmetry. apply map_empty_union.
  - destruct (IH (put (ns it) (uuid it) (entry it) q).2) as [Hv Hc]. unfold put_all in *.
    rewrite Hv, Hc. split; [|done]. cbn [put visible snd].
    rewrite list_to_map_app, <- map_union_assoc. f_equal. simpl.
    by rewrite insert_union_singleton_l.
Qed.

Lemma put_all_queue_of items :
  clock_ordered items -> put_all items (queue_of []) = queue_of (map stored items).
Proof.
  intros Ho. destruct (put_all_visible items (queue_of [])) as [Hv Hc].
  destruct (put_all items (queue_of [])) as [v c]. unfold queue_of in *. simpl in Hv, Hc. subst.
  f_equal. rewrite map_union_empty. apply list_to_map_proper; [|symmetry; apply Permutation_rev].
  rewrite <- Permutation_rev. by apply increasing_NoDup, clock_ordered_increasing.
Qed.

Lemma drain_queue_of (l : list (string * pyval)) :
  increasing l.*1 -> drain (length l) (queue_of l) = Ok (l.*2, queue_of []).
Proof.
  induction l as [|[id e] l IH]; intros Hl; [done|]. cbn [length drain].
  rewrite (get_queue_of id e l Hl). cbn [mbind res_bind]. rewrite IH; [done|].
  rewrite fmap_cons in Hl. by inversion Hl.
Qed.

Lemma peek_stored (l : list (string * pyval)) :
  NoDup l.*1 -> omap (fun p => visible (queue_of l) !! p) l.*1 = l.*2.
Proof.
  unfold queue_of. cbn [visible]. intros Hnd.
  assert (Hg : forall l', l' ⊆ l -> omap (fun p => (list_to_map l : gmap string pyval) !! p) l'.*1 = l'.*2).
  { induction l' as [|[p e] l' IH]; intros Hsub; [done|]. rewrite !fmap_cons. cbn [fst snd omap list_omap].
    rewrite (elem_of_list_to_map_1 l p e Hnd) by (apply Hsub; left).
    f_equal. apply IH. intros x Hx. apply Hsub. by right. }
  by apply Hg.
Qed.

Lemma reachable_inv n s : rtc step (start n) s -> queue_inv s.
Proof.
  revert s. apply rtc_ind_r; [|by intros; eapply step_inv].
  split; [done|constructor].
Qed.

(** ** Properties *)

(** C27: no item is lost to a race and none is delivered twice.  Whatever the
    interleaving of producers and consumers, with consumers dying after a
    claim, every item put is in exactly one place with its entry: still
    visible, held by a claim, or delivered; and no item id is delivered twice. *)
Theorem no_double_delivery n s :
  rtc step (start n) s ->
  everything s ≡ₚ produced s /\ NoDup (delivered s).*1 /\ delivered s ⊆ produced s.
Proof.
  intros Hr. pose proof (reachable_inv n s Hr) as Hi. split; [apply Hi|]. split.
  - pose proof (everything_NoDup s Hi) as Hnd. unfold everything in Hnd. rewrite !fmap_app in Hnd.
    apply NoDup_app in Hnd as (_ & _ & Hnd). by apply NoDup_app in Hnd as (_ & _ & Hnd).
  - intros [p e] Hin. destruct Hi as [Hp _]. rewrite <- Hp. apply elem_everything. auto.
Qed.

(** The queue is first in, first out.  Entries put with increasing clock
    readings are drained in the order they were put, whatever the random parts
    of their ids, and leave the queue empty. *)
Theorem put_get_fifo items :
  clock_ordered items ->
  drain (length items) (put_all items (queue_of [])) = Ok (map entry items, queue_of []) /\
  peek_all (put_all items (queue_of [])) = map entry items /\
  qsize (put_all items (queue_of [])) = length items /\
  get_nowait (queue_of []) = Raise QueueEmpty.
Proof.
  intros Ho. pose proof (clock_ordered_increasing items Ho) as Hl. rewrite put_all_queue_of by done.
  split_and!; [| | |done].
  - rewrite <- (length_map stored). rewrite drain_queue_of by done. do 2 f_equal.
    by rewrite <- list_fmap_compose.
  - unfold peek_all. rewrite pending_queue_of by done.
    rewrite peek_stored by (by apply increasing_NoDup). by rewrite <- list_fmap_compose.
  - unfold qsize. rewrite pending_queue_of by done. by rewrite length_fmap, length_map.
Qed.

(** ** Witnesses *)

Definition demo_items : list item :=
  [mkItem 5 "ff" (PStr "first"); mkItem 40 "00" (PStr "second"); mkItem 1234567 "a" PNone].

Lemma put_get_fifo_witness :
  drain 3 (put_all demo_items (queue_of [])) = Ok ([PStr "first"; PStr "second"; PNone], queue_of []).
Proof.
  apply (put_get_fifo demo_items). split; repeat constructor; simpl; lia.
Defined.

Definition demo_file : string := file_name (item_id 7 "b").

(** Two consumers list the same file; one claims and delivers it, the other
    loses the race. *)
Definition raced : system :=
  mkSystem (mkQueue ∅ ∅) [CIdle; Scanning []] [(demo_file, PNone)] [(demo_file, PNone)].

Lemma no_double_delivery_witness :
  everything raced ≡ₚ produced raced /\ NoDup (delivered raced).*1 /\ delivered raced ⊆ produced raced.
Proof.
  apply (no_double_delivery 2 raced).
  eapply rtc_l; [apply (step_put (start 2) 7 "b" PNone); vm_compute; intros H; inversion H|].
  eapply rtc_l; [apply (step_scan _ 0); reflexivity|].
  eapply rtc_l; [apply (step_scan _ 1); reflexivity|].
  eapply rtc_l; [eapply (step_claim _ 0); [vm_compute; reflexivity|vm_compute; reflexivity]|].
  eapply rtc_l; [eapply (step_miss _ 1); [vm_compute; reflexivity|vm_compute; reflexivity]|].
  eapply rtc_l; [eapply (step_return _ 0); [vm_compute; reflexivity|vm_compute; reflexivity]|].
  match goal with |- rtc step ?s raced => assert (E : s = raced) by (vm_compute; reflexivity); rewrite E end.
  apply rtc_refl.
Defined.
