(* ===== verification/MirrorDrift.v ===== *)
(** * The mirror drift engine

    Models [engines/mirror_drift_engine.py]: the probe of the remote heads, the
    payload derived from the registry and the three commands.

    A file is the text it holds, or is absent; the library that reads and writes
    YAML is a pair of arguments, as is the answer of [git ls-remote], which does
    not change while a probe runs.  The registry is taken to have no anchors, so
    no two of its entries share a mapping, and its dates are quoted, as the
    engine writes them.  What is printed is left out. *)

From Stdlib Require Import Ascii SpecFloat.
From S2P Require Import Prelude PyVal PyText Json JsonParse FloatOrder.
Local Open Scope string_scope.

Notation files := (gmap string string).

Definition REGISTRY_PATH : string := "registry/external-mirrors.yaml".
Definition STATUS_PATH : string := "status/mirror-drift.yaml".

Definition lines (l : list string) : string := str_join (String "010" "") l.

Definition REGISTRY_HEADER : string := lines
  ["# registry/external-mirrors.yaml";
   "# Cross-organization mirror and external-canonical metadata.";
   "# Purpose: allow sociosphere governance + tooling to reason about repos that live";
   "# outside the SocioProphet org (e.g., SociOS-Linux and SourceOS-Linux).";
   "#";
   "# NOTE: this file is updated by `engines/mirror_drift_engine.py probe`.";
   "#       Avoid manual edits unless you also update status/mirror-drift.yaml.";
   ""; ""].

Definition STATUS_HEADER : string := lines
  ["# status/mirror-drift.yaml";
   "# Machine-readable snapshot of mirror drift state.";
   "# Source of truth: registry/external-mirrors.yaml";
   ""; ""].

Definition exists_file (fs : files) (p : string) : bool := match fs !! p with Some _ => true | None => false end.
Definition read_text (fs : files) (p : string) : res string := of_option (FileNotFound p) (fs !! p).

(** [d.get(k)]. *)
Definition field (k : string) (d : dict) : pyval := default PNone (assoc k d).

(** ** Probing *)

(** [s.split()[0]] of a text that does not begin with a space. *)
Fixpoint first_word (s : string) : string :=
  match s with
  | EmptyString => ""
  | String c s => if is_space c then "" else String c (first_word s)
  end.

Section git.
(** [git ls-remote --exit-code url ref]: the exit code and the output. *)
Variable git : string -> string -> Z * string.

Definition ref_candidates (ref : string) : list string :=
  if String.prefix "refs/" ref then [ref] else ["refs/heads/" +:+ ref; ref].

Fixpoint first_head (url : string) (candidates : list string) : option string :=
  match candidates with
  | [] => None
  | r :: candidates =>
    let (code, stdout) := git url r in
    if negb (Z.eqb code 0) then first_head url candidates
    else
      match py_strip stdout with
      | EmptyString => first_head url candidates
      | out => Some (first_word out)
      end
  end.

Definition _git_ls_remote (url ref : string) : option string := first_head url (ref_candidates ref).
End git.

Section engine.
Context `{FloatRepr}.

Definition text_of (v : pyval) : string := py_strip (py_str (py_or v (PStr ""))).

Definition _canonical_generated_at (registry : dict) : string :=
  let updated_at := text_of (field "updated_at" registry) in
  if String.eqb updated_at "" then "1970-01-01T00:00:00Z"
  else if substring_of "T" updated_at then updated_at
  else updated_at +:+ "T00:00:00Z".

Definition _strip_nones (d : dict) : dict :=
  List.filter (fun kv => match kv.2 with PNone => false | _ => true end) d.

Section probe.
Variable git : string -> string -> Z * string.
Variable today : string.

Definition or_main (ref : string) : string := if String.eqb ref "" then "main" else ref.

(** The head of the upstream: the block, whether it changed, and the warning. *)
Definition probe_upstream (who url ref : string) (upstream : dict) : dict * bool * list string :=
  match _git_ls_remote git url ref with
  | None => (upstream, false, [who +:+ ": unable to resolve upstream head (" +:+ url +:+ " " +:+ ref +:+ ")"])
  | Some new_up =>
    if eq_str (field "head_sha" upstream) new_up then (upstream, false, [])
    else (assoc_set "checked_at" (PStr today) (assoc_set "head_sha" (PStr new_up) upstream), true, [])
  end.

Definition probe_head (who url ref : string) (m : dict) : dict * bool * list string :=
  match _git_ls_remote git url ref with
  | None => (m, false, [who +:+ ": unable to resolve mirror head (" +:+ url +:+ " " +:+ ref +:+ ")"])
  | Some new_mirror =>
    if eq_str (field "mirror_head_sha" m) new_mirror then (m, false, [])
    else (assoc_set "mirror_head_sha" (PStr new_mirror) m, true, [])
  end.

Definition probe_mirror (v : pyval) : pyval * bool * list string :=
  match v with
  | PDict m =>
    let who := py_str (default (PStr "<unknown>") (assoc "name" m)) in
    match field "upstream" m with
    | PDict upstream =>
      let upstream_url := text_of (field "url" upstream) in
      let upstream_ref := or_main (text_of (field "ref" upstream)) in
      let mirror_url := text_of (field "url" m) in
      if String.eqb upstream_url "" then (v, false, [who +:+ ": upstream.url missing"])
      else if String.eqb mirror_url "" then (v, false, [who +:+ ": mirror url missing"])
      else
        let '(upstream, up_changed, up_warnings) := probe_upstream who upstream_url upstream_ref upstream in
        let '(m, changed, warnings) :=
          probe_head who mirror_url upstream_ref (if up_changed then assoc_set "upstream" (PDict upstream) m else m) in
        (PDict m, up_changed || changed, (up_warnings ++ warnings)%list)
    | _ => (v, false, [who +:+ ": missing upstream block"])
    end
  | _ => (v, false, [])
  end.

Fixpoint probe_mirrors (mirrors : list pyval) : list pyval * bool * list string :=
  match mirrors with
  | [] => ([], false, [])
  | m :: mirrors =>
    let '(m, changed, warnings) := probe_mirror m in
    let '(ms, changed', warnings') := probe_mirrors mirrors in
    (m :: ms, changed || changed', (warnings ++ warnings')%list)
  end.

(** [registry.get("mirrors") or []], which has to be a list. *)
Definition mirrors_of (registry : dict) : res (list pyval) :=
  match py_or (field "mirrors" registry) (PList []) with
  | PList l => Ok l
  | _ => Raise (ValueError "registry/external-mirrors.yaml: mirrors must be a list")
  end.

(** The entries are changed where they are, so the registry changes with them. *)
Definition _probe_registry (registry : dict) : res (dict * bool * list string) :=
  mirrors ← mirrors_of registry;
  let '(ms, changed, warnings) := probe_mirrors mirrors in
  if changed then
    Ok (assoc_set "updated_at" (PStr today) (assoc_set "mirrors" (PList ms) registry), true, warnings)
  else Ok (registry, false, warnings).
End probe.

(** ** The payload *)

(** [v or {}], and the empty mapping for anything else that is not one. *)
Definition mapping (v : pyval) : dict := match v with PDict d => d | _ => [] end.

Definition row_of (v : pyval) : option dict :=
  match v with
  | PDict m =>
    let upstream := mapping (field "upstream" m) in
    let drift := mapping (field "drift" m) in
    let row := _strip_nones
      [("name", field "name" m); ("org", field "org" m); ("url", field "url" m);
       ("upstream_url", field "url" upstream); ("upstream_ref", field "ref" upstream);
       ("upstream_head_sha", field "head_sha" upstream); ("checked_at", field "checked_at" upstream);
       ("mirror_head_sha", field "mirror_head_sha" m);
       ("drift_status", py_or (field "status" drift) (PStr "unknown")); ("drift_note", field "note" drift)] in
    if truthy (field "name" row) then Some row else None
  | _ => None
  end.

Definition row_key (row : dict) : string := py_str (field "name" row).
Definition row_ltb (a b : dict) : bool := String.ltb (row_key a) (row_key b).

Definition build_payload (registry : dict) : res dict :=
  mirrors ← mirrors_of registry;
  let rows := py_sort row_ltb (omap row_of mirrors) in
  Ok [("version", PStr (py_str (py_or (field "version" registry) (PStr "1.0.0"))));
      ("generated_at", PStr (_canonical_generated_at registry));
      ("mirrors", PList (map PDict rows));
      ("notes", PList [PStr "Generated by engines/mirror_drift_engine.py from registry/external-mirrors.yaml; do not edit manually."])].

(** ** The commands *)

Section commands.
(** [yaml.safe_load] of the text of a file and [yaml.safe_dump]. *)
Variable yaml_load : string -> res pyval.
Variable yaml_dump : pyval -> res string.

Definition _load_yaml (fs : files) (path : string) : res pyval := text ← read_text fs path; yaml_load text.

Definition _write_yaml (fs : files) (path header : string) (payload : dict) : res files :=
  body ← yaml_dump (PDict payload);
  Ok (<[path := header +:+ body]> fs).

(** The mapping of a command's input, or [None] when the command gives up. *)
Definition load_mapping (fs : files) (path : string) : res (option dict) :=
  v ← _load_yaml fs path;
  match py_or v (PDict []) with PDict d => Ok (Some d) | _ => Ok None end.

Definition cmd_probe (git : string -> string -> Z * string) (today : string) (write : bool) (fs : files) : res (Z * files) :=
  if negb (exists_file fs REGISTRY_PATH) then Ok (2%Z, fs) else
  registry ← load_mapping fs REGISTRY_PATH;
  match registry : option dict with
  | None => Ok (2%Z, fs)
  | Some registry =>
    r ← _probe_registry git today registry;
    let '(updated, changed, _) := (r : dict * bool * list string) in
    if changed && write then fs ← _write_yaml fs REGISTRY_PATH REGISTRY_HEADER updated; Ok (0%Z, fs)
    else Ok (0%Z, fs)
  end.

Definition cmd_generate (fs : files) : res (Z * files) :=
  if negb (exists_file fs REGISTRY_PATH) then Ok (2%Z, fs) else
  registry ← load_mapping fs REGISTRY_PATH;
  match registry : option dict with
  | None => Ok (2%Z, fs)
  | Some registry =>
    payload ← build_payload registry;
    fs ← _write_yaml fs STATUS_PATH STATUS_HEADER payload;
    Ok (0%Z, fs)
  end.

Definition cmd_check (fs : files) : res Z :=
  if negb (exists_file fs REGISTRY_PATH) then Ok 2%Z else
  if negb (exists_file fs STATUS_PATH) then Ok 2%Z else
  registry ← load_mapping fs REGISTRY_PATH;
  match registry : option dict with
  | None => Ok 2%Z
  | Some registry =>
    expected ← build_payload registry;
    current ← load_mapping fs STATUS_PATH;
    match current : option dict with
    | None => Ok 2%Z
    | Some current => Ok (if py_eq (PDict current) (PDict expected) then 0%Z else 2%Z)
    end
  end.
End commands.
End engine.

(** ** Equality of a value with itself *)

(** A value without NaN and without repeated keys: what a parsed file holds. *)
Fixpoint plain (v : pyval) : Prop :=
  match v with
  | PFloat f => is_nan f = false
  | PList l => fold_right (fun x P => plain x /\ P) True l
  | PDict d => NoDup d.*1 /\ fold_right (fun kv P => plain kv.2 /\ P) True d
  | _ => True
  end.

Lemma plain_list l : plain (PList l) <-> Forall plain l.
Proof. simpl. induction l as [|x l IH]; simpl; [done|]. rewrite Forall_cons. by rewrite <- IH. Qed.

Lemma plain_dict d : plain (PDict d) <-> NoDup d.*1 /\ Forall (fun kv => plain kv.2) d.
Proof. simpl. f_equiv. induction d as [|x d IH]; simpl; [done|]. rewrite Forall_cons. by rewrite <- IH. Qed.

Lemma eqb_refl f : is_nan f = false -> F64.eqb f f = true.
Proof.
  unfold F64.eqb, SFeqb, SFcompare. intros Hf. destruct f as [s|[]| |[] m e]; try done;
    rewrite Z.compare_refl; change (Pos.compare_cont Eq m m) with (Pos.compare m m); by rewrite Pos.compare_refl.
Qed.

Lemma py_eq_refl v : plain v -> py_eq v v = true.
Proof.
  induction v as [|b|z|f|s|l IH|d IH] using pyval_rect'; intros Hp; cbn [py_eq as_int].
  - done.
  - apply Z.eqb_refl.
  - apply Z.eqb_refl.
  - by apply eqb_refl.
  - apply String.eqb_refl.
  - apply plain_list in Hp. induction IH as [|x l Hx IHl IH2]; [done|]. inversion_clear Hp. rewrite Hx by done. auto.
  - apply plain_dict in Hp as [Hnd Hp]. rewrite Nat.eqb_refl. simpl.
    assert (Hin : Forall (fun kv => assoc kv.1 d = Some kv.2) d).
    { apply Forall_forall. intros [k w] Hkv. by apply assoc_NoDup. }
    match goal with |- ?go d = true =>
      enough (Hgo : forall d0, Forall (fun kv => assoc kv.1 d = Some kv.2) d0 -> Forall (fun kv => plain kv.2 -> py_eq kv.2 kv.2 = true) d0 ->
        Forall (fun kv => plain kv.2) d0 -> go d0 = true) by (by apply Hgo) end.
    clear. intros d0. induction d0 as [|[k w] d0 IHd]; [done|]. rewrite !Forall_cons. cbn [fst snd].
    intros [Ha Hin] [Hw IH] [Hpw Hp]. rewrite Ha, Hw by done. by apply IHd.
Qed.

Lemma plain_field k d : plain (PDict d) -> plain (field k d).
Proof.
  rewrite plain_dict. intros [_ Hp]. unfold field. destruct (assoc k d) as [v|] eqn:E; [|done].
  apply assoc_elem in E. by apply (proj1 (Forall_forall _ _) Hp) in E.
Qed.

Lemma plain_or v w : plain v -> plain w -> plain (py_or v w).
Proof. unfold py_or. by destruct (truthy v). Qed.

Lemma plain_mapping v : plain v -> plain (PDict (mapping v)).
Proof. destruct v; try (intros _; simpl; split; [constructor|done]); done. Qed.

(** ** The rows *)

Section rows.
Context `{FloatRepr}.

Lemma plain_strip d : NoDup d.*1 -> Forall (fun kv => plain kv.2) d -> plain (PDict (_strip_nones d)).
Proof.
  rewrite plain_dict. unfold _strip_nones. induction d as [|[k w] d IH]; [by split|]. cbn [List.filter].
  rewrite fmap_cons, NoDup_cons, Forall_cons. intros [Hk Hnd] [Hw Hp]. destruct (IH Hnd Hp) as [IHn IHp].
  case_match; [|done]. split; [|by constructor]. rewrite fmap_cons, NoDup_cons. split; [|done].
  intros Hin. apply Hk. revert Hin. cbn [fst]. rewrite !list_elem_of_fmap. intros (y & Hy & Hin). exists y. split; [done|].
  apply list_elem_of_In in Hin. apply filter_In in Hin as [Hin _]. by apply list_elem_of_In.
Qed.

Lemma plain_row v row : plain v -> row_of v = Some row -> plain (PDict row).
Proof.
  destruct v as [| | | | | |m]; try done. intros Hm. cbn [row_of]. cbv zeta.
  case_match; intros E; [|done]. apply (inj Some) in E. rewrite <- E.
  pose proof (plain_mapping _ (plain_field "upstream" m Hm)) as Hu.
  pose proof (plain_mapping _ (plain_field "drift" m Hm)) as Hd. apply plain_strip.
  - cbn [fmap list_fmap fst]. apply (bool_decide_unpack _). vm_compute. reflexivity.
  - repeat constructor; cbn [snd]; try (by apply plain_field). by apply plain_or; [apply plain_field|].
Qed.

Lemma mirrors_of_Ok registry ms : mirrors_of registry = Ok ms -> ms = [] \/ field "mirrors" registry = PList ms.
Proof.
  unfold mirrors_of, py_or. destruct (field "mirrors" registry) as [|[]|[]|[]|[]|[|x l]|[]]; simpl; try done; naive_solver.
Qed.

Lemma plain_payload registry p : plain (PDict registry) -> build_payload registry = Ok p -> plain (PDict p).
Proof.
  intros Hr Hp. apply bind_Ok_inv in Hp as (ms & Hms & [= <-]). apply plain_dict. split.
  - apply (bool_decide_unpack _). vm_compute. reflexivity.
  - repeat constructor; cbn [snd]. apply plain_list, Forall_fmap, Forall_forall. intros row Hrow.
    apply elem_of_py_sort, list_elem_of_omap in Hrow as (m & Hm & Erow). apply (plain_row m); [|done].
    destruct (mirrors_of_Ok _ _ Hms) as [->|Hf]; [by apply elem_of_nil in Hm|].
    pose proof (plain_field "mirrors" _ Hr) as Hl. rewrite Hf, plain_list, Forall_forall in Hl. by apply Hl.
Qed.

(** Sorting by distinct names forgets the order. *)
Lemma rows_sorted l : StronglySorted (not_after row_ltb) (py_sort row_ltb l).
Proof.
  apply py_sort_StronglySorted.
  - intros a b c. unfold not_after, row_ltb. change (not_after String.ltb (row_key a) (row_key b) ->
      not_after String.ltb (row_key b) (row_key c) -> not_after String.ltb (row_key a) (row_key c)).
    rewrite !not_after_spec. intros [E1|H1] [E2|H2]; rewrite ?E1, <- ?E2; auto. right. by eapply string_lt_trans.
  - intros a b. unfold row_ltb, String.ltb. rewrite (String.compare_antisym (row_key a) (row_key b)).
    by destruct (String.compare (row_key b) (row_key a)).
Qed.

Lemma NoDup_key_inj {A B} (f : A -> B) l x y : NoDup (map f l) -> x ∈ l -> y ∈ l -> f x = f y -> x = y.
Proof.
  induction l as [|z l IH]; [by intros _ ?%elem_of_nil|]. cbn [map]. rewrite NoDup_cons, !elem_of_cons.
  intros [Hz Hnd] [->|Hx] [->|Hy] E; auto; destruct Hz; [rewrite E|rewrite <- E]; by apply list_elem_of_fmap_2.
Qed.

Lemma rows_order_free l l' : NoDup (map row_key l) -> l ≡ₚ l' -> py_sort row_ltb l = py_sort row_ltb l'.
Proof.
  intros Hnd Hp. apply (StronglySorted_unique_strong (not_after row_ltb)); [|apply rows_sorted..|].
  - intros x y Hx%elem_of_py_sort Hy%elem_of_py_sort. rewrite <- Hp in Hy.
    change (not_after String.ltb (row_key x) (row_key y) -> not_after String.ltb (row_key y) (row_key x) -> x = y).
    rewrite !not_after_spec. intros H1 H2. apply (NoDup_key_inj row_key l); [done..|].
    destruct H1 as [|H1], H2 as [|H2]; [done..|]. pose proof (string_lt_trans _ _ _ H1 H2) as E. by rewrite string_compare_refl in E.
  - by rewrite !py_sort_perm.
Qed.
End rows.

(** ** Probing settles *)

Lemma field_set_eq k v d : field k (assoc_set k v d) = v.
Proof. unfold field. by rewrite assoc_set_eq. Qed.

Lemma field_set_ne k k' v d : k <> k' -> field k' (assoc_set k v d) = field k' d.
Proof. intros Hk. unfold field. by rewrite assoc_set_ne. Qed.

Lemma eq_str_iff v s : eq_str v s = true <-> v = PStr s.
Proof. destruct v; simpl; try done. rewrite String.eqb_eq. naive_solver. Qed.

Section settle.
Context `{FloatRepr}.
Variable git : string -> string -> Z * string.

#[local] Abbreviation head_of := (_git_ls_remote git).

(** The heads an entry records are those its remotes report. *)
Definition heads_current (v : pyval) : Prop :=
  match v with
  | PDict m =>
    match field "upstream" m with
    | PDict u =>
      let url := text_of (field "url" u) in
      let ref := or_main (text_of (field "ref" u)) in
      let mirror_url := text_of (field "url" m) in
      url <> "" -> mirror_url <> "" ->
      (forall h, head_of url ref = Some h -> field "head_sha" u = PStr h) /\
      (forall h, head_of mirror_url ref = Some h -> field "mirror_head_sha" m = PStr h)
    | _ => True
    end
  | _ => True
  end.

Lemma probe_upstream_spec today who url ref u u' c ws :
  probe_upstream git today who url ref u = (u', c, ws) ->
  (forall h, head_of url ref = Some h -> field "head_sha" u' = PStr h) /\
  (forall t, probe_upstream git t who url ref u' = (u', false, ws)) /\
  field "url" u' = field "url" u /\ field "ref" u' = field "ref" u /\ (c = false -> u' = u).
Proof.
  unfold probe_upstream. destruct (head_of url ref) as [new|]; [|by intros [= <- <- <-]].
  destruct (eq_str (field "head_sha" u) new) eqn:E; intros [= <- <- <-].
  - rewrite E. apply eq_str_iff in E. naive_solver.
  - rewrite !field_set_ne, field_set_eq by done. rewrite !field_set_ne by done.
    rewrite (proj2 (eq_str_iff _ _) eq_refl). split_and!; try done. by intros h [= ->].
Qed.

Lemma probe_head_spec who url ref m m' c ws :
  probe_head git who url ref m = (m', c, ws) ->
  (forall h, head_of url ref = Some h -> field "mirror_head_sha" m' = PStr h) /\
  probe_head git who url ref m' = (m', false, ws) /\
  (forall k, k <> "mirror_head_sha" -> assoc k m' = assoc k m) /\ (c = false -> m' = m).
Proof.
  unfold probe_head. destruct (head_of url ref) as [new|]; [|by intros [= <- <- <-]].
  destruct (eq_str (field "mirror_head_sha" m) new) eqn:E; intros [= <- <- <-].
  - rewrite E. apply eq_str_iff in E. naive_solver.
  - rewrite field_set_eq, (proj2 (eq_str_iff _ _) eq_refl). split_and!; try done; [by intros h [= ->]|].
    intros k Hk. by apply assoc_set_ne.
Qed.

Lemma probe_mirror_spec today v v' c ws :
  probe_mirror git today v = (v', c, ws) ->
  heads_current v' /\ (forall t, probe_mirror git t v' = (v', false, ws)) /\ (c = false -> v' = v).
Proof.
  destruct v as [| | | | | |m]; try (by intros [= <- <- <-]). cbn [probe_mirror]. cbv zeta.
  destruct (field "upstream" m) as [| | | | | |u] eqn:Eu; try (intros [= <- <- <-]; cbn [heads_current probe_mirror]; by rewrite Eu).
  destruct (String.eqb_spec (text_of (field "url" u)) "") as [Hu|Hu].
  { intros [= <- <- <-]. cbn [heads_current probe_mirror]. rewrite Eu, Hu. done. }
  destruct (String.eqb_spec (text_of (field "url" m)) "") as [Hm|Hm].
  { intros [= <- <- <-]. cbn [heads_current probe_mirror]. rewrite Eu. cbv zeta.
    rewrite (proj2 (String.eqb_neq _ _) Hu), Hm. done. }
  destruct (probe_upstream _ _ _ _ _ _) as [[u' uc] uws] eqn:Ep.
  destruct (probe_upstream_spec _ _ _ _ _ _ _ _ Ep) as (Huh & Hui & Huu & Hur & Huc).
  set (m1 := if uc then assoc_set "upstream" (PDict u') m else m).
  assert (Hm1 : field "upstream" m1 = PDict u' /\ forall k, k <> "upstream" -> assoc k m1 = assoc k m).
  { unfold m1. destruct uc; [|by rewrite (Huc eq_refl)]. split; [apply field_set_eq|]. intros k Hk. by apply assoc_set_ne. }
  destruct (probe_head _ _ _ _ _) as [[m' mc] mws] eqn:Eh. intros [= <- <- <-].
  destruct (probe_head_spec _ _ _ _ _ _ _ Eh) as (Hmh & Hmi & Hmk & Hmc). destruct Hm1 as [Hup Hk].
  assert (Eup : field "upstream" m' = PDict u') by (rewrite <- Hup; unfold field; by rewrite Hmk).
  assert (Eurl : field "url" m' = field "url" m) by (unfold field; by rewrite Hmk, Hk).
  assert (Ename : assoc "name" m' = assoc "name" m) by (by rewrite Hmk, Hk).
  cbn [heads_current probe_mirror]. rewrite Eup. cbv zeta. rewrite Eurl, Ename, Huu, Hur. split_and!.
  - intros _ _. auto.
  - intros t. rewrite (proj2 (String.eqb_neq _ _) Hu), (proj2 (String.eqb_neq _ _) Hm), Hui. cbv beta iota. by rewrite Hmi.
  - intros [-> ->]%orb_false_iff. by rewrite (Hmc eq_refl).
Qed.

Lemma probe_mirrors_spec today ms ms' c ws :
  probe_mirrors git today ms = (ms', c, ws) ->
  Forall heads_current ms' /\ (forall t, probe_mirrors git t ms' = (ms', false, ws)) /\ (c = false -> ms' = ms) /\ (ms' = [] -> ms = []).
Proof.
  revert ms' c ws. induction ms as [|m ms IH]; intros ms' c ws; cbn [probe_mirrors]; [by intros [= <- <- <-]|].
  destruct (probe_mirror _ _ _) as [[m' mc] mws] eqn:Em. destruct (probe_mirrors _ _ _) as [[ms1 msc] msws] eqn:Ems.
  intros [= <- <- <-]. destruct (probe_mirror_spec _ _ _ _ _ Em) as (Hh & Hi & Hc).
  destruct (IH _ _ _ eq_refl) as (IHh & IHi & IHc & _). split_and!; [by constructor| | |done].
  - intros t. cbn [probe_mirrors]. by rewrite Hi, IHi.
  - intros [-> ->]%orb_false_iff. by rewrite Hc, IHc.
Qed.
End settle.

(** A probe leaves a registry whose entries record the heads their remotes
    report, changing nothing but the entries and the date; probing it again, on
    any day, finds nothing to change and gives the same warnings. *)
Theorem probe_settles `{FloatRepr} git today registry registry' changed warnings :
  _probe_registry git today registry = Ok (registry', changed, warnings) ->
  (exists ms, mirrors_of registry' = Ok ms /\ Forall (heads_current git) ms) /\
  (forall day, _probe_registry git day registry' = Ok (registry', false, warnings)) /\
  (forall k, k <> "mirrors" -> k <> "updated_at" -> assoc k registry' = assoc k registry) /\
  (changed = false -> registry' = registry) /\ (changed = true -> assoc "updated_at" registry' = Some (PStr today)).
Proof.
  intros Hp. apply bind_Ok_inv in Hp as (ms & Hms & Hp).
  destruct (probe_mirrors git today ms) as [[ms' c] ws] eqn:E. cbn beta iota in Hp.
  destruct (probe_mirrors_spec git _ _ _ _ _ E) as (Hh & Hi & Hc & Hnil).
  assert (Hagain : forall r, mirrors_of r = Ok ms' -> forall day, _probe_registry git day r = Ok (r, false, ws)).
  { intros r Er day. unfold _probe_registry. rewrite Er. cbn [mbind res_bind]. by rewrite Hi. }
  destruct c; injection Hp as <- <- <-.
  - assert (Er : mirrors_of (assoc_set "updated_at" (PStr today) (assoc_set "mirrors" (PList ms') registry)) = Ok ms').
    { unfold mirrors_of. rewrite field_set_ne, field_set_eq by done. by destruct ms'. }
    split_and!; try done; [by exists ms'|by apply Hagain| |].
    + intros k H1 H2. by rewrite !assoc_set_ne by congruence.
    + intros _. apply assoc_set_eq.
  - rewrite (Hc eq_refl) in Hh, Hagain. split_and!; try done; [by exists ms|by apply Hagain].
Qed.

(** The derived payload does not depend on the order in which the registry
    lists mirrors of different names. *)
Theorem payload_order_free `{FloatRepr} registry registry' ms ms' :
  mirrors_of registry = Ok ms -> mirrors_of registry' = Ok ms' -> ms ≡ₚ ms' ->
  field "version" registry = field "version" registry' -> field "updated_at" registry = field "updated_at" registry' ->
  NoDup (map row_key (omap row_of ms)) ->
  build_payload registry = build_payload registry' /\ is_ok (build_payload registry) = true.
Proof.
  intros Hms Hms' Hp Hv Hu Hnd. unfold build_payload, _canonical_generated_at.
  rewrite Hms, Hms', Hv, Hu. cbn [mbind res_bind]. split; [|done]. f_equal.
  rewrite (rows_order_free (omap row_of ms) (omap row_of ms')); [done|done|]. by rewrite Hp.
Qed.

(** ** Generating satisfies the check *)

(** What the YAML library promises of a payload: the text it prints, below a
    header of comments, is read as the same payload. *)
Definition reads_back (yaml_load : string -> res pyval) (yaml_dump : pyval -> res string) (header : string) (p : dict) : Prop :=
  exists body, yaml_dump (PDict p) = Ok body /\ yaml_load (header +:+ body) = Ok (PDict p).

Section generate.
Context `{FloatRepr}.
Variable yaml_load : string -> res pyval.
Variable yaml_dump : pyval -> res string.

Lemma load_mapping_exists fs path d : load_mapping yaml_load fs path = Ok (Some d) -> exists_file fs path = true.
Proof. unfold load_mapping, _load_yaml, read_text, exists_file. by destruct (fs !! path). Qed.

Lemma load_mapping_ext fs fs' path : fs !! path = fs' !! path -> load_mapping yaml_load fs path = load_mapping yaml_load fs' path.
Proof. unfold load_mapping, _load_yaml, read_text. by intros ->. Qed.

Lemma write_spec fs path header p :
  reads_back yaml_load yaml_dump header p ->
  exists body, _write_yaml yaml_dump fs path header p = Ok (<[path := header +:+ body]> fs) /\
    load_mapping yaml_load (<[path := header +:+ body]> fs) path = Ok (Some p).
Proof.
  intros (body & Hd & Hl). exists body. unfold _write_yaml, load_mapping, _load_yaml, read_text. rewrite Hd, lookup_insert_eq.
  cbn [mbind res_bind of_option]. rewrite Hl. cbn [mbind res_bind]. split; [done|]. unfold py_or. by destruct p.
Qed.
End generate.

(** Generating the status from a registry without NaN makes the check
    succeed, and touches no other file. *)
Theorem generate_then_check `{FloatRepr} yaml_load yaml_dump fs registry p :
  load_mapping yaml_load fs REGISTRY_PATH = Ok (Some registry) -> plain (PDict registry) ->
  build_payload registry = Ok p -> reads_back yaml_load yaml_dump STATUS_HEADER p ->
  exists fs', cmd_generate yaml_load yaml_dump fs = Ok (0%Z, fs') /\ cmd_check yaml_load fs' = Ok 0%Z /\
    forall path, path <> STATUS_PATH -> fs' !! path = fs !! path.
Proof.
  intros Hr Hpl Hb Hback. destruct (write_spec yaml_load yaml_dump fs STATUS_PATH STATUS_HEADER p Hback) as (body & Hw & Hl).
  set (fs' := <[STATUS_PATH := STATUS_HEADER +:+ body]> fs) in *. exists fs'.
  assert (Hr' : load_mapping yaml_load fs' REGISTRY_PATH = Ok (Some registry)).
  { rewrite <- Hr. apply load_mapping_ext. by apply lookup_insert_ne. }
  pose proof (load_mapping_exists _ _ _ _ Hr) as He. pose proof (load_mapping_exists _ _ _ _ Hr') as He'.
  pose proof (load_mapping_exists _ _ _ _ Hl) as Hes.
  unfold cmd_generate, cmd_check. rewrite He, He', Hes, Hr, Hr'. cbn [negb mbind res_bind]. rewrite Hb. cbn [mbind res_bind].
  rewrite Hw, Hl. cbn [mbind res_bind]. rewrite py_eq_refl by (by eapply plain_payload). split_and!; [done..|].
  intros path Hp. by apply lookup_insert_ne.
Qed.

(** ** Witnesses *)

#[local] Existing Instance demo_float_repr.

(** A library that satisfies the promise: JSON below lines of comments. *)
Definition demo_yaml_load (text : string) : res pyval :=
  loads (str_join "" (List.filter (fun l => negb (String.prefix "#" l)) (split_char "010" text))).
Definition demo_yaml_dump (v : pyval) : res string := Ok (dumps v).

Definition demo_mirror (name head : string) : pyval :=
  PDict [("name", PStr name); ("url", PStr "https://example.org/mirror");
         ("upstream", PDict [("url", PStr "https://example.org/up"); ("head_sha", PStr head)]);
         ("drift", PDict [("status", PStr "behind")])].

Definition demo_mirrors : list pyval := [demo_mirror "b" "01"; demo_mirror "a" "02"].

Definition demo_registry (ms : list pyval) : dict :=
  [("version", PStr "1.0.0"); ("updated_at", PStr "2026-04-17"); ("mirrors", PList ms)].

Definition demo_files : files := {[REGISTRY_PATH := dumps (PDict (demo_registry demo_mirrors))]}.

(** The branch is found under [refs/heads/] upstream and not at the mirror. *)
Definition demo_git (url ref : string) : Z * string :=
  if String.eqb url "https://example.org/up" && String.eqb ref "refs/heads/main" then (0%Z, "02	refs/heads/main") else (2%Z, "").

Definition demo_probed : list pyval :=
  [PDict [("name", PStr "b"); ("url", PStr "https://example.org/mirror");
          ("upstream", PDict [("url", PStr "https://example.org/up"); ("head_sha", PStr "02"); ("checked_at", PStr "2026-05-01")]);
          ("drift", PDict [("status", PStr "behind")])]; demo_mirror "a" "02"].

Definition demo_warnings : list string :=
  ["b: unable to resolve mirror head (https://example.org/mirror main)"; "a: unable to resolve mirror head (https://example.org/mirror main)"].

Lemma probe_settles_witness :
  _probe_registry demo_git "2026-05-01" (demo_registry demo_mirrors)
    = Ok ([("version", PStr "1.0.0"); ("updated_at", PStr "2026-05-01"); ("mirrors", PList demo_probed)], true, demo_warnings) /\
  forall day, _probe_registry demo_git day [("version", PStr "1.0.0"); ("updated_at", PStr "2026-05-01"); ("mirrors", PList demo_probed)]
    = Ok ([("version", PStr "1.0.0"); ("updated_at", PStr "2026-05-01"); ("mirrors", PList demo_probed)], false, demo_warnings).
Proof.
  split; [vm_compute; reflexivity|]. eapply (probe_settles demo_git "2026-05-01" (demo_registry demo_mirrors)). vm_compute. reflexivity.
Defined.

Lemma payload_order_free_witness :
  build_payload (demo_registry demo_mirrors) = build_payload (demo_registry (rev demo_mirrors)).
Proof.
  apply (payload_order_free (demo_registry demo_mirrors) (demo_registry (rev demo_mirrors)) demo_mirrors (rev demo_mirrors));
    try (vm_compute; reflexivity).
  - apply Permutation_rev.
  - apply (bool_decide_unpack _). vm_compute. reflexivity.
Defined.

Lemma generate_then_check_witness :
  exists fs', cmd_generate demo_yaml_load demo_yaml_dump demo_files = Ok (0%Z, fs') /\ cmd_check demo_yaml_load fs' = Ok 0%Z.
Proof.
  edestruct (generate_then_check demo_yaml_load demo_yaml_dump demo_files (demo_registry demo_mirrors)) as (fs' & H1 & H2 & _).
  - vm_compute. reflexivity.
  - repeat (split; [apply (bool_decide_unpack _); vm_compute; reflexivity || exact I|]). vm_compute.
    repeat split; try (apply (bool_decide_unpack _); vm_compute; reflexivity).
  - vm_compute. reflexivity.
  - eexists. split; [reflexivity|vm_compute; reflexivity].
  - exists fs'. by split.
Defined.
