(* ===== verification/GossipBeacon.v ===== *)
(** * The gossip beacon

    Models [engines/gossip_beacon.py]: the hypergraph of lanes over the directed
    skeleton of edges, loaded from the registry files, the beacon that percolates
    over it for a number of hops, and the search for the number of hops at which
    it closes.

    The registry files are the values their parser makes of them.  Sets are
    unordered; where the code sorts one, so does the model.  Lane ids are texts. *)

From Stdlib Require Import Ascii.
From S2P Require Import Prelude PyVal PyText Json.
Local Open Scope string_scope.

Definition DEFAULT_TTL : Z := 2.
Definition DIRECTIONS : list string := ["self"; "lateral"; "downstream"; "upstream"].

(** A [defaultdict(set)]. *)
Notation sets := (gmap string (gset string)).

Definition members (m : sets) (k : string) : gset string := default ∅ (m !! k).
Definition add_member (k x : string) (m : sets) : sets := <[k := {[x]} ∪ members m k]> m.
Definition add_members (k : string) (xs : gset string) (m : sets) : sets := <[k := xs ∪ members m k]> m.
Definition sorted_set (s : gset string) : list string := py_sort String.ltb (elements s).

Record Hypergraph := mkHyper {
  lanes : sets;
  lanes_of : sets;
  h_out : sets;
  h_into : sets;
  unconnected : sets;
  deferred : sets;
  active_lanes : sets
}.

Definition empty_graph : Hypergraph := mkHyper ∅ ∅ ∅ ∅ ∅ ∅ ∅.

Section gossip.
Context `{FloatRepr}.

(** ** Loading *)

Definition _load_yaml (file : option pyval) : pyval := py_or (default PNone file) (PDict []).

Definition norm_repo (repo : pyval) : option string :=
  if negb (truthy repo) then None
  else match py_lower (replace_char "_" "-" (split_last "/" (py_strip (py_str repo)))) with EmptyString => None | r => Some r end.

(** The directed skeleton: who points to whom, and back. *)
Record skeleton := mkSkeleton { k_out : sets; k_into : sets }.

Definition _add_edge (src dst : pyval) (k : skeleton) : skeleton :=
  match norm_repo src, norm_repo dst with
  | Some s, Some d => if String.eqb s d then k else mkSkeleton (add_member s d (k_out k)) (add_member d s (k_into k))
  | _, _ => k
  end.

Definition get_list (v : pyval) (k : string) : res (list pyval) := x ← py_get v k PNone; py_iter (py_or x (PList [])).
Definition get_dict (v : pyval) (k : string) : res dict := x ← py_get v k PNone; py_items (py_or x (PDict [])).
Definition field (d : dict) (k : string) : pyval := default PNone (assoc k d).

Definition load_edge (k : skeleton) (e : pyval) : skeleton :=
  match e with PDict e => _add_edge (field e "from") (field e "to") k | _ => k end.

Definition load_dependency (k : skeleton) (re : string * pyval) : res skeleton :=
  match re.2 with
  | PDict _ =>
    deps ← get_list re.2 "depends_on";
    Ok (fold_left (fun k dep => _add_edge (PStr re.1) (match dep with PDict d => field d "name" | _ => dep end) k) deps k)
  | _ => Ok k
  end.

(** The lane of an edge or of a registration: nothing when it is falsy. *)
Definition lane_id (v : pyval) : res (option string) :=
  if negb (truthy v) then Ok None
  else match v with PStr s => Ok (Some s) | _ => if hashable v then Raise (OtherError "lane id is not a text") else Raise TypeError end.

(** What the packs of edges add: the skeleton, and the members of the lanes. *)
Record packed := mkPacked { p_skeleton : skeleton; edge_members : sets; active_edge_members : sets }.

Definition ends_of (e : dict) : gset string := list_to_set (omap norm_repo [field e "from"; field e "to"]).

Definition edge_active (e : dict) : bool :=
  let state := py_lower (py_str (default (PStr "active") (assoc "state" e))) in
  String.eqb state "active" || String.eqb state "in_use".

Definition join_lane (lane : option string) (xs : gset string) (m : sets) : sets :=
  match lane with Some l => add_members l xs m | None => m end.

Definition load_pack_edge (p : packed) (e : pyval) : res packed :=
  match e with
  | PDict e =>
    let ends := ends_of e in
    lane ← (if decide (ends = ∅) then Ok None else lane_id (field e "lane"));
    if edge_active e then
      Ok (mkPacked (_add_edge (field e "from") (field e "to") (p_skeleton p))
            (join_lane lane ends (edge_members p)) (join_lane lane ends (active_edge_members p)))
    else Ok (mkPacked (p_skeleton p) (join_lane lane ends (edge_members p)) (active_edge_members p))
  | _ => Ok p
  end.

Definition load_pack (p : packed) (pack : pyval) : res packed := es ← get_list pack "edges"; res_fold load_pack_edge p es.

(** What a registration declares, and what of it is in force. *)
Definition surface_repo (s : string * pyval) : option string :=
  match s.2 with PDict d => norm_repo (field d "repo") | _ => None end.

Definition relation_repo (kv : string * pyval) : option string :=
  match kv.2 with PStr s => norm_repo (PStr s) | _ => None end.

Definition current_relation (kv : string * pyval) : bool := negb (String.prefix "future_" kv.1).

Definition load_registration (ls : sets * sets) (reg : pyval) : res (sets * sets) :=
  lane0 ← py_get reg "lane" PNone;
  let lane_doc := py_or lane0 (PDict []) in
  id ← py_get lane_doc "id" PNone;
  lane ← lane_id id;
  match lane with
  | None => Ok ls
  | Some lane =>
    surfaces ← get_dict reg "surfaces";
    relations ← get_dict reg "canonical_relationships";
    owner0 ← py_get lane_doc "owner_repo" PNone;
    let owner : gset string := match norm_repo owner0 with Some r => {[r]} | None => ∅ end in
    let on : gset string := list_to_set (omap surface_repo surfaces) in
    let declared := on ∪ list_to_set (omap relation_repo relations) ∪ owner in
    let active := on ∪ list_to_set (omap relation_repo (List.filter current_relation relations)) ∪ owner in
    Ok (add_members lane declared ls.1, add_members lane active ls.2)
  end.

Definition join_all (extra base : sets) : sets := map_fold (fun lane xs m => add_members lane xs m) base extra.

(** The memberships as pairs, and the tables read off them. *)
Definition memberships (m : sets) : list (string * string) :=
  concat (map (fun lm : string * gset string => map (fun r => (lm.1, r)) (elements lm.2)) (map_to_list m)).

Definition load (agg : option pyval) (packs registrations : list (option pyval)) : res Hypergraph :=
  let agg := _load_yaml agg in
  edges ← get_list agg "edges";
  let k := fold_left load_edge edges (mkSkeleton ∅ ∅) in
  deps ← get_dict agg "dependencies";
  k ← res_fold load_dependency k deps;
  p ← res_fold load_pack (mkPacked k ∅ ∅) (map _load_yaml packs);
  ls ← res_fold load_registration (∅, ∅) (map _load_yaml registrations);
  let lanes := join_all (edge_members p) (ls : sets * sets).1 in
  let active := join_all (active_edge_members p) ls.2 in
  let k := p_skeleton p in
  let edgeless (r : string) : bool := bool_decide (members (k_out k) r = ∅) && bool_decide (members (k_into k) r = ∅) in
  Ok (mkHyper lanes
        (fold_left (fun m lr => add_member lr.2 lr.1 m) (memberships lanes) ∅)
        (k_out k) (k_into k)
        (fold_left (fun m lr => if edgeless lr.2 then add_member lr.1 lr.2 m else m) (memberships lanes) ∅)
        (map_imap (fun lane ms => Some (ms ∖ members active lane)) lanes)
        active).

(** ** The beacon *)

Record hop := mkHop { h_repo : string; h_direction : string; h_hop : nat; h_via : option string; h_lane : option string }.

Section emit.
Variables (g : Hypergraph) (directions : list string) (include_deferred : bool).

Definition asked (d : string) : bool := existsb (String.eqb d) directions.

Definition lane_members (lane : string) : gset string :=
  if include_deferred then members (lanes g) lane
  else match active_lanes g !! lane with Some ms => ms | None => members (lanes g) lane end.

(** The peers that a hop tries, in order: the lanes of the frontier first. *)
Definition lateral_peers (n : nat) (node : string) : list hop :=
  concat (map (fun lane => map (fun peer => mkHop peer "lateral" n (Some node) (Some lane)) (sorted_set (lane_members lane)))
    (sorted_set (members (lanes_of g) node))).

Definition edge_peers (n : nat) (node : string) : list hop :=
  ((if asked "downstream" then map (fun peer => mkHop peer "downstream" n (Some node) None) (sorted_set (members (h_into g) node)) else []) ++
   (if asked "upstream" then map (fun peer => mkHop peer "upstream" n (Some node) None) (sorted_set (members (h_out g) node)) else []))%list.

Definition candidates (n : nat) (frontier : list string) : list hop :=
  ((if asked "lateral" then concat (map (lateral_peers n) frontier) else []) ++ concat (map (edge_peers n) frontier))%list.

(** The seen set, and the hops that were new. *)
Definition try_peer (st : gset string * list hop) (h : hop) : gset string * list hop :=
  if bool_decide (h_repo h ∈ st.1) then st else ({[h_repo h]} ∪ st.1, (st.2 ++ [h])%list).

Fixpoint percolate (ttl n : nat) (seen : gset string) (frontier : list string) : list hop :=
  match ttl with
  | O => []
  | S ttl =>
    let '(seen', found) := fold_left try_peer (candidates n frontier) (seen, []) in
    match found with
    | [] => []
    | _ => (found ++ percolate ttl (S n) seen' (map h_repo found))%list
    end
  end.

Definition emit_from (src : string) (ttl : Z) : list hop :=
  ((if asked "self" then [mkHop src "self" 0 None None] else []) ++ percolate (Z.to_nat ttl) 1 {[src]} [src])%list.

Definition emit (source : pyval) (ttl : Z) : list hop :=
  match norm_repo source with None => [] | Some src => emit_from src ttl end.
End emit.

(** ** Closure *)

Record closure := mkClosure { cl_source : option string; converged : bool; cycles : nat; cl_hops : list hop; cl_note : string }.

(** The cycles from [n] on, [more] of them. *)
Fixpoint converge_loop (emitted : Z -> list hop) (more n seen_total : nat) (hops : list hop) (last : nat) : bool * nat * list hop :=
  match more with
  | O => (false, last, hops)
  | S more =>
    let hops := emitted (Z.of_nat n) in
    if Nat.eqb (length hops) seen_total then (true, (n - 1)%nat, hops)
    else converge_loop emitted more (S n) (length hops) hops n
  end.

Definition converge (g : Hypergraph) (source : pyval) (max_cycles : Z) (directions : list string) : closure :=
  let '(ok, cycles, hops) := converge_loop (emit g directions false source) (Z.to_nat max_cycles) 1 0 [] 0 in
  mkClosure (norm_repo source) ok cycles hops
    (if ok then "closed at cycle " +:+ pretty cycles
     else "DID NOT CONVERGE within " +:+ pretty max_cycles +:+ " cycles; this reach is truncated, not complete").
End gossip.

(** ** Reach *)

Lemma sorted_set_elem s x : x ∈ sorted_set s <-> x ∈ s.
Proof. unfold sorted_set. by rewrite elem_of_py_sort, elem_of_elements. Qed.

Lemma concat_map_elem {A B} (f : A -> list B) l x : x ∈ concat (map f l) <-> exists a, a ∈ l /\ x ∈ f a.
Proof.
  rewrite list_elem_of_In, in_concat. setoid_rewrite in_map_iff. split.
  - intros (y & (a & <- & Ha) & Hx). exists a. by rewrite !list_elem_of_In.
  - intros (a & Ha%list_elem_of_In & Hx%list_elem_of_In). eauto.
Qed.

Section reach.
Variables (g : Hypergraph) (directions : list string) (include_deferred : bool).

#[local] Abbreviation cands := (candidates g directions include_deferred).

(** Co-members of a lane, and neighbours in a direction that was asked for. *)
Definition lateral (u v : string) : Prop :=
  asked directions "lateral" = true /\ exists lane, lane ∈ members (lanes_of g) u /\ v ∈ lane_members g include_deferred lane.

Definition adjacent (u v : string) : Prop :=
  lateral u v \/ (asked directions "downstream" = true /\ v ∈ members (h_into g) u) \/
  (asked directions "upstream" = true /\ v ∈ members (h_out g) u).

Definition lateral_candidates (n : nat) (frontier : list string) : list hop :=
  if asked directions "lateral" then concat (map (lateral_peers g include_deferred n) frontier) else [].

Lemma lateral_candidates_elem n frontier h :
  h ∈ lateral_candidates n frontier <->
  exists u lane, u ∈ frontier /\ asked directions "lateral" = true /\ lane ∈ members (lanes_of g) u /\
    h_repo h ∈ lane_members g include_deferred lane /\ h = mkHop (h_repo h) "lateral" n (Some u) (Some lane).
Proof.
  unfold lateral_candidates. destruct (asked directions "lateral"); [|rewrite elem_of_nil; naive_solver].
  rewrite concat_map_elem. unfold lateral_peers. setoid_rewrite concat_map_elem. setoid_rewrite sorted_set_elem. split.
  - intros (u & Hu & lane & Hl & (v & -> & Hv%sorted_set_elem)%list_elem_of_fmap). exists u, lane. by split_and!.
  - intros (u & lane & Hu & _ & Hl & Hv & ->). exists u. split; [done|]. exists lane. split; [done|].
    apply list_elem_of_fmap. exists (h_repo h). split; [done|]. by apply sorted_set_elem.
Qed.

Lemma edge_peers_elem n u h :
  h ∈ edge_peers g directions n u <->
  exists d, (d = "downstream" /\ asked directions d = true /\ h_repo h ∈ members (h_into g) u \/
             d = "upstream" /\ asked directions d = true /\ h_repo h ∈ members (h_out g) u) /\
    h = mkHop (h_repo h) d n (Some u) None.
Proof.
  unfold edge_peers. rewrite elem_of_app. split.
  - intros [Hh|Hh]; [destruct (asked directions "downstream") eqn:Ea|destruct (asked directions "upstream") eqn:Ea];
      try (by apply elem_of_nil in Hh); apply list_elem_of_fmap in Hh as (v & -> & Hv%sorted_set_elem); eexists; (split; [|reflexivity]); simpl; auto.
  - intros (d & [(-> & Ha & Hv)|(-> & Ha & Hv)] & ->); [left|right]; rewrite Ha; apply list_elem_of_fmap; exists (h_repo h);
      (split; [done|by apply sorted_set_elem]).
Qed.

Lemma candidates_split n frontier : cands n frontier = (lateral_candidates n frontier ++ concat (map (edge_peers g directions n) frontier))%list.
Proof. done. Qed.

(** A candidate is one step from the frontier. *)
Lemma candidate_step n frontier h :
  h ∈ cands n frontier -> h_hop h = n /\ exists u, u ∈ frontier /\ h_via h = Some u /\ adjacent u (h_repo h) /\
    (h_direction h = "lateral" -> lateral u (h_repo h)).
Proof.
  rewrite candidates_split, elem_of_app, lateral_candidates_elem, concat_map_elem.
  intros [(u & lane & Hu & Ha & Hl & Hv & E)|(u & Hu & (d & Hd & E)%edge_peers_elem)].
  - assert (lateral u (h_repo h)) by (split; eauto). rewrite E. simpl. split; [done|]. exists u. unfold adjacent. auto.
  - rewrite E. simpl. split; [done|]. exists u. unfold adjacent. destruct Hd as [(-> & ? & ?)|(-> & ? & ?)]; by split_and!; auto.
Qed.

Lemma candidate_for n frontier u v : u ∈ frontier -> adjacent u v -> exists h, h ∈ cands n frontier /\ h_repo h = v.
Proof.
  rewrite candidates_split. setoid_rewrite elem_of_app. setoid_rewrite lateral_candidates_elem. setoid_rewrite concat_map_elem.
  setoid_rewrite edge_peers_elem. intros Hu [[Ha (lane & Hl & Hv)]|[[Ha Hv]|[Ha Hv]]].
  - exists (mkHop v "lateral" n (Some u) (Some lane)). split; [|done]. left. by exists u, lane.
  - exists (mkHop v "downstream" n (Some u) None). split; [|done]. right. exists u. split; [done|]. exists "downstream". auto.
  - exists (mkHop v "upstream" n (Some u) None). split; [|done]. right. exists u. split; [done|]. exists "upstream". auto.
Qed.

(** *** One level *)

Lemma try_peers cs seen acc seen' found :
  fold_left try_peer cs (seen, acc) = (seen', found) ->
  exists new, found = (acc ++ new)%list /\ seen' = list_to_set (map h_repo new) ∪ seen /\ NoDup (map h_repo new) /\
    Forall (fun h => h ∈ cs /\ h_repo h ∉ seen) new /\ forall h, h ∈ cs -> h_repo h ∈ seen'.
Proof.
  revert seen acc. induction cs as [|h cs IH]; intros seen acc E; simpl in E.
  - injection E as <- <-. exists []. rewrite app_nil_r. split_and!; [done|set_solver|constructor|constructor|by intros ? ?%elem_of_nil].
  - unfold try_peer in E at 2. simpl in E. case_bool_decide as Hin.
    + destruct (IH _ _ E) as (new & -> & -> & Hnd & HF & Hall). exists new. split_and!; [done..| |].
      * eapply Forall_impl; [exact HF|]. intros h' [? ?]. split; [by right|done].
      * intros h' [->|Hh']%elem_of_cons; [set_solver|by apply Hall].
    + destruct (IH _ _ E) as (new & -> & -> & Hnd & HF & Hall). exists (h :: new). rewrite <- app_assoc.
      rewrite Forall_forall in HF. split_and!; [done|set_solver| | |].
      * simpl. apply NoDup_cons. split; [|done]. intros (h' & E' & Hh')%list_elem_of_fmap. destruct (HF _ Hh') as [_ Hn]. apply Hn. set_solver.
      * constructor; [split; [by left|done]|]. apply Forall_forall. intros h' Hh'. destruct (HF _ Hh') as [? ?]. split; [by right|set_solver].
      * intros h' [->|Hh']%elem_of_cons; [set_solver|]. specialize (Hall _ Hh'). set_solver.
Qed.

(** A lane is preferred to an edge. *)
Lemma lateral_first n seen frontier seen' found h u :
  fold_left try_peer (cands n frontier) (seen, []) = (seen', found) -> h ∈ found -> u ∈ frontier -> lateral u (h_repo h) ->
  h_direction h = "lateral".
Proof.
  rewrite candidates_split, fold_left_app. destruct (fold_left try_peer (lateral_candidates n frontier) (seen, [])) as [s1 f1] eqn:E1.
  intros E2 Hh Hu [Ha (lane & Hl & Hv)]. apply try_peers in E1 as (new1 & -> & _ & _ & HF1 & Hall1).
  apply try_peers in E2 as (new2 & -> & _ & _ & HF2 & _). rewrite Forall_forall in HF1, HF2.
  apply elem_of_app in Hh as [Hh|Hh].
  - destruct (HF1 _ Hh) as [(? & ? & _ & _ & _ & _ & ->)%lateral_candidates_elem _]. done.
  - destruct (HF2 _ Hh) as [_ []]. apply (Hall1 (mkHop (h_repo h) "lateral" n (Some u) (Some lane))).
    apply lateral_candidates_elem. by exists u, lane.
Qed.

Variable src : string.

(** The hop at which a repository is first reached. *)
Definition shortest (n : nat) (v : string) : Prop := nsteps adjacent n src v /\ forall k, nsteps adjacent k src v -> (n <= k)%nat.

Definition level_ok (n : nat) (seen : gset string) (frontier : list string) : Prop :=
  (forall v, v ∈ seen <-> exists k, (k < n)%nat /\ nsteps adjacent k src v) /\ (forall v, v ∈ frontier <-> shortest (n - 1) v).

Lemma shortest_unique n k v : shortest n v -> shortest k v -> n = k.
Proof. intros [Hn Hn'] [Hk Hk']. apply Hn' in Hk. apply Hk' in Hn. lia. Qed.

Lemma shortest_prev n v : shortest (S n) v -> exists u, shortest n u /\ adjacent u v.
Proof.
  intros [Hn Hm]. apply nsteps_inv_r in Hn as (u & Hu & Ha). exists u. split; [|done]. split; [done|].
  intros k Hk. specialize (Hm (S k)). assert (S n <= S k)%nat; [|lia]. apply Hm. by eapply nsteps_r.
Qed.

Lemma shortest_below n k v : shortest n v -> (k <= n)%nat -> exists u, shortest k u.
Proof.
  revert v. induction n as [|n IH]; intros v Hv Hk; [assert (k = O) as -> by lia; eauto|].
  destruct (decide (k = S n)) as [->|]; [eauto|]. apply shortest_prev in Hv as (u & Hu & _). apply (IH u Hu). lia.
Qed.

Lemma level_step n seen frontier seen' found :
  (1 <= n)%nat -> level_ok n seen frontier -> fold_left try_peer (cands n frontier) (seen, []) = (seen', found) ->
  NoDup (map h_repo found) /\ (forall v, v ∈ map h_repo found <-> shortest n v) /\
  (forall h, h ∈ found -> h ∈ cands n frontier) /\ level_ok (S n) seen' (map h_repo found).
Proof.
  intros Hn [Hseen Hfr] E. apply try_peers in E as (new & E & -> & Hnd & HF & Hall). simpl in E. subst new.
  rewrite Forall_forall in HF.
  assert (forall v, v ∈ map h_repo found <-> shortest n v) as Hfound.
  { intros v. split.
    - intros (h & -> & Hh)%list_elem_of_fmap. destruct (HF _ Hh) as [Hc Hs].
      apply candidate_step in Hc as (_ & u & Hu%Hfr & _ & Ha & _). split.
      + destruct n as [|n]; [lia|]. simpl in Hu. rewrite Nat.sub_0_r in Hu. by eapply nsteps_r; [apply Hu|].
      + intros k Hk. destruct (decide (k < n)%nat); [|lia]. destruct Hs. apply Hseen. eauto.
    - intros Hsh. destruct n as [|n]; [lia|]. destruct (shortest_prev _ _ Hsh) as (u & Hu & Ha).
      assert (u ∈ frontier) as Hin by (apply Hfr; simpl; by rewrite Nat.sub_0_r).
      destruct (candidate_for (S n) _ _ _ Hin Ha) as (h & Hh & <-). specialize (Hall _ Hh).
      apply elem_of_union in Hall as [Hh'|(k & Hk & Hs)%Hseen]; [by apply elem_of_list_to_set in Hh'|].
      apply Hsh in Hs. lia. }
  split_and!; [done|done|intros h Hh; by apply HF|]. split.
  - intros v. rewrite elem_of_union, elem_of_list_to_set, Hfound, Hseen. split.
    + intros [[Hs _]|(k & Hk & Hs)]; [exists n; auto with lia|exists k; auto with lia].
    + intros (k & Hk & Hs). destruct (decide (v ∈ seen)) as [Hv%Hseen|Hv]; [by right|left].
      assert (forall j, nsteps adjacent j src v -> (n <= j)%nat) as Hmin.
      { intros j Hj. destruct (decide (j < n)%nat); [|lia]. destruct Hv. apply Hseen. eauto. }
      assert (k = n) as -> by (specialize (Hmin _ Hs); lia). by split.
  - intros v. rewrite Hfound. by replace (S n - 1)%nat with n by lia.
Qed.

Lemma level_start : level_ok 1 {[src]} [src].
Proof.
  assert (forall v, nsteps adjacent 0 src v <-> v = src) as H0 by (intros v; split; [by inversion 1|intros ->; constructor]). split.
  - intros v. rewrite elem_of_singleton. split.
    + intros ->. exists 0%nat. split; [lia|constructor].
    + intros (k & Hk & Hs). assert (k = O) as -> by lia. by apply H0.
  - intros v. rewrite list_elem_of_singleton. simpl. split.
    + intros ->. split; [constructor|lia].
    + by intros [?%H0 _].
Qed.

Lemma level_exists n : exists seen frontier, level_ok (S n) seen frontier.
Proof.
  induction n as [|n (seen & frontier & Hl)]; [eexists _, _; exact level_start|].
  destruct (fold_left try_peer (cands (S n) frontier) (seen, [])) as [seen' found] eqn:E.
  eapply level_step in E as (_ & _ & _ & ?); [eauto|lia|done].
Qed.

Lemma reach_shortest k v : nsteps adjacent k src v -> exists n, (n <= k)%nat /\ shortest n v.
Proof.
  induction (lt_wf k) as [k _ IH]. intros Hk. destruct k as [|k]; [exists 0%nat; split; [lia|]; split; [done|lia]|].
  destruct (level_exists k) as (seen & frontier & Hseen & _). destruct (decide (v ∈ seen)) as [(j & Hj & Hs)%Hseen|Hv].
  - destruct (IH j Hj Hs) as (n & Hn & Hsh). exists n. split; [lia|done].
  - exists (S k). split; [done|]. split; [done|]. intros j Hj. destruct (decide (j < S k)%nat); [|lia]. destruct Hv. apply Hseen. eauto.
Qed.

(** *** The hops of a beacon *)

Record beacon_ok (first count : nat) (hops : list hop) : Prop := {
  bo_nodup : NoDup (map h_repo hops);
  bo_hop h : h ∈ hops -> (first <= h_hop h < first + count)%nat /\ shortest (h_hop h) (h_repo h) /\
    (exists u, h_via h = Some u /\ shortest (h_hop h - 1) u /\ adjacent u (h_repo h)) /\
    (h_direction h = "lateral" <-> exists u, shortest (h_hop h - 1) u /\ lateral u (h_repo h));
  bo_all k v : (first <= k < first + count)%nat -> shortest k v -> v ∈ map h_repo hops
}.

Lemma percolate_ok ttl n seen frontier :
  (1 <= n)%nat -> level_ok n seen frontier -> beacon_ok n ttl (percolate g directions include_deferred ttl n seen frontier).
Proof.
  revert n seen frontier. induction ttl as [|ttl IH]; intros n seen frontier Hn Hl.
  { split; simpl; [constructor|by intros h ?%elem_of_nil|lia]. }
  simpl. destruct (fold_left try_peer (cands n frontier) (seen, [])) as [seen' found] eqn:E.
  destruct (level_step _ _ _ _ _ Hn Hl E) as (Hnd & Hfound & Hc & Hl').
  assert (found = [] -> forall k v, (n <= k)%nat -> ~ shortest k v) as Hnone.
  { intros -> k v Hk Hs. destruct (shortest_below _ _ _ Hs Hk) as (u & Hu%Hfound). by apply elem_of_nil in Hu. }
  destruct found as [|h0 found0]; [split; simpl; [constructor|by intros h ?%elem_of_nil|]; intros k v Hk Hs; by destruct (Hnone eq_refl k v (proj1 Hk))|].
  set (found := h0 :: found0) in *. clearbody found. specialize (IH (S n) seen' (map h_repo found) ltac:(lia) Hl') as [IHn IHh IHa].
  split.
  - rewrite map_app. apply NoDup_app. split_and!; [done| |done]. intros v Hv%Hfound (h & -> & Hh)%list_elem_of_fmap.
    destruct (IHh _ Hh) as (Hb & Hs & _). pose proof (shortest_unique _ _ _ Hv Hs). lia.
  - intros h [Hh|Hh]%elem_of_app.
    + assert (shortest n (h_repo h)) as Hs by (apply Hfound; by apply list_elem_of_fmap_2).
      destruct (candidate_step _ _ _ (Hc _ Hh)) as (-> & u & Hu & Hv & Ha & Hlat). split_and!; [lia|lia|done| |].
      * exists u. split_and!; [done|by apply Hl|done].
      * split; [intros Hd; exists u; split; [by apply Hl|by apply Hlat]|]. intros (u' & Hu' & Hl'').
        eapply lateral_first; [exact E|done|by apply Hl|done].
    + destruct (IHh _ Hh) as (Hb & ? & ? & ?). split_and!; [lia|lia|done|done|done].
  - intros k v Hk Hs. rewrite map_app, elem_of_app. destruct (decide (k = n)) as [->|]; [left; by apply Hfound|right; apply (IHa k); [lia|done]].
Qed.

Lemma shortest_self n : shortest n src <-> n = 0%nat.
Proof.
  split.
  - intros [_ Hm]. assert (n <= 0)%nat by (apply Hm; constructor). lia.
  - intros ->. split; [constructor|lia].
Qed.

(** The repositories that a beacon of some hops records. *)
Lemma emit_from_repos ttl v :
  v ∈ map h_repo (emit_from g directions include_deferred src ttl) <->
  exists k, (k <= Z.to_nat ttl)%nat /\ shortest k v /\ (v = src -> asked directions "self" = true).
Proof.
  unfold emit_from. rewrite map_app, elem_of_app.
  destruct (percolate_ok (Z.to_nat ttl) 1 {[src]} [src] (le_n 1) level_start) as [_ Hh Ha]. split.
  - intros [Hv|(h & -> & Hin)%list_elem_of_fmap].
    + destruct (asked directions "self"); [|by apply elem_of_nil in Hv]. apply list_elem_of_singleton in Hv as ->. exists 0%nat.
      split_and!; [lia|by apply shortest_self|done].
    + destruct (Hh _ Hin) as (Hb & Hs & _). exists (h_hop h). split_and!; [lia|done|]. intros E. rewrite E in Hs. apply shortest_self in Hs. lia.
  - intros (k & Hk & Hs & Hself). destruct (decide (k = O)) as [->|]; [left|right; apply (Ha k); [lia|done]].
    assert (v = src) as -> by (destruct Hs as [Hs _]; by inversion Hs). rewrite (Hself eq_refl). by left.
Qed.

Lemma emit_from_nodup ttl : NoDup (map h_repo (emit_from g directions include_deferred src ttl)).
Proof.
  unfold emit_from. destruct (percolate_ok (Z.to_nat ttl) 1 {[src]} [src] (le_n 1) level_start) as [Hn Hh _].
  rewrite map_app. apply NoDup_app. split_and!; [destruct (asked directions "self"); [apply NoDup_singleton|constructor]| |done].
  intros v Hv (h & -> & Hin)%list_elem_of_fmap. destruct (asked directions "self"); [|by apply elem_of_nil in Hv].
  apply list_elem_of_singleton in Hv. destruct (Hh _ Hin) as (Hb & Hs & _). simpl in Hv. rewrite Hv in Hs. apply shortest_self in Hs. lia.
Qed.
End reach.

Section closing.
Variables (g : Hypergraph) (directions : list string) (include_deferred : bool) (src : string).

#[local] Abbreviation E n := (emit_from g directions include_deferred src (Z.of_nat n)).
#[local] Abbreviation adj := (adjacent g directions include_deferred).
#[local] Abbreviation first_at := (shortest g directions include_deferred src).

(** Everything the tables of the graph name. *)
Definition named (m : sets) : gset string := ⋃ (map_to_list m).*2.
Definition nodes : gset string := named (lanes g) ∪ named (active_lanes g) ∪ named (h_into g) ∪ named (h_out g).

Lemma members_named m k v : v ∈ members m k -> v ∈ named m.
Proof.
  unfold members, named. destruct (m !! k) as [xs|] eqn:Ek; [|simpl; set_solver]. intros Hv. apply elem_of_union_list.
  exists xs. split; [|done]. apply list_elem_of_fmap. exists (k, xs). split; [done|]. by apply elem_of_map_to_list.
Qed.

Lemma adjacent_nodes u v : adj u v -> v ∈ nodes.
Proof.
  unfold nodes. intros [[_ (lane & _ & Hv)]|[[_ Hv]|[_ Hv]]].
  - unfold lane_members in Hv. destruct include_deferred; [apply members_named in Hv; set_solver|].
    destruct (active_lanes g !! lane) as [xs|] eqn:Ea; [|apply members_named in Hv; set_solver].
    assert (v ∈ members (active_lanes g) lane) as Hm by (unfold members; by rewrite Ea). apply members_named in Hm. set_solver.
  - apply members_named in Hv. set_solver.
  - apply members_named in Hv. set_solver.
Qed.

Lemma emit_size n : (length (E n) <= S (size nodes))%nat.
Proof.
  rewrite <- (length_map h_repo). pose proof (emit_from_nodup g directions include_deferred src (Z.of_nat n)) as Hnd.
  rewrite <- (size_list_to_set (C := gset string) _ Hnd). transitivity (size ({[src]} ∪ nodes)).
  - apply subseteq_size. intros v (k & _ & Hs & _)%elem_of_list_to_set%emit_from_repos. destruct k as [|k].
    + destruct Hs as [Hs _]. inversion Hs; subst. set_solver.
    + apply shortest_prev in Hs as (u & _ & Ha). apply adjacent_nodes in Ha. set_solver.
  - pose proof (size_union_alt {[src]} nodes). rewrite size_singleton in *.
    assert (size (nodes ∖ {[src]}) <= size nodes)%nat by (apply subseteq_size; set_solver). lia.
Qed.

Lemma emit_mono n : (length (E n) <= length (E (S n)))%nat /\ (length (E n) = length (E (S n)) -> forall v, ~ first_at (S n) v).
Proof.
  assert (map h_repo (E n) ⊆+ map h_repo (E (S n))) as Hsub.
  { apply NoDup_submseteq; [apply emit_from_nodup|]. intros v (k & Hk & Hs)%emit_from_repos. apply emit_from_repos. exists k.
    split; [lia|done]. }
  split; [apply submseteq_length in Hsub; by rewrite !length_map in Hsub|]. intros Hl v Hs.
  apply submseteq_length_Permutation in Hsub; [|rewrite !length_map; lia].
  assert (v ∈ map h_repo (E (S n))) as Hin.
  { apply emit_from_repos. exists (S n). split_and!; [lia|done|]. intros ->. apply shortest_self in Hs. lia. }
  rewrite <- Hsub in Hin. apply emit_from_repos in Hin as (k & Hk & Hs' & _). pose proof (shortest_unique _ _ _ _ _ _ _ Hs Hs'). lia.
Qed.

(** With no repository first reached at a hop, the beacon has closed. *)
Lemma closed_at n :
  (forall v, ~ first_at (S n) v) ->
  (forall v, v ∈ map h_repo (E (S n)) <-> rtc adj src v /\ (v = src -> asked directions "self" = true)) /\
  forall h, h ∈ E (S n) -> (h_hop h <= n)%nat.
Proof.
  intros Hno. assert (forall k v, first_at k v -> (k <= n)%nat) as Hk.
  { intros k v Hs. destruct (decide (k <= n)%nat); [done|]. destruct (shortest_below _ _ _ _ k (S n) v Hs) as (u & Hu); [lia|]. by destruct (Hno u). }
  split.
  - intros v. rewrite emit_from_repos. split.
    + intros (k & _ & [Hs _] & Hself). split; [by eapply rtc_nsteps; eauto|done].
    + intros [(k & Hs)%rtc_nsteps Hself]. apply reach_shortest in Hs as (j & _ & Hj). exists j. split_and!; [|done|done].
      apply Hk in Hj. lia.
  - intros h Hh. unfold emit_from in Hh. apply elem_of_app in Hh as [Hh|Hh].
    + destruct (asked directions "self"); [apply list_elem_of_singleton in Hh as ->; simpl; lia|by apply elem_of_nil in Hh].
    + destruct (bo_hop _ _ _ _ _ _ _ (percolate_ok g directions include_deferred src _ 1 _ _ (le_n 1) (level_start _ _ _ _)) _ Hh) as (_ & Hs & _).
      by apply Hk in Hs.
Qed.

Lemma no_first_hop : length (E 1) = 0%nat -> forall v, ~ first_at 1 v.
Proof.
  intros Hl v Hs. assert (v ∈ map h_repo (E 1)) as Hin.
  { apply emit_from_repos. exists 1%nat. split_and!; [lia|done|]. intros ->. by apply shortest_self in Hs. }
  apply nil_length_inv in Hl. rewrite Hl in Hin. by apply elem_of_nil in Hin.
Qed.

(** What the loop has found when it stops. *)
Lemma converge_loop_spec more n seen_total hops last ok c hops' :
  (1 <= n)%nat -> (n = 1%nat /\ seen_total = 0%nat \/ seen_total = length (E (n - 1))) ->
  converge_loop (emit_from g directions include_deferred src) more n seen_total hops last = (ok, c, hops') ->
  (ok = true -> hops' = E (S c) /\ forall v, ~ first_at (S c) v) /\
  (ok = false -> more = 0%nat \/ (seen_total + more <= length (E (n + more - 1)))%nat).
Proof.
  revert n seen_total hops last. induction more as [|more IH]; intros n seen_total hops last Hn Hs E'; simpl in E'.
  { injection E' as <- <- <-. split; [done|by left]. }
  destruct (Nat.eqb_spec (length (E n)) seen_total) as [Heq|Hne].
  - injection E' as <- <- <-. split; [|done]. intros _. replace (S (n - 1))%nat with n by lia. split; [done|].
    destruct Hs as [[-> ->]| ->]; [by apply no_first_hop|]. intros v. replace n with (S (n - 1))%nat at 1 by lia.
    apply (proj2 (emit_mono (n - 1))). by replace (S (n - 1))%nat with n by lia.
  - apply IH in E' as [H1 H2]; [|lia|right; by replace (S n - 1)%nat with n by lia]. split; [exact H1|]. intros Hok. right.
    assert (seen_total < length (E n))%nat as Hlt.
    { destruct Hs as [[-> ->]| ->]; [lia|]. pose proof (proj1 (emit_mono (n - 1))) as Hm. replace (S (n - 1))%nat with n in Hm by lia. lia. }
    destruct (H2 Hok) as [-> |H3]; [by replace (n + 1 - 1)%nat with n by lia; lia|].
    replace (n + S more - 1)%nat with (S n + more - 1)%nat by lia. lia.
Qed.
End closing.

(** ** The loaded tables *)

Lemma members_add k x m k' : members (add_member k x m) k' = if decide (k = k') then {[x]} ∪ members m k' else members m k'.
Proof. unfold add_member, members. destruct (decide (k = k')) as [<-|Hne]; [by rewrite lookup_insert_eq|by rewrite lookup_insert_ne]. Qed.

Lemma members_add_all k xs m k' : members (add_members k xs m) k' = if decide (k = k') then xs ∪ members m k' else members m k'.
Proof. unfold add_members, members. destruct (decide (k = k')) as [<-|Hne]; [by rewrite lookup_insert_eq|by rewrite lookup_insert_ne]. Qed.

Lemma members_join extra base l : members (join_all extra base) l = members extra l ∪ members base l.
Proof.
  unfold join_all. apply (map_fold_weak_ind (fun m extra => members m l = members extra l ∪ members base l)).
  - unfold members. rewrite lookup_empty. simpl. set_solver.
  - intros k xs m r Hk IH. rewrite members_add_all, IH. unfold members. destruct (decide (k = l)) as [<-|Hne].
    + rewrite lookup_insert_eq, Hk. simpl. set_solver.
    + by rewrite lookup_insert_ne.
Qed.

Lemma memberships_elem m l r : (l, r) ∈ memberships m <-> r ∈ members m l.
Proof.
  unfold memberships, members. rewrite concat_map_elem. split.
  - intros ([k xs] & Hk%elem_of_map_to_list & (y & [= <- <-] & Hy%elem_of_elements)%list_elem_of_fmap). by rewrite Hk.
  - destruct (m !! l) as [xs|] eqn:El; simpl; [|set_solver]. intros Hr. exists (l, xs).
    split; [by apply elem_of_map_to_list|]. apply list_elem_of_fmap. exists r. split; [done|]. by apply elem_of_elements.
Qed.

(** Filling a table from pairs. *)
Lemma fold_add (pairs : list (string * string)) (test : string * string -> bool) (key val : string * string -> string) m k x :
  x ∈ members (fold_left (fun m lr => if test lr then add_member (key lr) (val lr) m else m) pairs m) k <->
  x ∈ members m k \/ exists lr, lr ∈ pairs /\ test lr = true /\ key lr = k /\ val lr = x.
Proof.
  revert m. induction pairs as [|lr pairs IH]; intros m; simpl; [setoid_rewrite elem_of_nil; naive_solver|].
  assert (x ∈ members (if test lr then add_member (key lr) (val lr) m else m) k <->
    x ∈ members m k \/ test lr = true /\ key lr = k /\ val lr = x) as Hstep.
  { destruct (test lr); [|naive_solver]. rewrite members_add. destruct (decide (key lr = k)) as [->|Hne].
    - rewrite elem_of_union, elem_of_singleton. naive_solver.
    - naive_solver. }
  rewrite IH, Hstep. setoid_rewrite elem_of_cons. split.
  - intros [[?|?]|(lr' & ? & ?)]; [by left|right; exists lr; by split; [left|]|right; exists lr'; by split; [right|]].
  - intros [?|(lr' & [->|?] & ?)]; [by left; left|by left; right|right; eauto].
Qed.

Section loading.
Context `{FloatRepr}.

(** The two tables of the skeleton mirror each other, without loops. *)
Definition mirrored (k : skeleton) : Prop :=
  forall s d, (d ∈ members (k_out k) s <-> s ∈ members (k_into k) d) /\ (d ∈ members (k_out k) s -> s <> d).

Lemma add_edge_mirrored src dst k : mirrored k -> mirrored (_add_edge src dst k).
Proof.
  unfold _add_edge. intros Hk. destruct (norm_repo src) as [s0|]; [|done]. destruct (norm_repo dst) as [d0|]; [|done].
  destruct (String.eqb_spec s0 d0); [done|]. intros s d. simpl. rewrite !members_add. specialize (Hk s d) as [Hk1 Hk2].
  destruct (decide (s0 = s)), (decide (d0 = d)); subst; rewrite ?elem_of_union, ?elem_of_singleton; naive_solver.
Qed.

Lemma fold_mirrored {A} (f : skeleton -> A -> skeleton) l k :
  (forall k x, mirrored k -> mirrored (f k x)) -> mirrored k -> mirrored (fold_left f l k).
Proof. intros Hf. revert k. induction l as [|x l IH]; intros k Hk; [done|]. simpl. by apply IH, Hf. Qed.

Lemma load_edge_mirrored k e : mirrored k -> mirrored (load_edge k e).
Proof. intros Hk. destruct e; try done. by apply add_edge_mirrored. Qed.

Lemma load_dependency_mirrored k re k' : mirrored k -> load_dependency k re = Ok k' -> mirrored k'.
Proof.
  unfold load_dependency. intros Hk E. destruct re.2; try (by injection E as <-).
  apply bind_Ok_inv in E as (deps & _ & [= <-]). apply fold_mirrored; [|done]. intros. by apply add_edge_mirrored.
Qed.

Definition within (active all : sets) : Prop := forall l, members active l ⊆ members all l.

Lemma join_lane_within lane xs active all : within active all -> within (join_lane lane xs active) (join_lane lane xs all).
Proof.
  intros Hw l. destruct lane as [lane|]; [|apply Hw]. simpl. rewrite !members_add_all. specialize (Hw l).
  destruct (decide (lane = l)); set_solver.
Qed.

Lemma join_lane_grows lane xs m : within m (join_lane lane xs m).
Proof. intros l. destruct lane as [lane|]; [|done]. simpl. rewrite members_add_all. destruct (decide (lane = l)); set_solver. Qed.

Definition packed_ok (p : packed) : Prop := mirrored (p_skeleton p) /\ within (active_edge_members p) (edge_members p).

Lemma load_pack_edge_ok p e p' : packed_ok p -> load_pack_edge p e = Ok p' -> packed_ok p'.
Proof.
  unfold load_pack_edge. intros [Hm Hw] E. destruct e as [| | | | | |e]; try (by injection E as <-).
  apply bind_Ok_inv in E as (lane & _ & E). destruct (edge_active e); injection E as <-; split; simpl.
  - by apply add_edge_mirrored.
  - by apply join_lane_within.
  - done.
  - intros l x Hx. apply join_lane_grows. by apply Hw.
Qed.

Lemma load_pack_ok p pack p' : packed_ok p -> load_pack p pack = Ok p' -> packed_ok p'.
Proof.
  unfold load_pack. intros Hp E. apply bind_Ok_inv in E as (es & _ & E). revert Hp E. apply (res_fold_inv packed_ok).
  intros e p1 p2 _. apply load_pack_edge_ok.
Qed.

Lemma load_registration_ok ls reg ls' : within ls.2 ls.1 -> load_registration ls reg = Ok ls' -> within ls'.2 ls'.1.
Proof.
  unfold load_registration. intros Hw E. do 3 apply bind_Ok_inv in E as (? & _ & E).
  destruct x1 as [lane|]; [|by injection E as <-]. apply bind_Ok_inv in E as (surfaces & _ & E).
  apply bind_Ok_inv in E as (relations & _ & E). apply bind_Ok_inv in E as (owner & _ & [= <-]). intros l. simpl.
  rewrite !members_add_all. specialize (Hw l). destruct (decide (lane = l)); [|done].
  assert (list_to_set (omap relation_repo (List.filter current_relation relations)) ⊆@{gset string} list_to_set (omap relation_repo relations)).
  { intros r. rewrite !elem_of_list_to_set, !list_elem_of_omap. intros (kv & [Hkv _]%elem_of_lfilter & ?). eauto. }
  set_solver.
Qed.

(** The loaded tables agree.  An edge is in one direction table exactly when it
    is in the other, and never a loop; a repository lists exactly the lanes that
    list it; the members in force are members, the deferred ones are the rest; and
    the unconnected members of a lane are those without an edge. *)
Theorem loaded_tables_agree agg packs registrations g :
  load agg packs registrations = Ok g ->
  (forall s d, (d ∈ members (h_out g) s <-> s ∈ members (h_into g) d) /\ (d ∈ members (h_out g) s -> s <> d)) /\
  (forall l r, l ∈ members (lanes_of g) r <-> r ∈ members (lanes g) l) /\
  (forall l, members (active_lanes g) l ⊆ members (lanes g) l /\ members (deferred g) l = members (lanes g) l ∖ members (active_lanes g) l) /\
  (forall l r, r ∈ members (unconnected g) l <-> r ∈ members (lanes g) l /\ members (h_out g) r = ∅ /\ members (h_into g) r = ∅).
Proof.
  unfold load. intros E. apply bind_Ok_inv in E as (edges & _ & E). apply bind_Ok_inv in E as (deps & _ & E).
  apply bind_Ok_inv in E as (k & Ek & E). apply bind_Ok_inv in E as (p & Ep & E). apply bind_Ok_inv in E as (ls & El & [= <-]).
  assert (mirrored (mkSkeleton ∅ ∅)) as H0 by (intros s d; simpl; unfold members; rewrite !lookup_empty; simpl; set_solver).
  assert (mirrored k) as Hk.
  { revert Ek. apply (res_fold_inv mirrored); [intros re k1 k2 _; apply load_dependency_mirrored|].
    apply fold_mirrored; [intros; by apply load_edge_mirrored|done]. }
  assert (packed_ok p) as [Hm Hw].
  { revert Ep. apply (res_fold_inv packed_ok); [intros pk p1 p2 _; apply load_pack_ok|]. split; [done|by intros l]. }
  assert (within ls.2 ls.1) as Hl.
  { revert El. apply (res_fold_inv (fun ls : sets * sets => within ls.2 ls.1)); [intros reg l1 l2 _; apply load_registration_ok|by intros l]. }
  cbn [lanes lanes_of h_out h_into unconnected deferred active_lanes]. split_and!; [exact Hm| | |].
  - intros l r. rewrite (fold_add _ (fun _ => true) snd fst). unfold members at 1. rewrite lookup_empty. simpl.
    rewrite <- memberships_elem. split; [|intros ?; right; by exists (l, r)].
    intros [?|([l' r'] & Hlr & _ & <- & <-)]; [set_solver|done].
  - intros l. split.
    + rewrite !members_join. specialize (Hw l). specialize (Hl l). set_solver.
    + unfold members at 1. rewrite map_lookup_imap.
      unfold members at 2. destruct (join_all (edge_members p) ls.1 !! l) as [ms|]; cbn; [reflexivity|set_solver].
  - intros l r. rewrite (fold_add _ (fun lr => bool_decide (members (k_out (p_skeleton p)) lr.2 = ∅) && bool_decide (members (k_into (p_skeleton p)) lr.2 = ∅)) fst snd).
    unfold members at 1. rewrite lookup_empty. simpl. setoid_rewrite andb_true_iff. setoid_rewrite bool_decide_eq_true.
    rewrite <- memberships_elem. split; [|intros [? ?]; right; by exists (l, r)].
    intros [?|([l' r'] & Hlr & ? & <- & <-)]; [set_solver|done].
Qed.
End loading.

(** ** Properties *)

Section properties.
Context `{FloatRepr}.

(** A beacon records each repository once, at the fewest hops.  The
    repositories recorded are those within the given number of steps over lanes
    and edges, each with its distance, over a repository one hop nearer; it is
    recorded as lateral exactly when a lane leads to it from such a repository,
    whatever edges do.  The source is recorded only as the origin. *)
Theorem beacon_is_shortest g directions include_deferred source src ttl :
  norm_repo source = Some src ->
  let hops := emit g directions include_deferred source ttl in
  let first_at := shortest g directions include_deferred src in
  NoDup (map h_repo hops) /\
  (forall v, v ∈ map h_repo hops <-> exists k, (k <= Z.to_nat ttl)%nat /\ first_at k v /\ (v = src -> asked directions "self" = true)) /\
  forall h, h ∈ hops -> first_at (h_hop h) (h_repo h) /\ (h_hop h = 0%nat -> h = mkHop src "self" 0 None None) /\
    (h_hop h <> 0%nat ->
       (exists u, h_via h = Some u /\ first_at (h_hop h - 1)%nat u /\ adjacent g directions include_deferred u (h_repo h)) /\
       (h_direction h = "lateral" <-> exists u, first_at (h_hop h - 1)%nat u /\ lateral g directions include_deferred u (h_repo h))).
Proof.
  intros Hsrc. unfold emit. rewrite Hsrc. cbv zeta. split_and!; [apply emit_from_nodup|apply emit_from_repos|].
  intros h Hh. unfold emit_from in Hh. apply elem_of_app in Hh as [Hh|Hh].
  - destruct (asked directions "self"); [|by apply elem_of_nil in Hh]. apply list_elem_of_singleton in Hh as ->.
    split_and!; [by apply shortest_self|done|done].
  - destruct (bo_hop _ _ _ _ _ _ _ (percolate_ok g directions include_deferred src _ 1 _ _ (le_n 1) (level_start _ _ _ _)) _ Hh)
      as (Hb & Hs & Hvia & Hlat). split_and!; [done|lia|done].
Qed.

(** A beacon that says it converged has reached everything.  The repositories
    it then lists are exactly those that lanes and edges lead to over any number of
    steps, the last of them first reached at the cycle it names; and it does
    converge when it may run for two cycles more than the graph has names. *)
Theorem convergence_is_closure g source src max_cycles directions :
  norm_repo source = Some src ->
  let c := converge g source max_cycles directions in
  (converged c = true ->
     (forall v, v ∈ map h_repo (cl_hops c) <-> rtc (adjacent g directions false) src v /\ (v = src -> asked directions "self" = true)) /\
     forall h, h ∈ cl_hops c -> (h_hop h <= cycles c)%nat) /\
  ((Z.of_nat (size (nodes g)) + 2 <= max_cycles)%Z -> converged c = true).
Proof.
  intros Hsrc. unfold converge.
  assert (forall n, emit g directions false source n = emit_from g directions false src n) as He by (intros n; unfold emit; by rewrite Hsrc).
  assert (forall more n s hops last, converge_loop (emit g directions false source) more n s hops last =
    converge_loop (emit_from g directions false src) more n s hops last) as ->.
  { intros more. induction more as [|more IH]; intros; [done|]. simpl. by rewrite He, IH. }
  destruct (converge_loop _ _ _ _ _ _) as [[ok c] hops] eqn:E. cbv zeta. cbn [converged cl_hops cycles].
  apply converge_loop_spec in E as [H1 H2]; [|lia|by left]. split.
  - intros Hok. destruct (H1 Hok) as [-> Hno]. by apply closed_at.
  - intros Hm. destruct ok; [done|]. destruct (H2 eq_refl) as [?|Hl]; [lia|].
    pose proof (emit_size g directions false src (1 + Z.to_nat max_cycles - 1)). lia.
Qed.
End properties.

(** ** Witnesses *)

Section witnesses.
#[local] Existing Instance demo_float_repr.

Definition edge_doc (from to lane state : string) : pyval :=
  PDict [("from", PStr from); ("to", PStr to); ("lane", PStr lane); ("state", PStr state)].

Definition demo_agg : option pyval :=
  Some (PDict [("edges", PList [edge_doc "Org/App_One" "lib" "" "active"]);
               ("dependencies", PDict [("lib", PDict [("depends_on", PList [PStr "base"; PDict [("name", PStr "lib")]])])])]).
Definition demo_pack : option pyval :=
  Some (PDict [("edges", PList [edge_doc "app-one" "far" "lane1" "active"; edge_doc "app-one" "later" "lane1" "deferred"])]).
Definition demo_registration : option pyval :=
  Some (PDict [("lane", PDict [("id", PStr "lane1"); ("owner_repo", PStr "owner")]);
               ("surfaces", PDict [("s", PDict [("repo", PStr "base")])]);
               ("canonical_relationships", PDict [("future_owner", PStr "someday"); ("peer", PStr "peer")])]).

#[local] Abbreviation demo_load := (load demo_agg [demo_pack] [demo_registration; None]).

Definition demo_graph : Hypergraph := match demo_load with Ok g => g | Raise _ => empty_graph end.

Definition trail (hs : list hop) : list (string * string * nat) := map (fun h => (h_repo h, h_direction h, h_hop h)) hs.

Example emit_ex :
  trail (emit demo_graph DIRECTIONS false (PStr "lib") 2) =
  [("lib", "self", 0); ("app-one", "downstream", 1); ("base", "upstream", 1); ("far", "lateral", 2); ("owner", "lateral", 2); ("peer", "lateral", 2)]%nat /\
  trail (emit demo_graph ["upstream"] false (PStr "Org/App_One") 1) = [("far", "upstream", 1); ("lib", "upstream", 1)]%nat /\
  emit demo_graph DIRECTIONS false (PStr " ") 2 = [] /\
  elements (members (deferred demo_graph) "lane1") ≡ₚ ["later"; "someday"] /\
  sorted_set (members (unconnected demo_graph) "lane1") = ["later"; "owner"; "peer"; "someday"].
Proof. vm_compute. split_and!; try reflexivity. by apply (bool_decide_unpack _). Qed.

Lemma loaded_tables_agree_witness :
  exists g, demo_load = Ok g /\ forall l r, l ∈ members (lanes_of g) r <-> r ∈ members (lanes g) l.
Proof.
  destruct (is_ok_Ok demo_load) as [g E]; [vm_compute; reflexivity|]. exists g. split; [exact E|].
  destruct (loaded_tables_agree _ _ _ _ E) as (_ & Hl & _). exact Hl.
Defined.

Lemma beacon_is_shortest_witness :
  norm_repo (PStr "Org/Lib") = Some "lib" /\ NoDup (map h_repo (emit demo_graph DIRECTIONS false (PStr "Org/Lib") 2)).
Proof.
  assert (norm_repo (PStr "Org/Lib") = Some "lib") as E by (vm_compute; reflexivity). split; [exact E|].
  destruct (beacon_is_shortest demo_graph DIRECTIONS false (PStr "Org/Lib") "lib" 2 E) as [Hn _]. exact Hn.
Defined.

Lemma convergence_is_closure_witness :
  converged (converge demo_graph (PStr "lib") 16 DIRECTIONS) = true /\
  forall v, v ∈ map h_repo (cl_hops (converge demo_graph (PStr "lib") 16 DIRECTIONS)) <->
    rtc (adjacent demo_graph DIRECTIONS false) "lib" v /\ (v = "lib" -> asked DIRECTIONS "self" = true).
Proof.
  assert (norm_repo (PStr "lib") = Some "lib") as E by (vm_compute; reflexivity).
  destruct (convergence_is_closure demo_graph (PStr "lib") "lib" 16 DIRECTIONS E) as [Hc Hsize].
  assert (converged (converge demo_graph (PStr "lib") 16 DIRECTIONS) = true) as Hok.
  { apply Hsize. apply (bool_decide_unpack _). vm_compute. exact I. }
  split; [exact Hok|]. destruct (Hc Hok) as [Hv _]. exact Hv.
Defined.

(** A beacon whose farthest repository is at the last cycle it may run has reached
    everything, but says that its reach is truncated. *)
Example complete_but_truncated :
  let c := converge demo_graph (PStr "lib") 2 DIRECTIONS in
  converged c = false /\ length (cl_hops c) = length (cl_hops (converge demo_graph (PStr "lib") 16 DIRECTIONS)).
Proof. vm_compute. auto. Qed.
End witnesses.
