(* ===== verification/PropagationEngine.v ===== *)
(** * The dependency graph of the propagation engine

    Models the registry half of [engines/propagation_engine.py]: the identifier
    normalisation, [PropagationEngine.load] and the queries.  A registry file is
    the value [_load_yaml] returns for it, with the keys of a mapping as their
    text.  The adjacency dictionaries are only looked up, never listed, so they
    are finite maps; the levels and the edges are listed and keep their order.

    A rule is kept as the source keeps it, a mapping whose ["trigger"] and
    ["propagate_to"] entries are replaced by normalised ones; those two are
    fields of the record and the rest is the raw mapping.  A [load] that raises
    gives no engine. *)

From Stdlib Require Import Ascii.
From S2P Require Import Prelude PyVal Json PyText.
Local Open Scope string_scope.

Record edge := mkEdge { e_from : string; e_to : string; e_type : string }.

Record reference_edge := mkRefEdge {
  re_edge : edge;
  re_lane : pyval;
  re_pack : string
}.

Record rule_target := mkTarget { t_repo : string; t_fields : dict }.

Record rule := mkRule {
  r_trigger : string;
  r_propagate_to : list rule_target;
  r_fields : dict
}.

Abbreviation adjacency := (gmap string (list string)).

Record engine := mkEngine {
  _edges : list edge;
  _rules : list rule;
  _dep_levels : list (string * Z);
  _adjacency : adjacency;
  _reverse_adjacency : adjacency;
  _reference_edges : list reference_edge;
  _ref_adjacency : adjacency;
  _ref_reverse_adjacency : adjacency;
  _loaded : bool
}.

(** [PropagationEngine.__init__]. *)
Definition new_engine : engine := mkEngine [] [] [] ∅ ∅ [] ∅ ∅ false.

(** The files under the registry directory. *)
Record registry := mkRegistry {
  dependency_graph : pyval;
  edge_packs : list (string * pyval);
  change_propagation_rules : pyval
}.

(** [a[k]] of a [defaultdict(list)]. *)
Definition neighbours (k : string) (a : adjacency) : list string := default [] (a !! k).

(** [if x not in a[k]: a[k].append(x)]. *)
Definition add_once (k x : string) (a : adjacency) : adjacency :=
  let l := neighbours k a in
  <[k := if bool_decide (x ∈ l) then l else (l ++ [x])%list]> a.

Section text.
Context `{FloatRepr}.

Definition _normalize_repo_id (repo_id : pyval) : option string :=
  match repo_id with
  | PNone => None
  | v => Some (py_lower (replace_char "_" "-" (py_strip (py_str v))))
  end.

(** A truthy normalised id. *)
Definition nonempty_id (v : pyval) : option string :=
  match _normalize_repo_id v with
  | Some (String _ _ as s) => Some s
  | _ => None
  end.

(** ** Loading the edges *)

Definition add_edge (src dst : pyval) (edge_type : string) (e : engine) : engine :=
  match nonempty_id src, nonempty_id dst with
  | Some s, Some d =>
    mkEngine (_edges e ++ [mkEdge s d edge_type])%list (_rules e) (_dep_levels e)
      (add_once s d (_adjacency e)) (add_once d s (_reverse_adjacency e))
      (_reference_edges e) (_ref_adjacency e) (_ref_reverse_adjacency e) (_loaded e)
  | _, _ => e
  end.

Definition load_edge (e : engine) (v : pyval) : res engine :=
  if is_dict v then
    src ← py_get v "from" PNone;
    dst ← py_get v "to" PNone;
    t ← py_get v "type" (PStr "depends_on");
    Ok (add_edge src dst (py_str t) e)
  else Ok e.

Definition add_reference (src dst etype pack : string) (lane : pyval) (e : engine) : engine :=
  mkEngine (_edges e) (_rules e) (_dep_levels e) (_adjacency e) (_reverse_adjacency e)
    (_reference_edges e ++ [mkRefEdge (mkEdge src dst etype) lane pack])%list
    (add_once src dst (_ref_adjacency e)) (add_once dst src (_ref_reverse_adjacency e)) (_loaded e).

Definition load_pack_edge (as_dependency : bool) (pack : string) (e : engine) (v : pyval) : res engine :=
  if is_dict v then
    state ← py_get v "state" (PStr "active");
    let state := py_lower (py_str state) in
    if negb (String.eqb state "active" || String.eqb state "in_use") then Ok e
    else
      src ← py_get v "from" PNone;
      dst ← py_get v "to" PNone;
      match nonempty_id src, nonempty_id dst with
      | Some src, Some dst =>
        t ← py_get v "type" (PStr "depends_on");
        if as_dependency then Ok (add_edge (PStr src) (PStr dst) (py_str t) e)
        else
          lane ← py_get v "lane" PNone;
          Ok (add_reference src dst (py_str t) pack lane e)
      | _, _ => Ok e
      end
  else Ok e.

Definition load_pack (e : engine) (p : string * pyval) : res engine :=
  let (name, pack) := p in
  non_claims ← py_get pack "non_claims" PNone;
  disclaimed ← py_in_set "does_not_create_runtime_dependency" (py_or non_claims (PList []));
  edges ← py_get pack "edges" (PList []);
  edges ← py_iter edges;
  res_fold (load_pack_edge (negb disclaimed) name) e edges.

(** The name and the type of an entry of ["depends_on"] or ["dependents"]. *)
Definition dep_entry (dflt : string) (v : pyval) : res (pyval * string) :=
  if is_dict v then
    name ← py_get v "name" PNone;
    t ← py_get v "type" (PStr dflt);
    Ok (name, py_str t)
  else Ok (v, dflt).

Definition load_dependency (e : engine) (kv : string * pyval) : res engine :=
  let (repo_name, entry) := kv in
  match nonempty_id (PStr repo_name) with
  | Some repo =>
    if is_dict entry then
      depends_on ← py_get entry "depends_on" (PList []);
      depends_on ← py_iter depends_on;
      e ← res_fold (fun e dep =>
        nt ← dep_entry "depends_on" dep; Ok (add_edge (PStr repo) nt.1 nt.2 e)) e depends_on;
      dependents ← py_get entry "dependents" (PList []);
      dependents ← py_iter dependents;
      res_fold (fun e dependent =>
        nt ← dep_entry "dependent" dependent; Ok (add_edge nt.1 (PStr repo) nt.2 e)) e dependents
    else Ok e
  | None => Ok e
  end.

Definition set_level (level : Z) (e : engine) (repo_id : pyval) : engine :=
  match nonempty_id repo_id with
  | Some repo =>
    mkEngine (_edges e) (_rules e) (assoc_set repo level (_dep_levels e)) (_adjacency e) (_reverse_adjacency e)
      (_reference_edges e) (_ref_adjacency e) (_ref_reverse_adjacency e) (_loaded e)
  | None => e
  end.

Definition load_level (e : engine) (kv : string * pyval) : res engine :=
  let (level_str, repos) := kv in
  level ← (if String.eqb level_str "archived" then Ok (-1)%Z else py_int level_str);
  repos ← py_iter repos;
  Ok (foldl (set_level level) e repos).

(** ** Loading the rules *)

(** One entry of a rule's ["cascades"]. *)
Definition cascade_target (acc : list rule_target) (v : pyval) : res (list rule_target) :=
  if is_dict v then
    target ← py_get v "target" PNone;
    match nonempty_id target with
    | Some repo =>
      action ← py_get v "action" (PStr "notify");
      message ← py_get v "reason" (PStr "");
      auto_pr ← py_get v "auto_pr" (PBool false);
      pr_title ← py_get v "pr_title" (PStr "");
      Ok (acc ++ [mkTarget repo [("repo", PStr repo); ("action", action); ("message", message);
                                 ("auto_pr", auto_pr); ("pr_title", pr_title)]])%list
    | None => Ok acc
    end
  else Ok acc.

(** One entry of a rule's own ["propagate_to"]. *)
Definition explicit_target (acc : list rule_target) (v : pyval) : res (list rule_target) :=
  match v with
  | PDict d =>
    match nonempty_id (default PNone (assoc "repo" d)) with
    | Some repo => Ok (acc ++ [mkTarget repo (assoc_set "repo" (PStr repo) d)])%list
    | None => Ok acc
    end
  | _ => Ok acc
  end.

Definition rule_targets (v : pyval) : res (list rule_target) :=
  propagate_to ← py_get v "propagate_to" PNone;
  match propagate_to with
  | PNone =>
    cascades ← py_get v "cascades" (PList []);
    cascades ← py_iter cascades;
    res_fold cascade_target [] cascades
  | ts =>
    ts ← py_iter ts;
    res_fold explicit_target [] ts
  end.

Definition load_rule (acc : list rule) (v : pyval) : res (list rule) :=
  match v with
  | PDict d =>
    trigger ← py_get v "trigger" (PDict []);
    trigger_repo ← py_get trigger "repo" PNone;
    trigger_repo ← (match trigger_repo with PNone => py_get v "trigger_repo" PNone | t => Ok t end);
    match nonempty_id trigger_repo with
    | Some t =>
      targets ← rule_targets v;
      Ok (acc ++ [mkRule t targets d])%list
    | None => Ok acc
    end
  | _ => Ok acc
  end.

(** One entry of a legacy rule's ["automation"]. *)
Definition legacy_targets (message : pyval) (acc : list rule_target) (action : pyval) : res (list rule_target) :=
  if is_dict action then
    targets ← py_get action "targets" (PList []);
    targets ← py_iter targets;
    res_fold (fun acc target =>
      match nonempty_id target with
      | Some repo =>
        type ← py_get action "type" (PStr "notify");
        Ok (acc ++ [mkTarget repo [("repo", PStr repo); ("action", type); ("message", message);
                                   ("auto_pr", PBool false); ("pr_title", PStr "")]])%list
      | None => Ok acc
      end) acc targets
  else Ok acc.

Definition load_legacy_rule (acc : list rule) (kv : string * pyval) : res (list rule) :=
  let (repo_name, v) := kv in
  if is_dict v then
    on_main_merge ← py_get v "on_main_merge" (PDict []);
    match nonempty_id (PStr repo_name) with
    | Some trigger_repo =>
      if is_dict on_main_merge then
        automation ← py_get on_main_merge "automation" (PList []);
        automation ← py_iter automation;
        message ← py_get on_main_merge "trigger" (PStr "");
        targets ← res_fold (legacy_targets message) [] automation;
        max_cascade_depth ← py_get on_main_merge "max_cascade_depth" PNone;
        Ok (acc ++ [mkRule trigger_repo targets
                      [("id", PStr ("legacy-" +:+ trigger_repo)); ("max_cascade_depth", max_cascade_depth)]])%list
      else Ok acc
    | None => Ok acc
    end
  else Ok acc.

Definition load_rules (rules_raw : pyval) : res (list rule) :=
  rules ← py_get rules_raw "rules" (PList []);
  rules ← py_iter rules;
  acc ← res_fold load_rule [] rules;
  legacy ← py_get rules_raw "propagation_rules" (PDict []);
  legacy ← py_items legacy;
  res_fold load_legacy_rule acc legacy.

Definition pack_ltb (a b : string * pyval) : bool := String.ltb a.1 b.1.

(** [load]: the edges of the aggregate and the packs, the dependency entries,
    the levels and the rules.  Only the edge list is emptied first. *)
Definition load_graph (reg : registry) (e : engine) : res engine :=
  let e := mkEngine [] (_rules e) (_dep_levels e) (_adjacency e) (_reverse_adjacency e)
             (_reference_edges e) (_ref_adjacency e) (_ref_reverse_adjacency e) (_loaded e) in
  let dep_raw := dependency_graph reg in
  edges ← py_get dep_raw "edges" (PList []);
  edges ← py_iter edges;
  e ← res_fold load_edge e edges;
  e ← res_fold load_pack e (py_sort pack_ltb (edge_packs reg));
  dependencies ← py_get dep_raw "dependencies" (PDict []);
  dependencies ← py_items dependencies;
  e ← res_fold load_dependency e dependencies;
  levels ← py_get dep_raw "dependency_levels" (PDict []);
  levels ← py_items levels;
  res_fold load_level e levels.

Definition load (reg : registry) (e : engine) : res engine :=
  e ← load_graph reg e;
  rules ← load_rules (change_propagation_rules reg);
  Ok (mkEngine (_edges e) rules (_dep_levels e) (_adjacency e) (_reverse_adjacency e)
        (_reference_edges e) (_ref_adjacency e) (_ref_reverse_adjacency e) true).

Definition _ensure_loaded (reg : registry) (e : engine) : res engine :=
  if _loaded e then Ok e else load reg e.

(** ** Queries on a loaded engine *)

(** [_normalize_repo_id(repo_id) or repo_id]. *)
Definition lookup_id (repo_id : string) : string := default repo_id (nonempty_id (PStr repo_id)).

Definition dependencies_of (e : engine) (repo_id : string) : list string :=
  neighbours (lookup_id repo_id) (_adjacency e).

Definition dependents_of (e : engine) (repo_id : string) : list string :=
  neighbours (lookup_id repo_id) (_reverse_adjacency e).

Definition references_of (e : engine) (repo_id : string) : list string :=
  neighbours (lookup_id repo_id) (_ref_adjacency e).

Definition referrers_of (e : engine) (repo_id : string) : list string :=
  neighbours (lookup_id repo_id) (_ref_reverse_adjacency e).

Definition reference_edges (e : engine) : list reference_edge := _reference_edges e.

Definition dependency_level (e : engine) (repo_id : string) : option Z :=
  assoc (lookup_id repo_id) (_dep_levels e).

Definition get_rule (e : engine) (repo_id : string) : option rule :=
  match _normalize_repo_id (PStr repo_id) with
  | Some repo => List.find (fun r => String.eqb (r_trigger r) repo) (_rules e)
  | None => None
  end.

Definition all_rules (e : engine) : list rule := _rules e.

Definition all_graph_nodes (e : engine) : gset string :=
  list_to_set (map e_from (_edges e) ++ map e_to (_edges e))%list.

Definition level_ltb (a b : string * Z) : bool := (a.2 <? b.2)%Z.

Definition merge_order (e : engine) : list string :=
  map fst (List.filter (fun kv => (0 <=? kv.2)%Z) (py_sort level_ltb (_dep_levels e))).
End text.

(** ** Normalised ids *)

Section spaces.
Variable g : ascii -> ascii.
Hypothesis g_space : forall c, is_space (g c) = is_space c.

Lemma string_map_nil s : string_map g s = "" <-> s = "".
Proof. by destruct s. Qed.

Lemma lstrip_map s : lstrip (string_map g s) = string_map g (lstrip s).
Proof. induction s as [|c s IH]; simpl; [done|]. rewrite g_space. by destruct (is_space c). Qed.

Lemma rstrip_map s : rstrip (string_map g s) = string_map g (rstrip s).
Proof.
  induction s as [|c s IH]; simpl; [done|]. rewrite IH. destruct (rstrip s); simpl; [|done].
  rewrite g_space. by destruct (is_space c).
Qed.

Lemma py_strip_map s : py_strip (string_map g s) = string_map g (py_strip s).
Proof. unfold py_strip. by rewrite lstrip_map, rstrip_map. Qed.
End spaces.

Lemma rstrip_idem s : rstrip (rstrip s) = rstrip s.
Proof.
  induction s as [|c s IH]; simpl; [done|]. destruct (rstrip s) as [|d r] eqn:E.
  - destruct (is_space c) eqn:Ec; simpl; [done|by rewrite Ec].
  - cbn [rstrip] in IH |- *. by rewrite IH.
Qed.

(** A text that does not begin with a space. *)
Lemma lstrip_rstrip s : lstrip s = s -> lstrip (rstrip s) = rstrip s.
Proof.
  destruct s as [|c s]; simpl; [done|]. destruct (is_space c) eqn:Ec; intros Hs.
  - exfalso. assert (Hl : forall s, String.length (lstrip s) <= String.length s).
    { clear. induction s as [|c s IH]; simpl; [done|]. destruct (is_space c); simpl; lia. }
    specialize (Hl s). rewrite Hs in Hl. simpl in Hl. lia.
  - destruct (rstrip s); simpl; by rewrite Ec.
Qed.

Lemma lstrip_idem s : lstrip (lstrip s) = lstrip s.
Proof. induction s as [|c s IH]; simpl; [done|]. destruct (is_space c) eqn:Ec; [done|]. simpl. by rewrite Ec. Qed.

Lemma py_strip_idem s : py_strip (py_strip s) = py_strip s.
Proof. unfold py_strip. rewrite lstrip_rstrip by apply lstrip_idem. apply rstrip_idem. Qed.

Lemma string_map_map f g s : string_map f (string_map g s) = string_map (fun c => f (g c)) s.
Proof. induction s as [|c s IH]; simpl; congruence. Qed.

Lemma string_map_ext f g s : (forall c, f c = g c) -> string_map f s = string_map g s.
Proof. intros Hfg. induction s as [|c s IH]; simpl; congruence. Qed.

Definition id_char (c : ascii) : ascii := lower_char (if Ascii.eqb c "_" then "-"%char else c).

Lemma id_char_space c : is_space (id_char c) = is_space c.
Proof. by destruct c as [[] [] [] [] [] [] [] []]. Qed.

Lemma id_char_idem c : id_char (id_char c) = id_char c.
Proof. by destruct c as [[] [] [] [] [] [] [] []]. Qed.

Section ids.
Context `{FloatRepr}.

Lemma normalize_val v s : _normalize_repo_id v = Some s -> s = string_map id_char (py_strip (py_str v)).
Proof.
  assert (Hm : forall t, py_lower (replace_char "_" "-" t) = string_map id_char t).
  { intros t. unfold py_lower, replace_char. by rewrite string_map_map. }
  destruct v; unfold _normalize_repo_id; intros E; try discriminate; injection E as <-; apply Hm.
Qed.

Lemma normalize_str s : _normalize_repo_id (PStr s) = Some (string_map id_char (py_strip s)).
Proof.
  destruct (_normalize_repo_id (PStr s)) as [t|] eqn:E; [|done]. by rewrite (normalize_val _ _ E).
Qed.

Lemma normalize_idem v s : _normalize_repo_id v = Some s -> _normalize_repo_id (PStr s) = Some s.
Proof.
  intros ->%normalize_val. rewrite normalize_str, py_strip_map by apply id_char_space.
  rewrite py_strip_idem, string_map_map. f_equal. apply string_map_ext, id_char_idem.
Qed.

(** What an id stored in the graph looks like. *)
Definition is_id (s : string) : Prop := s <> "" /\ _normalize_repo_id (PStr s) = Some s.

Lemma nonempty_id_is_id v s : nonempty_id v = Some s -> is_id s.
Proof.
  unfold nonempty_id. destruct (_normalize_repo_id v) as [[|c t]|] eqn:E; try done.
  intros [= <-]. split; [done|]. by eapply normalize_idem.
Qed.

Lemma lookup_id_is_id s : is_id s -> lookup_id s = s.
Proof.
  intros [Hne Hs]. unfold lookup_id, nonempty_id. rewrite Hs. by destruct s.
Qed.
End ids.

Lemma levels_sorted l : StronglySorted (not_after level_ltb) (py_sort level_ltb l).
Proof.
  apply py_sort_StronglySorted; unfold not_after, level_ltb; intros *; rewrite ?Z.ltb_ge, ?Z.ltb_lt; lia.
Qed.

(** ** The two directions of the graph agree *)

(** Both dictionaries list exactly the given pairs, without repetition. *)
Definition mirror (adj radj : adjacency) (pairs : list (string * string)) : Prop :=
  forall s d, (d ∈ neighbours s adj <-> (s, d) ∈ pairs) /\ (s ∈ neighbours d radj <-> (s, d) ∈ pairs) /\
              NoDup (neighbours s adj) /\ NoDup (neighbours d radj).

Lemma neighbours_add_once k x k' a :
  neighbours k' (add_once k x a)
  = if decide (k' = k) then (if bool_decide (x ∈ neighbours k a) then neighbours k a else neighbours k a ++ [x])%list
    else neighbours k' a.
Proof.
  unfold add_once, neighbours at 1. destruct (decide (k' = k)) as [->|Hne].
  - by rewrite lookup_insert_eq.
  - by rewrite lookup_insert_ne.
Qed.

Lemma elem_add_once k x k' y a :
  y ∈ neighbours k' (add_once k x a) <-> (k' = k /\ y = x) \/ y ∈ neighbours k' a.
Proof.
  rewrite neighbours_add_once. destruct (decide (k' = k)) as [->|Hne]; [|tauto].
  case_bool_decide as Hin.
  - split; [auto|]. by intros [[_ ->]|?].
  - rewrite elem_of_app, list_elem_of_singleton. tauto.
Qed.

Lemma NoDup_add_once k x k' a :
  NoDup (neighbours k' a) -> NoDup (neighbours k' (add_once k x a)).
Proof.
  rewrite neighbours_add_once. destruct (decide (k' = k)) as [->|Hne]; [|done].
  case_bool_decide as Hin; [done|]. intros Hnd. apply NoDup_app. split_and!; [done| |apply NoDup_singleton].
  intros y Hy ->%list_elem_of_singleton. done.
Qed.

Lemma mirror_empty : mirror ∅ ∅ [].
Proof.
  intros s d. unfold neighbours. rewrite !lookup_empty. simpl.
  split_and!; try (split; intros Hx; inversion Hx); constructor.
Qed.

Lemma mirror_add s d adj radj pairs :
  mirror adj radj pairs -> mirror (add_once s d adj) (add_once d s radj) (pairs ++ [(s, d)]).
Proof.
  intros Hm s' d'. destruct (Hm s' d') as (H1 & H2 & H3 & H4).
  rewrite !elem_add_once, elem_of_app, list_elem_of_singleton, H1, H2.
  split_and!; [| |by apply NoDup_add_once..]; split.
  all: try (intros [[-> ->]|?]; auto).
  all: intros [?|[= -> ->]]; auto.
Qed.

Section engine_lemmas.
Context `{FloatRepr}.

Definition pair_of (ed : edge) : string * string := (e_from ed, e_to ed).

Definition edge_ok (ed : edge) : Prop := is_id (e_from ed) /\ is_id (e_to ed).

Record graph_inv (e : engine) : Prop := mkInv {
  inv_dep : mirror (_adjacency e) (_reverse_adjacency e) (map pair_of (_edges e));
  inv_ref : mirror (_ref_adjacency e) (_ref_reverse_adjacency e) (map (fun r => pair_of (re_edge r)) (_reference_edges e));
  inv_ids : Forall edge_ok (_edges e);
  inv_ref_ids : Forall (fun r => edge_ok (re_edge r)) (_reference_edges e);
  inv_levels : NoDup (_dep_levels e).*1
}.

Lemma new_engine_inv : graph_inv new_engine.
Proof. split; simpl; try apply mirror_empty; constructor. Qed.

Lemma add_edge_inv src dst t e : graph_inv e -> graph_inv (add_edge src dst t e).
Proof.
  intros He. unfold add_edge. destruct (nonempty_id src) as [s|] eqn:Es; [|done].
  destruct (nonempty_id dst) as [d|] eqn:Ed; [|done]. destruct He as [Hd Hr Hi Hri Hlv].
  split; simpl; [|done| |done|done].
  - rewrite map_app. by apply mirror_add.
  - apply Forall_app. split; [done|]. repeat constructor; simpl; by eapply nonempty_id_is_id.
Qed.

Lemma add_reference_inv s d t pack lane e :
  is_id s -> is_id d -> graph_inv e -> graph_inv (add_reference s d t pack lane e).
Proof.
  intros Hs Hd' [Hd Hr Hi Hri Hlv]. split; simpl; [done| |done| |done].
  - rewrite map_app. by apply mirror_add.
  - apply Forall_app. split; [done|]. constructor; [by split|constructor].
Qed.

Lemma set_level_inv level e v : graph_inv e -> graph_inv (set_level level e v).
Proof.
  intros [Hd Hr Hi Hri Hlv]. unfold set_level.
  destruct (nonempty_id v); [|done]. split; try done. by apply NoDup_assoc_set.
Qed.

(** Follow a successful load to the engine it ends in. *)
Ltac follow H :=
  repeat first
    [ apply bind_Ok_inv in H as (? & ? & H)
    | progress cbn beta in H ].

Lemma load_edge_inv e v e' : graph_inv e -> load_edge e v = Ok e' -> graph_inv e'.
Proof.
  unfold load_edge. intros He Hl. destruct (is_dict v); [|by simplify_eq].
  follow Hl. injection Hl as <-. by apply add_edge_inv.
Qed.

Lemma load_pack_edge_inv dep pack e v e' : graph_inv e -> load_pack_edge dep pack e v = Ok e' -> graph_inv e'.
Proof.
  unfold load_pack_edge. intros He Hl. destruct (is_dict v); [|by simplify_eq]. follow Hl.
  destruct (negb _); [by simplify_eq|]. follow Hl.
  destruct (nonempty_id x0) as [s|] eqn:Es; [|by simplify_eq].
  destruct (nonempty_id x1) as [d|] eqn:Ed; [|by simplify_eq].
  follow Hl. destruct dep; [injection Hl as <-; by apply add_edge_inv|].
  follow Hl. injection Hl as <-. apply add_reference_inv; [by eapply nonempty_id_is_id..|done].
Qed.

Lemma load_pack_inv e p e' : graph_inv e -> load_pack e p = Ok e' -> graph_inv e'.
Proof.
  destruct p as [name pack]. unfold load_pack. intros He Hl. follow Hl.
  eapply (res_fold_inv graph_inv); [|exact He|exact Hl]. intros. by eapply load_pack_edge_inv.
Qed.

Lemma load_dependency_inv e kv e' : graph_inv e -> load_dependency e kv = Ok e' -> graph_inv e'.
Proof.
  destruct kv as [repo entry]. unfold load_dependency. intros He Hl.
  destruct (nonempty_id _) as [r|]; [|by simplify_eq]. destruct (is_dict entry); [|by simplify_eq].
  apply bind_Ok_inv in Hl as (v & _ & Hl). apply bind_Ok_inv in Hl as (deps & _ & Hl).
  apply bind_Ok_inv in Hl as (e1 & He1 & Hl). apply bind_Ok_inv in Hl as (v2 & _ & Hl).
  apply bind_Ok_inv in Hl as (dependents & _ & Hl).
  eapply (res_fold_inv graph_inv); [| |exact Hl].
  - intros x s1 s2 _ Hs Hx. cbn beta in Hx. follow Hx. injection Hx as <-. by apply add_edge_inv.
  - eapply (res_fold_inv graph_inv); [|exact He|exact He1].
    intros x s1 s2 _ Hs Hx. cbn beta in Hx. follow Hx. injection Hx as <-. by apply add_edge_inv.
Qed.

Lemma load_level_inv e kv e' : graph_inv e -> load_level e kv = Ok e' -> graph_inv e'.
Proof.
  destruct kv as [level repos]. unfold load_level. intros He Hl.
  apply bind_Ok_inv in Hl as (z & _ & Hl). apply bind_Ok_inv in Hl as (rs & _ & Hl). injection Hl as <-.
  clear -He. revert e He. induction rs as [|r rs IH]; intros e He; simpl; [done|].
  by apply IH, set_level_inv.
Qed.

Lemma load_graph_inv reg e : load_graph reg new_engine = Ok e -> graph_inv e.
Proof.
  unfold load_graph. intros Hl. apply bind_Ok_inv in Hl as (v1 & _ & Hl).
  apply bind_Ok_inv in Hl as (es & _ & Hl). apply bind_Ok_inv in Hl as (e1 & He1 & Hl).
  apply bind_Ok_inv in Hl as (e2 & He2 & Hl). apply bind_Ok_inv in Hl as (v3 & _ & Hl).
  apply bind_Ok_inv in Hl as (ds & _ & Hl). apply bind_Ok_inv in Hl as (e3 & He3 & Hl).
  apply bind_Ok_inv in Hl as (v4 & _ & Hl). apply bind_Ok_inv in Hl as (ls & _ & Hl).
  eapply (res_fold_inv graph_inv); [intros; by eapply load_level_inv| |exact Hl].
  eapply (res_fold_inv graph_inv); [intros; by eapply load_dependency_inv| |exact He3].
  eapply (res_fold_inv graph_inv); [intros; by eapply load_pack_inv| |exact He2].
  eapply (res_fold_inv graph_inv); [intros; by eapply load_edge_inv| |exact He1].
  apply new_engine_inv.
Qed.

Lemma load_inv reg e : load reg new_engine = Ok e -> graph_inv e.
Proof.
  unfold load. intros Hl. apply bind_Ok_inv in Hl as (e1 & He1 & Hl).
  apply bind_Ok_inv in Hl as (rs & _ & Hl). injection Hl as <-.
  apply load_graph_inv in He1 as [Hd Hr Hi Hri Hlv]. by split.
Qed.

(** Spelling does not matter to a query: any text that normalises to an id
    finds the id's entry. *)
Lemma lookup_id_idem s : lookup_id (lookup_id s) = lookup_id s.
Proof.
  unfold lookup_id at 2 3. destruct (nonempty_id (PStr s)) as [t|] eqn:E; simpl.
  - apply lookup_id_is_id. by eapply nonempty_id_is_id.
  - unfold lookup_id. by rewrite E.
Qed.

(** ** Properties *)

(** The loaded graph is the recorded one, seen from both ends.  After a
    load into a fresh engine, a repository is listed among the dependencies of
    another exactly when an edge between them was recorded, exactly then the
    other is listed among its dependents, no list has a repository twice, and
    the references of the lane packs that disclaim a dependency are kept in the
    same way but apart; all ids are in normal form, so that every spelling of an
    id gives the same answer. *)
Theorem load_mirrors_edges reg e s d :
  load reg new_engine = Ok e ->
  (d ∈ dependencies_of e s <-> exists t, mkEdge (lookup_id s) d t ∈ _edges e) /\
  (s ∈ dependents_of e d <-> exists t, mkEdge s (lookup_id d) t ∈ _edges e) /\
  (d ∈ references_of e s <-> exists r, r ∈ reference_edges e /\ pair_of (re_edge r) = (lookup_id s, d)) /\
  (s ∈ referrers_of e d <-> exists r, r ∈ reference_edges e /\ pair_of (re_edge r) = (s, lookup_id d)) /\
  NoDup (dependencies_of e s) /\ NoDup (dependents_of e d) /\
  Forall edge_ok (_edges e) /\ dependents_of e (lookup_id d) = dependents_of e d.
Proof.
  intros Hl. destruct (load_inv reg e Hl) as [Hd Hr Hi Hri Hlv].
  unfold dependencies_of, dependents_of, references_of, referrers_of, reference_edges.
  rewrite lookup_id_idem.
  destruct (Hd (lookup_id s) d) as (H1 & _ & H3 & _). destruct (Hd s (lookup_id d)) as (_ & H2 & _ & H4).
  destruct (Hr (lookup_id s) d) as (H5 & _). destruct (Hr s (lookup_id d)) as (_ & H6 & _).
  assert (Hex : forall a b, (a, b) ∈ map pair_of (_edges e) <-> exists t, mkEdge a b t ∈ _edges e).
  { intros a b. rewrite list_elem_of_fmap. split.
    - intros ([f t ty] & [= -> ->] & Hin). by exists ty.
    - intros [t Hin]. by exists (mkEdge a b t). }
  assert (Hrx : forall p, p ∈ map (fun r => pair_of (re_edge r)) (_reference_edges e)
                <-> exists r, r ∈ _reference_edges e /\ pair_of (re_edge r) = p).
  { intros p. rewrite list_elem_of_fmap. split; intros (r & ? & ?); exists r; auto. }
  split_and!; [by rewrite H1, Hex|by rewrite H2, Hex|by rewrite H5, Hrx|by rewrite H6, Hrx|done..].
Qed.

(** The merge order follows the levels.  It lists the repositories with a
    level that is not the archived one, each once, lower levels first. *)
Theorem merge_order_by_level reg e :
  load reg new_engine = Ok e ->
  NoDup (merge_order e) /\
  (forall repo, repo ∈ merge_order e <-> exists level, assoc repo (_dep_levels e) = Some level /\ (0 <= level)%Z) /\
  StronglySorted (fun a b => exists la lb,
    assoc a (_dep_levels e) = Some la /\ assoc b (_dep_levels e) = Some lb /\ (la <= lb)%Z) (merge_order e).
Proof.
  intros Hl. pose proof (inv_levels e (load_inv reg e Hl)) as Hnd.
  assert (Has : forall kv, kv ∈ _dep_levels e -> assoc kv.1 (_dep_levels e) = Some kv.2)
    by (intros [k z] Hin; by apply assoc_NoDup).
  assert (Hkeep : forall kv, kv ∈ List.filter (fun kv => (0 <=? kv.2)%Z) (py_sort level_ltb (_dep_levels e))
                  <-> kv ∈ _dep_levels e /\ (0 <= kv.2)%Z).
  { intros kv. rewrite elem_of_lfilter, elem_of_py_sort. by rewrite Z.leb_le. }
  unfold merge_order. split_and!.
  - apply (NoDup_map_lfilter fst). by rewrite py_sort_perm.
  - intros repo. rewrite list_elem_of_fmap. split.
    + intros ([k z] & -> & Hin). apply Hkeep in Hin as [Hin Hz]. exists z. split; [|done]. by apply Has in Hin.
    + intros (z & Ha & Hz). exists (repo, z). split; [done|]. apply Hkeep. split; [|done]. by apply assoc_elem.
  - apply (sorted_map_lfilter (not_after level_ltb) _ fst); [apply levels_sorted|]. intros a b. rewrite !elem_of_py_sort.
    intros Ha Hb Hn. exists a.2, b.2. split_and!; [by apply Has..|]. unfold not_after, level_ltb in Hn.
    by apply Z.ltb_ge in Hn.
Qed.
End engine_lemmas.

(** ** Witnesses *)

(** Two repositories that depend on a base, a lane pack that only refers, and
    levels with an archived repository. *)
Definition demo_registry : registry :=
  mkRegistry
    (PDict [("edges", PList [PDict [("from", PStr "App_One"); ("to", PStr "base")];
                             PDict [("from", PStr "tool"); ("to", PStr "app-one")]; PStr "noise"]);
            ("dependencies", PDict [("base", PDict [("dependents", PList [PStr "Tool"])])]);
            ("dependency_levels", PDict [("1", PList [PStr "app-one"; PStr "tool"]);
                                         ("archived", PList [PStr "old"]); ("0", PList [PStr "base"])])])
    [("lane-dependency-edges.yaml",
      PDict [("non_claims", PList [PStr "does_not_create_runtime_dependency"]);
             ("edges", PList [PDict [("from", PStr "base"); ("to", PStr "tool")];
                              PDict [("from", PStr "base"); ("to", PStr "x"); ("state", PStr "deferred")]])])]
    (PDict [("rules", PList [PDict [("id", PStr "base-rule"); ("trigger", PDict [("repo", PStr "base")]);
                                    ("propagate_to", PList [PDict [("repo", PStr "Docs"); ("action", PStr "trigger_ci")]]);
                                    ("max_cascade_depth", PInt 3)]])]).

Local Existing Instance demo_float_repr.

Definition demo_engine : engine :=
  match load demo_registry new_engine with Ok e => e | Raise _ => new_engine end.

Lemma load_mirrors_edges_witness :
  load demo_registry new_engine = Ok demo_engine /\
  "tool" ∈ dependents_of demo_engine "BASE" /\ "tool" ∈ references_of demo_engine "base".
Proof.
  assert (Hl : load demo_registry new_engine = Ok demo_engine) by (vm_compute; reflexivity).
  split; [exact Hl|].
  destruct (load_mirrors_edges demo_registry demo_engine "tool" "BASE" Hl) as (_ & Hd & _).
  destruct (load_mirrors_edges demo_registry demo_engine "base" "tool" Hl) as (_ & _ & Hr & _).
  split.
  - apply Hd. exists "dependent". apply list_elem_of_In. vm_compute. auto.
  - apply Hr. eexists. split; [apply list_elem_of_In; vm_compute; left; reflexivity|reflexivity].
Defined.

Lemma merge_order_by_level_witness :
  load demo_registry new_engine = Ok demo_engine /\
  merge_order demo_engine = ["base"; "app-one"; "tool"] /\ NoDup (merge_order demo_engine).
Proof.
  assert (Hl : load demo_registry new_engine = Ok demo_engine) by (vm_compute; reflexivity).
  split; [exact Hl|]. split; [vm_compute; reflexivity|].
  apply (merge_order_by_level demo_registry demo_engine Hl).
Defined.
