(* ===== verification/Cascade.v ===== *)
(** * Cascades and cycles

    Models [PropagationEngine.compute_cascade] and [detect_cycles] of
    [engines/propagation_engine.py] on a loaded engine.  The [while queue] loop
    of the cascade is a breadth-first search and the nested [dfs] a depth-first
    one; both run on a fuel that is shown never to run out.  [detect_cycles]
    starts from the nodes in the order a Python set lists them, which is an
    argument. *)

From S2P Require Import Prelude PyVal Json PyText PropagationEngine.
Local Open Scope string_scope.
Local Open Scope Z_scope.

(** ** Cascades *)

Record cascade_step := mkCascade {
  c_depth : Z;
  c_repo : string;
  c_action : pyval;
  c_message : pyval;
  c_auto_pr : pyval;
  c_pr_title : pyval;
  c_source_rule : pyval
}.

Definition field (k : string) (dflt : pyval) (d : dict) : pyval := default dflt (assoc k d).

(** The explicit or implied targets of the first level. *)
Definition seed_step (source_rule : pyval) (t : rule_target) : cascade_step :=
  mkCascade 1 (t_repo t) (field "action" (PStr "notify") (t_fields t)) (field "message" (PStr "") (t_fields t))
    (field "auto_pr" (PBool false) (t_fields t)) (field "pr_title" (PStr "") (t_fields t)) source_rule.

(** The visited set and the results so far, in the order they were found. *)
Abbreviation bfs_state := (gset string * list cascade_step)%type.

Definition seed_one (source_rule : pyval) (st : bfs_state) (t : rule_target) : bfs_state :=
  let (visited, results) := st in
  if String.eqb (t_repo t) "" || bool_decide (t_repo t ∈ visited) then (visited, results)
  else ({[t_repo t]} ∪ visited, (results ++ [seed_step source_rule t])%list).

Definition downstream_step (current : cascade_step) (downstream : string) : cascade_step :=
  mkCascade (c_depth current + 1) downstream (PStr "notify") (PStr ("Cascade from " +:+ c_repo current))
    (PBool false) (PStr "") (c_source_rule current).

Definition visit_one (current : cascade_step) (st : bfs_state * list cascade_step) (downstream : string) :
    bfs_state * list cascade_step :=
  let '((visited, results), queue) := st in
  if bool_decide (downstream ∈ visited) then st
  else
    let s := downstream_step current downstream in
    (({[downstream]} ∪ visited, (results ++ [s])%list), (queue ++ [s])%list).

(** The queue holds the steps still to expand: their repository, depth and rule. *)
Fixpoint cascade_loop (next : string -> list string) (max_depth : Z) (fuel : nat)
    (st : bfs_state) (queue : list cascade_step) : option (list cascade_step) :=
  match queue with
  | [] => Some st.2
  | current :: queue =>
    match fuel with
    | O => None
    | S fuel =>
      if max_depth <=? c_depth current then cascade_loop next max_depth fuel st queue
      else
        let (st, queue) := foldl (visit_one current) (st, queue) (next (c_repo current)) in
        cascade_loop next max_depth fuel st queue
    end
  end.

Definition depth_ltb (a b : cascade_step) : bool := c_depth a <? c_depth b.

Section engine.
Context `{FloatRepr}.
Variable e : engine.

Definition seed_targets (r : option rule) (changed_repo : string) : list rule_target :=
  let explicit := match r with Some r => r_propagate_to r | None => [] end in
  (explicit ++
   map (fun dep => mkTarget dep [("repo", PStr dep); ("action", PStr "notify");
                                 ("message", PStr (changed_repo +:+ " changed"))])
     (List.filter (fun dep => negb (existsb (fun t => String.eqb (t_repo t) dep) explicit))
        (dependents_of e changed_repo)))%list.

(** [min(max_depth, rule_max)] when the rule gives a number. *)
Definition depth_limit (r : option rule) (max_depth : Z) : Z :=
  match r with
  | Some r =>
    match field "max_cascade_depth" PNone (r_fields r) with
    | PInt z => Z.min max_depth z
    | PBool b => Z.min max_depth (if b then 1 else 0)
    | _ => max_depth
    end
  | None => max_depth
  end.

Definition source_rule_of (r : option rule) : pyval :=
  match r with
  | Some r => field "id" (PStr "dependency_graph") (r_fields r)
  | None => PStr "dependency_graph"
  end.

(** Every repository a reverse edge leads to: no more are ever queued after the seeds. *)
Definition all_dependents : gset string :=
  map_fold (fun _ l acc => list_to_set l ∪ acc) ∅ (_reverse_adjacency e).

Definition compute_cascade (changed_repo : string) (max_depth : Z) : option (list cascade_step) :=
  let changed_repo := lookup_id changed_repo in
  let r := get_rule e changed_repo in
  let (visited, results) :=
    foldl (seed_one (source_rule_of r)) ({[changed_repo]}, []) (seed_targets r changed_repo) in
  let fuel := (length results + size all_dependents)%nat in
  match cascade_loop (dependents_of e) (depth_limit r max_depth) fuel (visited, results) results with
  | Some results => Some (py_sort depth_ltb results)
  | None => None
  end.
End engine.

(** ** Breadth-first search

    The specification: walks from the changed repository, whose first step goes
    to a target and whose later steps go to a dependent. *)

Section bfs.
Variable next : string -> list string.
Variable start : string.
Variable targets : list rule_target.
Variable limit : Z.

Inductive walk : Z -> string -> Prop :=
| walk_target t : t ∈ targets -> t_repo t <> "" -> t_repo t <> start -> walk 1 (t_repo t)
| walk_next n q r : walk n q -> r ∈ next q -> r <> start -> walk (n + 1) r.

Definition shortest (d : Z) (r : string) : Prop := walk d r /\ forall n, walk n r -> d <= n.

Lemma walk_pos n r : walk n r -> 1 <= n.
Proof. induction 1; lia. Qed.

(** The visited set is the start and what was found, each once. *)
Record marked (st : bfs_state) : Prop := mkMarked {
  marked_elem r : r ∈ st.1 <-> r = start \/ r ∈ map c_repo st.2;
  marked_NoDup : NoDup (start :: map c_repo st.2)
}.

Lemma marked_add v rs s :
  marked (v, rs) -> c_repo s ∉ v -> marked ({[c_repo s]} ∪ v, (rs ++ [s])%list).
Proof.
  intros [He Hnd] Hs. simpl in *. split; simpl.
  - intros r. rewrite elem_of_union, elem_of_singleton, He, map_app, elem_of_app. simpl.
    rewrite list_elem_of_singleton. tauto.
  - rewrite map_app. simpl. rewrite app_comm_cons. apply NoDup_app. split_and!; [done| |apply NoDup_singleton].
    intros r Hr ->%list_elem_of_singleton. apply Hs, He. by apply elem_of_cons in Hr.
Qed.

(** The first level. *)
Lemma seeds_spec sr ts v rs v' rs' :
  marked (v, rs) -> foldl (seed_one sr) (v, rs) ts = (v', rs') ->
  marked (v', rs') /\
  (forall s, s ∈ rs' -> s ∈ rs \/ c_depth s = 1 /\ exists t, t ∈ ts /\ c_repo s = t_repo t /\ t_repo t <> "" /\ t_repo t <> start) /\
  (forall s, s ∈ rs -> s ∈ rs') /\
  (forall t, t ∈ ts -> t_repo t <> "" -> t_repo t <> start -> t_repo t ∈ map c_repo rs').
Proof.
  revert v rs; induction ts as [|t ts IH]; intros v rs Hm Hf; cbn [foldl] in Hf.
  { injection Hf as <- <-. split_and!; auto. by intros ? ?%not_elem_of_nil. }
  unfold seed_one at 2 in Hf. destruct (String.eqb_spec (t_repo t) "") as [He|He]; cbn [orb] in Hf.
  { destruct (IH _ _ Hm Hf) as (H1 & H2 & H3 & H4). split_and!; [done| |done|].
    - intros s Hs. destruct (H2 s Hs) as [?|(? & t' & ? & ?)]; [by left|right]. split; [done|].
      exists t'. split; [by right|done].
    - intros t' [->|Ht']%elem_of_cons; [done|auto]. }
  case_bool_decide as Hv.
  { destruct (IH _ _ Hm Hf) as (H1 & H2 & H3 & H4). split_and!; [done| |done|].
    - intros s Hs. destruct (H2 s Hs) as [?|(? & t' & ? & ?)]; [by left|right]. split; [done|].
      exists t'. split; [by right|done].
    - intros t' [->|Ht']%elem_of_cons Hne Hst; [|auto].
      apply (marked_elem _ Hm) in Hv as [?|Hin]; [done|]. simpl in Hin.
      apply list_elem_of_fmap in Hin as (s & -> & Hs). apply list_elem_of_fmap. eauto. }
  pose proof (marked_add v rs (seed_step sr t) Hm Hv) as Hm'.
  destruct (IH _ _ Hm' Hf) as (H1 & H2 & H3 & H4). split_and!; [done| | |].
  - intros s Hs. destruct (H2 s Hs) as [Hin|(? & t' & ? & ?)].
    + apply elem_of_app in Hin as [?| ->%list_elem_of_singleton]; [by left|right]. split; [done|].
      exists t. split_and!; [by left|done|done|]. intros E. apply Hv, (marked_elem _ Hm). auto.
    + right. split; [done|]. exists t'. split; [by right|done].
  - intros s Hs. apply H3. apply elem_of_app. auto.
  - intros t' [->|Ht']%elem_of_cons Hne Hst; [|auto].
    apply list_elem_of_fmap. exists (seed_step sr t). split; [done|]. apply H3. apply elem_of_app. right. by left.
Qed.

(** The dependents of one repository. *)
Lemma visit_spec c ns v rs q v' rs' q' :
  marked (v, rs) -> foldl (visit_one c) ((v, rs), q) ns = ((v', rs'), q') ->
  exists new, rs' = (rs ++ new)%list /\ q' = (q ++ new)%list /\ marked (v', rs') /\ v ⊆ v' /\
    Forall (fun s => c_depth s = c_depth c + 1 /\ c_repo s ∈ ns /\ c_repo s <> start) new /\
    (forall r, r ∈ ns -> r ∈ v').
Proof.
  revert v rs q; induction ns as [|r ns IH]; intros v rs q Hm Hf; cbn [foldl] in Hf.
  { injection Hf as <- <- <-. exists []. rewrite !app_nil_r. split_and!; try done. by intros ? ?%not_elem_of_nil. }
  unfold visit_one at 2 in Hf. case_bool_decide as Hv.
  { destruct (IH _ _ _ Hm Hf) as (new & -> & -> & H1 & H2 & H3 & H4). exists new.
    split_and!; try done.
    - eapply Forall_impl; [exact H3|]. intros s (? & ? & ?). split_and!; [done|by right|done].
    - intros r' [->|?]%elem_of_cons; auto. }
  pose proof (marked_add v rs (downstream_step c r) Hm Hv) as Hm'.
  destruct (IH _ _ _ Hm' Hf) as (new & -> & -> & H1 & H2 & H3 & H4).
  exists (downstream_step c r :: new). simpl in H2.
  split_and!; [by rewrite <- app_assoc|by rewrite <- app_assoc|done| | |].
  - etrans; [apply union_subseteq_r|exact H2].
  - constructor.
    + split_and!; [done|by left|]. simpl. intros ->. apply Hv, (marked_elem _ Hm). auto.
    + eapply Forall_impl; [exact H3|]. intros s (? & ? & ?). split_and!; [done|by right|done].
  - intros r' [->|?]%elem_of_cons; [|auto]. apply H2, elem_of_union_l, elem_of_singleton. done.
Qed.

(** Each repository queued is one fewer to visit. *)
Lemma visit_fuel (U : gset string) c ns v rs q v' rs' q' :
  (forall r, r ∈ ns -> r ∈ U) -> foldl (visit_one c) ((v, rs), q) ns = ((v', rs'), q') ->
  (length q' + size (U ∖ v') <= length q + size (U ∖ v))%nat.
Proof.
  revert v rs q; induction ns as [|r ns IH]; intros v rs q HU Hf; cbn [foldl] in Hf.
  { by injection Hf as <- <- <-. }
  unfold visit_one at 2 in Hf. assert (HU' : forall r, r ∈ ns -> r ∈ U) by (intros; apply HU; by right).
  case_bool_decide as Hv; specialize (IH _ _ _ HU' Hf); [done|].
  rewrite length_app in IH. simpl in IH.
  assert (Hsz : (S (size (U ∖ ({[r]} ∪ v))) <= size (U ∖ v))%nat).
  { apply subset_size. assert (r ∈ U) by (apply HU; by left). set_solver. }
  lia.
Qed.

Definition bound : Z := Z.max 1 limit.

(** What holds while the queue is worked off: [done] was expanded, [q] is the
    queue, and together they are the results. *)
Record explored (v : gset string) (done q : list cascade_step) : Prop := mkExplored {
  ex_marked : marked (v, (done ++ q)%list);
  ex_sorted : StronglySorted (fun a b => c_depth a <= c_depth b) (done ++ q);
  ex_close : match q with
             | [] => True
             | c :: _ => Forall (fun s => c_depth s <= c_depth c + 1) (done ++ q)
             end;
  ex_walk : Forall (fun s => walk (c_depth s) (c_repo s) /\ c_depth s <= bound) (done ++ q);
  ex_seeds t : t ∈ targets -> t_repo t <> "" -> t_repo t <> start ->
    exists s, s ∈ (done ++ q)%list /\ c_repo s = t_repo t /\ c_depth s <= 1;
  ex_done s r : s ∈ done -> c_depth s < limit -> r ∈ next (c_repo s) -> r <> start ->
    exists s', s' ∈ (done ++ q)%list /\ c_repo s' = r /\ c_depth s' <= c_depth s + 1
}.

Lemma sorted_head_le (c : cascade_step) q :
  StronglySorted (fun a b => c_depth a <= c_depth b) (c :: q) -> forall c' q', q = c' :: q' -> c_depth c <= c_depth c'.
Proof. intros Hs c' q' ->. inversion Hs as [|? ? _ Hf]; subst. by inversion Hf. Qed.

(** Dropping a step from the queue that is too deep to expand. *)
Lemma explored_skip v dn c q :
  explored v dn (c :: q) -> limit <= c_depth c -> explored v (dn ++ [c])%list q.
Proof.
  intros [H1 H2 H3 H4 H5 H6] Hc. pose proof H2 as Hs.
  assert (E : (dn ++ c :: q = (dn ++ [c]) ++ q)%list) by (by rewrite <- app_assoc).
  rewrite E in H1, H2, H3, H4, H5, H6. split; [done|done| |done|done|].
  - destruct q as [|c' q']; [done|]. eapply Forall_impl; [exact H3|]. intros s Hle.
    apply StronglySorted_app in Hs as (_ & _ & Hs).
    pose proof (sorted_head_le c (c' :: q') Hs c' q' eq_refl). simpl in *. lia.
  - intros s r [Hin| ->%list_elem_of_singleton]%elem_of_app Hd Hr Hst; [by eapply H6|lia].
Qed.

Lemma Forall_elem {A} (P : A -> Prop) l x : Forall P l -> x ∈ l -> P x.
Proof. rewrite Forall_forall. auto. Qed.

(** Expanding the step at the head of the queue. *)
Lemma explored_visit v dn c q v' rs' q' :
  explored v dn (c :: q) -> c_depth c < limit ->
  foldl (visit_one c) ((v, (dn ++ c :: q)%list), q) (next (c_repo c)) = ((v', rs'), q') ->
  rs' = ((dn ++ [c]) ++ q')%list /\ explored v' (dn ++ [c])%list q'.
Proof.
  intros [H1 H2 H3 H4 H5 H6] Hc Hf.
  destruct (visit_spec c _ _ _ _ _ _ _ H1 Hf) as (new & -> & -> & Hm & Hsub & Hnew & Hall).
  assert (Ers : ((dn ++ c :: q) ++ new = (dn ++ [c]) ++ q ++ new)%list) by (by rewrite <- !app_assoc).
  rewrite Ers in Hm |- *. split; [done|].
  assert (Hcin : c ∈ (dn ++ c :: q)%list) by (apply elem_of_app; right; by left).
  pose proof (Forall_elem _ _ _ H4 Hcin) as [Hcw _].
  rewrite Forall_forall in H3, H4, Hnew.
  assert (Hin : forall s, s ∈ (dn ++ c :: q)%list \/ s ∈ new <-> s ∈ ((dn ++ [c]) ++ q ++ new)%list)
    by (intros s; rewrite <- Ers; by rewrite (elem_of_app (dn ++ c :: q)%list new)).
  split.
  - done.
  - rewrite <- Ers. apply StronglySorted_app. split_and!; [|done|].
    + intros a b Ha Hb. destruct (Hnew b Hb) as [-> _]. by apply H3.
    + apply StronglySorted_all. intros a b Ha Hb. destruct (Hnew a Ha) as [-> _], (Hnew b Hb) as [-> _]. lia.
  - destruct (q ++ new)%list as [|c' qn] eqn:Eqn; [done|]. rewrite <- Eqn in *.
    assert (Hge : c_depth c <= c_depth c').
    { destruct q as [|c1 q1]; simpl in Eqn.
      - destruct (Hnew c') as [-> _]; [rewrite Eqn; by left|]. lia.
      - injection Eqn as <- _. apply StronglySorted_app in H2 as (_ & _ & H2). by eapply sorted_head_le. }
    apply Forall_forall. intros s [Hs|Hs]%Hin.
    + pose proof (H3 s Hs). simpl in *. lia.
    + destruct (Hnew s Hs) as [-> _]. lia.
  - apply Forall_forall. intros s [Hs|Hs]%Hin; [by apply H4|].
    destruct (Hnew s Hs) as (-> & Hr & Hst). split; [by eapply walk_next|]. unfold bound. lia.
  - intros t Ht Hne Hst. destruct (H5 t Ht Hne Hst) as (s & Hs & Es). exists s. split; [|done]. apply Hin. auto.
  - intros s r Hs Hd Hr Hst. apply elem_of_app in Hs as [Hs| ->%list_elem_of_singleton].
    + destruct (H6 s r Hs Hd Hr Hst) as (s' & Hs' & Es'). exists s'. split; [|done]. apply Hin. auto.
    + specialize (Hall r Hr). apply (marked_elem _ Hm) in Hall as [?|Hall]; [done|].
      apply list_elem_of_fmap in Hall as (s' & -> & Hs'). exists s'. split_and!; [done|done|].
      apply Hin in Hs' as [Hs'|Hs']; [by apply H3|]. destruct (Hnew s' Hs') as [-> _]. lia.
Qed.

(** With enough fuel the loop ends, and everything found has been expanded. *)
Lemma cascade_loop_spec (U : gset string) fuel v dn q :
  (forall s r, r ∈ next s -> r ∈ U) -> (length q + size (U ∖ v) <= fuel)%nat -> explored v dn q ->
  exists rs v', cascade_loop next limit fuel (v, (dn ++ q)%list) q = Some rs /\ explored v' rs [].
Proof.
  intros HU. revert v dn q; induction fuel as [|fuel IH]; intros v dn [|c q] Hf Hex; cbn [cascade_loop].
  - rewrite app_nil_r. by exists dn, v.
  - simpl in Hf. lia.
  - rewrite app_nil_r. by exists dn, v.
  - simpl in Hf. destruct (Z.leb_spec limit (c_depth c)) as [Hle|Hlt].
    + assert (E : (dn ++ c :: q = (dn ++ [c]) ++ q)%list) by (by rewrite <- app_assoc). rewrite E.
      apply IH; [lia|]. by apply explored_skip.
    + destruct (foldl _ _ _) as [[v' rs'] q'] eqn:Efold.
      destruct (explored_visit _ _ _ _ _ _ _ Hex Hlt Efold) as [-> Hex'].
      apply IH; [|done]. pose proof (visit_fuel U c _ _ _ _ _ _ _ (HU (c_repo c)) Efold). lia.
Qed.

Lemma explored_complete v rs n r :
  explored v rs [] -> walk n r -> n <= bound -> exists s, s ∈ rs /\ c_repo s = r /\ c_depth s <= n.
Proof.
  intros [_ _ _ _ H5 H6] Hw. rewrite app_nil_r in *.
  induction Hw as [t Ht Hne Hst|n q r Hw IH Hr Hst]; intros Hn; [by apply H5|].
  pose proof (walk_pos _ _ Hw). destruct IH as (s & Hs & <- & Hd); [lia|].
  destruct (H6 s r Hs) as (s' & Hs' & <- & Hd'); [unfold bound in Hn; lia|done|done|].
  exists s'. split_and!; [done|done|lia].
Qed.

(** The results are the shortest walks. *)
Lemma explored_shortest v rs d r :
  explored v rs [] -> (exists s, s ∈ rs /\ c_depth s = d /\ c_repo s = r) <-> shortest d r /\ d <= bound.
Proof.
  intros Hex. pose proof Hex as [H1 _ _ H4 _ _]. rewrite app_nil_r in *. rewrite Forall_forall in H4.
  pose proof (marked_NoDup _ H1) as Hnd. apply NoDup_cons in Hnd as [_ Hnd].
  split.
  - intros (s & Hs & <- & <-). destruct (H4 s Hs) as [Hw Hb]. split; [|done]. split; [done|].
    intros n Hn. destruct (Z.le_gt_cases n bound) as [Hle|]; [|lia].
    destruct (explored_complete v rs n _ Hex Hn Hle) as (s' & Hs' & Er & Hd).
    by assert (s' = s) as -> by (by eapply (NoDup_map_inj c_repo rs)).
  - intros [[Hw Hmin] Hb]. destruct (explored_complete v rs d r Hex Hw Hb) as (s & Hs & Er & Hd).
    exists s. split_and!; [done| |done]. destruct (H4 s Hs) as [Hw' _]. rewrite Er in Hw'.
    specialize (Hmin _ Hw'). lia.
Qed.
(** The search starts with the first level explored by nobody. *)
Lemma seeds_explored sr v rs :
  foldl (seed_one sr) ({[start]}, []) targets = (v, rs) -> explored v [] rs.
Proof.
  intros Ef. assert (Hm0 : marked ({[start]}, [])).
  { split; simpl; [|apply NoDup_singleton]. intros x. rewrite elem_of_singleton. split; [auto|].
    by intros [?|?%not_elem_of_nil]. }
  destruct (seeds_spec _ _ _ _ _ _ Hm0 Ef) as (Hm & Hsnd & _ & Hall).
  assert (Hd1 : forall s, s ∈ rs -> c_depth s = 1 /\ walk 1 (c_repo s)).
  { intros s Hs. destruct (Hsnd s Hs) as [?%not_elem_of_nil|(Hd & t & Ht & -> & Hne & Hst)]; [done|].
    split; [done|]. by apply walk_target. }
  split; simpl.
  - done.
  - apply StronglySorted_all. intros a b [-> _]%Hd1 [-> _]%Hd1. lia.
  - destruct rs as [|c rs']; [done|]. apply Forall_forall. intros s [-> _]%Hd1.
    destruct (Hd1 c) as [-> _]; [by left|lia].
  - apply Forall_forall. intros s Hs. destruct (Hd1 s Hs) as [-> Hw]. split; [done|]. unfold bound. lia.
  - intros t Ht Hne Hst. specialize (Hall t Ht Hne Hst). apply list_elem_of_fmap in Hall as (s & -> & Hs).
    exists s. split_and!; [done|done|]. destruct (Hd1 s Hs) as [-> _]. lia.
  - by intros ? ? ?%not_elem_of_nil.
Qed.
End bfs.

Section cascade.
Context `{FloatRepr}.
Variable e : engine.

Lemma dependents_bounded s r : r ∈ dependents_of e s -> r ∈ all_dependents e.
Proof.
  unfold dependents_of, all_dependents, neighbours.
  destruct (_reverse_adjacency e !! lookup_id s) as [l|] eqn:El; simpl; [|by intros ?%not_elem_of_nil].
  intros Hr. revert El. generalize (lookup_id s) as k. intros k.
  apply (map_fold_weak_ind (fun acc m => m !! k = Some l -> r ∈ acc)); [done|].
  intros k' l' m acc _ IH. destruct (decide (k = k')) as [->|Hne].
  - rewrite lookup_insert_eq. intros [= ->]. apply elem_of_union. left. by apply elem_of_list_to_set.
  - rewrite lookup_insert_ne by done. intros Hk. apply elem_of_union. right. auto.
Qed.

Lemma depths_sorted l : StronglySorted (not_after depth_ltb) (py_sort depth_ltb l).
Proof.
  apply py_sort_StronglySorted; unfold not_after, depth_ltb; intros *; rewrite ?Z.ltb_ge, ?Z.ltb_lt; lia.
Qed.

(** C6: a cascade reaches exactly the repositories it should, at their distance.
    Computing it always ends; it has a step for a repository at a depth exactly
    when the shortest way from the changed repository to it, first to a target
    of the rule or a dependent and then from dependents to dependents, has that
    length, and the length is within the limit (the first level is never cut);
    no repository is notified twice, the changed one never, and the steps come
    in the order of their depth. *)
Theorem cascade_is_shortest changed max_depth :
  let repo := lookup_id changed in
  let r := get_rule e repo in
  exists steps, compute_cascade e changed max_depth = Some steps /\
    (forall d x, (exists s, s ∈ steps /\ c_depth s = d /\ c_repo s = x) <->
       shortest (dependents_of e) repo (seed_targets e r repo) d x /\ d <= Z.max 1 (depth_limit r max_depth)) /\
    NoDup (repo :: map c_repo steps) /\
    StronglySorted (fun a b => c_depth a <= c_depth b) steps.
Proof.
  intros repo r. unfold compute_cascade. fold repo. fold r.
  destruct (foldl _ _ _) as [v rs] eqn:Ef.
  pose proof (seeds_explored (dependents_of e) repo (seed_targets e r repo) (depth_limit r max_depth) _ _ _ Ef) as Hex.
  destruct (cascade_loop_spec _ _ _ _ (all_dependents e) (length rs + size (all_dependents e))%nat v [] rs
              dependents_bounded ltac:(apply Nat.add_le_mono_l, subseteq_size; set_solver) Hex)
    as (res & v' & Hloop & Hfin).
  simpl in Hloop. rewrite Hloop. eexists. split; [reflexivity|]. split_and!.
  - intros d x. setoid_rewrite elem_of_py_sort. by eapply explored_shortest.
  - pose proof (marked_NoDup _ _ (ex_marked _ _ _ _ _ _ _ Hfin)) as Hnd. simpl in Hnd.
    rewrite app_nil_r in Hnd. by rewrite (py_sort_perm depth_ltb res).
  - pose proof (depths_sorted res) as Hs. unfold not_after, depth_ltb in Hs. 
    eapply StronglySorted_weaken; [|exact Hs]. intros a b. by rewrite Z.ltb_ge.
Qed.
End cascade.

Local Existing Instance demo_float_repr.

Example demo_cascade :
  option_map (map (fun s => (c_depth s, c_repo s))) (compute_cascade demo_engine "Base" 3)
  = Some [(1, "docs"); (1, "app-one"); (1, "tool")].
Proof. vm_compute. reflexivity. Qed.
