(* ===== verification/Cycles.v ===== *)
(** * Dependency cycles

    Models [PropagationEngine.detect_cycles] of [engines/propagation_engine.py].
    The nested [dfs] shares [visited], [stack], [path] and [cycles], which are
    the state; its recursion may use as many frames as the interpreter allows
    and raises beyond.  The order in which a Python set lists the nodes is an
    argument. *)

From S2P Require Import Prelude PyVal Json PyText PropagationEngine.
Local Open Scope string_scope.

Record dfs_state := mkDfs {
  d_visited : gset string;
  d_stack : gset string;
  d_path : list string;
  d_cycles : list (list string)
}.

(** [path[path.index(x):]]. *)
Fixpoint from_index (x : string) (path : list string) : res (list string) :=
  match path with
  | [] => Raise (ValueError "is not in list")
  | y :: path => if String.eqb y x then Ok (y :: path) else from_index x path
  end.

Definition enter (node : string) (st : dfs_state) : dfs_state :=
  mkDfs ({[node]} ∪ d_visited st) ({[node]} ∪ d_stack st) (d_path st ++ [node])%list (d_cycles st).

(** [stack.remove(node)] and [path.pop()]. *)
Definition leave (node : string) (st : dfs_state) : res dfs_state :=
  if bool_decide (node ∈ d_stack st) then
    Ok (mkDfs (d_visited st) (d_stack st ∖ {[node]}) (removelast (d_path st)) (d_cycles st))
  else Raise (KeyError node).

Definition report (neighbor : string) (st : dfs_state) : res dfs_state :=
  tail ← from_index neighbor (d_path st);
  let cycle := (tail ++ [neighbor])%list in
  Ok (if bool_decide (cycle ∈ d_cycles st) then st
      else mkDfs (d_visited st) (d_stack st) (d_path st) (d_cycles st ++ [cycle])%list).

Section dfs.
Variable adj : string -> list string.

(** The body of the loop over the neighbours. *)
Definition explore (dfs : string -> dfs_state -> res dfs_state) (st : dfs_state) (neighbor : string) :
    res dfs_state :=
  if bool_decide (neighbor ∉ d_visited st) then dfs neighbor st
  else if bool_decide (neighbor ∈ d_stack st) then report neighbor st
  else Ok st.

Fixpoint dfs (frames : nat) (node : string) (st : dfs_state) : res dfs_state :=
  match frames with
  | O => Raise (RuntimeError "maximum recursion depth exceeded")
  | S frames =>
    st ← res_fold (explore (dfs frames)) (enter node st) (adj node);
    leave node st
  end.

Definition visit_root (frames : nat) (st : dfs_state) (node : string) : res dfs_state :=
  if bool_decide (node ∉ d_visited st) then dfs frames node st else Ok st.
End dfs.

(** [nodes] is the listing of the set [all_graph_nodes]. *)
Definition detect_cycles (e : engine) (frames : nat) (nodes : list string) : res (list (list string)) :=
  st ← res_fold (visit_root (fun node => neighbours node (_adjacency e)) frames) (mkDfs ∅ ∅ [] []) nodes;
  Ok (d_cycles st).

(** ** Paths and cycles *)

Section cycles.
Variable adj : string -> list string.

(** Every element leads to the next. *)
Definition linked (l : list string) : Prop :=
  forall l1 a b l2, l = (l1 ++ a :: b :: l2)%list -> b ∈ adj a.

Definition is_cycle (c : list string) : Prop :=
  linked c /\ exists x l, c = (x :: l ++ [x])%list.

(** [successor v u]: [u] depends on [v]. *)
Definition successor (v u : string) : Prop := v ∈ adj u.

Lemma linked_app_r l1 l2 : linked (l1 ++ l2) -> linked l2.
Proof. intros Hl k a b l ->. apply (Hl (l1 ++ k)%list a b l). by rewrite app_assoc. Qed.

Lemma linked_app_l l1 l2 : linked (l1 ++ l2) -> linked l1.
Proof. intros Hl k a b l ->. apply (Hl k a b (l ++ l2)%list). by rewrite <- app_assoc. Qed.

Lemma linked_snoc l a b : linked (l ++ [a]) -> b ∈ adj a -> linked (l ++ [a; b]).
Proof.
  intros Hl Hb k x y m E. destruct m as [|z m] using rev_ind.
  - assert (E' : ((l ++ [a]) ++ [b] = (k ++ [x]) ++ [y])%list) by (by rewrite <- !app_assoc).
    apply app_inj_tail in E' as [E' ->]. by apply app_inj_tail in E' as [_ ->].
  - clear IHm. apply (Hl k x y m).
    assert (E' : ((l ++ [a]) ++ [b] = (k ++ x :: y :: m) ++ [z])%list) by (by rewrite <- !app_assoc).
    by apply app_inj_tail in E' as [-> _].
Qed.

Lemma linked_singleton a : linked [a].
Proof. intros [|? [|]] x y m E; by inversion E. Qed.

(** Along a linked list the first element reaches the last. *)
Lemma linked_tc x l y : linked (x :: l ++ [y]) -> tc (flip successor) x y.
Proof.
  revert x; induction l as [|z l IH]; intros x Hl.
  - apply tc_once. by apply (Hl [] x y []).
  - eapply tc_l; [by apply (Hl [] x z (l ++ [y])%list)|]. apply IH. by apply (linked_app_r [x]).
Qed.

Lemma cycle_not_acc c u l : is_cycle c -> c = (u :: l)%list -> ~ Acc successor u.
Proof.
  intros [Hl (x & m & Ec)] E Hacc. rewrite E in Ec. injection Ec as -> ->. rewrite E in Hl.
  pose proof (linked_tc x m x Hl) as Hc. clear -Hacc Hc.
  revert Hc. induction Hacc as [x _ IH]. intros Hc.
  inversion Hc as [? ? Hs|? y ? Hs Hr]; subst.
  - by apply (IH x Hs).
  - apply (IH y Hs). by eapply tc_r.
Qed.
End cycles.

(** ** The search *)

Section search.
Variable adj : string -> list string.

(** Between two steps of the search: the stack is the path, the path is linked
    and visited, what is reported are cycles, and as long as none is, no walk
    from a finished node goes on forever. *)
Record dfs_inv (st : dfs_state) : Prop := mkDfsInv {
  di_stack x : x ∈ d_stack st <-> x ∈ d_path st;
  di_NoDup : NoDup (d_path st);
  di_visited x : x ∈ d_path st -> x ∈ d_visited st;
  di_linked : linked adj (d_path st);
  di_cycles : Forall (is_cycle adj) (d_cycles st);
  di_finished u : d_cycles st = [] -> u ∈ d_visited st -> u ∉ d_path st -> Acc (successor adj) u
}.

(** What a part of the search does to the state it is given. *)
Record advances (st st' : dfs_state) : Prop := mkAdvances {
  ad_inv : dfs_inv st';
  ad_path : d_path st' = d_path st;
  ad_visited : d_visited st ⊆ d_visited st';
  ad_cycles : d_cycles st' = [] -> d_cycles st = []
}.

Lemma advances_refl st : dfs_inv st -> advances st st.
Proof. by split. Qed.

Lemma advances_trans st1 st2 st3 : advances st1 st2 -> advances st2 st3 -> advances st1 st3.
Proof. intros [? ? ? ?] [? ? ? ?]. split; [done|congruence|by etrans|auto]. Qed.

Lemma enter_inv node st :
  dfs_inv st -> node ∉ d_visited st ->
  (d_path st = [] \/ exists p u, d_path st = (p ++ [u])%list /\ node ∈ adj u) ->
  dfs_inv (enter node st).
Proof.
  intros [H1 H2 H3 H4 H5 H6] Hn Hlast. split; simpl.
  - intros x. rewrite elem_of_union, elem_of_singleton, H1, elem_of_app, list_elem_of_singleton. tauto.
  - apply NoDup_app. split_and!; [done| |apply NoDup_singleton].
    intros x Hx ->%list_elem_of_singleton. auto.
  - intros x. rewrite elem_of_app, list_elem_of_singleton, elem_of_union, elem_of_singleton. intros [Hx| ->]; auto.
  - destruct Hlast as [->|(p & u & Ep & Hu)]; [apply linked_singleton|]. rewrite Ep in H4 |- *.
    rewrite <- app_assoc. by apply linked_snoc.
  - done.
  - intros u Hc. rewrite elem_of_union, elem_of_singleton, elem_of_app, list_elem_of_singleton.
    intros [->|Hu] Hp; [tauto|]. apply H6; auto.
Qed.

Lemma from_index_spec x path :
  x ∈ path -> exists p1 p2, path = (p1 ++ x :: p2)%list /\ from_index x path = Ok (x :: p2).
Proof.
  induction path as [|y path IH]; [by intros ?%not_elem_of_nil|]. simpl.
  destruct (String.eqb_spec y x) as [->|Hne].
  - intros _. by exists [], path.
  - intros [->|Hx]%elem_of_cons; [done|]. destruct (IH Hx) as (p1 & p2 & -> & E).
    by exists (y :: p1), p2.
Qed.

Lemma report_spec node p neighbor st :
  dfs_inv st -> d_path st = (p ++ [node])%list -> neighbor ∈ adj node -> neighbor ∈ d_stack st ->
  exists st', report neighbor st = Ok st' /\ advances st st' /\ d_cycles st' <> [].
Proof.
  intros Hi Hp Hn Hs. pose proof Hi as [H1 H2 H3 H4 H5 H6].
  destruct (from_index_spec neighbor (d_path st)) as (p1 & p2 & Ep & Ef); [by apply H1|].
  unfold report. rewrite Ef. cbn [mbind res_bind].
  assert (Hc : is_cycle adj ((neighbor :: p2) ++ [neighbor])).
  { split; [|by exists neighbor, p2].
    assert (Hlast : exists q, (neighbor :: p2 = q ++ [node])%list).
    { destruct p2 as [|z p2] using rev_ind.
      - exists []. rewrite Hp in Ep. by apply app_inj_tail in Ep as [_ ->].
      - exists (neighbor :: p2). rewrite Hp in Ep.
        assert (E : (p ++ [node] = (p1 ++ neighbor :: p2) ++ [z])%list) by (by rewrite Ep, <- app_assoc).
        by apply app_inj_tail in E as [_ ->]. }
    destruct Hlast as [q Eq]. rewrite Eq, <- app_assoc. apply linked_snoc; [|done].
    rewrite <- Eq. rewrite Ep in H4. by apply linked_app_r in H4. }
  eexists. split; [reflexivity|]. case_bool_decide as Hin.
  - split; [by apply advances_refl|]. intros E. rewrite E in Hin. by apply not_elem_of_nil in Hin.
  - split; [|simpl; by destruct (d_cycles st)]. split; simpl; [|done|done|by destruct (d_cycles st)].
    split; simpl; [done..| |].
    + apply Forall_app. split; [done|]. by constructor.
    + intros u E. by destruct (d_cycles st).
Qed.

Lemma leave_spec node p st :
  dfs_inv st -> d_path st = (p ++ [node])%list ->
  (d_cycles st = [] -> forall v, v ∈ adj node -> Acc (successor adj) v) ->
  exists st', leave node st = Ok st' /\ dfs_inv st' /\ d_path st' = p /\
    d_visited st' = d_visited st /\ d_cycles st' = d_cycles st /\
    (d_cycles st = [] -> Acc (successor adj) node).
Proof.
  destruct st as [vis stk pth cs]. intros [H1 H2 H3 H4 H5 H6] Hp Hacc. simpl in *. subst pth.
  unfold leave. simpl. rewrite bool_decide_true; cycle 1.
  { apply H1, elem_of_app. right. by left. }
  rewrite removelast_last. apply NoDup_app in H2 as (Hnd & Hdis & _).
  assert (Hnode : cs = [] -> Acc (successor adj) node) by (intros; constructor; auto).
  eexists. split; [reflexivity|]. split; [|done]. split; simpl.
  - intros x. rewrite elem_of_difference, elem_of_singleton, H1, elem_of_app, list_elem_of_singleton.
    split; [tauto|]. intros Hx. split; [auto|]. intros ->. apply (Hdis node Hx). by left.
  - done.
  - intros x Hx. apply H3, elem_of_app. auto.
  - by apply linked_app_l in H4.
  - done.
  - intros u Hc Hu Hnp. destruct (decide (u = node)) as [->|Hne]; [auto|].
    apply H6; [done|done|]. rewrite elem_of_app, list_elem_of_singleton. tauto.
Qed.

(** The search from a node ends when the frames are at least the nodes not yet
    visited, and it finishes the node. *)
Definition finishes (U : gset string) (frames : nat) : Prop :=
  forall node st, node ∈ U -> dfs_inv st -> node ∉ d_visited st ->
  (d_path st = [] \/ exists p u, d_path st = (p ++ [u])%list /\ node ∈ adj u) ->
  (size (U ∖ d_visited st) <= frames)%nat ->
  exists st', dfs adj frames node st = Ok st' /\ advances st st' /\ node ∈ d_visited st' /\
    (d_cycles st' = [] -> Acc (successor adj) node).

Section closed.
Variable U : gset string.
Hypothesis HU : forall u v, v ∈ adj u -> v ∈ U.

Lemma explore_spec frames node p nb st :
  finishes U frames -> dfs_inv st -> d_path st = (p ++ [node])%list -> nb ∈ adj node ->
  (size (U ∖ d_visited st) <= frames)%nat ->
  exists st', explore (dfs adj frames) st nb = Ok st' /\ advances st st' /\
    (d_cycles st' = [] -> Acc (successor adj) nb).
Proof.
  intros IH Hi Hp Hnb Hsz. unfold explore. case_bool_decide as Hv.
  { destruct (IH nb st) as (st' & -> & Had & _ & Hacc); [by eapply HU|done|done|eauto|done|eauto]. }
  case_bool_decide as Hs.
  - destruct (report_spec node p nb st) as (st' & -> & Had & Hne); [done..|].
    exists st'. split_and!; [done|done|]. intros E. done.
  - exists st. split_and!; [done|by apply advances_refl|]. intros Hc.
    apply (di_finished _ Hi); [done|by destruct (decide (nb ∈ d_visited st))|]. by rewrite <- (di_stack _ Hi).
Qed.

Lemma explore_all_spec frames node p ns st :
  finishes U frames -> dfs_inv st -> d_path st = (p ++ [node])%list -> (forall v, v ∈ ns -> v ∈ adj node) ->
  (size (U ∖ d_visited st) <= frames)%nat ->
  exists st', res_fold (explore (dfs adj frames)) st ns = Ok st' /\ advances st st' /\
    (d_cycles st' = [] -> forall v, v ∈ ns -> Acc (successor adj) v).
Proof.
  intros IH. revert st; induction ns as [|nb ns IHn]; intros st Hi Hp Hns Hsz.
  { exists st. split_and!; [done|by apply advances_refl|by intros _ ? ?%not_elem_of_nil]. }
  destruct (explore_spec frames node p nb st IH Hi Hp) as (st2 & E2 & Had2 & Hacc2); [apply Hns; by left|done|].
  destruct (IHn st2) as (st3 & E3 & Had3 & Hacc3).
  - apply Had2.
  - by rewrite (ad_path _ _ Had2).
  - intros; apply Hns; by right.
  - etrans; [|exact Hsz]. apply subseteq_size. pose proof (ad_visited _ _ Had2). set_solver.
  - exists st3. split_and!; [cbn [res_fold]; rewrite E2; exact E3|by eapply advances_trans|].
    intros Hc v [->|Hv]%elem_of_cons; [|auto]. apply Hacc2. by apply Had3.
Qed.

Lemma dfs_spec frames : finishes U frames.
Proof.
  induction frames as [|frames IH]; intros node st Hnode Hi Hn Hlast Hsz.
  { exfalso. assert (size (U ∖ d_visited st) = 0%nat) as Hz by lia.
    apply size_empty_inv in Hz. assert (node ∈ U ∖ d_visited st) by set_solver. set_solver. }
  cbn [dfs]. pose proof (enter_inv node st Hi Hn Hlast) as Hi1.
  assert (Hsz1 : (size (U ∖ ({[node]} ∪ d_visited st)) < size (U ∖ d_visited st))%nat)
    by (apply subset_size; set_solver).
  destruct (explore_all_spec frames node (d_path st) (adj node) (enter node st) IH Hi1)
    as (st2 & -> & Had2 & Hacc); [done|done|simpl; lia|].
  cbn [mbind res_bind]. pose proof (ad_path _ _ Had2) as Hp2. simpl in Hp2.
  destruct (leave_spec node (d_path st) st2) as (st3 & -> & Hi3 & Hp3 & Hv3 & Hc3 & Hacc3);
    [apply Had2|done|done|].
  pose proof (ad_visited _ _ Had2) as Hsub. simpl in Hsub. exists st3. split_and!; [done| | |].
  - split; [done|done| |]; [rewrite Hv3; set_solver|]. rewrite Hc3. intros Hc. by apply (ad_cycles _ _ Had2) in Hc.
  - rewrite Hv3. set_solver.
  - rewrite Hc3. auto.
Qed.

(** The loop over all nodes. *)
Lemma roots_spec frames nodes st :
  dfs_inv st -> d_path st = [] -> (forall n, n ∈ nodes -> n ∈ U) -> (size U <= frames)%nat ->
  exists st', res_fold (visit_root adj frames) st nodes = Ok st' /\ advances st st' /\
    (forall n, n ∈ nodes -> n ∈ d_visited st').
Proof.
  revert st; induction nodes as [|n nodes IH]; intros st Hi Hp Hnodes Hsz.
  { exists st. split_and!; [done|by apply advances_refl|by intros ? ?%not_elem_of_nil]. }
  assert (Hstep : exists st1, visit_root adj frames st n = Ok st1 /\ advances st st1 /\ n ∈ d_visited st1).
  { unfold visit_root. case_bool_decide as Hv.
    - destruct (dfs_spec frames n st) as (st1 & -> & Had & Hin & _); [apply Hnodes; by left|done|done|auto| |eauto].
      etrans; [|exact Hsz]. apply subseteq_size. set_solver.
    - exists st. split_and!; [done|by apply advances_refl|by destruct (decide (n ∈ d_visited st))]. }
  destruct Hstep as (st1 & E1 & Had1 & Hin1). cbn [res_fold]. rewrite E1. cbn [mbind res_bind].
  destruct (IH st1) as (st2 & -> & Had2 & Hall).
  - apply Had1.
  - by rewrite (ad_path _ _ Had1).
  - intros; apply Hnodes; by right.
  - done.
  - exists st2. split_and!; [done|by eapply advances_trans|].
    intros m [->|Hm]%elem_of_cons; [by apply (ad_visited _ _ Had2)|auto].
Qed.
End closed.
End search.

(** ** Properties *)

Section detect.
Context `{FloatRepr}.

Lemma neighbour_is_node e s d : graph_inv e -> d ∈ neighbours s (_adjacency e) ->
  s ∈ all_graph_nodes e /\ d ∈ all_graph_nodes e.
Proof.
  intros Hi Hd. destruct (inv_dep e Hi s d) as (Hd' & _). apply Hd' in Hd.
  apply list_elem_of_fmap in Hd as ([f t ty] & [= -> ->] & Hin).
  unfold all_graph_nodes. rewrite !elem_of_list_to_set, !elem_of_app, !list_elem_of_fmap.
  split; [left|right]; by exists (mkEdge f t ty).
Qed.

(** C9: cycle detection is sound and complete.  On a loaded graph, with at least
    as many frames as repositories, it returns whatever order the nodes are
    listed in; every list it reports is a cycle of the dependency graph, and it
    reports none exactly when no chain of dependencies goes on forever. *)
Theorem detect_cycles_correct reg e frames nodes :
  load reg new_engine = Ok e -> (forall n, n ∈ nodes <-> n ∈ all_graph_nodes e) ->
  (size (all_graph_nodes e) <= frames)%nat ->
  exists cycles, detect_cycles e frames nodes = Ok cycles /\
    Forall (is_cycle (fun n => neighbours n (_adjacency e))) cycles /\
    (cycles = [] <-> well_founded (successor (fun n => neighbours n (_adjacency e)))).
Proof.
  intros Hl Hnodes Hsz. pose proof (load_inv reg e Hl) as Hi. unfold detect_cycles.
  set (adj := fun n => neighbours n (_adjacency e)).
  assert (Hi0 : dfs_inv adj (mkDfs ∅ ∅ [] [])).
  { split; simpl; [set_solver|constructor|set_solver| |constructor|set_solver]. by intros [|] ? ? ? ?. }
  destruct (roots_spec adj (all_graph_nodes e)) with (frames := frames) (nodes := nodes) (st := mkDfs ∅ ∅ [] [])
    as (st & -> & Had & Hall); [|done|done|by intros; apply Hnodes|done|].
  { intros u v Hv. by destruct (neighbour_is_node e u v Hi Hv). }
  cbn [mbind res_bind]. exists (d_cycles st). split; [done|]. split; [apply (ad_inv _ _ _ Had)|]. split.
  - intros Hc u. destruct (decide (u ∈ all_graph_nodes e)) as [Hu|Hu].
    + apply (di_finished _ _ (ad_inv _ _ _ Had) u Hc); [by apply Hall, Hnodes|].
      rewrite (ad_path _ _ _ Had). apply not_elem_of_nil.
    + constructor. intros v Hv. by destruct (neighbour_is_node e u v Hi Hv).
  - intros Hwf. pose proof (di_cycles _ _ (ad_inv _ _ _ Had)) as Hcs.
    destruct (d_cycles st) as [|c cs]; [done|]. inversion Hcs as [|? ? Hc _]; subst.
    pose proof Hc as [_ (x & l & E)]. by destruct (cycle_not_acc adj c x (l ++ [x])%list Hc E).
Qed.
End detect.

(** ** Witnesses *)

Local Existing Instance demo_float_repr.

(** The demonstration graph has no cycle; adding a dependency of the base on
    the tool closes one. *)
Definition cyclic_registry : registry :=
  mkRegistry
    (PDict [("edges", PList [PDict [("from", PStr "app"); ("to", PStr "base")];
                             PDict [("from", PStr "tool"); ("to", PStr "app")];
                             PDict [("from", PStr "base"); ("to", PStr "tool")]])])
    [] (PDict []).

Definition cyclic_engine : engine :=
  match load cyclic_registry new_engine with Ok e => e | Raise _ => new_engine end.

Example cyclic_engine_cycles :
  detect_cycles cyclic_engine 3 ["app"; "tool"; "base"] = Ok [["app"; "base"; "tool"; "app"]].
Proof. vm_compute. reflexivity. Qed.

Lemma detect_cycles_correct_witness :
  exists cycles, detect_cycles demo_engine 3 (elements (all_graph_nodes demo_engine)) = Ok cycles /\
    Forall (is_cycle (fun n => neighbours n (_adjacency demo_engine))) cycles /\
    (cycles = [] <-> well_founded (successor (fun n => neighbours n (_adjacency demo_engine)))).
Proof.
  apply (detect_cycles_correct demo_registry demo_engine 3 (elements (all_graph_nodes demo_engine))).
  - vm_compute. reflexivity.
  - intros n. apply elem_of_elements.
  - vm_compute. repeat constructor.
Defined.
