(* ===== verification/Propagate.v ===== *)
(** * Acting on a cascade

    Models the acting half of [engines/propagation_engine.py]: the three verbs
    of the source-code host, [_dispatch] and [propagate].  What the program can
    reach, the [gh] process and the Gitea server, is a world of any type with two
    functions on it; an answer comes with what [json.loads] makes of its text.
    The module constants read from the environment are a record.  An operation
    returns or raises and leaves a world in both cases.  Timestamps are one
    argument; what is printed is left out. *)

From Stdlib Require Import Ascii SpecFloat.
From S2P Require Import Prelude PyVal Json PyText PropagationEngine Cascade.
Local Open Scope string_scope.

(** ** Operations on a world *)

Definition io (W A : Type) : Type := W -> res A * W.

#[global] Instance io_ret {W} : MRet (io W) := fun A a w => (Ok a, w).
#[global] Instance io_bind {W} : MBind (io W) := fun A B f m w =>
  match m w with (Ok a, w) => f a w | (Raise e, w) => (Raise e, w) end.

Definition lift {W A} (m : res A) : io W A := fun w => (m, w).

Fixpoint io_map {W A B} (f : A -> io W B) (l : list A) : io W (list B) :=
  match l with
  | [] => mret []
  | x :: l => y ← f x; ys ← io_map f l; mret (y :: ys)
  end.

(** ** Pure helpers *)

Definition get_dependents_name `{FloatRepr} (d : pyval) : res pyval :=
  if is_dict d then py_get d "name" PNone else Ok (PStr (py_str d)).

Definition get_dependents `{FloatRepr} (repo_name : string) (dep_graph : pyval) : res (list pyval) :=
  dependencies ← py_get dep_graph "dependencies" (PDict []);
  entry ← py_get dependencies repo_name (PDict []);
  deps ← py_get entry "dependents" (PList []);
  deps ← py_iter deps;
  names ← res_map get_dependents_name deps;
  Ok (List.filter (fun name => truthy name && negb (eq_str name "all-repos")) names).

Definition get_propagation_rules (repo_name : string) (rules : pyval) : res pyval :=
  pr ← py_get rules "propagation_rules" (PDict []);
  r ← py_get pr repo_name (PDict []);
  py_get r "on_main_merge" (PDict []).

Definition simulate_automation (now : string) (action_type : pyval) (targets : list string) (repo : string) : dict :=
  [("action", action_type); ("targets", PList (map PStr targets)); ("triggered_by", PStr repo);
   ("status", PStr "simulated"); ("timestamp", PStr now)].

(** ** The source-code host *)

Record config := mkConfig {
  ORG : string;
  ALLOW_DISPATCH : bool;
  SCM_BACKEND : string;
  GITEA_URL : string;
  GITEA_TOKEN : string
}.

Record process := mkProcess { returncode : Z; stdout : string; stderr : string; stdout_json : option pyval }.

(** A return code, the text of the answer, and its JSON value if it has one. *)
Record reply := mkReply { rc : Z; out : string; out_json : option pyval }.

Definition PROPAGATION_MARKER : string := "<!-- sociosphere:propagation -->".

Section host.
Context {W : Type}.
Context `{FloatRepr}.
Variable cfg : config.
Variable run_gh : list string -> W -> process * W.
Variable http : string -> string -> option pyval -> W -> reply * W.

Definition _gh (args : list string) (check : bool) : io W reply := fun w =>
  let (p, w) := run_gh ("gh" :: args) w in
  (Ok (if check && negb (returncode p =? 0)%Z then mkReply (returncode p) (py_strip (stderr p)) None
       else mkReply (returncode p) (py_strip (stdout p)) (stdout_json p)), w).

Definition _gitea (method path : string) (payload : option pyval) : io W reply := fun w =>
  if String.eqb (GITEA_URL cfg) "" || String.eqb (GITEA_TOKEN cfg) "" then
    (Ok (mkReply 1 ("SCM_BACKEND=gitea but GITEA_URL/GITEA_TOKEN are unset; refusing to " +:+
                    "report an empty result that would look like 'nothing found'") None), w)
  else let (r, w) := http method (GITEA_URL cfg +:+ "/api/v1" +:+ path) payload w in (Ok r, w).

Definition scm_open_issue_titles (repo : string) : io W (option (list pyval)) :=
  r ← (if String.eqb (SCM_BACKEND cfg) "gitea"
       then _gitea "GET" ("/repos/" +:+ ORG cfg +:+ "/" +:+ repo +:+ "/issues?state=open&limit=50") None
       else _gh ["issue"; "list"; "--repo"; ORG cfg +:+ "/" +:+ repo; "--state"; "open";
                 "--json"; "title"; "--limit"; "50"] false);
  if negb (rc r =? 0)%Z || String.eqb (out r) "" then mret None
  else match out_json r with
       | None => mret None
       | Some v =>
         titles ← lift (l ← py_iter v; res_map (fun i => py_get i "title" (PStr "")) l);
         mret (Some titles)
       end.

Definition scm_create_issue (repo title body : string) : io W reply :=
  if String.eqb (SCM_BACKEND cfg) "gitea"
  then _gitea "POST" ("/repos/" +:+ ORG cfg +:+ "/" +:+ repo +:+ "/issues")
         (Some (PDict [("title", PStr title); ("body", PStr body)]))
  else _gh ["issue"; "create"; "--repo"; ORG cfg +:+ "/" +:+ repo; "--title"; title; "--body"; body] false.

Definition scm_dispatch (repo : string) (payload : list (string * string)) : io W reply :=
  if String.eqb (SCM_BACKEND cfg) "gitea"
  then mret (mkReply 1 ("gitea has no repository_dispatch equivalent; convert the rule to " +:+
                        "`notify` or run the target's workflow directly") None)
  else _gh (["api"; "repos/" +:+ ORG cfg +:+ "/" +:+ repo +:+ "/dispatches"; "-X"; "POST";
             "-f"; "event_type=sociosphere-propagation"]
            ++ flat_map (fun kv => ["-f"; "client_payload[" +:+ kv.1 +:+ "]=" +:+ kv.2])
                 (py_sort key_ltb payload))%list false.

Inductive existing := Unknown | Duplicate | Absent.

Definition _existing_issue (target title : string) : io W existing :=
  titles ← scm_open_issue_titles target;
  mret (match titles with
        | None => Unknown
        | Some titles => if existsb (fun t => eq_str t title) titles then Duplicate else Absent
        end).

(** ** Acting on one step *)

Definition issue_title (step : cascade_step) (source : string) : string :=
  "[propagation] " +:+ source +:+ " changed — " +:+ py_str (c_source_rule step).

Definition NL : string := String "010" "".

Definition issue_body (step : cascade_step) (source ref : string) : string :=
  PROPAGATION_MARKER +:+ NL +:+ NL +:+ py_str (c_message step) +:+ NL +:+ NL +:+ "---" +:+ NL +:+
  "- source: `" +:+ source +:+ "` @ `" +:+ ref +:+ "`" +:+ NL +:+
  "- rule: `" +:+ py_str (c_source_rule step) +:+ "` (depth " +:+ pretty (c_depth step) +:+ ")" +:+ NL +:+
  (if truthy (c_auto_pr step) then
     "- the rule requests an automatic PR (`" +:+ py_str (c_pr_title step) +:+ "`); this " +:+
     "notification does not open one, because the required change is repo-specific" +:+ NL
   else "") +:+
  NL +:+ "Opened automatically by sociosphere change propagation.".

Definition step_result (step : cascade_step) (rest : dict) : dict :=
  ([("repo", PStr (c_repo step)); ("action", c_action step); ("rule", c_source_rule step);
    ("depth", PInt (c_depth step))] ++ rest)%list.

Definition _dispatch (step : cascade_step) (source ref : string) : io W dict :=
  let result := step_result step in
  if eq_str (c_action step) "trigger_ci" then
    if negb (ALLOW_DISPATCH cfg) then
      mret (result [("status", PStr "blocked_no_dispatch");
                    ("detail", PStr ("trigger_ci needs Contents: Write on the target; refused because " +:+
                       "PROPAGATION_ALLOW_DISPATCH is not set. Change the rule to `notify` if " +:+
                       "an issue is enough, or set the flag deliberately."))])
    else
      r ← scm_dispatch (c_repo step) [("source_repo", source); ("rule", py_str (c_source_rule step)); ("ref", ref)];
      mret (result (if (rc r =? 0)%Z then [("status", PStr "dispatched")]
                    else [("status", PStr "failed"); ("error", PStr (out r))]))
  else
    let title := issue_title step source in
    e ← _existing_issue (c_repo step) title;
    match e with
    | Unknown => mret (result [("status", PStr "skipped_lookup_failed");
        ("detail", PStr ("could not list open issues, so a duplicate cannot be ruled " +:+
                         "out; skipping rather than risking a repeat notification"))])
    | Duplicate => mret (result [("status", PStr "already_open")])
    | Absent =>
      r ← scm_create_issue (c_repo step) title (issue_body step source ref);
      mret (result [("status", PStr (if (rc r =? 0)%Z then "notified" else "failed")); ("detail", PStr (out r))])
    end.

(** ** The whole run *)

Definition DEFAULT_DISPATCH_DEPTH : Z := 1.

(** What happens to one step of the cascade. *)
Definition act_on (now repo_name ref : string) (execute : bool) (dispatch_depth : Z) (step : cascade_step) :
    io W dict :=
  if (dispatch_depth <? c_depth step)%Z then mret (step_result step [("status", PStr "computed_not_sent")])
  else if execute then _dispatch step repo_name ref
  else if eq_str (c_action step) "trigger_ci" && negb (ALLOW_DISPATCH cfg) then
    mret (step_result step [("status", PStr "blocked_no_dispatch")])
  else mret (simulate_automation now (c_action step) [c_repo step] repo_name).

Definition has_failed (action : dict) : bool := eq_str (field "status" PNone action) "failed".

Definition max_notification_depth (rules_raw : pyval) : res Z :=
  policy ← py_get rules_raw "cascade_policy" PNone;
  d ← py_get (py_or policy (PDict [])) "max_notification_depth" (PInt 3);
  py_int_of d.

(** The event of a run, as far as it is known before acting. *)
Definition event_head (e : engine) (now repo_name ref : string) (dependents : list pyval)
    (steps : list cascade_step) (execute : bool) : dict :=
  [("repo", PStr repo_name); ("ref", PStr ref); ("timestamp", PStr now); ("dependents", PList dependents);
   ("references", PList (map PStr (referrers_of e repo_name))); ("cascade_steps", PInt (Z.of_nat (length steps)));
   ("executed", PBool execute)].

(** [propagate]: the exit code and the events it appends to the log. *)
Definition propagate (reg : registry) (now repo_name ref : string) (execute : bool) (dispatch_depth : Z) :
    io W (Z * list dict) :=
  if negb (ends_with "/main" ref) then mret (0%Z, [])
  else
    dependents ← lift (get_dependents repo_name (dependency_graph reg));
    e ← lift (load reg new_engine);
    max_depth ← lift (max_notification_depth (change_propagation_rules reg));
    let steps := default [] (compute_cascade e repo_name max_depth) in
    let head := event_head e now repo_name ref dependents steps execute in
    match steps with
    | [] => mret (0%Z, [(head ++ [("actions_triggered", PList []); ("status", PStr "no_rule")])%list])
    | _ =>
      actions ← io_map (act_on now repo_name ref execute dispatch_depth) steps;
      let failed := existsb has_failed actions in
      let status := if failed then "failed" else if execute then "executed" else "dry_run" in
      mret (if failed then 1%Z else 0%Z,
            [(head ++ [("actions_triggered", PList (map PDict actions)); ("status", PStr status)])%list])
    end.
End host.

(** ** Which calls a run makes *)

Inductive call :=
| Gh (args : list string)
| Http (method url : string) (payload : option pyval).

Section calls.
Context {W : Type}.
Context `{FloatRepr}.
Variable cfg : config.
Variable run_gh : list string -> W -> process * W.
Variable http : string -> string -> option pyval -> W -> reply * W.

Definition perform (c : call) (w : W) : W :=
  match c with Gh args => (run_gh args w).2 | Http m u p => (http m u p w).2 end.

(** Listing the open issues of a repository, or opening one. *)
Definition list_args (repo : string) : list string :=
  ["gh"; "issue"; "list"; "--repo"; ORG cfg +:+ "/" +:+ repo; "--state"; "open"; "--json"; "title"; "--limit"; "50"].
Definition create_args (repo title body : string) : list string :=
  ["gh"; "issue"; "create"; "--repo"; ORG cfg +:+ "/" +:+ repo; "--title"; title; "--body"; body].
Definition issues_url (repo : string) : string :=
  GITEA_URL cfg +:+ "/api/v1" +:+ "/repos/" +:+ ORG cfg +:+ "/" +:+ repo +:+ "/issues".

Inductive issue_call (repo : string) : call -> Prop :=
| call_list : issue_call repo (Gh (list_args repo))
| call_create title body : issue_call repo (Gh (create_args repo title body))
| call_get : issue_call repo (Http "GET" (issues_url repo +:+ "?state=open&limit=50") None)
| call_post payload : issue_call repo (Http "POST" (issues_url repo) payload).

Abbreviation act := (act_on cfg run_gh http).

Section preserved.
Variable P : W -> Prop.

(** [m] keeps [P] if the issue calls on [repo] do. *)
Definition keeps {A} (repo : string) (m : io W A) : Prop :=
  (forall c w, issue_call repo c -> P w -> P (perform c w)) -> forall w, P w -> P (m w).2.

Lemma keeps_ret {A} repo (a : A) : keeps repo (mret a).
Proof. by intros _ w. Qed.

Lemma keeps_lift {A} repo (m : res A) : keeps repo (lift m).
Proof. by intros _ w. Qed.

Lemma keeps_bind {A B} repo (m : io W A) (f : A -> io W B) :
  keeps repo m -> (forall a, keeps repo (f a)) -> keeps repo (m ≫= f).
Proof.
  intros Hm Hf Hc w Hw. specialize (Hm Hc w Hw). unfold mbind, io_bind.
  destruct (m w) as [[a|x] w']; simpl in Hm; [by apply Hf|done].
Qed.

Lemma keeps_gh repo args check : issue_call repo (Gh ("gh" :: args)) -> keeps repo (_gh run_gh args check).
Proof.
  intros Ha Hc w Hw. specialize (Hc _ w Ha Hw). unfold _gh. simpl in Hc.
  by destruct (run_gh ("gh" :: args) w) as [p w'].
Qed.

Lemma keeps_gitea repo m p pl :
  issue_call repo (Http m (GITEA_URL cfg +:+ "/api/v1" +:+ p) pl) -> keeps repo (_gitea cfg http m p pl).
Proof.
  intros Ha Hc w Hw. specialize (Hc _ w Ha Hw). unfold _gitea. destruct (_ || _); [done|]. simpl in Hc.
  by destruct (http m _ pl w) as [r w'].
Qed.

Lemma keeps_titles repo : keeps repo (scm_open_issue_titles cfg run_gh http repo).
Proof.
  unfold scm_open_issue_titles. apply keeps_bind.
  - destruct (String.eqb _ _).
    + apply keeps_gitea. pose proof (call_get repo) as Hg. unfold issues_url in Hg.
      rewrite !string_app_assoc in Hg. by rewrite ?string_app_assoc.
    + apply keeps_gh. constructor.
  - intros r. destruct (_ || _); [apply keeps_ret|]. destruct (out_json r); [|apply keeps_ret].
    apply keeps_bind; [apply keeps_lift|intros; apply keeps_ret].
Qed.

Lemma keeps_create repo title body : keeps repo (scm_create_issue cfg run_gh http repo title body).
Proof.
  unfold scm_create_issue. destruct (String.eqb _ _).
  - apply keeps_gitea. pose proof (call_post repo) as Hp. unfold issues_url in Hp. by rewrite ?string_app_assoc.
  - apply keeps_gh. constructor.
Qed.

(** A step that is executed while dispatch is off makes issue calls only. *)
Lemma keeps_dispatch step source ref :
  ALLOW_DISPATCH cfg = false -> keeps (c_repo step) (_dispatch cfg run_gh http step source ref).
Proof.
  intros Hoff. unfold _dispatch. destruct (eq_str _ _).
  { rewrite Hoff. apply keeps_ret. }
  apply keeps_bind.
  - apply keeps_bind; [apply keeps_titles|intros; apply keeps_ret].
  - intros [| |]; [apply keeps_ret..|]. apply keeps_bind; [apply keeps_create|intros; apply keeps_ret].
Qed.

Lemma act_keeps now repo ref execute depth step w :
  ALLOW_DISPATCH cfg = false ->
  (forall c w, execute = true -> c_depth step <= depth -> issue_call (c_repo step) c -> P w -> P (perform c w))%Z ->
  P w -> P (act now repo ref execute depth step w).2.
Proof.
  intros Hoff Hc Hw. unfold act_on. destruct (Z.ltb_spec depth (c_depth step)); [done|].
  destruct execute; [|by destruct (_ && _)]. by apply keeps_dispatch; auto.
Qed.

Lemma io_map_keeps {A B} (f : A -> io W B) l w :
  (forall x w, x ∈ l -> P w -> P (f x w).2) -> P w -> P (io_map f l w).2.
Proof.
  revert w; induction l as [|x l IH]; intros w Hf Hw; [done|]. cbn [io_map]. unfold mbind, io_bind.
  pose proof (Hf x w ltac:(by left) Hw) as Hx. destruct (f x w) as [[y|e] w1]; [|done]. simpl in Hx.
  specialize (IH w1 ltac:(intros; apply Hf; [by right|done]) Hx).
  by destruct (io_map f l w1) as [[ys|e] w2].
Qed.
End preserved.

(** The steps a run computes. *)
Definition steps_of (reg : registry) (repo_name : string) : res (list cascade_step) :=
  e ← load reg new_engine;
  d ← max_notification_depth (change_propagation_rules reg);
  Ok (default [] (compute_cascade e repo_name d)).

(** A run on the main branch that gets as far as its steps acts on each of them
    in turn and logs one event. *)
Lemma propagate_acts reg now repo ref execute depth steps dependents w :
  ends_with "/main" ref = true -> get_dependents repo (dependency_graph reg) = Ok dependents ->
  steps_of reg repo = Ok steps ->
  exists event, propagate cfg run_gh http reg now repo ref execute depth w
    = match io_map (act now repo ref execute depth) steps w with
      | (Ok actions, w) => (Ok (if existsb has_failed actions then 1%Z else 0%Z, [event actions]), w)
      | (Raise e, w) => (Raise e, w)
      end.
Proof.
  intros Hr Hd Hs. unfold propagate. rewrite Hr, Hd. cbn [negb]. unfold steps_of in Hs.
  apply bind_Ok_inv in Hs as (e & He & Hs). apply bind_Ok_inv in Hs as (d & Hdp & Hs). injection Hs as Hs.
  unfold lift. rewrite He, Hdp. unfold mbind, io_bind, mret, io_ret. rewrite Hs.
  destruct steps as [|s steps]; cbn [io_map].
  - by eexists (fun _ => _).
  - exists (fun actions => event_head e now repo ref dependents (s :: steps) execute ++
      [("actions_triggered", PList (map PDict actions));
       ("status", PStr (if existsb has_failed actions then "failed" else if execute then "executed" else "dry_run"))])%list.
    unfold mbind, io_bind, mret, io_ret.
    destruct (act now repo ref execute depth s w) as [[a|x] w1]; [|done].
    by destruct (io_map _ steps w1) as [[l|x] w2].
Qed.

(** C17: the read-only posture of propagation.  While dispatch is not switched
    on, whatever the rules ask for and whatever the host answers, a run makes no
    call but listing and opening issues, only when it is told to execute, and
    only on repositories of the computed cascade within the dispatch depth;
    stated as: what all these calls preserve, the run preserves. *)
Theorem calls_confined (P : W -> Prop) reg now repo ref execute depth w :
  ALLOW_DISPATCH cfg = false ->
  (forall steps s c w, execute = true -> steps_of reg repo = Ok steps -> s ∈ steps -> (c_depth s <= depth)%Z ->
     issue_call (c_repo s) c -> P w -> P (perform c w)) ->
  P w -> P (propagate cfg run_gh http reg now repo ref execute depth w).2.
Proof.
  intros Hoff Hc Hw.
  destruct (ends_with "/main" ref) eqn:Hr; [|unfold propagate; by rewrite Hr].
  destruct (get_dependents repo (dependency_graph reg)) as [deps|x] eqn:Hd;
    [|unfold propagate, mbind, io_bind, lift; by rewrite Hr, Hd].
  destruct (steps_of reg repo) as [steps|x] eqn:Hs.
  - destruct (propagate_acts reg now repo ref execute depth steps deps w Hr Hd Hs) as [ev ->].
    assert (Hm : P (io_map (act now repo ref execute depth) steps w).2).
    { apply io_map_keeps; [|done]. intros s w1 Hin Hw1. apply act_keeps; [done| |done].
      intros c w2 He Hle Hi. by eapply Hc. }
    by destruct (io_map _ steps w) as [[l|y] w1].
  - unfold propagate, mbind, io_bind, lift. rewrite Hr, Hd. cbn [negb]. unfold steps_of in Hs.
    destruct (load reg new_engine) as [e|]; [|done]. cbn [mbind res_bind] in Hs.
    by destruct (max_notification_depth _).
Qed.
End calls.

(** ** Notifications are not repeated

    The [gh] command as its manual describes it: listing gives the newest open
    issues up to the limit, creating opens one more. *)

Section tracker.
Context {W : Type}.
Context `{FloatRepr}.
Variable cfg : config.
Variable run_gh : list string -> W -> process * W.
Variable http : string -> string -> option pyval -> W -> reply * W.
Variable titles : W -> string -> list string.

Definition listing (l : list string) : pyval := PList (map (fun t => PDict [("title", PStr t)]) l).

Hypothesis gh_list : forall w repo, exists p,
  run_gh (list_args cfg repo) w = (p, w) /\ returncode p = 0%Z /\ py_strip (stdout p) <> "" /\
  stdout_json p = Some (listing (take 50 (titles w repo))).
Hypothesis gh_create : forall w repo title body, exists p w',
  run_gh (create_args cfg repo title body) w = (p, w') /\ returncode p = 0%Z /\
  titles w' repo = title :: titles w repo /\ forall r, r <> repo -> titles w' r = titles w r.
Hypothesis github : SCM_BACKEND cfg <> "gitea".
Hypothesis dispatch_off : ALLOW_DISPATCH cfg = false.

Lemma titles_listed w repo :
  scm_open_issue_titles cfg run_gh http repo w = (Ok (Some (map PStr (take 50 (titles w repo)))), w).
Proof.
  unfold scm_open_issue_titles, mbind, io_bind. rewrite (proj2 (String.eqb_neq _ _) github).
  destruct (gh_list w repo) as (p & Ep & Hrc & Hout & Hjson). unfold _gh.
  unfold list_args in Ep. rewrite Ep. cbn [andb rc out out_json]. rewrite Hrc, Hjson.
  rewrite (proj2 (String.eqb_neq _ _) Hout). cbn [negb orb Z.eqb]. unfold lift, listing. cbn [py_iter mbind res_bind].
  assert (Hm : res_map (fun i => py_get i "title" (PStr ""))
                 (map (fun t => PDict [("title", PStr t)]) (take 50 (titles w repo)))
               = Ok (map PStr (take 50 (titles w repo)))).
  { generalize (take 50 (titles w repo)). induction l as [|t l IH]; [done|]. simpl in IH |- *.
    by rewrite IH. }
  unfold mbind, res_bind. by rewrite Hm.
Qed.

(** The issue a step asks for is among those a listing shows. *)
Definition listed (source : string) (w : W) (step : cascade_step) : Prop :=
  issue_title step source ∈ take 50 (titles w (c_repo step)).

#[local] Instance listed_dec source w step : Decision (listed source w step).
Proof. unfold listed. apply _. Defined.

Lemma listed_existsb source w step :
  existsb (fun t => eq_str t (issue_title step source)) (map PStr (take 50 (titles w (c_repo step)))) = true
  <-> listed source w step.
Proof.
  unfold listed. rewrite existsb_exists. split.
  - intros (v & Hin & Hv). apply in_map_iff in Hin as (t & <- & Hin). simpl in Hv.
    apply String.eqb_eq in Hv as <-. by apply list_elem_of_In.
  - intros Hin. exists (PStr (issue_title step source)). split; [|apply String.eqb_refl].
    apply in_map. by apply list_elem_of_In.
Qed.

(** Whether a run notifies about a step. *)
Definition notifies (depth : Z) (step : cascade_step) : bool :=
  negb (depth <? c_depth step)%Z && negb (eq_str (c_action step) "trigger_ci").

Abbreviation act_w := (act_on cfg run_gh http).

(** A step whose issue is listed changes nothing. *)
Lemma act_listed now source ref depth step w :
  (notifies depth step = true -> listed source w step) ->
  exists a, act_w now source ref true depth step w = (Ok a, w).
Proof.
  unfold notifies, act_on. destruct (depth <? c_depth step)%Z; simpl; [by eexists|].
  unfold _dispatch. destruct (eq_str _ _); simpl; [rewrite dispatch_off; by eexists|]. intros Hl.
  unfold _existing_issue, mbind, io_bind. rewrite titles_listed. cbn [mret io_ret].
  rewrite (proj2 (listed_existsb source w step)) by auto. by eexists.
Qed.

(** After acting on a step its issue is listed, and other repositories are as
    they were. *)
Lemma act_lists now source ref depth step w :
  exists a w', act_w now source ref true depth step w = (Ok a, w') /\
    (notifies depth step = true -> listed source w' step) /\
    forall r, r <> c_repo step -> titles w' r = titles w r.
Proof.
  destruct (decide (notifies depth step = true -> listed source w step)) as [Hl|Hl].
  { destruct (act_listed now source ref depth step w Hl) as [a Ha]. by exists a, w. }
  assert (Hn : notifies depth step = true /\ ~ listed source w step) 
    by (destruct (notifies depth step); [split; [done|auto]|by destruct Hl]).
  destruct Hn as [Hn Hnl]. unfold notifies in Hn. apply andb_true_iff in Hn as [Hd Ha].
  apply negb_true_iff in Hd, Ha. unfold act_on. rewrite Hd. unfold _dispatch. rewrite Ha.
  unfold _existing_issue, mbind, io_bind. rewrite titles_listed. cbn [mret io_ret].
  destruct (existsb _ _) eqn:Ex; [by apply listed_existsb in Ex|].
  unfold scm_create_issue, _gh. rewrite (proj2 (String.eqb_neq _ _) github).
  destruct (gh_create w (c_repo step) (issue_title step source) (issue_body step source ref))
    as (p & w' & Ep & Hrc & Ht & Ho). unfold create_args in Ep. rewrite Ep.
  eexists _, w'. split; [reflexivity|]. split; [|done]. intros _. unfold listed. rewrite Ht. by left.
Qed.

(** A whole run leaves every issue it stands for listed. *)
Lemma run_lists now source ref depth steps w :
  NoDup (map c_repo steps) ->
  exists actions w', io_map (act_w now source ref true depth) steps w = (Ok actions, w') /\
    (forall s, s ∈ steps -> notifies depth s = true -> listed source w' s) /\
    (forall r, r ∉ map c_repo steps -> titles w' r = titles w r).
Proof.
  revert w; induction steps as [|s steps IH]; intros w Hnd.
  { exists [], w. split_and!; [done|by intros ? ?%not_elem_of_nil|done]. }
  cbn [map] in Hnd. apply NoDup_cons in Hnd as [Hs Hnd].
  destruct (act_lists now source ref depth s w) as (a & w1 & Ea & Hl1 & Ho1).
  destruct (IH w1 Hnd) as (acts & w2 & Eas & Hl2 & Ho2).
  exists (a :: acts), w2. split_and!.
  - cbn [io_map]. unfold mbind, io_bind. by rewrite Ea, Eas.
  - intros s' [->|Hs']%elem_of_cons Hn; [|by apply Hl2]. unfold listed. rewrite Ho2 by done. by apply Hl1.
  - intros r Hr. cbn [map] in Hr. apply not_elem_of_cons in Hr as [Hne Hr]. rewrite Ho2 by done. by apply Ho1.
Qed.

Lemma run_again now source ref depth steps w :
  (forall s, s ∈ steps -> notifies depth s = true -> listed source w s) ->
  exists actions, io_map (act_w now source ref true depth) steps w = (Ok actions, w).
Proof.
  induction steps as [|s steps IH]; intros Hl; [by exists []|].
  destruct (act_listed now source ref depth s w) as [a Ea]; [intros; apply Hl; [by left|done]|].
  destruct IH as [acts Eas]; [intros; apply Hl; [by right|done]|].
  exists (a :: acts). cbn [io_map]. unfold mbind, io_bind. by rewrite Ea, Eas.
Qed.

Lemma steps_NoDup reg repo steps : steps_of reg repo = Ok steps -> NoDup (map c_repo steps).
Proof.
  unfold steps_of. intros Hs. apply bind_Ok_inv in Hs as (e & _ & Hs).
  apply bind_Ok_inv in Hs as (d & _ & Hs). injection Hs as <-.
  destruct (cascade_is_shortest e repo d) as (st & -> & _ & Hnd & _). by apply NoDup_cons in Hnd as [_ Hnd].
Qed.

(** A repeated merge does not repeat its notifications.  With a host that
    lists the fifty newest open issues and opens the issues it is asked to, a
    run succeeds and every repository it is to notify then has the issue open;
    a second run for the same source on the host the first one left, whenever
    it comes and for whatever ref, opens nothing. *)
Theorem notifications_not_repeated reg now now' repo ref ref' depth steps dependents w :
  ends_with "/main" ref = true -> ends_with "/main" ref' = true ->
  get_dependents repo (dependency_graph reg) = Ok dependents -> steps_of reg repo = Ok steps ->
  exists r w1, propagate cfg run_gh http reg now repo ref true depth w = (Ok r, w1) /\
    (forall s, s ∈ steps -> notifies depth s = true -> issue_title s repo ∈ titles w1 (c_repo s)) /\
    exists r', propagate cfg run_gh http reg now' repo ref' true depth w1 = (Ok r', w1).
Proof.
  intros Hr Hr' Hd Hs.
  destruct (run_lists now repo ref depth steps w (steps_NoDup reg repo steps Hs)) as (acts & w1 & Ea & Hl & _).
  destruct (run_again now' repo ref' depth steps w1 Hl) as [acts' Ea'].
  destruct (propagate_acts cfg run_gh http reg now repo ref true depth steps dependents w Hr Hd Hs) as [ev Ep].
  destruct (propagate_acts cfg run_gh http reg now' repo ref' true depth steps dependents w1 Hr' Hd Hs) as [ev' Ep'].
  rewrite Ea in Ep. rewrite Ea' in Ep'. eexists _, w1. split; [exact Ep|]. split.
  - intros s Hin Hn. specialize (Hl s Hin Hn). unfold listed in Hl. 
    rewrite <- (take_drop 50 (titles w1 (c_repo s))). apply elem_of_app. by left.
  - eexists. exact Ep'.
Qed.
End tracker.

(** ** Witnesses *)

Local Existing Instance demo_float_repr.

(** A host that keeps the open titles of each repository. *)
Abbreviation demo_world := (list (string * list string)).

Definition demo_config : config := mkConfig "org" false "github" "" "".

Definition demo_titles (w : demo_world) (repo : string) : list string := default [] (assoc ("org/" +:+ repo) w).

Definition demo_gh (args : list string) (w : demo_world) : process * demo_world :=
  match args with
  | _ :: "issue" :: "list" :: "--repo" :: repo :: _ =>
    (mkProcess 0 "[]" "" (Some (listing (take 50 (default [] (assoc repo w))))), w)
  | _ :: "issue" :: "create" :: "--repo" :: repo :: "--title" :: title :: _ =>
    (mkProcess 0 "" "" None, assoc_set repo (title :: default [] (assoc repo w)) w)
  | _ => (mkProcess 1 "" "unknown command" None, w)
  end.

Definition demo_http (method url : string) (payload : option pyval) (w : demo_world) : reply * demo_world :=
  (mkReply 1 "no server" None, w).

Lemma demo_gh_list w repo : exists p,
  demo_gh (list_args demo_config repo) w = (p, w) /\ returncode p = 0%Z /\ py_strip (stdout p) <> "" /\
  stdout_json p = Some (listing (take 50 (demo_titles w repo))).
Proof. by eexists. Qed.

Lemma demo_gh_create w repo title body : exists p w',
  demo_gh (create_args demo_config repo title body) w = (p, w') /\ returncode p = 0%Z /\
  demo_titles w' repo = title :: demo_titles w repo /\
  forall r, r <> repo -> demo_titles w' r = demo_titles w r.
Proof.
  eexists _, _. split; [reflexivity|]. split; [done|]. unfold demo_titles.
  cbn [ORG demo_config]. change ("org" +:+ "/" +:+ repo) with ("org/" +:+ repo).
  split; [by rewrite assoc_set_eq|]. intros r Hr. rewrite assoc_set_ne; [done|].
  intros E. apply string_app_inv_l in E. done.
Qed.

Definition demo_steps : list cascade_step :=
  match steps_of demo_registry "base" with Ok s => s | Raise _ => [] end.

Lemma notifications_not_repeated_witness :
  exists r w1, propagate demo_config demo_gh demo_http demo_registry "t0" "base" "refs/heads/main" true 1 [] = (Ok r, w1) /\
    (forall s, s ∈ demo_steps -> notifies 1 s = true -> issue_title s "base" ∈ demo_titles w1 (c_repo s)) /\
    exists r', propagate demo_config demo_gh demo_http demo_registry "t1" "base" "refs/heads/main" true 1 w1 = (Ok r', w1).
Proof.
  apply (notifications_not_repeated demo_config demo_gh demo_http demo_titles demo_gh_list demo_gh_create
           ltac:(discriminate) eq_refl demo_registry "t0" "t1" "base" "refs/heads/main" "refs/heads/main" 1
           demo_steps [PStr "Tool"]); vm_compute; reflexivity.
Defined.

(** The calls a run of the demonstration makes, recorded in the world. *)
Definition recording_gh (args : list string) (w : list (list string)) : process * list (list string) :=
  ((demo_gh args []).1, (w ++ [args])%list).
Definition recording_http (method url : string) (payload : option pyval) (w : list (list string)) :
    reply * list (list string) := (mkReply 1 "no server" None, w).

Lemma calls_confined_witness :
  Forall (fun args => exists rest, args = ("gh" :: "issue" :: rest)%list)
    (propagate demo_config recording_gh recording_http demo_registry "t0" "base" "refs/heads/main" true 1 []).2.
Proof.
  apply (calls_confined demo_config recording_gh recording_http
           (Forall (fun args => exists rest, args = ("gh" :: "issue" :: rest)%list))).
  - reflexivity.
  - intros steps s c w _ _ _ _ Hc Hw. destruct Hc; simpl; [| |done|done];
      (apply Forall_app; split; [done|]); constructor; try constructor; by eexists.
  - constructor.
Defined.

(** An issue that is open but older than the fifty newest is opened again: the
    listing that looks for it is cut at fifty. *)
Example old_issue_opened_again :
  let title := "[propagation] base changed — base-rule" in
  let w := [("org/app-one", (replicate 50 "newer" ++ [title])%list)] in
  title ∈ demo_titles w "app-one" /\
  let w1 := (propagate demo_config demo_gh demo_http demo_registry "t0" "base" "refs/heads/main" true 1 w).2 in
  demo_titles w1 "app-one" = title :: demo_titles w "app-one".
Proof.
  intros title w. split; [|vm_compute; reflexivity].
  apply list_elem_of_In. vm_compute. tauto.
Qed.
