(* ===== verification/Kernel.v ===== *)
(** * The verdict lattice of the vendored kernel

    Models the part of [third_party/procyber/semantic/semantic_algebra.py] the
    responder calls: the verdict order derived from what each verdict clears,
    the lattice meet with its absorbing abstention, and the JSON form of the
    address of a primitive term. *)

From S2P Require Import Prelude PyVal.
Local Open Scope string_scope.

(** A verdict, or the abstention [BOTTOM]. *)
Inductive verdict :=
| BOTTOM
| V (v : pyval).

(** What each verdict clears; a set is a list without repetitions. *)
Definition VERDICT_CLEARS : list (string * list string) :=
  [("refuse", []);
   ("quarantine", ["observe_isolated"]);
   ("weak", ["observe_isolated"; "cite"]);
   ("probable", ["observe_isolated"; "cite"; "act_reversible"]);
   ("sealed", ["observe_isolated"; "cite"; "act_reversible"; "act_irreversible"])].

(** The sort key: how many capabilities, then the name. *)
Definition clears_ltb (a b : string * list string) : bool :=
  Nat.ltb (length a.2) (length b.2) || (Nat.eqb (length a.2) (length b.2) && String.ltb a.1 b.1).

Definition subset (a b : list string) : bool := forallb (fun x => bool_decide (x ∈ b)) a.

Fixpoint is_chain (l : list (string * list string)) : bool :=
  match l with
  | weaker :: ((stronger :: _) as l') => subset weaker.2 stronger.2 && is_chain l'
  | _ => true
  end.

Definition derive_verdict_order (clears : list (string * list string)) : res (list string) :=
  let verdicts := py_sort clears_ltb clears in
  if is_chain verdicts then Ok (map fst verdicts) else Raise (ValueError "verdicts are incomparable").

Definition VERDICT_ORDER : list string :=
  match derive_verdict_order VERDICT_CLEARS with Ok l => l | Raise _ => [] end.

(** [VERDICT_ORDER.index(v)], with [v in VERDICT_ORDER]. *)
Fixpoint rank_in (l : list string) (v : pyval) : option nat :=
  match l with
  | [] => None
  | s :: l => if eq_str v s then Some O else option_map S (rank_in l v)
  end.

Definition rank (v : pyval) : option nat := rank_in VERDICT_ORDER v.

(** [min(verdicts, key=VERDICT_ORDER.index)]: the first of the smallest. *)
Fixpoint lowest (v : pyval) (vs : list pyval) : pyval :=
  match vs with
  | [] => v
  | v' :: vs => lowest (if Nat.ltb (default O (rank v')) (default O (rank v)) then v' else v) vs
  end.

Definition is_bottom (v : verdict) : bool := match v with BOTTOM => true | V _ => false end.

Definition values (vs : list verdict) : list pyval :=
  omap (fun v => match v with V x => Some x | BOTTOM => None end) vs.

Definition meet (vs : list verdict) : res verdict :=
  match vs with
  | [] => Raise (ValueError "meet requires at least one verdict")
  | _ =>
    if existsb is_bottom vs then Ok BOTTOM
    else if forallb (fun v => match rank v with Some _ => true | None => false end) (values vs) then
      match values vs with
      | v :: vs => Ok (V (lowest v vs))
      | [] => Raise (ValueError "meet requires at least one verdict")
      end
    else Raise (ValueError "unknown verdict(s)")
  end.

(** ** Addresses of primitives *)

Definition SPEC_VERSION : string := "0.2.0".

(** [SemanticAddress(term=prim(symbol), ...).to_json()], the fields that are
    [None] left out; a primitive has layer 0. *)
Definition address_json (symbol iri inference mood : string) (evidence_ref : pyval) : pyval :=
  PDict ([("specVersion", PStr SPEC_VERSION); ("code", PStr symbol); ("layer", PInt 0); ("abstains", PBool false);
          ("inference", PStr inference); ("mood", PStr mood); ("iri", PStr iri)]
         ++ match evidence_ref with PNone => [] | v => [("evidenceRef", v)] end)%list.

(** ** Facts *)

Lemma verdict_order_derived :
  derive_verdict_order VERDICT_CLEARS = Ok ["refuse"; "quarantine"; "weak"; "probable"; "sealed"].
Proof. vm_compute. reflexivity. Qed.

Lemma rank_in_Some l v n : rank_in l v = Some n -> exists s, v = PStr s /\ l !! n = Some s.
Proof.
  revert n; induction l as [|s l IH]; intros n; simpl; [done|].
  destruct (eq_str v s) eqn:E.
  - intros [= <-]. exists s. split; [|done]. destruct v; try discriminate. simpl in E.
    by apply String.eqb_eq in E as ->.
  - destruct (rank_in l v) as [m|] eqn:Er; [|done]. intros [= <-]. by apply IH.
Qed.

(** The names of a verdict and its rank determine each other. *)
Lemma rank_inj v w n : rank v = Some n -> rank w = Some n -> v = w.
Proof.
  intros (s & -> & Hs)%rank_in_Some (t & -> & Ht)%rank_in_Some. congruence.
Qed.

Lemma lowest_spec v vs :
  (lowest v vs = v \/ lowest v vs ∈ vs) /\
  Forall (fun w => (default O (rank (lowest v vs)) <= default O (rank w))%nat) (v :: vs).
Proof.
  revert v; induction vs as [|w vs IH]; intros v; simpl.
  - split; [auto|]. by repeat constructor.
  - destruct (Nat.ltb_spec (default O (rank w)) (default O (rank v))) as [Hlt|Hge].
    + destruct (IH w) as [Hin Hall]. inversion Hall as [|? ? Hw Hvs]; subst. split.
      * right. destruct Hin as [->|?]; [left|by right].
      * constructor; [lia|]. constructor; done.
    + destruct (IH v) as [Hin Hall]. inversion Hall as [|? ? Hv Hvs]; subst. split.
      * destruct Hin as [->|?]; [by left|right; by right].
      * constructor; [done|]. constructor; [lia|done].
Qed.

Lemma values_V l : values (map V l) = l.
Proof. induction l as [|v l IH]; simpl; [done|]. by rewrite IH. Qed.

Lemma no_bottom l : existsb is_bottom (map V l) = false.
Proof. by induction l. Qed.

(** The meet of verdicts is one of them, and none of them is lower. *)
Lemma meet_spec l v :
  meet (map V l) = Ok v <-> exists x n, v = V x /\ x ∈ l /\ rank x = Some n /\
    Forall (fun y => exists m, rank y = Some m /\ (n <= m)%nat) l.
Proof.
  destruct l as [|y l]; [split; [done|]; intros (x & n & _ & Hx & _); by apply not_elem_of_nil in Hx|].
  unfold meet. rewrite values_V. cbn [map existsb is_bottom orb].
  rewrite no_bottom.
  destruct (lowest_spec y l) as [Hin Hall]. set (x := lowest y l) in *.
  assert (Hxl : x ∈ y :: l) by (destruct Hin as [->|?]; [left|by right]).
  destruct (forallb _ (y :: l)) eqn:Ef.
  - rewrite forallb_forall in Ef.
    assert (Hr : forall z, z ∈ y :: l -> exists m, rank z = Some m).
    { intros z Hz%list_elem_of_In. specialize (Ef z Hz). destruct (rank z); [eauto|done]. }
    destruct (Hr x Hxl) as [n Hn].
    assert (Hmin : Forall (fun z => exists m, rank z = Some m /\ (n <= m)%nat) (y :: l)).
    { apply Forall_forall. intros z Hz. destruct (Hr z Hz) as [m Hm]. exists m. split; [done|].
      rewrite Forall_forall in Hall. specialize (Hall z Hz). rewrite Hn, Hm in Hall. exact Hall. }
    split.
    + intros [= <-]. by exists x, n.
    + intros (x' & n' & -> & Hx' & Hn' & Hmin'). do 2 f_equal.
      rewrite Forall_forall in Hmin, Hmin'.
      destruct (Hmin x' Hx') as (m1 & E1 & L1). destruct (Hmin' x Hxl) as (m2 & E2 & L2).
      apply (rank_inj x x' n); [done|]. rewrite Hn'. f_equal. rewrite Hn' in E1. rewrite Hn in E2.
      injection E1 as <-. injection E2 as <-. lia.
  - split; [done|]. intros (x' & n' & _ & _ & _ & Hmin'). exfalso.
    assert (Hf : forallb (fun v => match rank v with Some _ => true | None => false end) (y :: l) = true).
    { apply forallb_forall. intros z Hz%list_elem_of_In. rewrite Forall_forall in Hmin'.
      destruct (Hmin' z Hz) as (m & -> & _). done. }
    congruence.
Qed.

(** The meet does not depend on the order of its arguments. *)
Lemma meet_perm l l' v : l ≡ₚ l' -> meet (map V l) = Ok v -> meet (map V l') = Ok v.
Proof.
  intros Hp. rewrite !meet_spec. intros (x & n & -> & Hx & Hn & Hall). exists x, n.
  rewrite <- Hp. by split_and!.
Qed.
