(* ===== verification/Envelope.v ===== *)
(** * The event envelope

    Models [automation/envelope.py].  What a stamp draws from the clock and the
    random source is an argument. *)

From Stdlib Require Import Ascii.
From S2P Require Import Prelude PyVal Json Sha256.
Local Open Scope string_scope.

Definition SCHEMA_VERSION : string := "v1".

Definition EPISTEMIC_LEVELS : list string :=
  ["proved"; "bounded"; "empirical"; "synthetic"; "speculative"; "rejected"].

Definition _ENVELOPE_KEYS : list string :=
  ["message_id"; "trace_id"; "span_id"; "emitted_at"; "schema_version"; "content_sha256"; "epistemic_level"].
Definition _VOLATILE_KEYS : list string := ["observed_at"; "decided_at"; "address"].

Definition _CROCKFORD : string := "0123456789ABCDEFGHJKMNPQRSTVWXYZ".

Definition crockford (d : Z) : ascii := default "0"%char (String.get (Z.to_nat d) _CROCKFORD).

(** [n] base-32 digits of [value], the last one lowest. *)
Fixpoint crockford_digits (n : nat) (value : Z) (acc : string) : string :=
  match n with
  | O => acc
  | S n => crockford_digits n (Z.shiftr value 5) (String (crockford (Z.land value 31)) acc)
  end.

(** 48 bits of milliseconds and 80 random bits. *)
Definition ulid_value (now_ms random : Z) : Z :=
  Z.lor (Z.shiftl (Z.land now_ms (2 ^ 48 - 1)) 80) random.

Definition ulid (now_ms random : Z) : string := crockford_digits 26 (ulid_value now_ms random) "".

(** What one stamp draws. *)
Record draws := mkDraws { d_ulid : string; d_uuid : string; d_span : string; d_now : string }.

(** [d.setdefault(k, v)]. *)
Definition setdefault (k : string) (v : pyval) (d : dict) : dict :=
  if assoc_mem k d then d else assoc_set k v d.

Definition semantic_key (k : string) : bool :=
  negb (bool_decide (k ∈ _ENVELOPE_KEYS)) && negb (bool_decide (k ∈ _VOLATILE_KEYS)).

Definition payload_of (e : dict) : dict := List.filter (fun kv => semantic_key kv.1) e.

Section envelope.
Context `{FloatRepr}.

Definition content_hash (payload : dict) : string := "sha256:" +:+ sha256_hex (dumps (norm (PDict payload))).

Definition stamp (dr : draws) (event : dict) (trace_id : pyval) : dict :=
  let e := setdefault "message_id" (PStr (d_ulid dr)) event in
  let e := setdefault "trace_id"
             (py_or trace_id (py_or (default PNone (assoc "trace_id" e)) (PStr (d_uuid dr)))) e in
  let e := setdefault "span_id" (PStr (d_span dr)) e in
  let e := setdefault "emitted_at" (PStr (d_now dr)) e in
  let e := setdefault "schema_version" (PStr SCHEMA_VERSION) e in
  assoc_set "content_sha256" (PStr (content_hash (payload_of e))) e.

Definition epistemic_level_for (receipt : dict) : res string :=
  let ex := py_or (default PNone (assoc "execution" receipt)) (PDict []) in
  rolled_back ← py_get ex "rolled_back" PNone;
  if truthy rolled_back then Ok "rejected" else
  healed ← py_get ex "healed" PNone;
  if truthy healed then Ok "proved" else
  quarantined ← py_get ex "quarantined" PNone;
  if truthy quarantined then Ok "bounded" else
  proposed ← py_get ex "proposed" PNone;
  if truthy proposed then Ok "synthetic" else
  if eq_str (default PNone (assoc "verdict" receipt)) "BOTTOM" then Ok "speculative" else Ok "empirical".
End envelope.

(** ** Stamps leave the payload alone *)

Lemma payload_assoc_set k v d : semantic_key k = false -> payload_of (assoc_set k v d) = payload_of d.
Proof.
  intros Hk. unfold payload_of. induction d as [|[k' v'] d IH]; cbn [assoc_set].
  - simpl. by rewrite Hk.
  - destruct (String.eqb_spec k' k) as [->|Hne]; simpl; [by rewrite Hk|]. by rewrite IH.
Qed.

Lemma payload_setdefault k v d : semantic_key k = false -> payload_of (setdefault k v d) = payload_of d.
Proof. intros Hk. unfold setdefault. destruct (assoc_mem k d); [done|]. by apply payload_assoc_set. Qed.

Lemma setdefault_present k v d x : assoc k d = Some x -> setdefault k v d = d.
Proof. intros Hx. unfold setdefault, assoc_mem. by rewrite Hx. Qed.

Lemma assoc_setdefault_eq k v d : assoc k (setdefault k v d) = Some (default v (assoc k d)).
Proof.
  unfold setdefault, assoc_mem. destruct (assoc k d) as [x|] eqn:E; [by rewrite E|]. by rewrite assoc_set_eq.
Qed.

Lemma assoc_setdefault_ne k k' v d : k <> k' -> assoc k (setdefault k' v d) = assoc k d.
Proof. intros Hne. unfold setdefault. destruct (assoc_mem k' d); [done|]. by rewrite assoc_set_ne. Qed.

Section stamping.
Context `{FloatRepr}.

Lemma stamp_payload dr e t : payload_of (stamp dr e t) = payload_of e.
Proof.
  unfold stamp. cbv zeta. rewrite payload_assoc_set by reflexivity.
  by rewrite !payload_setdefault by reflexivity.
Qed.

Lemma stamp_hash dr e t : assoc "content_sha256" (stamp dr e t) = Some (PStr (content_hash (payload_of e))).
Proof.
  unfold stamp. cbv zeta. rewrite assoc_set_eq. by rewrite !payload_setdefault by reflexivity.
Qed.

Lemma stamp_keeps dr e t k x : assoc k e = Some x -> k <> "content_sha256" -> assoc k (stamp dr e t) = Some x.
Proof.
  intros Hk Hne. unfold stamp. cbv zeta. rewrite assoc_set_ne by congruence.
  repeat match goal with
  | |- assoc k (setdefault ?k' ?v ?d) = _ =>
    destruct (decide (k = k')) as [->|];
      [rewrite assoc_setdefault_eq; f_equal; clear Hne|rewrite assoc_setdefault_ne by done]
  end; try done.
  all: repeat (rewrite assoc_setdefault_ne by discriminate); by rewrite Hk.
Qed.

(** The envelope identifies the condition, not the observation.  Two events
    with the same payload get the same content hash whenever they are stamped
    and whatever the draws; stamping leaves the payload, an envelope field that
    is already there, and a trace id that is given, as they are. *)
Theorem stamp_identifies_condition dr dr' e e' t t' :
  payload_of e = payload_of e' ->
  assoc "content_sha256" (stamp dr e t) = assoc "content_sha256" (stamp dr' e' t') /\
  payload_of (stamp dr e t) = payload_of e /\
  (forall k x, assoc k e = Some x -> k <> "content_sha256" -> assoc k (stamp dr e t) = Some x) /\
  (assoc "trace_id" e = None -> truthy t = true -> assoc "trace_id" (stamp dr e t) = Some t).
Proof.
  intros Hp. split_and!; [by rewrite !stamp_hash, Hp|apply stamp_payload| |].
  - intros k x Hk Hne. by apply stamp_keeps.
  - intros Hn Ht. unfold stamp. cbv zeta. rewrite assoc_set_ne by discriminate.
    rewrite !(assoc_setdefault_ne "trace_id") by discriminate. rewrite assoc_setdefault_eq.
    rewrite (assoc_setdefault_ne "trace_id") by discriminate. rewrite Hn. simpl. unfold py_or. by rewrite Ht.
Qed.
End stamping.

(** ** Witness *)

Local Existing Instance demo_float_repr.

Lemma stamp_identifies_condition_witness :
  assoc "content_sha256" (stamp (mkDraws "a" "b" "c" "d") [("kind", PStr "x"); ("observed_at", PStr "now")] PNone)
  = assoc "content_sha256" (stamp (mkDraws "e" "f" "g" "h") [("observed_at", PStr "later"); ("kind", PStr "x")] PNone).
Proof.
  destruct (stamp_identifies_condition (mkDraws "a" "b" "c" "d") (mkDraws "e" "f" "g" "h")
           [("kind", PStr "x"); ("observed_at", PStr "now")] [("observed_at", PStr "later"); ("kind", PStr "x")] PNone PNone
           eq_refl) as [Hc _].
  exact Hc.
Defined.
