(* ===== verification/Policy.v ===== *)
(** * The response policy and what is learnt about it

    Models [automation/policy.py] and [automation/learning.py].  A policy read
    from a file holds the values the file holds until [validate_policy] has
    looked at them.  Where a policy comes from (an argument, the environment, the
    committed file) is resolved outside; [load_policy] takes the parsed file, or
    nothing when there is none. *)

From Stdlib Require Import SpecFloat.
From S2P Require Import Prelude PyVal Json PyText Kernel.
Local Open Scope string_scope.

Definition VERDICTS : list string := ["refuse"; "quarantine"; "weak"; "probable"; "sealed"].
Definition ACTIONS : list string :=
  ["auto_fix"; "canary_fix"; "propose_pr"; "quarantine"; "block"; "escalate_human"].

Record ResponsePolicy := mkPolicy {
  law_by_kind : dict;
  verdict_action : dict;
  default_law : pyval;
  iri_block : spec_float;
  boundary_axes : list pyval;
  suppression_cooldown_seconds : spec_float
}.

(** [d.get(k, default)] with any value as the key. *)
Definition get_any (d : dict) (k dflt : pyval) : res pyval :=
  match k with
  | PStr s => Ok (default dflt (assoc s d))
  | _ => if hashable k then Ok dflt else Raise TypeError
  end.

Definition law_for (p : ResponsePolicy) (kind : pyval) : res pyval := get_any (law_by_kind p) kind (default_law p).

Definition action_for (p : ResponsePolicy) (v : pyval) : res pyval :=
  get_any (verdict_action p) v (PStr "escalate_human").

Definition as_dict (p : ResponsePolicy) : dict :=
  [("law_by_kind", PDict (law_by_kind p)); ("verdict_action", PDict (verdict_action p));
   ("default_law", default_law p); ("iri_block", PFloat (iri_block p)); ("boundary_axes", PList (boundary_axes p));
   ("suppression_cooldown_seconds", PFloat (suppression_cooldown_seconds p))].

Definition DEFAULT_POLICY : ResponsePolicy := mkPolicy
  [("mirror_drift", PStr "sealed"); ("vendored_graph_drift", PStr "sealed"); ("build_failure", PStr "probable");
   ("stale_vendor", PStr "weak"); ("deploy_regression", PStr "weak"); ("workspace_lock_drift", PStr "weak");
   ("policy_violation", PStr "quarantine"); ("unknown", PStr "refuse")]
  [("sealed", PStr "auto_fix"); ("probable", PStr "canary_fix"); ("weak", PStr "propose_pr");
   ("quarantine", PStr "quarantine"); ("refuse", PStr "block")]
  (PStr "refuse") (F64.of_dec 55 2)
  (map PStr ["legality"; "containment"; "provenance"; "privacy"; "performance"; "reproducibility"; "licensing";
             "governance"])
  (F64.of_Z 3600).

(** [v in names]. *)
Definition one_of (names : list string) (v : pyval) : bool := existsb (eq_str v) names.

Definition validate_policy (p : ResponsePolicy) : res unit :=
  if negb (forallb (fun kv => one_of VERDICTS kv.2) (law_by_kind p)) then
    Raise (ValueError "law_by_kind is not a verdict")
  else if negb (one_of VERDICTS (default_law p)) then Raise (ValueError "default_law is not a verdict")
  else if negb (forallb (fun kv => one_of VERDICTS (PStr kv.1) && one_of ACTIONS kv.2) (verdict_action p)) then
    Raise (ValueError "verdict_action is not a verdict or an action")
  else if negb (F64.leb F64.zero (iri_block p) && F64.leb (iri_block p) (F64.of_Z 1)) then
    Raise (ValueError "iri_block must be in [0, 1]")
  else match boundary_axes p with
  | [] => Raise (ValueError "boundary_axes must be non-empty (fail-closed needs a fence)")
  | _ => if F64.ltb (suppression_cooldown_seconds p) F64.zero
         then Raise (ValueError "suppression_cooldown_seconds must be >= 0") else Ok tt
  end.

(** [{**a, **b}]: a falsy [b] counts as empty, one that is not a mapping raises. *)
Definition merged (a : dict) (b : pyval) : res dict :=
  match py_or b (PDict []) with
  | PDict d => Ok (foldl (fun acc kv => assoc_set kv.1 kv.2 acc) a d)
  | _ => Raise TypeError
  end.

Definition policy_from_mapping (data : dict) : res ResponsePolicy :=
  let get k dflt := default dflt (assoc k data) in
  laws ← merged (law_by_kind DEFAULT_POLICY) (get "law_by_kind" PNone);
  actions ← merged (verdict_action DEFAULT_POLICY) (get "verdict_action" PNone);
  iri ← py_float (get "iri_block" (PFloat (iri_block DEFAULT_POLICY)));
  axes ← (let v := get "boundary_axes" PNone in
          if truthy v then py_iter v else Ok (boundary_axes DEFAULT_POLICY));
  cooldown ← py_float (get "suppression_cooldown_seconds" (PFloat (suppression_cooldown_seconds DEFAULT_POLICY)));
  let p := mkPolicy laws actions (get "default_law" (default_law DEFAULT_POLICY)) iri axes cooldown in
  _ ← validate_policy p;
  Ok p.

(** [load_policy] on the value of the file, [None] when there is no file. *)
Definition load_policy (file : option pyval) : res ResponsePolicy :=
  match file with
  | None => Ok DEFAULT_POLICY
  | Some v =>
    match py_or v (PDict []) with
    | PDict d => policy_from_mapping d
    | _ => Raise (ValueError "policy file must parse to a mapping")
    end
  end.

(** ** Learning *)

Definition DEFAULT_MIN_SAMPLES : Z := 10.
Definition DEFAULT_FAILURE_THRESHOLD : spec_float := F64.of_dec 5 1.

(** [VERDICTS[VERDICTS.index(law) - 1]], nothing at the floor. *)
Definition _demote (law : pyval) : option string :=
  match rank_in VERDICTS law with
  | Some (S n) => VERDICTS !! n
  | _ => None
  end.

Record outcomes := mkOutcomes { attempts : Z; failures : Z }.

Section learning.
Context `{FloatRepr}.

Definition count_outcome (stats : list (string * outcomes)) (r : pyval) : res (list (string * outcomes)) :=
  ex ← py_get r "execution" PNone;
  if negb (truthy ex) then Ok stats
  else
    kind ← py_get r "beacon_kind" (PStr "unknown");
    let kind := py_str kind in
    let s := default (mkOutcomes 0 0) (assoc kind stats) in
    healed ← py_get ex "healed" PNone;
    proposed ← py_get ex "proposed" PNone;
    quarantined ← py_get ex "quarantined" PNone;
    let failed := negb (truthy healed || truthy proposed || truthy quarantined) in
    Ok (assoc_set kind (mkOutcomes (attempts s + 1) (failures s + if failed then 1 else 0))%Z stats).

Definition _outcomes_by_kind (decisions : list pyval) : res (list (string * outcomes)) :=
  res_fold count_outcome [] decisions.

Record recommendation := mkRec {
  rec_kind : string;
  current_law : pyval;
  recommended_law : string;
  rec_attempts : Z;
  rec_failures : Z;
  failure_rate : spec_float
}.

Definition recommend (policy : ResponsePolicy) (min_samples : Z) (failure_threshold : spec_float)
    (ks : string * outcomes) : res (option recommendation) :=
  let (kind, s) := ks in
  if (attempts s <? min_samples)%Z then Ok None
  else
    rate ← py_truediv (failures s) (attempts s);
    if F64.ltb rate failure_threshold then Ok None
    else
      current ← law_for policy (PStr kind);
      match _demote current with
      | None => Ok None
      | Some recommended =>
        if eq_str current recommended then Ok None
        else Ok (Some (mkRec kind current recommended (attempts s) (failures s) (py_round 3 rate)))
      end.

(** [analyze] on the receipts a peek at the decision queue returns. *)
Definition analyze (policy : ResponsePolicy) (min_samples : Z) (failure_threshold : spec_float)
    (decisions : list pyval) : res (list recommendation) :=
  stats ← _outcomes_by_kind decisions;
  recs ← res_map (recommend policy min_samples failure_threshold) (py_sort key_ltb stats);
  Ok (omap (fun r => r) (recs : list (option recommendation))).
End learning.

(** ** Loaded policies are sound *)

Lemma one_of_spec names v : one_of names v = true <-> exists s, v = PStr s /\ s ∈ names.
Proof.
  unfold one_of. rewrite existsb_exists. split.
  - intros (s & Hin & Hs). exists s. destruct v; try discriminate. simpl in Hs.
    apply String.eqb_eq in Hs as ->. split; [done|]. by apply list_elem_of_In.
  - intros (s & -> & Hin). exists s. split; [by apply list_elem_of_In|]. apply String.eqb_refl.
Qed.

Lemma get_any_valid (P : pyval -> bool) d k dflt v :
  forallb (fun kv => P kv.2) d = true -> P dflt = true -> get_any d k dflt = Ok v -> P v = true.
Proof.
  intros Hd Hdf. destruct k; simpl; try (intros [= <-]; done); try discriminate.
  intros [= <-]. destruct (assoc s d) as [w|] eqn:E; simpl; [|done].
  apply assoc_elem in E. rewrite forallb_forall in Hd. apply (Hd (s, w)). by apply list_elem_of_In.
Qed.

Lemma validate_sound p :
  validate_policy p = Ok tt ->
  forallb (fun kv => one_of VERDICTS kv.2) (law_by_kind p) = true /\ one_of VERDICTS (default_law p) = true /\
  forallb (fun kv => one_of ACTIONS kv.2) (verdict_action p) = true /\
  F64.leb (iri_block p) (F64.of_Z 1) = true /\ boundary_axes p <> [].
Proof.
  unfold validate_policy. destruct (forallb _ (law_by_kind p)); cbn [negb andb]; [|done].
  destruct (one_of VERDICTS (default_law p)); cbn [negb andb]; [|done].
  destruct (forallb _ (verdict_action p)) eqn:Ha; cbn [negb andb]; [|done].
  destruct (F64.leb F64.zero _); cbn [negb andb]; [|done]. destruct (F64.leb (iri_block p) _); cbn [negb andb]; [|done].
  destruct (boundary_axes p); [done|]. intros _. split_and!; try done.
  rewrite forallb_forall in Ha |- *. intros kv Hin. specialize (Ha kv Hin). by apply andb_true_iff in Ha as [_ Ha].
Qed.

Lemma load_policy_valid f p : load_policy f = Ok p -> validate_policy p = Ok tt.
Proof.
  unfold load_policy. destruct f as [v|]; [|intros [= <-]; by vm_compute].
  destruct (py_or v (PDict [])) as [| | | | | |d]; try discriminate. unfold policy_from_mapping. intros H.
  repeat (apply bind_Ok_inv in H as (? & ? & H); cbn beta in H). injection H as <-. by destruct x4.
Qed.

(** C33: a policy that loads is a policy.  Whatever the file says, the law of
    every class is one of the five verdicts and the action for every verdict is
    one of the six known actions; the risk threshold is at most 1 and there is a
    boundary to check. *)
Theorem loaded_policy_sound f p :
  load_policy f = Ok p ->
  (forall kind law, law_for p kind = Ok law -> exists s, law = PStr s /\ s ∈ VERDICTS) /\
  (forall v a, action_for p v = Ok a -> exists s, a = PStr s /\ s ∈ ACTIONS) /\
  F64.leb (iri_block p) (F64.of_Z 1) = true /\ boundary_axes p <> [].
Proof.
  intros Hl. destruct (validate_sound p (load_policy_valid f p Hl)) as (H1 & H2 & H3 & H4 & H5).
  split_and!; [| |done|done].
  - intros kind law Hk. apply one_of_spec. exact (get_any_valid (one_of VERDICTS) _ _ _ _ H1 H2 Hk).
  - intros v a Ha. apply one_of_spec. exact (get_any_valid (one_of ACTIONS) _ _ (PStr "escalate_human") _ H3 eq_refl Ha).
Qed.

(** ** Learning lowers a law by one step or leaves it *)

Section learning_lemmas.
Context `{FloatRepr}.

(** Whether a receipt is an outcome of a class, and whether it failed. *)
Definition outcome_of (kind : string) (r : pyval) : bool :=
  match r with
  | PDict d => truthy (default PNone (assoc "execution" d)) &&
               String.eqb (py_str (default (PStr "unknown") (assoc "beacon_kind" d))) kind
  | _ => false
  end.

Definition unresolved (r : pyval) : bool :=
  match r with
  | PDict d =>
    match default PNone (assoc "execution" d) with
    | PDict ex => negb (truthy (default PNone (assoc "healed" ex)) || truthy (default PNone (assoc "proposed" ex))
                        || truthy (default PNone (assoc "quarantined" ex)))
    | _ => false
    end
  | _ => false
  end.

Definition tally (decisions : list pyval) (kind : string) : outcomes :=
  mkOutcomes (Z.of_nat (length (List.filter (outcome_of kind) decisions)))
             (Z.of_nat (length (List.filter (fun r => outcome_of kind r && unresolved r) decisions))).

Definition add_outcomes (a b : outcomes) : outcomes :=
  mkOutcomes (attempts a + attempts b) (failures a + failures b).

Lemma add_outcomes_0 x : add_outcomes x (mkOutcomes 0 0) = x.
Proof. destruct x as [a f]. unfold add_outcomes. simpl. f_equal; lia. Qed.

Lemma count_outcome_spec stats r stats' kind :
  count_outcome stats r = Ok stats' ->
  default (mkOutcomes 0 0) (assoc kind stats')
  = add_outcomes (default (mkOutcomes 0 0) (assoc kind stats)) (tally [r] kind).
Proof.
  unfold count_outcome, tally. intros H0. apply bind_Ok_inv in H0 as (ex & Hex & H0).
  destruct r as [| | | | | |d]; try discriminate. injection Hex as Hex. simpl. rewrite Hex.
  destruct (truthy ex) eqn:Et; simpl in H0 |- *.
  2:{ injection H0 as <-. by rewrite add_outcomes_0. }
  destruct ex as [| | | | | |ed]; try discriminate. cbn [mbind res_bind] in H0.
  injection H0 as <-. set (k := py_str _). simpl.
  destruct (String.eqb_spec k kind) as [->|Hne]; simpl.
  - rewrite assoc_set_eq. simpl. unfold add_outcomes. f_equal; simpl. by destruct (negb _).
  - rewrite assoc_set_ne by congruence. by rewrite add_outcomes_0.
Qed.

Lemma tally_app l1 l2 kind : tally (l1 ++ l2) kind = add_outcomes (tally l1 kind) (tally l2 kind).
Proof. unfold tally, add_outcomes. simpl. rewrite !List.filter_app, !length_app. f_equal; lia. Qed.

Lemma outcomes_counted l stats kind :
  _outcomes_by_kind l = Ok stats -> default (mkOutcomes 0 0) (assoc kind stats) = tally l kind.
Proof.
  unfold _outcomes_by_kind.
  assert (Hg : forall l stats0 stats, res_fold count_outcome stats0 l = Ok stats ->
    default (mkOutcomes 0 0) (assoc kind stats) = add_outcomes (default (mkOutcomes 0 0) (assoc kind stats0)) (tally l kind)).
  { clear. induction l as [|r l IH]; intros stats0 stats; cbn [res_fold].
    - intros [= <-]. unfold tally. simpl. by rewrite add_outcomes_0.
    - intros Hf. apply bind_Ok_inv in Hf as (s1 & H1 & H2). rewrite (IH _ _ H2), (count_outcome_spec _ _ _ _ H1).
      change (r :: l) with ([r] ++ l)%list. rewrite tally_app. unfold add_outcomes. simpl. f_equal; lia. }
  intros Hf. rewrite (Hg _ _ _ Hf). simpl. destruct (tally l kind) as [a f]. unfold add_outcomes. simpl. f_equal; lia.
Qed.

Lemma outcomes_NoDup l stats : _outcomes_by_kind l = Ok stats -> NoDup stats.*1.
Proof.
  unfold _outcomes_by_kind. apply (res_fold_inv (fun s => NoDup s.*1)); [|constructor].
  intros r s1 s2 _ Hs Hc. unfold count_outcome in Hc. apply bind_Ok_inv in Hc as (ex & _ & Hc).
  destruct (negb _); [by injection Hc as <-|].
  repeat (apply bind_Ok_inv in Hc as (? & ? & Hc); cbn beta in Hc). injection Hc as <-.
  by apply NoDup_assoc_set.
Qed.

Lemma recommend_spec policy mn thr kind s r :
  recommend policy mn thr (kind, s) = Ok (Some r) ->
  exists n rate, rec_kind r = kind /\ rec_attempts r = attempts s /\ rec_failures r = failures s /\
    (mn <= attempts s)%Z /\ py_truediv (failures s) (attempts s) = Ok rate /\ F64.ltb rate thr = false /\
    law_for policy (PStr kind) = Ok (current_law r) /\
    rank_in VERDICTS (current_law r) = Some (S n) /\ VERDICTS !! n = Some (recommended_law r).
Proof.
  unfold recommend. destruct (Z.ltb_spec (attempts s) mn); [done|]. intros Hr.
  apply bind_Ok_inv in Hr as (rate & Hrate & Hr). destruct (F64.ltb rate thr) eqn:Ht; [done|].
  apply bind_Ok_inv in Hr as (cur & Hcur & Hr). unfold _demote in Hr.
  destruct (rank_in VERDICTS cur) as [[|n]|] eqn:Ek; [done| |done].
  destruct (VERDICTS !! n) as [d|] eqn:Ed; [|done]. destruct (eq_str cur d); [done|]. injection Hr as <-.
  exists n, rate. by split_and!.
Qed.

(** Learning only ever proposes less autonomy, and only on evidence.  Every
    recommendation counts the executed outcomes of its class in the receipts and
    those among them that did not resolve; there are enough of them, the share
    of failures is not below the threshold, and the recommended law is the
    verdict one step below the law the policy gives the class. *)
Theorem learning_only_demotes policy mn thr decisions recs r :
  analyze policy mn thr decisions = Ok recs -> r ∈ recs ->
  exists n rate,
    mkOutcomes (rec_attempts r) (rec_failures r) = tally decisions (rec_kind r) /\
    (mn <= rec_attempts r)%Z /\ py_truediv (rec_failures r) (rec_attempts r) = Ok rate /\ F64.ltb rate thr = false /\
    law_for policy (PStr (rec_kind r)) = Ok (current_law r) /\
    rank_in VERDICTS (current_law r) = Some (S n) /\ VERDICTS !! n = Some (recommended_law r).
Proof.
  intros Ha Hr. unfold analyze in Ha. apply bind_Ok_inv in Ha as (stats & Hs & Ha).
  apply bind_Ok_inv in Ha as (os & Ho & Ha). injection Ha as <-.
  apply list_elem_of_omap in Hr as (o & Hin & ->). apply res_map_Ok_Forall2 in Ho.
  apply list_elem_of_lookup in Hin as [i Hi]. destruct (Forall2_lookup_r _ _ _ _ _ Ho Hi) as ([kind s] & Hk & Hrec).
  destruct (recommend_spec _ _ _ _ _ _ Hrec) as (n & rate & Ek & Ea & Ef & Hm & Hrate & Ht & Hl & Hrk & Hv).
  exists n, rate. rewrite Ek, Ea, Ef. split_and!; try done.
  rewrite <- (outcomes_counted decisions stats kind Hs).
  rewrite (assoc_NoDup kind s); [by destruct s|by eapply outcomes_NoDup|].
  apply (elem_of_py_sort key_ltb). by eapply list_elem_of_lookup_2.
Qed.
End learning_lemmas.

(** ** Witnesses *)

Local Existing Instance demo_float_repr.

Definition demo_policy_file : pyval :=
  PDict [("law_by_kind", PDict [("mirror_drift", PStr "weak"); ("new_class", PStr "probable")]);
         ("iri_block", PStr "0.4")].

Definition demo_policy : ResponsePolicy :=
  match load_policy (Some demo_policy_file) with Ok p => p | Raise _ => DEFAULT_POLICY end.

Lemma loaded_policy_sound_witness :
  load_policy (Some demo_policy_file) = Ok demo_policy /\
  law_for demo_policy (PStr "mirror_drift") = Ok (PStr "weak") /\
  exists s, PStr "weak" = PStr s /\ s ∈ VERDICTS.
Proof.
  assert (Hl : load_policy (Some demo_policy_file) = Ok demo_policy) by (vm_compute; reflexivity).
  assert (Hw : law_for demo_policy (PStr "mirror_drift") = Ok (PStr "weak")) by (vm_compute; reflexivity).
  split; [exact Hl|]. split; [exact Hw|].
  destruct (loaded_policy_sound (Some demo_policy_file) demo_policy Hl) as (Hlaw & _). exact (Hlaw _ _ Hw).
Defined.

Definition failing_receipt : pyval :=
  PDict [("beacon_kind", PStr "mirror_drift"); ("execution", PDict [("healed", PBool false); ("error", PStr "e")])].

Definition demo_recs : list recommendation :=
  match analyze DEFAULT_POLICY 2 DEFAULT_FAILURE_THRESHOLD [failing_receipt; failing_receipt] with
  | Ok l => l | Raise _ => []
  end.

Lemma learning_only_demotes_witness :
  exists r, r ∈ demo_recs /\ recommended_law r = "probable" /\
    exists n, rank_in VERDICTS (current_law r) = Some (S n) /\ VERDICTS !! n = Some (recommended_law r).
Proof.
  destruct demo_recs as [|r l] eqn:E; [vm_compute in E; discriminate|]. exists r.
  split; [by left|].
  destruct (learning_only_demotes DEFAULT_POLICY 2 DEFAULT_FAILURE_THRESHOLD [failing_receipt; failing_receipt]
              demo_recs r) as (n & rate & _ & _ & _ & _ & _ & Hr & Hv).
  - vm_compute. reflexivity.
  - rewrite E. by left.
  - split; [|by exists n]. vm_compute in E. injection E as <- _. reflexivity.
Defined.
