(* ===== verification/SelfHeal.v ===== *)
(** * Self-heal actuation

    Models [automation/self_heal.py] and, from [automation/control_loop.py], the
    sealed JSON form of a loop's result.  The invariant of a class, the executor
    and the opener of a pull request act on a world of any type; an opener that
    raises gives the text of its exception. *)

From Stdlib Require Import SpecFloat.
From S2P Require Import Prelude PyVal Json PyText Sha256 ControlLoop.
Local Open Scope string_scope.

(** The arguments [ControlLoop] is built with by default. *)
Definition default_loop : loop := mkLoop 5 (F64.of_Z 30) F64.zero 2 "quarantine-escalate".

(** The loop of [remediate_via_pr]. *)
Definition pr_loop : loop := mkLoop 2 (F64.of_Z 30) F64.zero 2 "quarantine-escalate".

Section text.
Context `{FloatRepr}.

Definition reason_text (r : stop_reason) : string :=
  match r with
  | Reached err target => "error " +:+ repr_float err +:+ " <= target " +:+ repr_float target
  | Exhausted n => "exhausted max_iterations=" +:+ pretty n +:+ " without reaching target"
  | DeadlineExceeded d => "deadline " +:+ repr_float d +:+ "s exceeded"
  | Stuck n => "error not decreasing for " +:+ pretty n +:+ " steps (stuck) — refusing to loop"
  | NoInvariant kind => "no invariant registered for '" +:+ kind +:+ "' — cannot verify convergence"
  end.

Definition step_json (s : step) : pyval :=
  PDict ([("iter", PInt (Z.of_nat (iter s))); ("error", PFloat (s_error s)); ("elapsed_s", PFloat (elapsed_s s))]
         ++ if acted s then [("action", PStr "act")] else [])%list.

Definition to_json (r : LoopResult) : dict :=
  let trace := PList (map step_json (trace r)) in
  [("converged", PBool (converged r)); ("iterations", PInt (Z.of_nat (iterations r)));
   ("initial_error", PFloat (initial_error r)); ("final_error", PFloat (final_error r)); ("trace", trace);
   ("fail_closed_state", match fail_closed_state r with Some s => PStr s | None => PNone end);
   ("reason", PStr (reason_text (l_reason r))); ("trace_hash", PStr (sha256_hex (canonical trace)))].

Section remediate.
Context {W : Type}.
Variable clock : W -> spec_float * W.
Variable INVARIANTS : list (string * (W -> res spec_float * W)).
(** [opener(proposal)]: the address of the pull request, or the exception's text. *)
Variable opener : pyval -> W -> (string + string) * W.

(** What the closures of [remediate_via_pr] capture. *)
Record captured := mkCaptured { pr_url : option string; pr_error : option string }.

Definition pr_observe (cw : captured * W) : res spec_float * (captured * W) :=
  (Ok (match pr_url cw.1 with
       | Some (String _ _) => F64.zero
       | _ => F64.of_Z 1
       end), cw).

Definition pr_act (proposal : pyval) (cw : captured * W) : captured * W :=
  match opener proposal cw.2 with
  | (inl url, w) => (mkCaptured (Some url) (pr_error cw.1), w)
  | (inr err, w) => (mkCaptured (pr_url cw.1) (Some err), w)
  end.

Definition pr_clock (cw : captured * W) : spec_float * (captured * W) :=
  let (t, w) := clock cw.2 in (t, (cw.1, w)).

Definition url_value (c : captured) : pyval := match pr_url c with Some u => PStr u | None => PNone end.

Definition remediate_via_pr (proposal : pyval) (w : W) : option (dict * W) :=
  match run pr_observe (pr_act proposal) pr_clock pr_loop (mkCaptured None None, w) with
  | None => None
  | Some (result, (c, w)) =>
    let sealed := (to_json result ++ [("mode", PStr "propose_pr"); ("pr_url", url_value c)])%list in
    let sealed :=
      if converged result then sealed
      else
        let sealed := assoc_set "error" (PStr (default "PR could not be opened" (pr_error c))) sealed in
        match pr_url c with
        | Some (String _ _ as url) => assoc_set "fail_closed_state" (PStr ("human-review:" +:+ url)) sealed
        | _ => sealed
        end in
    Some (sealed, w)
  end.

(** [remediate] with an executor at hand. *)
Definition remediate (beacon : pyval) (receipt : dict) (executor : W -> W) (w : W) : res (option (dict * W)) :=
  let action := default PNone (assoc "action" receipt) in
  if eq_str action "auto_fix" then
    kind ← py_get beacon "kind_class" (PStr "unknown");
    if negb (hashable kind) then Raise TypeError else
    Ok (match heal INVARIANTS (py_str kind) executor clock default_loop w with
        | Some (result, w) => Some ((to_json result ++ [("mode", PStr "auto_fix")])%list, w)
        | None => None
        end)
  else if eq_str action "propose_pr" then
    proposal ← py_get beacon "proposal" PNone;
    Ok (remediate_via_pr (py_or proposal (PDict [])) w)
  else
    Ok (Some ([("converged", PBool false); ("mode", py_or action (PStr "unknown"));
               ("fail_closed_state", PStr "escalate-human");
               ("reason", PStr ("action '" +:+ py_str action +:+ "' is not an autonomous remediation"))], w)).
End remediate.
End text.

(** ** A sealed result says what happened *)

(** When observing and reading the clock do not change the error, the error a
    run ends with is that of the world it leaves. *)
Section final.
Context {W : Type}.
Variable error : W -> spec_float.
Variable act : W -> W.
Variable clock : W -> spec_float * W.
Variable c : loop.
Hypothesis clock_error : forall w, error (clock w).2 = error w.

Lemma run_loop_final fuel t0 best stall i rt w rt' fin conv reason w' :
  run_loop (plain_observe error) act clock c fuel t0 (error w) best stall i rt w
    = Some (rt', fin, conv, reason, w') -> fin = error w'.
Proof.
  revert best stall i rt w; induction fuel as [|fuel IH]; intros best stall i rt w; cbn [run_loop]; [done|].
  pose proof (clock_error w) as H1. destruct (clock w) as [now w1]. cbn [snd] in H1.
  destruct (at_target c (error w)); [by intros [= <- <- <- <- <-]|].
  destruct (Nat.leb _ _); [by intros [= <- <- <- <- <-]|].
  pose proof (clock_error w1) as H2. destruct (clock w1) as [now2 w2]. cbn [snd] in H2.
  destruct (F64.ltb (deadline_s c) _); [intros [= <- <- <- <- <-]; congruence|].
  cbv zeta. destruct (_ && _); [intros [= <- <- <- <- <-]; congruence|].
  unfold _observe, plain_observe. cbn beta iota. apply IH.
Qed.

Lemma run_final w result w' :
  run (plain_observe error) act clock c w = Some (result, w') ->
  final_error result = error w' /\ converged result = at_target c (error w').
Proof.
  intros Hr. destruct (run_loop_converged (plain_observe error) act clock c w result w' Hr) as [Hc _].
  enough (Hf : final_error result = error w') by (by rewrite <- Hf).
  unfold run in Hr. pose proof (clock_error w) as H0. destruct (clock w) as [t0 w0]. cbn [snd] in H0.
  unfold _observe at 1, plain_observe at 1 in Hr. cbn beta iota in Hr.
  destruct (run_loop _ _ _ _ _ _ _ _ _ _ _ _) as [[[[[rt fin] conv] reason] w1]|] eqn:El; [|done].
  injection Hr as <- <-. simpl. by eapply run_loop_final.
Qed.
End final.

Section sealed.
Context `{FloatRepr} {W : Type}.
Variable clock : W -> spec_float * W.
Variable opener : pyval -> W -> (string + string) * W.

Definition pr_error_of (cw : captured * W) : spec_float :=
  match pr_url cw.1 with Some (String _ _) => F64.zero | _ => F64.of_Z 1 end.

Lemma pr_at_target cw :
  at_target pr_loop (pr_error_of cw) = match pr_url cw.1 with Some (String _ _) => true | _ => false end.
Proof. unfold pr_error_of. by destruct (pr_url cw.1) as [[|a s]|]; vm_compute. Qed.

(** Opening the pull request is the convergence.  Remediation by pull
    request always returns a sealed result; it says converged exactly when it
    names a pull request, and otherwise it names none, carries the error, and
    hands back the safe state. *)
Theorem pr_converges_iff_opened proposal (w : W) :
  exists sealed w', remediate_via_pr clock opener proposal w = Some (sealed, w') /\
    ((exists url, url <> "" /\ assoc "pr_url" sealed = Some (PStr url) /\
        assoc "converged" sealed = Some (PBool true) /\ assoc "fail_closed_state" sealed = Some PNone) \/
     ((assoc "pr_url" sealed = Some PNone \/ assoc "pr_url" sealed = Some (PStr "")) /\
        assoc "converged" sealed = Some (PBool false) /\
        assoc "fail_closed_state" sealed = Some (PStr "quarantine-escalate") /\
        exists e, assoc "error" sealed = Some (PStr e))).
Proof.
  unfold remediate_via_pr.
  destruct (run_returns pr_observe (pr_act opener proposal) (pr_clock clock) pr_loop (mkCaptured None None, w))
    as (result & [c w'] & Hrun). destruct (run_loop_converged _ _ _ _ _ _ _ Hrun) as [_ Hfc].
  assert (Hfin : converged result = at_target pr_loop (pr_error_of (c, w'))).
  { apply (run_final pr_error_of (pr_act opener proposal) (pr_clock clock) pr_loop) with (w := (mkCaptured None None, w)); [|exact Hrun].
    intros [c0 w0]. unfold pr_clock. simpl. by destruct (clock w0). }
  rewrite Hrun. rewrite pr_at_target in Hfin. simpl in Hfin. eexists _, w'. split; [reflexivity|].
  destruct (pr_url c) as [[|a u]|] eqn:Eu; rewrite Hfin in Hfc |- *.
  - right. rewrite !assoc_set_ne, assoc_set_eq by discriminate. unfold url_value. rewrite Eu. simpl.
    rewrite Hfin, Hfc. eauto 8.
  - left. unfold url_value. rewrite Eu. exists (String a u). simpl. by rewrite Hfin, Hfc.
  - right. rewrite !assoc_set_ne, assoc_set_eq by discriminate. unfold url_value. rewrite Eu. simpl.
    rewrite Hfin, Hfc. eauto 8.
Qed.

(** The pull request a converged remediation names is one the opener returned
    for this very proposal. *)
Lemma pr_named_by_opener proposal (w : W) sealed w' :
  remediate_via_pr clock opener proposal w = Some (sealed, w') -> truthy (default PNone (assoc "converged" sealed)) = true ->
  exists url w0 w1, url <> "" /\ assoc "pr_url" sealed = Some (PStr url) /\ opener proposal w0 = (inl url, w1).
Proof.
  intros Hr Hc. destruct (pr_converges_iff_opened proposal w) as (s & w2 & Hr' & [(url & Hne & Hu & _)|(_ & Hf & _)]);
    rewrite Hr in Hr'; injection Hr' as <- <-; [|by rewrite Hf in Hc].
  unfold remediate_via_pr in Hr.
  destruct (run _ _ _ _ _) as [[result [c w3]]|] eqn:Hrun; [|done].
  assert (HP : match pr_url c with Some u => exists w0 w1, opener proposal w0 = (inl u, w1) | None => True end).
  { apply (run_preserves pr_observe (pr_act opener proposal) (pr_clock clock) pr_loop
      (fun cw => match pr_url cw.1 with Some u => exists w0 w1, opener proposal w0 = (inl u, w1) | None => True end))
      in Hrun; [done| | |done|done].
    - intros [c0 w0] H0. unfold pr_act. cbn [fst snd] in *. destruct (opener proposal w0) as [[u|err] w1] eqn:Eo; cbn; [by exists w0, w1|done].
    - intros [c0 w0] H0. unfold pr_clock. cbn [fst snd] in *. by destruct (clock w0). }
  assert (Eu : url_value c = PStr url).
  { injection Hr as Hs _. rewrite <- Hs in Hu. destruct (converged result); [simpl in Hu; congruence|].
    destruct (pr_url c) as [[|]|] eqn:Ec; rewrite ?assoc_set_ne in Hu by done; simpl in Hu; congruence. }
  unfold url_value in Eu. destruct (pr_url c) as [u|]; [|done]. injection Eu as ->. destruct HP as (w0 & w1 & Ho). by exists url, w0, w1.
Qed.
End sealed.
