(* ===== verification/Executors.v ===== *)
(** * The executors

    Models [automation/executors.py], which carries out what the responder
    decides: the reconciler with its verification and rollback, the re-sync of
    the mirror drift status, the canary, the recording of a proposal and of a
    quarantine; and from [automation/control_loop.py] the invariant of mirror
    drift, so that the loop that runs the re-sync is the modelled one.

    Files are the map of [MirrorDrift]; reads and writes of a file do not fail
    halfway, and the directories are there.  A check reads; a regeneration may
    write anything before it raises.  The text of an exception is an argument. *)

From Stdlib Require Import SpecFloat.
From S2P Require Import Prelude PyVal PyText Json JsonParse Sha256 FloatOrder Lazerus DurableQueue ControlLoop SelfHeal MirrorDrift.
Local Open Scope string_scope.

(** ** The reconciler *)

Record Reconciler := mkReconciler {
  r_name : string;
  r_check : files -> res bool;
  r_regenerate : files -> res unit * files;
  artifacts : list string
}.

(** The result of an executor that fixes an artifact. *)
Record fix_result := mkFix {
  executor : string;
  action_taken : string;
  healed : bool;
  rolled_back : bool;
  error : option string
}.

Definition fix_json (r : fix_result) : dict :=
  ([("executor", PStr (executor r)); ("action_taken", PStr (action_taken r)); ("healed", PBool (healed r));
    ("rolled_back", PBool (rolled_back r))] ++ match error r with Some e => [("error", PStr e)] | None => [] end)%list.

Definition _snapshot (fs : files) (paths : list string) : list (string * option string) :=
  fold_left (fun snap p => assoc_set p (fs !! p) snap) paths [].

Definition put_back (fs : files) (entry : string * option string) : files :=
  match entry.2 with
  | Some prior => <[entry.1 := prior]> fs
  | None => delete entry.1 fs
  end.

Definition _restore (snapshot : list (string * option string)) (fs : files) : files := fold_left put_back snapshot fs.

Section executors.
Variable exc_text : exn -> string.

Definition reconcile (r : Reconciler) (fs : files) : fix_result * files :=
  match r_check r fs with
  | Ok true => (mkFix (r_name r) "noop" true false None, fs)
  | Raise e => (mkFix (r_name r) "abort" false false (Some ("cannot assess (source of truth unreadable): " +:+ exc_text e)), fs)
  | Ok false =>
    let snapshot := _snapshot fs (artifacts r) in
    match r_regenerate r fs with
    | (Raise e, fs) => (mkFix (r_name r) "abort" false true (Some ("regeneration failed: " +:+ exc_text e)), _restore snapshot fs)
    | (Ok _, fs) =>
      match r_check r fs with
      | Ok true => (mkFix (r_name r) "regenerated" true false None, fs)
      | Ok false =>
        (mkFix (r_name r) "regenerated" false true (Some "post-regeneration verification failed; rolled back"), _restore snapshot fs)
      | Raise e =>
        (mkFix (r_name r) "regenerated" false true (Some ("post-regeneration verification error: " +:+ exc_text e)), _restore snapshot fs)
      end
    end
  end.

(** ** The vendored graph *)

Definition VENDORED_GRAPH_PATH : string := "registry/neurosymbolic-repo-graph-reasoner/vendored-artifact.graph.ttl".

Section vendored.
(** The check and the lift are programs: the exit code, and for the lift its
    error output and the files it leaves. *)
Variable vg_check : files -> Z.
Variable vg_lift : files -> Z * string * files.

Definition vendored_graph_in_sync (fs : files) : res bool := Ok (Z.eqb (vg_check fs) 0).

Definition _vendored_graph_regenerate (fs : files) : res unit * files :=
  let '(code, stderr, fs) := vg_lift fs in
  if Z.eqb code 0 then (Ok tt, fs)
  else (Raise (RuntimeError ("lift failed (rc=" +:+ pretty code +:+ "): " +:+ str_take 200 (py_strip stderr))), fs).

Definition vendored_graph_reconciler : Reconciler :=
  mkReconciler "reconcile_vendored_graph" vendored_graph_in_sync _vendored_graph_regenerate [VENDORED_GRAPH_PATH].

Definition reconcile_vendored_graph (fs : files) : fix_result * files := reconcile vendored_graph_reconciler fs.
End vendored.

(** ** The mirror drift status *)

Section resync.
Context `{FloatRepr}.
Variable yaml_load : string -> res pyval.
Variable yaml_dump : pyval -> res string.

Definition is_in_sync (registry_path status_path : string) (fs : files) : res bool :=
  if negb (exists_file fs status_path) then Ok false else
  registry ← _load_yaml yaml_load fs registry_path;
  match registry with
  | PDict registry =>
    expected ← build_payload registry;
    match _load_yaml yaml_load fs status_path with
    | Ok (PDict current) => Ok (py_eq (PDict current) (PDict expected))
    | _ => Ok false
    end
  | v => Raise (ValueError ("registry " +:+ registry_path +:+ " did not parse to a mapping (got " +:+ type_name v +:+
                            ") — un-assessable, refusing to act"))
  end.

Definition _rollback (status_path : string) (had_prior : bool) (prior : option string) (fs : files) : files :=
  match had_prior, prior with
  | true, Some prior => <[status_path := prior]> fs
  | _, _ => delete status_path fs
  end.

(** The third step: the status written from the registry. *)
Definition regenerate_status (registry_path status_path : string) (fs : files) : res files :=
  registry ← _load_yaml yaml_load fs registry_path;
  match py_or registry (PDict []) with
  | PDict registry =>
    payload ← build_payload registry;
    _write_yaml yaml_dump fs status_path STATUS_HEADER payload
  | _ => Raise AttributeError
  end.

Definition resync_mirror_drift (registry_path status_path : string) (fs : files) : fix_result * files :=
  let name := "resync_mirror_drift" in
  match is_in_sync registry_path status_path fs with
  | Ok true => (mkFix name "noop" true false None, fs)
  | Raise e => (mkFix name "abort" false false (Some ("cannot assess drift (source of truth unreadable): " +:+ exc_text e)), fs)
  | Ok false =>
    let had_prior := exists_file fs status_path in
    let prior := fs !! status_path in
    match regenerate_status registry_path status_path fs with
    | Raise e => (mkFix name "abort" false true (Some ("regeneration failed: " +:+ exc_text e)), _rollback status_path had_prior prior fs)
    | Ok fs =>
      match is_in_sync registry_path status_path fs with
      | Ok true => (mkFix name "regenerated" true false None, fs)
      | Ok false =>
        (mkFix name "regenerated" false true (Some "post-write verification failed; rolled back"), _rollback status_path had_prior prior fs)
      | Raise e =>
        (mkFix name "regenerated" false true (Some ("post-write verification error: " +:+ exc_text e)), _rollback status_path had_prior prior fs)
      end
    end
  end.

(** The same step as a regeneration: nothing is written when it raises. *)
Definition status_reconciler (registry_path status_path : string) : Reconciler :=
  mkReconciler "resync_mirror_drift" (is_in_sync registry_path status_path)
    (fun fs => match regenerate_status registry_path status_path fs with Ok fs' => (Ok tt, fs') | Raise e => (Raise e, fs) end)
    [status_path].

(** The invariant the control loop observes. *)
Definition _mirror_drift_error (registry_path status_path : string) (fs : files) : spec_float :=
  match is_in_sync registry_path status_path fs with
  | Ok true => F64.zero
  | Ok false => F64.of_Z 1
  | Raise _ => F64.inf
  end.

(** ** The canary *)

Definition _CANARY_REGISTRY : string := q (lines
  ["version: '1.0.0'"; "updated_at: '2026-01-01'"; "mirrors:"; "  - name: canary"; "    org: Canary";
   "    url: https://example.invalid/canary"; "    upstream:"; "      url: https://example.invalid/upstream"; "      ref: main";
   "      head_sha: deadbeefdeadbeefdeadbeefdeadbeefdeadbeef"; "      checked_at: '2026-01-01'";
   "    mirror_head_sha: cafebabecafebabecafebabecafebabecafebabe"; "    drift:"; "      status: behind"; "      note: canary"; ""]).

(** The temporary directory holds the registry and no status. *)
Definition _mirror_drift_canary : res bool :=
  let fs : files := {["registry.yaml" := _CANARY_REGISTRY]} in
  let (r, fs) := resync_mirror_drift "registry.yaml" "status.yaml" fs in
  if healed r then is_in_sync "registry.yaml" "status.yaml" fs else Ok false.

Definition canary_refused (text : string) : dict :=
  [("executor", PStr "canary_fix"); ("healed", PBool false); ("canary_passed", PBool false); ("error", PStr text)].

(** The one class with a canary is the drift of the mirrors; [beacon.get]. *)
Definition canary_fix (beacon : dict) (registry_path status_path : string) (fs : files) : res (dict * files) :=
  let kind := field "kind_class" beacon in
  if negb (hashable kind) then Raise TypeError else
  if eq_str kind "mirror_drift" then
    match _mirror_drift_canary with
    | Raise e => Ok (canary_refused ("canary raised: " +:+ exc_text e), fs)
    | Ok false => Ok (canary_refused "canary failed: fix mechanism not trusted, real artifact untouched", fs)
    | Ok true =>
      let (result, fs) := resync_mirror_drift registry_path status_path fs in
      Ok (assoc_set "canary_passed" (PBool true) (fix_json result), fs)
    end
  else Ok (canary_refused ("no canary mechanism for class " +:+ py_repr kind +:+ " — cannot prove a fix"), fs).
End resync.
End executors.

(** ** Proposals and quarantine *)

Section records.
Context `{FloatRepr}.

Definition _proposal_id (proposal : dict) : string := str_take 16 (sha256_hex (dumps (norm (PDict proposal)))).

Definition _valid_proposal (p : pyval) : bool :=
  match p with
  | PDict d =>
    truthy (field "title" d) && truthy (field "branch" d) &&
    match field "files" d with PDict (_ :: _) => true | _ => false end
  | _ => false
  end.

(** [{"base": "main", **proposal}]. *)
Definition with_base (proposal : dict) : dict :=
  fold_left (fun d kv => assoc_set kv.1 kv.2 d) proposal [("base", PStr "main")].

Definition proposal_entry (pid : string) (proposal beacon : dict) : dict :=
  [("id", PStr pid); ("proposal", PDict proposal); ("beacon_kind", field "kind_class" beacon);
   ("system", field "system" beacon); ("evidence_ref", field "evidence_ref" beacon)].

(** [beacon.get("proposal")] when it is valid, with its base branch. *)
Definition checked_proposal (beacon : dict) : option dict :=
  match field "proposal" beacon with
  | PDict d as p => if _valid_proposal p then Some (with_base d) else None
  | _ => None
  end.

(** The recording without an opener; [ns] and [uuid] name the queued item. *)
Definition propose_pr (ns : Z) (uuid : string) (beacon : dict) (proposals : DurableQueue) : dict * DurableQueue :=
  let result := [("executor", PStr "propose_pr"); ("proposed", PBool false); ("opened", PBool false)] in
  match checked_proposal beacon with
  | None => (assoc_set "error" (PStr "beacon carries no valid proposal (need title, branch, files)") result, proposals)
  | Some proposal =>
    let pid := _proposal_id proposal in
    (assoc_set "proposed" (PBool true) (assoc_set "proposal_ref" (PStr pid) result),
     (put ns uuid (PDict (proposal_entry pid proposal beacon)) proposals).2)
  end.

(** The same with an injected opener, which acts on a world of its own. *)
Definition propose_pr_open {W} (opener : dict -> W -> (pyval + string) * W) (beacon : dict) (w : W) : dict * W :=
  let result := [("executor", PStr "propose_pr"); ("proposed", PBool false); ("opened", PBool false)] in
  match checked_proposal beacon with
  | None => (assoc_set "error" (PStr "beacon carries no valid proposal (need title, branch, files)") result, w)
  | Some proposal =>
    let result := assoc_set "proposal_ref" (PStr (_proposal_id proposal)) result in
    match opener proposal w with
    | (inr err, w) => (assoc_set "error" (PStr ("pr opener failed: " +:+ err)) result, w)
    | (inl url, w) => (assoc_set "pr_url" url (assoc_set "opened" (PBool true) (assoc_set "proposed" (PBool true) result)), w)
    end
  end.

Definition quarantine_reason (beacon : dict) : res pyval :=
  reason ← py_get (py_or (field "detail" beacon) (PDict [])) "reason" PNone;
  Ok (py_or reason (field "reason" beacon)).

Definition quarantine (now : string) (ns : Z) (uuid : string) (beacon : dict) (markers : DurableQueue) : res (dict * DurableQueue) :=
  let result := [("executor", PStr "quarantine"); ("quarantined", PBool false)] in
  let subject := field "system" beacon in
  if negb (truthy subject) then Ok (assoc_set "error" (PStr "beacon has no subject (system) to quarantine") result, markers)
  else
    reason ← quarantine_reason beacon;
    Ok (assoc_set "subject" subject (assoc_set "quarantined" (PBool true) result),
        (put ns uuid (PDict [("subject", subject); ("kind_class", field "kind_class" beacon); ("reason", reason);
                             ("evidence_ref", field "evidence_ref" beacon); ("quarantined_at", PStr now)]) markers).2).
End records.

(** ** Rolling back *)

Lemma put_back_lookup fs k prior p : put_back fs (k, prior) !! p = if decide (k = p) then prior else fs !! p.
Proof.
  unfold put_back. cbn [fst snd]. destruct prior as [b|], (decide (k = p)) as [->|Hne];
    [apply lookup_insert_eq|by apply lookup_insert_ne|apply lookup_delete_eq|by apply lookup_delete_ne].
Qed.

Lemma restore_lookup snap fs p :
  NoDup snap.*1 -> _restore snap fs !! p = match assoc p snap with Some prior => prior | None => fs !! p end.
Proof.
  unfold _restore. revert fs. induction snap as [|[k prior] snap IH]; intros fs; [done|].
  rewrite fmap_cons, NoDup_cons. intros [Hk Hnd]. cbn [fold_left assoc]. rewrite IH, put_back_lookup by done.
  destruct (String.eqb_spec k p) as [->|Hne].
  - rewrite (proj2 (assoc_None p snap)) by done. by rewrite decide_True.
  - by rewrite decide_False.
Qed.

Lemma snapshot_from (fs : files) paths snap :
  NoDup snap.*1 -> let s := fold_left (fun snap p => assoc_set p (fs !! p) snap) paths snap in
  NoDup s.*1 /\ forall p, assoc p s = if decide (p ∈ paths) then Some (fs !! p) else assoc p snap.
Proof.
  revert snap. induction paths as [|q paths IH]; intros snap Hnd; cbn [fold_left].
  { split; [done|]. intros p. rewrite decide_False; [done|]. apply not_elem_of_nil. }
  destruct (IH (assoc_set q (fs !! q) snap)) as [H1 H2]; [by apply NoDup_assoc_set|]. split; [done|].
  intros p. rewrite H2. destruct (decide (p ∈ paths)) as [Hin|Hout].
  - rewrite decide_True; [done|by right].
  - destruct (decide (q = p)) as [->|Hne].
    + rewrite assoc_set_eq, decide_True; [done|by left].
    + rewrite assoc_set_ne, decide_False; [done| |done]. rewrite elem_of_cons. naive_solver.
Qed.

(** The artifacts come back, the rest stays as it is. *)
Lemma rollback_lookup fs paths fs' p :
  _restore (_snapshot fs paths) fs' !! p = if decide (p ∈ paths) then fs !! p else fs' !! p.
Proof.
  destruct (snapshot_from fs paths [] ltac:(constructor)) as [Hnd Ha].
  unfold _snapshot. rewrite restore_lookup, Ha by done. by destruct (decide (p ∈ paths)).
Qed.

Lemma rollback_one fs path fs' : _restore (_snapshot fs [path]) fs' = _rollback path (exists_file fs path) (fs !! path) fs'.
Proof.
  apply map_eq. intros p. rewrite rollback_lookup. unfold _rollback, exists_file.
  destruct (decide (p ∈ [path])) as [->%list_elem_of_singleton|Hp].
  - destruct (fs !! path); [by rewrite lookup_insert_eq|by rewrite lookup_delete_eq].
  - assert (path <> p) by (intros ->; apply Hp; by left).
    destruct (fs !! path); [by rewrite lookup_insert_ne|by rewrite lookup_delete_ne].
Qed.

(** ** Healed and verified, or as before *)

(** A reconciliation that says healed leaves files that pass the check;
    one that does not leaves every artifact as it was, and every file that the
    regeneration does not write.  It rolls back exactly when it found drift and
    did not heal it, and when it neither heals nor rolls back it wrote nothing. *)
Theorem reconcile_heals_or_restores exc_text r fs result fs' :
  reconcile exc_text r fs = (result, fs') ->
  (healed result = true -> r_check r fs' = Ok true) /\
  (healed result = false ->
    forall p, p ∈ artifacts r \/ (forall f, (r_regenerate r f).2 !! p = f !! p) -> fs' !! p = fs !! p) /\
  (rolled_back result = true <-> r_check r fs = Ok false /\ healed result = false) /\
  (is_ok (r_check r fs) = false -> healed result = false /\ fs' = fs).
Proof.
  assert (Hback : forall f1 p, p ∈ artifacts r \/ (forall f, (r_regenerate r f).2 !! p = f !! p) ->
    (r_regenerate r fs).2 = f1 -> _restore (_snapshot fs (artifacts r)) f1 !! p = fs !! p).
  { intros f1 p Hp <-. rewrite rollback_lookup. destruct (decide (p ∈ artifacts r)); [done|]. by destruct Hp. }
  unfold reconcile. destruct (r_check r fs) as [[]|e] eqn:E1.
  - intros [= <- <-]. naive_solver.
  - destruct (r_regenerate r fs) as [[u|e] f1] eqn:E2; cbn [snd] in Hback.
    + destruct (r_check r f1) as [[]|e] eqn:E3; intros [= <- <-]; simpl; naive_solver.
    + intros [= <- <-]; simpl; naive_solver.
  - intros [= <- <-]. naive_solver.
Qed.

Section resync_lemmas.
Context `{FloatRepr}.
Variable exc_text : exn -> string.
Variable yaml_load : string -> res pyval.
Variable yaml_dump : pyval -> res string.

Lemma regenerate_only_status reg st fs f1 p :
  regenerate_status yaml_load yaml_dump reg st fs = Ok f1 -> p <> st -> f1 !! p = fs !! p.
Proof.
  unfold regenerate_status. intros Hr Hp. apply bind_Ok_inv in Hr as (v & _ & Hr).
  destruct (py_or v (PDict [])); try done. apply bind_Ok_inv in Hr as (pl & _ & Hr).
  apply bind_Ok_inv in Hr as (body & _ & [= <-]). by apply lookup_insert_ne.
Qed.

(** A re-sync heals, or changes no file; it never writes but the status. *)
Lemma resync_outcome reg st fs result fs' :
  resync_mirror_drift exc_text yaml_load yaml_dump reg st fs = (result, fs') ->
  (if healed result then is_in_sync yaml_load reg st fs' = Ok true else fs' = fs) /\ forall p, p <> st -> fs' !! p = fs !! p.
Proof.
  unfold resync_mirror_drift. intros Hr. destruct (is_in_sync _ reg st fs) as [[]|e] eqn:E1; [by injection Hr as <- <-| |by injection Hr as <- <-].
  cbv zeta in Hr. assert (Hroll : forall f1, (forall p, p <> st -> f1 !! p = fs !! p) ->
    _rollback st (exists_file fs st) (fs !! st) f1 = fs).
  { intros f1 Hf. apply map_eq. intros p. rewrite <- rollback_one, rollback_lookup. destruct (decide (p ∈ [st])) as [Hin|Hout]; [done|].
    apply Hf. intros ->. apply Hout. by left. }
  destruct (regenerate_status _ _ reg st fs) as [f1|e] eqn:E2; [|injection Hr as <- <-; by rewrite Hroll].
  assert (Hf : forall p, p <> st -> f1 !! p = fs !! p) by (intros p; by apply (regenerate_only_status reg)).
  destruct (is_in_sync _ reg st f1) as [[]|e] eqn:E3; injection Hr as <- <-; [done|by rewrite Hroll..].
Qed.

Lemma regenerate_heals reg st fs registry p :
  reg <> st -> _load_yaml yaml_load fs reg = Ok (PDict registry) -> plain (PDict registry) ->
  build_payload registry = Ok p -> reads_back yaml_load yaml_dump STATUS_HEADER p ->
  exists f1, regenerate_status yaml_load yaml_dump reg st fs = Ok f1 /\ is_in_sync yaml_load reg st f1 = Ok true.
Proof.
  intros Hne Hl Hpl Hb (body & Hd & Hback). exists (<[st := STATUS_HEADER +:+ body]> fs). split.
  - unfold regenerate_status. rewrite Hl. cbn [mbind res_bind].
    assert (Ho : py_or (PDict registry) (PDict []) = PDict registry) by (by destruct registry). rewrite Ho, Hb.
    cbn [mbind res_bind]. unfold _write_yaml. by rewrite Hd.
  - unfold is_in_sync, exists_file. rewrite lookup_insert_eq. cbn [negb].
    assert (Hreg : _load_yaml yaml_load (<[st := STATUS_HEADER +:+ body]> fs) reg = Ok (PDict registry)).
    { rewrite <- Hl. unfold _load_yaml, read_text. by rewrite lookup_insert_ne. }
    rewrite Hreg. cbn [mbind res_bind]. rewrite Hb. cbn [mbind res_bind].
    unfold _load_yaml, read_text. rewrite lookup_insert_eq. cbn [mbind res_bind of_option]. rewrite Hback.
    rewrite py_eq_refl; [done|]. by eapply plain_payload.
Qed.

Lemma in_sync_assessable reg st fs registry p :
  _load_yaml yaml_load fs reg = Ok (PDict registry) -> build_payload registry = Ok p -> exists b, is_in_sync yaml_load reg st fs = Ok b.
Proof.
  intros Hl Hb. unfold is_in_sync. destruct (negb _); [eauto|]. rewrite Hl. cbn [mbind res_bind]. rewrite Hb. cbn [mbind res_bind].
  destruct (_load_yaml yaml_load fs st) as [[]|]; eauto.
Qed.
End resync_lemmas.

(** All of a result but the text of its error. *)
Definition summary (r : fix_result) : string * string * bool * bool * bool :=
  (executor r, action_taken r, healed r, rolled_back r, match error r with Some _ => true | None => false end).

(** The re-sync of the mirror drift status is the reconciler on that file:
    it reports the same action and outcome, up to the text of the error, and
    leaves the same files. *)
Theorem resync_is_reconcile `{FloatRepr} exc_text yaml_load yaml_dump registry_path status_path fs :
  let (r1, fs1) := resync_mirror_drift exc_text yaml_load yaml_dump registry_path status_path fs in
  let (r2, fs2) := reconcile exc_text (status_reconciler yaml_load yaml_dump registry_path status_path) fs in
  summary r1 = summary r2 /\ fs1 = fs2.
Proof.
  unfold resync_mirror_drift, reconcile, status_reconciler. cbn [r_check r_regenerate artifacts r_name].
  destruct (is_in_sync _ registry_path status_path fs) as [[]|e]; [done| |done]. cbv zeta.
  destruct (regenerate_status _ _ registry_path status_path fs) as [f1|e]; [|by rewrite rollback_one].
  destruct (is_in_sync _ registry_path status_path f1) as [[]|e]; by rewrite ?rollback_one.
Qed.

Lemma payload_not_empty `{FloatRepr} registry p : build_payload registry = Ok p -> py_eq (PDict []) (PDict p) = false.
Proof. intros Hb. by apply bind_Ok_inv in Hb as (ms & _ & [= <-]). Qed.

(** The executor's invariant and the engine's check are the same: on a
    registry that parses to a mapping, the status is in sync exactly when the
    check command succeeds; on any other registry it is never in sync. *)
Theorem in_sync_iff_check `{FloatRepr} yaml_load fs :
  is_in_sync yaml_load REGISTRY_PATH STATUS_PATH fs = Ok true <->
  cmd_check yaml_load fs = Ok 0%Z /\ exists registry, _load_yaml yaml_load fs REGISTRY_PATH = Ok (PDict registry).
Proof.
  unfold is_in_sync, cmd_check, load_mapping.
  assert (Hex : forall v, _load_yaml yaml_load fs REGISTRY_PATH = Ok v -> exists_file fs REGISTRY_PATH = true).
  { unfold _load_yaml, read_text, exists_file. by destruct (fs !! REGISTRY_PATH). }
  destruct (exists_file fs STATUS_PATH); [|split; [done|]; destruct (negb _); naive_solver]. cbn [negb].
  destruct (_load_yaml yaml_load fs REGISTRY_PATH) as [v|] eqn:El; [|split; naive_solver]. rewrite (Hex v eq_refl). cbn [negb mbind res_bind].
  destruct v as [| | | | | |d]; try (split; [done|naive_solver]).
  assert (Ho : py_or (PDict d) (PDict []) = PDict d) by (by destruct d). rewrite Ho. cbn [mbind res_bind].
  destruct (build_payload d) as [p|] eqn:Eb; [|split; naive_solver]. cbn [mbind res_bind]. pose proof (payload_not_empty _ _ Eb) as Hne.
  destruct (_load_yaml yaml_load fs STATUS_PATH) as [cur|]; [|split; naive_solver]. cbn [mbind res_bind].
  unfold py_or. destruct cur as [| | | | | |c].
  1-6: split; [done|]; destruct (truthy _); cbn [mbind res_bind]; rewrite ?Hne; by intros [? _].
  destruct c as [|kv c]; cbn [truthy mbind res_bind]; rewrite ?Hne; [split; [done|by intros [? _]]|].
  destruct (py_eq (PDict (kv :: c)) (PDict p)).
  - split; [|done]. intros _. split; [done|by exists d].
  - split; [intros E; simplify_eq|intros [E _]; simplify_eq].
Qed.

(** ** The closed loop over the re-sync *)

Section drift_loop.
Context `{FloatRepr} {T : Type}.
Variable exc_text : exn -> string.
Variable yaml_load : string -> res pyval.
Variable yaml_dump : pyval -> res string.
Variables reg st : string.
(** The clock: what it shows, and that it moves on. *)
Variable read_clock : T -> spec_float.
Variable tick : T -> T.

Definition drift_clock (w : files * T) : spec_float * (files * T) := (read_clock w.2, (w.1, tick w.2)).

Definition drift_observe : files * T -> res spec_float * (files * T) :=
  plain_observe (fun w => _mirror_drift_error yaml_load reg st w.1).

Definition drift_act (w : files * T) : files * T := ((resync_mirror_drift exc_text yaml_load yaml_dump reg st w.1).2, w.2).

(** [INVARIANTS] of the control loop. *)
Definition INVARIANTS : list (string * (files * T -> res spec_float * (files * T))) := [("mirror_drift", drift_observe)].

Definition heal_drift (w : files * T) : option (LoopResult * (files * T)) :=
  heal INVARIANTS "mirror_drift" drift_act drift_clock default_loop w.

#[local] Abbreviation in_sync := (is_in_sync yaml_load reg st).
#[local] Abbreviation drift := (_mirror_drift_error yaml_load reg st).

Lemma drift_at_target fs : at_target default_loop (drift fs) = true <-> in_sync fs = Ok true.
Proof. unfold _mirror_drift_error. destruct (in_sync fs) as [[]|]; vm_compute; split; congruence. Qed.

(** A re-sync from the first files or from files in sync leaves such files. *)
Definition same_or_synced (fs : files) (w : files * T) : Prop :=
  (w.1 = fs \/ in_sync w.1 = Ok true) /\ forall p, p <> st -> w.1 !! p = fs !! p.

Lemma drift_act_stage fs w : same_or_synced fs w -> same_or_synced fs (drift_act w).
Proof.
  intros [Hs Hp]. unfold drift_act, same_or_synced. cbn [fst].
  destruct (resync_mirror_drift _ _ _ _ _ w.1) as [r f1] eqn:E. cbn [snd]. destruct (resync_outcome _ _ _ _ _ _ _ _ E) as [Ho Hf].
  split; [|intros p Hne; by rewrite Hf, Hp]. destruct (healed r); [by right|]. by rewrite Ho.
Qed.

Lemma drift_loop_runs w :
  exists result w', heal_drift w = Some (result, w') /\ run drift_observe drift_act drift_clock default_loop w = Some (result, w').
Proof.
  destruct (run_returns drift_observe drift_act drift_clock default_loop w) as (result & w' & Hr).
  exists result, w'. unfold heal_drift, heal, INVARIANTS. cbn [assoc]. rewrite String.eqb_refl. by split.
Qed.

(** One action suffices: a loop that may act ends on target. *)
Lemma drift_loop_converges fs t registry p result w' :
  reg <> st -> _load_yaml yaml_load fs reg = Ok (PDict registry) -> plain (PDict registry) ->
  build_payload registry = Ok p -> reads_back yaml_load yaml_dump STATUS_HEADER p ->
  F64.ltb (F64.of_Z 30) (F64.sub (read_clock (tick (tick t))) (read_clock t)) = false ->
  run drift_observe drift_act drift_clock default_loop (fs, t) = Some (result, w') -> converged result = true.
Proof.
  intros Hne Hl Hpl Hb Hback Hdl. unfold run. cbn [drift_clock fst snd].
  unfold _observe at 1, drift_observe at 1, plain_observe at 1. cbn [fst].
  change (S (max_iterations default_loop)) with 6%nat. cbn [run_loop drift_clock fst snd].
  destruct (at_target default_loop (drift fs)) eqn:Et; [by intros [= <- <-]|].
  destruct (in_sync_assessable yaml_load reg st fs registry p Hl Hb) as (b & Hs).
  destruct b; [by rewrite (proj2 (drift_at_target fs) Hs) in Et|].
  assert (Ed : drift fs = F64.of_Z 1) by (unfold _mirror_drift_error; by rewrite Hs).
  change (Nat.leb (max_iterations default_loop) 0) with false. change (deadline_s default_loop) with (F64.of_Z 30). rewrite Hdl.
  cbv zeta. rewrite Ed. change (F64.ltb (F64.of_Z 1) (F64.sub F64.inf _EPS)) with true. cbn [negb andb].
  unfold _act, drift_act at 1. cbn [fst snd].
  destruct (regenerate_heals yaml_load yaml_dump reg st fs registry p Hne Hl Hpl Hb Hback) as (f1 & Hg & Hf1).
  assert (Er : (resync_mirror_drift exc_text yaml_load yaml_dump reg st fs).2 = f1).
  { unfold resync_mirror_drift. rewrite Hs. cbv zeta. rewrite Hg, Hf1. done. }
  rewrite Er. unfold _observe at 1, drift_observe at 1, plain_observe at 1. cbn [fst].
  rewrite (proj2 (drift_at_target f1) Hf1). by intros [= <- <-].
Qed.
End drift_loop.

(** C18: The closed loop on mirror drift always returns.  It says converged only
    over a status that is in sync, and otherwise every file is as it was; it
    never touches a file but the status.  When the registry is a readable
    mapping and the deadline has not passed by the first action, it converges. *)
Theorem drift_loop_heals_or_restores `{FloatRepr} {T} exc_text yaml_load yaml_dump reg st (read_clock : T -> spec_float) tick fs t :
  exists result fs' t',
    heal_drift exc_text yaml_load yaml_dump reg st read_clock tick (fs, t) = Some (result, (fs', t')) /\
    (if converged result then is_in_sync yaml_load reg st fs' = Ok true else fs' = fs) /\
    (forall p, p <> st -> fs' !! p = fs !! p) /\
    (reg <> st ->
     (exists registry p, _load_yaml yaml_load fs reg = Ok (PDict registry) /\ plain (PDict registry) /\
       build_payload registry = Ok p /\ reads_back yaml_load yaml_dump STATUS_HEADER p) ->
     F64.ltb (F64.of_Z 30) (F64.sub (read_clock (tick (tick t))) (read_clock t)) = false -> converged result = true).
Proof.
  destruct (drift_loop_runs exc_text yaml_load yaml_dump reg st read_clock tick (fs, t)) as (result & [fs' t'] & Hh & Hr).
  exists result, fs', t'. split; [done|].
  destruct (run_final (fun w : files * T => _mirror_drift_error yaml_load reg st w.1)
    (drift_act exc_text yaml_load yaml_dump reg st) (drift_clock read_clock tick) default_loop ltac:(done) _ _ _ Hr) as [_ Hc].
  destruct (run_preserves (drift_observe yaml_load reg st) _ (drift_clock read_clock tick) default_loop (same_or_synced yaml_load reg st fs)
    (drift_act_stage exc_text yaml_load yaml_dump reg st fs) (fun _ Hw => Hw) (fun _ Hw => Hw) (fs, t) result (fs', t')
    ltac:(by split; [left|]) Hr) as [Hs Hp]. cbn [fst] in *. split_and!.
  - destruct (converged result) eqn:E; [by apply drift_at_target|]. destruct Hs as [|Hs]; [done|].
    apply drift_at_target in Hs. congruence.
  - done.
  - intros Hne (registry & p & H1 & H2 & H3 & H4) Hd. by eapply drift_loop_converges.
Qed.

(** ** The canary guards the fix *)

(** A canary fix that says healed leaves a status in sync, and the canary
    had healed its own drift before; one that does not say healed changes no
    file, and so does every class without a canary. *)
Theorem canary_guards `{FloatRepr} exc_text yaml_load yaml_dump beacon reg st fs out fs' :
  canary_fix exc_text yaml_load yaml_dump beacon reg st fs = Ok (out, fs') ->
  (if truthy (field "healed" out)
   then is_in_sync yaml_load reg st fs' = Ok true /\ _mirror_drift_canary exc_text yaml_load yaml_dump = Ok true /\
        field "kind_class" beacon = PStr "mirror_drift"
   else fs' = fs) /\ forall p, p <> st -> fs' !! p = fs !! p.
Proof.
  unfold canary_fix. cbv zeta. destruct (negb (hashable _)); [done|].
  destruct (eq_str (field "kind_class" beacon) "mirror_drift") eqn:Ek; [|by intros [= <- <-]].
  destruct (_mirror_drift_canary _ _ _) as [[]|e]; [|by intros [= <- <-]..].
  destruct (resync_mirror_drift _ _ _ reg st fs) as [r f1] eqn:Er. destruct (resync_outcome _ _ _ _ _ _ _ _ Er) as [Ho Hp].
  intros E. assert (Eout : field "healed" out = PBool (healed r) /\ f1 = fs').
  { injection E as <- <-. split; [|done]. by destruct r as [? ? ? ? []]. }
  destruct Eout as [-> <-]. cbn [truthy]. apply eq_str_iff in Ek. destruct (healed r); naive_solver.
Qed.

(** ** Proposals are recorded once and can be opened *)

Lemma with_base_field p k : NoDup p.*1 -> field k (with_base p) = match assoc k p with Some v => v | None => field k [("base", PStr "main")] end.
Proof.
  unfold with_base. generalize [("base", PStr "main")] as d. induction p as [|[k' v] p IH]; intros d; [done|].
  rewrite fmap_cons, NoDup_cons. intros [Hk Hnd]. cbn [fold_left fst snd assoc]. rewrite IH by done.
  destruct (String.eqb_spec k' k) as [->|Hne].
  - rewrite (proj2 (assoc_None k p)) by done. by rewrite field_set_eq.
  - destruct (assoc k p); [done|]. by rewrite field_set_ne.
Qed.

(** A proposal is recorded exactly when it has a title, a branch and at
    least one file: then the queue holds one item more, under a fresh name, with
    the proposal, its base branch and its digest; otherwise nothing is recorded
    and the result says so. *)
Theorem proposal_recorded_iff_valid `{FloatRepr} ns uuid beacon proposals out proposals' :
  visible proposals !! file_name (item_id ns uuid) = None ->
  propose_pr ns uuid beacon proposals = (out, proposals') ->
  claimed proposals' = claimed proposals /\
  if _valid_proposal (field "proposal" beacon)
  then exists p, field "proposal" beacon = PDict p /\ field "proposed" out = PBool true /\
    field "proposal_ref" out = PStr (_proposal_id (with_base p)) /\
    visible proposals' = <[file_name (item_id ns uuid) := PDict (proposal_entry (_proposal_id (with_base p)) (with_base p) beacon)]> (visible proposals) /\
    size (visible proposals') = S (size (visible proposals))
  else field "proposed" out = PBool false /\ proposals' = proposals.
Proof.
  intros Hfresh. unfold propose_pr, checked_proposal. cbv zeta.
  destruct (field "proposal" beacon) as [| | | | | |p] eqn:Ep; try (intros E; injection E as <- <-; by cbn).
  destruct (_valid_proposal (PDict p)); intros E.
  - apply (f_equal fst) in E as E1. apply (f_equal snd) in E as E2. cbn [fst snd] in E1, E2. rewrite <- E1, <- E2. split; [done|].
    exists p. split_and!; [done|apply field_set_eq|rewrite field_set_ne by done; apply field_set_eq|done|]. by apply map_size_insert_None.
  - apply (f_equal fst) in E as E1. apply (f_equal snd) in E as E2. cbn [fst snd] in E1, E2. rewrite <- E1, <- E2. done.
Qed.

(** A missing status is reported as drift before the registry is looked at, so a
    registry that is no mapping is not found out by the check. *)
Lemma missing_status_hides_registry `{FloatRepr} yaml_load reg st fs :
  fs !! st = None -> is_in_sync yaml_load reg st fs = Ok false.
Proof. intros Hst. unfold is_in_sync, exists_file. by rewrite Hst. Qed.

(** ** Witnesses *)

#[local] Existing Instance demo_float_repr.

Definition demo_exc (e : exn) : string := "error".

(** A reconciler whose regeneration breaks the artifact and raises. *)
Definition broken_reconciler : Reconciler :=
  mkReconciler "broken" (fun fs => Ok (bool_decide (fs !! "a" = Some "good"))) (fun fs => (Raise TypeError, <["a" := "torn"]> fs)) ["a"].

Lemma reconcile_heals_or_restores_witness :
  exists result fs', reconcile demo_exc broken_reconciler {["a" := "old"]} = (result, fs') /\
    healed result = false /\ rolled_back result = true /\ fs' !! "a" = Some "old".
Proof.
  destruct (reconcile demo_exc broken_reconciler {["a" := "old"]}) as [result fs'] eqn:E. exists result, fs'.
  destruct (reconcile_heals_or_restores demo_exc broken_reconciler {["a" := "old"]} result fs' E) as (_ & Hb & Hr & _).
  assert (Hh : healed result = false) by (apply (f_equal (fun r => healed r.1)) in E; by vm_compute in E).
  split_and!; [done|done|apply Hr; by split; [vm_compute|]|]. rewrite (Hb Hh "a"); [by vm_compute|left; by left].
Defined.

(** The value of the canary's registry, as the library reads it. *)
Definition canary_value : pyval :=
  PDict [("version", PStr "1.0.0"); ("updated_at", PStr "2026-01-01");
         ("mirrors", PList [PDict [("name", PStr "canary"); ("org", PStr "Canary"); ("url", PStr "https://example.invalid/canary");
           ("upstream", PDict [("url", PStr "https://example.invalid/upstream"); ("ref", PStr "main");
              ("head_sha", PStr "deadbeefdeadbeefdeadbeefdeadbeefdeadbeef"); ("checked_at", PStr "2026-01-01")]);
           ("mirror_head_sha", PStr "cafebabecafebabecafebabecafebabecafebabe");
           ("drift", PDict [("status", PStr "behind"); ("note", PStr "canary")])]])].

Definition canary_yaml_load (text : string) : res pyval :=
  if String.eqb text _CANARY_REGISTRY then Ok canary_value else demo_yaml_load text.

Definition drifted_files : files := <[STATUS_PATH := "{}"]> demo_files.

Lemma canary_guards_witness :
  exists out fs', canary_fix demo_exc canary_yaml_load demo_yaml_dump [("kind_class", PStr "mirror_drift")] REGISTRY_PATH STATUS_PATH drifted_files
      = Ok (out, fs') /\ field "healed" out = PBool true /\ is_in_sync canary_yaml_load REGISTRY_PATH STATUS_PATH fs' = Ok true.
Proof.
  destruct (canary_fix demo_exc canary_yaml_load demo_yaml_dump [("kind_class", PStr "mirror_drift")] REGISTRY_PATH STATUS_PATH drifted_files)
    as [[out fs']|] eqn:E; [|exfalso; apply (f_equal is_ok) in E; by vm_compute in E]. exists out, fs'.
  destruct (canary_guards _ _ _ _ _ _ _ _ _ E) as [Hg _].
  assert (Hh : field "healed" out = PBool true).
  { apply (f_equal (fun r => match r with Ok (o, _) => field "healed" o | Raise _ => PNone end)) in E. by vm_compute in E. }
  rewrite Hh in Hg. cbn [truthy] in Hg. exact (conj eq_refl (conj Hh (proj1 Hg))).
Defined.

Lemma drift_loop_heals_or_restores_witness :
  exists result fs' t', heal_drift demo_exc canary_yaml_load demo_yaml_dump REGISTRY_PATH STATUS_PATH F64.of_Z Z.succ (drifted_files, 0%Z)
      = Some (result, (fs', t')) /\ converged result = true /\ is_in_sync canary_yaml_load REGISTRY_PATH STATUS_PATH fs' = Ok true.
Proof.
  destruct (drift_loop_heals_or_restores demo_exc canary_yaml_load demo_yaml_dump REGISTRY_PATH STATUS_PATH F64.of_Z Z.succ drifted_files 0%Z)
    as (result & fs' & t' & Hr & Hs & _ & Hc). exists result, fs', t'.
  assert (Hconv : converged result = true).
  { apply Hc; [done| |by vm_compute]. eexists (demo_registry demo_mirrors), _. split_and!.
    - vm_compute. reflexivity.
    - repeat (split; [apply (bool_decide_unpack _); vm_compute; reflexivity || exact I|]). vm_compute.
      repeat split; try (apply (bool_decide_unpack _); vm_compute; reflexivity).
    - vm_compute. reflexivity.
    - eexists. split; [reflexivity|vm_compute; reflexivity]. }
  rewrite Hconv in Hs. exact (conj Hr (conj Hconv Hs)).
Defined.

Definition demo_proposal_beacon : dict :=
  [("kind_class", PStr "derived_content_drift"); ("system", PStr "repo");
   ("proposal", PDict [("title", PStr "t"); ("branch", PStr "b"); ("files", PDict [("f", PStr "x")])])].

Lemma proposal_recorded_iff_valid_witness :
  exists out q, propose_pr 7 "b" demo_proposal_beacon (mkQueue ∅ ∅) = (out, q) /\
    field "proposed" out = PBool true /\ size (visible q) = 1%nat.
Proof.
  destruct (propose_pr 7 "b" demo_proposal_beacon (mkQueue ∅ ∅)) as [out q] eqn:E. exists out, q.
  destruct (proposal_recorded_iff_valid 7 "b" demo_proposal_beacon (mkQueue ∅ ∅) out q) as [_ Hv]; [done|done|].
  change (_valid_proposal (field "proposal" demo_proposal_beacon)) with true in Hv. cbn iota in Hv.
  destruct Hv as (p & _ & Hp & _ & _ & Hs). exact (conj eq_refl (conj Hp Hs)).
Defined.
