(* ===== verification/PrOpener.v ===== *)
(** * Opening the recorded proposals

    Models [automation/pr_opener.py] (one proposal as a pull request) and
    [automation/open_recorded_proposals.py] (the run over the queue of recorded
    proposals), with the producers of [automation/beacon_producers.py] whose
    proposals go through them.

    The runner of a command and the writing of a file act on a world of any
    type; what was run and written is logged in order.  A path is its text, the
    directory of the checkout before a relative one.  The opener and the checkout
    of a run over the queue are arguments, as are the names the re-queued items
    get.  Writing a file is taken to succeed. *)

From Stdlib Require Import Ascii SpecFloat.
From S2P Require Import Prelude PyVal PyText Json JsonParse FloatOrder DurableQueue ControlLoop SelfHeal MacroTriad MirrorDrift Executors.
Local Open Scope string_scope.

(** ** One proposal *)

Record RunResult := mkRun { returncode : Z; stdout : string; stderr : string }.

Inductive event :=
| Ran (argv : list pyval) (res : RunResult)
| Wrote (path : string) (content : string).

Definition _valid (proposal : pyval) : bool :=
  match proposal with
  | PDict p =>
    truthy (field "title" p) && truthy (field "branch" p) &&
    (match field "files" p with PDict (_ :: _) => true | _ => false end ||
     match field "revert" p with PStr (String _ _) => true | _ => false end)
  | _ => false
  end.

(** [shlex.quote]. *)
Definition shell_safe (c : ascii) : bool :=
  let n := nat_of_ascii c in
  (Nat.leb 48 n && Nat.leb n 57) || (Nat.leb 65 n && Nat.leb n 90) || (Nat.leb 97 n && Nat.leb n 122) || string_mem c "_@%+=:,./-".

Fixpoint all_safe (s : string) : bool := match s with EmptyString => true | String c s => shell_safe c && all_safe s end.

Fixpoint quote_apostrophes (s : string) : string :=
  match s with
  | EmptyString => ""
  | String c s =>
    (if Ascii.eqb c APOSTROPHE then String APOSTROPHE (String QUOTE (String APOSTROPHE (String QUOTE (String APOSTROPHE ""))))
     else String c "") +:+ quote_apostrophes s
  end.

Definition shlex_quote (s : string) : string :=
  if String.eqb s "" then String APOSTROPHE (String APOSTROPHE "")
  else if all_safe s then s
  else String APOSTROPHE (quote_apostrophes s +:+ String APOSTROPHE "").

(** [shlex.join]: only strings can be quoted. *)
Definition shlex_join (argv : list pyval) : res string := ts ← all_texts argv; Ok (str_join " " (map shlex_quote ts)).

(** [repo_dir / rel] and [".." in Path(rel).parts]. *)
Definition join_path (repo_dir rel : string) : string := if String.prefix "/" rel then rel else repo_dir +:+ "/" +:+ rel.
Definition escapes (rel : string) : bool := existsb (String.eqb "..") (split_char "/" rel).

Section open_pr.
Context `{FloatRepr} {W : Type}.
Variable runner : list pyval -> W -> RunResult * W.
Variable write_text : string -> string -> W -> W.
Variable repo_dir : string.

(** The world and the log of what was done to it. *)
Record session := mkSession { world : W; log : list event }.

(** Code that may raise after it has acted. *)
Definition M (A : Type) : Type := session -> res A * session.

#[global] Instance M_ret : MRet M := fun A a s => (Ok a, s).
#[global] Instance M_bind : MBind M := fun A B f m s =>
  match m s with (Ok a, s) => f a s | (Raise e, s) => (Raise e, s) end.

Definition raise {A} (e : exn) : M A := fun s => (Raise e, s).

Definition run_failed (argv : list pyval) (r : RunResult) : exn :=
  match shlex_join argv with
  | Ok line => RuntimeError ("command failed (" +:+ pretty (returncode r) +:+ "): " +:+ line +:+ String "010" (py_strip (stderr r)))
  | Raise e => e
  end.

Definition run (allow_fail : bool) (argv : list pyval) : M RunResult := fun s =>
  let (r, w) := runner argv (world s) in
  let s := mkSession w (log s ++ [Ran argv r])%list in
  if negb (Z.eqb (returncode r) 0) && negb allow_fail then (Raise (run_failed argv r), s) else (Ok r, s).

Definition write (path content : string) : M unit := fun s =>
  (Ok tt, mkSession (write_text path content (world s)) (log s ++ [Wrote path content])%list).

Definition words (l : list string) : list pyval := map PStr l.

Fixpoint write_files (fs : dict) : M unit :=
  match fs with
  | [] => mret tt
  | (rel, content) :: fs =>
    if escapes rel then raise (ValueError ("proposal file escapes the repo: " +:+ repr_str rel))
    else
      match content with
      | PStr text => _ ← write (join_path repo_dir rel) text; write_files fs
      | _ => raise TypeError
      end
  end.

Definition push_argv (branch : pyval) : list pyval :=
  (words ["git"; "push"; "--force-with-lease"; "-u"; "origin"] ++ [branch])%list.

(** The change on the branch: the revert, or the files and their commit. *)
Definition make_change (p : dict) : M unit :=
  let revert := field "revert" p in
  if truthy revert then
    _ ← run false (words ["git"; "revert"; "--no-edit"] ++ [PStr (py_str revert)])%list; mret tt
  else
    match field "files" p with
    | PDict fs =>
      _ ← write_files fs;
      _ ← run false (words ["git"; "add"; "--"] ++ map (fun kv => PStr kv.1) fs)%list;
      status ← run false (words ["git"; "status"; "--porcelain"]);
      if String.eqb (py_strip (stdout status)) "" then mret tt
      else _ ← run false (words ["git"; "commit"; "-m"] ++ [field "title" p])%list; mret tt
    | _ => raise AttributeError
    end.

Definition body_text (p : dict) : pyval :=
  py_or (default (PStr "") (assoc "body" p))
    (PStr ("Automated self-heal fix." +:+ LF +:+ LF +:+ "Proposal: " +:+ py_str (field "branch" p))).

(** An open pull request of the branch, else a new one. *)
Definition find_or_create (p : dict) : M string :=
  let branch := field "branch" p in
  let repo := field "repo" p in
  let gh_repo := if truthy repo then [PStr "-R"; repo] else [] in
  existing ← run true (words ["gh"; "pr"; "list"] ++ gh_repo ++ [PStr "--head"; branch] ++
                       words ["--state"; "open"; "--json"; "url"; "--jq"; q ".[0].url // ''"])%list;
  let url := py_strip (stdout existing) in
  if negb (String.eqb url "") then mret url
  else
    created ← run false (words ["gh"; "pr"; "create"] ++ gh_repo ++
                         [PStr "--head"; branch; PStr "--base"; default (PStr "main") (assoc "base" p);
                          PStr "--title"; field "title" p; PStr "--body"; body_text p])%list;
    mret (py_strip (stdout created)).

Definition open_pr (proposal : pyval) : M string :=
  match proposal with
  | PDict p =>
    if negb (_valid proposal) then raise (ValueError "proposal must carry title, branch, and either file changes or a `revert` commit")
    else
      let branch := field "branch" p in
      let base := default (PStr "main") (assoc "base" p) in
      _ ← run false (words ["git"; "fetch"; "origin"] ++ [base])%list;
      _ ← run false (words ["git"; "checkout"; "-B"] ++ [branch; PStr ("origin/" +:+ py_str base)])%list;
      _ ← make_change p;
      _ ← run false (push_argv branch);
      find_or_create p
  | _ => raise (ValueError "proposal must carry title, branch, and either file changes or a `revert` commit")
  end.
End open_pr.

Arguments session : clear implicits.
Arguments M : clear implicits.

(** ** What a session does *)

Section sessions.
Context `{FloatRepr} {W : Type}.
Variable runner : list pyval -> W -> RunResult * W.
Variable write_text : string -> string -> W -> W.
Variable repo_dir : string.
Variable branch : pyval.

(** A command that succeeded; the listing of pull requests is allowed to fail. *)
Definition event_ok (e : event) : Prop :=
  match e with
  | Ran (PStr "gh" :: PStr "pr" :: PStr "list" :: _) _ => True
  | Ran _ r => returncode r = 0%Z
  | Wrote _ _ => True
  end.

(** The commands: nothing is merged, and only the branch is pushed. *)
Definition allowed (e : event) : Prop :=
  match e with
  | Ran argv _ =>
    argv = push_argv branch \/
    (exists verb rest, argv = PStr "git" :: PStr verb :: rest /\ verb ∈ ["fetch"; "checkout"; "revert"; "add"; "status"; "commit"]) \/
    exists verb rest, argv = PStr "gh" :: PStr "pr" :: PStr verb :: rest /\ verb ∈ ["list"; "create"]
  | Wrote path _ => exists rel, path = join_path repo_dir rel /\ escapes rel = false
  end.

(** [m] only does what is allowed and stops at the first failure. *)
Definition careful {A} (m : M W A) (Q : A -> list event -> Prop) : Prop :=
  forall s : session W, exists new, log (m s).2 = (log s ++ new)%list /\ Forall allowed new /\
    match (m s).1 with
    | Ok a => Forall event_ok new /\ Q a new
    | Raise _ => Forall event_ok (removelast new)
    end.

Lemma careful_ret {A} (a : A) : careful (mret a : M W A) (fun b new => b = a /\ new = []).
Proof. intros s. exists []. rewrite app_nil_r. cbn. split_and!; by try constructor. Qed.

Lemma careful_raise {A} e : careful (raise e : M W A) (fun _ _ => False).
Proof. intros s. exists []. rewrite app_nil_r. cbn. split_and!; by try constructor. Qed.

Lemma careful_weaken {A} (m : M W A) (Q Q' : A -> list event -> Prop) : careful m Q -> (forall a new, Q a new -> Q' a new) -> careful m Q'.
Proof.
  intros Hm HQ s. destruct (Hm s) as (new & H1 & H2 & H3). exists new. split_and!; [done..|]. destruct (m s).1; naive_solver.
Qed.

Lemma removelast_ok (l1 l2 : list event) : Forall event_ok l1 -> Forall event_ok (removelast l2) -> Forall event_ok (removelast (l1 ++ l2)).
Proof.
  intros H1 H2. destruct l2 as [|x l2].
  - rewrite app_nil_r. clear H2. induction H1 as [|y l Hy Hl IH]; [done|]. destruct l; [done|]. by constructor.
  - rewrite removelast_app by done. by apply Forall_app.
Qed.

Lemma careful_bind {A B} (m : M W A) (f : A -> M W B) Q (Q' : A -> B -> list event -> Prop) :
  careful m Q -> (forall a, careful (f a) (Q' a)) ->
  careful (m ≫= f) (fun b new => exists a n1 n2, new = (n1 ++ n2)%list /\ Q a n1 /\ Q' a b n2).
Proof.
  intros Hm Hf s. destruct (Hm s) as (n1 & L1 & A1 & R1). unfold mbind, M_bind. destruct (m s) as [[a|e] s1] eqn:E; cbn [fst snd] in *.
  - destruct (Hf a s1) as (n2 & L2 & A2 & R2). exists (n1 ++ n2)%list. rewrite L2, L1, app_assoc. split; [done|].
    split; [by apply Forall_app|]. destruct (f a s1).1 as [b|e].
    + destruct R1 as [O1 Q1], R2 as [O2 Q2]. split; [by apply Forall_app|]. by exists a, n1, n2.
    + apply removelast_ok; [apply R1|done].
  - by exists n1.
Qed.

Lemma careful_run argv :
  (forall r, allowed (Ran argv r)) ->
  careful (run runner false argv) (fun r new => new = [Ran argv r] /\ returncode r = 0%Z).
Proof.
  intros Ha s. unfold run. destruct (runner argv (world s)) as [r w]. exists [Ran argv r]. cbn [negb]. rewrite andb_true_r.
  destruct (Z.eqb_spec (returncode r) 0) as [E|E]; cbn [negb fst snd log]; split_and!; try done; try (by constructor; [apply Ha|]).
  constructor; [|done]. unfold event_ok. repeat (case_match; try done).
Qed.

Lemma careful_list rest :
  let argv := PStr "gh" :: PStr "pr" :: PStr "list" :: rest in
  careful (run runner true argv) (fun r new => new = [Ran argv r]).
Proof.
  intros argv s. unfold run. destruct (runner argv (world s)) as [r w]. exists [Ran argv r]. cbn [negb]. rewrite andb_false_r.
  cbn [fst snd log]. split_and!; try done; [|by repeat constructor]. constructor; [|done]. right; right.
  exists "list", rest. split; [done|]. by left.
Qed.

Lemma careful_write rel text :
  escapes rel = false -> careful (write write_text (join_path repo_dir rel) text) (fun _ new => new = [Wrote (join_path repo_dir rel) text]).
Proof.
  intros He s. exists [Wrote (join_path repo_dir rel) text]. cbn. split_and!; try done; (constructor; [|done]); [by exists rel|done].
Qed.

(** Every file of the proposal is written. *)
Definition written (new : list event) (kv : string * pyval) : Prop :=
  exists text, kv.2 = PStr text /\ Wrote (join_path repo_dir kv.1) text ∈ new.

Lemma careful_write_files fs : careful (write_files write_text repo_dir fs) (fun _ new => Forall (written new) fs).
Proof.
  induction fs as [|[rel content] fs IH]; cbn [write_files].
  { eapply careful_weaken; [apply careful_ret|]. done. }
  destruct (escapes rel) eqn:He; [by eapply careful_weaken; [apply careful_raise|]|].
  destruct content; try (by eapply careful_weaken; [apply careful_raise|]).
  eapply careful_weaken; [apply careful_bind; [by apply careful_write|intros ?; apply IH]|].
  intros [] new (tt0 & n1 & n2 & -> & -> & Hw). constructor.
  - exists s. split; [done|]. by left.
  - eapply Forall_impl; [exact Hw|]. intros kv (text & E & Hin). exists text. split; [done|]. by right.
Qed.

Lemma careful_git verb rest :
  verb ∈ ["fetch"; "checkout"; "revert"; "add"; "status"; "commit"] ->
  careful (run runner false (PStr "git" :: PStr verb :: rest)) (fun r new => new = [Ran (PStr "git" :: PStr verb :: rest) r] /\ returncode r = 0%Z).
Proof. intros Hv. apply careful_run. intros r. right; left. by exists verb, rest. Qed.

Lemma careful_change p :
  careful (make_change runner write_text repo_dir p)
    (fun _ new => truthy (field "revert" p) = false -> exists fs, field "files" p = PDict fs /\ Forall (written new) fs).
Proof.
  unfold make_change. cbv zeta. destruct (truthy (field "revert" p)).
  { eapply careful_weaken; [|done]. apply (careful_bind _ _ (fun _ _ => True) (fun _ _ _ => True)).
    - eapply careful_weaken; [apply careful_git; set_solver|done].
    - intros ?. by eapply careful_weaken; [apply careful_ret|]. }
  destruct (field "files" p) as [| | | | | |fs]; try (by eapply careful_weaken; [apply careful_raise|]).
  eapply careful_weaken.
  - apply careful_bind; [apply careful_write_files|]. intros ?. apply (careful_bind _ _ (fun _ _ => True) (fun _ _ _ => True)).
    + eapply careful_weaken; [apply careful_git; set_solver|done].
    + intros ?. eapply careful_weaken; [apply (careful_bind _ _ (fun _ _ => True) (fun _ _ _ => True))|done].
      * eapply careful_weaken; [apply careful_git; set_solver|done].
      * intros st. case_match; [by eapply careful_weaken; [apply careful_ret|]|].
        eapply careful_weaken; [apply (careful_bind _ _ (fun _ _ => True) (fun _ _ _ => True))|done].
        -- eapply careful_weaken; [apply careful_git; set_solver|done].
        -- intros ?. by eapply careful_weaken; [apply careful_ret|].
  - intros [] new (u & n1 & n2 & -> & Hw & _) _. exists fs. split; [done|]. eapply Forall_impl; [exact Hw|].
    intros kv (text & E & Hin). exists text. split; [done|]. apply elem_of_app. by left.
Qed.

(** Where the address comes from: the trimmed output of the listing, whatever
    its exit code, or else of a creation that succeeded. *)
Definition address_from (url : string) (new : list event) : Prop :=
  exists verb rest r, Ran (PStr "gh" :: PStr "pr" :: PStr verb :: rest) r ∈ new /\ url = py_strip (stdout r) /\
    ((verb = "list" /\ url <> "") \/ (verb = "create" /\ returncode r = 0%Z)).

Lemma careful_find p : careful (find_or_create runner p) address_from.
Proof.
  unfold find_or_create. cbv zeta.
  match goal with |- context [run runner true ?argv] => set (largv := argv) end.
  assert (Hl : exists rest, largv = PStr "gh" :: PStr "pr" :: PStr "list" :: rest) by (by eexists).
  destruct Hl as [rest Hl]. rewrite Hl. clear Hl largv.
  eapply careful_weaken; [apply (careful_bind _ _ (fun r new => new = [Ran (PStr "gh" :: PStr "pr" :: PStr "list" :: rest) r]) (fun ex url new =>
    (url = py_strip (stdout ex) /\ url <> "") \/ address_from url new)); [apply careful_list|]|].
  - intros ex. destruct (String.eqb_spec (py_strip (stdout ex)) "") as [_|Hne]; cbn [negb].
    + match goal with |- context [run runner false ?argv] => set (cargv := argv) end.
      assert (Hc : exists rest, cargv = PStr "gh" :: PStr "pr" :: PStr "create" :: rest) by (by eexists).
      destruct Hc as [crest Hc]. rewrite Hc. clear Hc cargv.
      eapply careful_weaken; [apply careful_bind; [apply careful_run|intros c; apply careful_ret]|].
      * intros r. right; right. exists "create", crest. split; [done|set_solver].
      * intros url new (c & n1 & n2 & -> & [-> Hrc] & -> & ->). right. exists "create", crest, c. rewrite app_nil_r.
        split_and!; [by left|done|by right].
    + eapply careful_weaken; [apply careful_ret|]. intros url new [-> ->]. by left.
  - intros url new (ex & n1 & n2 & -> & -> & [[Hu Hne]|(verb & crest & r & Hin & Hrest)]).
    + exists "list", rest, ex. split_and!; [by left|done|by left].
    + exists verb, crest, r. split; [|done]. apply elem_of_app. by right.
Qed.

(** The push happened, and before it every file was written or the revert made. *)
Definition pushed (p : dict) (new : list event) : Prop :=
  (exists r, Ran (push_argv branch) r ∈ new /\ returncode r = 0%Z) /\
  (truthy (field "revert" p) = false -> exists fs, field "files" p = PDict fs /\ Forall (written new) fs).

Lemma pushed_app p n1 n2 : pushed p n2 -> pushed p (n1 ++ n2)%list.
Proof.
  intros [(r & Hin & Er) Hf]. split.
  - exists r. split; [|done]. apply elem_of_app. by right.
  - intros Hrev. destruct (Hf Hrev) as (fs & Ef & Hw). exists fs. split; [done|]. eapply Forall_impl; [exact Hw|].
    intros kv (text & E & Hin'). exists text. split; [done|]. apply elem_of_app. by right.
Qed.

Lemma address_app url n1 n2 : address_from url n2 -> address_from url (n1 ++ n2)%list.
Proof. intros (verb & rest & r & Hin & Hrest). exists verb, rest, r. split; [|done]. apply elem_of_app. by right. Qed.

Definition completed (p : dict) (url : string) (new : list event) : Prop := pushed p new /\ address_from url new.

Lemma completed_app p url n1 n2 : completed p url n2 -> completed p url (n1 ++ n2)%list.
Proof. intros [Hp Ha]. split; [by apply pushed_app|by apply address_app]. Qed.

Lemma careful_open p : branch = field "branch" p -> careful (open_pr runner write_text repo_dir (PDict p)) (completed p).
Proof.
  intros Eb. unfold open_pr. cbv zeta. destruct (negb _); [by eapply careful_weaken; [apply careful_raise|]|]. rewrite <- Eb.
  assert (Hpush : careful (run runner false (push_argv branch)) (fun _ new => exists r, new = [Ran (push_argv branch) r] /\ returncode r = 0%Z)).
  { eapply careful_weaken; [apply careful_run; intros r; by left|]. intros r new [-> E]. by exists r. }
  assert (Hrest : careful (_ ← make_change runner write_text repo_dir p; _ ← run runner false (push_argv branch); find_or_create runner p) (completed p)).
  { eapply careful_weaken.
    - apply careful_bind; [apply careful_change|]. intros ?. apply careful_bind; [apply Hpush|]. intros ?. apply careful_find.
    - intros url new (u & n1 & n2 & -> & Hc & (r0 & n3 & n4 & -> & (r & -> & Er) & Ha)). split; [split|].
      + exists r. split; [|done]. rewrite !elem_of_app. right; left. by left.
      + intros Hrev. destruct (Hc Hrev) as (fs & Ef & Hw). exists fs. split; [done|]. eapply Forall_impl; [exact Hw|].
        intros kv (text & E & Hin). exists text. split; [done|]. apply elem_of_app. by left.
      + by do 2 apply address_app. }
  assert (Hgit : forall argv (m : M W string), (exists verb rest, argv = PStr "git" :: PStr verb :: rest /\
      verb ∈ ["fetch"; "checkout"; "revert"; "add"; "status"; "commit"]) -> careful m (completed p) ->
    careful (_ ← run runner false argv; m) (completed p)).
  { intros argv m (verb & rest & -> & Hv) Hm. eapply careful_weaken; [apply careful_bind; [by apply careful_git|intros ?; exact Hm]|].
    intros url new (r & n1 & n2 & -> & _ & Hc). by apply completed_app. }
  apply Hgit; [eexists "fetch", _; split; [reflexivity|set_solver]|].
  apply Hgit; [eexists "checkout", _; split; [reflexivity|set_solver]|]. exact Hrest.
Qed.
End sessions.


(** ** The producers of proposals *)

Definition is_slug_char (c : ascii) : bool :=
  let n := nat_of_ascii c in (Nat.leb 48 n && Nat.leb n 57) || (Nat.leb 97 n && Nat.leb n 122).

(** [re.sub(r"[^a-z0-9]+", "-", s)]; [dashed]: the last character went into a dash. *)
Fixpoint dashes (dashed : bool) (s : string) : string :=
  match s with
  | EmptyString => ""
  | String c s => if is_slug_char c then String c (dashes false s) else if dashed then dashes true s else String "-" (dashes true s)
  end.

Fixpoint lstrip_dash (s : string) : string :=
  match s with String c s' => if Ascii.eqb c "-" then lstrip_dash s' else s | EmptyString => "" end.

Fixpoint rstrip_dash (s : string) : string :=
  match s with
  | EmptyString => ""
  | String c s => match rstrip_dash s with EmptyString => if Ascii.eqb c "-" then "" else String c "" | r => String c r end
  end.

Definition str_or (s dflt : string) : string := match s with EmptyString => dflt | _ => s end.

Definition _slug (text : string) : string := str_or (str_take 60 (rstrip_dash (lstrip_dash (dashes false (py_lower text))))) "fix".

(** An optional text argument: [None] and the empty text mean the default. *)
Definition given (o : option string) (dflt : string) : string := str_or (default "" o) dflt.

Definition propose_derived_content_fix (now path current expected repo kind_class : string) (branch title source_ref : option string)
    (base : string) : option dict :=
  if String.eqb current expected then None
  else
    let branch := given branch ("self-heal/" +:+ kind_class +:+ "/" +:+ _slug path) in
    let title := given title ("fix(self-heal): regenerate " +:+ path +:+ " from its source of truth") in
    let ref := given source_ref ("file://" +:+ path) in
    let body :=
      "`" +:+ path +:+ "` has drifted from its source of truth and was regenerated." +:+ LF +:+ LF +:+
      "- **source:** " +:+ ref +:+ LF +:+
      "- **why a PR (not an auto-fix):** regeneration is deterministic but reviewed, so a human confirms the derived output before it lands." +:+ LF +:+ LF +:+
      "Opened by the self-heal responder (class `" +:+ kind_class +:+ "`)." in
    Some [("kind_class", PStr kind_class); ("system", PStr (repo +:+ ":" +:+ path));
          ("evidence", PDict [("detector", PStr "derived_content_drift"); ("reproducible", PBool true); ("stale", PBool false)]);
          ("evidence_ref", PStr ref); ("plan", PDict []);
          ("detail", PDict [("path", PStr path); ("reason", PStr "derived file drifted from its source of truth")]);
          ("proposal", PDict [("repo", PStr repo); ("base", PStr base); ("branch", PStr branch); ("title", PStr title);
                              ("files", PDict [(path, PStr expected)]); ("body", PStr body)]);
          ("observed_at", PStr now)].

Definition propose_deploy_revert (now repo bad_commit app_name reason kind_class : string) (branch : option string) (base : string) : dict :=
  let short := str_take 12 bad_commit in
  let branch := given branch ("self-heal/" +:+ kind_class +:+ "/revert-" +:+ short) in
  let title := "revert(self-heal): " +:+ short +:+ " — " +:+ app_name +:+ " regressed in prod" in
  let body :=
    "Argo app `" +:+ app_name +:+ "` went unhealthy on commit `" +:+ bad_commit +:+ "`." +:+ LF +:+ LF +:+
    "- **reason:** " +:+ reason +:+ LF +:+
    "- **why a revert (not a patch):** Argo CD `selfHeal: true` re-applies git, so the only rollback that sticks is reverting the offending commit." +:+ LF +:+
    "- **why a PR (not auto-merge):** a production revert is reviewed." +:+ LF +:+ LF +:+
    "Opened by the self-heal responder (class `" +:+ kind_class +:+ "`)." in
  [("kind_class", PStr kind_class); ("system", PStr (repo +:+ "@" +:+ short));
   ("evidence", PDict [("detector", PStr "deploy_health"); ("reproducible", PBool true); ("stale", PBool false)]);
   ("evidence_ref", PStr ("argocd://app/" +:+ app_name)); ("plan", PDict []);
   ("detail", PDict [("app", PStr app_name); ("bad_commit", PStr bad_commit); ("reason", PStr reason)]);
   ("proposal", PDict [("repo", PStr repo); ("base", PStr base); ("branch", PStr branch); ("title", PStr title);
                       ("revert", PStr bad_commit); ("body", PStr body)]);
   ("observed_at", PStr now)].

(** ** The run over the queue *)

Definition MAX_ATTEMPTS : Z := 3.

(** The batch: what is in the queue, up to the limit, oldest first. *)
Fixpoint take_batch (fuel : nat) (limit : option Z) (taken : Z) (proposals : DurableQueue) : list pyval * DurableQueue :=
  match fuel with
  | O => ([], proposals)
  | S fuel =>
    if empty proposals then ([], proposals)
    else if match limit with Some n => (n <=? taken)%Z | None => false end then ([], proposals)
    else
      match get_nowait proposals with
      | Raise _ => ([], proposals)
      | Ok (e, proposals) => let (es, proposals) := take_batch fuel limit (taken + 1) proposals in (e :: es, proposals)
      end
  end.

Section drain.
Context `{FloatRepr} {W : Type}.
Variable clock : W -> spec_float * W.
(** [opener target proposal] and [checkout repo]: the address or the path, or
    the text of the exception. *)
Variable opener : string -> pyval -> W -> (string + string) * W.
Variable checkout : pyval -> W -> (string + string) * W.
Variable repo_dir : string.
(** The name of the item the [i]-th entry of the batch is put back under. *)
Variable stamp : nat -> Z * string.

(** The two queues and the world. *)
Record drain_state := mkDrain { d_proposals : DurableQueue; d_dead : DurableQueue; d_world : W }.

Definition checkout_failed (text : string) : dict :=
  [("converged", PBool false); ("pr_url", PNone); ("trace_hash", PNone); ("error", PStr ("checkout failed: " +:+ text))].

(** The sealed result of one attempt. *)
Definition attempt (proposal : pyval) (w : W) : dict * W :=
  match proposal with
  | PDict p =>
    let (target, w) := if truthy (field "repo" p) then checkout (field "repo" p) w else (inl repo_dir, w) in
    match target with
    | inr text => (checkout_failed text, w)
    | inl dir =>
      match remediate_via_pr clock (opener dir) proposal w with
      | Some r => r
      | None => (checkout_failed "unreachable: the loop returns", w)
      end
    end
  | v => (checkout_failed ("'" +:+ Lazerus.type_name v +:+ "' object has no attribute 'get'"), w)
  end.

Definition attempts_of (entry : pyval) : res Z := a ← py_get entry "attempts" (PInt 0); py_int_of a.

Definition drain_entry (i : nat) (entry : pyval) (st : drain_state) : res dict * drain_state :=
  match attempts_of entry, entry with
  | Ok n, PDict e =>
    let attempts := (n + 1)%Z in
    let proposal := py_or (field "proposal" e) (PDict []) in
    let base := [("id", default (PStr "?") (assoc "id" e)); ("kind", field "beacon_kind" e); ("attempts", PInt attempts)] in
    let (sealed, w) := attempt proposal (d_world st) in
    if truthy (field "converged" sealed) then
      (Ok (base ++ [("opened", PBool true); ("pr_url", field "pr_url" sealed); ("trace_hash", field "trace_hash" sealed)])%list,
       mkDrain (d_proposals st) (d_dead st) w)
    else
      let last_error := py_or (field "error" sealed) (field "reason" sealed) in
      let e := assoc_set "last_error" last_error (assoc_set "attempts" (PInt attempts) e) in
      let rec := (base ++ [("opened", PBool false); ("error", last_error); ("pr_url", field "pr_url" sealed);
                           ("trace_hash", field "trace_hash" sealed)])%list in
      let (ns, uuid) := stamp i in
      if (MAX_ATTEMPTS <=? attempts)%Z then
        (Ok (rec ++ [("dead_lettered", PBool true)])%list, mkDrain (d_proposals st) (put ns uuid (PDict e) (d_dead st)).2 w)
      else (Ok rec, mkDrain (put ns uuid (PDict e) (d_proposals st)).2 (d_dead st) w)
  | Raise x, _ => (Raise x, st)
  | Ok _, _ => (Raise AttributeError, st)
  end.

Fixpoint drain_batch (i : nat) (batch : list pyval) (st : drain_state) : res (list dict) * drain_state :=
  match batch with
  | [] => (Ok [], st)
  | entry :: batch =>
    match drain_entry i entry st with
    | (Raise x, st) => (Raise x, st)
    | (Ok r, st) =>
      match drain_batch (S i) batch st with
      | (Ok rs, st) => (Ok (r :: rs), st)
      | (Raise x, st) => (Raise x, st)
      end
    end
  end.

Definition drain_and_open (limit : option Z) (st : drain_state) : res (list dict) * drain_state :=
  let (batch, proposals) := take_batch (qsize (d_proposals st)) limit 0 (d_proposals st) in
  drain_batch 0 batch (mkDrain proposals (d_dead st) (d_world st)).

(** The exit code of the command. *)
Definition drain_exit (results : list dict) : Z :=
  if existsb (fun r => negb (truthy (field "opened" r)) && truthy (field "dead_lettered" r)) results then 1 else 0.
End drain.

Arguments drain_state : clear implicits.

(** ** Draining takes everything *)

#[local] Open Scope list_scope.

Definition entries (q : DurableQueue) : list pyval := (map_to_list (visible q)).*2.

Lemma pending_elem q p : p ∈ _pending q <-> is_Some (visible q !! p).
Proof.
  unfold _pending. rewrite elem_of_py_sort. unfold keys. rewrite list_elem_of_fmap. split.
  - intros ([k e] & -> & Hin). apply elem_of_map_to_list in Hin. by exists e.
  - intros [e He]. exists (p, e). split; [done|]. by apply elem_of_map_to_list.
Qed.

Lemma empty_iff q : empty q = true <-> visible q = ∅.
Proof.
  unfold empty. destruct (_pending q) as [|p ps] eqn:E; split; try done.
  - intros _. apply map_empty. intros p. apply eq_None_not_Some. rewrite <- pending_elem, E. apply not_elem_of_nil.
  - intros Hv. assert (Hp : is_Some (visible q !! p)) by (apply pending_elem; rewrite E; by left).
    rewrite Hv, lookup_empty in Hp. by destruct Hp.
Qed.

Lemma qsize_visible q : qsize q = size (visible q).
Proof. unfold qsize, _pending. rewrite py_sort_length. unfold keys. rewrite length_fmap. apply length_map_to_list. Qed.

Lemma get_nowait_spec q :
  visible q <> ∅ -> exists p e q', get_nowait q = Ok (e, q') /\ visible q !! p = Some e /\ visible q' = delete p (visible q).
Proof.
  intros Hv. unfold get_nowait. destruct (_pending q) as [|p ps] eqn:E.
  { destruct Hv. apply empty_iff. unfold empty. by rewrite E. }
  assert (Hp : is_Some (visible q !! p)) by (apply pending_elem; rewrite E; by left). destruct Hp as [e He].
  cbn [get_from]. unfold claim. rewrite He. by eexists p, e, _.
Qed.

Lemma entries_delete q q' p e : visible q !! p = Some e -> visible q' = delete p (visible q) -> entries q ≡ₚ e :: entries q'.
Proof.
  intros He Hd. unfold entries. rewrite Hd. rewrite <- (insert_delete_id (visible q) p e He) at 1.
  rewrite map_to_list_insert by apply lookup_delete_eq. done.
Qed.

Lemma take_batch_spec fuel limit taken q batch q' :
  (size (visible q) <= fuel)%nat -> take_batch fuel limit taken q = (batch, q') ->
  entries q ≡ₚ (batch ++ entries q')%list /\ visible q' ⊆ visible q /\ (limit = None -> visible q' = ∅).
Proof.
  revert taken q batch q'. induction fuel as [|fuel IH]; intros taken q batch q' Hf; cbn [take_batch].
  { intros [= <- <-]. split_and!; [done|done|]. intros _. apply map_size_empty_inv. lia. }
  destruct (empty q) eqn:E; [intros [= <- <-]; split_and!; [done|done|by intros _; apply empty_iff]|].
  case_match eqn:El; [intros [= <- <-]; split_and!; [done|done|by intros ->]|].
  destruct (get_nowait_spec q) as (p & e & q1 & -> & He & Hv); [intros Hv; apply empty_iff in Hv; congruence|].
  destruct (take_batch fuel limit (taken + 1) q1) as [es q2] eqn:Et. intros [= <- <-].
  destruct (IH _ _ _ _ ltac:(rewrite Hv, map_size_delete_Some; [lia|by exists e]) Et) as (H1 & H2 & H3). split_and!.
  - rewrite (entries_delete q q1 p e He Hv), H1. done.
  - rewrite H2, Hv. apply delete_subseteq.
  - done.
Qed.

(** ** One attempt per run, and three at most *)

(** An entry of the queue: its attempts so far are below the limit. *)
Definition tried (entry : pyval) (n : Z) : Prop := is_dict entry = true /\ attempts_of entry = Ok n.
Definition tried_from (k : Z) (entry : pyval) : Prop := exists n, tried entry n /\ (k <= n < MAX_ATTEMPTS)%Z.

Definition name_of (stamp : nat -> Z * string) (i : nat) : string := file_name (item_id (stamp i).1 (stamp i).2).

(** The names of a run are new. *)
Definition fresh_names (stamp : nat -> Z * string) (proposals dead : DurableQueue) : Prop :=
  (forall i j, name_of stamp i = name_of stamp j -> i = j) /\
  forall i, visible proposals !! name_of stamp i = None /\ visible dead !! name_of stamp i = None.

Definition opened (r : dict) : bool := truthy (field "opened" r).

(** What was submitted: an entry without the two fields the runs write. *)
Definition bookkeeping (k : string) : bool := String.eqb k "attempts" || String.eqb k "last_error".
Definition submitted (entry : pyval) : pyval :=
  match entry with PDict e => PDict (List.filter (fun kv => negb (bookkeeping kv.1)) e) | v => v end.

Lemma filter_assoc_set k v (e : dict) :
  bookkeeping k = true ->
  List.filter (fun kv => negb (bookkeeping kv.1)) (assoc_set k v e) = List.filter (fun kv => negb (bookkeeping kv.1)) e.
Proof.
  intros Hk. induction e as [|[k' v'] e IH]; cbn [assoc_set List.filter]; [by simpl; rewrite Hk|].
  destruct (String.eqb_spec k' k) as [->|]; cbn [List.filter fst]; [by rewrite Hk|]. by rewrite IH.
Qed.

Lemma submitted_retry n v (e : dict) :
  submitted (PDict (assoc_set "last_error" v (assoc_set "attempts" (PInt n) e))) = submitted (PDict e).
Proof. unfold submitted. by rewrite !filter_assoc_set. Qed.

(** The entries of a batch whose results say that they were opened. *)
Definition opened_of (batch : list pyval) (rs : list dict) : list pyval :=
  (List.filter (fun er => opened er.2) (zip batch rs)).*1.

Lemma entries_insert q q' p e :
  visible q !! p = None -> visible q' = <[p := e]> (visible q) -> entries q' ≡ₚ e :: entries q.
Proof. intros Hp Hq. unfold entries. rewrite Hq. by rewrite map_to_list_insert. Qed.

Lemma submitted_pull l1 l2 x l3 :
  submitted <$> (l1 ++ l2 ++ x :: l3) ≡ₚ submitted x :: (submitted <$> (l1 ++ l2 ++ l3)).
Proof. rewrite !app_assoc. change (submitted x :: (submitted <$> (l1 ++ l2) ++ l3)) with (submitted <$> x :: (l1 ++ l2) ++ l3).
  apply fmap_Permutation. by rewrite Permutation_middle. Qed.

Section drained.
Context `{FloatRepr} {W : Type}.
Variable clock : W -> spec_float * W.
Variable opener : string -> pyval -> W -> (string + string) * W.
Variable checkout : pyval -> W -> (string + string) * W.
Variable repo_dir : string.
Variable stamp : nat -> Z * string.

#[local] Abbreviation one := (drain_entry clock opener checkout repo_dir stamp).
#[local] Abbreviation all := (drain_batch clock opener checkout repo_dir stamp).

(** The result of an entry carries its identity and its count of attempts, and
    when it says opened, it names the address that the opener returned for the
    proposal of that entry. *)
Definition answers (entry : pyval) (r : dict) : Prop :=
  exists e n, entry = PDict e /\ attempts_of entry = Ok n /\
    field "id" r = default (PStr "?") (assoc "id" e) /\ field "kind" r = field "beacon_kind" e /\
    field "attempts" r = PInt (n + 1) /\
    (opened r = true -> exists dir url w0 w1, url <> "" /\ field "pr_url" r = PStr url /\
       opener dir (py_or (field "proposal" e) (PDict [])) w0 = (inl url, w1)).

Lemma attempt_opened proposal w sealed w' :
  attempt clock opener checkout repo_dir proposal w = (sealed, w') -> truthy (field "converged" sealed) = true ->
  exists dir url w0 w1, url <> "" /\ field "pr_url" sealed = PStr url /\ opener dir proposal w0 = (inl url, w1).
Proof.
  unfold attempt. destruct proposal as [| | | | | |p]; try (by intros [= <- <-]).
  destruct (if truthy (field "repo" p) then _ else _) as [[dir|text] w0]; [|by intros [= <- <-]].
  destruct (remediate_via_pr clock (opener dir) (PDict p) w0) as [[s w1]|] eqn:Er; [|by intros [= <- <-]].
  intros [= <- <-] Hc. destruct (pr_named_by_opener clock (opener dir) _ _ _ _ Er Hc) as (url & w2 & w3 & Hne & Hu & Ho).
  exists dir, url, w2, w3. split_and!; [done| |done]. unfold field. by rewrite Hu.
Qed.

(** What becomes of an entry: opened, put back with one attempt more, or dead. *)
Lemma drain_entry_spec i entry n (st : drain_state W) :
  tried entry n ->
  exists r st', one i entry st = (Ok r, st') /\ answers entry r /\
    ((opened r = true /\ d_proposals st' = d_proposals st /\ d_dead st' = d_dead st) \/
     (opened r = false /\ exists entry', tried entry' (n + 1) /\ submitted entry' = submitted entry /\
       if (MAX_ATTEMPTS <=? n + 1)%Z
       then visible (d_dead st') = <[name_of stamp i := entry']> (visible (d_dead st)) /\ d_proposals st' = d_proposals st
       else visible (d_proposals st') = <[name_of stamp i := entry']> (visible (d_proposals st)) /\ d_dead st' = d_dead st)).
Proof.
  intros [Hd Ha]. destruct entry as [| | | | | |e]; try done. unfold drain_entry. rewrite Ha. cbv zeta.
  destruct (attempt _ _ _ _ _ _) as [sealed w] eqn:Eat. destruct (truthy (field "converged" sealed)) eqn:Ec.
  { eexists _, _. split; [reflexivity|]. split; [|by left]. exists e, n. split_and!; try done.
    intros _. exact (attempt_opened _ _ _ _ Eat Ec). }
  unfold name_of. destruct (stamp i) as [ns uuid]. cbn [fst snd].
  assert (Ht : forall v, tried (PDict (assoc_set "last_error" v (assoc_set "attempts" (PInt (n + 1)) e))) (n + 1)).
  { intros v. split; [done|]. unfold attempts_of. cbn [py_get]. rewrite assoc_set_ne, assoc_set_eq by done. done. }
  destruct (MAX_ATTEMPTS <=? n + 1)%Z; eexists _, _; (split; [reflexivity|]);
    (split; [exists e, n; split_and!; try done|]); right; (split; [done|]);
    eexists; (split; [apply Ht|]); (split; [apply submitted_retry|]); done.
Qed.

(** What a batch leaves in the queue of proposals is from before or is an entry
    of the batch with one attempt more; what it leaves in the dead letters is
    from before or has had all its attempts. *)
Definition retried (batch : list pyval) (before after : DurableQueue) : Prop :=
  forall p e, visible after !! p = Some e -> visible before !! p = Some e \/
    exists e0 n, e0 ∈ batch /\ tried e0 n /\ tried e (n + 1) /\ (n + 1 < MAX_ATTEMPTS)%Z.

Definition buried (before after : DurableQueue) : Prop :=
  visible before ⊆ visible after /\
  forall p e, visible after !! p = Some e -> visible before !! p = Some e \/ tried e MAX_ATTEMPTS.

Lemma buried_refl q : buried q q.
Proof. split; [done|]. by left. Qed.

Lemma buried_trans q1 q2 q3 : buried q1 q2 -> buried q2 q3 -> buried q1 q3.
Proof. intros [S1 B1] [S2 B2]. split; [by etrans|]. intros p e He. destruct (B2 p e He); [by apply B1|by right]. Qed.

Lemma buried_insert q q' p e :
  visible q !! p = None -> visible q' = <[p := e]> (visible q) -> tried e MAX_ATTEMPTS -> buried q q'.
Proof.
  intros Hp Hq He. split; rewrite Hq; [by apply insert_subseteq|]. intros p' e'.
  destruct (decide (p = p')) as [<-|]; [rewrite lookup_insert_eq; intros [= <-]; by right|]. rewrite lookup_insert_ne by done. by left.
Qed.

(** Every submission that was in the queues or in the batch is in the queues
    afterwards or was opened. *)
Definition kept (batch : list pyval) (rs : list dict) (st st' : drain_state W) : Prop :=
  submitted <$> (entries (d_proposals st) ++ entries (d_dead st) ++ batch) ≡ₚ
  submitted <$> (entries (d_proposals st') ++ entries (d_dead st') ++ opened_of batch rs).

Lemma drain_batch_spec k0 batch : forall i (st : drain_state W),
  Forall (tried_from k0) batch -> (forall j k, name_of stamp j = name_of stamp k -> j = k) ->
  (forall j, (i <= j)%nat -> visible (d_proposals st) !! name_of stamp j = None /\ visible (d_dead st) !! name_of stamp j = None) ->
  exists rs st', all i batch st = (Ok rs, st') /\ Forall2 answers batch rs /\
    retried batch (d_proposals st) (d_proposals st') /\ buried (d_dead st) (d_dead st') /\ kept batch rs st st'.
Proof.
  induction batch as [|entry batch IH]; intros i st Hb Hinj Hf.
  { exists [], st. split; [done|]. split; [constructor|]. split; [by intros p e He; left|]. split; [apply buried_refl|]. unfold kept. reflexivity. }
  inversion_clear Hb as [|? ? (n & Ht & Hn) Hb']. destruct (drain_entry_spec i entry n st Ht) as (r & st1 & E1 & Ha & Hcase).
  destruct (Hf i ltac:(lia)) as [Hfp Hfd].
  assert (Hf1 : forall j, (S i <= j)%nat -> visible (d_proposals st1) !! name_of stamp j = None /\ visible (d_dead st1) !! name_of stamp j = None).
  { intros j Hj. destruct (Hf j ltac:(lia)) as [Hj1 Hj2]. assert (name_of stamp i <> name_of stamp j) by (intros Heq; apply Hinj in Heq; lia).
    destruct Hcase as [(_ & -> & ->)|(_ & e' & _ & _ & Hq)]; [done|]. destruct (MAX_ATTEMPTS <=? n + 1)%Z; destruct Hq as [Hq ->]; rewrite Hq;
      by rewrite lookup_insert_ne. }
  destruct (IH (S i) st1 Hb' Hinj Hf1) as (rs & st2 & E2 & Hl & Hr & Hd & Hk). exists (r :: rs), st2. cbn [drain_batch]. rewrite E1, E2.
  split; [done|]. split; [by constructor|]. split; [|split].
  - intros p e He. destruct (Hr p e He) as [Hp|(e0 & m & Hin & Hm)]; [|right; exists e0, m; split; [by right|done]].
    destruct Hcase as [(_ & Hq & _)|(_ & e' & Ht' & _ & Hq)]; [rewrite Hq in Hp; by left|].
    destruct (Z.leb_spec MAX_ATTEMPTS (n + 1)); destruct Hq as [Hq Hq']; [rewrite Hq' in Hp; by left|].
    rewrite Hq in Hp. destruct (decide (name_of stamp i = p)) as [<-|Hne].
    + rewrite lookup_insert_eq in Hp. injection Hp as <-. right. exists entry, n. split; [by left|]. by split_and!.
    + rewrite lookup_insert_ne in Hp by done. by left.
  - eapply buried_trans; [|exact Hd]. destruct Hcase as [(_ & _ & ->)|(_ & e' & Ht' & _ & Hq)]; [apply buried_refl|].
    destruct (Z.leb_spec MAX_ATTEMPTS (n + 1)); destruct Hq as [Hq Hq']; [|rewrite Hq'; apply buried_refl].
    eapply buried_insert; [exact Hfd|exact Hq|]. by replace MAX_ATTEMPTS with (n + 1)%Z by lia.
  - unfold kept, opened_of in *. cbn [zip List.filter snd]. rewrite submitted_pull.
    destruct Hcase as [(Ho & Hp1 & Hd1)|(Ho & e' & _ & Hs & Hq)]; rewrite Ho.
    + rewrite Hp1, Hd1 in Hk. cbn [fmap list_fmap fst]. rewrite submitted_pull. by f_equiv.
    + rewrite <- Hk, <- Hs. clear Hk. destruct (MAX_ATTEMPTS <=? n + 1)%Z; destruct Hq as [Hq Hq'].
      * rewrite Hq', (entries_insert _ _ _ _ Hfd Hq). symmetry. apply (submitted_pull (entries (d_proposals st)) [] e').
      * by rewrite Hq', (entries_insert _ _ _ _ Hfp Hq).
Qed.

(** A run: every proposal it takes gets its result, none is lost, and one put
    back has been tried once more. *)
Definition run_settles (rs : list dict) (st st' : drain_state W) : Prop :=
  exists es, es ≡ₚ entries (d_proposals st) /\ Forall2 answers es rs /\ buried (d_dead st) (d_dead st') /\
    submitted <$> (entries (d_proposals st) ++ entries (d_dead st)) ≡ₚ
    submitted <$> (entries (d_proposals st') ++ entries (d_dead st') ++ opened_of es rs).

Lemma drain_run k (st : drain_state W) :
  map_Forall (fun _ => tried_from k) (visible (d_proposals st)) -> fresh_names stamp (d_proposals st) (d_dead st) ->
  exists rs st', drain_and_open clock opener checkout repo_dir stamp None st = (Ok rs, st') /\
    run_settles rs st st' /\ map_Forall (fun _ => tried_from (k + 1)) (visible (d_proposals st')).
Proof.
  intros Hq [Hinj Hf]. unfold drain_and_open. destruct (take_batch _ None 0 (d_proposals st)) as [batch q1] eqn:Et.
  destruct (take_batch_spec _ _ _ _ _ _ (Nat.eq_le_incl _ _ (eq_sym (qsize_visible _))) Et) as (Hp & Hsub & Hnone).
  specialize (Hnone eq_refl). assert (He : entries q1 = []) by (unfold entries; by rewrite Hnone, map_to_list_empty).
  rewrite He, app_nil_r in Hp.
  assert (Hb : Forall (tried_from k) batch).
  { apply Forall_forall. intros e Hin. rewrite <- Hp in Hin.
    unfold entries in Hin. apply list_elem_of_fmap in Hin as ([p e'] & -> & Hin). apply elem_of_map_to_list in Hin. by apply (Hq p). }
  destruct (drain_batch_spec k batch 0 (mkDrain q1 (d_dead st) (d_world st)) Hb Hinj) as (rs & st' & Ed & Ha & Hr & Hd & Hk).
  { intros j _. cbn [d_proposals d_dead]. destruct (Hf j) as [H1 H2]. split; [|done]. by apply (lookup_weaken_None _ (visible (d_proposals st))). }
  cbn [d_proposals d_dead] in Hr, Hd. exists rs, st'. split; [done|]. split.
  - exists batch. split; [done|]. split; [done|]. split; [done|]. unfold kept in Hk. cbn [d_proposals d_dead] in Hk. rewrite <- Hk, He, Hp.
    apply fmap_Permutation. simpl. apply Permutation_app_comm.
  - intros p e Hin. destruct (Hr p e Hin) as [Hold|(e0 & n & Hb0 & Ht & Ht' & Hn)]; [by rewrite Hnone, lookup_empty in Hold|].
    rewrite Forall_forall in Hb. destruct (Hb e0 Hb0) as (m & Hm & Hkm). exists (n + 1)%Z. split; [done|].
    destruct Ht as [_ Ht], Hm as [_ Hm]. rewrite Ht in Hm. injection Hm as <-. lia.
Qed.
End drained.

Lemma tried_out q : map_Forall (fun _ => tried_from MAX_ATTEMPTS) (visible q) -> visible q = ∅.
Proof. intros Hq. apply map_empty. intros p. apply eq_None_not_Some. intros [e He]. destruct (Hq p e He) as (n & _ & Hn). lia. Qed.

(** C19: No recorded proposal is lost, and none is retried for ever.  Let the
    entries of the queue be objects whose attempts are numbers below the limit
    (one that is not raises and loses its batch, [malformed_entry_loses_batch]),
    and let the names a run puts entries back under be new.  Then three runs,
    whatever the opener and the checkout do, all return, and the queue of
    proposals is empty.  Every run gives one result for each entry that was in
    the queue, with the entry's id, kind and attempts; a result that says opened
    names the address the opener returned for the proposal of that entry.  The
    entries that were in the two queues, attempts and last error aside, are
    exactly those that were opened and those that are in the dead letters at
    the end; the dead letters only grew, by entries with three attempts. *)
Theorem proposals_settle `{FloatRepr} {W} clock opener checkout repo_dir stamp1 stamp2 stamp3 (st st1 st2 st3 : drain_state W) r1 r2 r3 :
  map_Forall (fun _ => tried_from 0) (visible (d_proposals st)) ->
  fresh_names stamp1 (d_proposals st) (d_dead st) ->
  drain_and_open clock opener checkout repo_dir stamp1 None st = (r1, st1) ->
  fresh_names stamp2 (d_proposals st1) (d_dead st1) ->
  drain_and_open clock opener checkout repo_dir stamp2 None st1 = (r2, st2) ->
  fresh_names stamp3 (d_proposals st2) (d_dead st2) ->
  drain_and_open clock opener checkout repo_dir stamp3 None st2 = (r3, st3) ->
  exists es1 es2 es3 rs1 rs2 rs3, r1 = Ok rs1 /\ r2 = Ok rs2 /\ r3 = Ok rs3 /\
    (es1 ≡ₚ entries (d_proposals st) /\ Forall2 (answers opener) es1 rs1) /\
    (es2 ≡ₚ entries (d_proposals st1) /\ Forall2 (answers opener) es2 rs2) /\
    (es3 ≡ₚ entries (d_proposals st2) /\ Forall2 (answers opener) es3 rs3) /\
    visible (d_proposals st3) = ∅ /\ buried (d_dead st) (d_dead st3) /\
    submitted <$> (entries (d_proposals st) ++ entries (d_dead st)) ≡ₚ
    submitted <$> (entries (d_dead st3) ++ opened_of es1 rs1 ++ opened_of es2 rs2 ++ opened_of es3 rs3).
Proof.
  intros Hq Hf1 E1 Hf2 E2 Hf3 E3.
  destruct (drain_run clock opener checkout repo_dir stamp1 0 st Hq Hf1) as (rs1 & st1' & D1 & (es1 & P1 & A1 & B1 & K1) & T1).
  rewrite D1 in E1. injection E1 as <- <-.
  destruct (drain_run clock opener checkout repo_dir stamp2 1 st1' T1 Hf2) as (rs2 & st2' & D2 & (es2 & P2 & A2 & B2 & K2) & T2).
  rewrite D2 in E2. injection E2 as <- <-.
  destruct (drain_run clock opener checkout repo_dir stamp3 2 st2' T2 Hf3) as (rs3 & st3' & D3 & (es3 & P3 & A3 & B3 & K3) & T3).
  rewrite D3 in E3. injection E3 as <- <-. apply tried_out in T3.
  exists es1, es2, es3, rs1, rs2, rs3. do 3 (split; [done|]). do 3 (split; [done|]). split; [done|].
  split; [exact (buried_trans _ _ _ B1 (buried_trans _ _ _ B2 B3))|].
  assert (E0 : entries (d_proposals st3') = []) by (unfold entries; by rewrite T3, map_to_list_empty).
  rewrite E0, app_nil_l in K3. rewrite K1, app_assoc, fmap_app, K2, app_assoc, fmap_app, K3, !fmap_app, <- !app_assoc.
  apply Permutation_app_head. etrans; [apply Permutation_app_comm|].
  rewrite (app_assoc (submitted <$> opened_of es1 rs1)). apply Permutation_app_tail, Permutation_app_comm.
Qed.

(** ** From the producers to the opener *)

Lemma given_truthy o dflt : dflt <> "" -> truthy (PStr (given o dflt)) = true.
Proof. unfold given, str_or. by destruct o as [[|]|], dflt. Qed.

Lemma app_not_empty (c : ascii) a b : String c a +:+ b <> "".
Proof. done. Qed.

(** A derived file that drifted gets a proposal which the executor records,
    which the opener accepts and which writes exactly the regenerated text; a
    file in sync gets none. *)
Theorem derived_fix_reaches_opener `{FloatRepr} now path current expected repo kind_class branch title source_ref base ns uuid q :
  match propose_derived_content_fix now path current expected repo kind_class branch title source_ref base with
  | None => current = expected
  | Some beacon => current <> expected /\
    exists p, field "proposed" (propose_pr ns uuid beacon q).1 = PBool true /\
      visible (propose_pr ns uuid beacon q).2 !! file_name (item_id ns uuid) = Some (PDict (proposal_entry (_proposal_id p) p beacon)) /\
      _valid (PDict p) = true /\ field "base" p = PStr base /\ field "files" p = PDict [(path, PStr expected)] /\ truthy (field "revert" p) = false
  end.
Proof.
  unfold propose_derived_content_fix. destruct (String.eqb_spec current expected) as [|Hne]; [done|]. cbv zeta. split; [done|].
  match goal with |- context [("proposal", PDict ?p)] => set (prop := p) end.
  match goal with |- context [propose_pr ns uuid ?b q] => set (beacon := b) end.
  assert (Hv : _valid_proposal (PDict prop) = true).
  { unfold _valid_proposal. change (field "title" prop) with (PStr (given title ("fix(self-heal): regenerate " +:+ path +:+ " from its source of truth"))).
    change (field "branch" prop) with (PStr (given branch ("self-heal/" +:+ kind_class +:+ "/" +:+ _slug path))).
    change (field "files" prop) with (PDict [(path, PStr expected)]). rewrite !given_truthy; [done|apply app_not_empty..]. }
  assert (Hw : with_base prop = [("base", PStr base); ("repo", PStr repo); ("branch", field "branch" prop); ("title", field "title" prop);
    ("files", PDict [(path, PStr expected)]); ("body", field "body" prop)]) by reflexivity.
  assert (Hc : checked_proposal beacon = Some (with_base prop)).
  { unfold checked_proposal. change (field "proposal" beacon) with (PDict prop). cbn iota. by rewrite Hv. }
  exists (with_base prop). unfold propose_pr. rewrite Hc. cbv zeta. cbn [fst snd].
  split; [apply field_set_eq|]. split; [unfold put; cbn [snd visible]; apply lookup_insert_eq|].
  rewrite Hw. split_and!; try reflexivity.
  change (truthy (field "title" prop) && truthy (field "branch" prop) && true = true).
  change (truthy (field "title" prop) && truthy (field "branch" prop) && true = true) in Hv. exact Hv.
Qed.

(** The proposals that revert a commit are the other kind the opener accepts;
    the executor rejects them, so none is ever recorded. *)
Lemma revert_not_recorded `{FloatRepr} beacon p ns uuid q :
  field "proposal" beacon = PDict p -> assoc "files" p = None ->
  propose_pr ns uuid beacon q =
    ([("executor", PStr "propose_pr"); ("proposed", PBool false); ("opened", PBool false);
      ("error", PStr "beacon carries no valid proposal (need title, branch, files)")], q).
Proof.
  intros Hp Hf. unfold propose_pr, checked_proposal. rewrite Hp. unfold _valid_proposal, field at 3. rewrite Hf. cbn [default].
  by rewrite andb_false_r.
Qed.

Lemma deploy_revert_dead_end `{FloatRepr} now repo c commit app_name reason kind_class branch base ns uuid q :
  let beacon := propose_deploy_revert now repo (String c commit) app_name reason kind_class branch base in
  _valid (field "proposal" beacon) = true /\ field "proposed" (propose_pr ns uuid beacon q).1 = PBool false /\
  (propose_pr ns uuid beacon q).2 = q.
Proof.
  cbv zeta. unfold propose_deploy_revert. cbv zeta. match goal with |- context [("proposal", PDict ?p)] => set (p0 := p) end.
  match goal with |- context [propose_pr ns uuid ?b q] => set (beacon := b) end.
  rewrite (revert_not_recorded beacon p0) by done. split; [|done]. change (field "proposal" beacon) with (PDict p0).
  unfold _valid. change (field "branch" p0) with (PStr (given branch ("self-heal/" +:+ kind_class +:+ "/revert-" +:+ str_take 12 (String c commit)))).
  by rewrite given_truthy.
Qed.

Lemma failback_dead_end `{FloatRepr} other_digit now receipts repo quorum kind base beacon ns uuid q :
  beacon ∈ propose_state_failback other_digit now receipts repo quorum kind base ->
  _valid (field "proposal" beacon) = true /\ (propose_pr ns uuid beacon q).2 = q /\
  field "proposed" (propose_pr ns uuid beacon q).1 = PBool false.
Proof.
  unfold propose_state_failback. destruct (negb _); [by intros ?%elem_of_nil|].
  intros (sick & _ & Hs)%list_elem_of_omap. destruct (head_commit sick) as [[|c h]|]; try done. case_match; [done|].
  apply (inj Some) in Hs. rewrite <- Hs. unfold failback_beacon. cbv zeta.
  match goal with |- context [("proposal", PDict ?p)] => set (p0 := p) end.
  match goal with |- context [propose_pr ns uuid ?b q] => set (b0 := b) end.
  rewrite (revert_not_recorded b0 p0) by done. split_and!; [|done..].
  change (field "proposal" b0) with (PDict p0). unfold _valid.
  match goal with |- context [field "revert" p0] => change (field "revert" p0) with (PStr (default EmptyString (canonical_commit (assess_triad other_digit receipts quorum)) +:+ ".." +:+ String c h)) end.
  change (truthy (field "branch" p0)) with true. change (truthy (field "title" p0)) with true. cbn [andb].
  apply orb_true_iff. right. by destruct (default EmptyString _).
Qed.

(** ** Witnesses and findings *)

#[local] Existing Instance demo_float_repr.

Definition quiet_runner (argv : list pyval) (w : unit) : RunResult * unit := (mkRun 0 "" "", w).

Definition written_paths (l : list event) : list string := omap (fun e => match e with Wrote p _ => Some p | _ => None end) l.

(** An absolute path has no parent component, so a proposal can name a file
    outside the checkout and it is written there. *)
Lemma absolute_path_escapes :
  written_paths (log (open_pr quiet_runner (fun _ _ w => w) "/work/repo"
    (PDict [("title", PStr "t"); ("branch", PStr "b"); ("files", PDict [("/etc/cron.d/job", PStr "x")])]) (mkSession tt [])).2)
  = ["/etc/cron.d/job"].
Proof. vm_compute. reflexivity. Qed.

(** A listing of pull requests that fails but prints something: its output is
    returned as the address, and no pull request is created. *)
Definition broken_listing (argv : list pyval) (w : unit) : RunResult * unit :=
  (match argv with
   | PStr "gh" :: PStr "pr" :: PStr "list" :: _ => mkRun 1 "HTTP 502" ""
   | _ => mkRun 0 "" ""
   end, w).

Lemma failed_listing_names_address :
  (open_pr broken_listing (fun _ _ w => w) "/work/repo"
    (PDict [("title", PStr "t"); ("branch", PStr "b"); ("files", PDict [("f", PStr "x")])]) (mkSession tt [])).1
  = Ok "HTTP 502".
Proof. vm_compute. reflexivity. Qed.

(** Nothing keeps the branch of a proposal from being its base: the base is then
    reset, committed to and force-pushed. *)
Lemma base_branch_pushed :
  Ran (push_argv (PStr "main")) (mkRun 0 "" "") ∈
  log (open_pr quiet_runner (fun _ _ w => w) "/work/repo"
    (PDict [("title", PStr "t"); ("branch", PStr "main"); ("base", PStr "main"); ("files", PDict [("f", PStr "x")])]) (mkSession tt [])).2.
Proof. vm_compute. repeat (first [left; reflexivity | right]). Qed.

Definition demo_entry (attempts : pyval) : pyval :=
  PDict [("id", PStr "1"); ("attempts", attempts); ("proposal", PDict [("title", PStr "t")])].

Definition no_clock (w : unit) : spec_float * unit := (F64.zero, w).
Definition failing_opener (dir : string) (p : pyval) (w : unit) : (string + string) * unit := (inr "no credentials", w).
Definition no_checkout (repo : pyval) (w : unit) : (string + string) * unit := (inr "no network", w).

Definition queue_with (es : list (string * pyval)) : DurableQueue := mkQueue (list_to_map es) ∅.

Definition demo_drain (base : Z) : drain_state unit -> res (list dict) * drain_state unit :=
  drain_and_open no_clock failing_opener no_checkout "/work/repo" (fun i => ((base + Z.of_nat i)%Z, "u")) None.

(** The batch is taken out of the queue before it is worked on, and an entry
    whose count of attempts is no number raises outside the handler: the rest of
    the batch is lost. *)
Lemma malformed_entry_loses_batch :
  let st := (demo_drain 10 (mkDrain (queue_with [("0.json", demo_entry (PStr "x")); ("1.json", demo_entry (PInt 0))]) (mkQueue ∅ ∅) tt)) in
  is_ok st.1 = false /\ qsize (d_proposals st.2) = 0%nat /\ qsize (d_dead st.2) = 0%nat.
Proof. vm_compute. auto. Qed.

(** Names of a run: the reading of the clock, then the number of the entry. *)
Definition demo_stamp (base : Z) (i : nat) : Z * string := (base, pretty i).

Lemma prefix_app a b : String.prefix a (a +:+ b) = true.
Proof. induction a as [|c a IH]; [by destruct b|]. rewrite string_app_cons. simpl. by destruct (ascii_dec c c). Qed.

Lemma demo_names_fresh base q d :
  forallb (fun p => negb (String.prefix (zero_padded 20 base) p)) (_pending q ++ _pending d) = true -> fresh_names (demo_stamp base) q d.
Proof.
  rewrite forallb_app, andb_true_iff, !forallb_forall. intros [Hq Hd].
  assert (Hn : forall i, String.prefix (zero_padded 20 base) (name_of (demo_stamp base) i) = true).
  { intros i. unfold name_of, file_name, item_id. rewrite !string_app_assoc. apply prefix_app. }
  split.
  - intros i j. unfold name_of, file_name, item_id, demo_stamp. cbn [fst snd]. rewrite !string_app_assoc.
    intros E. apply string_app_inv_l, string_app_inv_l, string_app_inv_r in E. by apply (inj pretty) in E.
  - intros i. split; apply eq_None_not_Some; rewrite <- pending_elem; intros Hin; apply list_elem_of_In in Hin;
      [apply Hq in Hin|apply Hd in Hin]; by rewrite Hn in Hin.
Qed.

Definition demo_state : drain_state unit :=
  mkDrain (queue_with [("a.json", demo_entry (PInt 0)); ("b.json", demo_entry (PInt 2))]) (mkQueue ∅ ∅) tt.

Definition demo_run (base : Z) : drain_state unit -> res (list dict) * drain_state unit :=
  drain_and_open no_clock failing_opener no_checkout "/work/repo" (demo_stamp base) None.

Lemma proposals_settle_witness :
  let st3 := (demo_run 12 (demo_run 11 (demo_run 10 demo_state).2).2).2 in
  visible (d_proposals st3) = ∅ /\ size (visible (d_dead st3)) = 2%nat.
Proof.
  destruct (proposals_settle no_clock failing_opener no_checkout "/work/repo" (demo_stamp 10) (demo_stamp 11) (demo_stamp 12)
    demo_state (demo_run 10 demo_state).2 (demo_run 11 (demo_run 10 demo_state).2).2
    (demo_run 12 (demo_run 11 (demo_run 10 demo_state).2).2).2
    (demo_run 10 demo_state).1 (demo_run 11 (demo_run 10 demo_state).2).1 (demo_run 12 (demo_run 11 (demo_run 10 demo_state).2).2).1)
    as (es1 & es2 & es3 & rs1 & rs2 & rs3 & E1 & E2 & E3 & _ & _ & _ & Hv & _).
  - intros p e He. assert (Hin : (p, e) ∈ [("a.json", demo_entry (PInt 0)); ("b.json", demo_entry (PInt 2))]) by (by apply elem_of_list_to_map_2).
    set_unfold in Hin. destruct Hin as [[= -> ->]|[[= -> ->]|[]]]; [exists 0%Z|exists 2%Z]; (split; [by split|by vm_compute; split]).
  - apply demo_names_fresh. vm_compute. reflexivity.
  - apply surjective_pairing.
  - apply demo_names_fresh. vm_compute. reflexivity.
  - apply surjective_pairing.
  - apply demo_names_fresh. vm_compute. reflexivity.
  - apply surjective_pairing.
  - split; [exact Hv|]. vm_compute. reflexivity.
Defined.
