(* ===== verification/Telemetry.v ===== *)
(** * Telemetry, incidents and liveness

    Models [automation/telemetry.py] (the counters over the decision receipts,
    the Prometheus text and the alerts), [automation/wordops.py] (the incidents
    that leave for the operators' room) and the probe of
    [automation/liveness.py] and [automation/healthz.py].

    The receipts are what [peek_all] returns of the decision queue.  A heartbeat
    file is its text or is absent; the time is an argument. *)

From Stdlib Require Import Ascii SpecFloat.
From S2P Require Import Prelude PyVal PyText Json FloatOrder DurableQueue MirrorDrift.
Local Open Scope string_scope.

(** ** Counters *)

Definition DEFAULT_ESCALATION_ALERT_THRESHOLD : Z := 5.

(** [d[k] = d.get(k, 0) + 1]. *)
Definition bump (k : string) (d : list (string * Z)) : list (string * Z) := assoc_set k (default 0%Z (assoc k d) + 1)%Z d.

Record counters := mkCounters {
  by_action : list (string * Z);
  by_kind : list (string * Z);
  by_verdict : list (string * Z);
  heals : Z;
  proposals : Z;
  quarantines : Z;
  escalations : Z;
  healing_failures : Z
}.

Definition no_counts : counters := mkCounters [] [] [] 0 0 0 0 0.

Definition tick (b : bool) (n : Z) : Z := if b then (n + 1)%Z else n.

Record metrics := mkMetrics { counts : counters; decisions_total : Z; queue_depth : list (string * Z) }.

Section telemetry.
Context `{FloatRepr}.

(** [str(r.get(k, "unknown"))]. *)
Definition label (k : string) (r : dict) : string := py_str (default (PStr "unknown") (assoc k r)).

Definition count_decision (c : counters) (v : pyval) : res counters :=
  match v with
  | PDict r =>
    let action := label "action" r in
    match py_or (field "execution" r) (PDict []) with
    | PDict ex =>
      Ok (mkCounters (bump action (by_action c)) (bump (label "beacon_kind" r) (by_kind c)) (bump (label "verdict" r) (by_verdict c))
            (tick (truthy (field "healed" ex)) (heals c)) (tick (truthy (field "proposed" ex)) (proposals c))
            (tick (truthy (field "quarantined" ex)) (quarantines c)) (tick (String.eqb action "escalate_human") (escalations c))
            (tick (truthy (field "rolled_back" ex)) (healing_failures c)))
    | _ => Raise AttributeError
    end
  | _ => Raise AttributeError
  end.

(** [beacons], [proposed] and [quarantined] are the other queues. *)
Definition collect (decisions : list pyval) (beacons proposed quarantined : DurableQueue) : res metrics :=
  c ← res_fold count_decision no_counts decisions;
  let n := Z.of_nat (length decisions) in
  Ok (mkMetrics c n
        [("beacons", Z.of_nat (qsize beacons)); ("decisions", n); ("proposals", Z.of_nat (qsize proposed));
         ("quarantine", Z.of_nat (qsize quarantined))]).

(** ** The Prometheus text *)

Fixpoint escape_label (s : string) : string :=
  match s with
  | EmptyString => ""
  | String c s =>
    (if Ascii.eqb c BACKSLASH || Ascii.eqb c QUOTE then String BACKSLASH (String c "") else String c "") +:+ escape_label s
  end.

Definition count_ltb (a b : string * Z) : bool := String.ltb a.1 b.1.

Definition _fmt_labeled (name help_text : string) (values : list (string * Z)) (lbl : string) : list string :=
  (("# HELP " +:+ name +:+ " " +:+ help_text) :: ("# TYPE " +:+ name +:+ " gauge") ::
   map (fun kc => name +:+ "{" +:+ lbl +:+ "=" +:+ String QUOTE (escape_label kc.1) +:+ String QUOTE ("} " +:+ pretty kc.2))
     (py_sort count_ltb values))%list.

Definition fmt_counter (name help_text : string) (n : Z) : list string :=
  ["# HELP " +:+ name +:+ " " +:+ help_text; "# TYPE " +:+ name +:+ " counter"; name +:+ " " +:+ pretty n].

Definition render_prometheus (m : metrics) : string :=
  let P := "sociosphere_selfheal" in
  let c := counts m in
  lines (concat
    [fmt_counter (P +:+ "_heals_total") "Artifacts healed by an executor" (heals c);
     fmt_counter (P +:+ "_proposals_total") "Reviewable proposals recorded" (proposals c);
     fmt_counter (P +:+ "_quarantines_total") "Subjects quarantined" (quarantines c);
     fmt_counter (P +:+ "_escalations_total") "Decisions escalated to a human" (escalations c);
     fmt_counter (P +:+ "_healing_failures_total") "Executor ran but did not resolve" (healing_failures c);
     fmt_counter (P +:+ "_decisions_total") "Total decisions recorded" (decisions_total m);
     _fmt_labeled (P +:+ "_decisions_by_action") "Decisions by action" (by_action c) "action";
     _fmt_labeled (P +:+ "_decisions_by_kind") "Decisions by failure class" (by_kind c) "kind";
     _fmt_labeled (P +:+ "_queue_depth") "Pending items per queue" (queue_depth m) "queue"]) +:+ String "010" "".

(** ** Alerts *)

Definition alert (kind message : string) : dict := [("severity", PStr "warning"); ("kind", PStr kind); ("message", PStr message)].

Definition alerts (m : metrics) (threshold : Z) : list dict :=
  let c := counts m in
  ((if (0 <? quarantines c)%Z then [alert "quarantine" (pretty (quarantines c) +:+ " subject(s) quarantined — review the policy breach")] else []) ++
   (if (0 <? healing_failures c)%Z then [alert "healing_failure" (pretty (healing_failures c) +:+ " remediation(s) attempted and rolled back")] else []) ++
   (if (threshold <=? escalations c)%Z
    then [alert "escalation_backlog" (pretty (escalations c) +:+ " escalations pending (>= " +:+ pretty threshold +:+ ")")] else []))%list.

(** ** Incidents *)

Definition ESCALATION_ACTIONS : list string := ["escalate_human"; "quarantine"].
Definition _AUTONOMY : list (string * string) := [("quarantine", "A4"); ("escalate_human", "A0")].
Definition _SEVERITY : list (string * string) := [("quarantine", "high"); ("escalate_human", "warning")].

(** [v[:23]] in a text. *)
Definition short_hash (v : pyval) : res string :=
  match v with
  | PStr s => Ok (str_take 23 s)
  | PList l => Ok (py_str (PList (firstn 23 l)))
  | _ => Raise TypeError
  end.

(** [fresh_id] and [now] stand in for a missing id and time. *)
Definition to_incident (fresh_id now : string) (receipt : dict) (claim_ref : option string) : res dict :=
  let action := label "action" receipt in
  subject ← py_get (py_or (field "address" receipt) (PDict [])) "iri" (PStr "system://unknown");
  let receipt_hash := py_or (field "content_sha256" receipt) (PStr "") in
  short ← short_hash receipt_hash;
  Ok [("incident_id", py_or (field "message_id" receipt) (PStr fresh_id)); ("trace_id", field "trace_id" receipt); ("subject", subject);
      ("action", PStr action); ("verdict", field "verdict" receipt); ("epistemic_level", field "epistemic_level" receipt);
      ("severity", PStr (default "warning" (assoc action _SEVERITY))); ("autonomy_class", PStr (default "A0" (assoc action _AUTONOMY)));
      ("receipt_hash", receipt_hash);
      ("claim_ref", match claim_ref with Some (String c r) => PStr (String c r) | _ => field "message_id" receipt end);
      ("summary", PStr ("self-heal " +:+ action +:+ " on " +:+ py_str subject +:+ ": " +:+ py_str (field "verdict" receipt) +:+
                        " (receipt " +:+ short +:+ ")"));
      ("created_at", py_or (field "decided_at" receipt) (PStr now))].

Definition escalates (receipt : dict) : bool := existsb (eq_str (field "action" receipt)) ESCALATION_ACTIONS.

(** The incident put into the sink, if the receipt calls for one. *)
Definition route (fresh_id now : string) (ns : Z) (uuid : string) (receipt : dict) (claim_ref : option string) (sink : DurableQueue) :
    res (option dict * DurableQueue) :=
  if negb (hashable (field "action" receipt)) then Raise TypeError
  else if negb (escalates receipt) then Ok (None, sink)
  else
    incident ← to_incident fresh_id now receipt claim_ref;
    Ok (Some incident, (put ns uuid (PDict incident) sink).2).

(** ** Liveness *)

Definition DEFAULT_MAX_AGE_SECONDS : spec_float := F64.of_Z 180.
Definition DEFAULT_PROGRESS_MAX_AGE_SECONDS : spec_float := F64.of_Z 300.

(** The age of a file that holds the time it was written; a text that is no
    number counts as absent. *)
Definition age_seconds (file : option string) (now : spec_float) : option spec_float :=
  match file with
  | None => None
  | Some text =>
    match float_of_str (py_strip text) with
    | Ok written => Some (F64.max F64.zero (F64.sub now written))
    | Raise _ => None
    end
  end.

Definition is_alive (max_age : spec_float) (heartbeat : option string) (now : spec_float) : bool :=
  match age_seconds heartbeat now with Some age => F64.leb age max_age | None => false end.

(** The exit code of the probe. *)
Definition healthz (max_age prog_max : spec_float) (heartbeat progress : option string) (now : spec_float) : Z :=
  if negb (is_alive max_age heartbeat now) then 1
  else
    match age_seconds progress now with
    | None => 1
    | Some prog => if F64.ltb prog_max prog then 1 else 0
    end.
End telemetry.

(** ** What the counters count *)

Definition receipt_of (v : pyval) : dict := mapping v.
Definition execution_of (v : pyval) : dict := mapping (field "execution" (receipt_of v)).
Definition executed (k : string) (v : pyval) : bool := truthy (field k (execution_of v)).

Definition count_of (f : pyval -> bool) (l : list pyval) : Z := Z.of_nat (length (List.filter f l)).
Definition tally (d : list (string * Z)) (k : string) : Z := default 0%Z (assoc k d).
Definition total (d : list (string * Z)) : Z := foldr (fun kc n => kc.2 + n)%Z 0%Z d.

Lemma count_of_cons f v l : count_of f (v :: l) = (tick (f v) 0 + count_of f l)%Z.
Proof. unfold count_of, tick. cbn [List.filter]. destruct (f v); simpl; lia. Qed.

Lemma tick_plus b n : tick b n = (n + tick b 0)%Z.
Proof. destruct b; simpl; lia. Qed.

Lemma tally_bump k d k' : tally (bump k d) k' = (tally d k' + tick (String.eqb k k') 0)%Z.
Proof.
  unfold tally, bump. destruct (String.eqb_spec k k') as [<-|Hne]; [rewrite assoc_set_eq|rewrite assoc_set_ne by done]; simpl; lia.
Qed.

Lemma total_bump k d : total (bump k d) = (total d + 1)%Z.
Proof.
  unfold bump. induction d as [|[k' n] d IH]; [done|]. cbn [assoc assoc_set]. destruct (String.eqb k' k).
  - cbn [default total foldr snd]. simpl. lia.
  - unfold total in *. cbn [foldr snd]. rewrite IH. lia.
Qed.

Section counted.
Context `{FloatRepr}.

Record counted (c : counters) (l : list pyval) (c' : counters) : Prop := {
  c_action k : tally (by_action c') k = (tally (by_action c) k + count_of (fun v => String.eqb (label "action" (receipt_of v)) k) l)%Z;
  c_kind k : tally (by_kind c') k = (tally (by_kind c) k + count_of (fun v => String.eqb (label "beacon_kind" (receipt_of v)) k) l)%Z;
  c_total : total (by_action c') = (total (by_action c) + Z.of_nat (length l))%Z;
  c_heals : heals c' = (heals c + count_of (executed "healed") l)%Z;
  c_proposals : proposals c' = (proposals c + count_of (executed "proposed") l)%Z;
  c_quarantines : quarantines c' = (quarantines c + count_of (executed "quarantined") l)%Z;
  c_failures : healing_failures c' = (healing_failures c + count_of (executed "rolled_back") l)%Z;
  c_escalations : escalations c' = (escalations c + count_of (fun v => String.eqb (label "action" (receipt_of v)) "escalate_human") l)%Z
}.

Lemma count_decision_step v c c' : count_decision c v = Ok c' -> counted c [v] c'.
Proof.
  unfold count_decision. destruct v as [| | | | | |r]; try done. cbv zeta.
  destruct (py_or (field "execution" r) (PDict [])) as [| | | | | |ex] eqn:Eex; try done. intros E. apply (f_equal (fun r => match r with Ok c => c | _ => c end)) in E.
  rewrite <- E. assert (He : forall k, executed k (PDict r) = truthy (field k ex)).
  { intros k. unfold executed, execution_of. cbn [receipt_of mapping]. f_equal. f_equal. revert Eex. unfold py_or.
    destruct (field "execution" r); cbn [truthy mapping]; repeat case_match; congruence. }
  constructor; intros; rewrite ?count_of_cons, ?He; cbn -[tally total bump label tick field]; rewrite ?tally_bump, ?total_bump; try lia;
    rewrite tick_plus; unfold count_of; simpl; lia.
Qed.

Lemma count_decisions_all l : forall c c', res_fold count_decision c l = Ok c' -> counted c l c'.
Proof.
  induction l as [|v l IH]; intros c c'; cbn [res_fold].
  - intros [= <-]. constructor; intros; unfold count_of; simpl; lia.
  - intros (c1 & H1 & H2)%bind_Ok_inv. apply count_decision_step in H1. apply IH in H2. destruct H1, H2.
    constructor; intros; repeat (match goal with Hx : forall k, tally _ k = _ |- context [tally _ ?k] => rewrite (Hx k); clear Hx end);
      rewrite ?count_of_cons in *; unfold count_of in *; cbn [length List.filter] in *; try lia.
Qed.
End counted.

Lemma count_pos f l : (0 <? count_of f l)%Z = false <-> Forall (fun v => f v = false) l.
Proof.
  rewrite Z.ltb_ge. induction l as [|v l IH]; [done|]. rewrite count_of_cons, Forall_cons, <- IH.
  assert (0 <= count_of f l)%Z by (unfold count_of; lia). destruct (f v); cbn [tick]; split; intros; try (split; [done|lia]); naive_solver lia.
Qed.

(** The metrics are the counts they are named for: of every action and class
    the number of its decisions, which add up to the total, and of every outcome
    the number of executions that report it.  No alert fires exactly when no
    decision quarantined a subject, none rolled back a fix, and fewer decisions
    than the threshold were escalated. *)
Theorem metrics_exact `{FloatRepr} decisions beacons proposed quarantined threshold m :
  collect decisions beacons proposed quarantined = Ok m ->
  (forall a, tally (by_action (counts m)) a = count_of (fun v => String.eqb (label "action" (receipt_of v)) a) decisions) /\
  (forall k, tally (by_kind (counts m)) k = count_of (fun v => String.eqb (label "beacon_kind" (receipt_of v)) k) decisions) /\
  total (by_action (counts m)) = decisions_total m /\ escalations (counts m) = tally (by_action (counts m)) "escalate_human" /\
  heals (counts m) = count_of (executed "healed") decisions /\ proposals (counts m) = count_of (executed "proposed") decisions /\
  (alerts m threshold = [] <->
    Forall (fun v => executed "quarantined" v = false /\ executed "rolled_back" v = false) decisions /\
    (count_of (fun v => String.eqb (label "action" (receipt_of v)) "escalate_human") decisions < threshold)%Z).
Proof.
  intros (c & Hc & [= <-])%bind_Ok_inv. cbn [counts decisions_total]. destruct (count_decisions_all _ _ _ Hc). cbn in *.
  split_and!; try done; [by rewrite c_escalations0, c_action0|].
  unfold alerts. cbn [counts]. rewrite c_quarantines0, c_failures0, c_escalations0, !Z.add_0_l, Forall_and, <- !count_pos, <- Z.leb_gt.
  destruct (0 <? _)%Z, (0 <? _)%Z, (_ <=? _)%Z; simpl; naive_solver.
Qed.

(** ** What leaves for the room *)

Definition room_keys : list string :=
  ["action"; "address"; "content_sha256"; "message_id"; "trace_id"; "verdict"; "epistemic_level"; "decided_at"].

(** Exactly the decisions that escalate or quarantine become incidents, one
    each, and an incident is room-safe: it depends on nothing of the receipt but
    its named references, so two receipts that differ in their evidence, detail
    or execution give the same incident. *)
Theorem incident_room_safe `{FloatRepr} fresh_id now ns uuid receipt receipt' claim_ref sink out sink' :
  (forall k, k ∈ room_keys -> assoc k receipt = assoc k receipt') ->
  route fresh_id now ns uuid receipt claim_ref sink = Ok (out, sink') ->
  route fresh_id now ns uuid receipt' claim_ref sink = Ok (out, sink') /\
  match out with
  | None => escalates receipt = false /\ sink' = sink
  | Some incident => escalates receipt = true /\
    visible sink' = <[file_name (item_id ns uuid) := PDict incident]> (visible sink) /\
    field "autonomy_class" incident = PStr (if eq_str (field "action" receipt) "quarantine" then "A4" else "A0")
  end.
Proof.
  intros Hk. assert (Hf : forall k, k ∈ room_keys -> field k receipt = field k receipt') by (intros k Hin; unfold field; by rewrite Hk).
  intros Hr. split.
  - rewrite <- Hr. unfold route, escalates, to_incident, label. rewrite !Hf, !Hk by set_solver. done.
  - clear Hk Hf receipt'. unfold route in Hr. destruct (negb (hashable _)); [done|].
    destruct (escalates receipt) eqn:Ee; cbn [negb] in Hr; [|by injection Hr as <- <-].
    apply bind_Ok_inv in Hr as (incident & Hi & Hr). injection Hr as <- <-. split_and!; [done..|].
    apply bind_Ok_inv in Hi as (subject & _ & Hi). apply bind_Ok_inv in Hi as (short & _ & Hi).
    apply (f_equal (fun r => match r with Ok d => field "autonomy_class" d | Raise _ => PNone end)) in Hi. rewrite <- Hi. clear Hi.
    cbn -[label _AUTONOMY eq_str]. unfold escalates in Ee. cbn [existsb ESCALATION_ACTIONS] in Ee. rewrite !orb_true_iff in Ee.
    unfold label. unfold field in *. destruct Ee as [Ee|[Ee|]]; [| |done]; apply eq_str_iff in Ee; rewrite Ee;
      destruct (assoc "action" receipt) as [v|]; cbn [default] in Ee |- *; try done; change (id v) with v in Ee; by rewrite Ee.
Qed.

(** ** The probe *)

Lemma age_not_nan file now a : age_seconds file now = Some a -> is_nan a = false.
Proof.
  unfold age_seconds. destruct file as [text|]; [|done]. destruct (float_of_str _) as [w|]; [|done]. intros [= <-].
  unfold F64.max. destruct (F64.ltb F64.zero (F64.sub now w)) eqn:E; [|done]. by destruct (F64.sub now w).
Qed.

(** The probe succeeds exactly when the heartbeat and the progress marker both
    hold a time no older than their bounds. *)
Theorem healthz_iff_fresh max_age prog_max heartbeat progress now :
  is_nan max_age = false -> is_nan prog_max = false ->
  healthz max_age prog_max heartbeat progress now = 0%Z <->
  exists age prog, age_seconds heartbeat now = Some age /\ age_seconds progress now = Some prog /\
    F64.leb age max_age = true /\ F64.leb prog prog_max = true.
Proof.
  intros Hm Hp. unfold healthz, is_alive. destruct (age_seconds heartbeat now) as [age|] eqn:Ea; [|by split; [|intros (? & ? & [=] & _)]].
  destruct (F64.leb age max_age) eqn:El; cbn [negb]; [|split; [done|intros (? & ? & [= <-] & _ & Hle & _); congruence]].
  destruct (age_seconds progress now) as [prog|] eqn:Eg; [|by split; [|intros (? & ? & _ & [=] & _)]].
  pose proof (age_not_nan _ _ _ Eg) as Hn.
  destruct (F64.ltb prog_max prog) eqn:Et.
  - split; [done|]. intros (a & b & [= <-] & [= <-] & _ & Hle). apply ltb_key in Et; [|done..]. apply leb_key in Hle; done.
  - split; [|done]. intros _. exists age, prog. split_and!; try done. apply leb_key; [done..|].
    destruct (lex_total (key prog) (key prog_max)) as [|Hx]; [done|]. apply not_true_iff_false in Et. rewrite ltb_key in Et by done.
    unfold lex in *. lia.
Qed.

(** ** Witnesses *)

#[local] Existing Instance demo_float_repr.

Definition demo_decision (action outcome : string) : pyval :=
  PDict [("action", PStr action); ("beacon_kind", PStr "mirror_drift"); ("execution", PDict [(outcome, PBool true)])].

Definition no_queue : DurableQueue := mkQueue ∅ ∅.

Lemma metrics_exact_witness :
  exists m, collect [demo_decision "auto_fix" "healed"; demo_decision "escalate_human" "rolled_back"] no_queue no_queue no_queue = Ok m /\
    tally (by_action (counts m)) "escalate_human" = 1%Z /\ alerts m 5 <> [].
Proof.
  destruct (collect [demo_decision "auto_fix" "healed"; demo_decision "escalate_human" "rolled_back"] no_queue no_queue no_queue)
    as [m|] eqn:E; [|exfalso; apply (f_equal is_ok) in E; by vm_compute in E]. exists m.
  destruct (metrics_exact _ _ _ _ 5 m E) as (Ha & _ & _ & _ & _ & _ & Hal). split_and!; [done|by rewrite Ha|].
  intros Hn. apply Hal in Hn as [Hf _]. inversion_clear Hf as [|? ? _ Hf2]. inversion_clear Hf2 as [|? ? [_ Hbad] _]. discriminate Hbad.
Defined.

Definition demo_receipt (detail : string) : dict :=
  [("action", PStr "quarantine"); ("message_id", PStr "01J"); ("verdict", PStr "quarantine"); ("detail", PStr detail)].

Lemma incident_room_safe_witness :
  exists out sink', route "id" "now" 7 "u" (demo_receipt "secret") None no_queue = Ok (out, sink') /\
    route "id" "now" 7 "u" (demo_receipt "other") None no_queue = Ok (out, sink').
Proof.
  destruct (route "id" "now" 7 "u" (demo_receipt "secret") None no_queue) as [[out sink']|] eqn:E;
    [|exfalso; apply (f_equal is_ok) in E; by vm_compute in E]. exists out, sink'. split; [done|].
  apply (incident_room_safe "id" "now" 7 "u" (demo_receipt "secret") (demo_receipt "other")); [|done].
  intros k Hk. unfold room_keys in Hk. repeat (apply elem_of_cons in Hk as [->|Hk]; [by vm_compute|]). by apply elem_of_nil in Hk.
Defined.

Lemma healthz_iff_fresh_witness :
  healthz DEFAULT_MAX_AGE_SECONDS DEFAULT_PROGRESS_MAX_AGE_SECONDS (Some "100.5") (Some "0") (F64.of_Z 200) = 0%Z.
Proof.
  apply healthz_iff_fresh; [done|done|]. exists (F64.of_dec 995 1), (F64.of_Z 200). by vm_compute.
Defined.
