(* ===== verification/Scheduler.v ===== *)
(** * The scheduler's jobs

    Models the jobs of [automation/scheduler.py] that keep state: the drain of
    the webhook queue under the rate limiter, the propagation of an event with
    its retries, the hourly rebuild and the daily scan, the beacon of the default
    handler, and the preflight.  The jobs that only call a modelled component
    (the responder, telemetry, learning) are those components; when jobs start is
    the library's business.

    The propagation handler acts on a world of any type and may raise; the clock
    is part of that world.  The retries of a propagation call the propagation
    itself, so it recurses on a fuel; the interpreter's bound on the depth of
    calls is not modelled.  The queue is drained with no one else at work on it:
    the webhook server adds no event and no other process takes one meanwhile, so
    the [break] for a queue found empty after the quota was charged is there
    ([process_loop]) but is not reached. *)

From Stdlib Require Import SpecFloat.
From S2P Require Import Prelude PyVal PyText FloatOrder RateLimiter DurableQueue PrOpener.
Local Open Scope Z_scope.

Definition COST_REGISTRY_REBUILD : Z := 200.
Definition COST_DEEP_SCAN : Z := 800.
Definition COST_PROCESS_EVENT : Z := 10.
Definition BACKOFF_USAGE_THRESHOLD : spec_float := F64.of_dec 80 2.

Definition _REQUIRED_TOOLS : list string :=
  ["check_vendored_artifact_graph.py"; "lift_vendor_freshness_to_graph.py"; "generate_workspace_resolved_lock.py";
   "validate_vendor_freshness.py"; "check_source_exposure.py"]%string.

(** [preflight] after the imports: the tools that are missing. *)
Definition missing_tools (exists_tool : string -> bool) : list string :=
  map (fun t => "tools/" +:+ t)%string (List.filter (fun t => negb (exists_tool t)) _REQUIRED_TOOLS).

Record job_metrics := mkJobs {
  jobs_run : Z;
  jobs_failed : Z;
  jobs_skipped : Z;
  events_processed : Z;
  rebuilds_run : Z;
  deep_scans_run : Z
}.

Definition no_jobs : job_metrics := mkJobs 0 0 0 0 0 0.

Section scheduler.
Context {W : Type}.
Variable handler : pyval -> W -> res unit * W.
Variables registry_rebuild_fn deep_scan_fn : W -> res unit * W.
(** The readings of the clock a call of the limiter takes. *)
Variable clock : W -> reading * W.

Record scheduler := mkScheduler {
  limiter : RateLimiter;
  event_queue : DurableQueue;
  jobs : job_metrics;
  (** the sleeps so far *)
  slept : list spec_float;
  s_world : W
}.

Definition on_jobs (f : job_metrics -> job_metrics) (s : scheduler) : scheduler :=
  mkScheduler (limiter s) (event_queue s) (f (jobs s)) (slept s) (s_world s).

Definition add_run (m : job_metrics) := mkJobs (jobs_run m + 1) (jobs_failed m) (jobs_skipped m) (events_processed m) (rebuilds_run m) (deep_scans_run m).
Definition add_failed (m : job_metrics) := mkJobs (jobs_run m) (jobs_failed m + 1) (jobs_skipped m) (events_processed m) (rebuilds_run m) (deep_scans_run m).
Definition add_skipped (m : job_metrics) := mkJobs (jobs_run m) (jobs_failed m) (jobs_skipped m + 1) (events_processed m) (rebuilds_run m) (deep_scans_run m).
Definition add_processed (m : job_metrics) := mkJobs (jobs_run m) (jobs_failed m) (jobs_skipped m) (events_processed m + 1) (rebuilds_run m) (deep_scans_run m).
Definition add_rebuild (m : job_metrics) := mkJobs (jobs_run m) (jobs_failed m) (jobs_skipped m) (events_processed m) (rebuilds_run m + 1) (deep_scans_run m).
Definition add_scan (m : job_metrics) := mkJobs (jobs_run m) (jobs_failed m) (jobs_skipped m) (events_processed m) (rebuilds_run m) (deep_scans_run m + 1).

Definition with_world (w : W) (s : scheduler) : scheduler := mkScheduler (limiter s) (event_queue s) (jobs s) (slept s) w.
Definition sleep (d : spec_float) (s : scheduler) : scheduler :=
  mkScheduler (limiter s) (event_queue s) (jobs s) (slept s ++ [d]) (s_world s).

(** [base_delay ** attempt] for the default base of two seconds. *)
Definition delay (attempt : nat) : spec_float := F64.of_Z (2 ^ Z.of_nat attempt).

(** The retry loop from [attempt] on, with [more] attempts left; [fn] may not
    return ([None]) and may raise. *)
Fixpoint _exponential_retry (fn : scheduler -> option (res unit * scheduler)) (attempt more : nat) (s : scheduler) :
    option (res unit * scheduler) :=
  match more with
  | O => Some (Ok tt, s)
  | S more =>
    match fn (sleep (delay attempt) s) with
    | None => None
    | Some (Ok _, s) => Some (Ok tt, s)
    | Some (Raise _, s) => _exponential_retry fn (S attempt) more s
    end
  end.

(** One propagation.  It handles its own exception, so it never raises; [fuel]
    bounds how deep the retries nest. *)
Fixpoint _run_propagation (fuel : nat) (event : pyval) (s : scheduler) : option (res unit * scheduler) :=
  match fuel with
  | O => None
  | S fuel =>
    let s := on_jobs add_run s in
    match handler event (s_world s) with
    | (Ok _, w) => Some (Ok tt, on_jobs add_processed (with_world w s))
    | (Raise _, w) => _exponential_retry (_run_propagation fuel event) 1 3 (on_jobs add_failed (with_world w s))
    end
  end.

(** [usage_fraction() >= BACKOFF_USAGE_THRESHOLD], and the limiter it leaves. *)
Definition backing_off (s : scheduler) : res (bool * scheduler) :=
  let (r, w) := clock (s_world s) in
  ul ← usage_fraction r (limiter s);
  let (u, l) := (ul : spec_float * RateLimiter) in
  Ok (F64.leb BACKOFF_USAGE_THRESHOLD u, mkScheduler l (event_queue s) (jobs s) (slept s) w).

Definition acquire_for (cost : Z) (s : scheduler) : res (bool * scheduler) :=
  let (r, w) := clock (s_world s) in
  a ← acquire cost r (limiter s);
  let '(l, granted, d) := (a : RateLimiter * bool * option spec_float) in
  Ok (granted, mkScheduler l (event_queue s) (jobs s) (slept s ++ match d with Some d => [d] | None => [] end) w).

(** The drain loop; [rounds] bounds its turns, [fuel] each propagation. *)
Fixpoint process_loop (rounds fuel : nat) (s : scheduler) : option (res scheduler) :=
  match rounds with
  | O => None
  | S rounds =>
    if empty (event_queue s) then Some (Ok s) else
    match backing_off s with
    | Raise e => Some (Raise e)
    | Ok (true, s) => Some (Ok (on_jobs add_skipped s))
    | Ok (false, s) =>
      match acquire_for COST_PROCESS_EVENT s with
      | Raise e => Some (Raise e)
      | Ok (false, s) => Some (Ok (on_jobs add_skipped s))
      | Ok (true, s) =>
        match get_nowait (event_queue s) with
        | Raise _ => Some (Ok s)
        | Ok (event, q) =>
          match _run_propagation fuel event (mkScheduler (limiter s) q (jobs s) (slept s) (s_world s)) with
          | None => None
          | Some (_, s) => process_loop rounds fuel s
          end
        end
      end
    end
  end.

Definition _process_queue (fuel : nat) (s : scheduler) : option (res scheduler) :=
  process_loop (S (qsize (event_queue s))) fuel s.

(** A job with a cost: skipped near the limit or without quota, else run. *)
Definition run_costly (cost : Z) (fn : W -> res unit * W) (add_done : job_metrics -> job_metrics) (s : scheduler) : res scheduler :=
  b ← backing_off s;
  let (back, s) := (b : bool * scheduler) in
  if back then Ok (on_jobs add_skipped s)
  else
    a ← acquire_for cost s;
    let (granted, s) := (a : bool * scheduler) in
    if negb granted then Ok (on_jobs add_skipped s)
    else
      let s := on_jobs add_run s in
      match fn (s_world s) with
      | (Ok _, w) => Ok (on_jobs add_done (with_world w s))
      | (Raise _, w) => Ok (on_jobs add_failed (with_world w s))
      end.

Definition _run_registry_rebuild : scheduler -> res scheduler := run_costly COST_REGISTRY_REBUILD registry_rebuild_fn add_rebuild.
Definition _run_deep_scan : scheduler -> res scheduler := run_costly COST_DEEP_SCAN deep_scan_fn add_scan.
End scheduler.

Arguments scheduler : clear implicits.

(** The default handler: it records a beacon and acts on nothing.  The line it
    logs afterwards asks the event for its repository. *)
Definition observe_and_beacon (now : string) (ns : Z) (uuid : string) (event : pyval) (inbox : DurableQueue) : res unit * DurableQueue :=
  (if is_dict event then Ok tt else Raise AttributeError,
   (put ns uuid (PDict [("kind", PStr "event_observed"); ("event", event); ("observed_at", PStr now);
                        ("decision", PStr "deferred: no reasoned responder wired yet")]%string) inbox).2).

(** ** Retries *)

Section retries.
Context {W : Type}.
Variable handler : pyval -> W -> res unit * W.
Variable event : pyval.

(** The world after [n] calls of the handler, and whether the next succeeds. *)
Definition after_calls (n : nat) (w : W) : W := Nat.iter n (fun w => (handler event w).2) w.
Definition succeeds (n : nat) (w : W) : bool := is_ok (handler event (after_calls n w)).1.

Lemma after_calls_S n w : after_calls n (handler event w).2 = after_calls (S n) w.
Proof. unfold after_calls. by rewrite Nat.iter_succ_r. Qed.

(** The state after [n] failures and a success. *)
Definition settled (n : nat) (s : scheduler W) : scheduler W :=
  mkScheduler (limiter s) (event_queue s)
    (mkJobs (jobs_run (jobs s) + Z.of_nat n + 1) (jobs_failed (jobs s) + Z.of_nat n) (jobs_skipped (jobs s))
       (events_processed (jobs s) + 1) (rebuilds_run (jobs s)) (deep_scans_run (jobs s)))
    (slept s ++ replicate n (F64.of_Z 2)) (after_calls (S n) (s_world s)).

Lemma run_propagation_settles n : forall fuel s,
  (n < fuel)%nat -> (forall k, (k < n)%nat -> succeeds k (s_world s) = false) -> succeeds n (s_world s) = true ->
  _run_propagation handler fuel event s = Some (Ok tt, settled n s).
Proof.
  induction n as [|n IH]; intros [|fuel] s Hf Hfail Hok; try lia; cbn [_run_propagation]; cbv zeta.
  - unfold succeeds in Hok. change (after_calls 0 (s_world s)) with (s_world s) in Hok. cbn [on_jobs s_world].
    unfold settled. change (after_calls 1 (s_world s)) with (handler event (s_world s)).2. destruct (handler event (s_world s)) as [[u|e] w]; [|done].
    unfold on_jobs, with_world, add_run, add_processed. cbn. rewrite app_nil_r, !Z.add_0_r. done.
  - pose proof (Hfail 0%nat ltac:(lia)) as H0. unfold succeeds in H0. change (after_calls 0 (s_world s)) with (s_world s) in H0.
    cbn [on_jobs s_world]. destruct (handler event (s_world s)) as [[u|e] w] eqn:Eh; [done|].
    assert (Hw : w = (handler event (s_world s)).2) by (by rewrite Eh).
    cbn [_exponential_retry]. rewrite IH.
    + unfold settled, sleep, on_jobs, with_world, add_run, add_failed. cbn -[Z.of_nat after_calls]. rewrite <- app_assoc.
      rewrite Hw, after_calls_S. do 3 f_equal. f_equal; lia.
    + lia.
    + intros k Hk. cbn [sleep on_jobs with_world s_world]. rewrite Hw. unfold succeeds. rewrite after_calls_S. apply Hfail. lia.
    + cbn [sleep on_jobs with_world s_world]. rewrite Hw. unfold succeeds. by rewrite after_calls_S.
Qed.

Lemma run_propagation_stuck fuel : forall s,
  (forall n, (n < fuel)%nat -> succeeds n (s_world s) = false) -> _run_propagation handler fuel event s = None.
Proof.
  induction fuel as [|fuel IH]; intros s Hs; [done|]. cbn [_run_propagation]. cbv zeta. cbn [on_jobs s_world].
  pose proof (Hs 0%nat ltac:(lia)) as H0. unfold succeeds in H0. change (after_calls 0 (s_world s)) with (s_world s) in H0.
  destruct (handler event (s_world s)) as [[u|e] w] eqn:Eh; [done|]. cbn [_exponential_retry]. rewrite IH; [done|].
  intros n Hn. cbn [sleep on_jobs with_world s_world]. assert (Hw : w = (handler event (s_world s)).2) by (by rewrite Eh).
  rewrite Hw. unfold succeeds. rewrite after_calls_S. apply (Hs (S n)). lia.
Qed.

Lemma first_success w : forall n, succeeds n w = true -> exists m, (m <= n)%nat /\ succeeds m w = true /\ forall k, (k < m)%nat -> succeeds k w = false.
Proof.
  induction n as [n IH] using lt_wf_ind. intros Hn.
  destruct (decide (Exists (fun k => succeeds k w = true) (seq 0 n))) as [Hex|Hno].
  - apply Exists_exists in Hex as (k & Hk%elem_of_seq & Hs). destruct (IH k ltac:(lia) Hs) as (m & Hm & Hrest). exists m. split; [lia|done].
  - exists n. split_and!; [lia|done|]. intros k Hk. apply not_true_iff_false. intros Hs. apply Hno, Exists_exists. exists k.
    split; [apply elem_of_seq; lia|done].
Qed.
End retries.

(** A propagation returns exactly when some call of the handler succeeds: it
    then has called the handler until the first success, counted every call and
    every failure, and slept two seconds before each call but the first. *)
Theorem propagation_until_success {W} (handler : pyval -> W -> res unit * W) event s :
  ((exists fuel r, _run_propagation handler fuel event s = Some r) <-> exists n, succeeds handler event n (s_world s) = true) /\
  forall fuel r, _run_propagation handler fuel event s = Some r ->
    exists n, (n < fuel)%nat /\ r = (Ok tt, settled handler event n s) /\ succeeds handler event n (s_world s) = true /\
      forall k, (k < n)%nat -> succeeds handler event k (s_world s) = false.
Proof.
  assert (Hret : forall fuel r, _run_propagation handler fuel event s = Some r ->
    exists n, (n < fuel)%nat /\ r = (Ok tt, settled handler event n s) /\ succeeds handler event n (s_world s) = true /\
      forall k, (k < n)%nat -> succeeds handler event k (s_world s) = false).
  { intros fuel r Hr. destruct (decide (Exists (fun k => succeeds handler event k (s_world s) = true) (seq 0 fuel))) as [Hex|Hno].
    - apply Exists_exists in Hex as (k & Hk%elem_of_seq & Hs). destruct (first_success handler event _ k Hs) as (m & Hm & Hsm & Hf).
      exists m. assert (m < fuel)%nat by lia. rewrite (run_propagation_settles handler event m fuel s) in Hr by done. injection Hr as <-. done.
    - exfalso. rewrite (run_propagation_stuck handler event fuel s) in Hr; [done|].
      intros k Hk. apply not_true_iff_false. intros Hs. apply Hno, Exists_exists. exists k. split; [apply elem_of_seq; lia|done]. }
  split; [|done]. split.
  - intros (fuel & r & Hr). destruct (Hret fuel r Hr) as (n & _ & _ & Hn & _). by exists n.
  - intros (n & Hn). destruct (first_success handler event _ n Hn) as (m & _ & Hm & Hf).
    exists (S m), (Ok tt, settled handler event m s). apply run_propagation_settles; [lia|done..].
Qed.

(** A handler that always fails is called for ever: the three attempts of the
    retry loop are never counted, since each retry starts a loop of its own. *)
Lemma failing_event_never_returns {W} (handler : pyval -> W -> res unit * W) event s fuel :
  (forall w, is_ok (handler event w).1 = false) -> _run_propagation handler fuel event s = None.
Proof. intros Hf. apply run_propagation_stuck. intros n _. apply Hf. Qed.

(** ** Draining the queue *)

Lemma get_nowait_pending q p ps :
  _pending q = p :: ps ->
  exists e q', get_nowait q = Ok (e, q') /\ visible q !! p = Some e /\ visible q' = delete p (visible q) /\ _pending q' = ps.
Proof.
  intros E. assert (Hp : is_Some (visible q !! p)) by (apply pending_elem; rewrite E; by left). destruct Hp as [e He].
  unfold get_nowait. rewrite E. cbn [get_from]. unfold claim. rewrite He. eexists e, _. split_and!; [done..|].
  pose proof (names_sorted (keys (visible q))) as Hs. fold (_pending q) in Hs. rewrite E in Hs. inversion_clear Hs.
  apply sorted_names_unique; [apply names_sorted|done|]. unfold _pending at 1. rewrite py_sort_perm. unfold unlink. cbn [visible].
  apply (Permutation_cons_inv (a := p)). rewrite <- E. unfold _pending. rewrite py_sort_perm. unfold keys.
  rewrite <- (insert_delete_id (visible q) p e He) at 2. rewrite map_to_list_insert by apply lookup_delete_eq. done.
Qed.

Section drained_queue.
Context {W : Type}.
Variable handler : pyval -> W -> res unit * W.
Variable clock : W -> reading * W.
Variable fuel : nat.
(** Called again and again, the handler succeeds within [fuel] calls. *)
Hypothesis handler_settles : forall e w, exists n, (n < fuel)%nat /\ succeeds handler e n w = true.

#[local] Abbreviation today s := (calls_today (metrics (limiter s))).

Lemma reset_today r l : calls_today (metrics (_maybe_reset_hour r l)) = calls_today (metrics l).
Proof. unfold _maybe_reset_hour. by destruct (hour_over r l). Qed.

Lemma backing_off_spec (s : scheduler W) b s' :
  backing_off clock s = Ok (b, s') -> event_queue s' = event_queue s /\ jobs s' = jobs s /\ today s' = today s.
Proof.
  unfold backing_off, usage_fraction. destruct (clock (s_world s)) as [r w]. intros (u & Hu & Hr)%bind_Ok_inv.
  apply bind_Ok_inv in Hu as (f & _ & [= <-]). injection Hr as <- <-. cbn. by rewrite reset_today.
Qed.

Lemma acquire_for_spec cost (s : scheduler W) b s' :
  acquire_for clock cost s = Ok (b, s') ->
  event_queue s' = event_queue s /\ jobs s' = jobs s /\ today s' = today s + (if b then cost else 0).
Proof.
  unfold acquire_for, acquire, acquire_locked. destruct (clock (s_world s)) as [r w]. intros (a & Ha & Hr)%bind_Ok_inv.
  apply bind_Ok_inv in Ha as (lu & Hlu & Ha). apply bind_Ok_inv in Hlu as (u & _ & Hlu). cbv zeta in Hlu.
  destruct (F64.leb EMERGENCY_THRESHOLD u); [injection Hlu as <-; injection Ha as <-; injection Hr as <- <-; cbn; rewrite reset_today; by rewrite Z.add_0_r|].
  destruct (_ <? _); [injection Hlu as <-; injection Ha as <-; injection Hr as <- <-; cbn; rewrite reset_today; by rewrite Z.add_0_r|].
  injection Hlu as <-. destruct (F64.leb BACKOFF_THRESHOLD u); injection Ha as <-; injection Hr as <- <-; cbn; by rewrite reset_today.
Qed.

Lemma propagation_ok e (s : scheduler W) :
  exists s' k, _run_propagation handler fuel e s = Some (Ok tt, s') /\ limiter s' = limiter s /\ event_queue s' = event_queue s /\
    jobs s' = jobs (settled handler e k s).
Proof.
  destruct (handler_settles e (s_world s)) as (n & Hn & Hs). destruct (first_success handler e _ n Hs) as (m & Hm & Hsm & Hf).
  exists (settled handler e m s), m. split; [|done]. apply run_propagation_settles; [lia|done..].
Qed.

(** The jobs after [n] events and [k] failed calls of the handler, with or
    without a skip at the end. *)
Definition drained (n : nat) (k : Z) (skipped : bool) (m : job_metrics) : job_metrics :=
  mkJobs (jobs_run m + Z.of_nat n + k) (jobs_failed m + k) (jobs_skipped m + if skipped then 1 else 0)
    (events_processed m + Z.of_nat n) (rebuilds_run m) (deep_scans_run m).

Lemma process_loop_spec rounds : forall s,
  (length (_pending (event_queue s)) < rounds)%nat ->
  exists r, process_loop handler clock rounds fuel s = Some r /\
    forall s', r = Ok s' -> exists n k, (n <= length (_pending (event_queue s)))%nat /\
      _pending (event_queue s') = drop n (_pending (event_queue s)) /\ today s' = today s + COST_PROCESS_EVENT * Z.of_nat n /\
      0 <= k /\ jobs s' = drained n k (negb (Nat.eqb n (length (_pending (event_queue s))))) (jobs s).
Proof.
  induction rounds as [|rounds IH]; intros s Hr; [lia|]. cbn [process_loop].
  assert (H0 : forall s1 : scheduler W, event_queue s1 = event_queue s -> jobs s1 = jobs s -> today s1 = today s -> _pending (event_queue s) <> [] ->
    exists n k, (n <= length (_pending (event_queue s)))%nat /\ _pending (event_queue (on_jobs add_skipped s1)) = drop n (_pending (event_queue s)) /\
      today (on_jobs add_skipped s1) = today s + COST_PROCESS_EVENT * Z.of_nat n /\
      0 <= k /\ jobs (on_jobs add_skipped s1) = drained n k (negb (Nat.eqb n (length (_pending (event_queue s))))) (jobs s)).
  { intros s1 E1 E2 E3 Hne. exists 0%nat, 0. cbn -[_pending drained]. rewrite E1, E2, E3. destruct (_pending (event_queue s)); [done|].
    split_and!; [lia|done|lia|lia|]. unfold add_skipped, drained. cbn. by rewrite !Z.add_0_r. }
  unfold empty. destruct (_pending (event_queue s)) as [|p ps] eqn:Ep.
  { eexists. split; [done|]. intros s' [= <-]. exists 0%nat, 0. rewrite Ep. cbn. split_and!; [lia|done|lia|lia|].
    unfold drained. destruct (jobs s). cbn. by rewrite !Z.add_0_r. }
  destruct (backing_off clock s) as [[[] s1]|e] eqn:Eb; [| |by eexists].
  { destruct (backing_off_spec _ _ _ Eb) as (E1 & E2 & E3). eexists. split; [done|]. intros s' [= <-]. by apply H0. }
  destruct (backing_off_spec _ _ _ Eb) as (E1 & E2 & E3).
  destruct (acquire_for clock COST_PROCESS_EVENT s1) as [[[] s2]|e] eqn:Ea; [| |by eexists].
  2: { destruct (acquire_for_spec _ _ _ _ Ea) as (F1 & F2 & F3). eexists. split; [done|]. intros s' [= <-]. apply H0; [congruence..|lia|done]. }
  destruct (acquire_for_spec _ _ _ _ Ea) as (F1 & F2 & F3).
  destruct (get_nowait_pending (event_queue s2) p ps) as (ev & q' & -> & _ & _ & Hps); [by rewrite F1, E1|].
  match goal with |- context [_run_propagation handler fuel ev ?s3] => destruct (propagation_ok ev s3) as (s4 & j & -> & G1 & G2 & G3) end.
  cbn [limiter event_queue jobs] in G1, G2, G3. destruct (IH s4) as (r & Hl & Hres); [rewrite G2, Hps; simpl in Hr; lia|].
  exists r. split; [done|]. intros s' Es. destruct (Hres s' Es) as (n & k & Hn & Hpend & Htoday & Hk & Hjobs). rewrite G2, Hps in *.
  exists (S n), (k + Z.of_nat j). cbn [length drop Nat.eqb]. split_and!; [lia|done|rewrite Htoday, G1, F3, E3; lia|lia|].
  rewrite Hjobs, G3. unfold drained, settled. cbn -[Z.of_nat]. rewrite F2, E2. f_equal; lia.
Qed.
End drained_queue.


(** ** Witnesses *)

Definition steady_clock (w : nat) : reading * nat := (mkReading (F64.of_Z 1) (F64.of_Z 1) "t", w).
Definition counting_handler (e : pyval) (w : nat) : res unit * nat := (Ok tt, S w).

Definition demo_scheduler : scheduler nat :=
  mkScheduler (new_limiter HOURLY_LIMIT SAFETY_BUFFER F64.zero "t") (queue_with [("a.json", PInt 1); ("b.json", PInt 2)]%string) no_jobs [] 0%nat.

(** The handler fails twice and then succeeds. *)
Definition flaky_handler (e : pyval) (w : nat) : res unit * nat := (if Nat.ltb w 2 then Raise TypeError else Ok tt, S w).

Example flaky_propagation :
  match _run_propagation flaky_handler 3 PNone demo_scheduler with
  | Some (_, s) => jobs s = mkJobs 3 2 0 1 0 0 /\ slept s = [F64.of_Z 2; F64.of_Z 2]
  | None => False
  end.
Proof. vm_compute. auto. Qed.

(** A handler that fails on every other call: each of the two events takes at
    most two calls. *)
Definition odd_handler (e : pyval) (w : nat) : res unit * nat := (if Nat.even w then Raise TypeError else Ok tt, S w).

