(* ===== verification/Suppression.v ===== *)
(** * Escalation suppression

    Models [automation/suppression.py].  The store is the JSON value of its
    file, [None] when the file is missing or does not parse; a save replaces it
    at once.  The time of a call is its argument. *)

From Stdlib Require Import SpecFloat.
From S2P Require Import Prelude PyVal Json PyText.
Local Open Scope string_scope.

Section text.
Context `{FloatRepr}.

Definition fingerprint (beacon : pyval) : res string :=
  kind ← py_get beacon "kind_class" (PStr "unknown");
  system ← py_get beacon "system" (PStr "");
  Ok (py_str kind +:+ "::" +:+ py_str system).
End text.

Definition _load (file : option pyval) : dict :=
  match file with Some (PDict d) => d | _ => [] end.

Definition is_number (v : pyval) : bool :=
  match v with PInt _ | PBool _ | PFloat _ => true | _ => false end.

(** [isinstance(last, (int, float)) and (now - last) < cooldown]. *)
Definition within_window (cooldown now : spec_float) (last : pyval) : res bool :=
  if is_number last then
    l ← py_float last;
    Ok (F64.ltb (F64.sub now l) cooldown)
  else Ok false.

Definition should_process (fp : string) (cooldown_seconds now : spec_float) (file : option pyval) :
    res (bool * option pyval) :=
  if F64.leb cooldown_seconds F64.zero then Ok (true, file)
  else
    let data := _load file in
    recent ← within_window cooldown_seconds now (default PNone (assoc fp data));
    if (recent : bool) then Ok (false, file)
    else Ok (true, Some (PDict (assoc_set fp (PFloat now) data))).

(** ** A sequence of calls *)

Record hit := mkHit { h_fp : string; h_now : spec_float }.

(** The answers of a sequence of calls, newest first, with the hits they are
    answers to. *)
Fixpoint answers (cooldown : spec_float) (hits : list hit) (file : option pyval) (log : list (hit * bool)) :
    res (list (hit * bool)) :=
  match hits with
  | [] => Ok log
  | h :: hits =>
    r ← should_process (h_fp h) cooldown (h_now h) file;
    let (ok, file) := (r : bool * option pyval) in
    answers cooldown hits file ((h, ok) :: log)
  end.

(** When a condition was last decided. *)
Fixpoint last_decided (fp : string) (log : list (hit * bool)) : option spec_float :=
  match log with
  | [] => None
  | (h, ok) :: log => if ok && String.eqb (h_fp h) fp then Some (h_now h) else last_decided fp log
  end.

(** The rule: a hit is processed unless its condition was decided less than the
    cooldown ago. *)
Definition open_again (cooldown : spec_float) (h : hit) (log : list (hit * bool)) : bool :=
  match last_decided (h_fp h) log with
  | Some t => negb (F64.ltb (F64.sub (h_now h) t) cooldown)
  | None => true
  end.

Inductive governed (cooldown : spec_float) : list (hit * bool) -> Prop :=
| governed_nil : governed cooldown []
| governed_cons h log : governed cooldown log -> governed cooldown ((h, open_again cooldown h log) :: log).

Lemma last_decided_cons fp h ok log :
  last_decided fp ((h, ok) :: log) = if ok && String.eqb (h_fp h) fp then Some (h_now h) else last_decided fp log.
Proof. reflexivity. Qed.

(** The store holds the last decision of every condition. *)
Definition store_of (file : option pyval) (log : list (hit * bool)) : Prop :=
  forall fp, assoc fp (_load file) = option_map PFloat (last_decided fp log).

Lemma should_process_spec cooldown h file log :
  F64.leb cooldown F64.zero = false -> store_of file log ->
  exists file', should_process (h_fp h) cooldown (h_now h) file = Ok (open_again cooldown h log, file') /\
    store_of file' ((h, open_again cooldown h log) :: log).
Proof.
  intros Hc Hs. unfold should_process, open_again. rewrite Hc. rewrite (Hs (h_fp h)).
  destruct (last_decided (h_fp h) log) as [t|] eqn:El; cbn [option_map default from_option id];
    unfold within_window; cbn [is_number py_float mbind res_bind].
  - destruct (F64.ltb _ _) eqn:Ew; cbn [negb].
    + exists file. split; [done|]. intros fp. by rewrite (Hs fp).
    + eexists. split; [reflexivity|]. intros fp. rewrite last_decided_cons. cbn [_load andb].
      destruct (String.eqb_spec (h_fp h) fp) as [->|Hne]; [by rewrite assoc_set_eq|].
      rewrite assoc_set_ne by congruence. apply Hs.
  - eexists. split; [reflexivity|]. intros fp. rewrite last_decided_cons. cbn [_load andb].
    destruct (String.eqb_spec (h_fp h) fp) as [->|Hne]; [by rewrite assoc_set_eq|].
    rewrite assoc_set_ne by congruence. apply Hs.
Qed.

(** A persistent condition is decided once per window, and again after it.
    From an empty store, and with a positive cooldown, every sequence of hits is
    answered by one rule: a hit is processed exactly when its condition has not
    been decided less than the cooldown ago, so suppressed hits never extend the
    window, conditions do not disturb each other and none is silenced forever. *)
Theorem suppression_rule cooldown hits :
  F64.leb cooldown F64.zero = false ->
  exists log, answers cooldown hits None [] = Ok log /\ map fst log = rev hits /\ governed cooldown log.
Proof.
  intros Hc.
  assert (Hg : forall hits file log, store_of file log -> governed cooldown log ->
    exists log', answers cooldown hits file log = Ok log' /\ map fst log' = (rev hits ++ map fst log)%list /\
      governed cooldown log').
  { clear hits. induction hits as [|h hits IH]; intros file log Hs Hgov; cbn [answers].
    - by exists log.
    - destruct (should_process_spec cooldown h file log Hc Hs) as (file' & -> & Hs'). cbn [mbind res_bind].
      destruct (IH file' _ Hs') as (log' & E & Hm & Hg'); [by constructor|].
      exists log'. split_and!; [done| |done]. rewrite Hm. simpl. by rewrite <- app_assoc. }
  destruct (Hg hits None []) as (log & E & Hm & Hgov); [done|constructor|].
  exists log. rewrite app_nil_r in Hm. by split_and!.
Qed.

Lemma suppression_rule_witness :
  exists log, answers (F64.of_Z 60) [mkHit "a::x" (F64.of_Z 0); mkHit "a::x" (F64.of_Z 59); mkHit "a::x" (F64.of_Z 60)] None []
    = Ok log /\ map snd log = [true; false; true] /\ governed (F64.of_Z 60) log.
Proof.
  destruct (suppression_rule (F64.of_Z 60)
              [mkHit "a::x" (F64.of_Z 0); mkHit "a::x" (F64.of_Z 59); mkHit "a::x" (F64.of_Z 60)])
    as (log & E & _ & Hg); [vm_compute; reflexivity|].
  exists log. split; [exact E|]. split; [|exact Hg]. vm_compute in E. injection E as <-. reflexivity.
Defined.
