(* ===== verification/Responder.v ===== *)
(** * The reasoned responder

    Models [automation/responder.py]: what a beacon warrants, the boundary fence
    and the identity-risk gate, the composed decision with its receipt, the
    execution of a decision and one run over the drained inbox.

    A beacon is the JSON value that was queued.  The queues are those of
    [DurableQueue]: a run is given what draining the inbox returns and returns
    what it puts into the decision queue.  Executors act on a world of any type;
    one that raises gives the text of its exception.  The classes named in the
    reason of a composed decision are taken to be strings.  The graph upsert, off
    by default, is left out. *)

From Stdlib Require Import SpecFloat.
From S2P Require Import Prelude PyVal FloatOrder Json PyText Kernel Envelope Policy ControlLoop SelfHeal Suppression.
Local Open Scope string_scope.

Definition EXECUTORS : list (string * string * string) :=
  [("mirror_drift", "auto_fix", "resync_mirror_drift");
   ("vendored_graph_drift", "auto_fix", "reconcile_vendored_graph")].

Definition ACTION_EXECUTORS : list (string * string) :=
  [("propose_pr", "propose_pr"); ("canary_fix", "canary_fix"); ("quarantine", "quarantine")].

(** ** What a beacon warrants *)

Definition evidence_verdict (beacon : pyval) : res (option string) :=
  w ← py_get beacon "evidence" PNone;
  let w := py_or w (PDict []) in
  detector ← py_get w "detector" PNone;
  if truthy detector then
    reproducible ← py_get w "reproducible" PNone;
    stale ← py_get w "stale" PNone;
    Ok (Some (if truthy reproducible && negb (truthy stale) then "sealed" else "probable"))
  else
    signal ← py_get w "signal" PNone;
    Ok (if truthy signal then Some "weak" else None).

(** [max(0.0, 0.45 * e + 0.45 * inj - 0.20 * cc)]. *)
Definition compute_iri (beacon : pyval) : res spec_float :=
  e ← py_get beacon "entropy_uniqueness" (PFloat F64.zero);
  e ← py_float e;
  inj ← py_get beacon "injection_normativity" (PFloat F64.zero);
  inj ← py_float inj;
  cc ← py_get beacon "consent_credits" (PFloat F64.zero);
  cc ← py_float cc;
  let w45 := F64.of_dec 45 2 in
  Ok (F64.max F64.zero (F64.sub (F64.add (F64.mul w45 e) (F64.mul w45 inj)) (F64.mul (F64.of_dec 20 2) cc))).

Definition axis_breached (plan : dict) (ax : pyval) : res bool :=
  v ← get_any plan ax (PFloat F64.zero);
  f ← py_float v;
  Ok (F64.leb (F64.of_Z 1) f).

(** The axes a plan touches: only a string can be a key of it. *)
Fixpoint breached_axes (plan : dict) (axes : list pyval) : res (list string) :=
  match axes with
  | [] => Ok []
  | ax :: axes =>
    b ← axis_breached plan ax;
    rest ← breached_axes plan axes;
    Ok (match ax with PStr s => if (b : bool) then s :: rest else rest | _ => rest end)
  end.

Definition boundary_breaches (beacon : pyval) (axes : list pyval) : res (list string) :=
  plan ← py_get beacon "plan" PNone;
  let axes := match axes with [] => boundary_axes DEFAULT_POLICY | _ => axes end in
  match py_or plan (PDict []) with
  | PDict d => breached_axes d axes
  | _ => match axes with [] => Ok [] | _ => Raise AttributeError end
  end.

(** ** Composition *)

Definition _EVIDENCE_WEIGHT (ev : option string) : Z :=
  match ev with
  | Some "weak" => 1
  | Some "probable" => 2
  | Some "sealed" => 3
  | _ => 0
  end%Z.

Definition evidence_weight (beacon : pyval) : res Z := ev ← evidence_verdict beacon; Ok (_EVIDENCE_WEIGHT ev).

Definition evidence_of_total (total : Z) : option string :=
  if (total <=? 0)%Z then None
  else if (3 <=? total)%Z then Some "sealed"
  else if (total =? 2)%Z then Some "probable"
  else Some "weak".

Definition zsum (l : list Z) : Z := foldr Z.add 0%Z l.

Definition compose_evidence (beacons : list pyval) : res (option string) :=
  ws ← res_map evidence_weight beacons;
  Ok (evidence_of_total (zsum ws)).

Definition kind_of (beacon : pyval) : res pyval := py_get beacon "kind_class" (PStr "unknown").

Definition effective_law (beacons : list pyval) (policy : ResponsePolicy) : res verdict :=
  laws ← res_map (fun b => kind ← kind_of b; law_for policy kind) beacons;
  match laws with
  | [] => Ok (V (default_law policy))
  | _ => meet (map V laws)
  end.

(** [max(beacons, key=...)]: the first of the heaviest. *)
Fixpoint heaviest (best : pyval) (weight : Z) (beacons : list pyval) : res pyval :=
  match beacons with
  | [] => Ok best
  | b :: beacons =>
    w ← evidence_weight b;
    if (weight <? w)%Z then heaviest b w beacons else heaviest best weight beacons
  end.

Definition primary_of (beacons : list pyval) : res pyval :=
  match beacons with
  | [] => Ok (PDict [])
  | b :: bs => w ← evidence_weight b; heaviest b w bs
  end.

(** ** Receipts *)

Section text.
Context `{FloatRepr}.

Definition verdict_value (v : verdict) : pyval := match v with BOTTOM => PStr "BOTTOM" | V x => x end.

Definition _receipt (now : string) (beacon : pyval) (v : verdict) (action : pyval) (reason : string) : res dict :=
  system ← py_get beacon "system" (PStr "unknown");
  evidence_ref ← py_get beacon "evidence_ref" PNone;
  kind ← kind_of beacon;
  detail ← py_get beacon "detail" PNone;
  Ok ([("beacon_kind", kind); ("verdict", verdict_value v); ("action", action); ("reason", PStr reason);
       ("address", address_json "SND" ("system://" +:+ py_str system) "abduced" "assert" evidence_ref);
       ("decided_at", PStr now)]
      ++ match detail with PNone => [] | d => [("detail", d)] end)%list.

Definition composed_entry (b : pyval) : res pyval :=
  kind ← py_get b "kind_class" PNone;
  system ← py_get b "system" PNone;
  ev ← evidence_verdict b;
  Ok (PDict [("kind_class", kind); ("system", system);
             ("evidence", match ev with Some e => PStr e | None => PNone end)]).

Definition _compose_receipt (dr : draws) (now : string) (primary : pyval) (beacons : list pyval) (v : verdict)
    (action : pyval) (reason : string) : res dict :=
  receipt ← _receipt now primary v action reason;
  composed ← (if Nat.ltb 1 (length beacons) then
                l ← res_map composed_entry beacons;
                Ok [("composed_from", PList l); ("n_signals", PInt (Z.of_nat (length beacons)))]
              else Ok []);
  trace_id ← py_get primary "trace_id" PNone;
  let receipt := stamp dr (receipt ++ composed)%list trace_id in
  level ← epistemic_level_for receipt;
  Ok (assoc_set "epistemic_level" (PStr level) receipt).

(** ** The decision *)

(** [sorted({...})] of strings. *)
Definition sorted_set (l : list string) : list string := py_sort String.ltb (remove_dups l).

(** Verdict, action and reason of a subject's signals. *)
Definition judge (policy : ResponsePolicy) (beacons : list pyval) : res (verdict * pyval * string) :=
  let escalate reason := (BOTTOM, PStr "escalate_human", reason) in
  breaches ← res_map (fun b => boundary_breaches b (boundary_axes policy)) beacons;
  let breached := sorted_set (concat breaches) in
  match breached with
  | _ :: _ => Ok (escalate ("octonion boundary breached: " +:+ py_repr (PList (map PStr breached))))
  | [] =>
    iris ← res_map compute_iri beacons;
    let iri := match iris with [] => F64.zero | i :: rest => foldl F64.max i rest end in
    if F64.leb (iri_block policy) iri then
      Ok (escalate ("IRI " +:+ fmt_fixed 2 iri +:+ " >= block " +:+ repr_float (iri_block policy)))
    else
      ev ← compose_evidence beacons;
      match ev with
      | None => Ok (escalate "no evidence to assess (consent-hole)")
      | Some ev =>
        law ← effective_law beacons policy;
        v ← meet [law; V (PStr ev)];
        action ← action_for policy (verdict_value v);
        let reason := "meet(law=" +:+ py_str (verdict_value law) +:+ ", evidence=" +:+ ev +:+ ")=" +:+
                      py_str (verdict_value v) +:+ "; IRI=" +:+ fmt_fixed 2 iri in
        suffix ← (if Nat.ltb 1 (length beacons) then
                    kinds ← res_map kind_of beacons;
                    kinds ← all_texts kinds;
                    Ok ("; composed " +:+ pretty (length beacons) +:+ " signals over " +:+
                        py_repr (PList (map PStr (sorted_set kinds))))
                  else Ok "");
        Ok (v, action, reason +:+ suffix)
      end
  end.

Definition decide_composed (dr : draws) (now : string) (policy : ResponsePolicy) (beacons : list pyval) : res dict :=
  primary ← primary_of beacons;
  j ← judge policy beacons;
  let '(v, action, reason) := (j : verdict * pyval * string) in
  _compose_receipt dr now primary beacons v action reason.

Definition decide (dr : draws) (now : string) (policy : ResponsePolicy) (beacon : pyval) : res dict :=
  decide_composed dr now policy [beacon].
End text.
(** ** Executing a decision *)

Section execute.
Context `{FloatRepr} {W : Type}.
Variable clock : W -> spec_float * W.
Variable INVARIANTS : list (string * (W -> res spec_float * W)).
Variable opener : pyval -> W -> (string + string) * W.
(** [executor name beacon]: the outcome, or the text of the exception. *)
Variable executor : string -> pyval -> W -> (pyval + string) * W.

Definition find_executor (kind_class action : pyval) : res (option string) :=
  if negb (hashable kind_class && hashable action) then Raise TypeError
  else
    match List.find (fun e => eq_str kind_class e.1.1 && eq_str action e.1.2) EXECUTORS with
    | Some e => Ok (Some e.2)
    | None => Ok (match action with PStr a => assoc a ACTION_EXECUTORS | _ => None end)
    end.

Definition class_auto_fix (kind_class action : pyval) : bool :=
  existsb (fun e => eq_str kind_class e.1.1 && eq_str action e.1.2) EXECUTORS && eq_str action "auto_fix".

Definition has_invariant (kind_class : pyval) : bool :=
  match kind_class with PStr k => assoc_mem k INVARIANTS | _ => false end.

(** [setdefault] of the executor's name and the uniform resolution signal. *)
Definition loop_outcome (fn_name : string) (outcome : dict) : dict :=
  assoc_set "healed" (PBool (truthy (default PNone (assoc "converged" outcome))))
    (setdefault "executor" (PStr fn_name) outcome).

(** The outcome of the executor of a decision, under the loop or in one shot. *)
Definition run_executor (fn_name : string) (beacon : pyval) (kind_class action : pyval) (receipt : dict) (w : W) :
    res (pyval * W) :=
  if class_auto_fix kind_class action && has_invariant kind_class then
    r ← remediate clock INVARIANTS opener beacon receipt (fun w => (executor fn_name beacon w).2) w;
    match r : option (dict * W) with
    | Some (outcome, w) => Ok (PDict (loop_outcome fn_name outcome), w)
    | None => Raise (RuntimeError "unreachable: the loop returns")
    end
  else
    match executor fn_name beacon w with
    | (inl outcome, w) => Ok (outcome, w)
    | (inr err, w) => Ok (PDict [("executor", PStr fn_name); ("healed", PBool false); ("proposed", PBool false);
                                 ("error", PStr err)], w)
    end.

Definition is_resolved (outcome : pyval) : res bool :=
  healed ← py_get outcome "healed" PNone;
  proposed ← py_get outcome "proposed" PNone;
  quarantined ← py_get outcome "quarantined" PNone;
  Ok (truthy healed || truthy proposed || truthy quarantined).

Definition _execute (beacon : pyval) (receipt : dict) (w : W) : res (dict * W) :=
  let action := default PNone (assoc "action" receipt) in
  kind_class ← py_get beacon "kind_class" PNone;
  fn ← find_executor kind_class action;
  match fn : option string with
  | None => Ok (receipt, w)
  | Some fn_name =>
    ow ← run_executor fn_name beacon kind_class action receipt w;
    let (outcome, w) := (ow : pyval * W) in
    let receipt := assoc_set "execution" outcome receipt in
    resolved ← is_resolved outcome;
    let receipt :=
      if (resolved : bool) then receipt
      else
        assoc_set "reason" (PStr (py_str (default (PStr "") (assoc "reason" receipt)) +:+
                                  " | executor '" +:+ fn_name +:+ "' did not resolve"))
          (assoc_set "action" (PStr "escalate_human") receipt) in
    level ← epistemic_level_for receipt;
    Ok (assoc_set "epistemic_level" (PStr level) receipt, w)
  end.

(** ** One run *)

(** [groups.setdefault(key, []).append(x)]. *)
Definition add_to_group (groups : list (string * list pyval)) (key : string) (b : pyval) : list (string * list pyval) :=
  assoc_set key (default [] (assoc key groups) ++ [b])%list groups.

Definition subject_of (b : pyval) : res string :=
  system ← py_get b "system" (PStr "unknown");
  Ok (py_str system).

Definition group_by_subject (survivors : list pyval) : res (list (string * list pyval)) :=
  res_fold (fun groups b => key ← subject_of b; Ok (add_to_group groups key b)) [] survivors.

(** The suppression filter on the drained beacons; [now] is the time of the run. *)
Fixpoint survivors_of (cooldown now : spec_float) (beacons : list pyval) (file : option pyval) :
    res (list pyval * option pyval) :=
  match beacons with
  | [] => Ok ([], file)
  | b :: beacons =>
    fp ← fingerprint b;
    r ← should_process fp cooldown now file;
    let (go, file) := (r : bool * option pyval) in
    rest ← survivors_of cooldown now beacons file;
    let (bs, file) := (rest : list pyval * option pyval) in
    Ok (if go then b :: bs else bs, file)
  end.

Section run.
Variable policy : ResponsePolicy.
Variable now : string.
(** The draws of the receipt of a subject. *)
Variable dr : string -> draws.

Definition respond (execute : bool) (acc : list dict * W) (g : string * list pyval) : res (list dict * W) :=
  let (out, w) := acc in
  let (subject, group) := g in
  receipt ← decide_composed (dr subject) now policy group;
  rw ← (if execute then primary ← primary_of group; _execute primary receipt w else Ok (receipt, w));
  let (receipt, w) := (rw : dict * W) in
  Ok ((out ++ [receipt])%list, w).

(** The suppressor is optional: [None] processes every beacon. *)
Definition run_once (execute : bool) (suppressor : option (spec_float * option pyval)) (beacons : list pyval) (w : W) :
    res (list dict * W * option pyval) :=
  sf ← (match suppressor with
        | Some (time, file) => survivors_of (suppression_cooldown_seconds policy) time beacons file
        | None => Ok (beacons, None)
        end);
  let (survivors, file) := (sf : list pyval * option pyval) in
  groups ← group_by_subject survivors;
  rw ← res_fold (respond execute) ([], w) groups;
  let (out, w) := (rw : list dict * W) in
  Ok (out, w, file).
End run.
End execute.

(** ** What a decision rests on *)

Lemma compute_iri_not_nan b i : compute_iri b = Ok i -> is_nan i = false.
Proof.
  unfold compute_iri. intros Hi. repeat (apply bind_Ok_inv in Hi as (? & ? & Hi); cbn beta in Hi).
  injection Hi as <-. apply max_zero_not_nan.
Qed.

Lemma sorted_set_nil l : sorted_set l = [] <-> l = [].
Proof.
  unfold sorted_set. split; [|by intros ->]. intros Hs. destruct l as [|x l]; [done|].
  assert (Hin : x ∈ py_sort String.ltb (remove_dups (x :: l)))
    by (apply elem_of_py_sort, elem_of_remove_dups; by left).
  rewrite Hs in Hin. by apply not_elem_of_nil in Hin.
Qed.

Lemma concat_nil {A} (ls : list (list A)) : concat ls = [] <-> Forall (fun l => l = []) ls.
Proof.
  induction ls as [|l ls IH]; simpl; [by split|]. rewrite Forall_cons, <- IH. split.
  - by intros [-> ->]%app_eq_nil.
  - by intros [-> ->].
Qed.

(** The risk of a subject passes the threshold exactly when one signal's does. *)
Definition max_iri (iris : list spec_float) : spec_float :=
  match iris with [] => F64.zero | i :: rest => foldl F64.max i rest end.

Lemma max_iri_below t iris :
  is_nan t = false -> Forall (fun f => is_nan f = false) iris ->
  F64.leb t (max_iri iris) = match iris with [] => F64.leb t F64.zero | _ => existsb (F64.leb t) iris end.
Proof.
  intros Ht Hn. destruct iris as [|i rest]; [done|]. inversion Hn; subst. simpl. by apply leb_foldl_max.
Qed.

Lemma iris_not_nan beacons iris : res_map compute_iri beacons = Ok iris -> Forall (fun f => is_nan f = false) iris.
Proof.
  intros Hm. apply res_map_Ok_Forall2 in Hm. induction Hm as [|b i bs is' Hb _ IH]; constructor; [|done].
  by eapply compute_iri_not_nan.
Qed.

Lemma valid_iri_block policy : validate_policy policy = Ok tt -> is_nan (iri_block policy) = false.
Proof.
  intros Hv. destruct (validate_sound policy Hv) as (_ & _ & _ & Hi & _). by destruct (iri_block policy).
Qed.

(** A signal that neither gate stops. *)
Definition cleared (policy : ResponsePolicy) (b : pyval) : Prop :=
  boundary_breaches b (boundary_axes policy) = Ok [] /\
  exists i, compute_iri b = Ok i /\ F64.leb (iri_block policy) i = false.

(** A signal whose class may carry a verdict of rank [n]. *)
Definition allows (policy : ResponsePolicy) (n : nat) (b : pyval) : Prop :=
  exists kind law m, kind_of b = Ok kind /\ law_for policy kind = Ok law /\ rank law = Some m /\ (n <= m)%nat.

Section decisions.
Context `{FloatRepr}.
Variable policy : ResponsePolicy.
Hypothesis policy_valid : validate_policy policy = Ok tt.

(** The law of a subject is a verdict no signal's class falls short of. *)
Lemma effective_law_spec beacons law :
  effective_law beacons policy = Ok law ->
  exists lw k, law = V lw /\ rank lw = Some k /\ Forall (allows policy k) beacons.
Proof.
  unfold effective_law. intros Hlaw. apply bind_Ok_inv in Hlaw as (laws & Hlaws & Hlaw).
  apply res_map_Ok_Forall2 in Hlaws. destruct laws as [|l0 ls].
  - injection Hlaw as <-. inversion Hlaws; subst. destruct (validate_sound policy policy_valid) as (_ & Hd & _).
    apply one_of_spec in Hd as (s & -> & Hs). exists (PStr s).
    assert (exists k, rank (PStr s) = Some k) as [k Hk]; [|by exists k].
    unfold VERDICTS in Hs. repeat (apply elem_of_cons in Hs as [->|Hs]; [vm_compute; eauto|]).
    by apply not_elem_of_nil in Hs.
  - apply meet_spec in Hlaw as (lw & k & -> & _ & Hk & Hall). exists lw, k. split_and!; [done|done|].
    clear Hk. revert Hall. induction Hlaws as [|b l bs ls' Hb _ IH]; intros Hall; constructor.
    + inversion Hall as [|? ? (m & Em & Lm) _]; subst. apply bind_Ok_inv in Hb as (kd & Hkd & Hlf).
      by exists kd, l, m.
    + apply IH. by inversion Hall.
Qed.

(** Both gates are gates on every signal. *)
Lemma gates_spec beacons br iris :
  res_map (fun b => boundary_breaches b (boundary_axes policy)) beacons = Ok br -> sorted_set (concat br) = [] ->
  res_map compute_iri beacons = Ok iris -> F64.leb (iri_block policy) (max_iri iris) = false ->
  Forall (cleared policy) beacons.
Proof.
  intros Hbr Eb Hiris Ei. apply sorted_set_nil, concat_nil in Eb. apply res_map_Ok_Forall2 in Hbr.
  pose proof (iris_not_nan _ _ Hiris) as Hnn. rewrite max_iri_below in Ei by (done || by apply valid_iri_block).
  apply res_map_Ok_Forall2 in Hiris. apply Forall_forall. intros b Hb.
  apply list_elem_of_lookup in Hb as [j Hj]. split.
  - destruct (Forall2_lookup_l _ _ _ _ _ Hbr Hj) as (l & Hl & Hbb). rewrite Forall_forall in Eb.
    rewrite (Eb l) in Hbb; [done|]. by eapply list_elem_of_lookup_2.
  - destruct (Forall2_lookup_l _ _ _ _ _ Hiris Hj) as (i & Hi & Hci). exists i. split; [done|].
    apply list_elem_of_lookup_2 in Hi. destruct (F64.leb (iri_block policy) i) eqn:El; [|done].
    destruct iris as [|i0 iris]; [by apply not_elem_of_nil in Hi|].
    assert (existsb (F64.leb (iri_block policy)) (i0 :: iris) = true); [|congruence].
    apply existsb_exists. exists i. split; [by apply list_elem_of_In|done].
Qed.

Lemma judge_escalates_or_meets beacons v a reason :
  judge policy beacons = Ok (v, a, reason) ->
  (v = BOTTOM /\ a = PStr "escalate_human") \/
  exists x n ev m, v = V x /\ action_for policy x = Ok a /\ rank x = Some n /\
    compose_evidence beacons = Ok (Some ev) /\ rank (PStr ev) = Some m /\ (n <= m)%nat /\
    Forall (fun b => cleared policy b /\ allows policy n b) beacons.
Proof.
  unfold judge. intros Hj. apply bind_Ok_inv in Hj as (br & Hbr & Hj).
  destruct (sorted_set (concat br)) as [|ax axs] eqn:Eb; [|injection Hj as <- <- _; auto].
  apply bind_Ok_inv in Hj as (iris & Hiris & Hj). fold (max_iri iris) in Hj.
  destruct (F64.leb (iri_block policy) (max_iri iris)) eqn:Ei; [injection Hj as <- <- _; auto|].
  apply bind_Ok_inv in Hj as ([ev|] & Hev & Hj); [|injection Hj as <- <- _; auto]. right.
  apply bind_Ok_inv in Hj as (law & Hlaw & Hj). apply bind_Ok_inv in Hj as (v' & Hm & Hj).
  apply bind_Ok_inv in Hj as (a' & Ha & Hj). apply bind_Ok_inv in Hj as (sfx & _ & Hj). injection Hj as -> -> _.
  destruct (effective_law_spec beacons law Hlaw) as (lw & k & -> & Hk & Hall).
  apply (meet_spec [lw; PStr ev]) in Hm as (x & n & -> & _ & Hn & Hmin).
  inversion Hmin as [|? ? (m1 & E1 & L1) Hmin']; subst. inversion Hmin' as [|? ? (m2 & E2 & L2) _]; subst.
  assert (m1 = k) as -> by congruence. exists x, n, ev, m2. split_and!; try done.
  apply Forall_and. split; [by eapply gates_spec|]. eapply Forall_impl; [exact Hall|].
  intros b (kd & l & m & ? & ? & ? & ?). exists kd, l, m. split_and!; try done. lia.
Qed.

(** The receipt carries the verdict and the action. *)
Lemma decide_composed_judged dr now beacons r :
  decide_composed dr now policy beacons = Ok r ->
  exists v a reason, judge policy beacons = Ok (v, a, reason) /\
    assoc "verdict" r = Some (verdict_value v) /\ assoc "action" r = Some a.
Proof.
  unfold decide_composed. intros Hd. apply bind_Ok_inv in Hd as (pr & _ & Hd).
  apply bind_Ok_inv in Hd as ([[v a] reason] & Hj & Hd). exists v, a, reason. split; [done|].
  unfold _compose_receipt in Hd. apply bind_Ok_inv in Hd as (rc & Hrc & Hd).
  apply bind_Ok_inv in Hd as (cm & _ & Hd). apply bind_Ok_inv in Hd as (tid & _ & Hd).
  apply bind_Ok_inv in Hd as (lv & _ & Hd). injection Hd as <-.
  unfold _receipt in Hrc. apply bind_Ok_inv in Hrc as (sy & _ & Hrc). apply bind_Ok_inv in Hrc as (er & _ & Hrc).
  apply bind_Ok_inv in Hrc as (kd & _ & Hrc). apply bind_Ok_inv in Hrc as (dt & _ & Hrc). injection Hrc as <-.
  split; (rewrite assoc_set_ne by discriminate; apply stamp_keeps; [reflexivity|discriminate]).
Qed.

(** C8: the responder is fail-closed.  Under a valid policy, a decision is a
    human escalation with no verdict, or its action is the policy's action for a
    verdict that neither the composed evidence nor the law of any signal's class
    falls short of, and then no signal touches a boundary axis and none reaches
    the identity-risk threshold. *)
Theorem decision_fail_closed dr now beacons r :
  decide_composed dr now policy beacons = Ok r ->
  (assoc "verdict" r = Some (PStr "BOTTOM") /\ assoc "action" r = Some (PStr "escalate_human")) \/
  exists x n ev m a, assoc "verdict" r = Some x /\ assoc "action" r = Some a /\
    action_for policy x = Ok a /\ rank x = Some n /\
    compose_evidence beacons = Ok (Some ev) /\ rank (PStr ev) = Some m /\ (n <= m)%nat /\
    Forall (fun b => cleared policy b /\ allows policy n b) beacons.
Proof.
  intros Hd. destruct (decide_composed_judged dr now beacons r Hd) as (v & a & reason & Hj & Hv & Ha).
  destruct (judge_escalates_or_meets beacons v a reason Hj) as [[-> ->]|(x & n & ev & m & -> & Hrest)]; [by left|].
  right. exists x, n, ev, m, a. split; [done|]. split; [done|exact Hrest].
Qed.

Lemma existsb_perm {A} (f : A -> bool) l l' : l ≡ₚ l' -> existsb f l = existsb f l'.
Proof.
  intros Hp. apply Bool.eq_iff_eq_true. rewrite !existsb_exists.
  split; intros (x & Hx & Hf); exists x; (split; [|done]);
    apply list_elem_of_In; apply list_elem_of_In in Hx; [by rewrite <- Hp|by rewrite Hp].
Qed.

Lemma zsum_perm l l' : l ≡ₚ l' -> zsum l = zsum l'.
Proof. induction 1; simpl; lia. Qed.

Lemma all_texts_perm l l' ss : l ≡ₚ l' -> all_texts l = Ok ss -> exists ss', all_texts l' = Ok ss'.
Proof.
  intros Hp ->%all_texts_map. symmetry in Hp. apply Permutation_map_inv in Hp as (ss' & -> & _).
  exists ss'. by apply all_texts_map.
Qed.

Lemma effective_law_perm l l' law : l ≡ₚ l' -> effective_law l policy = Ok law -> effective_law l' policy = Ok law.
Proof.
  intros Hp. unfold effective_law. intros Hl. apply bind_Ok_inv in Hl as (laws & Hlaws & Hl).
  destruct (res_map_perm _ _ _ _ Hp Hlaws) as (laws' & -> & Hp'). cbn [mbind res_bind].
  destruct laws as [|x laws], laws' as [|x' laws']; [done|by apply Permutation_nil in Hp'|
    by symmetry in Hp'; apply Permutation_nil in Hp'|]. by eapply meet_perm.
Qed.

(** The order in which signals arrive does not matter.  Deciding the same
    signals about a subject in another order gives the same verdict and the same
    action. *)
Theorem decision_order_free beacons beacons' v a reason :
  judge policy beacons = Ok (v, a, reason) -> beacons ≡ₚ beacons' ->
  exists reason', judge policy beacons' = Ok (v, a, reason').
Proof.
  unfold judge. intros Hj Hp. apply bind_Ok_inv in Hj as (br & Hbr & Hj).
  destruct (res_map_perm _ _ _ _ Hp Hbr) as (br' & -> & Hpb). cbn [mbind res_bind].
  assert (Hnil : sorted_set (concat br) = [] <-> sorted_set (concat br') = [])
    by (by rewrite !sorted_set_nil, !concat_nil, Hpb).
  destruct (sorted_set (concat br)) as [|ax axs]; destruct (sorted_set (concat br')) as [|ax' axs'];
    [|by destruct Hnil as [Hn _]; specialize (Hn eq_refl)|by destruct Hnil as [_ Hn]; specialize (Hn eq_refl)|
     injection Hj as <- <- _; eauto].
  apply bind_Ok_inv in Hj as (iris & Hiris & Hj). destruct (res_map_perm _ _ _ _ Hp Hiris) as (iris' & Hiris' & Hpi).
  rewrite Hiris'. cbn [mbind res_bind]. fold (max_iri iris) in Hj. fold (max_iri iris').
  assert (Hgate : F64.leb (iri_block policy) (max_iri iris) = F64.leb (iri_block policy) (max_iri iris')).
  { rewrite !max_iri_below by (try (by apply valid_iri_block); by eapply iris_not_nan).
    destruct iris as [|i is0], iris' as [|i' is']; [done|by apply Permutation_nil in Hpi|
      by symmetry in Hpi; apply Permutation_nil in Hpi|by apply existsb_perm]. }
  rewrite <- Hgate. destruct (F64.leb (iri_block policy) (max_iri iris)); [injection Hj as <- <- _; eauto|].
  apply bind_Ok_inv in Hj as (ev & Hev & Hj). unfold compose_evidence in Hev |- *.
  apply bind_Ok_inv in Hev as (ws & Hws & Hev). destruct (res_map_perm _ _ _ _ Hp Hws) as (ws' & -> & Hpw).
  cbn [mbind res_bind]. rewrite <- (zsum_perm _ _ Hpw). injection Hev as ->.
  destruct ev as [ev|]; [|injection Hj as <- <- _; eauto].
  apply bind_Ok_inv in Hj as (law & Hlaw & Hj). rewrite (effective_law_perm _ _ _ Hp Hlaw). cbn [mbind res_bind].
  apply bind_Ok_inv in Hj as (v' & -> & Hj). cbn [mbind res_bind].
  apply bind_Ok_inv in Hj as (a' & -> & Hj). cbn [mbind res_bind].
  apply bind_Ok_inv in Hj as (sfx & Hsfx & Hj). injection Hj as <- <- _. rewrite <- (Permutation_length Hp).
  destruct (Nat.ltb 1 (length beacons)); [|eauto].
  apply bind_Ok_inv in Hsfx as (kinds & Hkinds & Hsfx). destruct (res_map_perm _ _ _ _ Hp Hkinds) as (kinds' & -> & Hpk).
  cbn [mbind res_bind]. apply bind_Ok_inv in Hsfx as (ss & Hss & _).
  destruct (all_texts_perm _ _ _ Hpk Hss) as [ss' ->]. cbn [mbind res_bind]. eauto.
Qed.
End decisions.

(** ** Execution and grouping *)

Section execution.
Context `{FloatRepr} {W : Type}.
Variable clock : W -> spec_float * W.
Variable INVARIANTS : list (string * (W -> res spec_float * W)).
Variable opener : pyval -> W -> (string + string) * W.
Variable executor : string -> pyval -> W -> (pyval + string) * W.

Abbreviation exec := (_execute clock INVARIANTS opener executor).

Lemma loop_outcome_resolved fn (r : LoopResult) :
  is_resolved (PDict (loop_outcome fn (to_json r ++ [("mode", PStr "auto_fix")]))) = Ok (converged r).
Proof.
  assert (Hh : forall d, assoc "proposed" d = None -> assoc "quarantined" d = None ->
    is_resolved (PDict (assoc_set "healed" (PBool (converged r)) d)) = Ok (converged r)).
  { intros d Hp Hq. unfold is_resolved. cbn [py_get mbind res_bind]. rewrite assoc_set_eq, !assoc_set_ne by discriminate.
    rewrite Hp, Hq. simpl. by rewrite !orb_false_r. }
  unfold loop_outcome.
  replace (truthy (default PNone (assoc "converged" (to_json r ++ [("mode", PStr "auto_fix")])%list)))
    with (converged r) by reflexivity.
  apply Hh; by rewrite assoc_setdefault_ne.
Qed.

(** No decision dead-ends.  After execution a receipt either had no
    executor and is unchanged, or it records the outcome and keeps its action
    only if the outcome is a resolution, and is a human escalation otherwise;
    where the class has an invariant, the repair runs under the control loop and
    resolves exactly when the loop converged. *)
Theorem execution_resolves_or_escalates beacon receipt (w : W) r w' kind :
  py_get beacon "kind_class" PNone = Ok kind -> exec beacon receipt w = Ok (r, w') ->
  let action := default PNone (assoc "action" receipt) in
  (find_executor kind action = Ok None /\ r = receipt /\ w' = w) \/
  exists fn outcome resolved, find_executor kind action = Ok (Some fn) /\ assoc "execution" r = Some outcome /\
    is_resolved outcome = Ok resolved /\
    assoc "action" r = (if resolved then assoc "action" receipt else Some (PStr "escalate_human")) /\
    (class_auto_fix kind action && has_invariant INVARIANTS kind = true ->
     exists k result, kind = PStr k /\
       heal INVARIANTS k (fun w => (executor fn beacon w).2) clock default_loop w = Some (result, w') /\
       resolved = converged result).
Proof.
  intros Hk He action. unfold _execute in He. rewrite Hk in He. fold action in He. cbn [mbind res_bind] in He.
  apply bind_Ok_inv in He as ([fn|] & Hf & He); [right|left; by injection He as <- <-].
  apply bind_Ok_inv in He as ([outcome w1] & Ho & He). apply bind_Ok_inv in He as (resolved & Hr & He).
  apply bind_Ok_inv in He as (lv & _ & He). injection He as <- <-. exists fn, outcome, resolved.
  split; [done|]. split_and!; [| done | |].
  - rewrite assoc_set_ne by discriminate. destruct resolved; [by rewrite assoc_set_eq|].
    by rewrite !assoc_set_ne, assoc_set_eq by discriminate.
  - rewrite assoc_set_ne by discriminate. destruct resolved; [by rewrite assoc_set_ne|].
    by rewrite assoc_set_ne, assoc_set_eq by discriminate.
  - intros Hc. unfold run_executor in Ho. rewrite Hc in Ho. apply andb_true_iff in Hc as [Hc Hi].
    apply andb_true_iff in Hc as [_ Ha]. destruct kind as [| | | |k| |]; try discriminate. exists k.
    apply bind_Ok_inv in Ho as (rm & Hrm & Ho). unfold remediate in Hrm. fold action in Hrm. rewrite Ha in Hrm.
    destruct beacon as [| | | | | |bd]; try discriminate. cbn [py_get mbind res_bind] in Hk, Hrm.
    assert (Hkd : default (PStr "unknown") (assoc "kind_class" bd) = PStr k)
      by (destruct (assoc "kind_class" bd); simpl in *; congruence).
    rewrite Hkd in Hrm. cbn [hashable negb py_str] in Hrm. injection Hrm as <-.
    destruct (heal _ _ _ _ _ _) as [[result w2]|] eqn:Eh; [|done]. injection Ho as <- <-.
    exists result. split_and!; [done|done|].
    pose proof (eq_trans (eq_sym Hr) (loop_outcome_resolved fn result)) as E. by injection E.
Qed.

(** Grouping keeps the signals of each subject together, in their order. *)
Definition about (key : string) (b : pyval) : bool :=
  match subject_of b with Ok s => String.eqb s key | Raise _ => false end.

Definition grouped (seen : list pyval) (groups : list (string * list pyval)) : Prop :=
  NoDup groups.*1 /\
  forall key, default [] (assoc key groups) = List.filter (about key) seen /\ assoc key groups <> Some [].

Lemma add_to_group_spec seen groups key b :
  subject_of b = Ok key -> grouped seen groups -> grouped (seen ++ [b]) (add_to_group groups key b).
Proof.
  intros Hb [Hnd Hg]. unfold add_to_group. split; [by apply NoDup_assoc_set|]. intros k.
  destruct (Hg k) as [Hk Hne]. rewrite List.filter_app. simpl. unfold about at 2. rewrite Hb.
  destruct (String.eqb_spec key k) as [->|Hn].
  - rewrite assoc_set_eq. simpl. rewrite Hk. split; [done|]. by destruct (List.filter _ seen).
  - rewrite assoc_set_ne by congruence. by rewrite app_nil_r.
Qed.

Lemma group_by_subject_spec survivors groups :
  group_by_subject survivors = Ok groups -> grouped survivors groups.
Proof.
  unfold group_by_subject.
  assert (Hg : forall l seen gs gs', grouped seen gs ->
    res_fold (fun groups b => key ← subject_of b; Ok (add_to_group groups key b)) gs l = Ok gs' ->
    grouped (seen ++ l) gs').
  { induction l as [|b l IH]; intros seen gs gs' Hs; cbn [res_fold].
    - intros [= <-]. by rewrite app_nil_r.
    - intros Hf. apply bind_Ok_inv in Hf as (gs1 & H1 & H2). apply bind_Ok_inv in H1 as (key & Hk & H1).
      injection H1 as <-. rewrite cons_middle, app_assoc. eapply IH; [|exact H2]. by apply add_to_group_spec. }
  intros Hf. apply (Hg survivors [] []); [|done]. split; [constructor|]. intros key. done.
Qed.

Lemma respond_all policy now dr execute groups out (w : W) out' w' :
  res_fold (respond clock INVARIANTS opener executor policy now dr execute) (out, w) groups = Ok (out', w') ->
  exists rs, out' = (out ++ rs)%list /\
    Forall2 (fun g r => exists r0, decide_composed (dr g.1) now policy g.2 = Ok r0 /\ (execute = false -> r = r0))
      groups rs /\ (execute = false -> w' = w).
Proof.
  revert out w; induction groups as [|[sb g] groups IH]; intros out w Hf; cbn [res_fold] in Hf.
  { injection Hf as <- <-. exists []. rewrite app_nil_r. by split_and!. }
  apply bind_Ok_inv in Hf as ([out1 w1] & Hr & Hf). destruct (IH _ _ Hf) as (rs & -> & Hrs & Hw).
  cbn [respond] in Hr. apply bind_Ok_inv in Hr as (r0 & Hd & Hr). apply bind_Ok_inv in Hr as ([r w2] & He & Hr).
  injection Hr as <- <-. exists (r :: rs). rewrite <- app_assoc. split_and!; [done| |].
  - constructor; [|done]. exists r0. split; [done|]. intros ->. by injection He as <- _.
  - intros ->. rewrite Hw by done. by injection He as _ <-.
Qed.

(** One decision per subject, over all its signals.  A run without
    suppression partitions the beacons by subject, each group in arrival order
    and none empty, and returns one receipt per group, the decision over the
    whole group; without execution the receipts are the decisions and the world
    is untouched. *)
Theorem one_decision_per_subject policy now dr execute beacons (w : W) out w' file :
  run_once clock INVARIANTS opener executor policy now dr execute None beacons w = Ok (out, w', file) ->
  exists groups, grouped beacons groups /\
    Forall2 (fun g r => exists r0, decide_composed (dr g.1) now policy g.2 = Ok r0 /\ (execute = false -> r = r0))
      groups out /\ (execute = false -> w' = w).
Proof.
  unfold run_once. cbn [mbind res_bind]. intros Hr. apply bind_Ok_inv in Hr as (groups & Hg & Hr).
  apply bind_Ok_inv in Hr as ([o w1] & Hf & Hr). injection Hr as <- <- <-.
  destruct (respond_all _ _ _ _ _ _ _ _ _ Hf) as (rs & -> & Hrs & Hw).
  exists groups. split; [by apply group_by_subject_spec|]. by split.
Qed.
End execution.

(** ** Witnesses *)

Local Existing Instance demo_float_repr.

Definition demo_draws : draws := mkDraws "01J" "uuid" "span" "2026-01-01T00:00:00Z".

Definition drift_beacon : pyval :=
  PDict [("kind_class", PStr "mirror_drift"); ("system", PStr "mirror:a");
         ("evidence", PDict [("detector", PStr "mirror"); ("reproducible", PBool true)])].

Definition breach_beacon : pyval :=
  PDict [("kind_class", PStr "policy_violation"); ("system", PStr "mirror:a");
         ("evidence", PDict [("signal", PStr "s")])].

Lemma default_policy_valid : validate_policy DEFAULT_POLICY = Ok tt.
Proof. vm_compute. reflexivity. Qed.

(** A sealed signal next to a policy breach is quarantined, not repaired. *)
Lemma decision_fail_closed_witness :
  exists r, decide_composed demo_draws "now" DEFAULT_POLICY [drift_beacon; breach_beacon] = Ok r /\
    assoc "action" r = Some (PStr "quarantine") /\
    ((assoc "verdict" r = Some (PStr "BOTTOM") /\ assoc "action" r = Some (PStr "escalate_human")) \/
     exists x n ev m a, assoc "verdict" r = Some x /\ assoc "action" r = Some a /\
       action_for DEFAULT_POLICY x = Ok a /\ rank x = Some n /\
       compose_evidence [drift_beacon; breach_beacon] = Ok (Some ev) /\ rank (PStr ev) = Some m /\ (n <= m)%nat /\
       Forall (fun b => cleared DEFAULT_POLICY b /\ allows DEFAULT_POLICY n b) [drift_beacon; breach_beacon]).
Proof.
  destruct (decide_composed demo_draws "now" DEFAULT_POLICY [drift_beacon; breach_beacon]) as [r|x] eqn:E;
    [|vm_compute in E; discriminate].
  exists r. split; [done|]. split; [vm_compute in E; injection E as <-; reflexivity|].
  apply (decision_fail_closed DEFAULT_POLICY default_policy_valid demo_draws "now" [drift_beacon; breach_beacon] r E).
Defined.

Lemma decision_order_free_witness :
  exists reason', judge DEFAULT_POLICY [breach_beacon; drift_beacon] = Ok (V (PStr "quarantine"), PStr "quarantine", reason').
Proof.
  destruct (judge DEFAULT_POLICY [drift_beacon; breach_beacon]) as [[[v a] reason]|x] eqn:E;
    [|vm_compute in E; discriminate].
  assert (v = V (PStr "quarantine") /\ a = PStr "quarantine") as [-> ->]
    by (vm_compute in E; injection E as <- <- _; auto).
  apply (decision_order_free DEFAULT_POLICY default_policy_valid [drift_beacon; breach_beacon] _ _ _ reason E).
  apply Permutation_swap.
Defined.

(** A world that counts the repairs still needed; the executor makes one. *)
Definition demo_invariants : list (string * (nat -> res spec_float * nat)) :=
  [("mirror_drift", fun w => (Ok (F64.of_Z (Z.of_nat w)), w))].
Definition demo_executor (name : string) (b : pyval) (w : nat) : (pyval + string) * nat := (inl (PDict []), Nat.pred w).
Definition demo_clock (w : nat) : spec_float * nat := (F64.zero, w).
Definition demo_opener (p : pyval) (w : nat) : (string + string) * nat := (inr "no credentials", w).

Lemma execution_resolves_or_escalates_witness :
  exists r w', _execute demo_clock demo_invariants demo_opener demo_executor drift_beacon
      [("action", PStr "auto_fix"); ("reason", PStr "")] 2%nat = Ok (r, w') /\
    assoc "action" r = Some (PStr "auto_fix") /\
    exists fn outcome resolved, find_executor (PStr "mirror_drift") (PStr "auto_fix") = Ok (Some fn) /\
      assoc "execution" r = Some outcome /\ is_resolved outcome = Ok resolved /\ resolved = true.
Proof.
  destruct (_execute demo_clock demo_invariants demo_opener demo_executor drift_beacon
      [("action", PStr "auto_fix"); ("reason", PStr "")] 2%nat) as [[r w']|x] eqn:E; [|vm_compute in E; discriminate].
  assert (Ha : assoc "action" r = Some (PStr "auto_fix")) by (vm_compute in E; injection E as <- _; reflexivity).
  exists r, w'. split; [done|]. split; [done|].
  destruct (execution_resolves_or_escalates demo_clock demo_invariants demo_opener demo_executor drift_beacon
      [("action", PStr "auto_fix"); ("reason", PStr "")] 2%nat r w' (PStr "mirror_drift") eq_refl E)
    as [[Hn _]|(fn & outcome & resolved & Hf & Ho & Hr & Hact & _)]; [vm_compute in Hn; discriminate|].
  exists fn, outcome, resolved. split; [exact Hf|]. split; [exact Ho|]. split; [exact Hr|].
  clear E. destruct resolved; [reflexivity|]. rewrite Ha in Hact. discriminate.
Defined.

Lemma one_decision_per_subject_witness :
  exists out w' file groups,
    run_once demo_clock demo_invariants demo_opener demo_executor DEFAULT_POLICY "now" (fun _ => demo_draws) false None
      [drift_beacon; breach_beacon] 0%nat = Ok (out, w', file) /\
    grouped [drift_beacon; breach_beacon] groups /\ length out = 1%nat.
Proof.
  destruct (run_once demo_clock demo_invariants demo_opener demo_executor DEFAULT_POLICY "now" (fun _ => demo_draws)
    false None [drift_beacon; breach_beacon] 0%nat) as [[[out w'] file]|x] eqn:E; [|vm_compute in E; discriminate].
  destruct (one_decision_per_subject demo_clock demo_invariants demo_opener demo_executor DEFAULT_POLICY "now"
    (fun _ => demo_draws) false [drift_beacon; breach_beacon] 0%nat out w' file E) as (groups & Hg & _).
  exists out, w', file, groups. split; [done|]. split; [done|]. vm_compute in E. by injection E as <- _ _.
Defined.

(** A beacon whose identity-risk readings are infinite on both sides has a risk
    that is not a number, which [max] turns into 0: the gate lets it pass and the
    repair is decided. *)
Definition nan_risk_beacon : pyval :=
  PDict [("kind_class", PStr "mirror_drift"); ("system", PStr "mirror:a");
         ("evidence", PDict [("detector", PStr "mirror"); ("reproducible", PBool true)]);
         ("entropy_uniqueness", PStr "inf"); ("consent_credits", PStr "inf")].

Example nan_risk_passes :
  compute_iri nan_risk_beacon = Ok F64.zero /\
  exists reason, judge DEFAULT_POLICY [nan_risk_beacon] = Ok (V (PStr "sealed"), PStr "auto_fix", reason).
Proof. split; [vm_compute; reflexivity|]. eexists. vm_compute. reflexivity. Qed.
