(* ===== verification/SessionQuarantine.v ===== *)
(** * The session-quarantine protocol

    Models [automation/session_quarantine.py].  Session and event ids are
    strings; an event that carries an id of another type is outside the model
    and raises.  A time is a number of microseconds, so an age is compared with
    the time to live exactly.  The random ids are a stream the state counts its
    draws from.  An event is shared by its orphan entry and the session it is
    attached to, and is never changed. *)

From S2P Require Import Prelude PyVal Json PyText.
Local Open Scope string_scope.

Record SessionDAGNode := mkNode { n_events : list dict; created_at : Z }.

Record OrphanEntry := mkEntry {
  o_event_id : string;
  o_event : dict;
  received_at : Z;
  reconciled : bool;
  recovered_session_id : option string
}.

Record EvidenceRef := mkRef { ref_id : string; ref_event_id : string; ref_kind : string; ref_hint : string }.

Inductive status := Quarantined | Recovered.

Record OrphanEventReceipt := mkReceipt {
  receipt_id : string;
  r_event_id : string;
  r_status : status;
  quarantined_at : Z;
  r_ttl_seconds : Z;
  reconciliation_attempts : Z;
  evidence_refs : list EvidenceRef;
  r_recovered_session_id : option string
}.

Definition _RECONCILE_KEYS : list string := ["conversation_id"; "parent_id"; "workspace_id"; "task_id"].

Definition DEFAULT_TTL_SECONDS : Z := 300.

Record SessionQuarantineProtocol := mkProtocol {
  ttl_seconds : Z;
  _sessions : list (string * SessionDAGNode);
  _orphan_queue : list (string * OrphanEntry);
  _receipts : list OrphanEventReceipt;
  _reconcile_counts : list (string * Z);
  drawn : nat
}.

(** [__init__]. *)
Definition new_protocol (ttl_seconds : Z) : SessionQuarantineProtocol := mkProtocol ttl_seconds [] [] [] [] 0.

Definition set_sessions p s := mkProtocol (ttl_seconds p) s (_orphan_queue p) (_receipts p) (_reconcile_counts p) (drawn p).
Definition set_orphans p q := mkProtocol (ttl_seconds p) (_sessions p) q (_receipts p) (_reconcile_counts p) (drawn p).
Definition set_counts p c := mkProtocol (ttl_seconds p) (_sessions p) (_orphan_queue p) (_receipts p) c (drawn p).

Definition ref_to_dict (r : EvidenceRef) : dict :=
  [("ref_id", PStr (ref_id r)); ("event_id", PStr (ref_event_id r)); ("kind", PStr (ref_kind r));
   ("hint", PStr (ref_hint r))].

(** [isoformat] writes a time as the record holds it. *)
Definition to_dict (isoformat : Z -> string) (r : OrphanEventReceipt) : dict :=
  [("receipt_id", PStr (receipt_id r)); ("event_id", PStr (r_event_id r));
   ("status", PStr (match r_status r with Quarantined => "quarantined" | Recovered => "recovered" end));
   ("quarantined_at", PStr (isoformat (quarantined_at r))); ("ttl_seconds", PInt (r_ttl_seconds r));
   ("reconciliation_attempts", PInt (reconciliation_attempts r));
   ("evidence_refs", PList (map (fun e => PDict (ref_to_dict e)) (evidence_refs r)));
   ("recovered_session_id", match r_recovered_session_id r with Some s => PStr s | None => PNone end)].

Section protocol.
Context `{FloatRepr}.
(** [str(uuid.uuid4())], by the number of draws made before. *)
Variable uuid : nat -> string.

(** ** Sessions *)

Definition register_session (session_id : string) (now : Z) (p : SessionQuarantineProtocol) : SessionQuarantineProtocol :=
  if assoc_mem session_id (_sessions p) then p
  else set_sessions p (assoc_set session_id (mkNode [] now) (_sessions p)).

Definition get_session (p : SessionQuarantineProtocol) (session_id : string) : option SessionDAGNode :=
  assoc session_id (_sessions p).

Definition _attach_to_session (session_id : string) (event : dict) (p : SessionQuarantineProtocol) :
    res SessionQuarantineProtocol :=
  match assoc session_id (_sessions p) with
  | Some node => Ok (set_sessions p (assoc_set session_id (mkNode (n_events node ++ [event])%list (created_at node)) (_sessions p)))
  | None => Raise (KeyError session_id)
  end.

(** ** Events *)

Definition _enqueue_orphan (event_id : string) (event : dict) (now : Z) (p : SessionQuarantineProtocol) :
    SessionQuarantineProtocol :=
  set_orphans p (assoc_set event_id (mkEntry event_id event now false None) (_orphan_queue p)).

Inductive ingress := Attached | Orphaned.

(** The id of an event, a drawn one if it has none, and the event carrying an id. *)
Definition identify (event : dict) (p : SessionQuarantineProtocol) : res (string * dict * SessionQuarantineProtocol) :=
  let given := default PNone (assoc "event_id" event) in
  if truthy given then
    match given with
    | PStr id => Ok (id, event, p)
    | _ => Raise TypeError
    end
  else
    let id := uuid (drawn p) in
    let p := mkProtocol (ttl_seconds p) (_sessions p) (_orphan_queue p) (_receipts p) (_reconcile_counts p) (S (drawn p)) in
    Ok (id, if assoc_mem "event_id" event then event else assoc_set "event_id" (PStr id) event, p).

(** The known session an event names. *)
Definition named_session (event : dict) (p : SessionQuarantineProtocol) : res (option string) :=
  match default (PStr "") (assoc "session_id" event) with
  | PStr s => Ok (if negb (String.eqb s "") && assoc_mem s (_sessions p) then Some s else None)
  | v => if truthy v && negb (hashable v) then Raise TypeError else Ok None
  end.

Definition event_received (event : dict) (now : Z) (p : SessionQuarantineProtocol) :
    res (ingress * SessionQuarantineProtocol) :=
  ie ← identify event p;
  let '(event_id, event, p) := (ie : string * dict * SessionQuarantineProtocol) in
  session ← named_session event p;
  match session : option string with
  | Some session_id => p ← _attach_to_session session_id event p; Ok (Attached, p)
  | None => Ok (Orphaned, _enqueue_orphan event_id event now p)
  end.

(** ** Reconciliation *)

(** The first session with an event that shares the value of the key. *)
Fixpoint session_sharing (key : string) (value : pyval) (sessions : list (string * SessionDAGNode)) : option string :=
  match sessions with
  | [] => None
  | (id, node) :: sessions =>
    if existsb (fun e => py_eq (default PNone (assoc key e)) value) (n_events node) then Some id
    else session_sharing key value sessions
  end.

Fixpoint match_on (keys : list string) (event : dict) (sessions : list (string * SessionDAGNode)) : option string :=
  match keys with
  | [] => None
  | key :: keys =>
    let value := default PNone (assoc key event) in
    if truthy value then
      match session_sharing key value sessions with
      | Some id => Some id
      | None => match_on keys event sessions
      end
    else match_on keys event sessions
  end.

Definition _find_matching_session (event : dict) (p : SessionQuarantineProtocol) : option string :=
  match_on _RECONCILE_KEYS event (_sessions p).

(** The references, with the draws they make. *)
Fixpoint build_refs (keys : list string) (event_id : string) (event : dict) (n : nat) : list EvidenceRef * nat :=
  match keys with
  | [] => ([], n)
  | key :: keys =>
    let value := default PNone (assoc key event) in
    if truthy value then
      let (refs, m) := build_refs keys event_id event (S n) in
      (mkRef (uuid n) event_id key (key +:+ "=" +:+ py_str value) :: refs, m)
    else build_refs keys event_id event n
  end.

Definition _build_evidence_refs (e : OrphanEntry) (n : nat) : list EvidenceRef * nat :=
  build_refs _RECONCILE_KEYS (o_event_id e) (o_event e) n.

Definition _emit_receipt (e : OrphanEntry) (s : status) (now : Z) (p : SessionQuarantineProtocol) :
    SessionQuarantineProtocol :=
  let (refs, n) := _build_evidence_refs e (drawn p) in
  let receipt := mkReceipt (uuid n) (o_event_id e) s now (ttl_seconds p)
                   (default 0%Z (assoc (o_event_id e) (_reconcile_counts p))) refs (recovered_session_id e) in
  mkProtocol (ttl_seconds p) (_sessions p) (_orphan_queue p) (_receipts p ++ [receipt])%list (_reconcile_counts p) (S n).

(** The entry under its key, marked as dealt with. *)
Definition settle (key : string) (e : OrphanEntry) (session : option string) (p : SessionQuarantineProtocol) :
    OrphanEntry * SessionQuarantineProtocol :=
  let e := mkEntry (o_event_id e) (o_event e) (received_at e) true session in
  (e, set_orphans p (assoc_set key e (_orphan_queue p))).

Definition _quarantine (now : Z) (p : SessionQuarantineProtocol) (ke : string * OrphanEntry) : SessionQuarantineProtocol :=
  let (e, p) := settle ke.1 ke.2 (recovered_session_id ke.2) p in
  _emit_receipt e Quarantined now p.

Definition expired (now ttl : Z) (e : OrphanEntry) : bool := (ttl * 1000000 <=? now - received_at e)%Z.

(** One entry of the loop: the entries to quarantine are collected. *)
Definition reconcile_entry (now : Z) (st : SessionQuarantineProtocol * list (string * OrphanEntry))
    (ke : string * OrphanEntry) : res (SessionQuarantineProtocol * list (string * OrphanEntry)) :=
  let (p, to_quarantine) := st in
  let (key, e) := ke in
  if reconciled e then Ok st
  else
    let count := (default 0 (assoc (o_event_id e) (_reconcile_counts p)) + 1)%Z in
    let p := set_counts p (assoc_set (o_event_id e) count (_reconcile_counts p)) in
    match _find_matching_session (o_event e) p with
    | Some (String _ _ as session) =>
      p ← _attach_to_session session (o_event e) p;
      let (e, p) := settle key e (Some session) p in
      Ok (_emit_receipt e Recovered now p, to_quarantine)
    | _ => Ok (p, if expired now (ttl_seconds p) e then (to_quarantine ++ [(key, e)])%list else to_quarantine)
    end.

Definition reconcile (now : Z) (p : SessionQuarantineProtocol) : res SessionQuarantineProtocol :=
  st ← res_fold (reconcile_entry now) (p, []) (_orphan_queue p);
  let (p, to_quarantine) := (st : SessionQuarantineProtocol * list (string * OrphanEntry)) in
  Ok (foldl (_quarantine now) p to_quarantine).

(** ** Accessors *)

Definition get_orphan_queue (p : SessionQuarantineProtocol) : list OrphanEntry :=
  List.filter (fun e => negb (reconciled e)) (map snd (_orphan_queue p)).

Definition get_receipts (p : SessionQuarantineProtocol) : list OrphanEventReceipt := _receipts p.

Definition get_sessions (p : SessionQuarantineProtocol) : list (string * SessionDAGNode) := _sessions p.

(** ** Accounting

    Where an event that was received is, and what was said of it. *)

Definition session_events (p : SessionQuarantineProtocol) : list dict :=
  flat_map (fun kn => n_events kn.2) (_sessions p).

(** An entry keeps its event until a session takes it. *)
Definition held (ke : string * OrphanEntry) : list dict :=
  match recovered_session_id ke.2 with Some _ => [] | None => [o_event ke.2] end.

Definition held_events (p : SessionQuarantineProtocol) : list dict := flat_map held (_orphan_queue p).

(** What a receipt says of an entry that was dealt with. *)
Definition outcome (ke : string * OrphanEntry) : list (string * status * option string) :=
  if reconciled ke.2 then
    [(ke.1, match recovered_session_id ke.2 with Some _ => Recovered | None => Quarantined end, recovered_session_id ke.2)]
  else [].

Definition outcomes (p : SessionQuarantineProtocol) := flat_map outcome (_orphan_queue p).

Definition reported (r : OrphanEventReceipt) : string * status * option string :=
  (r_event_id r, r_status r, r_recovered_session_id r).

Definition entry_ok (ke : string * OrphanEntry) : Prop :=
  o_event_id ke.2 = ke.1 /\ (reconciled ke.2 = false -> recovered_session_id ke.2 = None).

(** The events received and the orphan entries that were replaced. *)
Definition history : Type := list dict * list (string * OrphanEntry).

Record accounted (h : history) (p : SessionQuarantineProtocol) : Prop := {
  sessions_once : NoDup (_sessions p).*1;
  entries_once : NoDup (_orphan_queue p).*1;
  entries_ok : Forall entry_ok (_orphan_queue p);
  no_event_lost : h.1 ≡ₚ session_events p ++ held_events p ++ flat_map held h.2;
  one_receipt_each : map reported (_receipts p) ≡ₚ outcomes p ++ flat_map outcome h.2
}.

(** The entry an orphaned event takes the place of: the one with the same id. *)
Definition displaced (how : ingress) (id : string) (p : SessionQuarantineProtocol) : list (string * OrphanEntry) :=
  match how, assoc id (_orphan_queue p) with
  | Orphaned, Some e => [(id, e)]
  | _, _ => []
  end.

(** The protocol in use, with the events received and the orphan entries
    replaced so far. *)
Inductive reachable : list dict -> list (string * OrphanEntry) -> SessionQuarantineProtocol -> Prop :=
| reach_init ttl : reachable [] [] (new_protocol ttl)
| reach_register received replaced p session_id now :
    reachable received replaced p -> reachable received replaced (register_session session_id now p)
| reach_event received replaced p event now id stamped p1 how p2 :
    reachable received replaced p -> identify event p = Ok (id, stamped, p1) ->
    event_received event now p = Ok (how, p2) -> reachable (stamped :: received) (displaced how id p ++ replaced)%list p2
| reach_reconcile received replaced p now p' :
    reachable received replaced p -> reconcile now p = Ok p' -> reachable received replaced p'.

Lemma flat_map_swap {A B} (f : A -> list B) l x r : flat_map f (l ++ x :: r) ≡ₚ f x ++ flat_map f (l ++ r).
Proof. rewrite !flat_map_app. simpl. by rewrite !app_assoc, (Permutation_app_comm (flat_map f l) (f x)). Qed.

Lemma attach_spec sid ev p node :
  PyVal.assoc sid (_sessions p) = Some node ->
  exists s, _attach_to_session sid ev p = Ok (set_sessions p s) /\ s.*1 = (_sessions p).*1 /\
    flat_map (fun kn => n_events kn.2) s ≡ₚ ev :: session_events p.
Proof.
  intros E. unfold _attach_to_session, session_events. rewrite E.
  destruct (assoc_set_split _ _ _ E) as (l & r & -> & Hset). rewrite Hset. eexists. split; [done|].
  rewrite !fmap_app, !fmap_cons, !flat_map_swap. simpl. split; [done|].
  by rewrite <- app_assoc, Permutation_middle.
Qed.

Lemma settled_spec k e session q :
  PyVal.assoc k q = Some e -> Forall entry_ok q -> reconciled e = false ->
  let e' := mkEntry (o_event_id e) (o_event e) (received_at e) true session in
  let q' := assoc_set k e' q in
  q'.*1 = q.*1 /\ Forall entry_ok q' /\
  flat_map held q ≡ₚ (if session then [o_event e] else []) ++ flat_map held q' /\
  flat_map outcome q' ≡ₚ outcome (k, e') ++ flat_map outcome q.
Proof.
  intros E Hok Hopen e' q'. subst q'. destruct (assoc_set_split _ _ _ E) as (l & r & -> & Hset). rewrite Hset.
  apply Forall_app in Hok as [Hl [[Hid Hnone] Hr]%Forall_cons]. simpl in Hid, Hnone.
  rewrite !fmap_app, !fmap_cons, !flat_map_swap, Forall_app, Forall_cons. split_and!; try done.
  - unfold held at 1 3. simpl. rewrite (Hnone Hopen). by destruct session.
  - unfold outcome at 4. simpl. by rewrite Hopen.
Qed.

(** A receipt is added and nothing else changes. *)
Lemma emit_spec e s now p :
  exists r n, _emit_receipt e s now p =
    mkProtocol (ttl_seconds p) (_sessions p) (_orphan_queue p) (_receipts p ++ [r]) (_reconcile_counts p) n /\
    reported r = (o_event_id e, s, recovered_session_id e).
Proof. unfold _emit_receipt. destruct (_build_evidence_refs e (drawn p)) as [refs n]. by do 2 eexists. Qed.

(** ** One entry *)

(** The entries a reconciliation has still to deal with. *)
Record pending (now ttl : Z) (todo : list (string * OrphanEntry)) (p : SessionQuarantineProtocol) : Prop := {
  same_ttl : ttl_seconds p = ttl;
  todo_once : NoDup todo.*1;
  todo_queued : Forall (fun ke => PyVal.assoc ke.1 (_orphan_queue p) = Some ke.2) todo;
  rest_fresh k e : PyVal.assoc k (_orphan_queue p) = Some e -> reconciled e = false ->
    expired now ttl e = false \/ (k, e) ∈ todo
}.

#[local] Instance pending_proper now ttl : Proper ((≡ₚ) ==> (=) ==> iff) (pending now ttl).
Proof.
  assert (Hone : forall l l' p, l ≡ₚ l' -> pending now ttl l p -> pending now ttl l' p).
  { intros l l' p Hp [? ? ? Hr]. split; [done|by rewrite <- Hp|by rewrite <- Hp|].
    intros k e. rewrite <- Hp. apply Hr. }
  intros l l' Hp p ? <-. by split; apply Hone.
Qed.

Lemma pending_settled now ttl k e session todo p s r n c :
  pending now ttl ((k, e) :: todo) p ->
  pending now ttl todo
    (mkProtocol (ttl_seconds p) s (assoc_set k (mkEntry (o_event_id e) (o_event e) (received_at e) true session)
                                     (_orphan_queue p)) r c n).
Proof.
  intros [Httl Hnd [Hk Hq]%Forall_cons Hr]. rewrite fmap_cons, NoDup_cons in Hnd. destruct Hnd as [Hnew Hnd]. simpl in *.
  split; [done|done| |].
  - rewrite Forall_forall in Hq |- *. intros ke Hke. cbn [_orphan_queue]. rewrite assoc_set_ne; [by apply Hq|].
    intros ->. apply Hnew, list_elem_of_fmap. eauto.
  - intros k' e'. cbn [_orphan_queue]. destruct (decide (k = k')) as [<-|Hne].
    + rewrite assoc_set_eq. intros; by simplify_eq.
    + rewrite assoc_set_ne by done. intros E Ho. destruct (Hr _ _ E Ho) as [?|[?|?]%elem_of_cons]; auto. congruence.
Qed.

Lemma accounted_entry received p k e :
  accounted received p -> PyVal.assoc k (_orphan_queue p) = Some e -> entry_ok (k, e).
Proof. intros Ha E%assoc_elem. exact (proj1 (Forall_forall _ _) (entries_ok _ _ Ha) _ E). Qed.

Lemma quarantine_accounted received now ttl k e todo p :
  accounted received p -> pending now ttl ((k, e) :: todo) p -> reconciled e = false ->
  accounted received (_quarantine now p (k, e)) /\ pending now ttl todo (_quarantine now p (k, e)).
Proof.
  intros Ha Hp Ho. pose proof (todo_queued _ _ _ _ Hp) as [E _]%Forall_cons. simpl in E.
  destruct (accounted_entry _ _ _ _ Ha E) as [Hid Hnone]. simpl in Hid, Hnone. destruct Ha as [Hs Hq Hok Hev Hrec].
  unfold _quarantine, settle. cbn [fst snd].
  destruct (emit_spec (mkEntry (o_event_id e) (o_event e) (received_at e) true (recovered_session_id e)) Quarantined now
    (set_orphans p (assoc_set k (mkEntry (o_event_id e) (o_event e) (received_at e) true (recovered_session_id e))
      (_orphan_queue p)))) as (r & n & -> & Hr).
  split; [|apply (pending_settled _ _ _ _ _ _ _ _ _ _ _ Hp)]. rewrite (Hnone Ho) in *.
  destruct (settled_spec k e None _ E Hok Ho) as (Hkeys & Hok' & Hheld & Hout).
  split; cbn [_sessions _orphan_queue _receipts set_orphans]; rewrite ?Hkeys; try done.
  - by rewrite Hev; unfold session_events, held_events; simpl; rewrite Hheld.
  - unfold outcomes; cbn [_orphan_queue]. rewrite Hout, map_app, Hrec. simpl. rewrite Hr, Permutation_app_comm. simpl. by rewrite Hid.
Qed.

Lemma recover_accounted received now ttl k e sid node todo p :
  accounted received p -> pending now ttl ((k, e) :: todo) p -> reconciled e = false ->
  PyVal.assoc sid (_sessions p) = Some node ->
  exists p1, _attach_to_session sid (o_event e) p = Ok p1 /\
    let '(e', p2) := settle k e (Some sid) p1 in
    accounted received (_emit_receipt e' Recovered now p2) /\ pending now ttl todo (_emit_receipt e' Recovered now p2).
Proof.
  intros Ha Hp Ho Hsid. pose proof (todo_queued _ _ _ _ Hp) as [E _]%Forall_cons. simpl in E.
  destruct (accounted_entry _ _ _ _ Ha E) as [Hid Hnone]. simpl in Hid, Hnone. destruct Ha as [Hs Hq Hok Hev Hrec].
  destruct (attach_spec sid (o_event e) p node Hsid) as (s & -> & Hskeys & Hsev). eexists. split; [done|]. unfold settle.
  destruct (emit_spec (mkEntry (o_event_id e) (o_event e) (received_at e) true (Some sid)) Recovered now
    (set_orphans (set_sessions p s) (assoc_set k (mkEntry (o_event_id e) (o_event e) (received_at e) true (Some sid))
      (_orphan_queue (set_sessions p s))))) as (r & n & -> & Hr).
  split; [|apply (pending_settled _ _ _ _ _ _ _ _ _ _ _ Hp)].
  destruct (settled_spec k e (Some sid) _ E Hok Ho) as (Hkeys & Hok' & Hheld & Hout).
  split; cbn [_sessions _orphan_queue _receipts set_orphans set_sessions]; rewrite ?Hkeys, ?Hskeys; try done.
  - rewrite Hev. unfold session_events at 2, held_events. cbn [_sessions _orphan_queue set_orphans set_sessions].
    rewrite Hheld, Hsev, <- !app_assoc. cbn [app]. symmetry. apply Permutation_middle.
  - unfold outcomes; cbn [_orphan_queue]. rewrite Hout, map_app, Hrec. simpl. rewrite Hr, Permutation_app_comm. simpl. by rewrite Hid.
Qed.

Lemma pending_skip now ttl k e todo p :
  pending now ttl ((k, e) :: todo) p -> reconciled e = true \/ expired now ttl e = false -> pending now ttl todo p.
Proof.
  intros [Httl [_ Hnd]%NoDup_cons [_ Hq]%Forall_cons Hr] Hskip. split; [done..|].
  intros k' e' E Ho. destruct (Hr _ _ E Ho) as [?|[?|?]%elem_of_cons]; auto. simplify_eq. naive_solver congruence.
Qed.

Lemma session_sharing_known key value sessions sid :
  session_sharing key value sessions = Some sid -> sid ∈ sessions.*1.
Proof.
  induction sessions as [|[id node] sessions IH]; simpl; [done|]. case_match; intros; simplify_eq; [left|right; auto].
Qed.

Lemma matching_known event p sid :
  _find_matching_session event p = Some sid -> exists node, PyVal.assoc sid (_sessions p) = Some node.
Proof.
  intros Hm. destruct (PyVal.assoc sid (_sessions p)) eqn:E; [eauto|]. apply assoc_None in E. destruct E.
  revert Hm. unfold _find_matching_session. induction _RECONCILE_KEYS as [|key keys IH]; simpl; [done|].
  case_match; [|auto]. case_match eqn:Es; [|auto]. intros; simplify_eq. by eapply session_sharing_known.
Qed.

Lemma accounted_counts received p c : accounted received p -> accounted received (set_counts p c).
Proof. by intros [? ? ? ? ?]. Qed.

Lemma pending_counts now ttl todo p c : pending now ttl todo p -> pending now ttl todo (set_counts p c).
Proof. by intros [? ? ? ?]. Qed.

Definition open (ke : string * OrphanEntry) : Prop := reconciled ke.2 = false.

Lemma reconcile_entry_accounted received now ttl ke l tq p :
  accounted received p -> pending now ttl (ke :: l ++ tq) p -> Forall open tq ->
  exists p' tq', reconcile_entry now (p, tq) ke = Ok (p', tq') /\
    accounted received p' /\ pending now ttl (l ++ tq') p' /\ Forall open tq'.
Proof.
  intros Ha Hp Htq. destruct ke as [k e]. unfold reconcile_entry. destruct (reconciled e) eqn:Ho.
  { exists p, tq. split_and!; try done. eapply pending_skip; eauto. }
  set (count := (_ + 1)%Z). set (p0 := set_counts p _).
  assert (Ha0 : accounted received p0) by by apply accounted_counts.
  assert (Hp0 : pending now ttl ((k, e) :: l ++ tq) p0) by by apply pending_counts.
  assert (Hkeep : exists p' tq',
    Ok (p0, if expired now (ttl_seconds p0) e then (tq ++ [(k, e)])%list else tq) = Ok (p', tq') /\
    accounted received p' /\ pending now ttl (l ++ tq') p' /\ Forall open tq').
  { do 2 eexists. split_and!; [reflexivity|done|..]; rewrite (same_ttl _ _ _ _ Hp0); destruct (expired now ttl e) eqn:Ex.
    - by rewrite app_assoc, <- Permutation_cons_append.
    - eapply pending_skip; eauto.
    - apply Forall_app. by repeat constructor.
    - done. }
  destruct (_find_matching_session (o_event e) p0) as [[|c s]|] eqn:Em; try exact Hkeep.
  destruct (matching_known _ _ _ Em) as [node Hnode].
  destruct (recover_accounted _ _ _ _ _ _ _ _ _ Ha0 Hp0 Ho Hnode) as (p1 & -> & Hset).
  cbn [mbind res_bind]. destruct (settle k e _ p1) as [e' p2]. destruct Hset. by do 2 eexists.
Qed.

Lemma reconcile_loop_accounted received now ttl l tq p :
  accounted received p -> pending now ttl (l ++ tq) p -> Forall open tq ->
  exists p' tq', res_fold (reconcile_entry now) (p, tq) l = Ok (p', tq') /\
    accounted received p' /\ pending now ttl tq' p' /\ Forall open tq'.
Proof.
  revert tq p. induction l as [|ke l IH]; intros tq p Ha Hp Htq; [by exists p, tq|]. cbn [res_fold].
  destruct (reconcile_entry_accounted _ _ _ _ _ _ _ Ha Hp Htq) as (p1 & tq1 & -> & Ha1 & Hp1 & Htq1). by apply IH.
Qed.

Lemma quarantine_all_accounted received now ttl tq p :
  accounted received p -> pending now ttl tq p -> Forall open tq ->
  accounted received (foldl (_quarantine now) p tq) /\ pending now ttl [] (foldl (_quarantine now) p tq).
Proof.
  revert p. induction tq as [|[k e] tq IH]; intros p Ha Hp Htq; [done|]. apply Forall_cons in Htq as [Ho Htq].
  destruct (quarantine_accounted _ _ _ _ _ _ _ Ha Hp Ho). by apply IH.
Qed.

Lemma reconcile_accounted received now p :
  accounted received p ->
  exists p', reconcile now p = Ok p' /\ accounted received p' /\ pending now (ttl_seconds p) [] p'.
Proof.
  intros Ha. assert (Hp : pending now (ttl_seconds p) (_orphan_queue p ++ []) p).
  { rewrite app_nil_r. destruct Ha. split; [done|done| |].
    - apply Forall_forall. intros [k e] Hke. by apply assoc_NoDup.
    - intros k e E _. right. by apply assoc_elem. }
  unfold reconcile. destruct (reconcile_loop_accounted _ _ _ _ _ _ Ha Hp) as (p1 & tq & -> & Ha1 & Hp1 & Htq);
    [by constructor|]. cbn [mbind res_bind]. eexists. split; [done|]. by apply quarantine_all_accounted.
Qed.

(** ** Registration and ingress *)

Lemma register_accounted received sid now p : accounted received p -> accounted received (register_session sid now p).
Proof.
  intros Ha. unfold register_session, assoc_mem. destruct (PyVal.assoc sid (_sessions p)) eqn:E; [done|].
  destruct Ha. split; try done; cbn [_sessions set_sessions]; [by apply NoDup_assoc_set|].
  unfold session_events. cbn [_sessions set_sessions]. rewrite assoc_set_fresh, flat_map_app by done. simpl.
  by rewrite app_nil_r.
Qed.

Lemma identify_accounted received event p id stamped p1 :
  identify event p = Ok (id, stamped, p1) -> accounted received p ->
  accounted received p1 /\ _orphan_queue p1 = _orphan_queue p.
Proof.
  unfold identify. intros Hid [? ? ? ? ?]. destruct (truthy _); [|by simplify_eq].
  destruct (default PNone _); simplify_eq; done.
Qed.

(** Replacing an entry takes its event and its outcome out of the queue. *)
Lemma enqueue_spec id stamped now q :
  let e' := mkEntry id stamped now false None in
  let gone := match PyVal.assoc id q with Some e => [(id, e)] | None => [] end in
  NoDup q.*1 -> Forall entry_ok q ->
  NoDup (assoc_set id e' q).*1 /\ Forall entry_ok (assoc_set id e' q) /\
  flat_map held (assoc_set id e' q) ++ flat_map held gone ≡ₚ stamped :: flat_map held q /\
  flat_map outcome (assoc_set id e' q) ++ flat_map outcome gone ≡ₚ flat_map outcome q.
Proof.
  intros e' gone Hnd Hok. split; [by apply NoDup_assoc_set|]. subst gone. destruct (PyVal.assoc id q) as [e|] eqn:E.
  - destruct (assoc_set_split _ _ _ E) as (l & r & -> & Hset). rewrite Hset. apply Forall_app in Hok as [Hl [_ Hr]%Forall_cons].
    rewrite !flat_map_swap, Forall_app, Forall_cons. split_and!; try done; cbn [flat_map]; rewrite app_nil_r.
    + unfold held at 1. simpl. by rewrite Permutation_app_comm.
    + unfold outcome at 1. simpl. by rewrite Permutation_app_comm.
  - rewrite assoc_set_fresh by done. split; [apply Forall_app; by repeat constructor|]. rewrite !flat_map_app. simpl.
    rewrite !app_nil_r. split; [|done]. by rewrite <- Permutation_cons_append.
Qed.

Lemma event_accounted received replaced event now p id stamped p1 how p2 :
  accounted (received, replaced) p -> identify event p = Ok (id, stamped, p1) ->
  event_received event now p = Ok (how, p2) -> accounted (stamped :: received, displaced how id p ++ replaced)%list p2.
Proof.
  intros Ha Hid. unfold event_received. rewrite Hid. cbn [mbind res_bind].
  destruct (identify_accounted _ _ _ _ _ _ Hid Ha) as [Ha1 Hq]. unfold displaced. rewrite <- Hq. clear Ha Hq.
  destruct (named_session stamped p1) as [[sid|]|] eqn:En; cbn [mbind res_bind]; [| |done].
  - destruct (PyVal.assoc sid (_sessions p1)) as [node|] eqn:E; [|by unfold _attach_to_session; rewrite E].
    destruct (attach_spec sid stamped p1 node E) as (s & -> & Hkeys & Hsev). cbn [mbind res_bind]. intros; simplify_eq.
    destruct Ha1 as [? ? ? Hev ?]. split; cbn [_sessions set_sessions fst snd app] in *; rewrite ?Hkeys; try done.
    rewrite Hev. unfold session_events at 2. cbn [_sessions set_sessions]. by rewrite Hsev.
  - intros; simplify_eq. destruct Ha1 as [? Hnd Hok Hev Hrec]. cbn [fst snd] in *.
    destruct (enqueue_spec id stamped now (_orphan_queue p1) Hnd Hok) as (Hnd' & Hok' & Hheld & Hout).
    split; cbn [_sessions _orphan_queue _receipts set_orphans _enqueue_orphan fst snd]; try done.
    + unfold held_events, _enqueue_orphan. cbn [_orphan_queue set_orphans]. rewrite flat_map_app, Hev.
      rewrite (app_assoc (flat_map held (assoc_set _ _ _))), Hheld. unfold held_events, session_events. cbn [_sessions set_orphans app].
      by rewrite Permutation_middle.
    + unfold outcomes, _enqueue_orphan. cbn [_orphan_queue set_orphans]. rewrite flat_map_app, Hrec, app_assoc, Hout. done.
Qed.

Lemma reachable_accounted received replaced p : reachable received replaced p -> accounted (received, replaced) p.
Proof.
  induction 1 as [ttl|received replaced p sid now _ IH|received replaced p event now id stamped p1 how p2 _ IH Hid Hev|received replaced p now p' _ IH Hrec].
  - by repeat constructor.
  - by apply register_accounted.
  - by eapply event_accounted.
  - destruct (reconcile_accounted _ now _ IH) as (p'' & E & Ha & _). congruence.
Qed.

(** ** What the protocol promises *)

(** C26: in every state the protocol can reach, the events received are exactly
    those of the sessions, those still held by the orphan queue, and those of
    the orphan entries that a later orphan with the same event id replaced
    before a session had taken them: no other event is lost, and none is
    attached twice.  Without a repeated id nothing is replaced and no event is
    lost; with one, an event is ([repeated_id_loses_event]). *)
Theorem every_event_accounted received replaced p :
  reachable received replaced p ->
  received ≡ₚ session_events p ++ held_events p ++ flat_map held replaced.
Proof. intros Ha%reachable_accounted. apply Ha. Qed.

(** While no entry has been replaced, an orphan that was dealt with has exactly
    one receipt, whose status and session are what was done with it, and one
    that was not has none; receipts of different orphans never mix. *)
Theorem one_receipt_per_outcome received p :
  reachable received [] p ->
  map reported (get_receipts p) ≡ₚ outcomes p /\ NoDup (map r_event_id (get_receipts p)).
Proof.
  intros Ha%reachable_accounted. destruct Ha as [_ Hq _ _ Hrec]. cbn [snd flat_map] in Hrec. rewrite app_nil_r in Hrec.
  split; [done|]. unfold get_receipts.
  replace (map r_event_id (_receipts p)) with (map (fun x : string * status * option string => x.1.1) (map reported (_receipts p)))
    by by rewrite map_map.
  rewrite Hrec. unfold outcomes. clear Hrec. induction (_orphan_queue p) as [|[k e] q IH]; [constructor|].
  rewrite fmap_cons, NoDup_cons in Hq. destruct Hq as [Hk Hq]. simpl. unfold outcome at 1. simpl.
  destruct (reconciled e); simpl; [|auto]. constructor; [|auto]. intros Hin. apply Hk. clear -Hin. simpl.
  apply list_elem_of_fmap in Hin as (x & -> & Hx). apply list_elem_of_In, in_flat_map in Hx as ([k' e'] & Hin & Hx).
  apply list_elem_of_fmap. exists (k', e'). rewrite list_elem_of_In. split; [|done].
  unfold outcome in Hx. simpl in Hx. destruct (reconciled e'); [|done]. by destruct Hx as [<-|].
Qed.

(** A reconciliation always returns, and every orphan still pending after it
    is younger than the time to live. *)
Theorem reconcile_settles_expired received replaced p now :
  reachable received replaced p ->
  exists p', reconcile now p = Ok p' /\
    forall e, e ∈ get_orphan_queue p' -> (now - received_at e < ttl_seconds p * 1000000)%Z.
Proof.
  intros Ha%reachable_accounted. destruct (reconcile_accounted _ now _ Ha) as (p' & E & Ha' & Hp). exists p'.
  split; [done|]. unfold get_orphan_queue. intros e [Hin Ho]%elem_of_lfilter.
  apply list_elem_of_fmap in Hin as ([k e'] & -> & Hin). simpl in Ho |- *.
  destruct (rest_fresh _ _ _ _ Hp k e') as [Hx|Hx]; [apply assoc_NoDup; [apply Ha'|done]|by destruct (reconciled e')| |inversion Hx].
  unfold expired in Hx. lia.
Qed.
End protocol.

(** ** A run *)

Definition sample_uuid (n : nat) : string := String.concat "" (repeat "u" (S n)).

Definition named (sid : string) (id conv : string) : dict :=
  [("session_id", PStr sid); ("event_id", PStr id); ("conversation_id", PStr conv)].

Definition sample_received : list dict := [named "s9" "e3" "d"; named "s9" "e2" "c"; named "s1" "e1" "c"].

Section sample.
Existing Instance demo_float_repr.

(** A session with one event, an orphan of its conversation and one of another. *)
Definition sample : SessionQuarantineProtocol :=
  let p := register_session "s1" 0 (new_protocol DEFAULT_TTL_SECONDS) in
  foldl (fun p event => match event_received sample_uuid event 0 p with Ok (_, p) => p | Raise _ => p end)
    p (rev sample_received).

Lemma sample_reachable : reachable sample_uuid sample_received [] sample.
Proof.
  pose proof (reach_register sample_uuid _ _ _ "s1" 0%Z (reach_init sample_uuid DEFAULT_TTL_SECONDS)) as R0.
  pose proof (reach_event sample_uuid _ _ _ (named "s1" "e1" "c") 0%Z _ _ _ _ _ R0 eq_refl eq_refl) as R1.
  pose proof (reach_event sample_uuid _ _ _ (named "s9" "e2" "c") 0%Z _ _ _ _ _ R1 eq_refl eq_refl) as R2.
  exact (reach_event sample_uuid _ _ _ (named "s9" "e3" "d") 0%Z _ _ _ _ _ R2 eq_refl eq_refl).
Qed.

(** Five minutes later the first orphan has found its session and the other is quarantined. *)
Definition sample_after : SessionQuarantineProtocol :=
  match reconcile sample_uuid 300000000 sample with Ok p => p | Raise _ => sample end.

Lemma sample_after_reachable : reachable sample_uuid sample_received [] sample_after.
Proof. eapply reach_reconcile; [apply sample_reachable|reflexivity]. Qed.

Lemma one_receipt_per_outcome_witness :
  map reported (get_receipts sample_after) = [("e2", Recovered, Some "s1"); ("e3", Quarantined, None)] /\
  NoDup (map r_event_id (get_receipts sample_after)).
Proof.
  split; [reflexivity|]. apply (one_receipt_per_outcome sample_uuid sample_received), sample_after_reachable.
Defined.

Lemma reconcile_settles_expired_witness :
  exists p', reconcile sample_uuid 300000000 sample = Ok p' /\
    forall e, e ∈ get_orphan_queue p' -> (300000000 - received_at e < ttl_seconds sample * 1000000)%Z.
Proof. apply (reconcile_settles_expired sample_uuid sample_received []), sample_reachable. Defined.

(** Two orphans with one id: the second takes the place of the first, which is
    then in no session, no queue and no receipt. *)
Definition overwritten : SessionQuarantineProtocol :=
  foldl (fun p event => match event_received sample_uuid event 0 p with Ok (_, p) => p | Raise _ => p end)
    (new_protocol DEFAULT_TTL_SECONDS) [named "s9" "e1" "c"; named "s9" "e1" "d"].

Example repeated_id_loses_event :
  (session_events overwritten ++ held_events overwritten)%list = [named "s9" "e1" "d"] /\ get_receipts overwritten = [].
Proof. split; reflexivity. Qed.

(** The first orphan of the sample has found its session and nothing was
    replaced; of two orphans with one id, the first was replaced. *)
Lemma every_event_accounted_witness :
  session_events sample_after = [named "s1" "e1" "c"; named "s9" "e2" "c"] /\
  sample_received ≡ₚ session_events sample_after ++ held_events sample_after ++ [] /\
  [named "s9" "e1" "d"; named "s9" "e1" "c"] ≡ₚ
    session_events overwritten ++ held_events overwritten ++ [named "s9" "e1" "c"].
Proof.
  split; [reflexivity|]. split; [apply (every_event_accounted sample_uuid _ []), sample_after_reachable|].
  refine (every_event_accounted sample_uuid _ [("e1", mkEntry "e1" (named "s9" "e1" "c") 0 false None)] overwritten _).
  pose proof (reach_event sample_uuid _ _ _ (named "s9" "e1" "c") 0%Z _ _ _ _ _
    (reach_init sample_uuid DEFAULT_TTL_SECONDS) eq_refl eq_refl) as R1.
  exact (reach_event sample_uuid _ _ _ (named "s9" "e1" "d") 0%Z _ _ _ _ _ R1 eq_refl eq_refl).
Defined.
End sample.
