(* ===== verification/Webhooks.v ===== *)
(** * The webhook receiver

    Models [automation/webhooks.py]: the HMAC-SHA256 signature of a delivery,
    the handler of [/webhook] with its counters and the durable queue it feeds,
    and the two reports.  HMAC is RFC 2104 over the digest of [Sha256]; the key
    and the body are strings of bytes.

    The web framework is not part of the repository: [get_json] is the reader it
    offers for a body, an argument here, and an exception that leaves the
    handler is the [Raise] the framework turns into a response 500.  Whatever the
    handler changed before it raised stays changed, so the handler returns the
    new state next to its result. *)

From Stdlib Require Import Ascii.
From S2P Require Import Prelude PyVal Json PyText Sha256 JsonParse RateLimiter DurableQueue.
Local Open Scope string_scope.
Local Open Scope Z_scope.

(** ** HMAC *)

Definition sha256_words (m : list Z) : list Z :=
  let w := words (pad m) in blocks (S (length w)) w initial_state.

Definition word_bytes (x : Z) : list Z := map (fun i => Z.land (Z.shiftr x (8 * i)) 255) [3; 2; 1; 0].

Definition sha256_bytes (m : list Z) : list Z := List.concat (map word_bytes (sha256_words m)).

(** The key on one block of 64 bytes: hashed first when it is longer. *)
Definition hmac_key (key : list Z) : list Z :=
  let k := if Nat.ltb 64 (length key) then sha256_bytes key else key in
  (k ++ replicate (64 - length k) 0)%list.

(** [hmac.new(key, msg, hashlib.sha256).hexdigest()]. *)
Definition hmac_hex (key msg : string) : string :=
  let k := hmac_key (bytes_of key) in
  let inner := sha256_bytes (map (Z.lxor 54) k ++ bytes_of msg)%list in
  str_join "" (map hex_word (sha256_words (map (Z.lxor 92) k ++ inner)%list)).

(** Case 2 of RFC 4231, case 6 with a key longer than a
    block, and the example of the hosting service's documentation. *)
Example hmac_jefe :
  hmac_hex "Jefe" "what do ya want for nothing?"
  = "5bdcc146bf60754e6a042426089575c75a003f089d2739839dec58b964ec3843".
Proof. vm_compute. reflexivity. Qed.

Example hmac_long_key :
  hmac_hex (str_repeat 131 (ascii_of_nat 170)) "Test Using Larger Than Block-Size Key - Hash Key First"
  = "60e431591ee0b67f0d8a26aacbf5b77f8e0bc6213728c5140546040f0ee37f54".
Proof. vm_compute. reflexivity. Qed.

Example hmac_documented :
  hmac_hex "It's a Secret to Everybody" "Hello, World!"
  = "757107ea0eb2509fc211221cce984b8a37570b6d7586c22c46f4379c8b043e17".
Proof. vm_compute. reflexivity. Qed.

Definition is_ascii (s : string) : bool :=
  forallb (fun c => Nat.ltb (nat_of_ascii c) 128) (String.list_ascii_of_string s).

(** [hmac.compare_digest] on two [str]s: an error unless both are ASCII. *)
Definition compare_digest (a b : string) : res bool :=
  if is_ascii a && is_ascii b then Ok (String.eqb a b) else Raise TypeError.

Definition expected_signature (payload secret : string) : string := "sha256=" +:+ hmac_hex secret payload.

Definition validate_signature (payload : string) (header_sig : option string) (secret : string) : res bool :=
  match header_sig with
  | None | Some "" => Ok false
  | Some sig => compare_digest (expected_signature payload secret) sig
  end.

(** ** The log line *)

Fixpoint remove_char (c : ascii) (s : string) : string :=
  match s with
  | EmptyString => EmptyString
  | String d s => if Ascii.eqb d c then remove_char c s else String d (remove_char c s)
  end.

Definition CR : ascii := "013".
Definition LF : ascii := "010".

Definition _sanitize_for_log `{FloatRepr} (value : pyval) : string :=
  match value with
  | PNone => ""
  | _ => remove_char LF (remove_char CR (py_str value))
  end.

(** ** The application *)

Record webhook_metrics := mkWebhookMetrics {
  webhooks_received : Z;
  webhooks_valid : Z;
  webhooks_invalid_sig : Z;
  webhooks_queued : Z;
  webhooks_ignored : Z;
  uptime_start : string
}.

Definition no_webhooks (now : string) : webhook_metrics := mkWebhookMetrics 0 0 0 0 0 now.

(** The counters [_inc] is called with. *)
Inductive counter := Received | Valid | InvalidSig | Queued | Ignored.

Definition _inc (key : counter) (m : webhook_metrics) : webhook_metrics :=
  let 'mkWebhookMetrics r v i q g u := m in
  match key with
  | Received => mkWebhookMetrics (r + 1) v i q g u
  | Valid => mkWebhookMetrics r (v + 1) i q g u
  | InvalidSig => mkWebhookMetrics r v (i + 1) q g u
  | Queued => mkWebhookMetrics r v i (q + 1) g u
  | Ignored => mkWebhookMetrics r v i q (g + 1) u
  end.

Record app := mkApp { metrics_of : webhook_metrics; events : DurableQueue }.

(** A delivery: the body and the two headers that are read. *)
Record request := mkRequest {
  data : string;
  hub_signature : option string;
  github_event : option string
}.

(** What a call of the handler takes from outside: the times and the random id. *)
Record arrival := mkArrival { received_at : string; put_ns : Z; put_uuid : string }.

Definition response := (Z * pyval)%type.

Definition webhook_secret_of (webhook_secret : option string) (environ : option string) : string :=
  match webhook_secret with
  | None | Some "" => default "" environ
  | Some s => s
  end.

Definition main_ref (ref : pyval) : bool := eq_str ref "refs/heads/main" || eq_str ref "refs/heads/master".

Section handler.
(** [request.get_json(force=True)] on the body. *)
Variable get_json : string -> res pyval.
Variable secret : string.

(** The payload: an unreadable or empty body counts as the empty object. *)
Definition body_payload (body : string) : pyval :=
  match get_json body with Ok v => py_or v (PDict []) | Raise _ => PDict [] end.

(** The entry of a push to the main branch, from its reference and payload. *)
Definition push_entry (received_at : string) (ref payload : pyval) : res pyval :=
  repository ← py_get payload "repository" PNone;
  repo ← py_get (py_or repository (PDict [])) "full_name" (PStr "");
  Ok (PDict [("event", PStr "push"); ("ref", ref); ("repo", repo); ("payload", payload);
             ("received_at", PStr received_at)]).

(** The handler once the signature is accepted. *)
Definition dispatch (st : arrival) (r : request) (a : app) : app * res response :=
  let count k a := mkApp (_inc k (metrics_of a)) (events a) in
  let event_type := default "unknown" (github_event r) in
  let payload := body_payload (data r) in
  if String.eqb event_type "push" then
    match py_get payload "ref" (PStr "") with
    | Raise e => (a, Raise e)
    | Ok ref =>
      if main_ref ref then
        match push_entry (received_at st) ref payload with
        | Raise e => (a, Raise e)
        | Ok entry =>
          let a := mkApp (metrics_of a) (put (put_ns st) (put_uuid st) entry (events a)).2 in
          (count Queued a, Ok (202, PDict [("status", PStr "queued")]))
        end
      else (count Ignored a, Ok (200, PDict [("status", PStr "ignored"); ("reason", PStr "not main branch")]))
    end
  else (count Ignored a, Ok (200, PDict [("status", PStr "ignored"); ("reason", PStr ("event=" +:+ event_type))])).

Definition webhook (st : arrival) (r : request) (a : app) : app * res response :=
  let count k a := mkApp (_inc k (metrics_of a)) (events a) in
  let a := count Received a in
  if String.eqb secret "" then dispatch st r (count Valid a)
  else
    match validate_signature (data r) (hub_signature r) secret with
    | Raise e => (a, Raise e)
    | Ok false => (count InvalidSig a, Ok (403, PDict [("error", PStr "Invalid signature")]))
    | Ok true => dispatch st r (count Valid a)
    end.

(** The deliveries the process serves, in order. *)
Definition serve (l : list (arrival * request)) (a : app) : app :=
  foldl (fun a sr => (webhook sr.1 sr.2 a).1) a l.
End handler.

Definition health (a : app) : pyval :=
  PDict [("status", PStr "ok"); ("queue_depth", PInt (Z.of_nat (qsize (events a))));
         ("uptime_start", PStr (uptime_start (metrics_of a)))].

(** [/metrics]: the counters, the depth and, with a limiter, its own report; the
    report may open a new hour in the limiter. *)
Definition metrics_page (limiter : option RateLimiter) (r : reading) (now : SpecFloat.spec_float) (a : app) :
    res (pyval * option RateLimiter) :=
  let m := metrics_of a in
  let snapshot :=
    [("webhooks_received", PInt (webhooks_received m)); ("webhooks_valid", PInt (webhooks_valid m));
     ("webhooks_invalid_sig", PInt (webhooks_invalid_sig m)); ("webhooks_queued", PInt (webhooks_queued m));
     ("webhooks_ignored", PInt (webhooks_ignored m)); ("uptime_start", PStr (uptime_start m));
     ("queue_depth", PInt (Z.of_nat (qsize (events a))))] in
  match limiter with
  | None => Ok (PDict snapshot, None)
  | Some l =>
    dl ← get_metrics r now l;
    let (d, l) := (dl : dict * RateLimiter) in
    Ok (PDict (snapshot ++ [("rate_limiter", PDict d)])%list, Some l)
  end.

(** ** What a delivery may do *)

Section spec.
Variable get_json : string -> res pyval.
Variable secret : string.

(** The delivery carries the signature of its body, when there is a secret. *)
Definition authentic (r : request) : bool :=
  String.eqb secret "" || bool_decide (hub_signature r = Some (expected_signature (data r) secret)).

(** The item an accepted delivery puts: an authentic push to the main branch. *)
Definition accepted (sr : arrival * request) : option item :=
  let (st, r) := sr in
  if negb (authentic r) then None else
  if negb (bool_decide (github_event r = Some "push")) then None else
  match body_payload get_json (data r) with
  | PDict d =>
    match assoc "ref" d with
    | Some ref =>
      if main_ref ref then
        match push_entry (received_at st) ref (PDict d) with
        | Ok e => Some (mkItem (put_ns st) (put_uuid st) e)
        | Raise _ => None
        end
      else None
    | None => None
    end
  | _ => None
  end.

(** Whether the answer to a delivery is the given status. *)
Definition answered (status : Z) (st : arrival) (r : request) (a : app) : bool :=
  match (webhook get_json secret st r a).2 with Ok (s, _) => s =? status | Raise _ => false end.
End spec.

(** ** Signatures *)

Lemma is_ascii_Forall s : is_ascii s = true <-> string_Forall (fun c => Nat.ltb (nat_of_ascii c) 128 = true) s.
Proof.
  unfold is_ascii. induction s as [|c s IH]; simpl; [done|]. by rewrite andb_true_iff, IH.
Qed.

Lemma hex_char_ascii n : Nat.ltb (nat_of_ascii (hex_char n)) 128 = true.
Proof.
  unfold hex_char. generalize (Z.to_nat n) as k. intros k. do 17 (destruct k as [|k]; [reflexivity|]). reflexivity.
Qed.

Lemma hex_words_Forall (P : ascii -> Prop) l :
  (forall n, P (hex_char n)) -> string_Forall P (str_join "" (map hex_word l)).
Proof.
  intros HP. assert (Hw : forall x, string_Forall P (hex_word x)) by (intros x; repeat (split; [apply HP|]); done).
  destruct l as [|x l]; cbn [map str_join]; [done|]. apply string_Forall_app. split; [done|].
  induction l as [|y l IH]; cbn [map foldr]; [done|]. rewrite string_app_nil_l. apply string_Forall_app. auto.
Qed.

Lemma expected_ascii payload secret : is_ascii (expected_signature payload secret) = true.
Proof.
  apply is_ascii_Forall. unfold expected_signature. apply string_Forall_app. split; [repeat split|].
  apply hex_words_Forall, hex_char_ascii.
Qed.

Lemma compare_digest_true a b : compare_digest a b = Ok true <-> is_ascii a = true /\ is_ascii b = true /\ a = b.
Proof.
  unfold compare_digest. destruct (is_ascii a) eqn:Ha, (is_ascii b) eqn:Hb; cbn [andb]; try (split; [done|naive_solver]).
  destruct (String.eqb_spec a b) as [->|Hne]; [done|]. split; [done|naive_solver].
Qed.

Lemma validate_true payload h secret :
  validate_signature payload h secret = Ok true <-> h = Some (expected_signature payload secret).
Proof.
  unfold validate_signature. pose proof (expected_ascii payload secret) as Ha.
  destruct h as [[|c sig]|]; [by split; [|intros E; apply (inj Some) in E]| |done].
  rewrite compare_digest_true. split; [by intros (_ & _ & <-)|]. intros E. apply (inj Some) in E. by rewrite E, Ha.
Qed.

#[global] Opaque expected_signature.

(** ** The handler against what a delivery may do *)

Section handled.
Variable get_json : string -> res pyval.
Variable secret : string.

(** How the handler starts: it rejects, fails, or goes on with an authentic
    delivery. *)
Lemma webhook_cases st r a :
  let a1 := mkApp (_inc Received (metrics_of a)) (events a) in
  (authentic secret r = true /\
   webhook get_json secret st r a = dispatch get_json st r (mkApp (_inc Valid (metrics_of a1)) (events a1))) \/
  (authentic secret r = false /\ webhook get_json secret st r a = (a1, Raise TypeError) /\
   exists h, hub_signature r = Some h /\ is_ascii h = false) \/
  (authentic secret r = false /\
   webhook get_json secret st r a =
     (mkApp (_inc InvalidSig (metrics_of a1)) (events a1), Ok (403, PDict [("error", PStr "Invalid signature")]))).
Proof.
  intros a1. unfold webhook, authentic. fold a1. destruct (String.eqb secret ""); [by left|]. cbn [orb].
  pose proof (validate_true (data r) (hub_signature r) secret) as Hv.
  destruct (validate_signature (data r) (hub_signature r) secret) as [[]|e] eqn:E.
  - left. split; [|done]. apply bool_decide_eq_true. by apply Hv.
  - right; right. split; [|done]. apply bool_decide_eq_false. intros Hs. by apply Hv in Hs.
  - right; left. split; [apply bool_decide_eq_false; intros Hs; by apply Hv in Hs|].
    unfold validate_signature in E. destruct (hub_signature r) as [[|c h]|] eqn:Eh; try done.
    unfold compare_digest in E. rewrite expected_ascii in E. cbn [andb] in E.
    destruct (is_ascii (String c h)) eqn:Ha; [done|]. injection E as <-. split; [done|]. by eexists.
Qed.

Lemma push_event (ev : option string) :
  String.eqb (default "unknown" ev) "push" = bool_decide (ev = Some "push").
Proof.
  destruct ev as [ev|]; [|done]. cbn [default]. unfold id. destruct (String.eqb_spec ev "push") as [->|Hne]; [done|].
  symmetry. apply bool_decide_eq_false. intros E. by apply (inj Some) in E.
Qed.

(** A signature the comparison refuses to read. *)
Definition unreadable (r : request) : bool :=
  match hub_signature r with Some h => negb (is_ascii h) | None => false end.

(** A push the handler fails on: the payload, or the repository it names on the
    main branch, is not an object. *)
Definition ill_formed (r : request) : bool :=
  bool_decide (github_event r = Some "push") &&
  match body_payload get_json (data r) with
  | PDict d =>
    main_ref (default (PStr "") (assoc "ref" d)) &&
    negb (is_dict (py_or (default PNone (assoc "repository" d)) (PDict [])))
  | _ => true
  end.

(** What becomes of a delivery: the item it puts, the counter and the status of
    a refusal, or the exception. *)
Inductive outcome := Accepts (it : item) | Refuses (k : counter) (status : Z) | Fails (e : exn).

Definition classify (sr : arrival * request) : outcome :=
  if authentic secret sr.2 then
    match accepted get_json secret sr with
    | Some it => Accepts it
    | None => if ill_formed sr.2 then Fails AttributeError else Refuses Ignored 200
    end
  else if unreadable sr.2 then Fails TypeError else Refuses InvalidSig 403.

Definition has_outcome (o : outcome) (ar : app * res response) (a : app) : Prop :=
  match o with
  | Accepts it => events ar.1 = (put (ns it) (uuid it) (entry it) (events a)).2 /\
                  metrics_of ar.1 = _inc Queued (metrics_of a) /\ exists b, ar.2 = Ok (202, b)
  | Refuses k status => events ar.1 = events a /\ metrics_of ar.1 = _inc k (metrics_of a) /\ exists b, ar.2 = Ok (status, b)
  | Fails e => ar = (a, Raise e)
  end.

Lemma dispatch_outcome st r a :
  authentic secret r = true -> has_outcome (classify (st, r)) (dispatch get_json st r a) a.
Proof.
  intros Ha. unfold classify, accepted, dispatch, ill_formed. cbn [snd]. rewrite Ha, push_event. cbn [negb].
  destruct (bool_decide _); cbn [negb andb]; [|cbn; eauto].
  destruct (body_payload get_json (data r)) as [| | | | | |d]; try reflexivity.
  unfold py_get at 1. destruct (assoc "ref" d) as [ref|]; cbn [default]; [|cbn; eauto].
  unfold id. destruct (main_ref ref); cbn [andb]; [|cbn; eauto].
  unfold push_entry, py_get. cbn [mbind res_bind].
  destruct (py_or _ _) as [| | | | | |rd]; cbn; eauto.
Qed.

Definition received (r : request) (m : webhook_metrics) : webhook_metrics :=
  if authentic secret r then _inc Valid (_inc Received m) else _inc Received m.

Lemma webhook_outcome st r a :
  has_outcome (classify (st, r)) (webhook get_json secret st r a) (mkApp (received r (metrics_of a)) (events a)).
Proof.
  unfold received. destruct (webhook_cases st r a) as [[Ha ->]|[(Ha & -> & h & Eh & Hh)|[Ha E]]]; rewrite Ha.
  - by apply dispatch_outcome.
  - unfold classify, unreadable. cbn [snd]. by rewrite Ha, Eh, Hh.
  - rewrite E. unfold classify. cbn [snd]. rewrite Ha. destruct (unreadable r) eqn:Hu; [exfalso|cbn; eauto].
    unfold authentic in Ha. apply orb_false_iff in Ha as [Hs Ha]. unfold webhook in E. rewrite Hs in E.
    unfold unreadable in Hu. destruct (hub_signature r) as [h|] eqn:Eh; [|done].
    apply negb_true_iff in Hu. unfold validate_signature in E. destruct h as [|c h]; [done|].
    unfold compare_digest in E. by rewrite Hu, expected_ascii in E.
Qed.
End handled.

(** ** Sequences of deliveries *)

Section serving.
Variable get_json : string -> res pyval.
Variable secret : string.

Abbreviation serve := (serve get_json secret).
Abbreviation accepted := (accepted get_json secret).

(** How many deliveries of a sequence satisfy a test, as a counter. *)
Definition tally (f : arrival * request -> bool) (l : list (arrival * request)) : Z := Z.of_nat (length (List.filter f l)).

Definition fails (sr : arrival * request) : bool :=
  match classify get_json secret sr with Fails _ => true | _ => false end.

Lemma tally_cons f sr l : tally f (sr :: l) = (if f sr then 1 else 0) + tally f l.
Proof. unfold tally. cbn [List.filter]. destruct (f sr); cbn [length]; lia. Qed.

Lemma accepted_authentic sr : authentic secret sr.2 = false -> accepted sr = None.
Proof. destruct sr as [st r]. cbn [snd]. unfold Webhooks.accepted. by intros ->. Qed.

Lemma serve_events l : forall a, events (serve l a) = put_all (omap accepted l) (events a).
Proof.
  induction l as [|[st r] l IH]; intros a; [done|]. change (serve ((st, r) :: l) a) with (serve l (webhook get_json secret st r a).1).
  rewrite IH. cbn [omap list_omap]. pose proof (webhook_outcome get_json secret st r a) as Ho. unfold classify in Ho. cbn [snd] in Ho.
  destruct (authentic secret r) eqn:Ha.
  - destruct (accepted (st, r)) as [it|]; [|destruct (ill_formed _ _)].
    + destruct Ho as (-> & _). done.
    + by rewrite Ho.
    + destruct Ho as (-> & _). done.
  - rewrite accepted_authentic by done. destruct (unreadable r); [by rewrite Ho|by destruct Ho as (-> & _)].
Qed.

(** The counters against the sequence: every delivery is counted once, and each
    one that is let in is queued, ignored or failed on. *)
Definition accounts (l : list (arrival * request)) (m m' : webhook_metrics) : Prop :=
  webhooks_received m' = webhooks_received m + Z.of_nat (length l) /\
  webhooks_valid m' = webhooks_valid m + tally (fun sr => authentic secret sr.2) l /\
  webhooks_invalid_sig m' =
    webhooks_invalid_sig m + tally (fun sr => negb (authentic secret sr.2) && negb (unreadable sr.2)) l /\
  webhooks_queued m' = webhooks_queued m + Z.of_nat (length (omap accepted l)) /\
  webhooks_ignored m' = webhooks_ignored m + tally (fun sr => authentic secret sr.2) l -
    Z.of_nat (length (omap accepted l)) - tally (fun sr => authentic secret sr.2 && fails sr) l.

Lemma serve_accounts l : forall a, accounts l (metrics_of a) (metrics_of (serve l a)).
Proof.
  induction l as [|[st r] l IH]; intros a; [unfold accounts, tally; cbn; lia|].
  change (serve ((st, r) :: l) a) with (serve l (webhook get_json secret st r a).1).
  destruct (IH (webhook get_json secret st r a).1) as (H1 & H2 & H3 & H4 & H5). clear IH.
  unfold accounts. rewrite H1, H2, H3, H4, H5, !tally_cons. cbn [length omap list_omap snd].
  pose proof (webhook_outcome get_json secret st r a) as Ho. unfold received in Ho.
  unfold fails, classify in *. cbn [snd] in *. destruct (metrics_of a) as [rc v i q g u].
  destruct (authentic secret r) eqn:Ha; cbn [negb andb].
  - destruct (accepted (st, r)) as [it|]; [|destruct (ill_formed _ _)]; cbn [length].
    + destruct Ho as (_ & -> & _). cbn. lia.
    + rewrite Ho. cbn. lia.
    + destruct Ho as (_ & -> & _). cbn. lia.
  - rewrite accepted_authentic by done. destruct (unreadable r); cbn [negb]; [rewrite Ho|destruct Ho as (_ & -> & _)]; cbn; lia.
Qed.
End serving.

Lemma main_ref_spec ref : main_ref ref = true -> ref = PStr "refs/heads/main" \/ ref = PStr "refs/heads/master".
Proof.
  unfold main_ref. destruct ref as [| | | |s| |]; cbn [eq_str orb]; try done.
  intros [E|E]%orb_true_iff; apply String.eqb_eq in E; rewrite E; auto.
Qed.

(** A push to the main branch: what an accepted delivery shows. *)
Definition main_push (payload : pyval) (r : request) : Prop :=
  github_event r = Some "push" /\
  exists d, payload = PDict d /\
    (assoc "ref" d = Some (PStr "refs/heads/main") \/ assoc "ref" d = Some (PStr "refs/heads/master")).

Lemma accepted_inv get_json secret st r it :
  accepted get_json secret (st, r) = Some it ->
  authentic secret r = true /\ main_push (body_payload get_json (data r)) r /\
  py_item (entry it) "payload" = Ok (body_payload get_json (data r)) /\
  py_item (entry it) "event" = Ok (PStr "push").
Proof.
  unfold accepted. destruct (authentic secret r); [|done]. cbn [negb].
  destruct (bool_decide _) eqn:Hev; [|done]. apply bool_decide_eq_true in Hev. cbn [negb].
  destruct (body_payload get_json (data r)) as [| | | | | |d]; try done.
  destruct (assoc "ref" d) as [ref|] eqn:Er; [|done]. destruct (main_ref ref) eqn:Hm; [|done].
  unfold push_entry. cbn [py_get mbind res_bind].
  destruct (py_get (py_or _ _) "full_name" _) as [n|]; [|done]. cbn [mbind res_bind].
  intros E. apply (inj Some) in E. rewrite <- E. split; [done|]. split; [|done].
  split; [done|]. exists d. split; [done|]. rewrite Er. apply main_ref_spec in Hm as [->| ->]; auto.
Qed.

Lemma authentic_signed secret r :
  secret <> "" -> authentic secret r = true -> hub_signature r = Some (expected_signature (data r) secret).
Proof.
  intros Hs Ha. apply orb_true_iff in Ha as [Ha|Ha]; [by apply String.eqb_eq in Ha|].
  by apply bool_decide_eq_true in Ha.
Qed.

(** ** Properties *)

(** C31: what reaches the scheduler through the webhook is signed.  With a secret
    configured, draining the queue after any sequence of deliveries returns the
    entries of the accepted deliveries in the order they came in and leaves it
    empty; each entry drained carries the payload of a push to the main branch
    whose body came with its own HMAC-SHA256 under the secret, every such entry
    is in the queue once, and the counters account for every delivery. *)
Theorem queue_holds_signed_pushes get_json secret now l :
  secret <> "" -> clock_ordered (omap (accepted get_json secret) l) ->
  let items := omap (accepted get_json secret) l in
  let a := serve get_json secret l (mkApp (no_webhooks now) (queue_of [])) in
  drain (length items) (events a) = Ok (map entry items, queue_of []) /\
  qsize (events a) = length items /\
  (forall e, e ∈ map entry items -> exists st r,
     (st, r) ∈ l /\ hub_signature r = Some ("sha256=" +:+ hmac_hex secret (data r)) /\
     py_item e "payload" = Ok (body_payload get_json (data r)) /\ main_push (body_payload get_json (data r)) r) /\
  accounts get_json secret l (no_webhooks now) (metrics_of a).
Proof.
  intros Hs Ho items a. pose proof (clock_ordered_increasing items Ho) as Hi.
  assert (Ha : events a = queue_of (map stored items)) by (unfold a; by rewrite serve_events, put_all_queue_of).
  rewrite Ha. split_and!.
  - rewrite <- (length_map stored), drain_queue_of by done. do 2 f_equal. by rewrite <- list_fmap_compose.
  - unfold qsize. rewrite pending_queue_of by done. by rewrite length_fmap, length_map.
  - intros e (it & -> & Hin)%list_elem_of_fmap. apply list_elem_of_omap in Hin as ([st r] & Hl & Hacc).
    apply accepted_inv in Hacc as (Hau & Hm & Hp & _). exists st, r. split_and!; [done| |done|done].
    by apply authentic_signed in Hau.
  - apply serve_accounts.
Qed.

(** A signature is accepted exactly when it is the HMAC of the body; a header
    that is not ASCII makes the comparison raise instead of refusing it. *)
Theorem signature_exact payload h secret :
  (validate_signature payload h secret = Ok true <-> h = Some ("sha256=" +:+ hmac_hex secret payload)) /\
  (validate_signature payload h secret = Raise TypeError <-> exists s, h = Some s /\ is_ascii s = false).
Proof.
  split; [apply validate_true|]. unfold validate_signature. split.
  - destruct h as [[|c s]|]; [done| |done]. unfold compare_digest. rewrite expected_ascii. cbn [andb].
    destruct (is_ascii (String c s)) eqn:E; [done|]. intros _. by eexists.
  - intros ([|c s] & -> & Hs); [done|]. unfold compare_digest. by rewrite expected_ascii, Hs.
Qed.

(** What is logged of a delivery stays on one line. *)
Lemma remove_char_spec c s : string_Forall (fun d => d <> c) (remove_char c s).
Proof.
  induction s as [|d s IH]; cbn; [done|]. destruct (Ascii.eqb_spec d c); [done|]. split; done.
Qed.

Lemma remove_char_keeps (P : ascii -> Prop) c s : string_Forall P s -> string_Forall P (remove_char c s).
Proof.
  induction s as [|d s IH]; cbn; [done|]. intros [Hd Hs]. destruct (Ascii.eqb d c); [auto|]. split; auto.
Qed.

Theorem logged_on_one_line `{FloatRepr} v :
  string_Forall (fun c => c <> CR) (_sanitize_for_log v) /\ string_Forall (fun c => c <> LF) (_sanitize_for_log v).
Proof.
  destruct v; (split; [try apply remove_char_keeps, remove_char_spec|try apply remove_char_spec]); done.
Qed.

(** ** Witnesses *)

Definition demo_body : string := q "{'ref': 'refs/heads/main', 'repository': {'full_name': 'o/r'}}".
Definition demo_request : request :=
  mkRequest demo_body (Some ("sha256=" +:+ hmac_hex "k" demo_body)) (Some "push").
Definition forged_request : request := mkRequest demo_body (Some "sha256=00") (Some "push").
Definition demo_arrival (n : Z) : arrival := mkArrival "2026-01-01T00:00:00+00:00" n "ab".

Lemma queue_holds_signed_pushes_witness :
  let a := serve loads "k" [(demo_arrival 1, demo_request); (demo_arrival 2, forged_request)]
             (mkApp (no_webhooks "t") (queue_of [])) in
  qsize (events a) = 1%nat /\ webhooks_invalid_sig (metrics_of a) = 1.
Proof.
  assert (Ho : clock_ordered (omap (accepted loads "k") [(demo_arrival 1, demo_request); (demo_arrival 2, forged_request)])).
  { assert (E : exists e, omap (accepted loads "k") [(demo_arrival 1, demo_request); (demo_arrival 2, forged_request)] =
       [mkItem 1 "ab" e]) by (eexists; vm_compute; reflexivity).
    destruct E as [e ->]. split; constructor; try constructor; cbn [ns]; lia. }
  pose proof (queue_holds_signed_pushes loads "k" "t" [(demo_arrival 1, demo_request); (demo_arrival 2, forged_request)]
    ltac:(discriminate) Ho) as (_ & Hq & _ & _ & _ & Hi & _).
  intros a. split.
  - etransitivity; [exact Hq|]. vm_compute. reflexivity.
  - etransitivity; [exact Hi|]. vm_compute. reflexivity.
Defined.

(** A push whose payload is a list fails in the handler after it was counted as
    valid, and a signature with a byte beyond ASCII fails in the comparison. *)
Example list_payload_fails :
  let r := mkRequest "[1]" None (Some "push") in
  let ar := webhook loads "" (demo_arrival 1) r (mkApp (no_webhooks "t") (queue_of [])) in
  ar.2 = Raise AttributeError /\ webhooks_valid (metrics_of ar.1) = 1 /\ webhooks_ignored (metrics_of ar.1) = 0.
Proof. vm_compute. auto. Qed.
