(* ===== verification/Effects.v ===== *)
(** * Code with state and exceptions

    A method that reads and changes an object and may raise is a function from
    the state to its result and the state it leaves; what it changed before it
    raised stays changed.  [eff] is that monad, with [try ... except] and the
    lifting of a call on a part of the state.

    [always R m] says that every run of [m], raised or not, relates the states by
    the preorder [R]: append-only logs and counters that never fall are such
    facts, and they follow from the steps by the hints of the database [eff].
    [emits trace m Post] is the rule for code that adds to a trace kept in the
    state: what a run adds, and its result, are in [Post]. *)

From S2P Require Import Prelude.

Definition eff (S A : Type) : Type := S -> res A * S.

Section monad.
Context {S : Type}.

Definition ret {A} (a : A) : eff S A := fun s => (Ok a, s).
Definition bind {A B} (m : eff S A) (k : A -> eff S B) : eff S B := fun s =>
  match m s with
  | (Ok a, s) => k a s
  | (Raise e, s) => (Raise e, s)
  end.

Definition raise {A} (e : exn) : eff S A := fun s => (Raise e, s).
Definition gets {A} (f : S -> A) : eff S A := fun s => (Ok (f s), s).
Definition modify (f : S -> S) : eff S unit := fun s => (Ok tt, f s).
Definition of_res {A} (r : res A) : eff S A := fun s => (r, s).

(** [try: m except Exception as e: h e]. *)
Definition catch {A} (m : eff S A) (h : exn -> eff S A) : eff S A := fun s =>
  match m s with
  | (Ok a, s) => (Ok a, s)
  | (Raise e, s) => h e s
  end.

(** [for x in l: f x]. *)
Fixpoint for_each {A} (f : A -> eff S unit) (l : list A) : eff S unit :=
  match l with
  | [] => ret tt
  | x :: l => bind (f x) (fun _ => for_each f l)
  end.
End monad.

(** A call on the part of the state that a method's object holds. *)
Definition zoom {S T A} (get : S -> T) (set : T -> S -> S) (m : eff T A) : eff S A := fun s =>
  let (r, t) := m (get s) in (r, set t s).

Notation "'do' x <- m ; k" := (bind m (fun x => k)) (at level 200, x name, m at level 100, k at level 200).
Notation "'run' m ; k" := (bind m (fun _ => k)) (at level 200, m at level 100, k at level 200).

Create HintDb eff.

Section always.
Context {S : Type} (R : S -> S -> Prop) `{!PreOrder R}.

Definition always {A} (m : eff S A) : Prop := forall s, R s (m s).2.

Lemma always_ret {A} (a : A) : always (ret a).
Proof. intros s. reflexivity. Qed.

Lemma always_raise {A} e : always (raise (A:=A) e).
Proof. intros s. reflexivity. Qed.

Lemma always_gets {A} (f : S -> A) : always (gets f).
Proof. intros s. reflexivity. Qed.

Lemma always_of_res {A} (r : res A) : always (of_res r).
Proof. intros s. reflexivity. Qed.

Lemma always_bind {A B} (m : eff S A) (k : A -> eff S B) :
  always m -> (forall a, always (k a)) -> always (bind m k).
Proof.
  intros Hm Hk s. specialize (Hm s). unfold bind.
  destruct (m s) as [[a|e] s']; [|exact Hm]. etransitivity; [exact Hm|]. apply Hk.
Qed.

Lemma always_catch {A} (m : eff S A) h : always m -> (forall e, always (h e)) -> always (catch m h).
Proof.
  intros Hm Hh s. specialize (Hm s). unfold catch. destruct (m s) as [[a|e] s']; [exact Hm|].
  etransitivity; [exact Hm|]. apply Hh.
Qed.

Lemma always_for_each {A} (f : A -> eff S unit) l : (forall x, always (f x)) -> always (for_each f l).
Proof. intros Hf. induction l as [|x l IH]; [apply always_ret|]. apply always_bind; [done|]. intros _. exact IH. Qed.

Lemma always_if {A} (b : bool) (m1 m2 : eff S A) : always m1 -> always m2 -> always (if b then m1 else m2).
Proof. by destruct b. Qed.

(** A call on a part that the relation does not look at. *)
Lemma always_zoom {T A} (get : S -> T) set (m : eff T A) :
  (forall t s, R s (set t s)) -> always (zoom get set m).
Proof. intros Hset s. unfold zoom. destruct (m (get s)) as [r t]. apply Hset. Qed.
End always.

#[export] Hint Resolve always_ret always_raise always_gets always_of_res always_bind always_catch always_for_each
  always_if : eff.

(** Runs that end with a value. *)
Lemma bind_ok {S A B} (m : eff S A) (k : A -> eff S B) s b s' :
  bind m k s = (Ok b, s') <-> exists a s1, m s = (Ok a, s1) /\ k a s1 = (Ok b, s').
Proof.
  unfold bind. split.
  - destruct (m s) as [[a|e] s1]; [|done]. eauto.
  - intros (a & s1 & -> & H). exact H.
Qed.

(** ** Code that leaves a part of the state alone *)

Section silent.
Context {S X : Type} (view : S -> X).

Definition silent {A} (m : eff S A) : Prop := forall s, view (m s).2 = view s.

Lemma silent_ret {A} (a : A) : silent (ret a).
Proof. by intros s. Qed.

Lemma silent_bind {A B} (m : eff S A) (k : A -> eff S B) : silent m -> (forall a, silent (k a)) -> silent (bind m k).
Proof.
  intros Hm Hk s. specialize (Hm s). unfold bind. destruct (m s) as [[a|e] s1]; cbn [snd] in *; [|done].
  by rewrite Hk.
Qed.

Lemma silent_catch {A} (m : eff S A) h : silent m -> (forall e, silent (h e)) -> silent (catch m h).
Proof.
  intros Hm Hh s. specialize (Hm s). unfold catch. destruct (m s) as [[a|e] s1]; cbn [snd] in *; [done|]. by rewrite Hh.
Qed.
End silent.

(** ** Traces *)

Section emits.
Context {S E : Type} (trace : S -> list E).

Definition emits {A} (m : eff S A) (Post : res A -> list E -> Prop) : Prop :=
  forall s, exists l, trace (m s).2 = trace s ++ l /\ Post (m s).1 l.

Lemma emits_bind {A B} (m : eff S A) (k : A -> eff S B) Mid Post :
  emits m Mid -> (forall a l, Mid (Ok a) l -> emits (k a) (fun r l' => Post r (l ++ l'))) ->
  (forall e l, Mid (Raise e) l -> Post (Raise e) l) -> emits (bind m k) Post.
Proof.
  intros Hm Hk He s. destruct (Hm s) as (l & Ht & Hp). unfold bind. destruct (m s) as [[a|e] s1]; cbn [fst snd] in *.
  - destruct (Hk a l Hp s1) as (l' & Ht' & Hp'). exists (l ++ l'). split; [by rewrite Ht', Ht, app_assoc|done].
  - exists l. auto.
Qed.

Lemma emits_catch {A} (m : eff S A) h Mid Post :
  emits m Mid -> (forall a l, Mid (Ok a) l -> Post (Ok a) l) ->
  (forall e l, Mid (Raise e) l -> emits (h e) (fun r l' => Post r (l ++ l'))) -> emits (catch m h) Post.
Proof.
  intros Hm Hk He s. destruct (Hm s) as (l & Ht & Hp). unfold catch. destruct (m s) as [[a|e] s1]; cbn [fst snd] in *.
  - exists l. auto.
  - destruct (He e l Hp s1) as (l' & Ht' & Hp'). exists (l ++ l'). split; [by rewrite Ht', Ht, app_assoc|done].
Qed.

Lemma emits_mono {A} (m : eff S A) (P Q : res A -> list E -> Prop) :
  emits m P -> (forall r l, P r l -> Q r l) -> emits m Q.
Proof. intros Hm H s. destruct (Hm s) as (l & ? & ?). eauto. Qed.

(** Code that leaves the trace alone. *)
Lemma emits_silent {A} (m : eff S A) (Post : res A -> list E -> Prop) :
  silent trace m -> (forall s, Post (m s).1 []) -> emits m Post.
Proof. intros Hm Hp s. exists []. rewrite app_nil_r. auto. Qed.

End emits.
