(* ===== verification/DevOps.v ===== *)
(** * The DevOps orchestrator

    Models [automation/devops_orchestrator.py]: the phases of a repository, the
    steps of a phase and the retries of a step.  The configuration is the mapping
    the YAML file holds.  A shell command is [shell], which ends with an exit
    code or raises (a timeout included) and changes the world; the limiter is
    [acquire], absent when there is none. *)

From S2P Require Import Prelude PyVal Policy Effects.
Local Open Scope string_scope.
Local Open Scope Z_scope.

Definition MAX_RETRIES : nat := 3.

Record devops_metrics := mkDevOps {
  builds : Z;
  tests_run : Z;
  deploys : Z;
  rollbacks : Z;
  failures : Z;
  retries : Z
}.

Definition no_devops : devops_metrics := mkDevOps 0 0 0 0 0 0.

Definition add_build (m : devops_metrics) := mkDevOps (builds m + 1) (tests_run m) (deploys m) (rollbacks m) (failures m) (retries m).
Definition add_test (m : devops_metrics) := mkDevOps (builds m) (tests_run m + 1) (deploys m) (rollbacks m) (failures m) (retries m).
Definition add_deploy (m : devops_metrics) := mkDevOps (builds m) (tests_run m) (deploys m + 1) (rollbacks m) (failures m) (retries m).
Definition add_rollback (m : devops_metrics) := mkDevOps (builds m) (tests_run m) (deploys m) (rollbacks m + 1) (failures m) (retries m).
Definition add_failure (m : devops_metrics) := mkDevOps (builds m) (tests_run m) (deploys m) (rollbacks m) (failures m + 1) (retries m).
Definition add_retry (m : devops_metrics) := mkDevOps (builds m) (tests_run m) (deploys m) (rollbacks m) (failures m) (retries m + 1).

(** [d.get(k, default)] on a value that has to be a mapping, for any key. *)
Definition get_key (d k dflt : pyval) : res pyval :=
  match d with PDict d => get_any d k dflt | _ => Raise AttributeError end.

Section orchestrator.
Context {W : Type}.
Variable shell : pyval -> W -> res Z * W.
Variable acquire : option (Z -> W -> res bool * W).
Variable config : pyval.
Variable dry_run : bool.

Record orchestrator := mkOrchestrator {
  o_metrics : devops_metrics;
  (** the delays slept so far, in seconds *)
  o_slept : list Z;
  o_world : W
}.

Definition count (f : devops_metrics -> devops_metrics) : eff orchestrator unit :=
  modify (fun o => mkOrchestrator (f (o_metrics o)) (o_slept o) (o_world o)).
Definition sleep (d : Z) : eff orchestrator unit :=
  modify (fun o => mkOrchestrator (o_metrics o) (o_slept o ++ [d])%list (o_world o)).
Definition on_world {A} (m : eff W A) : eff orchestrator A :=
  zoom o_world (fun w o => mkOrchestrator (o_metrics o) (o_slept o) w) m.

Definition _steps_for (repo : pyval) (phase : string) : res (list pyval) :=
  repo_cfg ← get_key config repo (PDict []);
  steps ← py_get repo_cfg phase (PList []);
  py_iter steps.

(** The attempts from [attempt] on, [more] of them at most. *)
Fixpoint attempts (step : pyval) (attempt more : nat) : eff orchestrator bool :=
  match more with
  | O => ret false
  | S more =>
    if dry_run then ret true
    else
      do ok <- catch (do code <- on_world (shell step); ret (code =? 0)) (fun _ => ret false);
      if ok then ret true
      else
        run if Nat.ltb attempt MAX_RETRIES
            then run count add_retry; sleep (2 ^ Z.of_nat attempt) else ret tt;
        attempts step (S attempt) more
  end.

Definition _run_step (step : pyval) : eff orchestrator bool := attempts step 1 MAX_RETRIES.

Fixpoint run_each (steps : list pyval) : eff orchestrator bool :=
  match steps with
  | [] => ret true
  | step :: steps =>
    do ok <- _run_step step;
    if ok then run_each steps else run count add_failure; ret false
  end.

Definition _run_steps (phase : string) (steps : list pyval) : eff orchestrator bool :=
  match steps with
  | [] => ret true
  | _ =>
    run match acquire with Some acq => run on_world (acq 1); ret tt | None => ret tt end;
    run if String.eqb phase "build" then count add_build else ret tt;
    run_each steps
  end.

Definition rebuild (repo : pyval) : eff orchestrator bool :=
  do steps <- of_res (_steps_for repo "build");
  _run_steps "build" steps.

Definition test (repo : pyval) : eff orchestrator bool :=
  do steps <- of_res (_steps_for repo "test");
  do result <- _run_steps "test" steps;
  run count add_test;
  ret result.

(** The steps of an environment, or those of any deployment. *)
Definition deploy_steps (repo : pyval) (environment : string) : res (list pyval) :=
  steps ← _steps_for repo ("deploy_" +:+ environment);
  match steps with [] => _steps_for repo "deploy" | _ => Ok steps end.

Definition deploy (repo : pyval) (environment : string) : eff orchestrator bool :=
  do steps <- of_res (deploy_steps repo environment);
  do result <- _run_steps ("deploy:" +:+ environment) steps;
  run if (result : bool) then count add_deploy else ret tt;
  ret result.

Definition rollback (repo : pyval) : eff orchestrator bool :=
  do steps <- of_res (_steps_for repo "rollback");
  do result <- _run_steps "rollback" steps;
  run if (result : bool) then count add_rollback else ret tt;
  ret result.

Definition fips_validate (repo : pyval) : eff orchestrator bool :=
  do steps <- of_res (_steps_for repo "fips_validate");
  match steps with [] => ret true | _ => _run_steps "fips_validate" steps end.
End orchestrator.

Arguments orchestrator : clear implicits.

(** ** What a phase does *)

Section phases.
Context {W : Type}.
Variable shell : pyval -> W -> res Z * W.
Variable acquire : option (Z -> W -> res bool * W).
Variable config : pyval.

(** The world after [n] runs of a command, and whether the next run exits with 0. *)
Definition after_runs (step : pyval) (n : nat) (w : W) : W := Nat.iter n (fun w => (shell step w).2) w.
Definition succeeds (step : pyval) (w : W) : bool :=
  match (shell step w).1 with Ok code => code =? 0 | Raise _ => false end.
Definition exits_0 (step : pyval) (n : nat) (w : W) : bool := succeeds step (after_runs step n w).

(** A step ends with its first success, or with its third failure. *)
Inductive step_run (step : pyval) (w : W) : bool -> nat -> W -> Prop :=
| step_succeeds k : (k < MAX_RETRIES)%nat -> (forall j, (j < k)%nat -> exits_0 step j w = false) -> exits_0 step k w = true ->
    step_run step w true k (after_runs step (S k) w)
| step_fails : (forall j, (j < MAX_RETRIES)%nat -> exits_0 step j w = false) ->
    step_run step w false 2 (after_runs step MAX_RETRIES w).

(** The steps of a phase run in order up to the first that fails; [n] counts the
    retries. *)
Inductive steps_run : list pyval -> W -> bool -> nat -> W -> Prop :=
| steps_done w : steps_run [] w true 0 w
| steps_next step steps w k w1 b n w2 :
    step_run step w true k w1 -> steps_run steps w1 b n w2 -> steps_run (step :: steps) w b (k + n) w2
| steps_stop step steps w k w1 :
    step_run step w false k w1 -> steps_run (step :: steps) w false k w1.

Lemma attempt_once step attempt more o :
  attempts shell false step attempt (S more) o =
  let o1 := mkOrchestrator (o_metrics o) (o_slept o) (shell step (o_world o)).2 in
  if succeeds step (o_world o) then (Ok true, o1)
  else attempts shell false step (S attempt) more
         (if Nat.ltb attempt MAX_RETRIES
          then mkOrchestrator (add_retry (o_metrics o)) (o_slept o ++ [2 ^ Z.of_nat attempt])%list (o_world o1)
          else o1).
Proof.
  cbn [attempts]. unfold succeeds, bind, catch, on_world, zoom, ret.
  destruct (shell step (o_world o)) as [[code|e] w]; cbn; [destruct (code =? 0)|]; try done;
    destruct (Nat.leb attempt 2); reflexivity.
Qed.

(** The delays before the retries, and the metrics after [k] of them. *)
Definition delays (k : nat) : list Z := take k [2; 4].

Lemma run_step_spec step o :
  exists b k w, step_run step (o_world o) b k w /\ (k <= 2)%nat /\
    _run_step shell false step o = (Ok b, mkOrchestrator (Nat.iter k add_retry (o_metrics o)) (o_slept o ++ delays k)%list w).
Proof.
  unfold _run_step, MAX_RETRIES. destruct o as [m sl w].
  rewrite attempt_once. cbv zeta. cbn [o_world o_metrics o_slept].
  destruct (succeeds step w) eqn:H0.
  { exists true, 0%nat, (shell step w).2. split_and!; [|lia|by rewrite app_nil_r].
    apply (step_succeeds step w 0); [unfold MAX_RETRIES; lia|lia|done]. }
  change (Nat.ltb 1 MAX_RETRIES) with true. cbn iota. rewrite attempt_once. cbv zeta. cbn [o_world o_metrics o_slept].
  destruct (succeeds step (shell step w).2) eqn:H1.
  { exists true, 1%nat, (shell step (shell step w).2).2. split_and!; [|lia|done].
    apply (step_succeeds step w 1); [unfold MAX_RETRIES; lia|intros [|j] Hj; [done|lia]|done]. }
  change (Nat.ltb 2 MAX_RETRIES) with true. cbn iota. rewrite attempt_once. cbv zeta. cbn [o_world o_metrics o_slept].
  rewrite <- app_assoc. destruct (succeeds step (shell step (shell step w).2).2) eqn:H2.
  - exists true, 2%nat, (shell step (shell step (shell step w).2).2).2. split_and!; [|lia|done].
    apply (step_succeeds step w 2); [unfold MAX_RETRIES; lia|intros [|[|j]] Hj; [done|done|lia]|done].
  - exists false, 2%nat, (shell step (shell step (shell step w).2).2).2. split_and!; [|lia|done].
    apply (step_fails step w). unfold MAX_RETRIES. intros [|[|[|j]]] Hj; [done|done|done|lia].
Qed.

Definition total (l : list Z) : Z := foldr Z.add 0 l.

Lemma total_app l l' : total (l ++ l') = total l + total l'.
Proof. unfold total. induction l as [|x l IH]; cbn [foldr app]; lia. Qed.

Lemma iter_retry k m : Nat.iter k add_retry m = mkDevOps (builds m) (tests_run m) (deploys m) (rollbacks m) (failures m) (retries m + Z.of_nat k).
Proof.
  induction k as [|k IH]; [destruct m; cbn; f_equal; lia|]. rewrite Nat.iter_succ, IH. unfold add_retry. cbn -[Z.of_nat]. f_equal. lia.
Qed.

Lemma run_each_spec steps : forall o,
  exists b n o', run_each shell false steps o = (Ok b, o') /\ steps_run steps (o_world o) b n (o_world o') /\
    (n <= 2 * length steps)%nat /\ retries (o_metrics o') = retries (o_metrics o) + Z.of_nat n /\
    failures (o_metrics o') = failures (o_metrics o) + (if b then 0 else 1) /\
    total (o_slept o') <= total (o_slept o) + 6 * Z.of_nat (length steps).
Proof.
  induction steps as [|step steps IH]; intros o.
  { exists true, 0%nat, o. cbn. split_and!; [done|constructor|lia..]. }
  destruct (run_step_spec step o) as (b & k & w & Hrun & Hk & E).
  cbn [run_each]. unfold bind at 1. rewrite E, iter_retry.
  assert (Hd : total (delays k) <= 6) by (destruct k as [|[|[|k]]]; cbn; lia).
  destruct b.
  - destruct (IH (mkOrchestrator (mkDevOps (builds (o_metrics o)) (tests_run (o_metrics o)) (deploys (o_metrics o))
       (rollbacks (o_metrics o)) (failures (o_metrics o)) (retries (o_metrics o) + Z.of_nat k)) (o_slept o ++ delays k)%list w))
      as (b & n & o' & E' & Hs & Hn & Hr & Hf & Hsl).
    cbn [o_world o_metrics o_slept retries failures] in *. rewrite total_app in Hsl.
    exists b, (k + n)%nat, o'. split_and!; [exact E'|by eapply steps_next|cbn [length]; lia..].
  - eexists false, k, _. split; [reflexivity|]. cbn [o_world o_metrics o_slept retries failures add_failure].
    rewrite total_app. split_and!; [by apply steps_stop|cbn [length]; lia..].
Qed.

(** The call of the limiter before a phase: its answer is not looked at. *)
Definition charged (w : W) : W := match acquire with Some acq => (acq 1 w).2 | None => w end.
Definition limiter_returns (w : W) : Prop := match acquire with Some acq => is_ok (acq 1 w).1 = true | None => True end.

Lemma run_steps_charged phase step steps o :
  limiter_returns (o_world o) ->
  exists m, retries m = retries (o_metrics o) /\ failures m = failures (o_metrics o) /\
    _run_steps shell acquire false phase (step :: steps) o =
    run_each shell false (step :: steps) (mkOrchestrator m (o_slept o) (charged (o_world o))).
Proof.
  intros Hl. unfold _run_steps, limiter_returns, charged, on_world, zoom in *. destruct o as [m sl w]. cbn [o_world o_metrics o_slept] in *.
  exists (if String.eqb phase "build" then add_build m else m). split; [by destruct (String.eqb _ _)|]. split; [by destruct (String.eqb _ _)|].
  unfold bind at 1. destruct acquire as [acq|].
  - unfold bind at 1. cbn [o_world]. destruct (acq 1 w) as [[b|e] w']; [|done]. cbn [snd].
    unfold bind at 1. by destruct (String.eqb phase "build").
  - unfold bind at 1. by destruct (String.eqb phase "build").
Qed.
End phases.

(** ** Properties *)

(** A phase always ends, within bounds, and its answer is what its commands
    did.  Whatever the commands do and however the limiter answers, running the
    steps of a phase returns: true exactly when every step exited with 0 within
    three attempts, the steps after a failed one not being run at all; there are
    at most two retries a step, at most six seconds slept for each, the retries
    are all counted, and one failure is counted exactly when the phase failed. *)
Theorem phase_bounded {W} (shell : pyval -> W -> res Z * W) acquire phase steps o :
  limiter_returns acquire (o_world o) ->
  exists b n o', _run_steps shell acquire false phase steps o = (Ok b, o') /\
    steps_run shell steps (match steps with [] => o_world o | _ => charged acquire (o_world o) end) b n (o_world o') /\
    (n <= 2 * length steps)%nat /\ retries (o_metrics o') = retries (o_metrics o) + Z.of_nat n /\
    failures (o_metrics o') = failures (o_metrics o) + (if b then 0 else 1) /\
    total (o_slept o') <= total (o_slept o) + 6 * Z.of_nat (length steps).
Proof.
  intros Hl. destruct steps as [|step steps].
  { destruct (run_each_spec shell [] o) as (b & n & o' & E & H). exists b, n, o'. split; [exact E|exact H]. }
  destruct (run_steps_charged shell acquire phase step steps o Hl) as (m & Hr & Hf & ->).
  destruct (run_each_spec shell (step :: steps) (mkOrchestrator m (o_slept o) (charged acquire (o_world o)))) as (b & n & o' & E & H).
  cbn [o_world o_metrics o_slept] in H. rewrite Hr, Hf in H. exists b, n, o'. split; [exact E|exact H].
Qed.

(** The relation determines its result, so the answer of a phase is a function
    of its commands. *)
Lemma step_run_det {W} (shell : pyval -> W -> res Z * W) step w b k w1 b' k' w1' :
  step_run shell step w b k w1 -> step_run shell step w b' k' w1' -> b = b' /\ w1 = w1'.
Proof.
  intros [j Hj Hlt Hok|Hno] [j' Hj' Hlt' Hok'|Hno'].
  - destruct (Nat.lt_total j j') as [H|[<-|H]]; [|done|]; [rewrite Hlt' in Hok|rewrite Hlt in Hok']; done.
  - by rewrite Hno' in Hok.
  - by rewrite Hno in Hok'.
  - done.
Qed.

Theorem steps_run_det {W} (shell : pyval -> W -> res Z * W) steps w b n w1 :
  steps_run shell steps w b n w1 -> forall b' n' w1', steps_run shell steps w b' n' w1' -> b = b' /\ w1 = w1'.
Proof.
  induction 1 as [w|step steps w k w1 b n w2 Hs Hr IH|step steps w k w1 Hs]; intros b' n' w1' H'; inversion H' as [|? ? ? ? w3 ? ? ? Hs' Hr'|? ? ? ? ? Hs']; subst.
  - done.
  - destruct (step_run_det _ _ _ _ _ _ _ _ _ Hs Hs') as [_ <-]. by eapply IH.
  - by destruct (step_run_det _ _ _ _ _ _ _ _ _ Hs Hs').
  - by destruct (step_run_det _ _ _ _ _ _ _ _ _ Hs Hs').
  - by destruct (step_run_det _ _ _ _ _ _ _ _ _ Hs Hs').
Qed.

(** ** Witnesses *)

(** A shell that succeeds on every third call. *)
Definition flaky_shell (step : pyval) (w : nat) : res Z * nat :=
  (if Nat.eqb (w mod 3) 2 then Ok 0 else Raise (OtherError "timeout"), S w).

Lemma phase_bounded_witness :
  exists b n o', _run_steps flaky_shell None false "build" [PStr "make"; PStr "make check"]
      (mkOrchestrator no_devops [] 0%nat) = (Ok b, o') /\
    steps_run flaky_shell [PStr "make"; PStr "make check"] 0%nat b n (o_world o').
Proof.
  destruct (phase_bounded flaky_shell None "build" [PStr "make"; PStr "make check"] (mkOrchestrator no_devops [] 0%nat) I)
    as (b & n & o' & E & H & _).
  exists b, n, o'. exact (conj E H).
Defined.

Example flaky_phase :
  _run_steps flaky_shell None false "build" [PStr "make"; PStr "make check"] (mkOrchestrator no_devops [] 0%nat)
  = (Ok true, mkOrchestrator (mkDevOps 1 0 0 0 0 4) [2; 4; 2; 4] 6%nat).
Proof. vm_compute. reflexivity. Qed.
