(* ===== verification/PropagationHandler.v ===== *)
(** * The propagation handler

    Models [automation/propagation_handler.py]: a push event taken from the queue
    is classified by the files it touched and propagated to every dependent of
    its repository through the pipeline of [DevOps] (or any object with the same
    four methods: [pipeline] is that interface).

    The handler keeps counters and an event log; the pipeline, the limiter and
    the clock act on a world of any type.  The text of an exception is the
    argument [str_exc].  Lower-casing is that of ASCII letters. *)

From S2P Require Import Prelude PyVal PyText Effects DevOps.
Local Open Scope string_scope.
Local Open Scope Z_scope.

Inductive change := Code | Deps | Contracts.

#[global] Instance change_eq_dec : EqDecision change.
Proof. solve_decision. Defined.

Definition change_name (c : change) : string :=
  match c with Code => "code" | Deps => "deps" | Contracts => "contracts" end.

(** ** The class of a change *)

Definition files_of (commit : pyval) : res (list pyval) :=
  added ← py_get commit "added" (PList []); added ← py_iter added;
  modified ← py_get commit "modified" (PList []); modified ← py_iter modified;
  removed ← py_get commit "removed" (PList []); removed ← py_iter removed;
  Ok (added ++ modified ++ removed)%list.

Definition changed_files (event : pyval) : res (list pyval) :=
  payload ← py_get event "payload" (PDict []);
  commits ← py_get payload "commits" (PList []);
  commits ← py_iter commits;
  res_fold (fun fs commit => f ← files_of commit; Ok (fs ++ f)%list) [] commits.

Definition any_in (words : list string) (s : string) : bool := existsb (fun w => substring_of w s) words.

Definition classify_paths (paths : string) : change :=
  if any_in ["contract"; "api"; "schema"; "spec"] paths then Contracts
  else if any_in ["requirements"; "package.json"; "go.mod"; "deps"] paths then Deps
  else Code.

Definition _classify_change (event : pyval) : res change :=
  files ← changed_files event;
  paths ← py_join " " files;
  Ok (classify_paths (py_lower paths)).

(** ** The pipeline a handler drives *)

Record pipeline (W : Type) := mkPipeline {
  p_rebuild : pyval -> eff W bool;
  p_test : pyval -> eff W bool;
  p_deploy : pyval -> string -> eff W bool;
  p_rollback : pyval -> eff W bool
}.
Arguments mkPipeline {W}.
Arguments p_rebuild {W}.
Arguments p_test {W}.
Arguments p_deploy {W}.
Arguments p_rollback {W}.

(** The orchestrator as a pipeline. *)
Definition devops {W} (shell : pyval -> W -> res Z * W) acquire config dry_run : pipeline (orchestrator W) :=
  mkPipeline (rebuild shell acquire config dry_run) (test shell acquire config dry_run)
    (deploy shell acquire config dry_run) (rollback shell acquire config dry_run).

(** ** The handler *)

Definition tallies := list (string * Z).

Definition zero_metrics : tallies :=
  [("events_received", 0); ("dependents_triggered", 0); ("rebuilds", 0); ("tests_run", 0); ("deploys_staging", 0);
   ("deploys_prod", 0); ("rollbacks", 0); ("failures", 0)].

(** [self._metrics[k] += 1] for a key that is there. *)
Definition bump (k : string) (m : tallies) : tallies :=
  map (fun kv => if String.eqb kv.1 k then (kv.1, kv.2 + 1) else kv) m.

Section handler.
Context {W : Type}.
Variable registry : pyval.
Variable orch : option (pipeline W).
Variable acquire : option (Z -> eff W bool).
Variable _now_iso : W -> string * W.
Variable str_exc : exn -> string.

Record handler := mkHandler { h_metrics : tallies; event_log : list pyval; h_world : W }.

Definition inc (k : string) : eff handler unit :=
  modify (fun h => mkHandler (bump k (h_metrics h)) (event_log h) (h_world h)).
Definition outside {A} (m : eff W A) : eff handler A :=
  zoom h_world (fun w h => mkHandler (h_metrics h) (event_log h) w) m.

Definition now_iso : eff handler string := outside (fun w => let (t, w) := _now_iso w in (Ok t, w)).

Definition _log (action : string) (repo details : pyval) : eff handler unit :=
  do now <- now_iso;
  modify (fun h => mkHandler (h_metrics h)
    (event_log h ++ [PDict [("timestamp", PStr now); ("action", PStr action); ("repo", repo); ("details", details)]])%list
    (h_world h)).

(** A method of the pipeline, [dflt] when there is none. *)
Definition pipeline_call (dflt : bool) (m : pipeline W -> eff W bool) : eff handler bool :=
  match orch with Some o => outside (m o) | None => ret dflt end.

Definition _trigger_rebuild (repo source : pyval) : eff handler unit :=
  run inc "rebuilds";
  run pipeline_call true (fun o => p_rebuild o repo);
  _log "rebuild" repo (PDict [("source", source)]).

Definition _trigger_tests (repo source : pyval) : eff handler bool :=
  run inc "tests_run";
  pipeline_call true (fun o => p_test o repo).

Definition _deploy_staging (repo source : pyval) : eff handler bool :=
  run inc "deploys_staging";
  pipeline_call true (fun o => p_deploy o repo "staging").

Definition _deploy_prod (repo source : pyval) : eff handler unit :=
  run inc "deploys_prod";
  run pipeline_call true (fun o => p_deploy o repo "prod");
  _log "deploy_prod" repo (PDict [("source", source)]).

Definition _rollback (repo source : pyval) (reason : string) : eff handler unit :=
  run inc "rollbacks";
  run pipeline_call true (fun o => p_rollback o repo);
  _log "rollback" repo (PDict [("source", source); ("reason", PStr reason)]).

(** The body of the [try]; each test that fails ends it after a rollback. *)
Definition attempt_propagation (source dependent : pyval) (c : change) : eff handler unit :=
  run _trigger_rebuild dependent source;
  do test_ok <- (match c with Code => ret true | _ => _trigger_tests dependent source end);
  if negb test_ok then _rollback dependent source "test failure"
  else
    do staging_ok <- (match c with Contracts => _deploy_staging dependent source | _ => ret true end);
    if negb staging_ok then _rollback dependent source "staging failure"
    else
      run match c with Contracts => _deploy_prod dependent source | _ => ret tt end;
      _log "propagation_success" source (PDict [("dependent", dependent); ("change_type", PStr (change_name c))]).

Definition _propagate_to (source dependent : pyval) (c : change) : eff handler unit :=
  run inc "dependents_triggered";
  do granted <- (match acquire with Some acq => outside (acq 10) | None => ret true end);
  if negb granted then ret tt
  else catch (attempt_propagation source dependent c) (fun exc =>
    run inc "failures";
    run _log "propagation_failure" source (PDict [("dependent", dependent); ("error", PStr (str_exc exc))]);
    _rollback dependent source (str_exc exc)).

Definition handle (event : pyval) : eff handler unit :=
  run inc "events_received";
  do repo <- of_res (py_get event "repo" (PStr ""));
  do now <- now_iso;
  do received_at <- of_res (py_get event "received_at" (PStr now));
  do ref <- of_res (py_get event "ref" (PStr ""));
  run _log "received" repo (PDict [("ref", ref); ("received_at", received_at)]);
  do repo_meta <- of_res (get_key registry repo PNone);
  match repo_meta with
  | PNone => ret tt
  | _ =>
    do dependents <- of_res (py_get repo_meta "dependents" (PList []));
    if negb (truthy dependents) then ret tt
    else
      do c <- of_res (_classify_change event);
      do ds <- of_res (py_iter dependents);
      for_each (fun d => _propagate_to repo d c) ds
  end.
End handler.

Arguments handler : clear implicits.

(** ** The protocol of a propagation

    What the pipeline sees of one propagation, as a state machine: where the
    dependent is, and where a call and its result take it. *)

Inductive verb := Rebuild | Test | Staging | Prod | Rollback.
Definition step := (verb * res bool)%type.

Inductive phase :=
| Start | Built | Tested | Staged | Live
(** a check answered no, or a call raised: a rollback is due *)
| Failed | Crashed
| Undone | Abandoned.

Definition next (c : change) (ph : phase) (s : step) : option phase :=
  match ph, s with
  | Start, (Rebuild, r) => Some (if is_ok r then Built else Crashed)
  | Built, (Test, r) =>
    if decide (c = Code) then None
    else Some (match r with Ok true => Tested | Ok false => Failed | Raise _ => Crashed end)
  | Tested, (Staging, r) =>
    if decide (c = Contracts) then Some (match r with Ok true => Staged | Ok false => Failed | Raise _ => Crashed end)
    else None
  | Staged, (Prod, r) => Some (if is_ok r then Live else Crashed)
  | Failed, (Rollback, r) => Some (if is_ok r then Undone else Crashed)
  | Crashed, (Rollback, r) => Some (if is_ok r then Undone else Abandoned)
  | _, _ => None
  end.

Fixpoint machine (c : change) (ph : phase) (l : list step) : option phase :=
  match l with
  | [] => Some ph
  | s :: l => match next c ph s with Some ph => machine c ph l | None => None end
  end.

(** Where a propagation that was not interrupted ends. *)
Definition goal (c : change) : phase := match c with Code => Built | Deps => Tested | Contracts => Live end.

Lemma machine_app c l l' ph ph1 : machine c ph l = Some ph1 -> machine c ph (l ++ l') = machine c ph1 l'.
Proof.
  revert ph. induction l as [|s l IH]; intros ph; cbn [machine app]; [by intros E; apply (inj Some) in E; rewrite E|].
  destruct (next c ph s); [apply IH|done].
Qed.

(** Once something went wrong only rollbacks follow. *)
Definition wrong (ph : phase) : bool :=
  match ph with Failed | Crashed | Undone | Abandoned => true | _ => false end.

Lemma machine_wrong c l : forall ph ph', wrong ph = true -> machine c ph l = Some ph' -> Forall (fun s => s.1 = Rollback) l.
Proof.
  induction l as [|[v r] l IH]; intros ph ph' Hw; [constructor|]. cbn [machine].
  destruct ph; try done; destruct v; try done; cbn [next]; intros H; constructor; try done;
    (eapply IH; [|exact H]); by destruct (is_ok r).
Qed.

Lemma machine_live c l ph : machine c Live l = Some ph -> l = [].
Proof. destruct l as [|[[] r] l]; done. Qed.

(** Only a contract change that passed its tests and its staging reaches
    production. *)
Lemma machine_prod c l ph r :
  machine c Start l = Some ph -> (Prod, r) ∈ l ->
  c = Contracts /\ exists b l',
    l = (Rebuild, Ok b) :: (Test, Ok true) :: (Staging, Ok true) :: (Prod, r) :: l' /\ Forall (fun s => s.1 = Rollback) l'.
Proof.
  assert (Hno : forall ph0 l0, wrong ph0 = true -> machine c ph0 l0 = Some ph -> (Prod, r) ∉ l0).
  { intros ph0 l0 Hw Hm Hin. pose proof (machine_wrong _ _ _ _ Hw Hm) as Hf. rewrite Forall_forall in Hf. by apply Hf in Hin. }
  intros Hm Hin.
  destruct l as [|[[] r0] l]; cbn [machine next] in Hm; try done; [by apply elem_of_nil in Hin|].
  apply elem_of_cons in Hin as [|Hin]; [done|]. destruct r0 as [b|e]; cbn [is_ok] in Hm; [|by apply Hno in Hm].
  destruct l as [|[[] r0] l]; cbn [machine next] in Hm; try done; [by apply elem_of_nil in Hin|].
  apply elem_of_cons in Hin as [|Hin]; [done|]. destruct (decide (c = Code)); [done|].
  destruct r0 as [[]|e]; [|by apply Hno in Hm..].
  destruct l as [|[[] r0] l]; cbn [machine next] in Hm; try done; [by apply elem_of_nil in Hin|].
  apply elem_of_cons in Hin as [|Hin]; [done|]. destruct (decide (c = Contracts)) as [Hc|]; [|done].
  destruct r0 as [[]|e]; [|by apply Hno in Hm..].
  destruct l as [|[[] r0] l]; cbn [machine next] in Hm; try done; [by apply elem_of_nil in Hin|].
  split; [done|]. exists b, l. destruct r0 as [b'|e]; cbn [is_ok] in Hm.
  - apply machine_live in Hm as ->. apply list_elem_of_singleton in Hin. by rewrite Hin.
  - pose proof (machine_wrong _ _ _ _ (eq_refl : wrong Crashed = true) Hm) as Hf.
    apply elem_of_cons in Hin as [->|Hin]; [done|]. rewrite Forall_forall in Hf. by apply Hf in Hin.
Qed.

(** ** A pipeline that keeps the record of its calls *)

Section traced.
Context {W : Type}.

Definition recording := (W * list (pyval * step))%type.

Definition recorded (d : pyval) (v : verb) (m : eff W bool) : eff recording bool := fun wt =>
  let (r, w) := m wt.1 in (r, (w, wt.2 ++ [(d, (v, r))])%list).

Definition deploy_verb (environment : string) : verb := if String.eqb environment "prod" then Prod else Staging.

Definition traced (o : pipeline W) : pipeline recording :=
  mkPipeline (fun d => recorded d Rebuild (p_rebuild o d)) (fun d => recorded d Test (p_test o d))
    (fun d env => recorded d (deploy_verb env) (p_deploy o d env)) (fun d => recorded d Rollback (p_rollback o d)).

Definition quietly {A} (m : eff W A) : eff recording A := zoom fst (fun w wt => (w, wt.2)) m.
End traced.
Arguments recording : clear implicits.

(** ** Propagations follow the protocol *)

Section protocol.
Context {W : Type}.
Variable registry : pyval.
Variable o : pipeline W.
Variable acquire : option (Z -> eff W bool).
Variable _now_iso : W -> string * W.
Variable str_exc : exn -> string.

Abbreviation H := (handler (recording W)).
Abbreviation quiet_now := (fun wt : recording W => let (t, w) := _now_iso wt.1 in (t, (w, wt.2))).
Abbreviation quiet_acquire := (option_map (fun acq z => quietly (acq z)) acquire).

Definition trace (h : H) : list (pyval * step) := (h_world h).2.

(** Run from the phase [ph], [m] makes calls on [d] that the machine follows and
    ends with a result and a phase in [Post]. *)
Definition triple {A} (c : change) (d : pyval) (ph : phase) (m : eff H A) (Post : res A -> phase -> Prop) : Prop :=
  emits trace m (fun r t => exists l ph', t = map (pair d) l /\ machine c ph l = Some ph' /\ Post r ph').

Lemma triple_then_post {A} c d ph ph1 l (m : eff H A) Post :
  machine c ph l = Some ph1 -> triple c d ph1 m Post ->
  emits trace m (fun r t => exists l' ph', map (pair d) l ++ t = map (pair d) l' /\ machine c ph l' = Some ph' /\ Post r ph')%list.
Proof.
  intros Hl Hm. eapply emits_mono; [exact Hm|]. intros r t (l' & ph' & -> & Hl' & Hp).
  exists (l ++ l')%list, ph'. split_and!; [by rewrite map_app|by rewrite (machine_app _ _ _ _ _ Hl)|done].
Qed.

Lemma triple_bind {A B} c d ph (m : eff H A) (k : A -> eff H B) Mid Post :
  triple c d ph m Mid -> (forall a ph1, Mid (Ok a) ph1 -> triple c d ph1 (k a) Post) ->
  (forall e ph1, Mid (Raise e) ph1 -> Post (Raise e) ph1) -> triple c d ph (bind m k) Post.
Proof.
  intros Hm Hk He. eapply emits_bind; [exact Hm| |].
  - intros a t (l & ph1 & -> & Hl & Hp). eapply triple_then_post; [exact Hl|by apply Hk].
  - intros e t (l & ph1 & -> & Hl & Hp). exists l, ph1. auto.
Qed.

Lemma triple_catch {A} c d ph (m : eff H A) hd Mid Post :
  triple c d ph m Mid -> (forall a ph1, Mid (Ok a) ph1 -> Post (Ok a) ph1) ->
  (forall e ph1, Mid (Raise e) ph1 -> triple c d ph1 (hd e) Post) -> triple c d ph (catch m hd) Post.
Proof.
  intros Hm Hk He. eapply emits_catch; [exact Hm| |].
  - intros a t (l & ph1 & -> & Hl & Hp). exists l, ph1. auto.
  - intros e t (l & ph1 & -> & Hl & Hp). eapply triple_then_post; [exact Hl|by apply He].
Qed.

Lemma triple_mono {A} c d ph (m : eff H A) (P Q : res A -> phase -> Prop) :
  triple c d ph m P -> (forall r ph', P r ph' -> Q r ph') -> triple c d ph m Q.
Proof. intros Hm HPQ. eapply emits_mono; [exact Hm|]. intros r t (l & ph' & ? & ? & ?). exists l, ph'. auto. Qed.

(** Code that makes no call of the pipeline. *)
Lemma triple_silent {A} c d ph (m : eff H A) (Post : res A -> phase -> Prop) :
  (forall h, trace (m h).2 = trace h /\ Post (m h).1 ph) -> triple c d ph m Post.
Proof.
  intros Hm. apply emits_silent; [intros h; apply Hm|]. intros h. exists [], ph. split_and!; [done|done|apply Hm].
Qed.

Lemma triple_then {A B} c d ph (m : eff H A) a (k : A -> eff H B) Post :
  (forall h, trace (m h).2 = trace h /\ (m h).1 = Ok a) -> triple c d ph (k a) Post -> triple c d ph (bind m k) Post.
Proof.
  intros Hm Hk. eapply (triple_bind _ _ _ _ _ (fun r ph1 => r = Ok a /\ ph1 = ph)).
  - apply triple_silent. intros h. by destruct (Hm h).
  - intros a' ph1 [E ->]. by injection E as ->.
  - by intros e ph1 [? _].
Qed.

Lemma inc_silent k (h : H) : trace (inc k h).2 = trace h /\ (inc k h).1 = Ok tt.
Proof. done. Qed.

Lemma log_silent action repo details h :
  trace (_log quiet_now action repo details h).2 = trace h /\ (_log quiet_now action repo details h).1 = Ok tt.
Proof.
  unfold _log, now_iso, outside, zoom, bind, modify. destruct h as [m l [w t]]. cbn.
  by destruct (_now_iso w) as [n w'].
Qed.

Lemma triple_call c d ph v (m : pipeline W -> eff W bool) (f : pipeline (recording W) -> eff (recording W) bool) ph' Post :
  f (traced o) = recorded d v (m o) ->
  (forall r, next c ph (v, r) = Some (ph' r) /\ Post r (ph' r)) ->
  triple c d ph (pipeline_call (Some (traced o)) true f) Post.
Proof.
  intros Hf Hn [ms l [w t]]. unfold pipeline_call, outside, zoom. rewrite Hf. unfold recorded. cbn [h_world fst snd].
  destruct (m o w) as [r w'] eqn:E. cbn [fst snd]. destruct (Hn r) as [Hnext Hp].
  eexists. split; [reflexivity|]. exists [(v, r)], (ph' r). split_and!; [done| |done]. cbn [machine]. by rewrite Hnext.
Qed.

(** The method that logs what it did: its result is the phase of its call. *)
Lemma triple_logged {A} c d ph (m : eff H A) action repo details Post :
  triple c d ph m (fun r ph' => Post (match r with Ok _ => Ok tt | Raise e => Raise e end) ph') ->
  triple c d ph (bind m (fun _ => _log quiet_now action repo details)) Post.
Proof.
  intros Hm. eapply triple_bind; [exact Hm| |].
  - intros a ph1 Hp. apply triple_silent. intros h. destruct (log_silent action repo details h) as [-> ->]. done.
  - by intros e ph1 Hp.
Qed.

Abbreviation T := (Some (traced o)).

Lemma triple_rebuild c d source :
  triple c d Start (_trigger_rebuild T quiet_now d source) (fun r ph => ph = if is_ok r then Built else Crashed).
Proof.
  eapply triple_then; [apply inc_silent|]. apply triple_logged.
  apply (triple_call _ _ _ Rebuild (fun o => p_rebuild o d) _ (fun r => if is_ok r then Built else Crashed)); [done|].
  by intros [b|e].
Qed.

Definition judged (ph : phase) (r : res bool) : phase :=
  match r with Ok true => ph | Ok false => Failed | Raise _ => Crashed end.

Lemma triple_tests c d source : c <> Code ->
  triple c d Built (_trigger_tests T d source) (fun r ph => ph = judged Tested r).
Proof.
  intros Hc. eapply triple_then; [apply inc_silent|].
  apply (triple_call _ _ _ Test (fun o => p_test o d) _ (judged Tested)); [done|].
  intros r. cbn [next]. by destruct (decide (c = Code)).
Qed.

Lemma triple_staging d source :
  triple Contracts d Tested (_deploy_staging T d source) (fun r ph => ph = judged Staged r).
Proof.
  eapply triple_then; [apply inc_silent|].
  by apply (triple_call _ _ _ Staging (fun o => p_deploy o d "staging") _ (judged Staged)).
Qed.

Lemma triple_prod d source :
  triple Contracts d Staged (_deploy_prod T quiet_now d source) (fun r ph => ph = if is_ok r then Live else Crashed).
Proof.
  eapply triple_then; [apply inc_silent|]. apply triple_logged.
  apply (triple_call _ _ _ Prod (fun o => p_deploy o d "prod") _ (fun r => if is_ok r then Live else Crashed)); [done|].
  by intros [b|e].
Qed.

Lemma triple_rollback c d source reason ph : ph = Failed \/ ph = Crashed ->
  triple c d ph (_rollback T quiet_now d source reason)
    (fun r ph' => ph' = if is_ok r then Undone else match ph with Failed => Crashed | _ => Abandoned end).
Proof.
  intros Hph. eapply triple_then; [apply inc_silent|]. apply triple_logged.
  apply (triple_call _ _ _ Rollback (fun o => p_rollback o d) _
    (fun r => if is_ok r then Undone else match ph with Failed => Crashed | _ => Abandoned end)); [done|].
  by destruct Hph as [-> | ->]; intros [b|e].
Qed.

(** The end of a propagation that nothing went wrong with. *)
Lemma triple_success c d ph source details Post : Post (Ok tt) ph ->
  triple c d ph (_log quiet_now "propagation_success" source details) Post.
Proof. intros Hp. apply triple_silent. intros h. by destruct (log_silent "propagation_success" source details h) as [-> ->]. Qed.

Definition body_post (c : change) (r : res unit) (ph : phase) : Prop :=
  match r with Ok _ => ph = goal c \/ ph = Undone | Raise _ => ph = Crashed end.

Lemma triple_failed c d source reason : triple c d Failed (_rollback T quiet_now d source reason) (body_post c).
Proof.
  eapply triple_mono; [apply (triple_rollback c d source reason Failed (or_introl eq_refl))|].
  intros [u|e] ph ->; [by right|done].
Qed.

Lemma triple_after_tests c d source :
  c <> Code -> triple c d Tested
    (bind (match c with Contracts => _deploy_staging T d source | _ => ret true end) (fun staging_ok =>
     if negb staging_ok then _rollback T quiet_now d source "staging failure"
     else bind (match c with Contracts => _deploy_prod T quiet_now d source | _ => ret tt end) (fun _ =>
       _log quiet_now "propagation_success" source (PDict [("dependent", d); ("change_type", PStr (change_name c))]))))
    (body_post c).
Proof.
  destruct c; intros Hc; [done| |].
  - apply (triple_then _ _ _ _ true); [done|]. apply (triple_then _ _ _ _ tt); [done|]. apply triple_success. by left.
  - eapply triple_bind; [apply triple_staging| |by intros e ph ->].
    intros [] ph ->; cbn [negb judged]; [|apply triple_failed].
    eapply triple_bind; [apply triple_prod| |by intros e ph ->].
    intros [] ph ->. apply triple_success. by left.
Qed.

Lemma triple_body c d source : triple c d Start (attempt_propagation T quiet_now source d c) (body_post c).
Proof.
  eapply triple_bind; [apply triple_rebuild| |by intros e ph ->].
  intros [] ph ->. cbn [is_ok]. destruct (decide (c = Code)) as [->|Hc].
  - apply (triple_then _ _ _ _ true); [done|]. cbn [negb]. apply (triple_then _ _ _ _ true); [done|]. cbn [negb].
    apply (triple_then _ _ _ _ tt); [done|]. apply triple_success. by left.
  - eapply (triple_bind _ _ _ _ _ (fun r ph => ph = judged Tested r)).
    + destruct c; [done|by apply triple_tests|by apply triple_tests].
    + intros [] ph ->; cbn [negb judged]; [by apply triple_after_tests|apply triple_failed].
    + by intros e ph ->.
Qed.

(** Where a propagation leaves its dependent: blocked by the limiter, at its
    goal, undone, or (when the last rollback raised) abandoned with the error. *)
Definition ends (c : change) (r : res unit) (ph : phase) : Prop :=
  match r with Ok _ => ph = Start \/ ph = goal c \/ ph = Undone | Raise _ => ph = Start \/ ph = Abandoned end.

Lemma triple_propagate c d source :
  triple c d Start (_propagate_to T quiet_acquire quiet_now str_exc source d c) (ends c).
Proof.
  eapply triple_then; [apply inc_silent|].
  eapply (triple_bind _ _ _ _ _ (fun _ ph => ph = Start)).
  - apply triple_silent. intros [m l [w t]]. destruct acquire as [acq|]; [|done].
    cbn [option_map]. unfold outside, zoom, quietly, zoom. cbn. by destruct (acq 10 w).
  - intros [] ph ->; cbn [negb]; [|apply triple_silent; intros h; split; [done|by left]].
    eapply triple_catch; [apply triple_body| |].
    + intros [] ph Hp. right. exact Hp.
    + intros e ph ->. eapply triple_then; [apply inc_silent|]. eapply triple_then; [apply log_silent|].
      eapply triple_mono; [apply (triple_rollback c d source (str_exc e) Crashed (or_intror eq_refl))|].
      intros [u|e'] ph ->; cbn [is_ok ends]; auto.
  - intros e ph ->. by left.
Qed.
End protocol.

(** ** The log *)

Section log.
Context {W : Type}.
Variable registry : pyval.
Variable orch : option (pipeline W).
Variable acquire : option (Z -> eff W bool).
Variable _now_iso : W -> string * W.
Variable str_exc : exn -> string.

Definition extends (h h' : handler W) : Prop := event_log h `prefix_of` event_log h'.

#[local] Instance extends_preorder : PreOrder extends.
Proof. split; unfold extends; [intros h; reflexivity|]. intros h1 h2 h3 ? ?. by etransitivity. Qed.

Lemma extends_outside {A} (m : eff W A) : always extends (outside m).
Proof. apply always_zoom. intros t h. by exists []; rewrite app_nil_r. Qed.

Lemma extends_inc k : always extends (inc k).
Proof. intros h. by exists []; rewrite app_nil_r. Qed.

Lemma extends_log action repo details : always extends (_log _now_iso action repo details).
Proof. apply always_bind; [apply _|apply extends_outside|]. intros n h. by eexists. Qed.

Lemma extends_call dflt m : always extends (pipeline_call orch dflt m).
Proof. unfold pipeline_call. destruct orch; [apply extends_outside|apply always_ret, _]. Qed.

#[local] Hint Resolve extends_outside extends_inc extends_log extends_call : eff.
#[local] Hint Extern 0 (PreOrder _) => apply extends_preorder : eff.

Ltac append_only := repeat (eauto 2 with eff; first
  [ apply always_bind; [apply _| |intros ?] | apply always_catch; [apply _| |intros ?]
  | apply always_if | apply always_for_each; [apply _|intros ?] | apply always_ret, _ | apply always_of_res, _
  | match goal with |- always _ (match ?x with _ => _ end) => destruct x end ]).

Lemma extends_propagate source d c : always extends (_propagate_to orch acquire _now_iso str_exc source d c).
Proof.
  unfold _propagate_to, attempt_propagation, _rollback, _deploy_prod, _deploy_staging, _trigger_tests, _trigger_rebuild.
  append_only.
Qed.

Lemma extends_handle event : always extends (handle registry orch acquire _now_iso str_exc event).
Proof.
  unfold handle. append_only; apply extends_propagate.
Qed.
End log.

(** ** A whole event *)

(** A failure the handler acts on: a call that raised, or tests or a staging
    deployment that answered no.  A rebuild or a production deployment that
    answers no is none. *)
Definition failure_seen (s : step) : bool :=
  match s with (_, Raise _) | (Test, Ok false) | (Staging, Ok false) => true | _ => false end.
Definition is_rollback (s : step) : bool := match s.1 with Rollback => true | _ => false end.

(** The dependent is rolled back exactly when such a failure was seen. *)
Definition undone_iff_failed (l : list step) : Prop := existsb is_rollback l = existsb failure_seen l.

Lemma next_wrong c ph s ph' : next c ph s = Some ph' -> wrong ph' = wrong ph || failure_seen s.
Proof.
  destruct ph, s as [[] [[]|e]]; cbn [next]; try done; repeat case_decide; try done; by intros [= <-].
Qed.

Lemma machine_wrong_iff c l : forall ph ph', machine c ph l = Some ph' -> wrong ph' = wrong ph || existsb failure_seen l.
Proof.
  induction l as [|s l IH]; intros ph ph'; cbn [machine existsb]; [intros [= <-]; by rewrite orb_false_r|].
  destruct (next c ph s) as [ph1|] eqn:En; [|done]. intros Hm. by rewrite (IH _ _ Hm), (next_wrong _ _ _ _ En), orb_assoc.
Qed.

(** Past the rollback. *)
Definition over (ph : phase) : bool := match ph with Undone | Abandoned => true | _ => false end.

Lemma machine_rollback c l : forall ph ph', machine c ph l = Some ph' ->
  (over ph' = true -> over ph = true \/ existsb is_rollback l = true) /\ (existsb is_rollback l = true -> wrong ph' = true).
Proof.
  induction l as [|s l IH]; intros ph ph'; cbn [machine existsb]; [intros [= <-]; split; [by left|done]|].
  destruct (next c ph s) as [ph1|] eqn:En; [|done]. intros Hm. destruct (IH _ _ Hm) as [H1 H2]. split.
  - intros Ho. destruct (H1 Ho) as [Ho1|Hr]; [|right; by rewrite Hr, orb_true_r]. right.
    destruct ph, s as [[] [[]|e]]; cbn [next] in En; try done; repeat case_decide; try done; injection En as <-; done.
  - destruct (is_rollback s) eqn:Es; [intros _|exact H2]. rewrite (machine_wrong_iff _ _ _ _ Hm).
    destruct ph, s as [[] [[]|e]]; cbn [next] in En; try done; repeat case_decide; try done; by injection En as <-.
Qed.

Lemma ends_undone c r l ph : machine c Start l = Some ph -> ends c r ph -> undone_iff_failed l.
Proof.
  intros Hm He. unfold undone_iff_failed. pose proof (machine_wrong_iff _ _ _ _ Hm) as Hw. cbn [wrong orb] in Hw. rewrite <- Hw.
  destruct (machine_rollback _ _ _ _ Hm) as [H1 H2]. destruct (existsb is_rollback l) eqn:Er; [by rewrite H2|].
  destruct (wrong ph) eqn:Ep; [|done]. destruct H1 as [?|?]; [|done..].
  unfold ends in He. destruct c, r, ph; naive_solver.
Qed.

(** The calls of the propagations to a list of dependents, in their order; an
    error that leaves one ends the list. *)
Inductive propagated (c : change) : list pyval -> res unit -> list (pyval * step) -> Prop :=
| propagated_all : propagated c [] (Ok tt) []
| propagated_next d ds l ph r tr :
    machine c Start l = Some ph -> ends c (Ok tt) ph -> undone_iff_failed l -> propagated c ds r tr ->
    propagated c (d :: ds) r (map (pair d) l ++ tr)
| propagated_stop d ds l ph e :
    machine c Start l = Some ph -> ends c (Raise e) ph -> undone_iff_failed l ->
    propagated c (d :: ds) (Raise e) (map (pair d) l).

(** A production deployment of [d], after everything that has to come first. *)
Definition earned (d : pyval) (r : res bool) (tr : list (pyval * step)) : Prop :=
  exists b pre post,
    tr = (pre ++ map (pair d) [(Rebuild, Ok b); (Test, Ok true); (Staging, Ok true); (Prod, r)] ++ post)%list.

Lemma earned_app_l d r tr tr' : earned d r tr -> earned d r (tr' ++ tr).
Proof. intros (b & pre & post & ->). exists b, (tr' ++ pre)%list, post. by rewrite <- app_assoc. Qed.

Lemma machine_earned c d l ph tr r :
  machine c Start l = Some ph -> (Prod, r) ∈ l -> c = Contracts /\ earned d r (map (pair d) l ++ tr).
Proof.
  intros Hm Hin. destruct (machine_prod _ _ _ _ Hm Hin) as (Hc & b & l' & -> & _). split; [done|].
  exists b, [], (map (pair d) l' ++ tr)%list. done.
Qed.

Lemma in_map_pair {A B} (d d' : A) (s : B) l : (d', s) ∈ map (pair d) l -> d' = d /\ s ∈ l.
Proof. intros (x & E & Hx)%list_elem_of_fmap. split; [exact (f_equal fst E)|]. apply (f_equal snd) in E. cbn in E. by rewrite E. Qed.

Lemma propagated_earned c ds r tr :
  propagated c ds r tr -> forall d p, (d, (Prod, p)) ∈ tr -> c = Contracts /\ d ∈ ds /\ earned d p tr.
Proof.
  induction 1 as [|d ds l ph r tr Hm He _ Hp IH|d ds l ph e Hm He _]; intros d' p Hin; [by apply elem_of_nil in Hin| |].
  - apply elem_of_app in Hin as [[-> Hin]%in_map_pair|Hin].
    + destruct (machine_earned c d l ph tr p Hm Hin). split_and!; [done|left|done].
    + destruct (IH _ _ Hin) as (Hc & Hd & He'). split_and!; [done|by right|by apply earned_app_l].
  - apply in_map_pair in Hin as [-> Hin]. destruct (machine_earned c d l ph [] p Hm Hin) as [Hc He'].
    rewrite app_nil_r in He'. split_and!; [done|left|done].
Qed.

Section handled.
Context {W : Type}.
Variable registry : pyval.
Variable o : pipeline W.
Variable acquire : option (Z -> eff W bool).
Variable _now_iso : W -> string * W.
Variable str_exc : exn -> string.

(** The handler whose pipeline keeps the record of its calls. *)
Definition traced_now (wt : recording W) : string * recording W := let (t, w) := _now_iso wt.1 in (t, (w, wt.2)).
Definition traced_acquire : option (Z -> eff (recording W) bool) := option_map (fun acq z => quietly (acq z)) acquire.
Definition traced_handle (event : pyval) : eff (handler (recording W)) unit :=
  handle registry (Some (traced o)) traced_acquire traced_now str_exc event.

(** The dependents of the repository an event names. *)
Definition has_dependents (event : pyval) (ds : list pyval) : Prop :=
  exists repo meta deps, py_get event "repo" (PStr "") = Ok repo /\ get_key registry repo PNone = Ok meta /\
    py_get meta "dependents" (PList []) = Ok deps /\ py_iter deps = Ok ds.

Lemma for_each_propagated c source ds : forall h,
  let rh := for_each (fun d => _propagate_to (Some (traced o)) traced_acquire traced_now str_exc source d c) ds h in
  exists tr, trace rh.2 = (trace h ++ tr)%list /\ propagated c ds rh.1 tr.
Proof.
  induction ds as [|d ds IH]; intros h; [exists []; split; [by rewrite app_nil_r|constructor]|].
  cbn [for_each]. unfold bind. destruct (triple_propagate o acquire _now_iso str_exc c d source h) as (t & Ht & l & ph & -> & Hm & He).
  change (_propagate_to (Some (traced o)) (option_map (fun acq z => quietly (acq z)) acquire)
    (fun wt : recording W => let (t, w) := _now_iso wt.1 in (t, (w, wt.2))) str_exc source d c h)
    with (_propagate_to (Some (traced o)) traced_acquire traced_now str_exc source d c h) in Ht, He.
  destruct (_propagate_to (Some (traced o)) traced_acquire traced_now str_exc source d c h) as [[[]|e] h1]; cbn [fst snd] in *.
  - destruct (IH h1) as (tr & Ht' & Hp). exists (map (pair d) l ++ tr)%list. split; [by rewrite Ht', Ht, app_assoc|].
    eapply propagated_next; [exact Hm|exact He|exact (ends_undone _ _ _ _ Hm He)|exact Hp].
  - exists (map (pair d) l). split; [done|]. eapply propagated_stop; [exact Hm|exact He|exact (ends_undone _ _ _ _ Hm He)].
Qed.

(** The result of a run that starts with code silent on the pipeline. *)
Definition outcome (event : pyval) (h : handler (recording W)) (rh : res unit * handler (recording W)) : Prop :=
  exists tr, trace rh.2 = (trace h ++ tr)%list /\
    (tr = [] \/ exists c ds, _classify_change event = Ok c /\ has_dependents event ds /\ propagated c ds rh.1 tr).

Lemma outcome_silent {A} event (m : eff (handler (recording W)) A) k h :
  (forall h', trace (m h').2 = trace h') ->
  (forall a h', (m h).1 = Ok a -> trace h' = trace h -> outcome event h' (k a h')) -> outcome event h (bind m k h).
Proof.
  intros Hm Hk. specialize (Hm h). unfold bind. destruct (m h) as [[a|e] h1]; cbn [fst snd] in *.
  - destruct (Hk a h1 eq_refl Hm) as (tr & Ht & Hd). exists tr. by rewrite <- Hm.
  - exists []. rewrite app_nil_r. by split; [|left].
Qed.

Lemma outcome_nothing event h : outcome event h (ret tt h).
Proof. exists []. rewrite app_nil_r. by split; [|left]. Qed.

Lemma log_quiet action repo details (h : handler (recording W)) : trace (_log traced_now action repo details h).2 = trace h.
Proof. apply (log_silent _now_iso action repo details h). Qed.

Lemma now_quiet (h : handler (recording W)) : trace (now_iso traced_now h).2 = trace h.
Proof.
  destruct h as [m l [w t]]. unfold now_iso, outside, zoom, traced_now. cbn. by destruct (_now_iso w).
Qed.

Lemma handle_outcome event h : outcome event h (traced_handle event h).
Proof.
  unfold traced_handle, handle.
  apply outcome_silent; [done|intros [] h1 _ _].
  apply outcome_silent; [done|intros repo h2 Hrepo _].
  apply outcome_silent; [apply now_quiet|intros now h3 _ _].
  apply outcome_silent; [done|intros received h4 _ _].
  apply outcome_silent; [done|intros ref h5 _ _].
  apply outcome_silent; [intros; apply log_quiet|intros [] h6 _ _].
  apply outcome_silent; [done|intros meta h7 Hmeta _].
  assert (Hds : forall h, outcome event h
    (bind (of_res (py_get meta "dependents" (PList []))) (fun dependents =>
      if negb (truthy dependents) then ret tt
      else bind (of_res (_classify_change event)) (fun c => bind (of_res (py_iter dependents)) (fun ds =>
        for_each (fun d => _propagate_to (Some (traced o)) traced_acquire traced_now str_exc repo d c) ds))) h)).
  { intros g1. apply outcome_silent; [done|intros deps g2 Hdeps _].
    destruct (negb (truthy deps)); [apply outcome_nothing|].
    apply outcome_silent; [done|intros c g3 Hc _]. apply outcome_silent; [done|intros ds g4 Hds _].
    destruct (for_each_propagated c repo ds g4) as (tr & Ht & Hp). exists tr. split; [exact Ht|]. right.
    exists c, ds. split_and!; [exact Hc| |exact Hp]. exists repo, meta, deps. done. }
  destruct meta; [apply outcome_nothing|apply Hds..].
Qed.
End handled.

(** ** Properties *)


(** A rebuild that fails, and a production deployment that fails, are not
    noticed: the pipeline's answer is dropped, and the propagation is logged as a
    success with no rollback. *)
Definition failing_pipeline : pipeline unit :=
  mkPipeline (fun _ => ret false) (fun _ => ret true) (fun _ env => ret (negb (String.eqb env "prod"))) (fun _ => ret true).

Definition demo_event : pyval :=
  PDict [("repo", PStr "o/r"); ("payload", PDict [("commits", PList [PDict [("added", PList [PStr "API/v1.json"])]])])].
Definition demo_registry : pyval := PDict [("o/r", PDict [("dependents", PList [PStr "o/d"])])].
Definition demo_handled : res unit * handler (recording unit) :=
  traced_handle demo_registry failing_pipeline None (fun w => ("t", w)) (fun _ => "") demo_event
    (mkHandler zero_metrics [] (tt, [])).

Theorem failed_build_goes_live :
  trace demo_handled.2 = map (pair (PStr "o/d")) [(Rebuild, Ok false); (Test, Ok true); (Staging, Ok true); (Prod, Ok false)] /\
  map (fun e => py_item e "action") (event_log demo_handled.2) =
    [Ok (PStr "received"); Ok (PStr "rebuild"); Ok (PStr "deploy_prod"); Ok (PStr "propagation_success")] /\
  assoc "rollbacks" (h_metrics demo_handled.2) = Some 0.
Proof. vm_compute. auto. Qed.
