(* ===== verification/AutoMerge.v ===== *)
(** * The auto-merge handler

    Models [automation/auto_merge_handler.py]: the pull requests of a phase are
    fetched, checked and merged in order, each with its retries.

    The hosting service's client is not part of the repository; [client] holds
    the calls made of it, each of which may raise and changes a world of any
    type.  A pull request is the mutable object the client returns: its flags are
    read before and after [update].  The answers of the limiter are not looked
    at, only its exceptions matter. *)

From S2P Require Import Prelude PyVal Effects.
Local Open Scope string_scope.
Local Open Scope Z_scope.

Definition CI_WAIT_SECONDS : Z := 120.
Definition MAX_MERGE_RETRIES : nat := 3.

(** The attributes that are read; [None] when the object has none. *)
Record pull := mkPull { merged : option bool; mergeable_state : option string }.

Record client (W : Type) := mkClient {
  get_repo : eff W bool;                     (** whether a repository comes back *)
  get_pull : Z -> eff W (option pull);
  update : Z -> pull -> eff W pull;
  merge : Z -> pull -> eff W unit
}.
Arguments mkClient {W}.
Arguments get_repo {W}.
Arguments get_pull {W}.
Arguments update {W}.
Arguments merge {W}.

Record merge_metrics := mkMerges { prs_merged : Z; prs_failed : Z; prs_skipped : Z }.

Definition no_merges : merge_metrics := mkMerges 0 0 0.

Section auto_merge.
Context {W : Type}.
Variable gh : client W.
Variable acquire : option (Z -> eff W bool).
Variable ci_wait_seconds : Z.

Record merger := mkMerger { m_metrics : merge_metrics; m_slept : list Z; m_world : W }.

Definition tick (f : merge_metrics -> merge_metrics) : eff merger unit :=
  modify (fun m => mkMerger (f (m_metrics m)) (m_slept m) (m_world m)).
Definition nap (d : Z) : eff merger unit :=
  modify (fun m => mkMerger (m_metrics m) (m_slept m ++ [d])%list (m_world m)).
Definition ask {A} (m : eff W A) : eff merger A :=
  zoom m_world (fun w m => mkMerger (m_metrics m) (m_slept m) w) m.

Definition one_merged (m : merge_metrics) := mkMerges (prs_merged m + 1) (prs_failed m) (prs_skipped m).
Definition one_failed (m : merge_metrics) := mkMerges (prs_merged m) (prs_failed m + 1) (prs_skipped m).
Definition one_skipped (m : merge_metrics) := mkMerges (prs_merged m) (prs_failed m) (prs_skipped m + 1).

Definition charge (cost : Z) : eff merger unit :=
  match acquire with Some acq => run ask (acq cost); ret tt | None => ret tt end.

Definition _get_repo : eff merger bool :=
  catch (run charge 1; ask (get_repo gh)) (fun _ => ret false).

Definition _get_pr (n : Z) : eff merger (option pull) :=
  catch (run charge 1; ask (get_pull gh n)) (fun _ => ret None).

Definition _is_merged (pr : pull) : bool := default false (merged pr).

Definition is_clean (pr : pull) : bool := String.eqb (default "unknown" (mergeable_state pr)) "clean".

(** The state, asked once more when it is still being computed; the object it
    leaves is the one that is merged. *)
Definition _is_ready (n : Z) (pr : pull) : eff merger (bool * pull) :=
  if is_clean pr then ret (true, pr)
  else if String.eqb (default "unknown" (mergeable_state pr)) "unknown" then
    run nap 3;
    run charge 1;
    do pr <- catch (ask (update gh n pr)) (fun _ => ret pr);
    ret (is_clean pr, pr)
  else ret (false, pr).

Fixpoint merge_attempts (n : Z) (pr : pull) (attempt more : nat) : eff merger bool :=
  match more with
  | O => ret false
  | S more =>
    do ok <- catch (run charge 2; run ask (merge gh n pr); ret true) (fun _ => ret false);
    if ok then ret true
    else
      run if Nat.ltb attempt MAX_MERGE_RETRIES then nap (5 ^ Z.of_nat attempt) else ret tt;
      merge_attempts n pr (S attempt) more
  end.

Definition _merge_with_retry (n : Z) (pr : pull) : eff merger bool := merge_attempts n pr 1 MAX_MERGE_RETRIES.

Fixpoint run_prs (numbers : list Z) : eff merger bool :=
  match numbers with
  | [] => ret true
  | n :: numbers =>
    do pr <- _get_pr n;
    match pr with
    | None => run tick one_skipped; run_prs numbers
    | Some pr =>
      if _is_merged pr then run tick one_skipped; run_prs numbers
      else
        do ready <- _is_ready n pr;
        let (ok, pr) := (ready : bool * pull) in
        if negb ok then run tick one_failed; ret false
        else
          do success <- _merge_with_retry n pr;
          if negb success then run tick one_failed; ret false
          else
            run tick one_merged;
            run match numbers with [] => ret tt | _ => nap ci_wait_seconds end;
            run_prs numbers
    end
  end.

(** The numbers the constructor keeps: an empty list counts as none given. *)
Definition numbers_of (phase_a_pr_numbers : option (list Z)) : list Z :=
  match phase_a_pr_numbers with None | Some [] => [1; 2] | Some l => l end.

Definition run_merges (phase_a_pr_numbers : list Z) : eff merger bool :=
  do repo <- _get_repo;
  if negb repo then ret false else run_prs phase_a_pr_numbers.
End auto_merge.

Arguments merger : clear implicits.

(** ** What is merged *)

(** A call of [merge]: the number, the object it was made on, its result. *)
Definition merge_call := (Z * pull * res unit)%type.

Definition raised (c : merge_call) : bool := negb (is_ok c.2).

(** The calls for one pull request: at most three, all but the last raised, and
    the last succeeded exactly when the request was merged. *)
Definition attempted (n : Z) (pr : pull) (ok : bool) (l : list merge_call) : Prop :=
  (length l <= MAX_MERGE_RETRIES)%nat /\ Forall (fun c => c.1 = (n, pr)) l /\
  exists l0, Forall (fun c => raised c = true) l0 /\ l = (l0 ++ if ok then [(n, pr, Ok tt)] else [])%list.

(** The calls of a run over some numbers: each request is skipped, or merged from
    a clean state; the first that is not clean, or that cannot be merged, or
    whose check raises, ends the run.  [m] and [s] count the merged and the
    skipped. *)
Inductive merges : list Z -> res bool -> nat -> nat -> list merge_call -> Prop :=
| merges_done : merges [] (Ok true) 0 0 []
| merges_skip n ns r m s l : merges ns r m s l -> merges (n :: ns) r m (S s) l
| merges_next n ns pr r m s l l' :
    is_clean pr = true -> attempted n pr true l -> merges ns r m s l' -> merges (n :: ns) r (S m) s (l ++ l')
| merges_unready n ns : merges (n :: ns) (Ok false) 0 0 []
| merges_stuck n ns pr l :
    is_clean pr = true -> attempted n pr false l -> merges (n :: ns) (Ok false) 0 0 l
| merges_raise n ns e : merges (n :: ns) (Raise e) 0 0 [].

Section traced.
Context {W : Type}.
Variable gh : client W.
Variable acquire : option (Z -> eff W bool).
Variable ci_wait_seconds : Z.

Definition recording := (W * list merge_call)%type.
Definition quietly {A} (m : eff W A) : eff recording A := zoom fst (fun w wt => (w, wt.2)) m.

(** The client that keeps the record of its merges. *)
Definition traced : client recording :=
  mkClient (quietly (get_repo gh)) (fun n => quietly (get_pull gh n)) (fun n pr => quietly (update gh n pr))
    (fun n pr wt => let (r, w) := merge gh n pr wt.1 in (r, (w, wt.2 ++ [(n, pr, r)])%list)).
Definition traced_acquire : option (Z -> eff recording bool) := option_map (fun acq z => quietly (acq z)) acquire.

Definition calls (m : merger recording) : list merge_call := (m_world m).2.

Abbreviation emits := (emits calls).

(** What the helpers leave alone: the record of the merges, and the counters. *)
Section helpers.
Context {X : Type} (view : merger recording -> X).
Hypothesis view_world : forall m sl w w' t, view (mkMerger m sl (w, t)) = view (mkMerger m sl (w', t)).
Hypothesis view_slept : forall m sl sl' wt, view (mkMerger m sl wt) = view (mkMerger m sl' wt).

Lemma silent_ask {A} (m : eff W A) : silent view (ask (quietly m)).
Proof. intros [ms sl [w t]]. unfold ask, quietly, zoom. cbn. destruct (m w). apply view_world. Qed.

Lemma silent_nap d : silent view (nap d).
Proof. intros [ms sl wt]. apply view_slept. Qed.

Lemma silent_charge cost : silent view (charge traced_acquire cost).
Proof.
  unfold charge, traced_acquire. destruct acquire as [acq|]; cbn [option_map]; [|apply silent_ret].
  apply silent_bind; [apply silent_ask|]. intros a. apply silent_ret.
Qed.

Lemma silent_get_pr n : silent view (_get_pr traced traced_acquire n).
Proof.
  apply silent_catch; [|intros; apply silent_ret]. apply silent_bind; [apply silent_charge|]. intros. apply silent_ask.
Qed.

Lemma silent_get_repo : silent view (_get_repo traced traced_acquire).
Proof.
  apply silent_catch; [|intros; apply silent_ret]. apply silent_bind; [apply silent_charge|]. intros. apply silent_ask.
Qed.

Lemma silent_is_ready n pr : silent view (_is_ready traced traced_acquire n pr).
Proof.
  unfold _is_ready. destruct (is_clean pr); [apply silent_ret|]. destruct (String.eqb _ _); [|apply silent_ret].
  apply silent_bind; [apply silent_nap|intros _]. apply silent_bind; [apply silent_charge|intros _].
  apply silent_bind; [|intros; apply silent_ret]. apply silent_catch; [apply silent_ask|intros; apply silent_ret].
Qed.
End helpers.

Lemma silent_merge n pr more : forall attempt, silent m_metrics (merge_attempts traced traced_acquire n pr attempt more).
Proof.
  induction more as [|more IH]; intros attempt; cbn [merge_attempts]; [apply silent_ret|].
  apply silent_bind.
  - apply silent_catch; [|intros; apply silent_ret]. apply silent_bind; [by apply silent_charge|intros _].
    apply silent_bind; [|intros; apply silent_ret]. intros [ms sl [w t]]. unfold ask, zoom. cbn. by destruct (merge gh n pr w).
  - intros []; [apply silent_ret|]. apply silent_bind; [|intros; apply IH].
    destruct (Nat.ltb _ _); [by apply silent_nap|apply silent_ret].
Qed.

(** A request counted as ready is clean in the object that is merged. *)
Lemma ready_clean n pr s b pr' s' :
  _is_ready traced traced_acquire n pr s = (Ok (b, pr'), s') -> b = is_clean pr'.
Proof.
  unfold _is_ready. destruct (is_clean pr) eqn:E.
  - unfold ret. intros H. injection H as <- <- <-. by rewrite E.
  - destruct (String.eqb _ _).
    + unfold bind at 1. destruct (nap 3 s) as [[u|e] s1]; [|done].
      unfold bind at 1. destruct (charge _ _ s1) as [[u'|e] s2]; [|done].
      unfold bind. destruct (catch _ _ s2) as [[p|e] s3]; [|done]. unfold ret. intros H. by injection H as <- <- <-.
    + unfold ret. intros H. injection H as <- <- <-. by rewrite E.
Qed.

(** One attempt: no call when the limiter raised, one otherwise. *)
Lemma emits_attempt n pr :
  emits (catch (bind (charge traced_acquire 2) (fun _ => bind (ask (merge traced n pr)) (fun _ => ret true))) (fun _ => ret false))
    (fun r l => exists ok, r = Ok ok /\
       (if ok then l = [(n, pr, Ok tt)] else l = [] \/ exists e, l = [(n, pr, Raise e)])).
Proof.
  eapply (emits_catch _ _ _ (fun r l => match r with Ok ok => ok = true /\ l = [(n, pr, Ok tt)] | Raise _ => l = [] \/ exists e, l = [(n, pr, Raise e)] end)).
  - eapply (emits_bind _ _ _ (fun r l => l = [])).
    + apply emits_silent; [by apply silent_charge|done].
    + intros [] l ->. intros [ms sl [w t]]. cbn. unfold bind, ask, zoom. cbn. destruct (merge gh n pr w) as [[[]|e] w']; cbn.
      * by exists [(n, pr, Ok tt)].
      * exists [(n, pr, Raise e)]. split; [done|]. right. by exists e.
    + intros e l ->. by left.
  - intros ok l [-> ->]. by exists true.
  - intros e l Hl. apply emits_silent; [apply silent_ret|]. intros s. exists false. split; [done|]. by rewrite app_nil_r.
Qed.

Lemma emits_merge n pr more : forall attempt,
  emits (merge_attempts traced traced_acquire n pr attempt more) (fun r l => exists ok, r = Ok ok /\
    (length l <= more)%nat /\ Forall (fun c => c.1 = (n, pr)) l /\
    exists l0, Forall (fun c => raised c = true) l0 /\ l = (l0 ++ if ok then [(n, pr, Ok tt)] else [])%list).
Proof.
  induction more as [|more IH]; intros attempt; cbn [merge_attempts].
  { apply emits_silent; [apply silent_ret|]. intros s. exists false. split_and!; [done|done|constructor|]. by exists []. }
  eapply emits_bind; [apply emits_attempt| |by intros e l (ok & ? & _)].
  intros ok l (ok' & E & Hl). injection E as <-. destruct ok.
  - apply emits_silent; [apply silent_ret|]. intros s. exists true. rewrite app_nil_r, Hl.
    split_and!; [done|cbn [length]; lia|by repeat constructor|]. by exists [].
  - assert (Hl' : (length l <= 1)%nat /\ Forall (fun c => c.1 = (n, pr)) l /\ Forall (fun c => raised c = true) l)
      by (destruct Hl as [->|[e ->]]; repeat constructor).
    clear Hl. destruct Hl' as (Hlen & Hn & Hr).
    eapply (emits_bind _ _ _ (fun r t => t = [] /\ r = Ok tt)); [| |by intros e t [_ ?]].
    + destruct (Nat.ltb _ _); by apply emits_silent.
    + intros [] t [-> _]. eapply emits_mono; [apply IH|]. intros r t (ok & -> & Ht & Hf & l0 & Hr0 & ->).
      exists ok. split; [done|]. cbn [app]. split; [rewrite !length_app in *; lia|]. split; [by apply Forall_app|].
      exists (l ++ l0)%list. split; [by apply Forall_app|]. by rewrite <- app_assoc.
Qed.

(** What a run over [ns] from [st] has done. *)
Definition accounted (ns : list Z) (st : merger recording) (rs : res bool * merger recording) : Prop :=
  exists m s l, calls rs.2 = (calls st ++ l)%list /\ merges ns rs.1 m s l /\
    m_metrics rs.2 = mkMerges (prs_merged (m_metrics st) + Z.of_nat m)
      (prs_failed (m_metrics st) + match rs.1 with Ok false => 1 | _ => 0 end) (prs_skipped (m_metrics st) + Z.of_nat s).

(** A run that goes on from a state with the same record and counters. *)
Lemma accounted_from ns st st' rs :
  calls st' = calls st -> m_metrics st' = m_metrics st -> accounted ns st' rs -> accounted ns st rs.
Proof. unfold accounted. by intros -> ->. Qed.

Lemma accounted_skip n ns st rs :
  accounted ns (tick one_skipped st).2 rs -> accounted (n :: ns) st rs.
Proof.
  destruct st as [[pm pf ps] sl wt]. intros (m & s & l & Hc & Hm & Hp). exists m, (S s), l. split_and!; [exact Hc|by constructor|].
  rewrite Hp. cbn. f_equal. lia.
Qed.

Lemma accounted_next n ns pr l st st' rs :
  is_clean pr = true -> attempted n pr true l -> calls st' = (calls st ++ l)%list -> m_metrics st' = one_merged (m_metrics st) ->
  accounted ns st' rs -> accounted (n :: ns) st rs.
Proof.
  intros Hcl Ha Hcs Hms (m & s & l' & Hc & Hm & Hp). exists (S m), s, (l ++ l')%list. split_and!.
  - by rewrite Hc, Hcs, app_assoc.
  - by eapply merges_next.
  - rewrite Hp, Hms. cbn. f_equal. lia.
Qed.

Lemma accounted_stop n ns st l (st' : merger recording) :
  calls st' = (calls st ++ l)%list -> m_metrics st' = one_failed (m_metrics st) ->
  merges (n :: ns) (Ok false) 0 0 l -> accounted (n :: ns) st (Ok false, st').
Proof.
  intros Hc Hm Hl. exists 0%nat, 0%nat, l. split_and!; [done|done|]. cbn [snd fst]. rewrite Hm. unfold one_failed. f_equal; lia.
Qed.

Lemma get_pr_returns n st e st' : _get_pr traced traced_acquire n st <> (Raise e, st').
Proof. unfold _get_pr, catch. by destruct (bind _ _ st) as [[pr|e'] st1]. Qed.

Lemma run_prs_accounted ns : forall st, accounted ns st (run_prs traced traced_acquire ci_wait_seconds ns st).
Proof.
  induction ns as [|n ns IH]; intros st.
  { exists 0%nat, 0%nat, []. split_and!; [by rewrite app_nil_r|constructor|]. cbn. destruct (m_metrics st). cbn. f_equal; lia. }
  cbn [run_prs]. unfold bind at 1.
  pose proof (silent_get_pr calls ltac:(done) n st) as Hc.
  pose proof (silent_get_pr m_metrics ltac:(done) n st) as Hm.
  pose proof (get_pr_returns n st) as Hno.
  destruct (_get_pr _ _ n st) as [[pr|e] st1]; [|by destruct (Hno e st1)]. cbn [snd] in Hc, Hm.
  apply (accounted_from _ st st1 _ Hc Hm). clear Hc Hm Hno st.
  destruct pr as [pr|]; [|apply accounted_skip, IH].
  destruct (_is_merged pr); [apply accounted_skip, IH|].
  unfold bind at 1. pose proof (ready_clean n pr st1) as Hcl.
  pose proof (silent_is_ready calls ltac:(done) ltac:(done) n pr st1) as Hc.
  pose proof (silent_is_ready m_metrics ltac:(done) ltac:(done) n pr st1) as Hm.
  destruct (_is_ready _ _ n pr st1) as [[[ok pr']|e] st2]; cbn [snd] in Hc, Hm.
  2: { exists 0%nat, 0%nat, []. cbn [fst snd]. rewrite app_nil_r, Hm, Hc. split_and!; [done|constructor|]. destruct (m_metrics st1); cbn; f_equal; lia. }
  specialize (Hcl _ _ _ eq_refl). apply (accounted_from _ st1 st2 _ Hc Hm). clear Hc Hm st1.
  destruct ok; cbn [negb]; [|by apply (accounted_stop n ns st2 []); [rewrite app_nil_r| |constructor]].
  unfold bind at 1. destruct (emits_merge n pr' MAX_MERGE_RETRIES 1 st2) as (l & Hc & ok & Hok & Ha).
  pose proof (silent_merge n pr' MAX_MERGE_RETRIES 1 st2) as Hm. fold (_merge_with_retry traced traced_acquire n pr') in Hc, Hok, Hm.
  destruct (_merge_with_retry _ _ n pr' st2) as [[ok'|e] st3]; cbn [fst snd] in Hc, Hok, Hm; [|done].
  injection Hok as ->. destruct ok; cbn [negb].
  - assert (Hgo : forall st', calls st' = calls st3 -> m_metrics st' = one_merged (m_metrics st3) ->
      accounted (n :: ns) st2 (run_prs traced traced_acquire ci_wait_seconds ns st')).
    { intros st' Hc' Hm'. apply (accounted_next n ns pr' l st2 st'); [done|exact Ha|by rewrite Hc'|by rewrite Hm', Hm|apply IH]. }
    destruct ns as [|n' ns]; [exact (Hgo (tick one_merged st3).2 eq_refl eq_refl)|].
    exact (Hgo (nap ci_wait_seconds (tick one_merged st3).2).2 eq_refl eq_refl).
  - eapply (accounted_stop n ns st2 l); [exact Hc| |by eapply merges_stuck]. by rewrite <- Hm.
Qed.

Lemma run_merges_accounted ns st :
  let rs := run_merges traced traced_acquire ci_wait_seconds ns st in
  (rs.1 = Ok false /\ calls rs.2 = calls st /\ m_metrics rs.2 = m_metrics st) \/ accounted ns st rs.
Proof.
  cbv zeta. unfold run_merges. unfold bind.
  pose proof (silent_get_repo calls ltac:(done) st) as Hc. pose proof (silent_get_repo m_metrics ltac:(done) st) as Hm.
  assert (Hno : forall e st', _get_repo traced traced_acquire st <> (Raise e, st'))
    by (intros e st'; unfold _get_repo, catch; by destruct (bind _ _ st) as [[b|e'] st1]).
  destruct (_get_repo _ _ st) as [[b|e] st1]; [|by destruct (Hno e st1)]. cbn [snd] in Hc, Hm.
  destruct b; cbn [negb]; [right|by left]. apply (accounted_from _ st st1 _ Hc Hm), run_prs_accounted.
Qed.
End traced.
Arguments recording : clear implicits.

Lemma merges_counts ns r m s l : merges ns r m s l -> r = Ok true -> (m + s)%nat = length ns.
Proof. induction 1; intros Hr; try done; cbn [length]; [rewrite <- IHmerges|rewrite <- IHmerges]; auto; lia. Qed.

(** The requests merged, in the order of the calls. *)
Definition merged_numbers (l : list merge_call) : list Z := omap (fun c => if is_ok c.2 then Some c.1.1 else None) l.

Lemma merged_numbers_app l l' : merged_numbers (l ++ l') = (merged_numbers l ++ merged_numbers l')%list.
Proof. apply omap_app. Qed.

Lemma merged_numbers_raised l : Forall (fun c => raised c = true) l -> merged_numbers l = [].
Proof.
  induction 1 as [|c l Hc _ IH]; [done|]. unfold raised in Hc. cbn [merged_numbers omap list_omap].
  destruct (is_ok c.2); [done|exact IH].
Qed.

Lemma attempted_numbers n pr ok l : attempted n pr ok l -> merged_numbers l = if ok then [n] else [].
Proof.
  intros (_ & _ & l0 & Hr & ->). rewrite merged_numbers_app, (merged_numbers_raised _ Hr). by destruct ok.
Qed.

Lemma merges_numbers ns r m s l :
  merges ns r m s l ->
  merged_numbers l `sublist_of` ns /\ length (merged_numbers l) = m /\ Forall (fun c => is_clean c.1.2 = true) l.
Proof.
  assert (Hcl : forall n pr ok l, is_clean pr = true -> attempted n pr ok l -> Forall (fun c => is_clean c.1.2 = true) l).
  { intros n pr ok l0 Hp (_ & Hf & _). eapply Forall_impl; [exact Hf|]. intros c E. cbn in E. by rewrite E. }
  induction 1 as [|n ns r m s l _ (H1 & H2 & H3)|n ns pr r m s l l' Hp Ha _ (H1 & H2 & H3)|n ns|n ns pr l Hp Ha|n ns e].
  - split_and!; by constructor.
  - split_and!; [by apply sublist_cons|done|done].
  - rewrite merged_numbers_app, (attempted_numbers _ _ _ _ Ha). cbn [app length]. rewrite H2.
    split_and!; [by apply sublist_skip|done|]. apply Forall_app. eauto.
  - split_and!; [apply sublist_nil_l|done|constructor].
  - rewrite (attempted_numbers _ _ _ _ Ha). split_and!; [apply sublist_nil_l|done|eauto].
  - split_and!; [apply sublist_nil_l|done|constructor].
Qed.

(** ** Properties *)

(** Pull requests are merged in order, each from a clean state, and a run
    stops at the first that is not.  Whatever the service and the limiter do, the
    calls of [merge] a run makes are those of [merges]: at most three for a
    request, none on one whose state is not clean, none after the first request
    that failed; the requests merged are a sublist of the given ones, as many as
    the counter says, and when the run answers true every request was merged or
    skipped and none counted as failed. *)
Theorem merges_in_order {W} (gh : client W) acquire wait ns st :
  let rs := run_merges (traced gh) (traced_acquire acquire) wait ns st in
  exists l, calls rs.2 = (calls st ++ l)%list /\
    (l = [] \/ exists m s, merges ns rs.1 m s l) /\
    merged_numbers l `sublist_of` ns /\ Forall (fun c => is_clean c.1.2 = true) l /\
    prs_merged (m_metrics rs.2) = prs_merged (m_metrics st) + Z.of_nat (length (merged_numbers l)) /\
    (rs.1 = Ok true ->
     prs_failed (m_metrics rs.2) = prs_failed (m_metrics st) /\
     prs_merged (m_metrics rs.2) + prs_skipped (m_metrics rs.2) =
       prs_merged (m_metrics st) + prs_skipped (m_metrics st) + Z.of_nat (length ns)).
Proof.
  intros rs. destruct (run_merges_accounted gh acquire wait ns st) as [(Hr & Hc & Hm)|(m & s & l & Hc & Hm & Hp)]; fold rs in Hc, Hm |- *.
  - fold rs in Hr. exists []. rewrite Hr, Hc, Hm, app_nil_r. cbn. split_and!; [done|by left|apply sublist_nil_l|constructor|lia|done].
  - fold rs in Hp. destruct (merges_numbers _ _ _ _ _ Hm) as (H1 & H2 & H3). exists l.
    split_and!; [exact Hc|right; eauto|done|done|rewrite Hp, H2; done|].
    intros Hr. rewrite Hp, Hr. cbn. pose proof (merges_counts _ _ _ _ _ Hm Hr). lia.
Qed.

(** A run over requests that cannot be found answers true having merged none. *)
Definition empty_client : client unit :=
  mkClient (ret true) (fun _ => raise (OtherError "404")) (fun _ pr => ret pr) (fun _ _ => ret tt).

Theorem nothing_merged_is_success :
  run_merges empty_client None CI_WAIT_SECONDS (numbers_of None) (mkMerger no_merges [] tt)
  = (Ok true, mkMerger (mkMerges 0 0 2) [] tt).
Proof. vm_compute. reflexivity. Qed.

(** A request that is still being computed, then clean, merged at the second try. *)
Definition slow_client : client nat :=
  mkClient (ret true) (fun n => ret (Some (mkPull (Some (n =? 1)) None)))
    (fun _ _ => ret (mkPull None (Some "clean"))) (fun _ _ w => (if Nat.eqb w 0 then Raise (OtherError "405") else Ok tt, S w)).

Example slow_merge :
  run_merges slow_client None CI_WAIT_SECONDS [1; 2; 1] (mkMerger no_merges [] 0%nat)
  = (Ok true, mkMerger (mkMerges 1 0 2) [3; 5; 120] 2%nat).
Proof. vm_compute. reflexivity. Qed.
