(* ===== verification/Workspace.v ===== *)
(** * The workspace: manifest, overrides and lock

    Models the data of [tools/runner/runner.py]: the manifest merged with its
    overrides, the repositories loaded from it, the lock, and the checks of
    roles, topology, duplicates, policy and trust.  The commands are in [Runner].

    A parsed TOML or JSON file is a value.  A path is the list of its components
    below the file-system root, as [pathlib] keeps it: empty and [.] components
    are dropped, [..] stays.  The fields of a [Repo] have the types the dataclass
    declares; the loader raises on a manifest whose fields have other types, which
    the source would carry along.  [dict(v)] of a list of pairs is left out in the
    same way.  Files are read through [exists_path] and [read_file]. *)

From Stdlib Require Import Ascii.
From S2P Require Import Prelude PyVal Json PyText Sha256 Policy Responder.
Local Open Scope string_scope.

(** ** Paths *)

Definition path := list string.

(** The components of a path text. *)
Definition parts (s : string) : path :=
  List.filter (fun c => negb (String.eqb c "" || String.eqb c ".")) (split_char "/" s).

(** [base / s]. *)
Definition slash (base : path) (s : string) : path :=
  if String.prefix "/" s then parts s else (base ++ parts s)%list.

(** [p.relative_to(base)]. *)
Fixpoint relative_to (p base : path) {struct base} : res path :=
  match base, p with
  | [], _ => Ok p
  | b :: base, c :: p => if String.eqb b c then relative_to p base else Raise (ValueError "not in the subpath")
  | _ :: _, [] => Raise (ValueError "not in the subpath")
  end.

(** [p.as_posix()] of a relative path. *)
Definition as_posix (p : path) : string := match p with [] => "." | _ => str_join "/" p end.

Lemma relative_to_slash base s : String.prefix "/" s = false -> relative_to (slash base s) base = Ok (parts s).
Proof.
  unfold slash. intros ->. induction base as [|b base IH]; [done|]. cbn [app relative_to]. rewrite String.eqb_refl. exact IH.
Qed.

(** ** The manifest and its overrides *)

(** [d.update(r)]. *)
Definition update (d r : dict) : dict := foldl (fun d kv => assoc_set kv.1 kv.2 d) d r.

(** [dict(v)]. *)
Definition dict_of (v : pyval) : res dict :=
  match v with
  | PDict d => Ok d
  | PList [] | PStr "" => Ok []
  | _ => Raise TypeError
  end.

(** A name used as a key. *)
Definition name_of (r : pyval) : res string :=
  n ← py_item r "name";
  match n with PStr s => Ok s | _ => Raise TypeError end.

Definition merge_workspace (base overrides : dict) : res (option dict) :=
  let b := default (PDict []) (assoc "workspace" base) in
  let o := default (PDict []) (assoc "workspace" overrides) in
  bw ← dict_of b; ow ← dict_of o;
  let merged := update bw ow in
  in_b ← py_in "policy" b;
  in_o ← (if in_b then Ok false else py_in "policy" o);
  merged ← (if in_b || in_o then
              bp ← py_get b "policy" (PDict []); bp ← dict_of bp;
              op ← py_get o "policy" (PDict []); op ← dict_of op;
              Ok (assoc_set "policy" (PDict (update bp op)) merged)
            else Ok merged);
  Ok (match merged with [] => None | _ => Some merged end).

Definition by_name := list (string * dict).

Definition add_base (m : by_name) (r : pyval) : res by_name :=
  n ← name_of r; d ← dict_of r; Ok (assoc_set n d m).

Definition add_override (m : by_name) (r : pyval) : res by_name :=
  n ← name_of r;
  d ← dict_of r;
  let current := default [("name", PStr n)] (assoc n m) in
  Ok (assoc_set n (update current d) m).

Definition merge_repos (base overrides : dict) : res by_name :=
  b ← py_iter (default (PList []) (assoc "repos" base));
  m ← res_fold add_base [] b;
  o ← py_iter (default (PList []) (assoc "repos" overrides));
  res_fold add_override m o.

Definition merge_manifest_and_overrides (base overrides : dict) : res dict :=
  match overrides with
  | [] => Ok base
  | _ =>
    w ← merge_workspace base overrides;
    let merged := match w with Some w => assoc_set "workspace" (PDict w) base | None => base end in
    m ← merge_repos base overrides;
    Ok (assoc_set "repos" (PList (map (fun nd => PDict nd.2) m)) merged)
  end.

(** ** Repositories *)

Record Repo := mkRepo {
  name : string;
  role : string;
  local_path : option path;
  url : option string;
  ref : option string;
  rev : option string;
  license_hint : option string;
  required_capabilities : pyval;
  trust_zone : option string;
  trust_profile_ref : option string;
  required_grants : pyval
}.

Definition text (v : pyval) : res string := match v with PStr s => Ok s | _ => Raise TypeError end.
Definition optional_text (v : pyval) : res (option string) :=
  match v with PNone => Ok None | PStr s => Ok (Some s) | _ => Raise TypeError end.

(** An optional text that is there and not empty. *)
Definition given (o : option string) : bool := match o with None | Some "" => false | Some _ => true end.

Section workspace.
Variable ROOT : path.

Definition load_repo (r : pyval) : res Repo :=
  lp_raw ← py_get r "local_path" PNone;
  lp ← (if truthy lp_raw then s ← text lp_raw; Ok (Some (slash ROOT s)) else Ok None);
  n ← name_of r;
  role ← py_get r "role" (PStr "component"); role ← text role;
  url ← py_get r "url" PNone; url ← optional_text url;
  ref ← py_get r "ref" PNone; ref ← optional_text ref;
  rev ← py_get r "rev" PNone; rev ← optional_text rev;
  license ← py_get r "license_hint" PNone; license ← optional_text license;
  caps ← py_get r "required_capabilities" PNone;
  zone ← py_get r "trust_zone" PNone; zone ← optional_text zone;
  profile ← py_get r "trust_profile_ref" PNone; profile ← optional_text profile;
  grants ← py_get r "required_grants" PNone;
  Ok (mkRepo n role lp url ref rev license caps zone profile grants).

Definition load_workspace_and_repos (manifest overrides : dict) : res (pyval * list Repo) :=
  data ← merge_manifest_and_overrides manifest overrides;
  let workspace := default (PDict []) (assoc "workspace" data) in
  l ← py_iter (default (PList []) (assoc "repos" data));
  repos ← res_map load_repo l;
  Ok (workspace, repos).

(** ** Roles and topology *)

Definition VALID_ROLES : list string :=
  ["adapter"; "component"; "docs"; "execution-plane"; "library"; "ontology"; "protocol"; "replay"; "security";
   "standards"; "tool"; "topic-pack"].

Definition TOPOLOGY_PREFIXES : list (string * list string) :=
  [("adapter", ["adapters/"]); ("docs", ["components/"; "docs/"]); ("execution-plane", ["components/"]);
   ("library", ["components/"]); ("ontology", ["components/"]);
   ("protocol", ["third_party/"; "protocol/"; "components/"]); ("replay", ["components/"]); ("security", ["components/"]);
   ("standards", ["components/"; "standards/"]); ("topic-pack", ["components/"]); ("component", ["components/"])].

Definition one_of_names (l : list string) (s : string) : bool := existsb (String.eqb s) l.

Definition role_error (r : Repo) : option string :=
  if one_of_names VALID_ROLES (role r) then None else Some (name r +:+ ": invalid role '" +:+ role r +:+ "'").

Definition role_errors (repos : list Repo) : list string := omap role_error repos.

Definition topology_error (r : Repo) : res (option string) :=
  match local_path r, assoc (role r) TOPOLOGY_PREFIXES with
  | Some p, Some allowed =>
    rel ← relative_to p ROOT;
    let rel := as_posix rel in
    Ok (if existsb (fun prefix => String.prefix prefix rel) allowed then None
        else Some (name r +:+ ": role '" +:+ role r +:+ "' path '" +:+ rel +:+
                   "' violates topology (allowed prefixes: " +:+ str_join ", " allowed +:+ ")"))
  | _, _ => Ok None
  end.

Definition topology_errors (repos : list Repo) : res (list string) :=
  es ← res_map topology_error repos; Ok (omap id (es : list (option string))).

(** The looser check of [check-manifest], which only warns. *)
Definition role_path_prefixes : list (string * string) :=
  [("component", "components/"); ("adapter", "adapters/"); ("third_party", "third_party/")].

Definition convention_warning (r : Repo) : res (option string) :=
  match local_path r, assoc (role r) role_path_prefixes with
  | Some p, Some expected =>
    rel ← relative_to p ROOT;
    let rel := replace_char "\" "/" (as_posix rel) in
    Ok (if String.prefix expected rel then None
        else Some (name r +:+ ": role=" +:+ role r +:+ " expects path prefix '" +:+ expected +:+ "', got '" +:+ rel +:+ "'"))
  | _, _ => Ok None
  end.

Definition convention_warnings (repos : list Repo) : res (list string) :=
  ws ← res_map convention_warning repos; Ok (omap id (ws : list (option string))).

(** ** Duplicates *)

Definition count_names (repos : list Repo) : list (string * Z) :=
  foldl (fun seen r => assoc_set (name r) (default 0%Z (assoc (name r) seen) + 1)%Z seen) [] repos.

Definition detect_duplicate_repo_names (repos : list Repo) : list string :=
  py_sort String.ltb (map fst (List.filter (fun nc => Z.ltb 1 nc.2) (count_names repos))).

Definition names_by_url (repos : list Repo) : list (string * list string) :=
  foldl (fun seen r =>
    match url r with
    | Some u => if given (url r) then assoc_set u (default [] (assoc u seen) ++ [name r])%list seen else seen
    | None => seen
    end) [] repos.

Definition detect_duplicate_repo_urls (repos : list Repo) : list string :=
  py_sort String.ltb
    (map (fun un => un.1 +:+ " -> " +:+ str_join ", " (py_sort String.ltb un.2))
       (List.filter (fun un => Nat.ltb 1 (length un.2)) (names_by_url repos))).

(** ** Policy and trust *)

Context `{FloatRepr}.
Variable exists_path : path -> bool.
Variable read_file : path -> res string.

Definition sha256_path (p : path) : res string := c ← read_file p; Ok ("sha256:" +:+ sha256_hex c).

Definition pack_check (policy : pyval) : res (list string * list string) :=
  pack_ref ← py_get policy "policy_pack_ref" PNone;
  if negb (truthy pack_ref) then Ok (["workspace.policy.policy_pack_ref missing"], [])
  else
    s ← text pack_ref;
    if negb (exists_path (slash ROOT s)) then Ok (["policy pack ref missing: " +:+ s], [])
    else
      expect ← py_get policy "policy_pack_hash" PNone;
      actual ← sha256_path (slash ROOT s);
      Ok (if negb (truthy expect) then ([], ["workspace.policy.policy_pack_hash missing"])
          else if negb (eq_str expect actual)
          then (["policy pack hash mismatch: expected " +:+ py_str expect +:+ ", got " +:+ actual], [])
          else ([], [])).

Definition trust_check (policy : pyval) : res (list string) :=
  trust_ref ← py_get policy "trust_profile_ref" PNone;
  if negb (truthy trust_ref) then Ok ["workspace.policy.trust_profile_ref missing"]
  else
    s ← text trust_ref;
    Ok (if exists_path (slash ROOT s) then [] else ["trust profile ref missing: " +:+ s]).

Definition validate_workspace_policy (workspace : pyval) : res (list string * list string) :=
  policy ← py_get workspace "policy" PNone;
  if negb (truthy policy) then Ok (["missing [workspace.policy] block"], [])
  else
    pack ← pack_check policy;
    trust ← trust_check policy;
    mode ← py_get policy "ledger_mode" PNone;
    mode_ok ← (if hashable mode
               then Ok (match mode with PNone => true | _ => existsb (eq_str mode) ["required"; "best_effort"; "off"] end)
               else Raise TypeError);
    quorum ← py_get policy "default_quorum_rule" PNone;
    let pack := (pack : list string * list string) in
    Ok (pack.1 ++ (trust : list string) ++ (if (mode_ok : bool) then [] else ["workspace.policy.ledger_mode invalid"]),
        pack.2 ++ (if truthy quorum then [] else ["workspace.policy.default_quorum_rule missing"]))%list.

Definition repo_trust_errors (r : Repo) : list string :=
  ((if bool_decide (trust_zone r = Some "control") && negb (given (trust_profile_ref r))
    then [name r +:+ ": trust_zone=control requires trust_profile_ref"] else []) ++
   match trust_profile_ref r with
   | Some s => if given (Some s) && negb (exists_path (slash ROOT s))
               then [name r +:+ ": trust profile ref missing: " +:+ s] else []
   | None => []
   end)%list.

Definition validate_trust_workspace (workspace : pyval) (repos : list Repo) : res (list string * list string) :=
  pol ← validate_workspace_policy workspace;
  let pol := (pol : list string * list string) in
  let names := map name repos in
  let missing :=
    ((if one_of_names names "agentplane" then [] else ["required trust repo missing: agentplane"]) ++
     (if one_of_names names "mcp-a2a-zero-trust" || one_of_names names "mcp_a2a_zero_trust" then []
      else ["required trust repo missing: mcp-a2a-zero-trust"]))%list in
  let dup_names := detect_duplicate_repo_names repos in
  let dup_urls := detect_duplicate_repo_urls repos in
  Ok (pol.1 ++ missing ++ concat (map repo_trust_errors repos),
      pol.2 ++ (match dup_names with [] => [] | _ => ["duplicate repo names: " +:+ str_join ", " dup_names] end) ++
      map (fun row => "duplicate repo urls: " +:+ row) dup_urls)%list.

Definition TRUST_REPO_NAMES : list string := ["agentplane"; "mcp-a2a-zero-trust"; "mcp_a2a_zero_trust"].

Definition opt_str (o : option string) : pyval := match o with Some s => PStr s | None => PNone end.

Definition relative_text (p : option path) : res pyval :=
  match p with Some p => rel ← relative_to p ROOT; Ok (PStr (as_posix rel)) | None => Ok PNone end.

Definition trust_row (r : Repo) : res pyval :=
  lp ← relative_text (local_path r);
  Ok (PDict [("name", PStr (name r)); ("role", PStr (role r)); ("localPath", lp); ("url", opt_str (url r));
             ("trustZone", opt_str (trust_zone r)); ("trustProfileRef", opt_str (trust_profile_ref r));
             ("requiredGrants", py_or (required_grants r) (PList []));
             ("requiredCapabilities", py_or (required_capabilities r) (PList []))]).

Definition in_trust_report (r : Repo) : bool :=
  one_of_names TRUST_REPO_NAMES (name r) || bool_decide (trust_zone r = Some "control") || given (trust_profile_ref r).

Definition strs (l : list string) : pyval := PList (map PStr l).

Definition trust_report_payload (now : string) (workspace : pyval) (repos : list Repo) : res pyval :=
  pol ← validate_workspace_policy workspace;
  let pol := (pol : list string * list string) in
  tr ← validate_trust_workspace workspace repos;
  let tr := (tr : list string * list string) in
  rows ← res_map trust_row (List.filter in_trust_report repos);
  wname ← py_get workspace "name" (PStr "sociosphere");
  wversion ← py_get workspace "version" (PStr "0.3");
  wpolicy ← py_get workspace "policy" (PDict []);
  Ok (PDict [("kind", PStr "TrustReportArtifact"); ("generatedAt", PStr now);
             ("workspace", PDict [("name", wname); ("version", wversion); ("policy", wpolicy)]);
             ("result", PStr (match pol.1, tr.1 with [], [] => "pass" | _, _ => "fail" end));
             ("policyErrors", strs pol.1); ("trustErrors", strs tr.1); ("warnings", strs (sorted_set (pol.2 ++ tr.2)));
             ("trustRepos", PList rows)]).
End workspace.

(** ** The overlay *)

Lemma assoc_foldl_set {A} k (l : list (string * A)) : forall d : list (string * A),
  NoDup l.*1 -> assoc k (foldl (fun d kv => assoc_set kv.1 kv.2 d) d l) = match assoc k l with Some v => Some v | None => assoc k d end.
Proof.
  induction l as [|[k' v'] l IH]; intros d Hl; [done|]. rewrite fmap_cons, NoDup_cons in Hl. destruct Hl as [Hk Hl].
  cbn [foldl fst snd assoc]. rewrite IH by done. destruct (String.eqb_spec k' k) as [->|Hne].
  - cbn [fst] in Hk. apply assoc_None in Hk. by rewrite Hk, assoc_set_eq.
  - by rewrite assoc_set_ne.
Qed.

Lemma assoc_set_NoDup {A} k (v : A) (d : list (string * A)) : NoDup d.*1 -> NoDup (assoc_set k v d).*1.
Proof.
  induction d as [|[k' v'] d IH]; cbn [assoc_set]; intros Hd.
  - rewrite fmap_cons. constructor; [apply not_elem_of_nil|constructor].
  - rewrite fmap_cons, NoDup_cons in Hd. destruct Hd as [Hk Hd].
    destruct (String.eqb_spec k' k) as [->|Hne]; rewrite fmap_cons; constructor; try done; [|by apply IH].
    rewrite assoc_set_keys. intros [E|E]; [by apply Hne|done].
Qed.

(** The entries of a list that carry a name. *)
Definition entries (n : string) (l : list pyval) : list dict :=
  omap (fun r => match r with
                 | PDict d => if eq_str (default PNone (assoc "name" d)) n then Some d else None
                 | _ => None
                 end) l.

(** What the overlay has under a name: the last entry of the manifest, or a new
    one, updated by the overrides of that name in their order. *)
Definition overlaid (n : string) (b o : list pyval) : option dict :=
  match last (entries n b), entries n o with
  | None, [] => None
  | d, os => Some (foldl update (default [("name", PStr n)] d) os)
  end.

(** Every entry is filed under the name it carries. *)
Definition filed (m : by_name) : Prop :=
  NoDup m.*1 /\ forall n d, assoc n m = Some d -> assoc "name" d = Some (PStr n).

Lemma named r n d : name_of r = Ok n -> dict_of r = Ok d -> r = PDict d /\ assoc "name" d = Some (PStr n).
Proof.
  unfold name_of, py_item. destruct r as [| | | | | |kvs]; try done.
  destruct (assoc "name" kvs) as [[| | | |s| |]|] eqn:E; cbn [of_option mbind res_bind]; try done.
  intros Hn Hd. injection Hn as ->. injection Hd as ->. done.
Qed.

Lemma entries_cons n r l n' d :
  r = PDict d -> assoc "name" d = Some (PStr n') ->
  entries n (r :: l) = ((if String.eqb n' n then [d] else []) ++ entries n l)%list.
Proof.
  intros -> E. unfold entries. cbn [omap list_omap]. rewrite E.
  change (eq_str (default PNone (Some (PStr n'))) n) with (String.eqb n' n). by destruct (String.eqb n' n).
Qed.

Lemma add_base_spec b : forall m m', res_fold add_base m b = Ok m' -> filed m ->
  filed m' /\ forall n, assoc n m' = match last (entries n b) with Some d => Some d | None => assoc n m end.
Proof.
  induction b as [|r b IH]; intros m m'; cbn [res_fold].
  { intros E Hf. injection E as <-. by split. }
  intros (m1 & Ea & Hf)%bind_Ok_inv [Hnd Hm]. unfold add_base in Ea.
  apply bind_Ok_inv in Ea as (n' & En & Ea). apply bind_Ok_inv in Ea as (d & Ed & Ea). injection Ea as <-.
  destruct (named r n' d En Ed) as [Er Hname].
  assert (Hfiled : filed (assoc_set n' d m)).
  { split; [by apply assoc_set_NoDup|]. intros n d' E. destruct (String.eqb_spec n' n) as [->|Hne].
    - rewrite assoc_set_eq in E. apply (inj Some) in E. by rewrite <- E.
    - rewrite assoc_set_ne in E by done. by apply Hm. }
  destruct (IH _ _ Hf Hfiled) as [H1 H2]. split; [done|]. intros n. rewrite H2, (entries_cons n r b n' d Er Hname).
  destruct (String.eqb_spec n' n) as [->|Hne].
  - rewrite assoc_set_eq. cbn [app]. rewrite last_cons. by destruct (last (entries n b)).
  - rewrite assoc_set_ne by done. done.
Qed.

(** A parsed table has no key twice. *)
Definition table (v : pyval) : Prop := match v with PDict d => NoDup d.*1 | _ => True end.

Lemma assoc_update k d r : NoDup r.*1 -> assoc k (update d r) = match assoc k r with Some v => Some v | None => assoc k d end.
Proof. apply assoc_foldl_set. Qed.

Lemma add_override_spec o : forall m m', res_fold add_override m o = Ok m' -> Forall table o -> filed m ->
  filed m' /\ forall n, assoc n m' =
    match assoc n m, entries n o with None, [] => None | d, os => Some (foldl update (default [("name", PStr n)] d) os) end.
Proof.
  induction o as [|r o IH]; intros m m'; cbn [res_fold].
  { intros E _ Hf. injection E as <-. split; [done|]. intros n. by destruct (assoc n m). }
  intros (m1 & Ea & Hf)%bind_Ok_inv Ht [Hnd Hm]. unfold add_override in Ea.
  apply bind_Ok_inv in Ea as (n' & En & Ea). apply bind_Ok_inv in Ea as (d & Ed & Ea). injection Ea as <-.
  destruct (named r n' d En Ed) as [Er Hname]. inversion Ht as [|? ? Htr Hto]; subst. cbn [table] in Htr.
  set (d' := update (default [("name", PStr n')] (assoc n' m)) d) in *.
  assert (Hd' : assoc "name" d' = Some (PStr n')) by (unfold d'; rewrite assoc_update by done; by rewrite Hname).
  assert (Hfiled : filed (assoc_set n' d' m)).
  { split; [by apply assoc_set_NoDup|]. intros n e E. destruct (String.eqb_spec n' n) as [->|Hne].
    - rewrite assoc_set_eq in E. apply (inj Some) in E. by rewrite <- E.
    - rewrite assoc_set_ne in E by done. by apply Hm. }
  destruct (IH _ _ Hf Hto Hfiled) as [H1 H2]. split; [done|]. intros n. rewrite H2, (entries_cons n _ o n' d eq_refl Hname).
  destruct (String.eqb_spec n' n) as [->|Hne].
  - rewrite assoc_set_eq. cbn [app foldl default]. unfold id, d'. by destruct (assoc n m).
  - rewrite assoc_set_ne by done. done.
Qed.

Lemma merge_repos_filed base overrides b o m :
  py_iter (default (PList []) (assoc "repos" base)) = Ok b ->
  py_iter (default (PList []) (assoc "repos" overrides)) = Ok o -> Forall table o ->
  merge_repos base overrides = Ok m -> filed m /\ forall n, assoc n m = overlaid n b o.
Proof.
  unfold merge_repos. intros -> -> Ht. cbn [mbind res_bind].
  destruct (res_fold add_base [] b) as [m1|] eqn:E1; cbn [mbind res_bind]; [|done]. intros E2.
  destruct (add_base_spec b [] m1 E1) as [F1 A1]; [by split; [constructor|]|].
  destruct (add_override_spec o m1 m E2 Ht F1) as [F2 A2]. split; [done|]. intros n. rewrite A2, A1. unfold overlaid. cbn [assoc].
  by destruct (last (entries n b)).
Qed.

Lemma load_repo_name ROOT r p : load_repo ROOT r = Ok p -> name_of r = Ok (name p).
Proof.
  unfold load_repo.
  intros E. repeat (apply bind_Ok_inv in E as (? & ? & E)). injection E as <-. done.
Qed.

(** The value of a key after a sequence of updates: that of the last update that
    has it. *)
Lemma foldl_update_lookup k os : forall d, Forall (fun r => NoDup r.*1) os ->
  assoc k (foldl update d os) = match last (omap (assoc k) os) with Some v => Some v | None => assoc k d end.
Proof.
  induction os as [|r os IH]; intros d Ho; [done|]. inversion Ho; subst. cbn [foldl omap list_omap].
  rewrite IH, assoc_update by done. destruct (assoc k r) as [v|]; [rewrite last_cons|]; by destruct (last (omap (assoc k) os)).
Qed.

Lemma entries_tables n o : Forall table o -> Forall (fun d : dict => NoDup d.*1) (entries n o).
Proof.
  unfold entries. induction 1 as [|r o Hr _ IH]; [constructor|]. cbn [omap list_omap].
  destruct r as [| | | | | |d]; try done. destruct (eq_str _ n); [by constructor|done].
Qed.

Lemma overlaid_lookup n b o d k :
  Forall table o -> overlaid n b o = Some d ->
  assoc k d = match last (omap (assoc k) (entries n o)) with
              | Some v => Some v
              | None => assoc k (default [("name", PStr n)] (last (entries n b)))
              end.
Proof.
  intros Ht. unfold overlaid. pose proof (entries_tables n o Ht) as He.
  destruct (last (entries n b)) as [d0|] eqn:E.
  - intros Ed. apply (inj Some) in Ed. rewrite <- Ed. by apply foldl_update_lookup.
  - destruct (entries n o) as [|r os]; [done|]. intros Ed. apply (inj Some) in Ed. rewrite <- Ed. by apply foldl_update_lookup.
Qed.

Lemma merged_repos base overrides b o data :
  overrides <> [] ->
  py_iter (default (PList []) (assoc "repos" base)) = Ok b ->
  py_iter (default (PList []) (assoc "repos" overrides)) = Ok o -> Forall table o ->
  merge_manifest_and_overrides base overrides = Ok data ->
  exists m, assoc "repos" data = Some (PList (map (fun nd => PDict nd.2) m)) /\ filed m /\ forall n, assoc n m = overlaid n b o.
Proof.
  intros Hov Hb Ho Ht. unfold merge_manifest_and_overrides. destruct overrides as [|kv ov]; [done|].
  intros (w & Hw & E)%bind_Ok_inv. apply bind_Ok_inv in E as (m & Hm & E). injection E as <-.
  exists m. split; [apply assoc_set_eq|]. by eapply merge_repos_filed.
Qed.

(** Loading a filed list: the repositories carry the names they are filed under. *)
Lemma load_filed_part ROOT (m : by_name) m0 repos :
  (forall n d, assoc n m = Some d -> assoc "name" d = Some (PStr n)) -> Forall (fun nd => assoc nd.1 m = Some nd.2) m0 ->
  Forall2 (fun nd r => load_repo ROOT (PDict nd.2) = Ok r) m0 repos ->
  map name repos = m0.*1 /\ Forall (fun r => exists d, assoc (name r) m = Some d /\ load_repo ROOT (PDict d) = Ok r) repos.
Proof.
  intros Hf Hin H. induction H as [|[n d] r m0 repos Hr H IH]; [by split; [|constructor]|].
  inversion Hin as [|? ? Hnd Hin']; subst. destruct (IH Hin') as [IH1 IH2]. cbn [fst snd] in *.
  assert (En : name r = n).
  { pose proof (load_repo_name ROOT _ _ Hr) as En. unfold name_of, py_item in En. rewrite (Hf n d Hnd) in En.
    cbn [of_option mbind res_bind] in En. by injection En. }
  cbn [map]. rewrite fmap_cons, IH1. split; [by rewrite En|]. constructor; [|done]. exists d. by rewrite En.
Qed.

Lemma load_filed ROOT m repos :
  filed m -> res_map (load_repo ROOT) (map (fun nd => PDict nd.2) m) = Ok repos ->
  map name repos = m.*1 /\ Forall (fun r => exists d, assoc (name r) m = Some d /\ load_repo ROOT (PDict d) = Ok r) repos.
Proof.
  intros [Hnd Hf] H. apply load_filed_part; [done| |].
  - apply Forall_forall. intros [n d] Hin. by apply assoc_NoDup.
  - apply res_map_Ok_Forall2 in H. by rewrite Forall2_fmap_l in H.
Qed.

(** ** Duplicate names *)

Lemma count_names_snoc repos r : count_names (repos ++ [r])%list =
  assoc_set (name r) (default 0%Z (assoc (name r) (count_names repos)) + 1)%Z (count_names repos).
Proof. unfold count_names. by rewrite foldl_app. Qed.

Definition occurrences (n : string) (repos : list Repo) : nat := length (List.filter (fun r => String.eqb (name r) n) repos).

Lemma count_names_spec repos :
  NoDup (count_names repos).*1 /\
  forall n, assoc n (count_names repos) = if Nat.eqb (occurrences n repos) 0 then None else Some (Z.of_nat (occurrences n repos)).
Proof.
  induction repos as [|r repos IH] using rev_ind; [split; [constructor|done]|]. destruct IH as [Hnd Hc].
  rewrite count_names_snoc. split; [by apply assoc_set_NoDup|]. intros n. unfold occurrences in *.
  rewrite List.filter_app, length_app. cbn [List.filter]. destruct (String.eqb_spec (name r) n) as [->|Hne]; cbn [length].
  - rewrite assoc_set_eq, Hc. destruct (length _) as [|k]; cbn [Nat.eqb default Nat.add]; [done|].
    unfold id. replace (k + 1)%nat with (S k) by lia. cbn [Nat.eqb]. f_equal. lia.
  - rewrite assoc_set_ne, Hc by done. by rewrite Nat.add_0_r.
Qed.

Lemma duplicate_names_spec repos n : n ∈ detect_duplicate_repo_names repos <-> (2 <= occurrences n repos)%nat.
Proof.
  destruct (count_names_spec repos) as [Hnd Hc]. unfold detect_duplicate_repo_names. rewrite elem_of_py_sort, list_elem_of_fmap.
  split.
  - intros ([n' c] & -> & Hin). apply list_elem_of_In, List.filter_In in Hin as [Hin Hlt]. cbn [fst snd] in *.
    apply list_elem_of_In in Hin. apply (assoc_NoDup _ _ _ Hnd) in Hin. rewrite Hc in Hin.
    destruct (Nat.eqb_spec (occurrences n' repos) 0); [done|]. injection Hin as <-. apply Z.ltb_lt in Hlt. lia.
  - intros Hn. exists (n, Z.of_nat (occurrences n repos)). split; [done|]. apply list_elem_of_In, List.filter_In. split; [|apply Z.ltb_lt; cbn; lia].
    apply list_elem_of_In, assoc_elem. rewrite Hc. destruct (Nat.eqb_spec (occurrences n repos) 0); [lia|done].
Qed.

(** ** Properties *)

(** C39: overrides are laid over the manifest by name.  With an overrides file, the
    repositories loaded have distinct names; a name is loaded exactly when the
    manifest or the overrides have it; and each repository is what the entry
    under its name loads to, whose every key has the value of the last override
    of that name that sets it, or else of the manifest's last entry of the name. *)
Theorem overlay_by_name ROOT manifest overrides b o w repos :
  overrides <> [] ->
  py_iter (default (PList []) (assoc "repos" manifest)) = Ok b ->
  py_iter (default (PList []) (assoc "repos" overrides)) = Ok o -> Forall table o ->
  load_workspace_and_repos ROOT manifest overrides = Ok (w, repos) ->
  NoDup (map name repos) /\
  (forall n, n ∈ map name repos <-> entries n b <> [] \/ entries n o <> []) /\
  (forall r, r ∈ repos -> exists d, load_repo ROOT (PDict d) = Ok r /\
     forall k, assoc k d = match last (omap (assoc k) (entries (name r) o)) with
                           | Some v => Some v
                           | None => assoc k (default [("name", PStr (name r))] (last (entries (name r) b)))
                           end).
Proof.
  intros Hov Hb Ho Ht. unfold load_workspace_and_repos. intros (data & Hd & E)%bind_Ok_inv.
  destruct (merged_repos manifest overrides b o data Hov Hb Ho Ht Hd) as (m & Hr & Hf & Ha). rewrite Hr in E.
  apply bind_Ok_inv in E as (l & Hl0 & E). injection Hl0 as <-. apply bind_Ok_inv in E as (repos' & El & E). injection E as <- <-.
  destruct (load_filed ROOT m repos' Hf El) as [Hn Hl]. split_and!.
  - rewrite Hn. apply Hf.
  - intros n. rewrite Hn. split.
    + intros Hin. destruct (assoc n m) as [d|] eqn:E; [|by apply assoc_None in E].
      rewrite Ha in E. unfold overlaid in E. destruct (entries n b); [|by left]. cbn in E. destruct (entries n o); [done|by right].
    + intros Hne. destruct (assoc n m) as [d|] eqn:E; [apply assoc_elem in E; apply list_elem_of_fmap; by exists (n, d)|].
      rewrite Ha in E. unfold overlaid in E. destruct (last (entries n b)) as [d|] eqn:El'; [done|].
      apply last_None in El'. destruct (entries n o); [|done]. rewrite El' in Hne. by destruct Hne.
  - intros r Hin. rewrite Forall_forall in Hl. destruct (Hl r Hin) as (d & Ed & Er). exists d. split; [done|].
    intros k. apply overlaid_lookup; [done|]. by rewrite <- Ha.
Qed.

(** The topology is a test on the text of a path: one that leaves the workspace
    through [..] passes it. *)
Theorem topology_escapes :
  exists r, load_repo ["home"; "ws"] (PDict [("name", PStr "x"); ("local_path", PStr "components/../../etc")]) = Ok r /\
    topology_errors ["home"; "ws"] [r] = Ok [] /\ local_path r = Some ["home"; "ws"; "components"; ".."; ".."; "etc"].
Proof. eexists. vm_compute. auto. Qed.

(** ** Witnesses *)

Definition demo_manifest : dict :=
  [("repos", PList [PDict [("name", PStr "a"); ("url", PStr "u1")]; PDict [("name", PStr "b")]])].
Definition demo_overrides : dict := [("repos", PList [PDict [("name", PStr "a"); ("url", PStr "u2")]])].

Lemma overlay_by_name_witness : exists w repos,
  load_workspace_and_repos ["ws"] demo_manifest demo_overrides = Ok (w, repos) /\
  NoDup (map name repos) /\ map url repos = [Some "u2"; None].
Proof.
  eexists _, _. split; [vm_compute; reflexivity|].
  split; [|vm_compute; reflexivity].
  refine (proj1 (overlay_by_name ["ws"] demo_manifest demo_overrides
    [PDict [("name", PStr "a"); ("url", PStr "u1")]; PDict [("name", PStr "b")]] [PDict [("name", PStr "a"); ("url", PStr "u2")]] _ _ _ _ _ _ _)).
  - discriminate.
  - reflexivity.
  - reflexivity.
  - constructor; [|constructor]. apply NoDup_ListNoDup. repeat constructor; cbn; intuition discriminate.
  - vm_compute. reflexivity.
Defined.
