(* ===== verification/Runner.v ===== *)
(** * The workspace runner

    Models the commands of [tools/runner/runner.py] over the data of [Workspace]:
    listing, inventory, the verification and the update of the lock, fetching,
    running a task, the reports and the bill of materials.

    Commands that only look at the checkouts take a view of the file system
    ([files]); [fetch] and [run] change a world of any type through the git and
    process calls, which are arguments and may raise.  A command returns its exit
    code and what it writes; the lock file is the value it holds.  The entries of
    the lock are updated in place through an index of them by name, so the index
    is one of positions. *)

From S2P Require Import Prelude PyVal Json PyText Sha256 Effects Workspace.
Local Open Scope string_scope.
Local Open Scope Z_scope.

(** ** Checkouts *)

(** What the read-only commands see: which paths exist, what files hold, and what
    [git rev-parse HEAD] prints in a directory ([None] when it fails). *)
Record files := mkFiles {
  exists_at : path -> bool;
  content : path -> res string;
  git_head : path -> option string
}.

Definition repo_is_git (fs : files) (p : option path) : bool :=
  match p with Some p => exists_at fs (p ++ [".git"])%list | None => false end.

Definition repo_head_rev (fs : files) (p : option path) : option string :=
  match p with
  | Some q => if repo_is_git fs p then git_head fs q else None
  | None => None
  end.

Definition materialized_status (fs : files) (p : option path) : string :=
  match p with
  | None => "REMOTE"
  | Some q => if negb (exists_at fs q) then "MISSING" else if repo_is_git fs p then "GIT" else "LOCAL"
  end.

(** ** The lock *)

Definition lock_entries (lock : pyval) : res (list pyval) :=
  v ← py_get lock "repos" (PList []); py_iter v.

Fixpoint find_rev (n : string) (l : list pyval) : res pyval :=
  match l with
  | [] => Ok PNone
  | r :: l => m ← py_get r "name" PNone; if eq_str m n then py_get r "rev" PNone else find_rev n l
  end.

Definition locked_rev (lock : pyval) (n : string) : res pyval := l ← lock_entries lock; find_rev n l.

(** [lrev and head and lrev != head]. *)
Definition differs (lrev : pyval) (head : option string) : bool :=
  truthy lrev && match head with Some h => given (Some h) && negb (eq_str lrev h) | None => false end.

(** ** Inventory, list and bill of materials *)

Section reports.
Variable ROOT : path.
Variable fs : files.

Definition path_text (p : path) : string := "/" +:+ str_join "/" p.

Definition inventory_row (lock : pyval) (r : Repo) : res pyval :=
  let head := repo_head_rev fs (local_path r) in
  lrev ← locked_rev lock (name r);
  Ok (PDict [("name", PStr (name r)); ("role", PStr (role r));
             ("localPath", match local_path r with Some p => PStr (path_text p) | None => PNone end);
             ("url", opt_str (url r)); ("ref", opt_str (ref r)); ("rev", opt_str (rev r)); ("headRev", opt_str head);
             ("status", PStr (materialized_status fs (local_path r))); ("lockDrift", PBool (differs lrev head))]).

Definition inventory_payload (now manifest_digest lock_digest : string) (repos : list Repo) (lock : pyval) : res pyval :=
  rows ← res_map (inventory_row lock) repos;
  Ok (PDict [("kind", PStr "WorkspaceInventoryArtifact");
             ("workspace", PDict [("name", PStr "sociosphere"); ("version", PStr "0.3")]);
             ("generatedAt", PStr now); ("manifestDigest", PStr manifest_digest); ("lockDigest", PStr lock_digest);
             ("runnerVersion", PStr "0.3"); ("repos", PList rows)]).

Definition manifest_messages (repos : list Repo) : res (list string) :=
  t ← topology_errors ROOT repos; Ok (role_errors repos ++ (t : list string))%list.

(** [list]: the exit code and the artifact it writes when asked for one. *)
Definition cmd_list (json_out : bool) (now manifest_digest lock_digest : string) (repos : list Repo) (lock : pyval) :
    res (Z * option pyval) :=
  errs ← manifest_messages repos;
  _ ← res_map (fun r => locked_rev lock (name r)) repos;
  payload ← (if json_out then
               p ← inventory_payload now manifest_digest lock_digest repos lock;
               Ok (Some (match errs, p with
                         | _ :: _, PDict d => PDict (assoc_set "messages" (strs errs) d)
                         | _, _ => p
                         end))
             else Ok None);
  Ok (match errs with [] => 0 | _ => 2 end, payload).

Definition inventory_record (lock : pyval) (r : Repo) : res pyval :=
  lrev ← locked_rev lock (name r);
  lp ← relative_text ROOT (local_path r);
  Ok (PDict [("name", PStr (name r)); ("role", PStr (role r)); ("rev", lrev); ("license_hint", opt_str (license_hint r));
             ("url", opt_str (url r)); ("local_path", lp);
             ("materialized", PBool (match local_path r with Some p => exists_at fs p | None => false end))]).

Definition cmd_inventory (repos : list Repo) (lock : pyval) : res pyval :=
  rows ← res_map (inventory_record lock) repos; Ok (PList rows).

(** [{r["name"]: r for r in lock["repos"]}]: the position of the last entry of
    each name. *)
Definition lock_index (l : list pyval) : res (list (string * nat)) :=
  res_fold (fun ix (ir : nat * pyval) => n ← name_of ir.2; Ok (assoc_set n ir.1 ix)) [] (enumerate 0 l).

Definition sbom_component (l : list pyval) (ix : list (string * nat)) (r : Repo) : res pyval :=
  let lr := default (PDict []) (i ← assoc (name r) ix; l !! i) in
  rev ← py_get lr "rev" PNone;
  version ← (if truthy rev then s ← text rev; Ok (str_take 12 s) else Ok "unresolved");
  let refs := match url r with
              | Some u => if given (url r) then [PDict [("type", PStr "vcs"); ("url", PStr u)]] else []
              | None => []
              end in
  Ok (PDict ([("type", PStr "library"); ("bom-ref", PStr ("sociosphere:" +:+ name r)); ("name", PStr (name r));
              ("version", PStr version); ("description", PStr ("Workspace component; role=" +:+ role r));
              ("externalReferences", PList refs)] ++
             if truthy rev then [("hashes", PList [PDict [("alg", PStr "SHA-1"); ("content", rev)]])] else [])%list).

Definition cmd_sbom (uuid timestamp : string) (repos : list Repo) (lock : pyval) : res pyval :=
  l ← lock_entries lock;
  ix ← lock_index l;
  components ← res_map (sbom_component l ix) repos;
  Ok (PDict [("bomFormat", PStr "CycloneDX"); ("specVersion", PStr "1.4"); ("serialNumber", PStr ("urn:uuid:" +:+ uuid));
             ("version", PInt 1);
             ("metadata", PDict [("timestamp", PStr timestamp);
                ("component", PDict [("type", PStr "application"); ("name", PStr "sociosphere"); ("version", PStr "0.1");
                                     ("bom-ref", PStr "sociosphere:workspace")])]);
             ("components", PList components)]).

(** ** Verifying and updating the lock *)

(** Whether a repository can be materialized, and whether its checkout is at
    another revision than the lock says. *)
Definition unresolvable (lock : pyval) (r : Repo) : res bool :=
  lrev ← locked_rev lock (name r);
  Ok (String.eqb (materialized_status fs (local_path r)) "MISSING" &&
      negb (given (url r) || truthy lrev || given (rev r))).

Definition drifts (lock : pyval) (r : Repo) : res bool :=
  lrev ← locked_rev lock (name r);
  let head := if String.eqb (materialized_status fs (local_path r)) "MISSING" then None
              else repo_head_rev fs (local_path r) in
  Ok (differs lrev head).

Definition names_where (f : Repo -> res bool) (repos : list Repo) : res (list string) :=
  l ← res_map (fun r => b ← f r; Ok (if (b : bool) then Some (name r) else None)) repos;
  Ok (omap id (l : list (option string))).

Record verification := mkVerification {
  v_messages : list string;
  v_unresolved : list string;
  v_drifted : list string
}.

Definition lock_verification (repos : list Repo) (lock : pyval) : res verification :=
  msgs ← manifest_messages repos;
  unr ← names_where (unresolvable lock) repos;
  dr ← names_where (drifts lock) repos;
  Ok (mkVerification msgs unr dr).

Definition passes (v : verification) : bool :=
  match v_messages v, v_unresolved v, v_drifted v with [], [], [] => true | _, _, _ => false end.

Definition cmd_lock_verify (now : string) (repos : list Repo) (lock : pyval) : res (Z * pyval) :=
  v ← lock_verification repos lock;
  Ok (if passes v then 0 else 2,
      PDict [("kind", PStr "LockVerificationArtifact"); ("generatedAt", PStr now);
             ("result", PStr (if passes v then "pass" else "fail")); ("unresolvedRepos", strs (v_unresolved v));
             ("driftedRepos", strs (v_drifted v)); ("messages", strs (v_messages v))]).

(** The head a repository is pinned to, if it is. *)
Definition pin_of (r : Repo) : option string :=
  match local_path r with
  | Some p =>
    if given (url r) && exists_at fs p && repo_is_git fs (Some p) then
      match repo_head_rev fs (Some p) with Some h => if given (Some h) then Some h else None | None => None end
    else None
  | None => None
  end.

Record locking := mkLocking { l_entries : list pyval; l_index : list (string * nat); l_updated : Z }.

Definition new_entry (now head : string) (r : Repo) : res pyval :=
  lp ← relative_text ROOT (local_path r);
  Ok (PDict [("name", PStr (name r)); ("role", PStr (role r)); ("url", opt_str (url r)); ("ref", opt_str (ref r));
             ("rev", PStr head); ("local_path", lp); ("tree_hash", PNone); ("retrieved_at", PStr now)]).

Definition repinned (now head : string) (r : Repo) (e : pyval) : pyval :=
  match e with
  | PDict d => PDict (assoc_set "retrieved_at" (PStr now) (assoc_set "url" (opt_str (url r)) (assoc_set "rev" (PStr head) d)))
  | _ => e
  end.

(** One repository: its entry, at the position the index gives, or a new one. *)
Definition update_one (is_a_list : bool) (now : string) (s : locking) (r : Repo) : res locking :=
  match pin_of r with
  | None => Ok s
  | Some head =>
    match assoc (name r) (l_index s) with
    | None =>
      e ← new_entry now head r;
      if is_a_list
      then Ok (mkLocking (l_entries s ++ [e])%list (assoc_set (name r) (length (l_entries s)) (l_index s)) (l_updated s + 1))
      else Raise AttributeError
    | Some i => Ok (mkLocking (alter (repinned now head r) i (l_entries s)) (l_index s) (l_updated s + 1))
    end
  end.

(** The lock a run starts from: an empty one counts as none. *)
Definition lock_or_new (lock : pyval) : pyval :=
  if truthy lock then lock
  else PDict [("workspace", PDict [("name", PStr "sociosphere"); ("version", PStr "0.1")]); ("repos", PList [])].

Definition cmd_lock_update (now : string) (repos : list Repo) (lock : pyval) : res pyval :=
  let lock := lock_or_new lock in
  v ← py_get lock "repos" (PList []);
  l ← py_iter v;
  ix ← lock_index l;
  s ← res_fold (update_one (is_list v) now) (mkLocking l ix 0) repos;
  match lock with
  | PDict d =>
    let d := if is_list v && (assoc_mem "repos" d || negb (Nat.eqb (length (l_entries s)) 0))
             then assoc_set "repos" (PList (l_entries s)) d else d in
    Ok (PDict (assoc_set "generated_at" (PStr now) d))
  | _ => Raise AttributeError
  end.
End reports.

(** ** The lock by name *)

Definition entry_name (e : pyval) : option string :=
  match e with PDict d => match assoc "name" d with Some (PStr n) => Some n | _ => None end | _ => None end.

Definition entry_rev (e : pyval) : pyval := match e with PDict d => default PNone (assoc "rev" d) | _ => PNone end.

(** A lock whose entries are tables with distinct names, the given ones. *)
Definition named_entries (l : list pyval) (ns : list string) : Prop := map entry_name l = map Some ns /\ NoDup ns.

Lemma entry_name_Some e n : entry_name e = Some n -> exists d, e = PDict d /\ assoc "name" d = Some (PStr n).
Proof.
  destruct e as [| | | | | |d]; try done. cbn [entry_name]. destruct (assoc "name" d) as [[| | | |s| |]|] eqn:E; try done.
  intros H. injection H as <-. by exists d.
Qed.

Lemma named_entries_lookup l ns i n : named_entries l ns -> ns !! i = Some n -> exists e, l !! i = Some e /\ entry_name e = Some n.
Proof.
  intros [E _] Hi. assert (H : map entry_name l !! i = Some (Some n)) by (rewrite E, list_lookup_fmap, Hi; done).
  rewrite list_lookup_fmap in H. destruct (l !! i) as [e|]; [|done]. exists e. split; [done|]. by injection H.
Qed.

Lemma named_entries_length l ns : named_entries l ns -> length l = length ns.
Proof. intros [E _]. apply (f_equal length) in E. by rewrite !length_map in E. Qed.

Lemma named_entries_cons e l m ns :
  named_entries (e :: l) (m :: ns) -> exists d, e = PDict d /\ assoc "name" d = Some (PStr m) /\ m ∉ ns /\ named_entries l ns.
Proof.
  intros [E Hnd]. cbn [map] in E. injection E as Em E. apply entry_name_Some in Em as (d & -> & Hd).
  apply NoDup_cons in Hnd as [Hm Hnd]. exists d. done.
Qed.

Lemma find_rev_cons n d m l : assoc "name" d = Some (PStr m) ->
  find_rev n (PDict d :: l) = if String.eqb m n then Ok (entry_rev (PDict d)) else find_rev n l.
Proof. intros Hd. cbn [find_rev py_get mbind res_bind]. rewrite Hd. done. Qed.

Lemma find_rev_in n l : forall ns i e, named_entries l ns -> ns !! i = Some n -> l !! i = Some e -> find_rev n l = Ok (entry_rev e).
Proof.
  induction l as [|e0 l IH]; intros [|m ns] i e Hl Hi He; try done.
  apply named_entries_cons in Hl as (d & -> & Hd & Hm & Hl). rewrite (find_rev_cons n d m l Hd).
  destruct i as [|i]; cbn [lookup list_lookup] in Hi, He.
  - injection Hi as ->. injection He as <-. by rewrite String.eqb_refl.
  - destruct (String.eqb_spec m n) as [->|Hne]; [by destruct Hm; apply list_elem_of_lookup; exists i|]. by eapply IH.
Qed.

Lemma find_rev_out n l : forall ns, named_entries l ns -> n ∉ ns -> find_rev n l = Ok PNone.
Proof.
  induction l as [|e0 l IH]; intros [|m ns] Hl Hn; try done; [by destruct Hl|].
  apply named_entries_cons in Hl as (d & -> & Hd & _ & Hl). rewrite (find_rev_cons n d m l Hd).
  apply not_elem_of_cons in Hn as [Hne Hn]. destruct (String.eqb_spec m n) as [->|_]; [done|]. by eapply IH.
Qed.

(** The index of a lock with distinct names. *)
Definition indexes (ix : list (string * nat)) (ns : list string) : Prop := forall n i, assoc n ix = Some i <-> ns !! i = Some n.

Lemma indexes_snoc ix ns n : indexes ix ns -> n ∉ ns -> indexes (assoc_set n (length ns) ix) (ns ++ [n])%list.
Proof.
  intros H Hn m i. destruct (String.eqb_spec n m) as [->|Hne].
  - rewrite assoc_set_eq. split.
    + intros E. injection E as <-. by apply list_lookup_middle.
    + intros E. f_equal. apply lookup_snoc_Some in E as [[_ E]|[-> _]]; [|done]. destruct Hn. apply list_elem_of_lookup. by exists i.
  - rewrite assoc_set_ne by done. rewrite lookup_snoc_Some. etransitivity; [apply (H m i)|]. split.
    + intros E. left. split; [by eapply lookup_lt_Some|done].
    + by intros [[_ E]|[_ E]].
Qed.

Lemma lock_index_from l : forall ns0 ns ix, named_entries l ns -> NoDup (ns0 ++ ns)%list -> indexes ix ns0 ->
  exists ix', res_fold (fun ix (ir : nat * pyval) => n ← name_of ir.2; Ok (assoc_set n ir.1 ix)) ix (enumerate (length ns0) l) = Ok ix' /\
    indexes ix' (ns0 ++ ns)%list.
Proof.
  induction l as [|e l IH]; intros ns0 [|m ns] ix Hl Hnd Hix; [|by destruct Hl..|].
  { exists ix. split; [done|]. by rewrite app_nil_r. }
  apply named_entries_cons in Hl as (d & -> & Hd & Hm & Hl). cbn [enumerate res_fold].
  assert (Hname : name_of (PDict d) = Ok m) by (unfold name_of, py_item; by rewrite Hd).
  cbn [snd fst]. rewrite Hname. cbn [mbind res_bind].
  assert (Hm0 : m ∉ ns0) by (intros Hin; apply NoDup_app in Hnd as (_ & Hnd & _); apply (Hnd m Hin); left).
  rewrite (cons_middle m ns0 ns), app_assoc in Hnd |- *.
  destruct (IH (ns0 ++ [m])%list ns (assoc_set m (length ns0) ix) Hl Hnd (indexes_snoc _ _ _ Hix Hm0)) as (ix' & E & Hix').
  exists ix'. split; [|done]. rewrite length_app in E. cbn [length] in E. by rewrite Nat.add_1_r in E.
Qed.

Lemma lock_index_spec l ns : named_entries l ns -> exists ix, lock_index l = Ok ix /\ indexes ix ns.
Proof.
  intros Hl. destruct (lock_index_from l [] ns [] Hl) as (ix & E & Hix); [by destruct Hl|by intros n i|]. by exists ix.
Qed.

(** ** An update, repository by repository *)

Section updating.
Variable ROOT : path.
Variable fs : files.
Variable now : string.

(** The lock under construction: distinct names, and the index of them. *)
Definition consistent (s : locking) : Prop := exists ns, named_entries (l_entries s) ns /\ indexes (l_index s) ns.

Lemma repinned_name head r e : entry_name (repinned now head r e) = entry_name e.
Proof. destruct e as [| | | | | |d]; try done. cbn [repinned entry_name]. by rewrite !assoc_set_ne. Qed.

Lemma repinned_rev head r e n : entry_name e = Some n -> entry_rev (repinned now head r e) = PStr head.
Proof.
  intros (d & -> & _)%entry_name_Some. cbn [repinned entry_rev]. rewrite !assoc_set_ne by done. by rewrite assoc_set_eq.
Qed.

Lemma alter_named l ns i head r : named_entries l ns -> named_entries (alter (repinned now head r) i l) ns.
Proof.
  intros [E Hnd]. split; [|done]. rewrite <- E. apply list_eq. intros j. rewrite !list_lookup_fmap.
  destruct (decide (i = j)) as [->|Hne].
  - rewrite list_lookup_alter_eq. destruct (l !! j) as [e|]; [|done]. cbn. by rewrite repinned_name.
  - by rewrite list_lookup_alter_ne.
Qed.

Lemma new_entry_spec head r e : new_entry ROOT now head r = Ok e -> entry_name e = Some (name r) /\ entry_rev e = PStr head.
Proof. unfold new_entry. intros (lp & _ & E)%bind_Ok_inv. by injection E as <-. Qed.

Lemma snoc_named l ns e n : named_entries l ns -> entry_name e = Some n -> n ∉ ns -> named_entries (l ++ [e])%list (ns ++ [n])%list.
Proof.
  intros [E Hnd] He Hn. split; [rewrite !map_app, E; cbn; by rewrite He|].
  apply NoDup_app. split_and!; [done| |apply NoDup_singleton]. intros x Hx Hx'. apply list_elem_of_singleton in Hx' as ->. done.
Qed.

Lemma update_one_spec flag s r s' :
  consistent s -> update_one ROOT fs flag now s r = Ok s' ->
  consistent s' /\ forall n, find_rev n (l_entries s') =
    match pin_of fs r with Some h => if String.eqb (name r) n then Ok (PStr h) else find_rev n (l_entries s) | None => find_rev n (l_entries s) end.
Proof.
  intros (ns & Hl & Hix). unfold update_one. destruct (pin_of fs r) as [head|]; [|intros E; injection E as <-; split; [by exists ns|done]].
  destruct (assoc (name r) (l_index s)) as [i|] eqn:Ei.
  - intros E. injection E as <-. cbn [l_entries l_index]. pose proof (alter_named _ ns i head r Hl) as Hl'.
    split; [by exists ns|]. apply Hix in Ei. intros n. destruct (String.eqb_spec (name r) n) as [<-|Hne].
    + destruct (named_entries_lookup _ _ _ _ Hl Ei) as (e & He & Hn).
      rewrite (find_rev_in _ _ ns i (repinned now head r e) Hl' Ei); [by rewrite (repinned_rev _ _ _ _ Hn)|].
      by rewrite list_lookup_alter_eq, He.
    + destruct (decide (n ∈ ns)) as [[j Hj]%list_elem_of_lookup|Hn]; [|by rewrite !(find_rev_out _ _ ns)].
      destruct (named_entries_lookup _ _ _ _ Hl Hj) as (e & He & _).
      rewrite (find_rev_in _ _ ns j e Hl Hj He). apply (find_rev_in _ _ ns j); [done|done|].
      rewrite list_lookup_alter_ne; [done|]. intros ->. rewrite Hj in Ei. by injection Ei.
  - intros (e & He & E)%bind_Ok_inv. destruct flag; [|done]. injection E as <-. cbn [l_entries l_index].
    destruct (new_entry_spec _ _ _ He) as [Hname Hrev].
    assert (Hn : name r ∉ ns) by (intros [i Hi]%list_elem_of_lookup; apply Hix in Hi; by rewrite Ei in Hi).
    pose proof (snoc_named _ _ _ _ Hl Hname Hn) as Hl'. split.
    + exists (ns ++ [name r])%list. split; [done|]. rewrite (named_entries_length _ _ Hl). by apply indexes_snoc.
    + intros n. destruct (String.eqb_spec (name r) n) as [<-|Hne].
      * rewrite <- Hrev. apply (find_rev_in _ _ (ns ++ [name r])%list (length ns)); [done|by apply list_lookup_middle|].
        rewrite <- (named_entries_length _ _ Hl). by apply list_lookup_middle.
      * destruct (decide (n ∈ ns)) as [[j Hj]%list_elem_of_lookup|Hns].
        -- destruct (named_entries_lookup _ _ _ _ Hl Hj) as (e' & He' & _). rewrite (find_rev_in _ _ ns j e' Hl Hj He').
           apply (find_rev_in _ _ (ns ++ [name r])%list j); [done|by apply lookup_app_l_Some|by apply lookup_app_l_Some].
        -- rewrite (find_rev_out _ _ ns Hl Hns). apply (find_rev_out _ _ (ns ++ [name r])%list Hl').
           rewrite not_elem_of_app, list_elem_of_singleton. auto.
Qed.

(** The last pin of a name. *)
Definition pin_for (n : string) (repos : list Repo) : option string :=
  last (omap (fun r => if String.eqb (name r) n then pin_of fs r else None) repos).

Lemma update_all_spec flag repos : forall s s',
  consistent s -> res_fold (update_one ROOT fs flag now) s repos = Ok s' ->
  consistent s' /\ forall n, find_rev n (l_entries s') =
    match pin_for n repos with Some h => Ok (PStr h) | None => find_rev n (l_entries s) end.
Proof.
  induction repos as [|r repos IH]; intros s s' Hs; cbn [res_fold]; [intros E; injection E as <-; done|].
  intros (s1 & E1 & E2)%bind_Ok_inv. destruct (update_one_spec flag s r s1 Hs E1) as [Hs1 H1].
  destruct (IH s1 s' Hs1 E2) as [Hs' H2]. split; [done|]. intros n. rewrite H2, H1. unfold pin_for. cbn [omap list_omap].
  destruct (String.eqb (name r) n); [|by destruct (pin_of fs r)].
  destruct (pin_of fs r) as [h|]; [|done]. rewrite last_cons. by destruct (last _).
Qed.

Lemma pin_for_absent n repos : n ∉ map name repos -> pin_for n repos = None.
Proof.
  unfold pin_for. induction repos as [|r repos IH]; cbn [map omap list_omap]; [done|]. intros [Hne Hn]%not_elem_of_cons.
  destruct (String.eqb_spec (name r) n) as [E|_]; [by rewrite E in Hne|]. by apply IH.
Qed.

Lemma pin_for_distinct repos r : NoDup (map name repos) -> r ∈ repos -> pin_for (name r) repos = pin_of fs r.
Proof.
  induction repos as [|r0 repos IH]; intros Hnd Hin; [by apply elem_of_nil in Hin|].
  cbn [map] in Hnd. apply NoDup_cons in Hnd as [Hr0 Hnd]. unfold pin_for in *. cbn [omap list_omap].
  apply elem_of_cons in Hin as [->|Hin].
  - rewrite String.eqb_refl. assert (E : omap (fun r => if String.eqb (name r) (name r0) then pin_of fs r else None) repos = []).
    { clear IH Hnd. induction repos as [|r repos IH]; [done|]. cbn [map] in Hr0. apply not_elem_of_cons in Hr0 as [Hne Hr0].
      cbn [omap list_omap]. destruct (String.eqb_spec (name r) (name r0)); [by destruct Hne|by apply IH]. }
    rewrite E. by destruct (pin_of fs r0).
  - destruct (String.eqb_spec (name r0) (name r)) as [E|_]; [|by apply IH].
    destruct Hr0. rewrite E. apply list_elem_of_fmap. by exists r.
Qed.

(** *** Entry by entry *)

(** What an update makes of an entry: the pin of the repository with its name. *)
Definition pinned_as (n : string) (r : Repo) : bool := String.eqb (name r) n && match pin_of fs r with Some _ => true | None => false end.

Definition repin (repos : list Repo) (e : pyval) : pyval :=
  match entry_name e with
  | Some n =>
    match List.find (pinned_as n) repos with
    | Some r => match pin_of fs r with Some h => repinned now h r e | None => e end
    | None => e
    end
  | None => e
  end.

(** The repositories that get an entry of their own, and that entry. *)
Definition gets_entry (ns : list string) (r : Repo) : bool :=
  negb (existsb (String.eqb (name r)) ns) && match pin_of fs r with Some _ => true | None => false end.
Definition entry_for (r : Repo) (e : pyval) : Prop := exists h, pin_of fs r = Some h /\ new_entry ROOT now h r = Ok e.

Lemma find_snoc {A} (f : A -> bool) l x : List.find f (l ++ [x]) = match List.find f l with Some y => Some y | None => if f x then Some x else None end.
Proof. induction l as [|y l IH]; cbn; [done|]. by destruct (f y). Qed.

Lemma find_other n repos : n ∉ map name repos -> List.find (pinned_as n) repos = None.
Proof.
  induction repos as [|r repos IH]; cbn [map List.find]; [done|]. intros [Hne Hn]%not_elem_of_cons. unfold pinned_as at 1.
  destruct (String.eqb_spec (name r) n) as [E|_]; [by rewrite E in Hne|]. by apply IH.
Qed.

Lemma repin_unpinned repos r e : pin_of fs r = None -> repin (repos ++ [r]) e = repin repos e.
Proof.
  intros Hp. unfold repin. destruct (entry_name e) as [n|]; [|done]. rewrite find_snoc. destruct (List.find _ repos); [done|].
  unfold pinned_as. by rewrite Hp, andb_false_r.
Qed.

Lemma repin_other repos r e : entry_name e <> Some (name r) -> repin (repos ++ [r]) e = repin repos e.
Proof.
  intros Hne. unfold repin. destruct (entry_name e) as [n|]; [|done]. rewrite find_snoc. destruct (List.find _ repos); [done|].
  unfold pinned_as. by destruct (String.eqb_spec (name r) n) as [<-|_].
Qed.

Lemma repin_new repos r h e : name r ∉ map name repos -> entry_name e = Some (name r) -> pin_of fs r = Some h ->
  repin repos e = e /\ repin (repos ++ [r]) e = repinned now h r e.
Proof.
  intros Hn He Hp. unfold repin. rewrite He, find_snoc, (find_other _ _ Hn). unfold pinned_as.
  rewrite String.eqb_refl, Hp. cbn [andb]. by rewrite Hp.
Qed.

Lemma entries_for_named rs added : Forall2 entry_for rs added -> map entry_name added = map Some (map name rs).
Proof. induction 1 as [|r e rs added (h & _ & He) _ IH]; [done|]. cbn [map]. rewrite IH. by destruct (new_entry_spec _ _ _ He) as [-> _]. Qed.

Lemma repin_name repos e : entry_name (repin repos e) = entry_name e.
Proof.
  unfold repin. destruct (entry_name e) as [n|] eqn:E; [|done]. destruct (List.find _ repos) as [r|]; [|done].
  destruct (pin_of fs r); [|done]. by rewrite repinned_name.
Qed.

Lemma not_existsb_name n ns : existsb (String.eqb n) ns = false <-> n ∉ ns.
Proof.
  rewrite <- not_true_iff_false, existsb_exists. split.
  - intros H Hin. apply H. exists n. rewrite <- list_elem_of_In, String.eqb_refl. done.
  - intros H (x & Hx & E). apply String.eqb_eq in E as <-. by apply H, list_elem_of_In.
Qed.

(** The entries of the lock after an update: the old ones in place, repinned
    where a checkout with their name is, and then the new ones. *)
Lemma update_all_entries flag l ns ix repos : forall s,
  named_entries l ns -> indexes ix ns -> NoDup (map name repos) ->
  res_fold (update_one ROOT fs flag now) (mkLocking l ix 0) repos = Ok s ->
  exists added, l_entries s = (map (repin repos) l ++ added)%list /\ Forall2 entry_for (List.filter (gets_entry ns) repos) added.
Proof.
  induction repos as [|r repos IH] using rev_ind; intros s Hl Hix Hnd Hs.
  { injection Hs as <-. exists []. cbn [l_entries List.filter]. split; [|done]. rewrite app_nil_r. rewrite <- (map_id l) at 1.
    apply map_ext. intros e. unfold repin. by destruct (entry_name e). }
  rewrite map_app in Hnd. apply NoDup_app in Hnd as (Hnd & Hr & _).
  assert (Hnr : name r ∉ map name repos) by (intros Hin; apply (Hr _ Hin); left). clear Hr.
  rewrite res_fold_app in Hs. apply bind_Ok_inv in Hs as (s1 & E1 & E2). cbn [res_fold] in E2. apply bind_Ok_inv in E2 as (s2 & E2 & [= <-]).
  destruct (IH s1 Hl Hix Hnd E1) as (added & He & Ha). destruct (update_all_spec flag repos (mkLocking l ix 0) s1 (ex_intro _ ns (conj Hl Hix)) E1) as [(ns1 & Hl1 & Hix1) _].
  assert (Hns1 : ns1 = (ns ++ map name (List.filter (gets_entry ns) repos))%list).
  { destruct Hl1 as [E _]. apply (inj (fmap (M:=list) Some)). change (map Some ns1 = map Some (ns ++ map name (List.filter (gets_entry ns) repos))).
    rewrite <- E, He, map_app, (entries_for_named _ _ Ha), map_map, map_app. f_equal.
    rewrite (map_ext _ entry_name); [apply Hl|]. apply repin_name. }
  assert (Hadd : name r ∉ map name (List.filter (gets_entry ns) repos)).
  { intros Hin. apply Hnr. apply list_elem_of_fmap in Hin as (x & -> & Hx). apply list_elem_of_fmap. exists x. split; [done|].
    apply list_elem_of_In, List.filter_In in Hx as [Hx _]. by apply list_elem_of_In. }
  rewrite List.filter_app. cbn [List.filter]. unfold update_one in E2. destruct (pin_of fs r) as [h|] eqn:Ep.
  2: { injection E2 as <-. exists added. unfold gets_entry at 2. rewrite Ep, andb_false_r, app_nil_r. split; [|done]. rewrite He. f_equal.
       apply map_ext. intros e. by rewrite repin_unpinned. }
  destruct (assoc (name r) (l_index s1)) as [i|] eqn:Ei.
  - injection E2 as <-. cbn [l_entries]. apply Hix1 in Ei. rewrite Hns1 in Ei.
    apply lookup_app_Some in Ei as [Ei|[_ Ei]]; [|destruct Hadd; by eapply list_elem_of_lookup_2].
    assert (Hin : name r ∈ ns) by (by eapply list_elem_of_lookup_2).
    exists added. unfold gets_entry at 2. destruct (existsb (String.eqb (name r)) ns) eqn:Ex; [|by apply not_existsb_name in Ex].
    cbn [negb andb]. rewrite app_nil_r. split; [|done]. rewrite He.
    rewrite alter_app_l by (rewrite length_map, (named_entries_length _ _ Hl); by eapply lookup_lt_Some). f_equal.
    apply list_eq. intros j. destruct (decide (i = j)) as [<-|Hne].
    + rewrite list_lookup_alter_eq, !list_lookup_fmap. destruct (named_entries_lookup _ _ _ _ Hl Ei) as (e & -> & Hn). cbn.
      destruct (repin_new repos r h e Hnr Hn Ep) as [-> ->]. done.
    + rewrite list_lookup_alter_ne, !list_lookup_fmap by done. destruct (l !! j) as [e|] eqn:Ej; [|done]. cbn. f_equal.
      symmetry. apply repin_other. intros Hn. apply Hne. destruct Hl as [E Hnd']. apply (NoDup_lookup ns i j (name r) Hnd' Ei).
      assert (H : map entry_name l !! j = Some (Some (name r))) by (rewrite list_lookup_fmap, Ej; cbn; by rewrite Hn).
      rewrite E, list_lookup_fmap in H. destruct (ns !! j); [|done]. by injection H as ->.
  - apply bind_Ok_inv in E2 as (e & Ee & E2). destruct flag; [|done]. injection E2 as <-. cbn [l_entries].
    assert (Hn : name r ∉ ns).
    { intros [i Hi]%list_elem_of_lookup. enough (Some i = None) by done. rewrite <- Ei. symmetry. apply Hix1. rewrite Hns1. by apply lookup_app_l_Some. }
    exists (added ++ [e])%list. rewrite He, <- app_assoc. split.
    + f_equal. apply map_ext_in. intros e0 He0%list_elem_of_In. symmetry. apply repin_other. intros Hn0. apply Hn.
      destruct Hl as [E _]. assert (H : Some (name r) ∈ map entry_name l) by (rewrite <- Hn0; by apply list_elem_of_fmap_2).
      rewrite E in H. apply list_elem_of_fmap in H as (x & [= ->] & Hx). done.
    + apply not_existsb_name in Hn. unfold gets_entry at 2. rewrite Hn, Ep. cbn [negb andb]. apply Forall2_app; [done|].
      constructor; [by exists h|done].
Qed.
End updating.

(** ** Verification after an update *)

(** A lock file: a table whose entries, if it has any, are tables with distinct
    names. *)
Definition well_named (lock : pyval) : Prop :=
  exists l ns, py_get lock "repos" (PList []) = Ok (PList l) /\ named_entries l ns.

Lemma well_named_or_new lock : well_named lock ->
  exists d l ns, lock_or_new lock = PDict d /\ default (PList []) (assoc "repos" d) = PList l /\ named_entries l ns /\
    lock_entries lock = Ok l /\ forall n, locked_rev lock n = find_rev n l.
Proof.
  intros (l & ns & Hl & Hn). destruct lock as [| | | | | |d]; try done. injection Hl as Hl.
  destruct d as [|kv d].
  - injection Hl as <-. eexists _, [], []. split; [reflexivity|]. split; [done|]. split; [by split; [|constructor]|done].
  - exists (kv :: d), l, ns. split; [done|]. split; [done|]. split; [done|].
    split; [|intros n]; unfold locked_rev, lock_entries, py_get; by rewrite Hl.
Qed.

(** The lock file an update writes holds the entries the update made. *)
Lemma updated_entries ROOT fs now repos lock lock' :
  well_named lock -> cmd_lock_update ROOT fs now repos lock = Ok lock' ->
  exists l ns ix s, lock_entries lock = Ok l /\ named_entries l ns /\ indexes ix ns /\
    res_fold (update_one ROOT fs true now) (mkLocking l ix 0) repos = Ok s /\ lock_entries lock' = Ok (l_entries s).
Proof.
  intros Hw. destruct (well_named_or_new lock Hw) as (d & l & ns & Hd & Hl & Hn & He & _).
  unfold cmd_lock_update. rewrite Hd. cbn [py_get mbind res_bind]. rewrite Hl. cbn [py_iter is_list andb].
  destruct (lock_index_spec l ns Hn) as (ix & Hix & Hixs). intros E.
  apply bind_Ok_inv in E as (l0 & El & E). injection El as <-. rewrite Hix in E.
  apply bind_Ok_inv in E as (ix0 & Eix & E). injection Eix as <-.
  apply bind_Ok_inv in E as (s & Es & E). injection E as <-. exists l, ns, ix, s. do 4 (split; [done|]).
  unfold lock_entries, py_get. rewrite assoc_set_ne by done.
  destruct (assoc_mem "repos" d || negb (Nat.eqb (length (l_entries s)) 0)) eqn:Em.
  - by rewrite assoc_set_eq.
  - apply orb_false_iff in Em as [Em Hz]. apply negb_false_iff, Nat.eqb_eq, length_zero_iff_nil in Hz. rewrite Hz.
    unfold assoc_mem in Em. by destruct (assoc "repos" d).
Qed.

Lemma updated_revs ROOT fs now repos lock lock' :
  well_named lock -> cmd_lock_update ROOT fs now repos lock = Ok lock' ->
  forall n, locked_rev lock' n = match pin_for fs n repos with Some h => Ok (PStr h) | None => locked_rev lock n end.
Proof.
  intros Hw Hup n. destruct (updated_entries _ _ _ _ _ _ Hw Hup) as (l & ns & ix & s & El & Hn & Hix & Es & El').
  destruct (update_all_spec ROOT fs now true repos (mkLocking l ix 0) s (ex_intro _ ns (conj Hn Hix)) Es) as [_ Hs].
  unfold locked_rev. rewrite El, El'. cbn [mbind res_bind]. apply Hs.
Qed.

Lemma pin_differs fs r h : pin_of fs r = Some h ->
  differs (PStr h) (if String.eqb (materialized_status fs (local_path r)) "MISSING" then None else repo_head_rev fs (local_path r)) = false.
Proof.
  unfold pin_of. destruct (local_path r) as [p|]; [|done]. destruct (given (url r) && exists_at fs p && _); [|done].
  destruct (repo_head_rev fs (Some p)) as [h'|]; [|done]. destruct (given (Some h')); [|done]. intros E. injection E as ->.
  unfold differs. destruct (String.eqb _ "MISSING"); [by rewrite andb_false_r|]. cbn [eq_str]. rewrite String.eqb_refl.
  by rewrite !andb_false_r.
Qed.

(** A checkout with an url that has a head is pinned. *)
Lemma unpinned_differs fs r lrev : pin_of fs r = None -> given (url r) = true ->
  differs lrev (if String.eqb (materialized_status fs (local_path r)) "MISSING" then None else repo_head_rev fs (local_path r)) = false.
Proof.
  unfold pin_of, differs, materialized_status, repo_head_rev. intros Hp Hu. destruct (truthy lrev); [|done]. cbn [andb].
  destruct (local_path r) as [p|]; [|done]. rewrite Hu in Hp. cbn [andb] in Hp.
  destruct (exists_at fs p); cbn [negb andb] in *; [|done]. destruct (repo_is_git fs (Some p)); [|done].
  destruct (git_head fs p) as [h|]; [|done]. change (String.eqb "GIT" "MISSING") with false. cbn iota.
  destruct (given (Some h)); done.
Qed.

Lemma missing_unpinned fs r : String.eqb (materialized_status fs (local_path r)) "MISSING" = true -> pin_of fs r = None.
Proof.
  unfold materialized_status, pin_of. destruct (local_path r) as [p|]; [|done].
  destruct (exists_at fs p); cbn [negb]; [by destruct (repo_is_git fs (Some p))|]. by rewrite andb_false_r.
Qed.

Lemma pin_needs_url fs r h : pin_of fs r = Some h -> given (url r) = true.
Proof. unfold pin_of. destruct (local_path r); [|done]. by destruct (given (url r)). Qed.

Lemma locked_rev_total lock n : well_named lock -> exists v, locked_rev lock n = Ok v.
Proof.
  intros Hw. destruct (well_named_or_new lock Hw) as (d & l & ns & _ & _ & Hn & _ & ->).
  destruct (decide (n ∈ ns)) as [[j Hj]%list_elem_of_lookup|Hns].
  - destruct (named_entries_lookup _ _ _ _ Hn Hj) as (e & He & _). eexists. by eapply find_rev_in.
  - eexists. by eapply find_rev_out.
Qed.

Lemma names_where_ext f g repos : (forall r, r ∈ repos -> f r = g r) -> names_where f repos = names_where g repos.
Proof.
  intros H. unfold names_where. f_equal. induction repos as [|r repos IH]; [done|]. cbn [res_map].
  rewrite (H r) by left. rewrite IH; [done|]. intros x Hx. apply H. by right.
Qed.

Lemma names_where_and f (g : Repo -> bool) repos : forall l, names_where f repos = Ok l ->
  exists l', names_where (fun r => b ← f r; Ok (b && g r)) repos = Ok l'.
Proof.
  unfold names_where. intros l (l0 & E & _)%bind_Ok_inv. revert l0 E.
  induction repos as [|r repos IH]; intros l0 E; [by eexists|]. cbn [res_map] in *.
  apply bind_Ok_inv in E as (o & Eo & E). apply bind_Ok_inv in E as (l1 & E1 & _). apply bind_Ok_inv in Eo as (b & Eb & _).
  destruct (IH l1 E1) as (l' & El'). apply bind_Ok_inv in El' as (l2 & E2 & _).
  rewrite Eb. cbn [mbind res_bind]. rewrite E2. cbn [mbind res_bind]. by eexists.
Qed.

Section reverified.
Variables (fs : files) (r : Repo) (lock lock' : pyval).
Hypothesis Hw : well_named lock.
Hypothesis Hrev : locked_rev lock' (name r) = match pin_of fs r with Some h => Ok (PStr h) | None => locked_rev lock (name r) end.

Lemma reverified_unresolved : unresolvable fs lock' r = unresolvable fs lock r.
Proof.
  destruct (locked_rev_total lock (name r) Hw) as [lv Elv]. unfold unresolvable. rewrite Hrev, Elv.
  destruct (String.eqb _ "MISSING") eqn:Em; [by rewrite (missing_unpinned fs r Em)|]. by destruct (pin_of fs r).
Qed.

Lemma reverified_drifts : drifts fs lock' r = b ← drifts fs lock r; Ok (b && negb (given (url r))).
Proof.
  destruct (locked_rev_total lock (name r) Hw) as [lv Elv]. unfold drifts. rewrite Hrev, Elv. cbn [mbind res_bind].
  destruct (pin_of fs r) as [h|] eqn:Ep; cbn [mbind res_bind].
  - rewrite (pin_differs fs r h Ep), (pin_needs_url fs r h Ep). by rewrite andb_false_r.
  - destruct (given (url r)) eqn:Eu; [|by rewrite andb_true_r].
    by rewrite (unpinned_differs fs r lv Ep Eu).
Qed.
End reverified.

(** ** Properties of the lock *)

(** C37: updating the lock repins every checkout it can, and nothing else.  Let
    the manifest name every repository once, and let the entries of the lock be
    tables with distinct names (with a name twice the drift can stay for ever,
    [duplicate_entry_keeps_drifting]).  After [lock-update] the entries the lock
    had are all there, in their order: one whose name is that of a repository
    with an url whose checkout has a head has that head, the url and the time,
    and every other one is as it was; after them come the new entries, one for
    each such repository without an entry, in the order of the manifest, and no
    more.  So the lock gives every such repository its head and every other
    name, in the manifest or not, the revision it had.  Verifying again reports
    the same messages and unresolved repositories, and as drifted exactly the
    repositories that had drifted and have no url. *)
Theorem update_then_verify ROOT fs now repos lock lock' v :
  NoDup (map name repos) -> well_named lock ->
  cmd_lock_update ROOT fs now repos lock = Ok lock' -> lock_verification ROOT fs repos lock = Ok v ->
  (exists l ns added, lock_entries lock = Ok l /\ named_entries l ns /\
     lock_entries lock' = Ok (map (repin fs now repos) l ++ added)%list /\
     Forall2 (entry_for ROOT fs now) (List.filter (gets_entry fs ns) repos) added) /\
  (forall r, r ∈ repos -> locked_rev lock' (name r) = match pin_of fs r with Some h => Ok (PStr h) | None => locked_rev lock (name r) end) /\
  (forall n, n ∉ map name repos -> locked_rev lock' n = locked_rev lock n) /\
  exists v', lock_verification ROOT fs repos lock' = Ok v' /\ v_messages v' = v_messages v /\ v_unresolved v' = v_unresolved v /\
    names_where (fun r => b ← drifts fs lock r; Ok (b && negb (given (url r)))) repos = Ok (v_drifted v').
Proof.
  intros Hnd Hw Hup Hv.
  assert (Hrev : forall r, r ∈ repos -> locked_rev lock' (name r) = match pin_of fs r with Some h => Ok (PStr h) | None => locked_rev lock (name r) end).
  { intros r Hr. rewrite (updated_revs _ _ _ _ _ _ Hw Hup). by rewrite (pin_for_distinct fs repos r Hnd Hr). }
  split.
  { destruct (updated_entries _ _ _ _ _ _ Hw Hup) as (l & ns & ix & s & El & Hn & Hix & Es & El').
    destruct (update_all_entries ROOT fs now true l ns ix repos s Hn Hix Hnd Es) as (added & He & Ha).
    exists l, ns, added. rewrite El', He. by do 3 (split; [done|]). }
  split; [exact Hrev|]. split; [intros n Hn; by rewrite (updated_revs _ _ _ _ _ _ Hw Hup), (pin_for_absent _ _ _ Hn)|].
  unfold lock_verification in *.
  apply bind_Ok_inv in Hv as (msgs & Hm & Hv). apply bind_Ok_inv in Hv as (unr & Hu & Hv). apply bind_Ok_inv in Hv as (dr & Hd & Hv).
  injection Hv as <-. rewrite Hm. cbn [mbind res_bind].
  rewrite (names_where_ext (unresolvable fs lock') (unresolvable fs lock)), Hu by (intros r Hr; by apply reverified_unresolved; [|apply Hrev]).
  cbn [mbind res_bind].
  rewrite (names_where_ext (drifts fs lock') _ repos (fun r Hr => reverified_drifts fs r lock lock' Hw (Hrev r Hr))).
  destruct (names_where_and (drifts fs lock) (fun r => negb (given (url r))) repos dr Hd) as [dr' Hd'].
  rewrite Hd'. cbn [mbind res_bind]. by eexists.
Qed.

(** With a name twice in the lock, the update changes the last entry and the
    verification reads the first: the drift stays after every update. *)
Definition demo_checkout : Repo :=
  mkRepo "a" "component" (Some ["ws"; "components"; "a"]) (Some "u") None None None PNone None None PNone.
Definition demo_view : files := mkFiles (fun _ => true) (fun _ => Ok "") (fun _ => Some "new").
Definition old_entry : pyval := PDict [("name", PStr "a"); ("rev", PStr "old")].

Theorem duplicate_entry_keeps_drifting :
  exists lock', cmd_lock_update ["ws"] demo_view "t" [demo_checkout] (PDict [("repos", PList [old_entry; old_entry])]) = Ok lock' /\
    exists v, lock_verification ["ws"] demo_view [demo_checkout] lock' = Ok v /\ v_drifted v = ["a"].
Proof. eexists. split; [vm_compute; reflexivity|]. eexists. split; [vm_compute; reflexivity|reflexivity]. Qed.

(** ** Witnesses *)

Lemma update_then_verify_witness : exists lock' v',
  cmd_lock_update ["ws"] demo_view "t" [demo_checkout] (PDict [("repos", PList [old_entry])]) = Ok lock' /\
  lock_verification ["ws"] demo_view [demo_checkout] lock' = Ok v' /\ v_messages v' = [].
Proof.
  eexists. assert (Hw : well_named (PDict [("repos", PList [old_entry])])).
  { exists [old_entry], ["a"]. split; [reflexivity|]. split; [reflexivity|apply NoDup_singleton]. }
  edestruct (update_then_verify ["ws"] demo_view "t" [demo_checkout] (PDict [("repos", PList [old_entry])])) as (_ & _ & _ & v' & H1 & H2 & _).
  - apply NoDup_singleton.
  - exact Hw.
  - vm_compute. reflexivity.
  - vm_compute. reflexivity.
  - exists v'. split; [vm_compute; reflexivity|]. split; [exact H1|exact H2].
Defined.
