(* ===== verification/RunnerTasks.v ===== *)
(** * The workspace runner: fetching and running

    Models the commands of [tools/runner/runner.py] that change the world ([fetch]
    and [run]) and those that only validate and report.  The world is of any type;
    [sees] says which paths exist in it, and making a directory, cloning, checking
    out and running a command are arguments that may raise.  [git_laws] states the
    little the theorem on [fetch] needs of the first three when they succeed.  The artifacts a run writes are kept in a
    list, in the order of the writes. *)

From S2P Require Import Prelude PyVal Json PyText Effects Workspace Runner.
Local Open Scope string_scope.
Local Open Scope Z_scope.

Definition parent (p : path) : path := removelast p.

Section fetch.
Context {W : Type}.
Variable ROOT : path.
Variable sees : W -> path -> bool.
(** The paths that are directories, or links to one; only the laws speak of it. *)
Variable is_dir : W -> path -> bool.
Variable mkdir : path -> eff W unit.
Variable clone : string -> path -> eff W unit.
Variable checkout : string -> path -> eff W unit.

(** The revision checked out after a clone: the lock's, or else the manifest's. *)
Definition wanted_rev (lock : pyval) (r : Repo) : res (option string) :=
  lrev ← locked_rev lock (name r);
  if truthy lrev then s ← text lrev; Ok (Some s)
  else Ok (if given (rev r) then rev r else None).

Definition fetch_repo (lock : pyval) (r : Repo) : eff W unit :=
  match local_path r with
  | None => ret tt
  | Some p =>
    run mkdir (parent p);
    do there <- gets (fun w => sees w p);
    if (there : bool) then ret tt
    else
      match url r with
      | Some u =>
        if given (url r) then
          run clone u p;
          do lrev <- of_res (wanted_rev lock r);
          match lrev with Some rev => checkout rev p | None => ret tt end
        else ret tt
      | None => ret tt
      end
  end.

Definition cmd_fetch (repos : list Repo) (lock : pyval) : eff W Z :=
  do errs <- of_res (manifest_messages ROOT repos);
  match errs with
  | [] => run for_each (fetch_repo lock) repos; ret 0
  | _ => ret 2
  end.

(** What exists still does, and what is a directory still is. *)
Definition keeps_path (w w' : W) (q : path) : Prop :=
  (sees w q = true -> sees w' q = true) /\ (is_dir w q = true -> is_dir w' q = true).
Definition grows (w w' : W) : Prop := forall q, keeps_path w w' q.

(** A path inside the tree at [p]. *)
Definition below (p q : path) : Prop := exists x l, q = (p ++ x :: l)%list.

(** What is used of the file system and of git, of calls that succeed.  Making a
    directory makes it a directory and removes nothing; where there is a directory
    already ([exist_ok]) it does nothing.  A clone to a path that was not there
    makes it a directory and removes nothing.  A checkout may add and remove
    anything inside the tree it is run in, and nothing else.  The parent of what
    exists is a directory. *)
Class git_laws := {
  mkdir_makes p w w' : mkdir p w = (Ok tt, w') -> is_dir w' p = true;
  mkdir_again p w : is_dir w p = true -> mkdir p w = (Ok tt, w);
  mkdir_keeps p w w' : mkdir p w = (Ok tt, w') -> grows w w';
  clone_makes u p w w' : sees w p = false -> clone u p w = (Ok tt, w') -> is_dir w' p = true;
  clone_keeps u p w w' : sees w p = false -> clone u p w = (Ok tt, w') -> grows w w';
  checkout_keeps s p w w' q : checkout s p w = (Ok tt, w') -> ~ below p q -> keeps_path w w' q;
  dir_seen p w : is_dir w p = true -> sees w p = true;
  parent_dir p w : sees w p = true -> is_dir w (parent p) = true
}.

(** A repository that a fetch has nothing left to do for. *)
Definition settled (w : W) (r : Repo) : bool :=
  match local_path r with
  | None => true
  | Some p => is_dir w (parent p) && (sees w p || negb (given (url r)))
  end.

#[local] Instance grows_preorder : PreOrder grows.
Proof. split; [by intros w q; split|]. intros w1 w2 w3 H1 H2 q. destruct (H1 q), (H2 q). split; auto. Qed.

Lemma settled_grows w w' r : grows w w' -> settled w r = true -> settled w' r = true.
Proof.
  unfold settled. intros Hg. destruct (local_path r) as [p|]; [|done]. intros [H1 H2]%andb_true_iff. apply andb_true_iff.
  split; [by apply Hg|]. apply orb_true_iff in H2 as [H2|H2]; [by rewrite (proj1 (Hg p) H2)|by rewrite H2, orb_true_r].
Qed.

Context {HL : git_laws}.

(** Above what exists there are only directories. *)
Lemma ancestor_seen w p l : sees w (p ++ l)%list = true -> sees w p = true.
Proof.
  revert p. induction l as [|x l IH] using rev_ind; intros p; [by rewrite app_nil_r|]. rewrite app_assoc. intros Hs.
  apply IH, dir_seen. apply parent_dir in Hs. unfold parent in Hs. by rewrite removelast_last in Hs.
Qed.

(** A clone and a checkout where there was nothing keep everything else. *)
Lemma clone_checkout_keeps u p rev w w1 w' :
  sees w p = false -> clone u p w = (Ok tt, w1) -> (w' = w1 \/ checkout rev p w1 = (Ok tt, w')) -> grows w w' /\ sees w' p = true.
Proof.
  intros Hp Hc Hw. pose proof (clone_keeps u p w w1 Hp Hc) as Hg. pose proof (dir_seen _ _ (clone_makes u p w w1 Hp Hc)) as Hs.
  destruct Hw as [->|Hw]; [done|]. split.
  - intros q. assert (Hq : sees w q = true -> ~ below p q).
    { intros Hq (x & l & ->). apply ancestor_seen in Hq. congruence. }
    split; intros H; [|pose proof (dir_seen _ _ H) as H']; (destruct (checkout_keeps rev p w1 w' q Hw) as [H1 H2]; [by apply Hq|]);
      [apply H1|apply H2]; by apply Hg.
  - apply (checkout_keeps rev p w1 w' p Hw); [|done]. intros (x & l & E). apply (f_equal length) in E. rewrite length_app in E. simpl in E. lia.
Qed.

(** A fetch that returns keeps what is there and leaves its repository settled. *)
Lemma fetch_repo_ok lock r w w' : fetch_repo lock r w = (Ok tt, w') -> grows w w' /\ settled w' r = true.
Proof.
  unfold fetch_repo, settled. destruct (local_path r) as [p|]; [|by intros [= <-]].
  intros E. apply bind_ok in E as ([] & w1 & E1 & E). pose proof (mkdir_keeps _ _ _ E1) as Hg. pose proof (mkdir_makes _ _ _ E1) as Hp.
  apply bind_ok in E as (b & w2 & E2 & E). injection E2 as <- <-.
  destruct (sees w1 p) eqn:Es; [injection E as <-; by rewrite Hp, Es|].
  destruct (url r) as [u|] eqn:Eu; [|injection E as <-; by rewrite Hp, orb_true_r].
  destruct (given (Some u)) eqn:Eg; [|injection E as <-; by rewrite Hp, orb_true_r].
  apply bind_ok in E as ([] & w3 & E3 & E). apply bind_ok in E as (lrev & w4 & E4 & E). unfold of_res in E4. injection E4 as _ <-.
  destruct (clone_checkout_keeps u p (default "" lrev) w1 w3 w' Es E3) as [Hg' Hs].
  { destruct lrev as [s|]; [by right|]. injection E as <-. by left. }
  split; [by etransitivity|]. by rewrite (parent_dir p w' Hs), Hs.
Qed.

(** Nothing is done for a settled repository. *)
Lemma fetch_repo_again lock r w : settled w r = true -> fetch_repo lock r w = (Ok tt, w).
Proof.
  unfold settled, fetch_repo. destruct (local_path r) as [p|]; [|done]. intros [Hp Hs]%andb_true_iff.
  unfold bind at 1. rewrite (mkdir_again _ _ Hp). unfold bind at 1, gets.
  destruct (sees w p); [done|]. cbn [orb] in Hs. apply negb_true_iff in Hs. destruct (url r) as [u|]; [by rewrite Hs|done].
Qed.

Lemma fetch_all lock repos : forall w w', for_each (fetch_repo lock) repos w = (Ok tt, w') ->
  grows w w' /\ Forall (fun r => settled w' r = true) repos.
Proof.
  induction repos as [|r repos IH]; intros w w' E; cbn [for_each] in E; [injection E as <-; by split|].
  apply bind_ok in E as ([] & w1 & E1 & E2). destruct (IH w1 w' E2) as [Hg Hs].
  destruct (fetch_repo_ok lock r w w1 E1) as [Hg1 Hs1]. split; [by etransitivity|].
  constructor; [|done]. eapply settled_grows; [exact Hg|done].
Qed.

Lemma fetch_all_again lock repos w : Forall (fun r => settled w r = true) repos -> for_each (fetch_repo lock) repos w = (Ok tt, w).
Proof.
  induction 1 as [|r repos Hr _ IH]; [done|]. cbn [for_each]. unfold bind. by rewrite (fetch_repo_again lock r w Hr).
Qed.
End fetch.

(** ** Running a task *)

(** What a finished command leaves. *)
Record completed := mkCompleted { returncode : Z; out : string; err : string }.

Definition iter_targets (repos : list Repo) (only : list string) (sel_role : option string) (all_components : bool) : list Repo :=
  match only with
  | _ :: _ => List.filter (fun r => one_of_names only (name r)) repos
  | [] =>
    if all_components then List.filter (fun r => String.eqb (role r) "component") repos
    else match sel_role with
         | Some s => if given sel_role then List.filter (fun r => String.eqb (role r) s) repos else []
         | None => []
         end
  end.

Section tasks.
Context {W : Type}.
Variable ROOT : path.
Variable sees : W -> path -> bool.
Variable exec : list string -> path -> eff W completed.
(** [now_iso()]. *)
Variable clock : W -> string * W.
Variable python : string.

Definition detect_task_command (w : W) (p : path) (task : string) : string * list string :=
  let there f := sees w (p ++ f)%list in
  if there ["Makefile"] then ("make", ["make"; task])
  else if there ["justfile"] then ("just", ["just"; task])
  else if there ["Taskfile.yml"] || there ["Taskfile.yaml"] then ("task", ["task"; task])
  else
    let sh := slash (p ++ ["scripts"])%list (task +:+ ".sh") in
    let py := slash (p ++ ["scripts"])%list (task +:+ ".py") in
    if sees w sh then ("script", ["bash"; path_text sh])
    else if sees w py then ("script", [python; path_text py])
    else ("none", []).

Record runner := mkRunner {
  t_world : W;
  artifacts : list (string * pyval);
  logs : list (string * string)
}.

Definition in_world {A} (m : eff W A) : eff runner A := zoom t_world (fun w s => mkRunner w (artifacts s) (logs s)) m.
Definition now_iso : eff runner string := in_world (fun w => let (t, w) := clock w in (Ok t, w)).
Definition write_artifact (file : string) (payload : pyval) : eff runner unit :=
  modify (fun s => mkRunner (t_world s) (artifacts s ++ [(file, payload)])%list (logs s)).
Definition write_log (file text : string) : eff runner unit :=
  modify (fun s => mkRunner (t_world s) (artifacts s) (logs s ++ [(file, text)])%list).

(** The artifact of one repository; it reads the clock twice. *)
Definition task_artifact (r : Repo) (task contract : string) (cmd : list string) (started : string) (code : Z)
    (refs : pyval * pyval) : eff runner unit :=
  do generated <- now_iso;
  do finished <- now_iso;
  write_artifact ("task-run-" +:+ name r +:+ ".json")
    (PDict [("kind", PStr "TaskRunArtifact"); ("generatedAt", PStr generated);
            ("repo", PDict [("name", PStr (name r)); ("role", PStr (role r))]); ("task", PStr task);
            ("contractType", PStr contract); ("command", strs cmd); ("startedAt", PStr started);
            ("finishedAt", PStr finished); ("exitCode", PInt code); ("stdoutRef", refs.1); ("stderrRef", refs.2)]).

(** One target: the exit code the run takes from it, if it failed. *)
Definition run_target (run_dir : string) (task : string) (r : Repo) : eff runner (option Z) :=
  do started <- now_iso;
  let refuse contract cmd := run task_artifact r task contract cmd started 2 (PNone, PNone); ret (Some 2) in
  match local_path r with
  | None => refuse "none" []
  | Some p =>
    do w <- gets t_world;
    if negb (sees w p) then refuse "none" []
    else
      let (contract, cmd) := detect_task_command w p task in
      match cmd with
      | [] => refuse contract cmd
      | _ =>
        do cp <- in_world (exec cmd p);
        let stdout_path := name r +:+ "-" +:+ task +:+ ".stdout.log" in
        let stderr_path := name r +:+ "-" +:+ task +:+ ".stderr.log" in
        run write_log stdout_path (out cp);
        run write_log stderr_path (err cp);
        run task_artifact r task contract cmd started (returncode cp)
              (PStr (run_dir +:+ "/" +:+ stdout_path), PStr (run_dir +:+ "/" +:+ stderr_path));
        ret (if returncode cp =? 0 then None else Some (returncode cp))
      end
  end.

Fixpoint run_targets (run_dir task : string) (rc : Z) (targets : list Repo) : eff runner Z :=
  match targets with
  | [] => ret rc
  | r :: targets => do f <- run_target run_dir task r; run_targets run_dir task (default rc f) targets
  end.

Context `{FloatRepr}.
Variable read_file : W -> path -> res string.

(** The checks before anything is run. *)
Definition run_errors (w : W) (workspace : pyval) (repos : list Repo) : res (list string) :=
  match role_errors repos with
  | [] =>
    pol ← validate_workspace_policy ROOT (sees w) (read_file w) workspace;
    tr ← validate_trust_workspace ROOT (sees w) (read_file w) workspace repos;
    Ok ((pol : list string * list string).1 ++ (tr : list string * list string).1)%list
  | es => Ok es
  end.

Definition cmd_run (run_dir task : string) (only : list string) (sel_role : option string) (all : bool)
    (workspace : pyval) (repos : list Repo) : eff runner Z :=
  do w <- gets t_world;
  do errs <- of_res (run_errors w workspace repos);
  match errs with
  | [] =>
    match iter_targets repos only sel_role all with
    | [] => ret 2
    | targets => run_targets run_dir task 0 targets
    end
  | _ => ret 2
  end.

(** ** Validation and report commands: the exit code and the payload *)

Definition verdict_payload (kind now : string) (r : list string * list string) : pyval :=
  PDict [("kind", PStr kind); ("generatedAt", PStr now); ("result", PStr (match r.1 with [] => "pass" | _ => "fail" end));
         ("errors", strs r.1); ("warnings", strs r.2)].

Definition exit_of (r : list string * list string) : Z := match r.1 with [] => 0 | _ => 2 end.

Definition cmd_validate_policy (w : W) (now : string) (workspace : pyval) : res (Z * pyval) :=
  r ← validate_workspace_policy ROOT (sees w) (read_file w) workspace;
  Ok (exit_of r, verdict_payload "PolicyValidationArtifact" now r).

Definition cmd_validate_trust (w : W) (now : string) (workspace : pyval) (repos : list Repo) : res (Z * pyval) :=
  r ← validate_trust_workspace ROOT (sees w) (read_file w) workspace repos;
  Ok (exit_of r, verdict_payload "TrustValidationArtifact" now r).

Definition cmd_trust_report (w : W) (now : string) (workspace : pyval) (repos : list Repo) : res (Z * pyval) :=
  p ← trust_report_payload ROOT (sees w) (read_file w) now workspace repos; Ok (0, p).

Definition cmd_protocol_test (w : W) (now : string) : Z * pyval :=
  let present := sees w (ROOT ++ ["protocol"; "fixtures"])%list in
  (0, PDict [("kind", PStr "ProtocolCompatibilityArtifact"); ("generatedAt", PStr now);
             ("fixtureSet", PStr "protocol/fixtures"); ("target", PStr "workspace");
             ("result", PStr (if present then "pass" else "warn"));
             ("messages", strs (if present then [] else ["protocol fixtures directory missing; stub surface only"]))]).

Definition cmd_check_manifest (repos : list Repo) : res (Z * list string) :=
  ws ← convention_warnings ROOT repos; Ok (0, ws).
End tasks.

(** ** What a run reports *)

(** The exit code of a run: the last one that is not zero. *)
Definition last_failure (rc : Z) (codes : list Z) : Z := foldl (fun rc c => if c =? 0 then rc else c) rc codes.

Lemma last_failure_zero rc codes : last_failure rc codes = 0 <-> rc = 0 /\ Forall (eq 0) codes.
Proof.
  induction codes as [|c codes IH] using rev_ind; [cbn; split; [by split|by intros [? _]]|].
  unfold last_failure in *. rewrite foldl_app, Forall_app, Forall_singleton. cbn [foldl].
  destruct (Z.eqb_spec c 0) as [->|Hne]; [rewrite IH; naive_solver|]. split; [done|]. intros (_ & _ & E). by destruct Hne.
Qed.

Section reported.
Context {W : Type}.
Variable ROOT : path.
Variable sees : W -> path -> bool.
Variable exec : list string -> path -> eff W completed.
Variable clock : W -> string * W.
Variable python : string.

Definition tick (w : W) : W := (clock w).2.

(** The artifact of a repository with an exit code and a command. *)
Definition records (r : Repo) (task : string) (c : Z) (cmd : list string) (a : string * pyval) : Prop :=
  a.1 = "task-run-" +:+ name r +:+ ".json" /\ py_item a.2 "exitCode" = Ok (PInt c) /\
  py_item a.2 "command" = Ok (strs cmd) /\ py_item a.2 "task" = Ok (PStr task).

(** Why a target is not run: it has no path, its path is not there, or it offers
    no command for the task. *)
Definition refused (task : string) (r : Repo) (w : W) : Prop :=
  match local_path r with
  | None => True
  | Some p => sees w p = false \/ (detect_task_command sees python w p task).2 = []
  end.

(** What one target does to the world, its exit code, its artifact and its logs.
    A target that is refused runs nothing and records 2; otherwise its command is
    run once, in its directory, and what it returns is what is recorded. *)
Inductive target_ran (task : string) (r : Repo) (w : W) : Z -> string * pyval -> list (string * string) -> W -> Prop :=
| target_refused a :
    refused task r (tick w) -> records r task 2 [] a -> target_ran task r w 2 a [] (tick (tick (tick w)))
| target_executed p contract cmd cp w' a :
    local_path r = Some p -> sees (tick w) p = true -> detect_task_command sees python (tick w) p task = (contract, cmd) -> cmd <> [] ->
    exec cmd p (tick w) = (Ok cp, w') -> records r task (returncode cp) cmd a ->
    target_ran task r w (returncode cp) a
      [(name r +:+ "-" +:+ task +:+ ".stdout.log", out cp); (name r +:+ "-" +:+ task +:+ ".stderr.log", err cp)] (tick (tick w')).

(** The targets in order, each from the world the one before it left. *)
Inductive targets_ran (task : string) : list Repo -> W -> list Z -> list (string * pyval) -> list (string * string) -> W -> Prop :=
| targets_none w : targets_ran task [] w [] [] [] w
| targets_next r targets w c a ls w1 codes new logs w2 :
    target_ran task r w c a ls w1 -> targets_ran task targets w1 codes new logs w2 ->
    targets_ran task (r :: targets) w (c :: codes) (a :: new) (ls ++ logs) w2.

Lemma now_iso_ok (s : runner) : exists t, now_iso (W:=W) clock s = (Ok t, mkRunner (tick (t_world s)) (artifacts s) (logs s)).
Proof. unfold now_iso, in_world, zoom, tick. destruct (clock (t_world s)) as [t w]. by exists t. Qed.

Lemma task_artifact_ok r task contract cmd started c refs (s : runner (W:=W)) :
  exists a, task_artifact clock r task contract cmd started c refs s
      = (Ok tt, mkRunner (tick (tick (t_world s))) (artifacts s ++ [a])%list (logs s)) /\ records r task c cmd a.
Proof.
  unfold task_artifact, bind. destruct (now_iso_ok s) as (t1 & ->).
  destruct (now_iso_ok (mkRunner (tick (t_world s)) (artifacts s) (logs s))) as (t2 & ->). cbn [artifacts logs t_world].
  eexists. split; [reflexivity|]. by split_and!.
Qed.

Lemma run_target_spec dir task r (s s' : runner (W:=W)) f :
  run_target sees exec clock python dir task r s = (Ok f, s') ->
  exists a c ls, target_ran task r (t_world s) c a ls (t_world s') /\ artifacts s' = (artifacts s ++ [a])%list /\
    logs s' = (logs s ++ ls)%list /\ f = if c =? 0 then None else Some c.
Proof.
  unfold run_target. intros (started & s1 & E1 & E)%bind_ok.
  destruct (now_iso_ok s) as (t & Et). rewrite Et in E1. injection E1 as <- <-. set (w := tick (t_world s)) in *.
  assert (Hrefuse : forall contract, refused task r w -> bind (task_artifact clock r task contract [] t 2 (PNone, PNone)) (fun _ => ret (Some 2))
      (mkRunner w (artifacts s) (logs s)) = (Ok f, s') ->
    exists a c ls, target_ran task r (t_world s) c a ls (t_world s') /\ artifacts s' = (artifacts s ++ [a])%list /\
      logs s' = (logs s ++ ls)%list /\ f = if c =? 0 then None else Some c).
  { intros contract Hr Er.
    destruct (task_artifact_ok r task contract [] t 2 (PNone, PNone) (mkRunner w (artifacts s) (logs s))) as (a & Ea & Ha).
    unfold bind in Er. rewrite Ea in Er. injection Er as <- <-. exists a, 2, []. rewrite app_nil_r. split; [by apply target_refused|done]. }
  unfold refused in Hrefuse. destruct (local_path r) as [p|] eqn:Ep; [|by eapply Hrefuse].
  apply bind_ok in E as (w0 & s2 & E2 & E). injection E2 as <- <-. cbn [t_world] in E.
  destruct (sees w p) eqn:Es; cbn [negb] in E; [|by eapply Hrefuse; [left|]].
  destruct (detect_task_command sees python w p task) as [contract [|arg args]] eqn:Ed; [by eapply Hrefuse; [right|]|].
  apply bind_ok in E as (cp & s3 & E3 & E). unfold in_world, zoom in E3. cbn [t_world] in E3.
  destruct (exec (arg :: args) p w) as [rcp w3] eqn:Ex. injection E3 as -> <-. cbn [artifacts logs] in E.
  unfold bind at 1, write_log, modify at 1 in E. unfold bind at 1, modify in E. cbn [t_world artifacts logs] in E.
  apply bind_ok in E as ([] & s4 & E4 & E).
  edestruct (task_artifact_ok r task contract (arg :: args) t (returncode cp)) as (a & Ea & Ha). rewrite Ea in E4.
  injection E4 as <-. injection E as <- <-. cbn [artifacts logs t_world]. exists a, (returncode cp). eexists.
  split; [by eapply target_executed|]. split; [done|]. split; [by rewrite <- app_assoc|done].
Qed.

Lemma run_targets_spec dir task targets : forall rc (s s' : runner (W:=W)) z,
  run_targets sees exec clock python dir task rc targets s = (Ok z, s') ->
  exists codes new ls, targets_ran task targets (t_world s) codes new ls (t_world s') /\
    artifacts s' = (artifacts s ++ new)%list /\ logs s' = (logs s ++ ls)%list /\ z = last_failure rc codes.
Proof.
  induction targets as [|r targets IH]; intros rc s s' z; cbn [run_targets].
  { unfold ret. intros E. injection E as <- <-. exists [], [], []. rewrite !app_nil_r. split_and!; [constructor|done..]. }
  intros (f & s1 & E1 & E2)%bind_ok. destruct (run_target_spec dir task r s s1 f E1) as (a & c & ls & Hr & Ha & Hls & ->).
  destruct (IH _ _ _ _ E2) as (codes & new & ls' & Hn & Han & Hln & Hz). exists (c :: codes), (a :: new), (ls ++ ls')%list.
  split; [by eapply targets_next|]. split; [by rewrite Han, Ha, <- app_assoc|]. split; [by rewrite Hln, Hls, <- app_assoc|].
  rewrite Hz. cbn [last_failure foldl]. by destruct (c =? 0).
Qed.

Lemma targets_ran_length task targets w codes new ls w' :
  targets_ran task targets w codes new ls w' -> length codes = length targets /\ length new = length targets.
Proof. induction 1 as [|? ? ? ? ? ? ? ? ? ? ? _ _ [IH1 IH2]]; simpl; auto. Qed.

End reported.

(** ** Properties *)

(** C40: a fetch settles the workspace, and a second one does nothing.  Let making
    a directory, cloning and checking out, when they succeed, do what [git_laws]
    says of them.  Then a fetch that returns 0 removes nothing that was there,
    leaves every repository with a local path and an url at its path, and
    fetching again returns 0 without changing anything. *)
Theorem fetch_idempotent {W} ROOT (sees is_dir : W -> path -> bool) mkdir clone checkout
    `{!git_laws sees is_dir mkdir clone checkout} repos lock w w' :
  cmd_fetch ROOT sees mkdir clone checkout repos lock w = (Ok 0, w') ->
  grows sees is_dir w w' /\
  (forall r p, r ∈ repos -> local_path r = Some p -> given (url r) = true -> sees w' p = true) /\
  cmd_fetch ROOT sees mkdir clone checkout repos lock w' = (Ok 0, w').
Proof.
  unfold cmd_fetch. intros (errs & w1 & E1 & E)%bind_ok. unfold of_res in E1. injection E1 as E1 <-.
  unfold bind at 1, of_res. rewrite E1. destruct errs as [|e errs]; [|done].
  apply bind_ok in E as ([] & w2 & E & E3). injection E3 as <-.
  destruct (fetch_all sees is_dir mkdir clone checkout lock repos w w2 E) as [Hg Hs]. split; [done|]. split.
  - intros r p Hr Hp Hu. rewrite Forall_forall in Hs. specialize (Hs r Hr). unfold settled in Hs. rewrite Hp, Hu in Hs.
    apply andb_true_iff in Hs as [_ Hs]. by rewrite orb_false_r in Hs.
  - unfold bind. by rewrite (fetch_all_again sees is_dir mkdir clone checkout lock repos w2 Hs).
Qed.

(** C38: a run answers for its targets.  A run that returns either refuses before
    running anything, with code 2 and nothing changed, because a role, the policy
    or the trust of the workspace is in error or nothing is selected; or it deals
    with the targets in order, each from the world the one before it left.  A
    target without a path, a checkout or a command for the task runs nothing and
    gets an artifact with code 2; for any other one the detected command is
    executed once in its directory, and its artifact holds that command and the
    code it returned, and the two logs what it printed.  There is one artifact
    for each target; the run's code is the last nonzero one, and it is zero
    exactly when every target's command was executed and returned zero. *)
Theorem run_answers_for_targets {W} ROOT (sees : W -> path -> bool) exec clock python `{FloatRepr} read_file
    dir task only sel_role all workspace repos (s s' : runner) z :
  cmd_run ROOT sees exec clock python read_file dir task only sel_role all workspace repos s = (Ok z, s') ->
  let targets := iter_targets repos only sel_role all in
  (z = 2 /\ s' = s /\ ((exists e es, run_errors ROOT sees read_file (t_world s) workspace repos = Ok (e :: es)) \/ targets = [])) \/
  (run_errors ROOT sees read_file (t_world s) workspace repos = Ok [] /\ targets <> [] /\
   exists codes new ls, targets_ran sees exec clock python task targets (t_world s) codes new ls (t_world s') /\
     artifacts s' = (artifacts s ++ new)%list /\ logs s' = (logs s ++ ls)%list /\
     length codes = length targets /\ length new = length targets /\
     z = last_failure 0 codes /\ (z = 0 <-> Forall (eq 0) codes)).
Proof.
  unfold cmd_run. intros (w & s1 & E1 & E)%bind_ok. injection E1 as <- <-. apply bind_ok in E as (errs & s2 & E2 & E).
  unfold of_res in E2. injection E2 as E2 <-. cbv zeta. destruct errs as [|e errs]; [|left; injection E as <- <-; split_and!; [done|done|left; by exists e, errs]].
  destruct (iter_targets repos only sel_role all) as [|r targets] eqn:Et; [left; injection E as <- <-; auto|].
  right. split; [done|]. split; [done|].
  destruct (run_targets_spec sees exec clock python dir task (r :: targets) 0 s s' z E) as (codes & new & ls & H1 & H2 & H3 & H4).
  destruct (targets_ran_length _ _ _ _ _ _ _ _ _ _ _ H1) as [H5 H6].
  exists codes, new, ls. refine (conj H1 (conj H2 (conj H3 (conj H5 (conj H6 (conj H4 _)))))). rewrite H4, last_failure_zero. naive_solver.
Qed.

(** ** Witnesses *)

(** A file system of directories, closed under parents, in which cloning always
    succeeds and leaves a file that a checkout removes with the rest of the tree. *)
Definition disk := list path.
Definition on_disk (w : disk) (p : path) : bool :=
  bool_decide (p = []) || existsb (fun q => bool_decide (p `prefix_of` q)) w.
Definition disk_mkdir (p : path) : eff disk unit := modify (fun w => if on_disk w p then w else p :: w).
Definition disk_clone (u : string) (p : path) : eff disk unit := modify (fun w => (p ++ ["README"])%list :: p :: w).
Definition disk_checkout (s : string) (p : path) : eff disk unit :=
  modify (fun w => p :: List.filter (fun q => negb (bool_decide (p `prefix_of` q))) w).

Lemma on_disk_cons w p q : on_disk w p = true -> on_disk (q :: w) p = true.
Proof. unfold on_disk. cbn [existsb]. intros [->|H]%orb_true_iff; [done|]. by rewrite H, !orb_true_r. Qed.

Lemma on_disk_head w p : on_disk (p :: w) p = true.
Proof. unfold on_disk. cbn [existsb]. rewrite (bool_decide_eq_true_2 (p `prefix_of` p)) by done. by rewrite orb_true_r. Qed.

Lemma parent_prefix p : parent p `prefix_of` p.
Proof.
  unfold parent. destruct p as [|x p]; [done|]. exists [List.last (x :: p) x]. apply app_removelast_last. done.
Qed.

Lemma on_disk_iff w q : on_disk w q = true <-> q = [] \/ exists e, e ∈ w /\ q `prefix_of` e.
Proof.
  unfold on_disk. rewrite orb_true_iff, bool_decide_eq_true, existsb_exists. apply or_iff_compat_l. split.
  - intros (e & He & Hp%bool_decide_eq_true). exists e. by rewrite list_elem_of_In.
  - intros (e & He & Hp). exists e. rewrite <- list_elem_of_In, bool_decide_eq_true. done.
Qed.

(** What is not inside the tree is still there after a checkout. *)
Lemma disk_checkout_keeps s p w q : ~ below p q -> on_disk w q = true -> on_disk (disk_checkout s p w).2 q = true.
Proof.
  rewrite !on_disk_iff. intros Hb [->|(e & He & Hq)]; [by left|]. right. cbn.
  destruct (decide (p `prefix_of` e)) as [Hp|Hp].
  - exists p. split; [by left|]. destruct (prefix_weak_total _ _ _ Hq Hp) as [?|[[|x l] ->]]; [done| |].
    + by rewrite app_nil_r.
    + destruct Hb. by exists x, l.
  - exists e. split; [|done]. right. apply list_elem_of_In, List.filter_In. rewrite <- list_elem_of_In.
    split; [done|]. by rewrite bool_decide_eq_false_2.
Qed.

#[local] Instance disk_laws : git_laws on_disk on_disk disk_mkdir disk_clone disk_checkout.
Proof.
  split.
  - intros p w w' [= <-]. destruct (on_disk w p) eqn:E; [done|apply on_disk_head].
  - intros p w E. unfold disk_mkdir, modify. by rewrite E.
  - intros p w w' [= <-] q. destruct (on_disk w p); [done|]. split; by apply on_disk_cons.
  - intros u p w w' _ [= <-]. apply on_disk_cons, on_disk_head.
  - intros u p w w' _ [= <-] q. split; intros H; by do 2 apply on_disk_cons.
  - intros s p w w' q E Hb. pose proof (disk_checkout_keeps s p w q Hb) as H. rewrite E in H. by split.
  - done.
  - intros p w. rewrite !on_disk_iff. intros [->|(q & Hq & Hp)]; [by left|]. right. exists q. split; [done|].
    etransitivity; [apply parent_prefix|done].
Qed.

Definition demo_repo (n : string) : Repo :=
  mkRepo n "component" (Some ["ws"; "components"; n]) (Some "https://h/x") None None None PNone None None PNone.

Definition demo_lock : pyval := PDict [("repos", PList [PDict [("name", PStr "a"); ("rev", PStr "r1")]])].

Lemma fetch_idempotent_witness :
  let w := (cmd_fetch ["ws"] on_disk disk_mkdir disk_clone disk_checkout [demo_repo "a"] demo_lock [["ws"; "docs"]]).2 in
  on_disk w ["ws"; "docs"] = true /\ on_disk w ["ws"; "components"; "a"] = true /\
  cmd_fetch ["ws"] on_disk disk_mkdir disk_clone disk_checkout [demo_repo "a"] demo_lock w = (Ok 0, w).
Proof.
  intros w. destruct (fetch_idempotent ["ws"] on_disk on_disk disk_mkdir disk_clone disk_checkout [demo_repo "a"] demo_lock
    [["ws"; "docs"]] w) as (H0 & H1 & H2); [vm_compute; reflexivity|].
  split; [apply (H0 ["ws"; "docs"]); reflexivity|].
  split; [apply (H1 (demo_repo "a")); [left|reflexivity|reflexivity]|exact H2].
Defined.

(** A checkout with a makefile, and one without a task. *)
Definition demo_files : disk := [["ws"; "components"; "a"; "Makefile"]; ["ws"; "components"; "b"]; ["ws"; "pack"]].
Definition demo_workspace : pyval := PDict [("policy", PDict [("policy_pack_ref", PStr "pack"); ("trust_profile_ref", PStr "pack")])].
Definition demo_repos : list Repo := [demo_repo "a"; demo_repo "b"; demo_repo "agentplane"; demo_repo "mcp-a2a-zero-trust"].
Definition demo_run : res Z * runner :=
  cmd_run (H := demo_float_repr) ["ws"] on_disk (fun cmd p w => (Ok (mkCompleted 0 "ok" ""), w)) (fun w => ("t", w)) "python3"
    (fun w p => Ok "") "artifacts" "test" ["a"; "b"] None false demo_workspace demo_repos (mkRunner demo_files [] []).

Lemma run_answers_for_targets_witness : exists new codes,
  artifacts demo_run.2 = new /\ length codes = 2%nat /\ demo_run.1 = Ok (last_failure 0 codes).
Proof.
  pose proof (run_answers_for_targets (H := demo_float_repr) ["ws"] on_disk (fun cmd p w => (Ok (mkCompleted 0 "ok" ""), w)) (fun w => ("t", w))
    "python3" (fun w p => Ok "") "artifacts" "test" ["a"; "b"] None false demo_workspace demo_repos (mkRunner demo_files [] []) demo_run.2 2
    ltac:(vm_compute; reflexivity)) as H.
  destruct H as [(_ & E & _)|(_ & _ & codes & new & ls & _ & H1 & _ & H2 & _ & H4 & _)].
  - exfalso. apply (f_equal (fun s => length (artifacts s))) in E. vm_compute in E. discriminate E.
  - exists new, codes. split; [exact H1|]. split; [exact H2|]. rewrite <- H4. vm_compute. reflexivity.
Defined.
