(* ===== verification/GraphOutput.v ===== *)
(** * Graph output

    Models [automation/crystal_atlas.py] and [automation/reconstruction_bridge.py],
    which map decisions and reconstructed topics to upserts of the shared graph and
    record them in a durable queue, and [automation/post_graph_upserts.py], which
    drains that queue and posts each upsert.

    The ids an upsert draws are arguments, one for each place that may draw one;
    the clock is the text it reads.  The poster acts on a world of any type and
    answers a status or raises; the text of an exception is [str_exc]. *)

From Stdlib Require Import SpecFloat.
From S2P Require Import Prelude PyVal Json PyText FloatOrder DurableQueue Responder PrOpener Effects.
Local Open Scope string_scope.
Local Open Scope Z_scope.

(** ** Decisions *)

Definition INTERNAL : string := "internal_private".
Definition DEFAULT_TENANT : string := "sociosphere".

Definition _NODE_KIND (kind : string) : string := if String.eqb kind "build_failure" then "workflow_run" else "dataset".

Definition _VERDICT_CONFIDENCE (verdict : string) : spec_float :=
  default (F64.of_dec 1 1)
    (assoc verdict [("sealed", F64.of_dec 95 2); ("probable", F64.of_dec 75 2); ("weak", F64.of_dec 45 2);
                    ("quarantine", F64.of_dec 6 1); ("refuse", F64.of_dec 2 1)]).

Definition _EVIDENCE_CONFIDENCE (verdict : option string) : spec_float :=
  match verdict with
  | Some v => default (F64.of_dec 1 1) (assoc v [("sealed", F64.of_dec 9 1); ("probable", F64.of_dec 6 1); ("weak", F64.of_dec 3 1)])
  | None => F64.of_dec 1 1
  end.

(** [_rfc3339(v)]: the value given, or the clock. *)
Definition _rfc3339 (now : string) (v : pyval) : pyval := py_or v (PStr now).

Section output.
Context `{FloatRepr}.

Definition _evidence_node (ulid now : string) (beacon : pyval) (tenant_id : string) (receipt_ref : pyval) (ingested_at : pyval) : res pyval :=
  ev ← py_get beacon "evidence" PNone;
  extractor ← py_get (py_or ev (PDict [])) "detector" PNone;
  id ← py_get beacon "message_id" PNone;
  source ← py_get beacon "evidence_ref" PNone;
  observed ← py_get beacon "observed_at" PNone;
  verdict ← evidence_verdict beacon;
  Ok (PDict [("evidence_id", py_or id (PStr ulid)); ("tenant_id", PStr tenant_id);
             ("source_ref", py_or source (PStr ("selfheal://detector/" +:+ py_str (py_or extractor (PStr "unknown")))));
             ("observed_at", _rfc3339 now observed); ("ingested_at", ingested_at);
             ("extractor_ref", py_or extractor (PStr "selfheal"));
             ("confidence", PFloat (_EVIDENCE_CONFIDENCE verdict)); ("distribution_class", PStr INTERNAL);
             ("receipt_ref", receipt_ref)]).

Fixpoint evidence_nodes (ulids : nat -> string) (i : nat) (now : string) (beacons : list pyval) (tenant_id : string)
    (receipt_ref ingested_at : pyval) : res (list pyval) :=
  match beacons with
  | [] => Ok []
  | b :: beacons =>
    e ← _evidence_node (ulids i) now b tenant_id receipt_ref ingested_at;
    es ← evidence_nodes ulids (S i) now beacons tenant_id receipt_ref ingested_at;
    Ok (e :: es)
  end.

(** The ids drawn: for the receipt, for the claim, and one for each signal. *)
Definition to_graph_upsert (receipt_ulid claim_ulid : string) (ulids : nat -> string) (now : string)
    (receipt : pyval) (beacons : list pyval) (tenant_id : string) : res pyval :=
  first_system ← (match beacons with b :: _ => py_get b "system" PNone | [] => Ok PNone end);
  beacon_kind ← py_get receipt "beacon_kind" PNone;
  let system := py_or first_system (py_or beacon_kind (PStr "unknown")) in
  kind ← (match beacons with b :: _ => py_get b "kind_class" PNone | [] => Ok beacon_kind end);
  decided ← py_get receipt "decided_at" PNone;
  let created := _rfc3339 now decided in
  let node_id := PStr ("selfheal:node:" +:+ py_str system) in
  content ← py_get receipt "content_sha256" PNone;
  message ← py_get receipt "message_id" PNone;
  let receipt_ref := py_or content (py_or message (PStr receipt_ulid)) in
  level ← py_get receipt "epistemic_level" PNone;
  let node := PDict [("node_id", node_id); ("tenant_id", PStr tenant_id); ("node_kind", PStr (_NODE_KIND (py_str kind)));
                     ("display_name", PStr (py_str system));
                     ("attributes", PDict [("kind_class", kind); ("epistemic_level", level)]);
                     ("distribution_class", PStr INTERNAL); ("created_at", created); ("updated_at", created)] in
  evidence ← evidence_nodes ulids 0 now beacons tenant_id receipt_ref (PStr now);
  action ← py_get receipt "action" (PStr "unknown");
  verdict ← py_get receipt "verdict" PNone;
  reason ← py_get receipt "reason" PNone;
  refs ← res_map (fun e => py_item e "evidence_id") evidence;
  let claim := PDict [("claim_id", py_or message (PStr claim_ulid)); ("tenant_id", PStr tenant_id); ("subject_ref", node_id);
                      ("predicate", PStr ("self_heal." +:+ py_str action));
                      ("value", PDict [("verdict", verdict); ("epistemic_level", level); ("reason", reason)]);
                      ("confidence", PFloat (_VERDICT_CONFIDENCE (py_str verdict))); ("evidence_refs", PList refs);
                      ("distribution_class", PStr INTERNAL); ("created_at", created)] in
  Ok (PDict [("tenant_id", PStr tenant_id); ("nodes", PList [node]); ("edges", PList []); ("claims", PList [claim]);
             ("evidence", PList evidence)]).

Definition emit_graph_upsert (ns : Z) (uuid : string) (receipt_ulid claim_ulid : string) (ulids : nat -> string) (now : string)
    (receipt : pyval) (beacons : list pyval) (tenant_id : string) (sink : DurableQueue) : res (pyval * DurableQueue) :=
  upsert ← to_graph_upsert receipt_ulid claim_ulid ulids now receipt beacons tenant_id;
  Ok (upsert, (put ns uuid upsert sink).2).

(** ** Reconstructed topics *)

Definition EXTRACTOR : string := "three-space-reconstruction".

(** [max(lo, min(hi, float(x)))] with the default bounds; [min] and [max] keep
    their first argument unless the second is strictly beyond it. *)
Definition _clamp (x : pyval) : res spec_float :=
  match py_float x with
  | Ok f => Ok (F64.max F64.zero (if F64.ltb f F1 then f else F1))
  | Raise TypeError | Raise (ValueError _) => Ok F64.zero
  | Raise e => Raise e
  end.

Record corpus := mkCorpus {
  corpus_id : pyval;
  corpus_receipt : pyval;
  coverage : pyval;
  corpus_now : string;
  tenant : string
}.

Definition topic_evidence (c : corpus) (topic_id item : pyval) : res pyval :=
  doc ← py_get item "doc_id" PNone;
  ts_min ← py_get (coverage c) "ts_min" PNone;
  score ← py_get item "score" (PFloat F64.zero);
  confidence ← _clamp score;
  Ok (PDict [("evidence_id", PStr (py_str topic_id +:+ ":" +:+ py_str doc)); ("tenant_id", PStr (tenant c));
             ("source_ref", PStr (py_str (py_or doc (PStr "unknown")))); ("observed_at", _rfc3339 (corpus_now c) ts_min);
             ("ingested_at", PStr (corpus_now c)); ("extractor_ref", PStr EXTRACTOR); ("confidence", PFloat confidence);
             ("distribution_class", PStr INTERNAL); ("receipt_ref", corpus_receipt c)]).

Definition topic_items (c : corpus) (rec : pyval) : res (list pyval) :=
  items ← py_get rec "representative_evidence" PNone;
  items ← py_iter (py_or items (PList []));
  res_map (fun item => topic ← py_item rec "topic_id"; topic_evidence c topic item) items.

Definition topic_claim (c : corpus) (node_id created : pyval) (rec : pyval) (evidence : list pyval) : res pyval :=
  topic ← py_item rec "topic_id";
  label ← py_get rec "label" PNone;
  reasoning ← py_get rec "reasoning" PNone;
  terms ← py_get rec "top_terms" PNone;
  mass ← py_get rec "mass" PNone;
  weight ← py_get rec "mass" (PFloat F64.zero);
  confidence ← _clamp weight;
  refs ← res_map (fun e => py_item e "evidence_id") evidence;
  Ok (PDict [("claim_id", PStr (py_str (corpus_id c) +:+ ":" +:+ py_str topic)); ("tenant_id", PStr (tenant c));
             ("subject_ref", node_id); ("predicate", PStr "reconstruction.topic");
             ("value", PDict [("topic_id", topic); ("label", label); ("reasoning", reasoning); ("top_terms", terms); ("mass", mass)]);
             ("confidence", PFloat confidence); ("evidence_refs", PList refs); ("distribution_class", PStr INTERNAL);
             ("created_at", created)]).

(** Claims, evidence, and the records left out. *)
Fixpoint topics (c : corpus) (node_id created : pyval) (records : list pyval) : res (list pyval * list pyval * Z) :=
  match records with
  | [] => Ok ([], [], 0)
  | rec :: records =>
    grounded ← py_get rec "grounded" PNone;
    if negb (truthy grounded) then
      r ← topics c node_id created records;
      let '(cs, es, n) := (r : list pyval * list pyval * Z) in Ok (cs, es, n + 1)
    else
      evidence ← topic_items c rec;
      claim ← topic_claim c node_id created rec evidence;
      r ← topics c node_id created records;
      let '(cs, es, n) := (r : list pyval * list pyval * Z) in Ok (claim :: cs, (evidence ++ es)%list, n)
  end.

Definition reconstruction_upsert (ulid now : string) (records : list pyval) (manifest : pyval) (tenant_id : string) : res (pyval * Z) :=
  id ← py_get manifest "corpus_id" PNone;
  sha ← py_get manifest "corpus_sha256" PNone;
  cov ← py_get manifest "coverage" PNone;
  let cov := py_or cov (PDict []) in
  ts_max ← py_get cov "ts_max" PNone;
  ts_min ← (if truthy ts_max then Ok PNone else py_get cov "ts_min" PNone);
  let created := _rfc3339 now (py_or ts_max ts_min) in
  let c := mkCorpus (py_or id (PStr "corpus")) (py_or sha (PStr ulid)) cov now tenant_id in
  let node_id := PStr ("reconstruction:node:" +:+ py_str (corpus_id c)) in
  count ← py_get cov "document_count" PNone;
  gaps ← py_get cov "declared_gaps" PNone;
  spaces ← py_get manifest "spaces" PNone;
  spaces ← py_items (py_or spaces (PDict []));
  let node := PDict [("node_id", node_id); ("tenant_id", PStr tenant_id); ("node_kind", PStr "dataset");
                     ("display_name", PStr (py_str (corpus_id c)));
                     ("attributes", PDict [("document_count", count); ("declared_gaps", gaps);
                        ("spaces", PList (map PStr (py_sort String.ltb (map fst (spaces : dict)))))]);
                     ("distribution_class", PStr INTERNAL); ("created_at", created); ("updated_at", PStr now)] in
  r ← topics c node_id created records;
  let '(claims, evidence, skipped) := (r : list pyval * list pyval * Z) in
  Ok (PDict [("tenant_id", PStr tenant_id); ("nodes", PList [node]); ("edges", PList []); ("claims", PList claims);
             ("evidence", PList evidence)], skipped).

Definition emit_reconstruction (ns : Z) (uuid ulid now : string) (records : list pyval) (manifest : pyval) (tenant_id : string)
    (sink : DurableQueue) : res (pyval * Z * DurableQueue) :=
  us ← reconstruction_upsert ulid now records manifest tenant_id;
  let (upsert, skipped) := (us : pyval * Z) in
  claims ← py_item upsert "claims";
  Ok (upsert, skipped, if truthy claims then (put ns uuid upsert sink).2 else sink).

(** ** Posting *)

Section post.
Context {W : Type}.
Variable poster : pyval -> W -> res Z * W.
Variable str_exc : exn -> string.
(** The id the [i]-th dead letter is put under. *)
Variable name : nat -> Z * string.

Inductive post_result := Posted (status : Z) | Failed (last_err : pyval).

(** The attempts from [attempt] on, [more] of them, with the last error so far;
    the number of the last attempt made is part of the result. *)
Fixpoint post_attempts (upsert : pyval) (made : Z) (more : nat) (last_err : pyval) (w : W) : Z * post_result * W :=
  match more with
  | O => (made, Failed last_err, w)
  | S more =>
    match poster upsert w with
    | (Ok status, w) =>
      if (200 <=? status) && (status <? 300) then (made + 1, Posted status, w)
      else post_attempts upsert (made + 1) more (PStr ("HTTP " +:+ pretty status)) w
    | (Raise e, w) => post_attempts upsert (made + 1) more (PStr (str_exc e)) w
    end
  end.

Record posting := mkPosting { p_dead : DurableQueue; p_world : W }.

(** [len(v)]. *)
Definition py_len (v : pyval) : res Z := l ← py_iter v; Ok (Z.of_nat (length l)).

Definition post_one (max_attempts : nat) (i : nat) (upsert : pyval) : eff posting pyval :=
  do tenant <- of_res (py_get upsert "tenant_id" PNone);
  do claims <- of_res (c ← py_get upsert "claims" (PList []); py_len c);
  fun s =>
  let '(made, r, w) := post_attempts upsert 0 max_attempts PNone (p_world s) in
  let common := [("tenant_id", tenant); ("claims", PInt claims); ("attempts", PInt made)] in
  match r with
  | Posted status =>
    (Ok (PDict (common ++ [("posted", PBool true); ("dead_lettered", PBool false); ("status", PInt status)])%list),
     mkPosting (p_dead s) w)
  | Failed err =>
    (Ok (PDict (common ++ [("posted", PBool false); ("dead_lettered", PBool true); ("error", err)])%list),
     mkPosting (put (name i).1 (name i).2 (PDict [("upsert", upsert); ("error", err)]) (p_dead s)).2 w)
  end.

Fixpoint post_batch (max_attempts : nat) (i : nat) (batch : list pyval) : eff posting (list pyval) :=
  match batch with
  | [] => ret []
  | u :: batch => do r <- post_one max_attempts i u; do rs <- post_batch max_attempts (S i) batch; ret (r :: rs)
  end.

(** The whole queue is taken first, then each upsert posted. *)
Definition drain_and_post (max_attempts : nat) (upserts : DurableQueue) (s : posting) : res (list pyval) * (DurableQueue * posting) :=
  let (batch, q) := take_batch (qsize upserts) None 0 upserts in
  let (r, s) := post_batch max_attempts 0 batch s in (r, (q, s)).
End post.
End output.
Arguments posting : clear implicits.

(** ** Confidences *)

(** A float of the unit interval. *)
Definition unit_float (f : spec_float) : bool := F64.leb F64.zero f && F64.leb f F1.

Lemma clamp_unit x f : _clamp x = Ok f -> unit_float f = true.
Proof.
  assert (Hz : unit_float F64.zero = true) by (vm_compute; reflexivity).
  assert (Hc : forall g, unit_float (F64.max F64.zero (if F64.ltb g F1 then g else F1)) = true).
  { intros g. unfold F64.max. destruct (F64.ltb g F1) eqn:Eg; [|vm_compute; reflexivity].
    destruct (F64.ltb F64.zero g) eqn:E0; [|exact Hz]. unfold unit_float. by rewrite (ltb_leb _ _ Eg), (ltb_leb _ _ E0). }
  unfold _clamp. destruct (py_float x) as [g|e].
  - intros E. apply (f_equal (fun r => match r with Ok a => a | Raise _ => f end)) in E. rewrite <- E. apply Hc.
  - destruct e; intros E; try discriminate E; apply (f_equal (fun r => match r with Ok a => a | Raise _ => f end)) in E; rewrite <- E; exact Hz.
Qed.

(** ** Topics *)

Section topics.
Context `{FloatRepr}.

Definition is_grounded (rec : pyval) : bool := match rec with PDict d => truthy (default PNone (assoc "grounded" d)) | _ => false end.

(** An item with a confidence in the unit interval. *)
Definition confident (v : pyval) : Prop := exists f, py_item v "confidence" = Ok (PFloat f) /\ unit_float f = true.

(** A claim of a record, resting on the given evidence. *)
Definition claims_of (rec claim : pyval) (evidence : list pyval) : Prop :=
  confident claim /\ Forall confident evidence /\
  (exists topic value, py_item rec "topic_id" = Ok topic /\ py_item claim "value" = Ok value /\ py_item value "topic_id" = Ok topic) /\
  exists refs, py_item claim "evidence_refs" = Ok (PList refs) /\ map (fun e => py_item e "evidence_id") evidence = map Ok refs.

Lemma res_map_Ok_map {A B} (f : A -> res B) l l' : res_map f l = Ok l' -> map f l = map Ok l'.
Proof.
  revert l'. induction l as [|x l IH]; intros l' E; cbn [res_map] in E; [by injection E as <-|].
  apply bind_Ok_inv in E as (y & Ey & E). apply bind_Ok_inv in E as (ys & Eys & E). injection E as <-.
  cbn [map]. by rewrite Ey, (IH ys Eys).
Qed.

Lemma topic_evidence_confident c topic item e : topic_evidence c topic item = Ok e -> confident e.
Proof.
  unfold topic_evidence. intros E. repeat (apply bind_Ok_inv in E as (? & ? & E)).
  match goal with Hc : _clamp _ = Ok ?f |- _ => rename f into g; rename Hc into Hg end.
  apply (f_equal (fun r => match r with Ok a => a | Raise _ => e end)) in E. rewrite <- E.
  exists g. split; [reflexivity|]. by eapply clamp_unit.
Qed.

Lemma topic_items_confident c rec l : topic_items c rec = Ok l -> Forall confident l.
Proof.
  unfold topic_items. intros E. apply bind_Ok_inv in E as (v & _ & E). apply bind_Ok_inv in E as (items & _ & E).
  apply res_map_Ok_Forall2 in E. induction E as [|item e items l He _ IH]; [constructor|]. constructor; [|done].
  apply bind_Ok_inv in He as (t & _ & He). by eapply topic_evidence_confident.
Qed.

Lemma topic_claim_of c node_id created rec l claim :
  topic_items c rec = Ok l -> topic_claim c node_id created rec l = Ok claim -> claims_of rec claim l.
Proof.
  intros Hl. unfold topic_claim. intros E. apply bind_Ok_inv in E as (topic & Ht & E).
  do 5 (apply bind_Ok_inv in E as (? & _ & E)). apply bind_Ok_inv in E as (g & Hg & E). apply bind_Ok_inv in E as (refs & Hr & E).
  apply (f_equal (fun r => match r with Ok a => a | Raise _ => claim end)) in E. rewrite <- E.
  split; [exists g; split; [reflexivity|by eapply clamp_unit]|]. split; [by eapply topic_items_confident|].
  split; [eexists topic, _; split; [exact Ht|split; reflexivity]|]. exists refs. split; [reflexivity|]. by apply res_map_Ok_map.
Qed.

(** The claims are those of the grounded records in their order, the evidence is
    theirs, and the rest is counted. *)
Lemma topics_spec c node_id created records : forall cs es n, topics c node_id created records = Ok (cs, es, n) ->
  n = Z.of_nat (length (List.filter (fun r => negb (is_grounded r)) records)) /\
  exists ess, es = concat ess /\ Forall2 (fun rec ce => claims_of rec ce.1 ce.2) (List.filter is_grounded records) (zip cs ess) /\ length cs = length ess.
Proof.
  induction records as [|rec records IH]; intros cs es n E; cbn [topics] in E.
  { injection E as <- <- <-. split; [done|]. exists []. split_and!; [done|constructor|done]. }
  apply bind_Ok_inv in E as (g & Hg & E). unfold py_get in Hg. destruct rec as [| | | | | |d]; try done.
  assert (Eg : is_grounded (PDict d) = truthy g) by (cbn [is_grounded]; injection Hg as <-; done).
  cbn [List.filter]. rewrite Eg. destruct (truthy g); cbn [negb] in *.
  - apply bind_Ok_inv in E as (l & Hl & E). apply bind_Ok_inv in E as (claim & Hc & E). apply bind_Ok_inv in E as ([[cs0 es0] n0] & Hr & E).
    injection E as <- <- <-. destruct (IH _ _ _ Hr) as (Hn & ess & -> & Hf & Hlen). split; [done|].
    exists (l :: ess). split_and!; [done| |cbn; by rewrite Hlen]. cbn [zip zip_with]. constructor; [by eapply topic_claim_of|done].
  - apply bind_Ok_inv in E as ([[cs0 es0] n0] & Hr & E). injection E as <- <- <-.
    destruct (IH _ _ _ Hr) as (Hn & ess & -> & Hf & Hlen). split; [cbn [length]; lia|]. by exists ess.
Qed.
End topics.

(** ** Posting settles every upsert *)

Section posting.
Context {W : Type}.
Variable poster : pyval -> W -> res Z * W.
Variable str_exc : exn -> string.
Variable name : nat -> Z * string.

Lemma post_attempts_spec u more : forall made err w m r w',
  post_attempts poster str_exc u made more err w = (m, r, w') ->
  made <= m <= made + Z.of_nat more /\
  match r with Posted st => 200 <= st < 300 /\ made < m | Failed _ => m = made + Z.of_nat more end.
Proof.
  induction more as [|more IH]; intros made err w m r w'; cbn [post_attempts].
  { intros E. injection E as <- <- <-. lia. }
  destruct (poster u w) as [[status|e] w1].
  - destruct ((200 <=? status) && (status <? 300)) eqn:Es.
    + intros E. injection E as <- <- <-. apply andb_true_iff in Es as [H1 H2]. lia.
    + intros E. apply IH in E. destruct r; lia.
  - intros E. apply IH in E. destruct r; lia.
Qed.

(** An upsert the poster can describe: a table whose claims have a length. *)
Definition postable (u : pyval) : Prop :=
  exists d l, u = PDict d /\ py_iter (default (PList []) (assoc "claims" d)) = Ok l.

Definition letter (i : nat) : string := file_name (item_id (name i).1 (name i).2).

(** What the result of an upsert says, against the dead letters. *)
Definition settles (max : nat) (dead : gmap string pyval) (u r : pyval) : Prop :=
  exists n, py_item r "attempts" = Ok (PInt n) /\ 0 <= n <= Z.of_nat max /\
    ((py_item r "posted" = Ok (PBool true) /\ py_item r "dead_lettered" = Ok (PBool false) /\
      exists st, py_item r "status" = Ok (PInt st) /\ 200 <= st < 300) \/
     (py_item r "posted" = Ok (PBool false) /\ py_item r "dead_lettered" = Ok (PBool true) /\ n = Z.of_nat max /\
      exists k err, dead !! k = Some (PDict [("upsert", u); ("error", err)]))).

Definition dead_lettered (r : pyval) : bool :=
  match py_item r "dead_lettered" with Ok (PBool b) => b | _ => false end.

Lemma settles_mono max (d d' : gmap string pyval) u r : d ⊆ d' -> settles max d u r -> settles max d' u r.
Proof.
  intros Hd (n & Hn & Hb & Hc). exists n. split; [exact Hn|]. split; [exact Hb|].
  destruct Hc as [Hc|(H1 & H2 & H3 & k & err & Hk)]; [left; exact Hc|right].
  split; [exact H1|]. split; [exact H2|]. split; [exact H3|]. exists k, err. by eapply lookup_weaken.
Qed.

Lemma post_one_settles max i u s :
  postable u -> visible (p_dead s) !! letter i = None ->
  exists r s', post_one poster str_exc name max i u s = (Ok r, s') /\ settles max (visible (p_dead s')) u r /\
    (if dead_lettered r then exists e, visible (p_dead s') = <[letter i := e]> (visible (p_dead s)) else visible (p_dead s') = visible (p_dead s)).
Proof.
  intros (d & l & -> & Hl) Hfresh. unfold post_one, of_res, bind. cbn [py_get]. cbn [mbind res_bind].
  unfold py_len. rewrite Hl. cbn [mbind res_bind].
  destruct (post_attempts poster str_exc (PDict d) 0 max PNone (p_world s)) as [[m r] w] eqn:E.
  apply post_attempts_spec in E as [Hm Hr]. destruct r as [status|err].
  - eexists _, _. split; [reflexivity|]. split; [|reflexivity]. exists m. split; [reflexivity|]. split; [lia|]. left.
    split; [reflexivity|]. split; [reflexivity|]. exists status. split; [reflexivity|lia].
  - eexists _, _. split; [reflexivity|]. cbn [p_dead]. split; [|by eexists]. exists m. split; [reflexivity|]. split; [lia|]. right.
    split; [reflexivity|]. split; [reflexivity|]. split; [lia|]. exists (letter i), err. apply lookup_insert_eq.
Qed.

Lemma post_batch_settles max batch : forall i s,
  Forall postable batch -> (forall j k, letter j = letter k -> j = k) ->
  (forall j, (i <= j)%nat -> visible (p_dead s) !! letter j = None) ->
  exists rs s', post_batch poster str_exc name max i batch s = (Ok rs, s') /\
    Forall2 (settles max (visible (p_dead s'))) batch rs /\ visible (p_dead s) ⊆ visible (p_dead s') /\
    size (visible (p_dead s')) = (size (visible (p_dead s)) + length (List.filter dead_lettered rs))%nat.
Proof.
  induction batch as [|u batch IH]; intros i s Hb Hinj Hfresh; cbn [post_batch].
  { eexists [], s. split; [reflexivity|]. split_and!; [constructor|done|cbn; lia]. }
  inversion Hb as [|? ? Hu Hbatch]; subst.
  destruct (post_one_settles max i u s Hu (Hfresh i (Nat.le_refl i))) as (r & s1 & E1 & Hs1 & Hd1).
  assert (Hsub : visible (p_dead s) ⊆ visible (p_dead s1)).
  { destruct (dead_lettered r); [destruct Hd1 as [e ->]; by apply insert_subseteq, Hfresh|by rewrite Hd1]. }
  destruct (IH (S i) s1 Hbatch Hinj) as (rs & s2 & E2 & Hs2 & Hsub2 & Hsz).
  { intros j Hj. destruct (dead_lettered r); [destruct Hd1 as [e ->]|rewrite Hd1; apply Hfresh; lia].
    rewrite lookup_insert_ne; [apply Hfresh; lia|]. intros E. apply Hinj in E. lia. }
  unfold bind. rewrite E1, E2. eexists _, s2. split; [reflexivity|]. split_and!.
  - constructor; [by eapply settles_mono|done].
  - by etransitivity.
  - rewrite Hsz. cbn [List.filter]. destruct (dead_lettered r); cbn [length]; [destruct Hd1 as [e ->]|rewrite Hd1; lia].
    rewrite map_size_insert_None by (by apply Hfresh). lia.
Qed.
End posting.

(** ** Properties *)

(** Only grounded topics are published, on their own evidence.  Whatever the
    records hold, an upsert of a corpus has one claim for each grounded record,
    in their order, and counts the others as skipped; the evidence is the
    concatenation of what the claims refer to, each claim referring to its own by
    their ids, and every confidence lies in the unit interval. *)
Theorem only_grounded_published `{FloatRepr} ulid now records manifest tenant u skipped :
  reconstruction_upsert ulid now records manifest tenant = Ok (u, skipped) ->
  skipped = Z.of_nat (length (List.filter (fun r => negb (is_grounded r)) records)) /\
  exists claims ess, py_item u "claims" = Ok (PList claims) /\ py_item u "evidence" = Ok (PList (concat ess)) /\
    length claims = length ess /\
    Forall2 (fun rec ce => claims_of rec ce.1 ce.2) (List.filter is_grounded records) (zip claims ess) /\ postable u.
Proof.
  unfold reconstruction_upsert. intros E. do 9 (apply bind_Ok_inv in E as (? & _ & E)).
  apply bind_Ok_inv in E as ([[cs es] n] & Ht & E).
  pose proof (f_equal (fun r => match r with Ok a => a.1 | Raise _ => u end) E) as Eu.
  pose proof (f_equal (fun r => match r with Ok a => a.2 | Raise _ => skipped end) E) as En. cbn [fst snd] in Eu, En. clear E.
  apply topics_spec in Ht as (Hn & ess & -> & Hf & Hl). rewrite <- Eu, <- En. split; [exact Hn|].
  exists cs, ess. split; [reflexivity|]. split; [reflexivity|]. split; [exact Hl|]. split; [exact Hf|].
  eexists _, cs. split; reflexivity.
Qed.

(** What a decision is recorded as can be posted too. *)
Lemma decision_postable `{FloatRepr} ru cu ulids now receipt beacons tenant u :
  to_graph_upsert ru cu ulids now receipt beacons tenant = Ok u -> postable u.
Proof.
  unfold to_graph_upsert. intros E. repeat (apply bind_Ok_inv in E as (? & _ & E)).
  apply (f_equal (fun r => match r with Ok a => a | Raise _ => u end)) in E. rewrite <- E.
  eexists _, _. split; reflexivity.
Qed.

(** Every recorded upsert is posted or among the dead letters.  However the
    endpoint behaves, draining a queue of upserts (such as the two producers
    record) returns, empties the queue and answers for each upsert taken: posted
    with a status from 200 to 299, or dead-lettered after exactly the allowed
    attempts, its letter holding the upsert; the letters grow by exactly those. *)
Theorem every_upsert_settles {W} (poster : pyval -> W -> res Z * W) str_exc name max upserts s :
  map_Forall (fun _ u => postable u) (visible upserts) ->
  (forall j k, letter name j = letter name k -> j = k) -> (forall j, visible (p_dead s) !! letter name j = None) ->
  exists batch rs q s', drain_and_post poster str_exc name max upserts s = (Ok rs, (q, s')) /\
    entries upserts ≡ₚ batch /\ visible q = ∅ /\ Forall2 (settles max (visible (p_dead s'))) batch rs /\
    size (visible (p_dead s')) = (size (visible (p_dead s)) + length (List.filter dead_lettered rs))%nat.
Proof.
  intros Hp Hinj Hfresh. unfold drain_and_post.
  destruct (take_batch (qsize upserts) None 0 upserts) as [batch q] eqn:Et.
  destruct (take_batch_spec _ _ _ _ _ _ (Nat.eq_le_incl _ _ (eq_sym (qsize_visible _))) Et) as (Hperm & _ & Hempty).
  specialize (Hempty eq_refl). assert (Hq : entries q = []) by (unfold entries; by rewrite Hempty, map_to_list_empty).
  rewrite Hq, app_nil_r in Hperm.
  assert (Hb : Forall postable batch).
  { rewrite <- Hperm. apply Forall_forall. intros u Hu. unfold entries in Hu. apply list_elem_of_fmap in Hu as ([k u'] & -> & Hu).
    apply elem_of_map_to_list in Hu. by apply (Hp k). }
  destruct (post_batch_settles poster str_exc name max batch 0 s Hb Hinj (fun j _ => Hfresh j)) as (rs & s' & E & H1 & _ & H3).
  exists batch, rs, q, s'. rewrite E. done.
Qed.

(** ** Witnesses and what goes wrong *)

Definition demo_upsert : pyval := PDict [("tenant_id", PStr "t"); ("claims", PList [])].
(** An endpoint that answers 503 to the first three calls. *)
Definition warming_poster (u : pyval) (w : nat) : res Z * nat := (Ok (if Nat.ltb w 3 then 503 else 200), S w).

Lemma demo_letters j k : letter (demo_stamp 7) j = letter (demo_stamp 7) k -> j = k.
Proof.
  unfold letter, file_name, item_id, demo_stamp. cbn [fst snd]. rewrite !string_app_assoc.
  intros E. apply string_app_inv_l, string_app_inv_l, string_app_inv_r in E. by apply (inj pretty) in E.
Qed.

Lemma every_upsert_settles_witness : exists batch rs q s',
  drain_and_post warming_poster (fun _ => "") (demo_stamp 7) 2 (queue_with [("0.json", demo_upsert); ("1.json", demo_upsert)])
    (mkPosting (mkQueue ∅ ∅) 0%nat) = (Ok rs, (q, s')) /\ visible q = ∅ /\ Forall2 (settles 2 (visible (p_dead s'))) batch rs.
Proof.
  destruct (every_upsert_settles warming_poster (fun _ => "") (demo_stamp 7) 2 (queue_with [("0.json", demo_upsert); ("1.json", demo_upsert)])
    (mkPosting (mkQueue ∅ ∅) 0%nat)) as (batch & rs & q & s' & E & _ & Hq & Hs & _).
  - intros k u Hu. assert (Hin : (k, u) ∈ [("0.json", demo_upsert); ("1.json", demo_upsert)]) by (by apply elem_of_list_to_map_2).
    assert (u = demo_upsert) as -> by (apply elem_of_cons in Hin as [[= _ ->]|Hin]; [done|]; apply list_elem_of_singleton in Hin; by injection Hin).
    eexists _, _. split; reflexivity.
  - apply demo_letters.
  - intros j. apply lookup_empty.
  - exists batch, rs, q, s'. exact (conj E (conj Hq Hs)).
Defined.

Definition demo_topic (grounded : bool) : pyval :=
  PDict [("topic_id", PStr "t1"); ("grounded", PBool grounded); ("mass", PFloat S754_nan);
         ("representative_evidence", PList [PDict [("doc_id", PStr "d"); ("score", PInt 7)]])].

Lemma only_grounded_published_witness : exists u,
  reconstruction_upsert (H := demo_float_repr) "U" "now" [demo_topic true; demo_topic false] (PDict []) "t" = Ok (u, 1) /\ postable u.
Proof.
  destruct (reconstruction_upsert (H := demo_float_repr) "U" "now" [demo_topic true; demo_topic false] (PDict []) "t") as [[u n]|] eqn:E;
    [|vm_compute in E; discriminate E].
  destruct (only_grounded_published (H := demo_float_repr) "U" "now" [demo_topic true; demo_topic false] (PDict []) "t" u n E)
    as (Hn & claims & ess & _ & _ & _ & _ & Hp).
  exists u. split; [|exact Hp]. rewrite Hn. vm_compute. reflexivity.
Defined.

(** A mass that is not a number counts as full confidence: [min] keeps its first
    argument, the upper bound, when the comparison with the second fails. *)
Theorem nan_is_certain : _clamp (PFloat S754_nan) = Ok F1.
Proof. vm_compute. reflexivity. Qed.

(** The batch leaves the queue before it is worked on, and an entry that is not a
    table raises outside the handler: what came after it is lost. *)
Theorem malformed_upsert_loses_batch :
  let r := drain_and_post warming_poster (fun _ => "") (demo_stamp 7) 5 (queue_with [("0.json", PNone); ("1.json", demo_upsert)])
             (mkPosting (mkQueue ∅ ∅) 9%nat) in
  is_ok r.1 = false /\ qsize r.2.1 = 0%nat /\ qsize (p_dead r.2.2) = 0%nat /\ p_world r.2.2 = 9%nat.
Proof. vm_compute. auto. Qed.
