(* ===== verification/MeshFsStore.v ===== *)
(** * The on-disk node store

    Models [automation/mesh_fs_store.py].  The store is the directory tree under
    its root: a file is named by the directory of its node and its own name, both
    derived from digests, and holds bytes.  Node labels are ASCII.

    The operations are first taken one at a time, against the map from ids to
    data they are meant to be.  Then the atomic write is taken apart: opening the
    temporary file (truncating it), writing it byte by byte and renaming it over
    the target are steps of separate writers, over names that refer to inodes, so
    that a writer keeps writing the file it opened when somebody renames it. *)

From Stdlib Require Import Ascii.
From S2P Require Import Prelude PyVal PyText Sha256 HolographicIda.
Local Open Scope string_scope.

(** ** Names *)

Definition label_char (c : ascii) : ascii :=
  let n := nat_of_ascii c in
  if (Nat.leb 48 n && Nat.leb n 57) || (Nat.leb 65 n && Nat.leb n 90) || (Nat.leb 97 n && Nat.leb n 122) ||
     string_mem c "-_." then c else "_"%char.

Definition _node_dir (node : string) : string :=
  str_take 16 (sha256_hex node) +:+ "-" +:+ str_take 40 (string_map label_char node).

Definition _frag_name (frag : string) : string := "frag-" +:+ sha256_hex frag.
Definition _blob_name (key : string) : string := "blob-" +:+ sha256_hex key.

Abbreviation file := (string * string)%type.

(** What is stored: a fragment or a blob of a node, under its id. *)
Inductive kind := Frag | Blob.
#[global] Instance kind_eq_dec : EqDecision kind.
Proof. solve_decision. Defined.
#[global] Instance kind_countable : Countable kind.
Proof.
  refine (inj_countable' (fun k => match k with Frag => true | Blob => false end) (fun b : bool => if b then Frag else Blob) _).
  by intros [].
Defined.

Abbreviation item := (kind * string * string)%type.

Definition file_of (x : item) : file :=
  let '(k, node, key) := x in (_node_dir node, match k with Frag => _frag_name key | Blob => _blob_name key end).

(** ** The operations, one at a time *)

Abbreviation tree := (gmap file bytes).

(** [path.with_suffix(path.suffix + ".tmp")]: the names above have no suffix. *)
Definition tmp_of (f : file) : file := (f.1, f.2 +:+ ".tmp").

Definition _write_atomic (f : file) (data : bytes) (t : tree) : tree :=
  let t := <[tmp_of f := data]> t in
  match t !! tmp_of f with Some d => <[f := d]> (delete (tmp_of f) t) | None => t end.

Definition _read (f : file) (t : tree) : option bytes := t !! f.

Definition put (node frag : string) (data : bytes) : tree -> tree := _write_atomic (file_of (Frag, node, frag)) data.
Definition get (node frag : string) : tree -> option bytes := _read (file_of (Frag, node, frag)).
Definition put_blob (node key : string) (data : bytes) : tree -> tree := _write_atomic (file_of (Blob, node, key)) data.
Definition get_blob (node key : string) : tree -> option bytes := _read (file_of (Blob, node, key)).

(** The directory of a node and everything in it. *)
Definition seize (node : string) (t : tree) : tree := filter (fun fd => fd.1.1 <> _node_dir node) t.

(** ** Operations as a sequence, and the map they stand for *)

Inductive op := Put (k : kind) (node key : string) (data : bytes) | Seize (node : string).

Definition apply (o : op) (t : tree) : tree :=
  match o with
  | Put Frag node key data => put node key data t
  | Put Blob node key data => put_blob node key data t
  | Seize node => seize node t
  end.

Definition meant (o : op) (m : gmap item bytes) : gmap item bytes :=
  match o with
  | Put k node key data => <[(k, node, key) := data]> m
  | Seize node => filter (fun xd => xd.1.1.2 <> node) m
  end.

Definition run (ops : list op) (t : tree) : tree := foldl (fun t o => apply o t) t ops.
Definition run_meant (ops : list op) (m : gmap item bytes) : gmap item bytes := foldl (fun m o => meant o m) m ops.

(** The nodes and the ids a sequence names. *)
Definition nodes_in (ops : list op) : list string := map (fun o => match o with Put _ node _ _ => node | Seize node => node end) ops.
Definition keys_in (ops : list op) : list string := omap (fun o => match o with Put _ _ key _ => Some key | Seize _ => None end) ops.

(** Two different names with one directory, or two different ids with one digest. *)
Definition clash (nodes keys : list string) : Prop :=
  (exists a b, a ∈ nodes /\ b ∈ nodes /\ a <> b /\ _node_dir a = _node_dir b) \/ collision_between keys keys.

(** ** Names of files *)

Definition dotless (s : string) : Prop := string_Forall (fun c => c <> "."%char) s.

(** A digest is hexadecimal, so the name of a stored file has no dot. *)
Lemma digest_dotless s : dotless (sha256_hex s).
Proof.
  apply sha256_hex_chars. intros n. unfold hex_char. generalize (Z.to_nat n) as k. intros k.
  do 17 (destruct k as [|k]; [discriminate|]). discriminate.
Qed.

Lemma file_of_dotless x : dotless (file_of x).2.
Proof.
  destruct x as [[[] node] key]; cbn [file_of snd]; unfold _frag_name, _blob_name; apply string_Forall_app;
    (split; [repeat split; discriminate|apply digest_dotless]).
Qed.

Lemma not_tmp x f : file_of x <> tmp_of f.
Proof.
  intros E. pose proof (file_of_dotless x) as Hd. rewrite E in Hd. cbn [tmp_of snd] in Hd.
  apply string_Forall_app in Hd as [_ Hd]. cbn in Hd. by destruct Hd as [Hd _].
Qed.

(** Different items have different files unless names or ids clash. *)
Lemma file_of_inj N K x y : ~ clash N K ->
  x.1.2 ∈ N -> y.1.2 ∈ N -> x.2 ∈ K -> y.2 ∈ K -> file_of x = file_of y -> x = y.
Proof.
  destruct x as [[k n] i], y as [[k' n'] i']. cbn [fst snd]. intros Hc Hn Hn' Hi Hi' E.
  assert (E1 : _node_dir n = _node_dir n') by exact (f_equal fst E). apply (f_equal snd) in E. cbn [file_of snd] in E.
  assert (n = n') as -> by (destruct (decide (n = n')) as [?|Hne]; [done|]; destruct Hc; left; by exists n, n').
  assert (Hdig : sha256_hex i = sha256_hex i' -> i = i').
  { intros Ed. destruct (decide (i = i')) as [?|Hne]; [done|]. destruct Hc. right. by exists i, i'. }
  destruct k, k'; unfold _frag_name, _blob_name in E; try discriminate E; apply string_app_inv_l in E; by rewrite (Hdig E).
Qed.

(** ** The tree against the map *)

Lemma write_atomic_eq f data t : _write_atomic f data t = <[f := data]> (delete (tmp_of f) t).
Proof. unfold _write_atomic. cbv zeta. by rewrite lookup_insert_eq, delete_insert_eq. Qed.

Lemma read_put x y data t :
  _read (file_of x) (_write_atomic (file_of y) data t) = if decide (file_of x = file_of y) then Some data else _read (file_of x) t.
Proof.
  unfold _read. rewrite write_atomic_eq. destruct (decide (file_of x = file_of y)) as [->|Hne]; [apply lookup_insert_eq|].
  rewrite lookup_insert_ne by done. apply lookup_delete_ne. intros E. symmetry in E. by apply not_tmp in E.
Qed.

(** The files of the items over [N] and [K] hold what the map says. *)
Definition stands_for (N K : list string) (t : tree) (m : gmap item bytes) : Prop :=
  forall x, x.1.2 ∈ N -> x.2 ∈ K -> _read (file_of x) t = m !! x.

Lemma put_stands_for N K t m k node key data :
  ~ clash N K -> node ∈ N -> key ∈ K -> stands_for N K t m ->
  stands_for N K (_write_atomic (file_of (k, node, key)) data t) (<[(k, node, key) := data]> m).
Proof.
  intros Hc Hn Hk Ht x Hxn Hxk. rewrite read_put. destruct (decide (x = (k, node, key))) as [->|Hne].
  - by rewrite decide_True, lookup_insert_eq.
  - rewrite decide_False, lookup_insert_ne by (done || intros E; destruct Hne; by apply (file_of_inj N K)). by apply Ht.
Qed.

Lemma seize_stands_for N K t m node :
  ~ clash N K -> node ∈ N -> stands_for N K t m ->
  stands_for N K (seize node t) (filter (fun xd => xd.1.1.2 <> node) m).
Proof.
  intros Hc Hn Ht x Hxn Hxk. unfold _read, seize. specialize (Ht x Hxn Hxk). unfold _read in Ht.
  assert (Hdir : (file_of x).1 = _node_dir node <-> x.1.2 = node).
  { destruct x as [[k n] i]. cbn [file_of fst snd] in *. split; [|by intros ->]. intros E.
    destruct (decide (n = node)) as [?|Hne]; [done|]. destruct Hc. left. by exists n, node. }
  destruct (decide (x.1.2 = node)) as [E|E].
  - rewrite !map_lookup_filter_None_2; [done| |]; right; intros v _ Hp; cbn [fst] in Hp; [done|by apply Hp, Hdir].
  - destruct (m !! x) as [d|] eqn:Em.
    + transitivity (Some d); [|symmetry]; apply map_lookup_filter_Some; (split; [done|]); cbn [fst]; [by rewrite Hdir|done].
    + rewrite !map_lookup_filter_None_2 by (by left). done.
Qed.

Lemma run_stands_for N K ops : ~ clash N K -> forall t m,
  nodes_in ops ⊆ N -> keys_in ops ⊆ K -> stands_for N K t m -> stands_for N K (run ops t) (run_meant ops m).
Proof.
  intros Hc. induction ops as [|o ops IH]; intros t m HN HK Ht; [done|].
  cbn [run run_meant foldl]. apply IH.
  - intros n Hn. apply HN. by right.
  - intros k Hk. apply HK. unfold keys_in. cbn [omap list_omap]. destruct o; [by right|done].
  - assert (Hn : match o with Put _ node _ _ => node | Seize node => node end ∈ N) by (apply HN; left).
    destruct o as [k node key data|node]; [|by apply seize_stands_for].
    assert (Hk : key ∈ K) by (apply HK; left). destruct k; by apply put_stands_for.
Qed.

(** ** Writers at once *)

(** A writer of a target: nothing open, writing the inode it opened (so many
    bytes done), or failed because the temporary name was gone. *)
Inductive writer := Idle | Writing (f : file) (data : bytes) (ino : nat) (done : nat) | Lost.

Record disk := mkDisk {
  names : gmap file nat;
  inodes : gmap nat bytes;
  fresh_ino : nat;
  writers : list writer;
  (** the writes begun so far *)
  begun : list (file * bytes)
}.

(** A byte at an offset: over what is there, or after zeros up to it. *)
Definition write_at (k : nat) (b : Z) (c : bytes) : bytes :=
  if Nat.ltb k (length c) then <[k := b]> c else (c ++ replicate (k - length c) 0%Z ++ [b])%list.

(** What a reader of a file sees. *)
Definition reader_sees (f : file) (d : disk) : option bytes := i ← names d !! f; inodes d !! i.

Definition busy (f : file) (w : writer) : bool :=
  match w with Writing g _ _ _ => bool_decide (g = f) | _ => false end.

(** The targets are files of the store, whose names have no dot. *)
Definition plain (f : file) : Prop := dotless f.2.

(** [excl] asks that a target has one writer at a time. *)
Inductive step (excl : bool) : disk -> disk -> Prop :=
| step_open d i f data ino :
    plain f -> writers d !! i = Some Idle -> (excl = true -> Forall (fun w => busy f w = false) (writers d)) ->
    ino = default (fresh_ino d) (names d !! tmp_of f) ->
    step excl d (mkDisk (<[tmp_of f := ino]> (names d)) (<[ino := []]> (inodes d)) (S (fresh_ino d))
                   (<[i := Writing f data ino 0]> (writers d)) ((f, data) :: begun d))
| step_write d i f data ino k b c :
    writers d !! i = Some (Writing f data ino k) -> data !! k = Some b -> inodes d !! ino = Some c ->
    step excl d (mkDisk (names d) (<[ino := write_at k b c]> (inodes d)) (fresh_ino d)
                   (<[i := Writing f data ino (S k)]> (writers d)) (begun d))
| step_rename d i f data ino j :
    writers d !! i = Some (Writing f data ino (length data)) -> names d !! tmp_of f = Some j ->
    step excl d (mkDisk (<[f := j]> (delete (tmp_of f) (names d))) (inodes d) (fresh_ino d)
                   (<[i := Idle]> (writers d)) (begun d))
| step_lost d i f data ino :
    writers d !! i = Some (Writing f data ino (length data)) -> names d !! tmp_of f = None ->
    step excl d (mkDisk (names d) (inodes d) (fresh_ino d) (<[i := Lost]> (writers d)) (begun d)).

(** Nothing is being written and every name has its own inode. *)
Definition quiet (d : disk) : Prop :=
  Forall (eq Idle) (writers d) /\
  (forall f g i, names d !! f = Some i -> names d !! g = Some i -> f = g) /\
  (forall f i, names d !! f = Some i -> (i < fresh_ino d)%nat /\ is_Some (inodes d !! i)).

Lemma plain_not_tmp f g : plain f -> f <> tmp_of g.
Proof.
  intros Hd ->. unfold plain in Hd. cbn [tmp_of snd] in Hd. apply string_Forall_app in Hd as [_ Hd]. cbn in Hd. by destruct Hd as [Hd _].
Qed.

Lemma tmp_of_inj f g : tmp_of f = tmp_of g -> f = g.
Proof. destruct f as [a b], g as [a' b']. unfold tmp_of. cbn. intros [= -> E]. by apply string_app_inv_r in E as ->. Qed.

(** What holds while every target has one writer: names have their own inodes; a
    writer's temporary name has the inode it writes, holding what it has written;
    a target holds what it held before or the whole of some write. *)
Record orderly (d0 d : disk) : Prop := {
  o_inj : forall f g i, names d !! f = Some i -> names d !! g = Some i -> f = g;
  o_old : forall f i, names d !! f = Some i -> (i < fresh_ino d)%nat /\ is_Some (inodes d !! i);
  o_one : forall i j f data data' ino ino' k k',
      writers d !! i = Some (Writing f data ino k) -> writers d !! j = Some (Writing f data' ino' k') -> i = j;
  o_tmp : forall i f data ino k, writers d !! i = Some (Writing f data ino k) ->
      plain f /\ names d !! tmp_of f = Some ino /\ inodes d !! ino = Some (take k data) /\ (k <= length data)%nat /\ (f, data) ∈ begun d;
  o_seen : forall f, plain f -> reader_sees f d = reader_sees f d0 \/ exists data, (f, data) ∈ begun d /\ reader_sees f d = Some data
}.

Section steps.
Variable d0 : disk.

Lemma seen_eq f d d' :
  names d' !! f = names d !! f -> (forall i, names d !! f = Some i -> inodes d' !! i = inodes d !! i) -> reader_sees f d' = reader_sees f d.
Proof. unfold reader_sees. intros -> Hi. destruct (names d !! f) as [i|]; [|done]. cbn. by apply Hi. Qed.

(** What a target holds goes on as it was when the target is left alone. *)
Lemma seen_kept d d' f :
  orderly d0 d -> plain f -> begun d ⊆ begun d' -> reader_sees f d' = reader_sees f d ->
  reader_sees f d' = reader_sees f d0 \/ exists data, (f, data) ∈ begun d' /\ reader_sees f d' = Some data.
Proof.
  intros Ho Hp Hb ->. destruct (o_seen _ _ Ho f Hp) as [E|(data & Hin & E)]; [by left|right]. exists data. auto.
Qed.

Lemma not_busy d j f g data ino k :
  Forall (fun w => busy f w = false) (writers d) -> writers d !! j = Some (Writing g data ino k) -> g <> f.
Proof.
  intros Hb Hj ->. rewrite Forall_lookup in Hb. specialize (Hb j _ Hj). cbn [busy] in Hb. by rewrite bool_decide_eq_true_2 in Hb.
Qed.

Lemma open_orderly d i f data ino :
  orderly d0 d -> plain f -> writers d !! i = Some Idle -> Forall (fun w => busy f w = false) (writers d) ->
  ino = default (fresh_ino d) (names d !! tmp_of f) ->
  orderly d0 (mkDisk (<[tmp_of f := ino]> (names d)) (<[ino := []]> (inodes d)) (S (fresh_ino d))
                (<[i := Writing f data ino 0]> (writers d)) ((f, data) :: begun d)).
Proof.
  intros Ho Hf Hi Hb Hino.
  assert (Hlen : (i < length (writers d))%nat) by (by eapply lookup_lt_Some).
  assert (Hown : forall g, names d !! g = Some ino -> g = tmp_of f).
  { intros g Hg. destruct (names d !! tmp_of f) as [j|] eqn:E; cbn in Hino; subst ino; [by eapply (o_inj _ _ Ho)|].
    destruct (o_old _ _ Ho g _ Hg). lia. }
  assert (Hold : (ino <= fresh_ino d)%nat).
  { destruct (names d !! tmp_of f) as [j|] eqn:E; cbn in Hino; subst ino; [destruct (o_old _ _ Ho _ _ E); unfold id; lia|done]. }
  split; cbn [names inodes fresh_ino writers begun].
  - intros g h j [[<- <-]|[Hg Eg]]%lookup_insert_Some [[<- E]|[Hh Eh]]%lookup_insert_Some; [done| | |by eapply (o_inj _ _ Ho)].
    + by destruct Hh; symmetry; apply Hown.
    + subst j. by destruct Hg; symmetry; apply Hown.
  - intros g j [[<- <-]|[Hg Eg]]%lookup_insert_Some.
    + split; [lia|]. rewrite lookup_insert_eq. by eexists.
    + destruct (o_old _ _ Ho _ _ Eg) as [Hlt Hs]. split; [lia|]. destruct (decide (ino = j)) as [->|Hne]; [rewrite lookup_insert_eq; by eexists|by rewrite lookup_insert_ne].
  - intros j j' g dt dt' n n' k k' Hj Hj'. destruct (decide (i = j)) as [<-|Hne], (decide (i = j')) as [<-|Hne']; try done.
    + rewrite list_lookup_insert_eq in Hj by done. rewrite list_lookup_insert_ne in Hj' by done. injection Hj as <- _ _ _. by destruct (not_busy d j' f f _ _ _ Hb Hj').
    + rewrite list_lookup_insert_eq in Hj' by done. rewrite list_lookup_insert_ne in Hj by done. injection Hj' as <- _ _ _. by destruct (not_busy d j f f _ _ _ Hb Hj).
    + rewrite list_lookup_insert_ne in Hj by done. rewrite list_lookup_insert_ne in Hj' by done. by eapply (o_one _ _ Ho).
  - intros j g dt n k Hj. destruct (decide (i = j)) as [->|Hne].
    + rewrite list_lookup_insert_eq in Hj by done. injection Hj as <- <- <- <-. rewrite !lookup_insert_eq.
      split_and!; [done|done|done|lia|left].
    + rewrite list_lookup_insert_ne in Hj by done. destruct (o_tmp _ _ Ho _ _ _ _ _ Hj) as (Hg & Ht & Hc & Hk & Hin).
      pose proof (not_busy d j f g _ _ _ Hb Hj) as Hgf.
      rewrite !lookup_insert_ne; [split_and!; [done|done|done|done|by right]| |]; intros E.
      * subst n. apply Hown, tmp_of_inj in Ht. done.
      * apply tmp_of_inj in E. by destruct Hgf.
  - intros g Hg. eapply seen_kept; [exact Ho|done|cbn; set_solver|]. apply seen_eq; cbn [names inodes].
    + rewrite lookup_insert_ne; [done|]. intros E. symmetry in E. by apply plain_not_tmp in E.
    + intros j Hj. rewrite lookup_insert_ne; [done|]. intros <-. apply Hown in Hj. by apply plain_not_tmp in Hj.
Qed.

Lemma write_at_take k b (data : bytes) : data !! k = Some b -> write_at k b (take k data) = take (S k) data.
Proof.
  intros Hk. pose proof (lookup_lt_Some _ _ _ Hk) as Hlt. unfold write_at. rewrite length_take_le by lia.
  rewrite Nat.ltb_irrefl, Nat.sub_diag. cbn [replicate app]. symmetry. by apply take_S_r.
Qed.

(** The writer of one index, and any writer of another target. *)
Lemma other_target d i j f g data data' ino ino' k k' :
  orderly d0 d -> writers d !! i = Some (Writing f data ino k) -> writers d !! j = Some (Writing g data' ino' k') -> i <> j -> g <> f.
Proof. intros Ho Hi Hj Hne ->. apply Hne. by eapply (o_one _ _ Ho). Qed.

Lemma write_orderly d i f data ino k b c :
  orderly d0 d -> writers d !! i = Some (Writing f data ino k) -> data !! k = Some b -> inodes d !! ino = Some c ->
  orderly d0 (mkDisk (names d) (<[ino := write_at k b c]> (inodes d)) (fresh_ino d)
                (<[i := Writing f data ino (S k)]> (writers d)) (begun d)).
Proof.
  intros Ho Hi Hb Hc. destruct (o_tmp _ _ Ho _ _ _ _ _ Hi) as (Hf & Ht & Hc' & Hk & Hin).
  rewrite Hc' in Hc. apply (inj Some) in Hc. rewrite <- Hc, (write_at_take k b data Hb). clear Hc.
  assert (Hlen : (i < length (writers d))%nat) by (by eapply lookup_lt_Some).
  pose proof (lookup_lt_Some _ _ _ Hb) as Hklt.
  split; cbn [names inodes fresh_ino writers].
  - apply Ho.
  - intros g j Hg. destruct (o_old _ _ Ho _ _ Hg) as [Hlt Hs]. split; [done|].
    destruct (decide (ino = j)) as [->|Hne]; [rewrite lookup_insert_eq; by eexists|by rewrite lookup_insert_ne].
  - intros j j' g dt dt' n n' q q' Hj Hj'.
    destruct (decide (i = j)) as [<-|Hne]; [rewrite list_lookup_insert_eq in Hj by done; injection Hj as <- _ _ _|rewrite list_lookup_insert_ne in Hj by done];
      (destruct (decide (i = j')) as [<-|Hne']; [rewrite list_lookup_insert_eq in Hj' by done|rewrite list_lookup_insert_ne in Hj' by done]).
    + done.
    + by eapply (o_one _ _ Ho).
    + injection Hj' as <- _ _ _. by eapply (o_one _ _ Ho).
    + by eapply (o_one _ _ Ho).
  - intros j g dt n q Hj. destruct (decide (i = j)) as [<-|Hne].
    + rewrite list_lookup_insert_eq in Hj by done. injection Hj as <- <- <- <-. rewrite lookup_insert_eq. split_and!; [done|done|done|lia|done].
    + rewrite list_lookup_insert_ne in Hj by done. pose proof (other_target _ _ _ _ _ _ _ _ _ _ _ Ho Hi Hj Hne) as Hgf.
      destruct (o_tmp _ _ Ho _ _ _ _ _ Hj) as (Hg & Htg & Hcg & Hkg & Hing). rewrite lookup_insert_ne; [done|].
      intros <-. apply Hgf. apply tmp_of_inj. by eapply (o_inj _ _ Ho).
  - intros g Hg. eapply seen_kept; [exact Ho|done|done|]. apply seen_eq; cbn [names inodes]; [done|].
    intros j Hj. rewrite lookup_insert_ne; [done|]. intros <-. pose proof (o_inj _ _ Ho _ _ _ Hj Ht) as E. by apply plain_not_tmp in E.
Qed.

Lemma rename_orderly d i f data ino j :
  orderly d0 d -> writers d !! i = Some (Writing f data ino (length data)) -> names d !! tmp_of f = Some j ->
  orderly d0 (mkDisk (<[f := j]> (delete (tmp_of f) (names d))) (inodes d) (fresh_ino d) (<[i := Idle]> (writers d)) (begun d)).
Proof.
  intros Ho Hi Hj. destruct (o_tmp _ _ Ho _ _ _ _ _ Hi) as (Hf & Ht & Hc & _ & Hin).
  rewrite Ht in Hj. apply (inj Some) in Hj. rewrite <- Hj. clear Hj. rewrite take_ge in Hc by lia.
  assert (Hlen : (i < length (writers d))%nat) by (by eapply lookup_lt_Some).
  assert (Hw : forall a g dt n q, <[i := Idle]> (writers d) !! a = Some (Writing g dt n q) -> i <> a /\ writers d !! a = Some (Writing g dt n q)).
  { intros a g dt n q Ha. destruct (decide (i = a)) as [<-|Hne]; [by rewrite list_lookup_insert_eq in Ha|].
    by rewrite list_lookup_insert_ne in Ha. }
  split; cbn [names inodes fresh_ino writers].
  - intros g h a [[<- <-]|[Hg Eg]]%lookup_insert_Some [[<- E]|[Hh Eh]]%lookup_insert_Some; [done| | |].
    + apply lookup_delete_Some in Eh as [Hne Eh]. by destruct Hne; eapply (o_inj _ _ Ho).
    + subst a. apply lookup_delete_Some in Eg as [Hne Eg]. by destruct Hne; eapply (o_inj _ _ Ho).
    + apply lookup_delete_Some in Eg as [_ Eg]. apply lookup_delete_Some in Eh as [_ Eh]. by eapply (o_inj _ _ Ho).
  - intros g a [[<- <-]|[_ [_ Eg]%lookup_delete_Some]]%lookup_insert_Some; by eapply (o_old _ _ Ho).
  - intros a a' g dt dt' n n' q q' [_ Ha]%Hw [_ Ha']%Hw. by eapply (o_one _ _ Ho).
  - intros a g dt n q [Hne Ha]%Hw. pose proof (other_target _ _ _ _ _ _ _ _ _ _ _ Ho Hi Ha Hne) as Hgf.
    destruct (o_tmp _ _ Ho _ _ _ _ _ Ha) as (Hg & Htg & Hcg & Hkg & Hing).
    rewrite lookup_insert_ne by (by apply plain_not_tmp). rewrite lookup_delete_ne; [done|]. intros E. by apply tmp_of_inj in E.
  - intros g Hg. destruct (decide (f = g)) as [<-|Hne].
    + right. exists data. split; [done|]. unfold reader_sees. cbn [names inodes]. rewrite lookup_insert_eq. exact Hc.
    + eapply seen_kept; [exact Ho|done|done|]. apply seen_eq; cbn [names inodes]; [|done].
      rewrite lookup_insert_ne by done. rewrite lookup_delete_ne; [done|]. intros E. symmetry in E. by apply plain_not_tmp in E.
Qed.

Lemma step_orderly d d' : orderly d0 d -> step true d d' -> orderly d0 d'.
Proof.
  intros Ho Hs. destruct Hs as [d i f data ino Hf Hi Hb Hino|d i f data ino k b c Hi Hb Hc|d i f data ino j Hi Hj|d i f data ino Hi Hn].
  - by apply open_orderly; [| | |apply Hb|].
  - by apply write_orderly.
  - by eapply rename_orderly.
  - destruct (o_tmp _ _ Ho _ _ _ _ _ Hi) as (_ & Ht & _). by rewrite Ht in Hn.
Qed.

Lemma quiet_orderly : quiet d0 -> orderly d0 d0.
Proof.
  intros (Hw & Hinj & Hold). split; [done|done| | |by left].
  - intros i j f data data' ino ino' k k' Hi. rewrite Forall_lookup in Hw. by specialize (Hw i _ Hi).
  - intros i f data ino k Hi. rewrite Forall_lookup in Hw. by specialize (Hw i _ Hi).
Qed.
End steps.

(** ** Properties *)

(** C35: the store reads as the map of what was last written and not seized.
    After any sequence of writes of fragments and blobs and of seizures, from an
    empty tree, reading an item returns what the map of items holds for it,
    provided that no two node labels named share a directory and no two ids have
    one digest. *)
Theorem store_reads_as_map ops k node key :
  ~ clash (node :: nodes_in ops) (key :: keys_in ops) ->
  match k with Frag => get node key | Blob => get_blob node key end (run ops ∅) = run_meant ops ∅ !! (k, node, key).
Proof.
  intros Hc. pose proof (run_stands_for _ _ ops Hc ∅ ∅) as Hr. destruct k; apply Hr; cbn [fst snd];
    try (by left); try (by intros x Hx; right); by intros x _ _.
Qed.

(** C36: with one writer to a file at a time, no reader sees a part of a write.
    Whatever the interleaving of writers opening, writing byte by byte and
    renaming, and of new writes beginning, every file of the store holds at every
    moment what it held at first or the whole data of one write begun on it. *)
Theorem no_torn_reads d0 d f :
  quiet d0 -> rtc (step true) d0 d -> plain f ->
  reader_sees f d = reader_sees f d0 \/ exists data, (f, data) ∈ begun d /\ reader_sees f d = Some data.
Proof.
  intros Hq Hr Hf. apply (o_seen d0 d); [|done]. revert d Hr.
  apply rtc_ind_r; [by apply quiet_orderly|]. intros d1 d2 _ Hs Ho. by eapply step_orderly.
Qed.

(** ** Witnesses, and two writers of one file *)

Definition demo_ops : list op := [Put Frag "n1" "r#0" [1%Z]; Put Blob "n2" "m" [2%Z]; Put Frag "n1" "r#0" [3%Z]; Seize "n2"].

Lemma distinct_by {B} `{EqDecision B} (f : string -> B) (l : list string) :
  forallb (fun a => forallb (fun b => bool_decide (a = b) || negb (bool_decide (f a = f b))) l) l = true ->
  forall a b, a ∈ l -> b ∈ l -> a <> b -> f a <> f b.
Proof.
  rewrite forallb_forall. intros Hl a b Ha Hb Hne E. specialize (Hl a (proj1 (list_elem_of_In _ _) Ha)).
  rewrite forallb_forall in Hl. specialize (Hl b (proj1 (list_elem_of_In _ _) Hb)).
  rewrite bool_decide_eq_false_2, bool_decide_eq_true_2 in Hl by done. done.
Qed.

Lemma store_reads_as_map_witness : get "n1" "r#0" (run demo_ops ∅) = run_meant demo_ops ∅ !! (Frag, "n1", "r#0").
Proof.
  refine (store_reads_as_map demo_ops Frag "n1" "r#0" _). intros [(a & b & Ha & Hb & Hne & E)|(a & b & Ha & Hb & Hne & E)].
  - refine (distinct_by _node_dir ("n1" :: nodes_in demo_ops) _ a b Ha Hb Hne E). vm_compute. reflexivity.
  - refine (distinct_by sha256_hex ("r#0" :: keys_in demo_ops) _ a b Ha Hb Hne E). vm_compute. reflexivity.
Defined.

Definition demo_target : file := ("d", "frag-0").
Definition demo_disk (n : nat) : disk := mkDisk ∅ ∅ 0 (replicate n Idle) [].

Lemma demo_quiet n : quiet (demo_disk n).
Proof. split_and!; [apply Forall_replicate; done|by intros f g i|by intros f i]. Qed.

Lemma demo_plain : plain demo_target.
Proof. repeat split; discriminate. Qed.

Definition opened : disk := mkDisk {[tmp_of demo_target := 0%nat]} {[0%nat := []]} 1 [Writing demo_target [7%Z] 0 0] [(demo_target, [7%Z])].

Lemma no_torn_reads_witness : reader_sees demo_target opened = reader_sees demo_target (demo_disk 1) \/
  exists data, (demo_target, data) ∈ begun opened /\ reader_sees demo_target opened = Some data.
Proof.
  apply (no_torn_reads (demo_disk 1) opened demo_target (demo_quiet 1)); [|apply demo_plain].
  eapply rtc_l; [|apply rtc_refl].
  apply (step_open true (demo_disk 1) 0 demo_target [7%Z] 0); [apply demo_plain|reflexivity| |reflexivity].
  intros _. repeat constructor.
Defined.

(** The temporary name is the same for every writer of a file: a second writer
    truncates the file the first is about to rename, and a reader finds a target
    that is no write's data. *)
Theorem two_writers_tear_a_read :
  exists d, rtc (step false) (demo_disk 2) d /\ reader_sees demo_target d = Some [] /\ begun d = [(demo_target, [8%Z]); (demo_target, [7%Z])].
Proof.
  eexists. split; [|split].
  - eapply rtc_l; [apply (step_open false (demo_disk 2) 0 demo_target [7%Z] 0); [apply demo_plain|reflexivity|done|reflexivity]|].
    eapply rtc_l; [eapply (step_write false _ 0); [reflexivity|reflexivity|apply lookup_insert_eq]|].
    eapply rtc_l; [eapply (step_open false _ 1 demo_target [8%Z]); [apply demo_plain|reflexivity|done|reflexivity]|].
    eapply rtc_l; [eapply (step_rename false _ 0 demo_target [7%Z]); [reflexivity|apply lookup_insert_eq]|]. apply rtc_refl.
  - vm_compute. reflexivity.
  - reflexivity.
Qed.
