(* ===== verification/Fnmatch.v ===== *)
(** * Shell patterns

    [fnmatch.fnmatch] on a POSIX system, where the case is kept: [*] and [?] match
    anything, the separator included, [[seq]] a character of a set with ranges and
    [[!seq]] one outside it; a bracket that is never closed is the character.  As
    the library does, a pattern is translated to a regular expression.  A character
    is a byte, so [?] and brackets are meant for ASCII names. *)

From Stdlib Require Import Ascii.
From S2P Require Import Prelude PyVal PyText Regex.
Local Open Scope string_scope.

(** The set between brackets: a character, or a range where a hyphen stands
    between two characters. *)
Fixpoint class_member (stuff : list ascii) (c : ascii) : bool :=
  match stuff with
  | [] => false
  | lo :: ((h :: hi :: stuff') as more) =>
    if Ascii.eqb h "-" then between lo hi c || class_member stuff' c else Ascii.eqb lo c || class_member more c
  | lo :: more => Ascii.eqb lo c || class_member more c
  end.

(** The text up to the bracket that closes a set, and what follows it. *)
Fixpoint until_bracket (p : list ascii) : option (list ascii * list ascii) :=
  match p with
  | [] => None
  | c :: p =>
    if Ascii.eqb c "]" then Some ([], p)
    else match until_bracket p with Some (stuff, rest) => Some (c :: stuff, rest) | None => None end
  end.

(** A bracket that comes first belongs to the set. *)
Definition bracket_set (p : list ascii) : option (list ascii * list ascii) :=
  match p with
  | c :: p' =>
    if Ascii.eqb c "]" then match until_bracket p' with Some (stuff, rest) => Some (c :: stuff, rest) | None => None end
    else until_bracket p
  | [] => None
  end.

(** [[stuff]] after its opening bracket: the test and the rest of the pattern. *)
Definition bracket (p : list ascii) : option ((ascii -> bool) * list ascii) :=
  match p with
  | c :: p' =>
    if Ascii.eqb c "!" then
      match bracket_set p' with Some (stuff, rest) => Some (fun x => negb (class_member stuff x), rest) | None => None end
    else match bracket_set p with Some (stuff, rest) => Some (class_member stuff, rest) | None => None end
  | [] => None
  end.

Definition any_char : re := RChar (fun _ => true).

(** One step of fuel for each character of the pattern. *)
Fixpoint translate (fuel : nat) (p : list ascii) : re :=
  match fuel, p with
  | S fuel, c :: p =>
    if Ascii.eqb c "*" then RSeq (RStar any_char) (translate fuel p)
    else if Ascii.eqb c "?" then RSeq any_char (translate fuel p)
    else if Ascii.eqb c "[" then
      match bracket p with
      | Some (test, rest) => RSeq (RChar test) (translate fuel rest)
      | None => RSeq (RChar (Ascii.eqb c)) (translate fuel p)
      end
    else RSeq (RChar (Ascii.eqb c)) (translate fuel p)
  | _, _ => REps
  end.

Definition fnmatch (name pat : string) : bool :=
  let p := String.list_ascii_of_string pat in full_match (translate (length p) p) name.

Example fnmatch_ex :
  map (fun np => fnmatch np.1 np.2)
    [("svf/a/b.json", "svf/**"); ("schemas/cg/svf_run.v1.json", "schemas/cg/svf_*.json"); ("b", "[!a-c]");
     ("d-]", "[a-d][]-][]]"); ("x[1", "x[1"); ("abc", "a?"); ("-", "[z-a-b]"); ("z", "[z-a-b]");
     ("b", "[abcd]"); ("!", "[a!]")] =
    [true; true; false; true; true; false; true; false; true; true].
Proof. vm_compute. reflexivity. Qed.

(** ** Fuel, and names without wildcards *)

Lemma until_bracket_length p stuff rest : until_bracket p = Some (stuff, rest) -> (length rest < length p)%nat.
Proof.
  revert stuff; induction p as [|c p IH]; intros stuff E; simpl in E; [done|]. destruct (Ascii.eqb c "]"); [by simplify_eq/=; lia|].
  destruct (until_bracket p) as [[s r]|]; [|done]. simplify_eq/=. specialize (IH _ eq_refl). lia.
Qed.

Lemma bracket_length p t rest : bracket p = Some (t, rest) -> (length rest < length p)%nat.
Proof.
  assert (Hs : forall p stuff rest, bracket_set p = Some (stuff, rest) -> (length rest < length p)%nat).
  { intros [|c p'] stuff r E; cbn [bracket_set] in E; [done|]. destruct (Ascii.eqb c "]"); [|by eapply (until_bracket_length (c :: p'))].
    destruct (until_bracket p') as [[s r']|] eqn:E'; [|done]. simplify_eq/=. apply until_bracket_length in E'. lia. }
  intros E. destruct p as [|c p]; cbn [bracket] in E; [done|].
  destruct (Ascii.eqb c "!"); [destruct (bracket_set p) as [[s r]|] eqn:E'|destruct (bracket_set (c :: p)) as [[s r]|] eqn:E'];
    try done; apply Hs in E'; injection E as _ <-; simpl in *; lia.
Qed.

(** More fuel than the length of the pattern changes nothing. *)
Lemma translate_fuel fuel : forall p, (length p <= fuel)%nat -> translate fuel p = translate (length p) p.
Proof.
  induction (lt_wf fuel) as [fuel _ IH]. intros [|c p] Hle; [by destruct fuel|]. destruct fuel as [|fuel]; simpl in Hle; [lia|].
  cbn [length translate].
  assert (Hp : forall q, (length q <= length p)%nat -> translate fuel q = translate (length p) q).
  { intros q Hq. rewrite (IH fuel) by lia. destruct (decide (length p < S fuel)%nat); [|lia].
    by rewrite (IH (length p)) by lia. }
  rewrite !Hp by done. destruct (Ascii.eqb c "*"), (Ascii.eqb c "?"), (Ascii.eqb c "["); try done.
  destruct (bracket p) as [[t rest]|] eqn:E; [|done]. rewrite Hp; [done|]. apply bracket_length in E. lia.
Qed.

Definition plain_char (c : ascii) : bool := negb (one_of "*?[" c).

(** A pattern without wildcards matches itself only. *)
Lemma fnmatch_plain name pat :
  forallb plain_char (String.list_ascii_of_string pat) = true -> fnmatch name pat = String.eqb name pat.
Proof.
  intros Hp. apply eq_true_iff_eq. unfold fnmatch. rewrite full_match_lang, String.eqb_eq.
  revert name; induction pat as [|c pat IH]; intros name; [apply lang_eps_iff|].
  cbn [String.list_ascii_of_string length translate] in *. cbn [forallb] in Hp. apply andb_true_iff in Hp as [Hc Hp].
  assert (Hne : Ascii.eqb c "*" = false /\ Ascii.eqb c "?" = false /\ Ascii.eqb c "[" = false).
  { clear -Hc. unfold plain_char, one_of in Hc. cbn in Hc. destruct c as [[] [] [] [] [] [] [] []]; done. }
  destruct Hne as (-> & -> & ->). rewrite lang_seq_iff. split.
  - intros (s1 & s2 & -> & H1 & H2). inversion H1 as [|p x Hx| | | | |]; subst. apply Ascii.eqb_eq in Hx as <-.
    apply (IH Hp) in H2 as ->. done.
  - intros ->. exists (String c ""), pat. split_and!; [done|constructor; apply Ascii.eqb_refl|by apply IH].
Qed.
