(* ===== verification/SvfRegistry.v ===== *)
(** * The validation registry

    Models the part of [tools/svf_runner.py] that reads the registry and a receipt:
    the profiles, actions and plans, the plans selected for changed paths, the
    safety check of an action, the plan a run resolves to, and the shape check of a
    receipt.  Running and verifying are in [SvfRunner].

    The registry and a receipt are parsed values with text keys; a receipt is a
    dictionary, as [load_json] makes sure.  Everything else may have any type, and
    the operations that would raise in the source raise here. *)

From S2P Require Import Prelude PyVal Json PyText Fnmatch.
Local Open Scope string_scope.

Definition svf_error {A} (msg : string) : res A := Raise (ValueError msg).

(** [v in {...}] with texts in the set. *)
Definition in_texts (v : pyval) (l : list string) : res bool :=
  if hashable v then Ok (existsb (eq_str v) l) else Raise TypeError.

(** [any(f(x) for x in l)]. *)
Fixpoint res_exists {A} (f : A -> res bool) (l : list A) : res bool :=
  match l with
  | [] => Ok false
  | x :: l => b ← f x; if (b : bool) then Ok true else res_exists f l
  end.

(** [all(f(x) for x in l)]. *)
Fixpoint res_forall {A} (f : A -> res bool) (l : list A) : res bool :=
  match l with
  | [] => Ok true
  | x :: l => b ← f x; if (b : bool) then res_forall f l else Ok false
  end.

(** [if b: diagnostics.append(msg)]. *)
Definition when (b : bool) (msg : string) : list string := if b then [msg] else [].

(** ** Entries *)

(** [registry.get(key, [])], which has to be a list. *)
Definition section (key : string) (registry : dict) : res (list pyval) :=
  match default (PList []) (assoc key registry) with
  | PList l => Ok l
  | _ => svf_error ("SVF registry " +:+ key +:+ " must be a list")
  end.

Definition profiles : dict -> res (list pyval) := section "profiles".
Definition actions : dict -> res (list pyval) := section "actions".
Definition plans : dict -> res (list pyval) := section "plans".

(** The first entry whose field has the value. *)
Fixpoint find_by (field : string) (want : pyval) (l : list pyval) : res (option pyval) :=
  match l with
  | [] => Ok None
  | x :: l => v ← py_get x field PNone; if py_eq v want then Ok (Some x) else find_by field want l
  end.

Definition find_profile (registry : dict) (repo : string) : res (option pyval) :=
  l ← profiles registry; find_by "repo" (PStr repo) l.
Definition find_action (registry : dict) (action_id : pyval) : res (option pyval) :=
  l ← actions registry; find_by "action_id" action_id l.
Definition find_plan (registry : dict) (plan_id : pyval) : res (option pyval) :=
  l ← plans registry; find_by "plan_id" plan_id l.

Definition policy_projection (profile : pyval) : res pyval :=
  policy_ref ← py_get profile "policy_ref" PNone;
  profile_id ← py_get profile "profile_id" PNone;
  repo ← py_get profile "repo" PNone;
  mode ← py_get profile "mode" PNone;
  backend ← py_get profile "execution_backend" PNone;
  classes ← py_get profile "required_receipt_classes" (PList []);
  Ok (PDict [("policy_ref", policy_ref); ("profile_id", profile_id); ("repo", repo); ("mode", mode);
             ("execution_backend", backend); ("required_receipt_classes", classes)]).

(** ** Selecting plans *)

(** A dictionary whose keys are values. *)
Fixpoint keyed_set (k v : pyval) (d : list (pyval * pyval)) : list (pyval * pyval) :=
  match d with
  | [] => [(k, v)]
  | (k', v') :: d => if py_eq k' k then (k', v) :: d else (k', v') :: keyed_set k v d
  end.

Definition put_plan (entry : pyval -> pyval) (d : list (pyval * pyval)) (plan_id : pyval) : res (list (pyval * pyval)) :=
  if hashable plan_id then Ok (keyed_set plan_id (entry plan_id) d) else Raise TypeError.

Definition plan_entry (selector_id : pyval) (matched : list string) (reason : string) (plan_id : pyval) : pyval :=
  PDict [("plan_id", plan_id); ("selector_id", selector_id); ("matched_paths", PList (map PStr matched));
         ("selection_reason", PStr reason)].

Definition pattern_matches (path : string) (pattern : pyval) : res bool :=
  match pattern with PStr p => Ok (fnmatch path p) | _ => Raise TypeError end.

Fixpoint matched_paths (patterns : pyval) (changed : list string) : res (list string) :=
  match changed with
  | [] => Ok []
  | path :: changed =>
    l ← py_iter patterns;
    b ← res_exists (pattern_matches path) l;
    rest ← matched_paths patterns changed;
    Ok (if (b : bool) then path :: rest else rest)
  end.

Definition add_selector (changed : list string) (selected : list (pyval * pyval)) (selector : pyval) : res (list (pyval * pyval)) :=
  patterns ← py_get selector "paths" (PList []);
  matched ← matched_paths patterns changed;
  match matched with
  | [] => Ok selected
  | _ =>
    ids ← py_get selector "plans" (PList []); ids ← py_iter ids;
    selector_id ← py_get selector "selector_id" PNone;
    res_fold (put_plan (plan_entry selector_id matched "changed_path_selector")) selected ids
  end.

Definition select_plans (profile : pyval) (changed : list string) : res (list pyval) :=
  selectors ← py_get profile "changed_path_selectors" (PList []);
  selectors ← py_iter selectors;
  selected ← res_fold (add_selector changed) [] selectors;
  selected ← match selected with
             | [] =>
               defaults ← py_get profile "default_plans" (PList []); defaults ← py_iter defaults;
               res_fold (put_plan (plan_entry PNone [] "default_plan")) [] defaults
             | _ => Ok selected
             end;
  Ok (map snd selected).

(** ** Actions *)

(** The characters that would matter to a shell. *)
Definition shell_meta (item : pyval) : bool :=
  match item with PStr s => substring_of ";" s || substring_of "&&" s || substring_of "|" s | _ => false end.

Definition argv_ok (argv : pyval) : bool :=
  match argv with
  | PList ((_ :: _) as l) => forallb (fun item => is_str item && truthy item) l
  | _ => false
  end.

Section texts.
Context `{FloatRepr}.

Definition reject_unsafe_action (action profile : pyval) : res (list string) :=
  backend ← py_get action "backend" PNone;
  execution ← py_get profile "execution_backend" PNone;
  network ← py_get action "network_mode" PNone;
  network_ok ← in_texts network ["not_required"];
  credential ← py_get action "credential_policy" PNone;
  credential_ok ← in_texts credential ["none"];
  effect ← py_get action "side_effect_class" PNone;
  effect_ok ← in_texts effect ["read_only"; "artifact_write"];
  argv ← py_get action "argv" PNone;
  items ← py_iter (py_or argv (PList []));
  shell ← py_get action "shell" (PBool false);
  Ok (when (negb (eq_str backend "local")) ("unsupported action backend: " +:+ py_str backend) ++
      when (negb (eq_str execution "local")) ("unsupported profile backend: " +:+ py_str execution) ++
      when (negb network_ok) ("unsupported local network mode: " +:+ py_str network) ++
      when (negb credential_ok) ("unsupported credential policy: " +:+ py_str credential) ++
      when (negb effect_ok) ("unsupported side effect class: " +:+ py_str effect) ++
      when (negb (argv_ok argv)) "action argv must be a nonempty list of strings" ++
      when (existsb shell_meta items) "action argv contains shell metacharacters" ++
      when (truthy shell) "shell execution is forbidden")%list.

Definition resolve_action (registry : dict) (profile action_id : pyval) : res pyval :=
  found ← find_action registry action_id;
  match found with
  | None => svf_error ("plan references unknown action: " +:+ py_str action_id)
  | Some action =>
    diagnostics ← reject_unsafe_action action profile;
    match diagnostics with
    | [] => Ok action
    | _ => svf_error ("action rejected: " +:+ py_str action_id +:+ ": " +:+ py_repr (PList (map PStr diagnostics)))
    end
  end.

(** The plan asked for, or the first one selected. *)
Definition chosen_plan (repo : string) (profile : pyval) (plan_id : option string) (changed : list string) : res pyval :=
  match plan_id with
  | Some p => Ok (PStr p)
  | None =>
    selected ← select_plans profile changed;
    match selected with
    | [] => svf_error ("no SVF plan selected for repo: " +:+ repo)
    | s :: _ => py_item s "plan_id"
    end
  end.

Definition resolve_run_plan (registry : dict) (repo : string) (plan_id : option string) (changed : list string)
    : res (pyval * pyval * list pyval) :=
  profile ← find_profile registry repo;
  match profile with
  | None => svf_error ("no SVF profile registered for repo: " +:+ repo)
  | Some profile =>
    plan_id ← chosen_plan repo profile plan_id changed;
    plan ← find_plan registry plan_id;
    match plan with
    | None => svf_error ("SVF plan is not registered: " +:+ py_str plan_id)
    | Some plan =>
      ids ← py_get plan "actions" (PList []); ids ← py_iter ids;
      resolved ← res_map (resolve_action registry profile) ids;
      match resolved with
      | [] => svf_error ("plan has no executable actions: " +:+ py_str plan_id)
      | _ => Ok (profile, plan, resolved)
      end
    end
  end.

(** ** The commands that only read the registry *)

Definition profile_row (profile : pyval) : res pyval :=
  profile_id ← py_get profile "profile_id" PNone;
  repo ← py_get profile "repo" PNone;
  plane ← py_get profile "owning_plane" PNone;
  mode ← py_get profile "mode" PNone;
  backend ← py_get profile "execution_backend" PNone;
  defaults ← py_get profile "default_plans" (PList []);
  Ok (PDict [("profile_id", profile_id); ("repo", repo); ("owning_plane", plane); ("mode", mode);
             ("execution_backend", backend); ("default_plans", defaults)]).

Definition command_list (registry : dict) : res dict :=
  l ← profiles registry;
  rows ← res_map profile_row l;
  Ok [("command", PStr "list"); ("registry_id", default PNone (assoc "registry_id" registry));
      ("profile_count", PInt (Z.of_nat (length (rows : list pyval)))); ("profiles", PList rows);
      ("non_claims", PList [PStr "List only inspects workspace registry metadata.";
                            PStr "List does not execute validation actions or certify plan results."])].

Definition command_select (registry : dict) (repo : string) (changed : list string) : res dict :=
  profile ← find_profile registry repo;
  match profile with
  | None =>
    Ok [("command", PStr "select"); ("status", PStr "not_configured"); ("repo", PStr repo); ("selected_plans", PList []);
        ("diagnostics", PList [PStr ("no SVF profile registered for repo: " +:+ repo)])]
  | Some profile =>
    selected ← select_plans profile changed;
    profile_id ← py_get profile "profile_id" PNone;
    mode ← py_get profile "mode" PNone;
    backend ← py_get profile "execution_backend" PNone;
    Ok [("command", PStr "select");
        ("status", PStr (match selected with [] => "not_configured" | _ => "pass" end)); ("repo", PStr repo);
        ("profile_id", profile_id); ("mode", mode); ("execution_backend", backend);
        ("changed_paths", PList (map PStr changed)); ("selected_plans", PList selected);
        ("non_claims", PList [PStr "Selection does not execute validation actions.";
                              PStr "Selection does not certify that a receipt exists or verifies."])]
  end.
End texts.

(** ** The shape of a receipt *)

Definition RECEIPT_REQUIRED_FIELDS : list string :=
  ["schema_version"; "receipt_id"; "run_ref"; "run_digest"; "plan_ref"; "plan_digest"; "policy_ref"; "policy_digest";
   "input_digests"; "output_digests"; "certified_claims"; "non_certified_claims"; "verification"; "issued_at"].

Definition CLAIM_SCOPES : list string :=
  ["schema_conformant"; "fixtures_validated"; "tests_passed"; "semantic_roundtrip_preserved"; "policy_boundary_preserved";
   "non_production_only"; "runtime_smoke_passed"; "artifact_integrity_verified"; "receipt_integrity_verified"].

Definition digest_record_valid (record : pyval) : res bool :=
  match record with
  | PDict d =>
    b ← in_texts (default PNone (assoc "algorithm" d)) ["sha256"; "sha512"];
    Ok (b && match assoc "digest" d with Some (PStr s) => Nat.leb 16 (String.length s) | _ => false end)
  | _ => Ok false
  end.

Definition named_digest_valid (item : pyval) : res bool :=
  match item with
  | PDict d =>
    match assoc "name" d with
    | Some (PStr (String _ _)) => digest_record_valid item
    | _ => Ok false
    end
  | _ => Ok false
  end.

Definition named_digest_list_valid (items : pyval) : res bool :=
  match items with
  | PList ((_ :: _) as l) => res_forall named_digest_valid l
  | _ => Ok false
  end.

Definition field (receipt : dict) (key : string) : pyval := default PNone (assoc key receipt).

Definition starts_with (prefix : string) (v : pyval) : bool :=
  match v with PStr s => String.prefix prefix s | _ => false end.

Definition prefix_diagnostics (receipt : dict) : list string :=
  concat (map (fun fp => when (negb (starts_with fp.2 (field receipt fp.1))) (fp.1 +:+ " must start with " +:+ fp.2))
    [("receipt_id", "svf:receipt:"); ("run_ref", "svf:run:"); ("plan_ref", "svf:plan:"); ("policy_ref", "svf:policy:")]).

Definition digest_diagnostics (receipt : dict) (key : string) : res (list string) :=
  b ← digest_record_valid (field receipt key); Ok (when (negb b) (key +:+ " must contain algorithm and digest")).

Definition list_diagnostics (receipt : dict) (key : string) : res (list string) :=
  b ← named_digest_list_valid (field receipt key); Ok (when (negb b) (key +:+ " must be a nonempty named digest list")).

Definition claims_diagnostics (claims : pyval) : res (list string) :=
  match claims with
  | PList ((_ :: _) as l) =>
    b ← res_exists (fun claim => b ← in_texts claim CLAIM_SCOPES; Ok (negb b)) l;
    Ok (when b "certified_claims contains unsupported claim scope")
  | _ => Ok ["certified_claims must be a nonempty list"]
  end.

(** [isinstance(v, str) and v]. *)
Definition nonempty_text (v : pyval) : bool := is_str v && truthy v.

Definition verification_diagnostics (verification : pyval) : res (list string) :=
  match verification with
  | PDict d =>
    b ← in_texts (default PNone (assoc "status" d)) ["verified"; "failed"; "not_checked"];
    Ok (when (negb b) "verification.status invalid" ++
        when (negb (nonempty_text (default PNone (assoc "verifier" d)))) "verification.verifier required" ++
        when (negb (nonempty_text (default PNone (assoc "verified_at" d)))) "verification.verified_at required")%list
  | _ => Ok ["verification must be an object"]
  end.

Definition verify_receipt_shape (receipt : dict) : res (list string) :=
  let missing := py_sort String.ltb (List.filter (fun f => negb (assoc_mem f receipt)) RECEIPT_REQUIRED_FIELDS) in
  digests ← res_map (digest_diagnostics receipt) ["run_digest"; "plan_digest"; "policy_digest"];
  lists ← res_map (list_diagnostics receipt) ["input_digests"; "output_digests"];
  claims ← claims_diagnostics (field receipt "certified_claims");
  verification ← verification_diagnostics (field receipt "verification");
  Ok (map (fun f => "missing required field: " +:+ f) missing ++
      when (negb (eq_str (field receipt "schema_version") "1.0")) "schema_version must equal 1.0" ++
      prefix_diagnostics receipt ++ concat digests ++ concat lists ++ claims ++
      when (negb (match field receipt "non_certified_claims" with PList (_ :: _) => true | _ => false end))
        "non_certified_claims must be a nonempty list" ++
      verification ++
      when (negb (nonempty_text (field receipt "issued_at"))) "issued_at required")%list.

(** ** What is selected *)

(** A list without repetitions, each value where it came first. *)
Definition distinct (l : list string) : list string :=
  foldl (fun seen x => if existsb (String.eqb x) seen then seen else (seen ++ [x])%list) [] l.

(** The last value given to a key. *)
Definition last_for {A} (k : string) (writes : list (string * A)) : option A := assoc k (rev writes).

Definition with_last {A} (writes : list (string * A)) (k : string) : option (string * A) := (fun v => (k, v)) <$> last_for k writes.

Lemma existsb_eqb x l : existsb (String.eqb x) l = true <-> x ∈ l.
Proof.
  rewrite existsb_exists. setoid_rewrite String.eqb_eq. rewrite list_elem_of_In. naive_solver.
Qed.

Lemma distinct_snoc l x : distinct (l ++ [x]) = if existsb (String.eqb x) (distinct l) then distinct l else (distinct l ++ [x])%list.
Proof. unfold distinct. by rewrite foldl_app. Qed.

Lemma elem_of_distinct x l : x ∈ distinct l <-> x ∈ l.
Proof.
  induction l as [|y l IH] using rev_ind; [done|]. rewrite distinct_snoc, elem_of_app, list_elem_of_singleton, <- IH.
  destruct (existsb (String.eqb y) (distinct l)) eqn:E; [|by rewrite elem_of_app, list_elem_of_singleton].
  apply existsb_eqb in E. naive_solver.
Qed.

Lemma NoDup_distinct l : NoDup (distinct l).
Proof.
  induction l as [|y l IH] using rev_ind; [constructor|]. rewrite distinct_snoc.
  destruct (existsb (String.eqb y) (distinct l)) eqn:E; [done|]. apply NoDup_app. split_and!; [done| |apply NoDup_singleton].
  intros x Hx ->%list_elem_of_singleton. by rewrite (proj2 (existsb_eqb y _) Hx) in E.
Qed.

Lemma last_for_snoc {A} k (ws : list (string * A)) kv :
  last_for k (ws ++ [kv]) = if String.eqb kv.1 k then Some kv.2 else last_for k ws.
Proof. unfold last_for. rewrite rev_app_distr. by destruct kv. Qed.

Lemma last_for_Some {A} k (ws : list (string * A)) : k ∈ ws.*1 -> exists v, last_for k ws = Some v.
Proof.
  intros Hk. unfold last_for. destruct (assoc k (rev ws)) as [v|] eqn:E; [eauto|].
  apply assoc_None in E. destruct E. rewrite rev_alt, <- rev_alt. apply list_elem_of_fmap in Hk as (kv & -> & Hkv).
  apply list_elem_of_fmap. exists kv. split; [done|]. by rewrite list_elem_of_In, <- in_rev, <- list_elem_of_In.
Qed.

Lemma with_last_cons {A} (ws : list (string * A)) x ks : omap (with_last ws) (x :: ks) =
  match last_for x ws with Some v => (x, v) :: omap (with_last ws) ks | None => omap (with_last ws) ks end.
Proof. cbn [omap list_omap]. unfold with_last at 1. by destruct (last_for x ws). Qed.

Lemma assoc_set_last {A} k (v : A) ws ks : NoDup ks -> (forall x, x ∈ ks -> x ∈ ws.*1) ->
  assoc_set k v (omap (with_last ws) ks) =
    (omap (with_last (ws ++ [(k, v)])) ks ++ (if existsb (String.eqb k) ks then [] else [(k, v)]))%list.
Proof.
  intros Hnd. induction Hnd as [|x ks Hx Hnd IH]; intros Hin; [done|].
  destruct (last_for_Some x ws (Hin x (list_elem_of_here _ _))) as [w Hw].
  assert (Hks : forall y, y ∈ ks -> y ∈ ws.*1) by (intros y Hy; apply Hin; by right).
  rewrite !with_last_cons, last_for_snoc, Hw. cbn [existsb fst snd assoc_set].
  rewrite (String.eqb_sym x k). destruct (String.eqb_spec k x) as [->|Hne]; cbn [orb app].
  - rewrite app_nil_r. f_equal. clear -Hx. induction ks as [|y ks IH]; [done|]. apply not_elem_of_cons in Hx as [Hne Hx].
    rewrite !with_last_cons, last_for_snoc. cbn [fst snd]. by rewrite (proj2 (String.eqb_neq x y) Hne), (IH Hx).
  - by rewrite (IH Hks).
Qed.

Lemma fold_assoc_set {A} (ws : list (string * A)) :
  foldl (fun d kv => assoc_set kv.1 kv.2 d) [] ws = omap (with_last ws) (distinct ws.*1).
Proof.
  induction ws as [|[k v] ws IH] using rev_ind; [done|]. rewrite foldl_app. cbn [foldl fst snd]. rewrite IH.
  rewrite assoc_set_last; [|apply NoDup_distinct|intros x; apply elem_of_distinct].
  rewrite fmap_app. cbn [fmap list_fmap fst]. rewrite distinct_snoc.
  destruct (existsb (String.eqb k) (distinct ws.*1)); [by rewrite app_nil_r|]. rewrite omap_app. f_equal.
  rewrite with_last_cons, last_for_snoc. cbn [fst snd]. by rewrite String.eqb_refl.
Qed.

(** A selector with the fields and types that the registry gives it. *)
Record selector := mkSelector { selector_id : string; paths : list string; selector_plans : list string }.

Definition texts (l : list string) : pyval := PList (map PStr l).
Definition selector_value (s : selector) : pyval :=
  PDict [("selector_id", PStr (selector_id s)); ("paths", texts (paths s)); ("plans", texts (selector_plans s))].

(** The changed paths a selector matches. *)
Definition hits (changed : list string) (s : selector) : list string :=
  List.filter (fun path => existsb (fnmatch path) (paths s)) changed.

(** What the selectors that match write, in their order. *)
Definition selector_writes (changed : list string) (s : selector) : list (string * pyval) :=
  match hits changed s with
  | [] => []
  | _ => map (fun p => (p, plan_entry (PStr (selector_id s)) (hits changed s) "changed_path_selector" (PStr p))) (selector_plans s)
  end.

Definition default_writes (defaults : list string) : list (string * pyval) :=
  map (fun p => (p, plan_entry PNone [] "default_plan" (PStr p))) defaults.

Definition plan_writes (changed : list string) (sels : list selector) (defaults : list string) : list (string * pyval) :=
  match concat (map (selector_writes changed) sels) with
  | [] => default_writes defaults
  | ws => ws
  end.

Abbreviation keyed := (map (fun kv : string * pyval => (PStr kv.1, kv.2))).

Lemma keyed_set_texts k v d : keyed_set (PStr k) v (keyed d) = keyed (assoc_set k v d).
Proof.
  induction d as [|[k' v'] d IH]; [done|]. cbn [map keyed_set assoc_set py_eq fst snd].
  destruct (String.eqb k' k); [done|]. by rewrite IH.
Qed.

Lemma put_plans entry ids d :
  res_fold (put_plan entry) (keyed d) (map PStr ids) =
    Ok (keyed (foldl (fun d kv => assoc_set kv.1 kv.2 d) d (map (fun p => (p, entry (PStr p))) ids))).
Proof.
  revert d; induction ids as [|p ids IH]; intros d; [done|]. cbn [map res_fold put_plan hashable mbind res_bind foldl fst snd].
  by rewrite keyed_set_texts, IH.
Qed.

Lemma matched_texts l changed : matched_paths (texts l) changed = Ok (List.filter (fun path => existsb (fnmatch path) l) changed).
Proof.
  assert (Hex : forall path l, res_exists (pattern_matches path) (map PStr l) = Ok (existsb (fnmatch path) l)).
  { clear. intros path l. induction l as [|p l IH]; [done|]. cbn [map res_exists pattern_matches mbind res_bind existsb].
    by destruct (fnmatch path p). }
  induction changed as [|path changed IH]; [done|]. cbn [matched_paths List.filter].
  change (py_iter (texts l)) with (Ok (map PStr l)). cbn [mbind res_bind]. rewrite Hex, IH. done.
Qed.

Lemma add_selector_writes changed s d : add_selector changed (keyed d) (selector_value s) =
  Ok (keyed (foldl (fun d kv => assoc_set kv.1 kv.2 d) d (selector_writes changed s))).
Proof.
  unfold add_selector, selector_writes, selector_value. cbn [py_get assoc String.eqb Ascii.eqb Bool.eqb default from_option id mbind res_bind].
  rewrite matched_texts. cbn [mbind res_bind]. fold (hits changed s).
  destruct (hits changed s) as [|h hs]; [done|]. cbn [mbind res_bind py_iter texts]. apply put_plans.
Qed.

(** The plans selected for changed paths are those of the selectors that match
    a path, each once and in the order in which they are first named, with the
    selector and the matched paths of the last one that names it; only when the
    matching selectors name no plan are they the default plans. *)
Theorem selection_follows_selectors (profile : dict) sels defaults changed :
  assoc "changed_path_selectors" profile = Some (PList (map selector_value sels)) ->
  assoc "default_plans" profile = Some (texts defaults) ->
  let writes := plan_writes changed sels defaults in
  select_plans (PDict profile) changed = Ok (omap (fun p => last_for p writes) (distinct writes.*1)).
Proof.
  intros Hs Hd writes. unfold select_plans. cbn [py_get]. rewrite Hs, Hd. cbn [default from_option id mbind res_bind py_iter texts].
  assert (Hfold : forall d, res_fold (add_selector changed) (keyed d) (map selector_value sels) =
    Ok (keyed (foldl (fun d kv => assoc_set kv.1 kv.2 d) d (concat (map (selector_writes changed) sels))))).
  { clear. induction sels as [|s sels IH]; intros d; [done|]. cbn [map res_fold concat]. rewrite add_selector_writes, foldl_app. apply IH. }
  change (res_fold (add_selector changed) []) with (res_fold (add_selector changed) (keyed [])).
  rewrite Hfold. cbn [mbind res_bind]. rewrite fold_assoc_set. clear Hfold.
  assert (Hsnd : forall ws : list (string * pyval), map snd (keyed (omap (with_last ws) (distinct ws.*1))) =
    omap (fun p => last_for p ws) (distinct ws.*1)).
  { intros ws. generalize (distinct ws.*1) as ks. induction ks as [|k ks IH]; [done|]. rewrite with_last_cons. cbn [omap list_omap].
    rewrite <- IH. by destruct (last_for k ws). }
  unfold plan_writes in writes. destruct (concat (map (selector_writes changed) sels)) as [|w ws] eqn:E.
  - cbn [fmap list_fmap distinct foldl omap list_omap map].
    change (res_fold (put_plan ?e) []) with (res_fold (put_plan e) (keyed [])). rewrite put_plans, fold_assoc_set. cbn [mbind res_bind].
    f_equal. apply Hsnd.
  - assert (Hne : exists kv l, keyed (omap (with_last (w :: ws)) (distinct (w :: ws).*1)) = kv :: l).
    { assert (Hw : w.1 ∈ distinct (w :: ws).*1) by (apply elem_of_distinct; left).
      destruct (last_for_Some w.1 (w :: ws)) as [v Hv]; [left|].
      assert (Hin : (w.1, v) ∈ omap (with_last (w :: ws)) (distinct (w :: ws).*1)).
      { apply list_elem_of_omap. exists w.1. split; [done|]. unfold with_last. by rewrite Hv. }
      destruct (omap _ _) as [|kv l]; [by apply elem_of_nil in Hin|]. eauto. }
    destruct Hne as (kv & l & Hne). rewrite Hne. cbn [mbind res_bind]. rewrite <- Hne. f_equal. apply Hsnd.
Qed.

Definition demo_selectors : list selector :=
  [mkSelector "registry" ["registry/*.yaml"; "tools/svf_runner.py"] ["svf:plan:dogfood"; "svf:plan:schema"];
   mkSelector "docs" ["docs/**"] ["svf:plan:dogfood"]].

Definition demo_profile : dict :=
  [("repo", PStr "SocioProphet/sociosphere"); ("changed_path_selectors", PList (map selector_value demo_selectors));
   ("default_plans", texts ["svf:plan:all"])].

Lemma selection_follows_selectors_witness :
  (exists l, select_plans (PDict demo_profile) ["docs/a/b.md"; "registry/x.yaml"; "README.md"] = Ok l /\
     l = [plan_entry (PStr "docs") ["docs/a/b.md"] "changed_path_selector" (PStr "svf:plan:dogfood");
          plan_entry (PStr "registry") ["registry/x.yaml"] "changed_path_selector" (PStr "svf:plan:schema")]) /\
  select_plans (PDict demo_profile) ["README.md"] = Ok [plan_entry PNone [] "default_plan" (PStr "svf:plan:all")].
Proof.
  split.
  - eexists. split; [apply (selection_follows_selectors demo_profile demo_selectors ["svf:plan:all"]); reflexivity|].
    vm_compute. reflexivity.
  - etransitivity; [apply (selection_follows_selectors demo_profile demo_selectors ["svf:plan:all"]); reflexivity|].
    vm_compute. reflexivity.
Defined.
