(* ===== verification/SvfRunner.v ===== *)
(** * The validation runner

    Models the commands of [tools/svf_runner.py] that run a plan and verify a
    receipt, with the clock, the paths, the digests and the files they use.

    A disk has files and directories and no symbolic links, so resolving a path is
    removing its [..].  What a process does to the disk and to the rest of the world
    is an argument, and so is the YAML reader; a process gives its exit code and
    output, or runs out of time and leaves what it had written, which
    [subprocess.run] hands over as bytes although it was asked for text.  The
    commands started are kept in a trace. *)

From Stdlib Require Import Ascii.
From stdpp Require Import gmap.
From S2P Require Import Prelude PyVal Json PyText JsonParse JsonIndent Sha256 Effects Workspace SvfRegistry.
Local Open Scope string_scope.

(** ** Time *)

Section calendar.
Local Open Scope Z_scope.

(** The date of a day counted from 1970-01-01. *)
Definition civil (days : Z) : Z * Z * Z :=
  let z := days + 719468 in
  let era := z / 146097 in
  let doe := z mod 146097 in
  let yoe := (doe - doe / 1460 + doe / 36524 - doe / 146096) / 365 in
  let doy := doe - (365 * yoe + yoe / 4 - yoe / 100) in
  let mp := (5 * doy + 2) / 153 in
  let m := if mp <? 10 then mp + 3 else mp - 9 in
  (yoe + 400 * era + (if m <=? 2 then 1 else 0), m, doy - (153 * mp + 2) / 5 + 1).

(** [fromtimestamp(seconds, utc)] with its [isoformat] and [Z] for the offset. *)
Definition iso_utc (seconds : Z) : res string :=
  let '(y, m, d) := civil (seconds / 86400) in
  let t := seconds mod 86400 in
  if (1 <=? y) && (y <=? 9999) then
    Ok (zero_padded 4 y +:+ "-" +:+ zero_padded 2 m +:+ "-" +:+ zero_padded 2 d +:+ "T" +:+ zero_padded 2 (t / 3600) +:+ ":" +:+
        zero_padded 2 (t mod 3600 / 60) +:+ ":" +:+ zero_padded 2 (t mod 60) +:+ "Z")
  else Raise (ValueError "year is out of range").

Definition pinned_time (epoch : string) : res string :=
  match py_int epoch with
  | Ok seconds => iso_utc seconds
  | Raise _ => Raise (ValueError ("SVF_SOURCE_DATE_EPOCH must be an integer Unix epoch in seconds; got " +:+ repr_str epoch))
  end.
End calendar.

Example iso_utc_ex : pinned_time "1781006026" = Ok "2026-06-09T11:53:46Z" /\ pinned_time "951782400" = Ok "2000-02-29T00:00:00Z"
  /\ pinned_time "-1" = Ok "1969-12-31T23:59:59Z" /\ is_ok (pinned_time "not-an-int") = false.
Proof. vm_compute. auto. Qed.

(** ** Paths *)

(** [path.resolve()]. *)
Definition resolve (p : path) : path :=
  foldl (fun acc c => if String.eqb c ".." then removelast acc else (acc ++ [c])%list) [] p.

(** The path that a text names from a directory. *)
Definition locate (base : path) (s : string) : path := resolve (slash base s).

(** [str(path)] of an absolute path. *)
Definition absolute_text (p : path) : string := "/" +:+ str_join "/" p.

(** [str(Path(s))]. *)
Definition path_as_given (s : string) : string :=
  if String.prefix "/" s then absolute_text (parts s) else as_posix (parts s).

Definition under (root p : path) : bool := is_ok (relative_to p root).

(** ** Digests *)

Definition digest_record (payload : string) : pyval :=
  PDict [("algorithm", PStr "sha256"); ("digest", PStr (sha256_hex payload))].

Definition digest_bytes (payload algorithm : string) : res pyval :=
  if String.eqb algorithm "sha256" then Ok (digest_record payload)
  else Raise (ValueError ("unsupported digest algorithm: " +:+ algorithm)).

(** ** The disk *)

Record disk := mkDisk { files : gmap path string; dirs : gset path }.

(** The directories on the way to a path, and the path. *)
Fixpoint ancestors (base p : path) : list path :=
  match p with
  | [] => [base]
  | c :: p => base :: ancestors (base ++ [c])%list p
  end.

(** What a process leaves. *)
Inductive outcome :=
| Completed (returncode : Z) (out err : string)
| TimedOut (out err : string).

Record action_result := mkResult {
  action_id : string;
  passed : bool;
  written : dict;
  artifact_path : string;
  artifact_digest : pyval
}.

Definition action_result_value (r : action_result) : pyval :=
  PDict (written r ++ [("artifact_path", PStr (artifact_path r)); ("artifact_digest", artifact_digest r)])%list.

(** A set of values, each once. *)
Definition py_set (v : pyval) : res (list pyval) :=
  l ← py_iter v;
  if forallb hashable l then
    Ok (foldl (fun seen x => if existsb (py_eq x) seen then seen else (seen ++ [x])%list) [] l)
  else Raise TypeError.

(** [sorted(l)] of texts.  The claims sorted below are texts whenever there are
    several of them. *)
Definition py_sorted (l : list pyval) : res (list pyval) :=
  match l with
  | [] | [_] => Ok l
  | _ => ts ← all_texts l; Ok (map PStr (py_sort String.ltb ts))
  end.

(** [l.remove(x)] for a text that is there. *)
Fixpoint remove_text (x : string) (l : list pyval) : list pyval :=
  match l with
  | [] => []
  | v :: l => if eq_str v x then l else v :: remove_text x l
  end.

Definition in_list (x : string) (l : list pyval) : bool := existsb (fun v => eq_str v x) l.

Section runner.
Context `{FloatRepr}.
Context {W : Type}.
Variable ROOT : path.
Variable CWD : path.
(** The variable [SVF_SOURCE_DATE_EPOCH] and the search path of the environment. *)
Variable EPOCH : option string.
Variable PATH : string.
(** The seconds of the wall clock. *)
Variable clock : W -> Z * W.
Variable safe_load : string -> res pyval.
Variable exec : list string -> list (string * string) -> Z -> eff (disk * W) outcome.

Record svf := mkSvf { on_disk : disk; world : W; ran : list (list string) }.

Definition set_disk (d : disk) (s : svf) : svf := mkSvf d (world s) (ran s).

Definition utc_now : eff svf string := fun s =>
  match EPOCH with
  | Some (String _ _ as epoch) => (pinned_time epoch, s)
  | _ => let (t, w) := clock (world s) in (iso_utc t, mkSvf (on_disk s) w (ran s))
  end.

(** *** Files *)

Definition exists_path (p : path) (d : disk) : bool := bool_decide (is_Some (files d !! p)) || bool_decide (p ∈ dirs d).

Definition read_file_at (p : path) (d : disk) : res string :=
  match files d !! p with
  | Some c => Ok c
  | None => if decide (p ∈ dirs d) then Raise (OtherError "is a directory") else Raise (FileNotFound (absolute_text p))
  end.

Definition read_bytes (p : path) : eff svf string := fun s => (read_file_at p (on_disk s), s).

Definition mkdir_parents (p : path) : eff svf unit := fun s =>
  let d := on_disk s in
  if existsb (fun q => bool_decide (is_Some (files d !! q))) (ancestors [] p) then (Raise (OtherError "file exists"), s)
  else (Ok tt, set_disk (mkDisk (files d) (list_to_set (ancestors [] p) ∪ dirs d)) s).

Definition write_text (p : path) (text : string) : eff svf unit := fun s =>
  let d := on_disk s in
  if decide (p ∈ dirs d) then (Raise (OtherError "is a directory"), s)
  else if decide (removelast p ∈ dirs d) then (Ok tt, set_disk (mkDisk (<[p := text]> (files d)) (dirs d)) s)
  else (Raise (FileNotFound (absolute_text p)), s).

Definition digest_data (data : pyval) : pyval := digest_record (canonical data).
Definition digest_file (p : path) : eff svf pyval := do c <- read_bytes p; ret (digest_record c).

Definition relative_path (p : path) : string :=
  match relative_to (resolve p) ROOT with Ok rel => as_posix rel | Raise _ => absolute_text p end.

(** The same of a path as it was given on the command line. *)
Definition relative_given (s : string) : string :=
  match relative_to (locate CWD s) ROOT with Ok rel => as_posix rel | Raise _ => path_as_given s end.

Definition ensure_under_root (p : path) : res path :=
  if under ROOT (resolve p) then Ok (resolve p) else Raise (ValueError ("path escapes repository root: " +:+ absolute_text p)).

Definition materialized_path (value : string) : res path := ensure_under_root (slash ROOT value).

Definition load_registry (given : string) : eff svf dict :=
  do text <- read_bytes (locate CWD given);
  do data <- of_res (safe_load text);
  match data with
  | PDict d => ret d
  | _ => raise (ValueError ("SVF registry must be a mapping: " +:+ path_as_given given))
  end.

Definition load_json (p : path) : eff svf dict :=
  do text <- read_bytes (resolve p);
  do data <- of_res (loads text);
  match data with
  | PDict d => ret d
  | _ => raise (ValueError ("JSON object expected: " +:+ absolute_text p))
  end.

Definition json_text (data : dict) : string := dumps_indent (PDict data) +:+ String NEWLINE "".

Definition write_json (p : path) (data : dict) : eff svf unit :=
  run mkdir_parents (removelast p); write_text p (json_text data).

(** *** Verifying a receipt *)

(** A file against its recorded digest. *)
Definition attest (file : string) (want : pyval) (missing : string) (mismatch : res string) : eff svf (list string) :=
  do p <- of_res (materialized_path file);
  do there <- gets (fun s => exists_path p (on_disk s));
  if (there : bool) then
    do digest <- digest_file p;
    if py_eq digest want then ret [] else do m <- of_res mismatch; ret [m]
  else ret [missing].

Definition item_digest (item : dict) : pyval :=
  PDict [("algorithm", field item "algorithm"); ("digest", field item "digest")].

Definition attest_item (kind : string) (item : dict) (file : string) : eff svf (list string) :=
  attest file (item_digest item) (kind +:+ " artifact missing: " +:+ file)
    (n ← py_item (PDict item) "name"; Ok (kind +:+ " digest mismatch: " +:+ py_str n)).

Definition attest_input (item : pyval) : eff svf (list string) :=
  match item with
  | PDict d => match assoc "path" d with Some (PStr file) => attest_item "input" d file | _ => ret [] end
  | _ => ret []
  end.

Definition attest_output (item : pyval) : eff svf (list string) :=
  match item with
  | PDict d =>
    match assoc "path" d with
    | Some (PStr file) => attest_item "output" d file
    | _ => ret ["output digest path missing: " +:+ py_str (field d "name")]
    end
  | _ => ret ["output digest path missing: " +:+ py_str item]
  end.

Fixpoint attest_all (f : pyval -> eff svf (list string)) (l : list pyval) : eff svf (list string) :=
  match l with
  | [] => ret []
  | x :: l => do a <- f x; do b <- attest_all f l; ret (a ++ b)%list
  end.

Definition unsupported_claims (plan : option pyval) (certified : pyval) : res (list string) :=
  declared ← match plan with
             | Some p => v ← py_get p "declared_claims" (PList []); py_set v
             | None => Ok []
             end;
  certified ← (if is_list certified then py_set certified else Ok []);
  unsupported ← py_sorted (List.filter (fun c => negb (existsb (py_eq c) declared)) certified);
  Ok (match unsupported with [] => [] | _ => ["certified claims outside plan scope: " +:+ py_repr (PList unsupported)] end).

(** The registered plan, policy and claims. *)
Definition registry_diagnostics (receipt registry : dict) : res (list string) :=
  plan ← find_plan registry (PStr (py_str (field receipt "plan_ref")));
  let on_plan := match plan with
                 | None => ["plan_ref not registered: " +:+ py_str (field receipt "plan_ref")]
                 | Some p => when (negb (py_eq (digest_data p) (field receipt "plan_digest"))) "plan_digest does not match registered plan"
                 end in
  l ← profiles registry;
  profile ← find_by "profile_id" (field receipt "profile_ref") l;
  on_profile ← match profile with
               | None => Ok ["profile_ref not registered: " +:+ py_str (field receipt "profile_ref")]
               | Some p =>
                 projection ← policy_projection p;
                 Ok (when (negb (py_eq (digest_data projection) (field receipt "policy_digest")))
                       "policy_digest does not match registered policy projection")
               end;
  on_claims ← unsupported_claims plan (field receipt "certified_claims");
  Ok (on_plan ++ on_profile ++ on_claims)%list.

Definition verify_receipt_integrity (receipt registry : dict) : eff svf (list string) :=
  match field receipt "run_artifact" with
  | PStr run_artifact =>
    do on_run <- attest run_artifact (field receipt "run_digest") ("run_artifact missing: " +:+ run_artifact)
                   (Ok "run_digest does not match run_artifact");
    do on_registry <- of_res (registry_diagnostics receipt registry);
    do inputs <- of_res (py_iter (default (PList []) (assoc "input_digests" receipt)));
    do on_inputs <- attest_all attest_input inputs;
    do outputs <- of_res (py_iter (default (PList []) (assoc "output_digests" receipt)));
    do on_outputs <- attest_all attest_output outputs;
    ret (on_run ++ on_registry ++ on_inputs ++ on_outputs)%list
  | _ => ret []
  end.

Definition verify_diagnostics (receipt : dict) (registry_given : string) : eff svf (list string) :=
  do shape <- of_res (verify_receipt_shape receipt);
  do registry <- load_registry registry_given;
  match shape with
  | [] => verify_receipt_integrity receipt registry
  | _ => ret shape
  end.

Definition command_verify_receipt (receipt_given registry_given : string) : eff svf dict :=
  let receipt_path := slash ROOT receipt_given in
  do receipt <- load_json receipt_path;
  do diagnostics <- verify_diagnostics receipt registry_given;
  let ok := match diagnostics with [] => true | _ => false end in
  ret [("command", PStr "verify-receipt"); ("status", PStr (if ok then "pass" else "fail"));
       ("receipt_path", PStr (relative_path receipt_path)); ("receipt_id", field receipt "receipt_id");
       ("diagnostics", PList (map PStr diagnostics));
       ("verified_claims", if ok then default (PList []) (assoc "certified_claims" receipt) else PList []);
       ("non_claims", PList
         [PStr "Receipt verification recomputes registered plan, policy projection, run, input, and output digests when artifact paths are present.";
          PStr "Receipt verification does not certify production readiness or live infrastructure behavior."])].

Definition command_explain (receipt_given registry_given : string) : eff svf dict :=
  do result <- command_verify_receipt receipt_given registry_given;
  ret (assoc_set "explanation"
         (PStr "Receipt explanation reports digest verification status, certified claims, diagnostics, and explicit non-claims.")
         (assoc_set "command" (PStr "explain") result)).

(** *** Running a plan *)

(** [f"{n:02d}"]. *)
Definition two_digits (n : nat) : string :=
  if Nat.ltb n 100 then zero_padded 2 (Z.of_nat n) else pretty (Z.of_nat n).

Definition result_name (ordinal : nat) (id : string) : string :=
  two_digits ordinal +:+ "-" +:+ replace_char "/" "_" (replace_char ":" "_" id) +:+ ".result.json".

Definition action_env : list (string * string) := [("PATH", PATH); ("PYTHONHASHSEED", "0"); ("SVF_LOCAL_EXECUTION", "1")].

Definition start (argv : list string) (timeout : Z) : eff svf outcome := fun s =>
  let (o, dw) := exec argv action_env timeout (on_disk s, world s) in
  (o, mkSvf dw.1 dw.2 (ran s ++ [argv])%list).

(** The record of a finished action; output left by one that ran out of time is
    bytes, which a JSON text cannot hold. *)
Definition outcome_fields (id started ended : string) (o : outcome) : res (bool * dict) :=
  let fields ok code out err taxonomy :=
    [("action_id", PStr id); ("status", PStr (if (ok : bool) then "pass" else "fail")); ("exit_code", code);
     ("started_at", PStr started); ("ended_at", PStr ended); ("stdout", PStr out); ("stderr", PStr err);
     ("failure_taxonomy", texts taxonomy)] in
  match o with
  | Completed code out err =>
    let ok := (code =? 0)%Z in Ok (ok, fields ok (PInt code) out err (if ok then [] else ["action_exit_nonzero"]))
  | TimedOut "" "" => Ok (false, fields false PNone "" "" ["timeout"])
  | TimedOut _ _ => Raise TypeError
  end.

Definition argv_of (action : pyval) : res (list string) :=
  argv ← py_item action "argv"; l ← py_iter argv; Ok (map py_str l).

Definition execute_action (out_dir : path) (ordinal : nat) (action : pyval) : eff svf action_result :=
  do id <- of_res (py_item action "action_id");
  let id := py_str id in
  do started <- utc_now;
  do argv <- of_res (argv_of action);
  do timeout <- of_res (v ← py_get action "timeout_seconds" (PInt 60); py_int_of v);
  do o <- start argv timeout;
  do ended <- utc_now;
  let p := (out_dir ++ [result_name ordinal id])%list in
  match outcome_fields id started ended o with
  | Raise e => run mkdir_parents out_dir; raise e
  | Ok (ok, fields) =>
    run write_json p fields;
    do digest <- digest_file p;
    ret (mkResult id ok fields (relative_path p) digest)
  end.

Fixpoint execute_all (out_dir : path) (ordinal : nat) (l : list pyval) : eff svf (list action_result) :=
  match l with
  | [] => ret []
  | a :: l =>
    do r <- execute_action out_dir ordinal a;
    do rs <- execute_all out_dir (S ordinal) l;
    ret (r :: rs)
  end.

Definition status_text (ok : bool) : string := if ok then "pass" else "fail".
Definition get (v : pyval) (k : string) : pyval := match py_get v k PNone with Ok x => x | Raise _ => PNone end.

Definition run_record (repo run_ref : string) (profile plan : pyval) (changed : list string) (started ended : string) (ok : bool)
    (results : list action_result) : dict :=
  [("schema_version", PStr "1.0"); ("run_ref", PStr run_ref); ("repo", PStr repo); ("profile_ref", get profile "profile_id");
   ("plan_ref", get plan "plan_id"); ("policy_ref", get profile "policy_ref"); ("backend", PStr "local");
   ("changed_paths", texts changed); ("started_at", PStr started); ("ended_at", PStr ended); ("status", PStr (status_text ok));
   ("action_results", PList (map action_result_value results));
   ("non_claims", texts ["Local execution does not certify production readiness.";
                         "Local execution does not certify container, browser, QEMU, cluster, or vendor parity."])].

(** [{"name": ..., "path": ..., **digest}]. *)
Definition named_digest (name file : string) (digest : pyval) : pyval :=
  PDict ([("name", PStr name); ("path", PStr file)] ++ match digest with PDict d => d | _ => [] end)%list.

Definition output_digest (r : action_result) : pyval := named_digest (action_id r) (artifact_path r) (artifact_digest r).

Definition RECEIPT_INTEGRITY : string := "receipt_integrity_verified".

(** What a run may certify before its receipt is verified. *)
Definition certified_before (declared : pyval) (ok : bool) : res (list pyval) :=
  claims ← (if ok then py_iter declared else Ok [PStr "non_production_only"]);
  Ok (if in_list RECEIPT_INTEGRITY claims then remove_text RECEIPT_INTEGRITY claims else claims).

Definition NON_CERTIFIED : list string :=
  ["production_readiness"; "live_infrastructure_safety"; "container_runtime_parity"; "browser_runtime_parity";
   "qemu_runtime_parity"; "signadot_vendor_parity"; "network_isolation_enforced"].

Definition VERIFIER : string := "sociosphere.svf_runner.local".

(** The receipt before it is verified; [certified] and [verification] change after. *)
Definition receipt_record (repo suffix run_file : string) (run_digest profile plan projection registry_digest : pyval)
    (outputs certified : list pyval) (verification : dict) (issued : string) : dict :=
  [("schema_version", PStr "1.0"); ("receipt_id", PStr ("svf:receipt:" +:+ suffix)); ("run_ref", PStr ("svf:run:" +:+ suffix));
   ("run_artifact", PStr run_file); ("run_digest", run_digest); ("repo", PStr repo); ("profile_ref", get profile "profile_id");
   ("plan_ref", get plan "plan_id"); ("plan_digest", digest_data plan); ("policy_ref", get profile "policy_ref");
   ("policy_digest", digest_data projection); ("input_digests", PList [registry_digest]); ("output_digests", PList outputs);
   ("certified_claims", PList certified); ("non_certified_claims", texts NON_CERTIFIED); ("verification", PDict verification);
   ("issued_at", PStr issued)].

Record run_args := mkArgs { a_repo : string; a_plan : option string; a_changed : list string; a_out : string; a_registry : string }.

(** What a run has gathered when it issues its receipt. *)
Record issued := mkIssued {
  i_out : path;
  i_receipt : list pyval -> dict -> string -> dict;
  i_certified : list pyval;
  i_passed : bool;
  i_results : list action_result;
  i_suffix : string
}.

Definition run_path (out_dir : path) : path := (out_dir ++ ["validation-run.json"])%list.
Definition receipt_path (out_dir : path) : path := (out_dir ++ ["validation-receipt.json"])%list.

(** Executing the actions and writing the run. *)
Definition run_actions (args : run_args) (profile plan : pyval) (acts : list pyval) : eff svf issued :=
  do out_dir <- of_res (materialized_path (a_out args));
  run mkdir_parents out_dir;
  do started <- utc_now;
  do results <- execute_all out_dir 1 acts;
  let ok := forallb passed results in
  do plan_id <- of_res (py_item plan "plan_id");
  let suffix := str_take 16 (sha256_hex (a_repo args +:+ "|" +:+ py_str plan_id +:+ "|" +:+ started)) in
  do ended <- utc_now;
  run write_json (run_path out_dir)
        (run_record (a_repo args) ("svf:run:" +:+ suffix) profile plan (a_changed args) started ended ok results);
  do run_digest <- digest_file (run_path out_dir);
  do declared <- of_res (py_get plan "declared_claims" (PList []));
  do certified <- of_res (certified_before declared ok);
  do projection <- of_res (policy_projection profile);
  do registry_digest <- digest_file (locate CWD (a_registry args));
  ret (mkIssued out_dir
         (fun certified verification => receipt_record (a_repo args) suffix (relative_path (run_path out_dir)) run_digest profile plan
            projection (named_digest "registry" (relative_given (a_registry args)) registry_digest)
            (map output_digest results) certified verification)
         certified ok results suffix).

Definition verification_record (status at_time : string) : dict :=
  [("status", PStr status); ("verifier", PStr VERIFIER); ("verified_at", PStr at_time)].

Definition verified_record (diagnostics : list string) (at_time : string) : dict :=
  (verification_record (match diagnostics with [] => "verified" | _ => "failed" end) at_time ++
   [("diagnostics", texts diagnostics)])%list.

(** The claims once the receipt is verified. *)
Definition certified_after (plan : pyval) (diagnostics : list string) (certified : list pyval) : res (list pyval) :=
  match diagnostics with
  | [] =>
    declared ← py_get plan "declared_claims" (PList []);
    b ← py_in RECEIPT_INTEGRITY declared;
    if (b : bool) then claims ← py_set (PList (certified ++ [PStr RECEIPT_INTEGRITY])%list); py_sorted claims
    else Ok certified
  | _ => Ok certified
  end.

Definition command_run (args : run_args) : eff svf dict :=
  do registry <- load_registry (a_registry args);
  do resolved <- of_res (resolve_run_plan registry (a_repo args) (a_plan args) (a_changed args));
  let '(profile, plan, acts) := resolved in
  do i <- run_actions args profile plan acts;
  do checked_at <- utc_now;
  do issued_at <- utc_now;
  let receipt := i_receipt i (i_certified i) (verification_record "not_checked" checked_at) issued_at in
  run write_json (receipt_path (i_out i)) receipt;
  do shape <- of_res (verify_receipt_shape receipt);
  do integrity <- verify_receipt_integrity receipt registry;
  let diagnostics := (shape ++ integrity)%list in
  do verified_at <- utc_now;
  let verification := verified_record diagnostics verified_at in
  do certified <- of_res (certified_after plan diagnostics (i_certified i));
  run write_json (receipt_path (i_out i)) (i_receipt i certified verification issued_at);
  ret [("command", PStr "run");
       ("status", PStr (match diagnostics with [] => status_text (i_passed i) | _ => "fail" end));
       ("repo", PStr (a_repo args)); ("profile_id", get profile "profile_id"); ("plan_id", get plan "plan_id");
       ("run_ref", PStr ("svf:run:" +:+ i_suffix i)); ("run_artifact", PStr (relative_path (run_path (i_out i))));
       ("receipt_id", PStr ("svf:receipt:" +:+ i_suffix i)); ("receipt_path", PStr (relative_path (receipt_path (i_out i))));
       ("verification", PDict verification); ("action_count", PInt (Z.of_nat (length (i_results i))));
       ("non_claims", texts ["This is local-only SVF execution.";
                             "This does not claim Signadot vendor integration or full runtime parity."])].

(** *** The command line *)

Inductive command :=
| CList (registry : string)
| CSelect (registry repo : string) (changed : list string)
| CRun (args : run_args)
| CVerify (registry receipt : string)
| CExplain (registry receipt : string).

Definition command_name (c : command) : string :=
  match c with CList _ => "list" | CSelect _ _ _ => "select" | CRun _ => "run" | CVerify _ _ => "verify-receipt" | CExplain _ _ => "explain" end.

Definition dispatch (c : command) : eff svf dict :=
  match c with
  | CList registry => do r <- load_registry registry; of_res (command_list r)
  | CSelect registry repo changed => do r <- load_registry registry; of_res (command_select r repo changed)
  | CRun args => command_run args
  | CVerify registry receipt => command_verify_receipt receipt registry
  | CExplain registry receipt => command_explain receipt registry
  end.

(** [str(exc)] of an exception. *)
Variable exn_str : exn -> string.

Definition exit_code (result : dict) : Z :=
  if (match assoc "status" result with None | Some PNone => true | Some v => eq_str v "pass" end) &&
     existsb (eq_str (field result "command")) ["list"; "select"; "run"; "verify-receipt"; "explain"]
  then 0 else 1.

Definition main (c : command) : eff svf (dict * Z) :=
  do result <- catch (dispatch c)
                 (fun e => ret [("command", PStr (command_name c)); ("status", PStr "fail"); ("diagnostics", texts [exn_str e])]);
  ret (result, exit_code result).
End runner.
