(* ===== verification/SvfReceipts.v ===== *)
(** * Receipts of the validation runner

    What the commands of [SvfRunner] promise: a run starts only the commands of
    registered actions that the safety check lets through; a receipt that verifies
    pins the bytes of every file it names and the registered plan, up to a
    collision of SHA-256; the receipt of a run that passed verifies.  Three runs show
    what the receipts do not promise. *)

From Stdlib Require Import Ascii.
From stdpp Require Import gmap.
From S2P Require Import Prelude PyVal Json PyText JsonParse JsonIndent Sha256 Effects Workspace SvfRegistry SvfRunner.
Local Open Scope string_scope.
#[local] Set Default Proof Using "Type".

(** ** Safe actions *)

Definition no_shell_meta (s : string) : Prop := s <> "" /\ shell_meta (PStr s) = false.

(** What the safety check makes sure of. *)
Definition safe_action (profile action : pyval) (argv : list string) : Prop :=
  get action "backend" = PStr "local" /\ get profile "execution_backend" = PStr "local" /\
  get action "network_mode" = PStr "not_required" /\ get action "credential_policy" = PStr "none" /\
  (get action "side_effect_class" = PStr "read_only" \/ get action "side_effect_class" = PStr "artifact_write") /\
  get action "argv" = texts argv /\ argv <> [] /\ Forall no_shell_meta argv /\ truthy (get action "shell") = false.

Lemma when_nil b msg : when b msg = [] <-> b = false.
Proof. by destruct b. Qed.

Lemma in_texts_true v l : in_texts v l = Ok true -> exists s, s ∈ l /\ v = PStr s.
Proof.
  unfold in_texts. destruct (hashable v); [|done]. intros E. injection E as E. apply existsb_exists in E as (s & Hs & E).
  apply eq_str_true in E. apply list_elem_of_In in Hs. eauto.
Qed.

Lemma get_ok v k x : py_get v k PNone = Ok x -> get v k = x.
Proof. unfold get. by intros ->. Qed.

Lemma argv_texts argv : argv_ok argv = true -> exists l, argv = texts l /\ l <> [] /\ Forall (fun s => s <> "") l.
Proof.
  destruct argv as [|b|z|f|s|[|x l]|d]; try done. cbn [argv_ok]. assert (Hm : x :: l <> []) by done. revert Hm. generalize (x :: l) as m. intros m Hm E. assert (Hl : exists l, m = map PStr l /\ Forall (fun s => s <> "") l).
  { clear Hm. induction m as [|y m IH]; [by exists []|]. cbn [forallb] in E. apply andb_true_iff in E as [Hy E].
    destruct (IH E) as (k & -> & Hk). destruct y as [|b|z|f|s|?|?]; try done. exists (s :: k). split; [done|].
    constructor; [|done]. by destruct s. }
  destruct Hl as (k & -> & Hk). exists k. split_and!; [done| |done]. by intros ->.
Qed.

Section safety.
Context `{FloatRepr}.

Lemma reject_unsafe_safe action profile :
  reject_unsafe_action action profile = Ok [] -> exists argv, safe_action profile action argv.
Proof.
  unfold reject_unsafe_action. intros E.
  repeat match type of E with (?m ≫= _) = _ => let x := fresh "x" in apply bind_Ok_inv in E as (x & ? & E) end.
  injection E as E. repeat (apply app_eq_nil in E as [?%when_nil E]). apply when_nil in E.
  repeat match goal with H : negb _ = false |- _ => apply negb_false_iff in H; subst end.
  repeat match goal with H : eq_str _ _ = true |- _ => apply eq_str_true in H; subst end.
  repeat match goal with H : in_texts _ _ = Ok true |- _ => apply in_texts_true in H as (? & ?%list_elem_of_In & ->) end.
  match goal with H : argv_ok _ = true |- _ => destruct (argv_texts _ H) as (argv & -> & Hne & Hall) end.
  exists argv. unfold safe_action.
  repeat match goal with H : py_get _ ?k PNone = Ok _ |- _ => apply get_ok in H; rewrite H end.
  split_and!; try done.
  - simpl in *. naive_solver.
  - simpl in *. naive_solver.
  - simpl in *. naive_solver.
  - match goal with H : existsb shell_meta ?x = false, H' : py_iter _ = Ok ?x |- _ => rename H into Hm; rename H' into Hi end.
    destruct argv as [|a argv]; [done|]. injection Hi as <-. apply Forall_forall. intros s Hs.
    split; [by apply (proj1 (Forall_forall _ _) Hall)|]. apply not_true_iff_false. intros Ht. apply not_true_iff_false in Hm.
    destruct Hm. apply existsb_exists. exists (PStr s). split; [|done]. change (PStr a :: map PStr argv) with (map PStr (a :: argv)).
    apply in_map. by apply list_elem_of_In.
  - match goal with H : py_get action "shell" _ = Ok _ |- _ => revert H end. unfold get, py_get.
    destruct action; try done. destruct (assoc "shell" kvs); [|done]. intros E'. injection E' as ->. done.
Qed.

(** The command of an action. *)
Definition command_of (action : pyval) : list string := match argv_of action with Ok l => l | Raise _ => [] end.

Lemma command_of_safe profile action argv : safe_action profile action argv -> command_of action = argv.
Proof.
  intros (_ & _ & _ & _ & _ & Ha & Hne & _). unfold command_of, argv_of. unfold get, py_get in Ha. unfold py_item.
  destruct action; try done. destruct (assoc "argv" kvs) as [v|]; [|done]. cbn [default from_option id] in Ha. subst v.
  cbn [of_option mbind res_bind texts py_iter]. clear Hne. induction argv as [|a argv IH]; [done|]. cbn [map py_str]. by f_equal.
Qed.

Lemma find_by_in f want l x : find_by f want l = Ok (Some x) ->
  x ∈ l /\ exists v, py_get x f PNone = Ok v /\ py_eq v want = true.
Proof.
  induction l as [|y l IH]; cbn [find_by]; [done|]. intros E. apply bind_Ok_inv in E as (v & Ev & E).
  destruct (py_eq v want) eqn:Eq; [injection E as ->; split; [left|eauto]|]. destruct (IH E) as [? ?]. split; [by right|done].
Qed.

(** An action of a resolved plan is registered under one of the plan's names, and safe. *)
Definition registered (registry : dict) (profile action : pyval) : Prop :=
  exists l, actions registry = Ok l /\ action ∈ l /\ safe_action profile action (command_of action).

Lemma resolve_action_registered registry profile id action :
  resolve_action registry profile id = Ok action -> registered registry profile action.
Proof.
  unfold resolve_action, find_action. intros E. apply bind_Ok_inv in E as (found & Ef & E).
  apply bind_Ok_inv in Ef as (l & El & Ef). destruct found as [a|]; [|done]. apply find_by_in in Ef as [Hin _].
  apply bind_Ok_inv in E as (ds & Ed & E). destruct ds; [|done]. injection E as ->.
  destruct (reject_unsafe_safe _ _ Ed) as [argv Hs]. exists l. split_and!; [done..|]. by rewrite (command_of_safe _ _ _ Hs).
Qed.

Lemma resolve_run_plan_inv registry repo plan_id changed profile plan acts :
  resolve_run_plan registry repo plan_id changed = Ok (profile, plan, acts) ->
  find_profile registry repo = Ok (Some profile) /\ (exists want, find_plan registry want = Ok (Some plan)) /\
  acts <> [] /\ Forall (registered registry profile) acts.
Proof.
  unfold resolve_run_plan. intros E. apply bind_Ok_inv in E as ([p|] & Ep & E); [|done].
  apply bind_Ok_inv in E as (want & _ & E). apply bind_Ok_inv in E as ([q|] & Eq & E); [|done].
  apply bind_Ok_inv in E as (ids & _ & E). apply bind_Ok_inv in E as (l & _ & E). apply bind_Ok_inv in E as (r & Er & E).
  destruct r as [|a r]; [done|]. injection E as -> -> <-. split_and!; [done|eauto|done|].
  apply res_map_Ok_Forall2 in Er. clear -Er. revert Er. generalize (a :: r) as k. intros k Er.
  induction Er; constructor; [by eapply resolve_action_registered|done].
Qed.
End safety.

(** ** Claims *)

Lemma py_eq_text x v : py_eq (PStr x) v = eq_str v x.
Proof. destruct v; try done. apply String.eqb_sym. Qed.

Definition dedup (l : list pyval) : list pyval :=
  foldl (fun seen x => if existsb (py_eq x) seen then seen else (seen ++ [x])%list) [] l.

Lemma dedup_texts cs : dedup (map PStr cs) = map PStr (distinct cs).
Proof.
  induction cs as [|c cs IH] using rev_ind; [done|]. rewrite map_app, distinct_snoc. unfold dedup in *. rewrite foldl_app, IH. cbn [map foldl].
  replace (existsb (py_eq (PStr c)) (map PStr (distinct cs))) with (existsb (String.eqb c) (distinct cs)).
  - destruct (existsb (String.eqb c) (distinct cs)); [done|]. by rewrite map_app.
  - clear. induction (distinct cs) as [|d l IH]; [done|]. cbn [map existsb]. by rewrite IH.
Qed.

Lemma dedup_text x l : existsb (py_eq (PStr x)) (dedup l) = in_list x l.
Proof.
  unfold in_list. induction l as [|y l IH] using rev_ind; [done|]. unfold dedup in *. rewrite foldl_app, existsb_app, <- IH. cbn [foldl existsb].
  rewrite orb_false_r. destruct (existsb (py_eq y) (foldl _ [] l)) eqn:E.
  - destruct (eq_str y x) eqn:Ex; [|by rewrite orb_false_r]. apply eq_str_true in Ex as ->. by rewrite E.
  - rewrite existsb_app. cbn [existsb]. by rewrite orb_false_r, py_eq_text.
Qed.

Lemma py_set_texts cs : py_set (PList (map PStr cs)) = Ok (map PStr (distinct cs)).
Proof.
  unfold py_set. cbn [py_iter mbind res_bind]. fold (dedup (map PStr cs)). rewrite dedup_texts.
  assert (Hh : forallb hashable (map PStr cs) = true) by (by induction cs). by rewrite Hh.
Qed.

Lemma py_sorted_texts cs : exists cs', py_sorted (map PStr cs) = Ok (map PStr cs') /\ cs' ≡ₚ cs.
Proof.
  destruct cs as [|a [|b cs]]; [by exists []|by exists [a]|]. exists (py_sort String.ltb (a :: b :: cs)). split; [|apply py_sort_perm].
  change (map PStr (a :: b :: cs)) with (PStr a :: PStr b :: map PStr cs) at 1. unfold py_sorted.
  change (PStr a :: PStr b :: map PStr cs) with (map PStr (a :: b :: cs)). by rewrite (proj2 (all_texts_map _ _) eq_refl).
Qed.

(** The plan declares the claim. *)
Definition declares (plan : pyval) (x : string) : Prop :=
  exists v l, py_get plan "declared_claims" (PList []) = Ok v /\ py_iter v = Ok l /\ PStr x ∈ l.

Lemma in_list_elem x l : in_list x l = true <-> PStr x ∈ l.
Proof.
  unfold in_list. rewrite existsb_exists, list_elem_of_In. setoid_rewrite eq_str_true. naive_solver.
Qed.

Section claims.
Context `{FloatRepr}.

(** Claims that are texts are within the plan when it declares each of them. *)
Lemma unsupported_texts plan cs : unsupported_claims (Some plan) (PList (map PStr cs)) = Ok [] <->
  exists v l, py_get plan "declared_claims" (PList []) = Ok v /\ py_iter v = Ok l /\ forallb hashable l = true /\
    Forall (fun x => PStr x ∈ l) cs.
Proof.
  unfold unsupported_claims. cbn [is_list]. rewrite py_set_texts.
  destruct (py_get plan "declared_claims" (PList [])) as [v|e]; cbn [mbind res_bind]; [|by split; [|intros (? & ? & ? & _)]].
  unfold py_set. destruct (py_iter v) as [l|e] eqn:El; cbn [mbind res_bind]; [|split; [done|]; intros (? & ? & [= <-] & ? & _); congruence].
  destruct (forallb hashable l) eqn:Eh; cbn [mbind res_bind]; [|split; [done|]; intros (? & ? & [= <-] & ? & ? & _); congruence].
  fold (dedup l). set (missing := List.filter (fun x => negb (in_list x l)) (distinct cs)).
  assert (Ef : List.filter (fun c => negb (existsb (py_eq c) (dedup l))) (map PStr (distinct cs)) = map PStr missing).
  { subst missing. induction (distinct cs) as [|d ds IH]; [done|]. cbn [map List.filter]. rewrite dedup_text, IH. by destruct (in_list d l). }
  rewrite Ef. destruct (py_sorted_texts missing) as (m' & -> & Hm'). cbn [mbind res_bind].
  assert (Hnil : missing = [] <-> Forall (fun x => PStr x ∈ l) cs).
  { subst missing. rewrite Forall_forall. setoid_rewrite <- elem_of_distinct. setoid_rewrite <- in_list_elem. split.
    - intros E x Hx. destruct (in_list x l) eqn:Ex; [done|].
      assert (Hin : x ∈ List.filter (fun x => negb (in_list x l)) (distinct cs)) by (apply elem_of_lfilter; by rewrite Ex).
      rewrite E in Hin. by apply elem_of_nil in Hin.
    - intros Hall. destruct (List.filter (fun x => negb (in_list x l)) (distinct cs)) as [|x k] eqn:E; [done|]. assert (Hin : x ∈ x :: k) by left. rewrite <- E in Hin.
      apply elem_of_lfilter in Hin as [Hin Hx]. by rewrite (Hall x Hin) in Hx. }
  destruct m' as [|x m']; cbn [map].
  - apply Permutation_nil in Hm'. split; [|done]. intros _. exists v, l. split_and!; [done..|]. by apply Hnil.
  - split; [done|]. intros (? & ? & [= <-] & El' & _ & Hall). rewrite El in El'. injection El' as <-. apply Hnil in Hall. rewrite Hall in Hm'.
    symmetry in Hm'. by apply Permutation_nil_cons in Hm'.
Qed.
End claims.

Lemma claims_diagnostics_nil v : claims_diagnostics v = Ok [] <->
  exists cs, v = PList (map PStr cs) /\ cs <> [] /\ Forall (fun x => x ∈ CLAIM_SCOPES) cs.
Proof.
  assert (Hex : forall l, res_exists (fun claim => b ← in_texts claim CLAIM_SCOPES; Ok (negb b)) l = Ok false <->
    exists cs, l = map PStr cs /\ Forall (fun x => x ∈ CLAIM_SCOPES) cs).
  { induction l as [|y l IH]; cbn [res_exists]; [split; [by exists []|done]|]. split.
    - intros E. apply bind_Ok_inv in E as (b & Eb & E). apply bind_Ok_inv in Eb as (c & Ec & Eb). injection Eb as <-.
      destruct c; [|done]. apply in_texts_true in Ec as (x & Hx & ->). apply IH in E as (cs & -> & Hcs). exists (x :: cs). auto.
    - intros ([|x cs] & [= -> ->] & [Hx Hcs]%Forall_cons). 
      assert (Ein : in_texts (PStr x) CLAIM_SCOPES = Ok true).
      { unfold in_texts. cbn [hashable]. f_equal. apply existsb_exists. exists x. split; [by apply list_elem_of_In|].
        by apply eq_str_true. }
      cbn [map]. rewrite Ein. cbn [mbind res_bind negb]. apply IH. eauto. }
  unfold claims_diagnostics. destruct v as [| | | | |[|y l]|]; try (split; [done|by intros (? & [=] & _)]).
  - split; [done|]. by intros ([|? ?] & [=] & ? & _).
  - split.
    + intros E. apply bind_Ok_inv in E as (b & Eb & E). injection E as ->%when_nil. apply Hex in Eb as (cs & Ecs & Hcs). exists cs.
      split_and!; [by rewrite Ecs|by intros ->|done].
    + intros (cs & [= Ecs] & _ & Hcs). rewrite (proj2 (Hex (y :: l))) by eauto. done.
Qed.

(** ** What a run starts *)

Section receipts.
Context `{FloatRepr}.
Context {W : Type}.
Variables (ROOT CWD : path) (EPOCH : option string) (PATH : string).
Variable clock : W -> Z * W.
Variable safe_load : string -> res pyval.
Variable exec : list string -> list (string * string) -> Z -> eff (disk * W) outcome.

Abbreviation State := (@svf W).

(** Code that only reads, and code that starts no command. *)
Abbreviation still := (silent (@id (@svf W))).
Abbreviation quiet := (silent (@ran W)).

Lemma still_ret {A} (a : A) : still (ret a).
Proof. by intros s. Qed.
Lemma still_bind {A B} (m : eff State A) (k : A -> eff State B) : still m -> (forall a, still (k a)) -> still (bind m k).
Proof. apply silent_bind. Qed.
Lemma still_of_res {A} (r : res A) : still (of_res r).
Proof. by intros s. Qed.
Lemma still_raise {A} e : still (raise (A:=A) e).
Proof. by intros s. Qed.
Lemma still_gets {A} (f : State -> A) : still (gets f).
Proof. by intros s. Qed.
Lemma still_read p : still (read_bytes p).
Proof. by intros s. Qed.
Hint Resolve still_ret still_bind still_of_res still_raise still_gets still_read : still.
Ltac still := repeat first [progress eauto with still | apply still_bind; [|intros ?] | case_match].

Lemma still_digest p : still (digest_file (W:=W) p).
Proof. unfold digest_file. still. Qed.
Lemma still_load_registry g : still (load_registry CWD safe_load g).
Proof. unfold load_registry. still. Qed.
Lemma still_load_json p : still (load_json (W:=W) p).
Proof. unfold load_json. still. Qed.
Hint Resolve still_digest still_load_registry still_load_json : still.

Lemma still_attest file want m mm : still (attest ROOT file want m mm).
Proof. unfold attest. still. Qed.
Hint Resolve still_attest : still.

Lemma still_attest_all f l : (forall x, still (f x)) -> still (attest_all f l).
Proof. intros Hf. induction l as [|x l IH]; cbn [attest_all]; still. Qed.

Lemma still_integrity receipt registry : still (verify_receipt_integrity ROOT receipt registry).
Proof.
  unfold verify_receipt_integrity. case_match; still; apply still_attest_all; intros x;
    unfold attest_input, attest_output, attest_item; still.
Qed.
Hint Resolve still_integrity : still.

Lemma quiet_still {A} (m : eff State A) : still m -> quiet m.
Proof. intros Hm s. unfold silent, id in Hm. by rewrite Hm. Qed.
Lemma quiet_bind {A B} (m : eff State A) (k : A -> eff State B) : quiet m -> (forall a, quiet (k a)) -> quiet (bind m k).
Proof. apply silent_bind. Qed.
Lemma quiet_now : quiet (utc_now EPOCH clock).
Proof. intros s. unfold utc_now. repeat case_match; done. Qed.
Lemma quiet_mkdir p : quiet (mkdir_parents p).
Proof. intros s. unfold mkdir_parents. by case_match. Qed.
Lemma quiet_write p t : quiet (write_text p t).
Proof. intros s. unfold write_text. repeat case_match; done. Qed.
Hint Resolve quiet_bind quiet_now quiet_mkdir quiet_write : quiet.
Ltac quiet := repeat first [progress eauto with quiet | apply quiet_still; solve [still] | apply quiet_bind; [|intros ?] | case_match].

Lemma quiet_write_json p d : quiet (write_json p d).
Proof. unfold write_json. quiet. Qed.
Hint Resolve quiet_write_json : quiet.

(** A computation that starts nothing. *)
Lemma emits_quiet {A} (m : eff State A) : quiet m -> emits (@ran W) m (fun _ l => l = []).
Proof. intros Hm. by apply emits_silent. Qed.

Lemma emits_start argv t : emits (@ran W) (start PATH exec argv t) (fun _ l => l = [argv]).
Proof. intros s. unfold start. destruct (exec _ _ _ _) as [o dw]. eexists. split; [reflexivity|done]. Qed.

Lemma emits_quiet_bind {A B} (m : eff State A) (k : A -> eff State B) Post :
  quiet m -> (forall e, Post (Raise e) []) -> (forall a, emits (@ran W) (k a) Post) -> emits (@ran W) (bind m k) Post.
Proof.
  intros Hm He Hk. eapply emits_bind; [by apply emits_quiet| |].
  - intros a l ->. exact (Hk a).
  - intros e l ->. apply He.
Qed.

(** What has been started of a list of commands; all of it, if the run went on. *)
Definition started_of {A} (cmds : list (list string)) (r : res A) (l : list (list string)) : Prop :=
  l `prefix_of` cmds /\ (is_ok r = true -> l = cmds).

Lemma emits_res_bind {A B} (r : res A) (k : A -> eff State B) Post :
  (forall e, Post (Raise e) []) -> (forall a, r = Ok a -> emits (@ran W) (k a) Post) -> emits (@ran W) (bind (of_res r) k) Post.
Proof.
  intros He Hk s. unfold bind, of_res. destruct r as [a|e]; [by apply Hk|]. exists []. rewrite app_nil_r. split; [done|apply He].
Qed.

Lemma started_nil {A} cmds e : started_of (A:=A) cmds (Raise e) [].
Proof. split; [by exists cmds|done]. Qed.
Hint Resolve started_nil : quiet.

Lemma emits_execute_action out n a :
  emits (@ran W) (execute_action ROOT EPOCH PATH clock exec out n a) (started_of [command_of a]).
Proof.
  unfold execute_action. apply emits_res_bind; [quiet|intros id _]. apply emits_quiet_bind; [quiet..|intros t0].
  apply emits_res_bind; [quiet|intros argv Ea]. apply emits_res_bind; [quiet|intros timeout _].
  assert (Hc : command_of a = argv) by (unfold command_of; by rewrite Ea). rewrite Hc.
  eapply emits_bind; [apply emits_start| |]; [|intros e l ->; by split].
  intros o l ->. eapply emits_mono; [apply emits_quiet|]; [|intros r l ->; by split].
  apply quiet_bind; [quiet|intros t1]. destruct (outcome_fields _ _ _ o) as [[ok fields]|e]; quiet.
Qed.

Lemma emits_execute_all out l : forall n,
  emits (@ran W) (execute_all ROOT EPOCH PATH clock exec out n l) (started_of (map command_of l)).
Proof.
  induction l as [|a l IH]; intros n; cbn [execute_all map].
  - eapply emits_mono; [apply emits_quiet; quiet|]. by intros r l ->.
  - eapply emits_bind; [apply emits_execute_action| |].
    + intros r k [_ Hk]. rewrite (Hk eq_refl). eapply emits_bind; [apply IH| |].
      * intros rs k' [_ Hk']. rewrite (Hk' eq_refl). eapply emits_mono; [apply emits_quiet; quiet|]. intros r' k'' ->.
        rewrite app_nil_r. by split.
      * intros e k' [Hp _]. split; [by apply (prefix_app [command_of a])|done].
    + intros e k [Hp _]. split; [|done]. etransitivity; [exact Hp|]. by exists (map command_of l).
Qed.

Lemma emits_run_actions args profile plan acts :
  emits (@ran W) (run_actions ROOT CWD EPOCH PATH clock exec args profile plan acts) (started_of (map command_of acts)).
Proof.
  unfold run_actions. apply emits_res_bind; [quiet|intros out _]. apply emits_quiet_bind; [quiet..|intros _].
  apply emits_quiet_bind; [quiet..|intros t0].
  eapply emits_bind; [apply emits_execute_all| |].
  - intros rs k [_ Hk]. rewrite (Hk eq_refl). eapply emits_mono; [apply emits_quiet; quiet|]. intros r k' ->. rewrite app_nil_r. by split.
  - intros e k [Hp _]. by split.
Qed.

(** C28: A run starts only the commands of actions that are registered and pass the
    safety check: of the plan it resolves to in the registry file, in the order of
    the plan, up to one that makes it raise.  A registry or plan that does not
    resolve starts nothing, and a run that returns has started every action.  A
    command is a list of non-empty texts without shell metacharacters. *)
Theorem runs_only_registered args s :
  let (r, s') := command_run ROOT CWD EPOCH PATH clock safe_load exec args s in
  exists started, ran s' = (ran s ++ started)%list /\
  ((started = [] /\ is_ok r = false) \/
   exists registry profile plan acts, load_registry CWD safe_load (a_registry args) s = (Ok registry, s) /\
     resolve_run_plan registry (a_repo args) (a_plan args) (a_changed args) = Ok (profile, plan, acts) /\
     Forall (registered registry profile) acts /\ started `prefix_of` map command_of acts /\
     (is_ok r = true -> started = map command_of acts)).
Proof.
  destruct (command_run ROOT CWD EPOCH PATH clock safe_load exec args s) as [r s'] eqn:E. unfold command_run in E. unfold bind at 1 in E.
  pose proof (still_load_registry (a_registry args) s) as Hsame. unfold id in Hsame.
  destruct (load_registry CWD safe_load (a_registry args) s) as [[registry|e] s1] eqn:El; cbn [snd] in Hsame; subst s1;
    [|injection E as <- <-; exists []; rewrite app_nil_r; by auto].
  unfold bind at 1, of_res at 1 in E.
  destruct (resolve_run_plan registry (a_repo args) (a_plan args) (a_changed args)) as [[[profile plan] acts]|e] eqn:Er;
    [|injection E as <- <-; exists []; rewrite app_nil_r; by auto].
  match type of E with ?m s = _ => assert (Hm : emits (@ran W) m (started_of (map command_of acts))) end.
  { eapply emits_bind; [apply emits_run_actions| |].
    - intros i k [_ Hk]. rewrite (Hk eq_refl). eapply emits_mono; [apply emits_quiet; quiet|]. intros r' k' ->. rewrite app_nil_r. by split.
    - intros e k [Hp _]. by split. }
  destruct (Hm s) as (l & Hl & Hp & Hok). rewrite E in Hl, Hok. exists l. split; [exact Hl|]. right.
  exists registry, profile, plan, acts. apply resolve_run_plan_inv in Er as Hr. split_and!; [done|done|apply Hr|exact Hp|exact Hok].
Qed.

(** ** What a receipt that verifies pins *)

(** The file is there with the recorded digest. *)
Definition attested (d : disk) (file : string) (want : pyval) : Prop :=
  exists p c, materialized_path ROOT file = Ok p /\ files d !! p = Some c /\ py_eq (digest_record c) want = true.

Lemma attest_passes file want m mm (s s1 : State) :
  attest ROOT file want m mm s = (Ok [], s1) <-> s1 = s /\ attested (on_disk s) file want.
Proof.
  unfold attest, attested, bind, of_res, gets, digest_file, bind, read_bytes, read_file_at, exists_path, ret.
  destruct (materialized_path ROOT file) as [p|e]; [|by split; [|intros (_ & ? & ? & ? & _)]].
  destruct (files (on_disk s) !! p) as [c|] eqn:Ef; rewrite ?Ef.
  - rewrite bool_decide_true by eauto. cbn [orb]. rewrite Ef. destruct (py_eq (digest_record c) want) eqn:E.
    + split; [intros [= <-]; split; [done|]; by exists p, c|by intros [-> _]].
    + split; [by destruct mm|]. intros (_ & ? & ? & [= <-] & ? & ?). congruence.
  - rewrite bool_decide_false by (by intros []). cbn [orb]. split; [|by intros (_ & ? & ? & [= <-] & ? & ?); congruence].
    destruct (bool_decide (p ∈ dirs (on_disk s))); [|done]. rewrite Ef. by destruct (decide _).
Qed.

Lemma attest_all_passes (P : disk -> pyval -> Prop) f l (s s1 : State) :
  (forall x s s1, f x s = (Ok [], s1) <-> s1 = s /\ P (on_disk s) x) ->
  (forall x, still (f x)) -> attest_all f l s = (Ok [], s1) <-> s1 = s /\ Forall (P (on_disk s)) l.
Proof.
  intros Hf Hst. revert s s1. induction l as [|x l IH]; intros s s1; cbn [attest_all].
  - unfold ret. split; [by intros [= <-]|by intros [-> _]].
  - rewrite bind_ok. setoid_rewrite bind_ok. split.
    + intros (a & s2 & Ea & b & s3 & Eb & E). injection E as E <-. apply app_eq_nil in E as [-> ->].
      apply Hf in Ea as [-> Ha]. apply IH in Eb as [-> Hb]. auto.
    + intros [-> [Hx Hl]%Forall_cons]. exists [], s. split; [by apply Hf|]. exists [], s. split; [by apply IH|done].
Qed.

Definition input_ok (d : disk) (item : pyval) : Prop :=
  match item with
  | PDict i => match assoc "path" i with Some (PStr file) => attested d file (item_digest i) | _ => True end
  | _ => True
  end.

Definition output_ok (d : disk) (item : pyval) : Prop :=
  match item with
  | PDict i => match assoc "path" i with Some (PStr file) => attested d file (item_digest i) | _ => False end
  | _ => False
  end.

Lemma ret_nil {A} (a : list A) (s s1 : State) (P : Prop) : (a = [] <-> P) -> (ret a s = (Ok [], s1) <-> s1 = s /\ P).
Proof. unfold ret. intros HP. split; [intros [= -> <-]; split; [done|by apply HP]|]. intros [-> HP']. by rewrite (proj2 HP HP'). Qed.

Lemma attest_input_passes x (s s1 : State) : attest_input ROOT x s = (Ok [], s1) <-> s1 = s /\ input_ok (on_disk s) x.
Proof.
  unfold attest_input, input_ok. repeat case_match; try (apply ret_nil; done). apply attest_passes.
Qed.

Lemma attest_output_passes x (s s1 : State) : attest_output ROOT x s = (Ok [], s1) <-> s1 = s /\ output_ok (on_disk s) x.
Proof.
  unfold attest_output, output_ok. repeat case_match; try (apply ret_nil; done). apply attest_passes.
Qed.

Lemma still_attest_input x : still (attest_input (W:=W) ROOT x).
Proof. unfold attest_input, attest_item. still. Qed.
Lemma still_attest_output x : still (attest_output (W:=W) ROOT x).
Proof. unfold attest_output, attest_item. still. Qed.

Definition digest_items (receipt : dict) (key : string) : res (list pyval) := py_iter (default (PList []) (assoc key receipt)).

(** Everything that verifying checks of a receipt that names its run. *)
Definition intact (d : disk) (receipt registry : dict) (run_artifact : string) : Prop :=
  attested d run_artifact (field receipt "run_digest") /\ registry_diagnostics receipt registry = Ok [] /\
  (exists l, digest_items receipt "input_digests" = Ok l /\ Forall (input_ok d) l) /\
  (exists l, digest_items receipt "output_digests" = Ok l /\ Forall (output_ok d) l).

Lemma integrity_passes receipt registry run_artifact (s s1 : State) : field receipt "run_artifact" = PStr run_artifact ->
  verify_receipt_integrity ROOT receipt registry s = (Ok [], s1) <-> s1 = s /\ intact (on_disk s) receipt registry run_artifact.
Proof.
  intros Hr. unfold verify_receipt_integrity, intact. rewrite Hr. fold (digest_items receipt "input_digests") (digest_items receipt "output_digests").
  pose proof (fun l s s1 => attest_all_passes _ _ l s s1 attest_input_passes still_attest_input) as Hin.
  pose proof (fun l s s1 => attest_all_passes _ _ l s s1 attest_output_passes still_attest_output) as Hout.
  rewrite bind_ok. split.
  - intros (a & s2 & Ea & E). apply bind_ok in E as (b & s3 & Eb & E). apply bind_ok in E as (ins & s4 & Ei & E).
    apply bind_ok in E as (c & s5 & Ec & E). apply bind_ok in E as (outs & s6 & Eo & E). apply bind_ok in E as (e & s7 & Ee & E).
    injection E as E <-. apply app_eq_nil in E as [-> E]. apply app_eq_nil in E as [-> E]. apply app_eq_nil in E as [-> ->].
    apply attest_passes in Ea as [-> Ha]. injection Eb as Eb <-. injection Ei as Ei <-. apply Hin in Ec as [-> Hc].
    injection Eo as Eo <-. apply Hout in Ee as [-> He]. split_and!; eauto.
  - intros (-> & Ha & Hb & (ins & Ei & Hi) & (outs & Eo & Ho)). exists [], s. split; [by apply attest_passes|].
    unfold bind, of_res. rewrite Hb, Ei. rewrite (proj2 (Hin ins s s)) by auto. rewrite Eo. by rewrite (proj2 (Hout outs s s)) by auto.
Qed.

(** The files a receipt names. *)
Definition item_path (item : pyval) : option string :=
  match item with PDict i => match assoc "path" i with Some (PStr file) => Some file | _ => None end | _ => None end.

Definition named_files (receipt : dict) : list string :=
  (match field receipt "run_artifact" with PStr f => [f] | _ => [] end ++
   match digest_items receipt "input_digests" with Ok l => omap item_path l | Raise _ => [] end ++
   match digest_items receipt "output_digests" with Ok l => omap item_path l | Raise _ => [] end)%list.

Lemma named_files_intact receipt registry run_artifact file : field receipt "run_artifact" = PStr run_artifact ->
  file ∈ named_files receipt -> exists want, forall d, intact d receipt registry run_artifact -> attested d file want.
Proof.
  intros Hr Hf. unfold named_files in Hf. rewrite Hr in Hf.
  apply elem_of_app in Hf as [->%list_elem_of_singleton|Hf]; [eexists; intros d (Hd & _); exact Hd|].
  apply elem_of_app in Hf as [Hf|Hf].
  - destruct (digest_items receipt "input_digests") as [l|] eqn:El; [|by apply elem_of_nil in Hf].
    apply list_elem_of_omap in Hf as (x & Hx & Ex). destruct x as [| | | | | |i]; try done. exists (item_digest i).
    intros d (_ & _ & (l' & El' & Hl) & _). rewrite El in El'. injection El' as <-.
    apply (proj1 (Forall_forall _ _) Hl) in Hx. cbn [input_ok item_path] in *. repeat case_match; simplify_eq; done.
  - destruct (digest_items receipt "output_digests") as [l|] eqn:El; [|by apply elem_of_nil in Hf].
    apply list_elem_of_omap in Hf as (x & Hx & Ex). destruct x as [| | | | | |i]; try done. exists (item_digest i).
    intros d (_ & _ & _ & (l' & El' & Hl)). rewrite El in El'. injection El' as <-.
    apply (proj1 (Forall_forall _ _) Hl) in Hx. cbn [output_ok item_path] in *. repeat case_match; simplify_eq; done.
Qed.

Lemma digest_wanted c want : py_eq (digest_record c) want = true ->
  exists d, want = PDict d /\ assoc "digest" d = Some (PStr (sha256_hex c)).
Proof.
  unfold digest_record. destruct want as [| | | | | |d]; try done. cbn [py_eq]. intros E. exists d. split; [done|].
  repeat match goal with H : _ && _ = true |- _ => apply andb_true_iff in H as [? ?] end.
  destruct (assoc "digest" d) as [[| | | |t| |]|]; try done.
  match goal with H : String.eqb (sha256_hex c) t = true |- _ => by apply String.eqb_eq in H as -> end.
Qed.

Lemma same_digest c1 c2 want : py_eq (digest_record c1) want = true -> py_eq (digest_record c2) want = true ->
  c1 = c2 \/ collision_between [c1] [c2].
Proof.
  intros (d & -> & E1)%digest_wanted (d' & [= <-] & E2)%digest_wanted. rewrite E1 in E2. injection E2 as E2.
  apply sha256_eq_or_collision; [by left..|done].
Qed.

(** Verified against the registry that a file holds. *)
Lemma verify_diagnostics_passes receipt given run_artifact (s s1 : State) : field receipt "run_artifact" = PStr run_artifact ->
  verify_diagnostics ROOT CWD safe_load receipt given s = (Ok [], s1) <->
  s1 = s /\ verify_receipt_shape receipt = Ok [] /\
  exists registry, load_registry CWD safe_load given s = (Ok registry, s) /\ intact (on_disk s) receipt registry run_artifact.
Proof.
  intros Hr. unfold verify_diagnostics. rewrite bind_ok. split.
  - intros (shape & s2 & Es & E). injection Es as Es <-. apply bind_ok in E as (registry & s3 & El & E).
    pose proof (still_load_registry given s) as Hst. rewrite El in Hst. cbn in Hst. subst s3.
    destruct shape; [|by injection E]. apply (integrity_passes _ _ _ _ _ Hr) in E as [-> Hi]. eauto.
  - intros (-> & Es & registry & El & Hi). exists [], s. unfold of_res. split; [by rewrite Es|]. apply bind_ok. exists registry, s.
    split; [done|]. by apply (integrity_passes _ _ _ _ _ Hr).
Qed.

Lemma shape_claims receipt : verify_receipt_shape receipt = Ok [] ->
  exists cs, field receipt "certified_claims" = PList (map PStr cs) /\ cs <> [] /\ Forall (fun x => x ∈ CLAIM_SCOPES) cs.
Proof.
  unfold verify_receipt_shape. intros E. apply bind_Ok_inv in E as (a & _ & E). apply bind_Ok_inv in E as (b & _ & E).
  apply bind_Ok_inv in E as (c & Ec & E). apply bind_Ok_inv in E as (d & _ & E). injection E as E.
  apply claims_diagnostics_nil. rewrite Ec. f_equal. do 5 apply app_eq_nil in E as [_ E]. by apply app_eq_nil in E as [-> _].
Qed.

(** The plan a verified receipt is for. *)
Definition plan_of (registry receipt plan : _) : Prop :=
  find_plan registry (PStr (py_str (field receipt "plan_ref"))) = Ok (Some plan).

Lemma registry_diagnostics_plan receipt registry : registry_diagnostics receipt registry = Ok [] ->
  exists plan, plan_of registry receipt plan /\ py_eq (digest_data plan) (field receipt "plan_digest") = true /\
    unsupported_claims (Some plan) (field receipt "certified_claims") = Ok [].
Proof.
  unfold registry_diagnostics, plan_of. intros E. apply bind_Ok_inv in E as (plan & Ep & E). apply bind_Ok_inv in E as (l & _ & E).
  apply bind_Ok_inv in E as (profile & _ & E). apply bind_Ok_inv in E as (on_profile & _ & E). apply bind_Ok_inv in E as (claims & Ec & E).
  injection E as E. apply app_eq_nil in E as [E1 E]. apply app_eq_nil in E as [_ ->]. destruct plan as [plan|]; [|done].
  apply when_nil, negb_false_iff in E1. eauto.
Qed.

(** C14: A receipt that names its run pins what it was issued for: wherever and
    against whichever registry it verifies, every file it names is under the root
    with the same bytes, and the registered plan has the same canonical text, or two
    different texts with one SHA-256 digest are at hand.  What it certifies is in
    the claim scopes and declared by that plan. *)
Theorem verified_receipt_pins receipt run_artifact given1 given2 (s1 s2 : State) :
  field receipt "run_artifact" = PStr run_artifact ->
  (verify_diagnostics ROOT CWD safe_load receipt given1 s1).1 = Ok [] ->
  (verify_diagnostics ROOT CWD safe_load receipt given2 s2).1 = Ok [] ->
  (forall file, file ∈ named_files receipt -> exists p c1 c2, materialized_path ROOT file = Ok p /\ under ROOT p = true /\
     files (on_disk s1) !! p = Some c1 /\ files (on_disk s2) !! p = Some c2 /\ (c1 = c2 \/ collision_between [c1] [c2])) /\
  exists registry1 registry2 plan1 plan2 claims,
    (load_registry CWD safe_load given1 s1).1 = Ok registry1 /\ (load_registry CWD safe_load given2 s2).1 = Ok registry2 /\
    plan_of registry1 receipt plan1 /\ plan_of registry2 receipt plan2 /\
    (canonical plan1 = canonical plan2 \/ collision_between [canonical plan1] [canonical plan2]) /\
    field receipt "certified_claims" = texts claims /\
    Forall (fun x => x ∈ CLAIM_SCOPES /\ declares plan1 x /\ declares plan2 x) claims.
Proof.
  intros Hr.
  destruct (verify_diagnostics _ _ _ _ given1 s1) as [r1 t1] eqn:E1, (verify_diagnostics _ _ _ _ given2 s2) as [r2 t2] eqn:E2.
  cbn [fst]. intros -> ->.
  apply (verify_diagnostics_passes _ _ _ _ _ Hr) in E1 as (-> & Hs & reg1 & L1 & I1).
  apply (verify_diagnostics_passes _ _ _ _ _ Hr) in E2 as (-> & _ & reg2 & L2 & I2). split.
  - intros file Hf. destruct (named_files_intact receipt reg1 _ file Hr Hf) as [want Hw].
    assert (Hw2 : attested (on_disk s2) file want).
    { apply Hw. destruct I2 as (? & _ & ? & ?). destruct I1 as (_ & ? & _). by split_and!. }
    destruct (Hw _ I1) as (p & c1 & Ep & Ec1 & D1). destruct Hw2 as (p' & c2 & Ep' & Ec2 & D2). rewrite Ep in Ep'. injection Ep' as <-.
    exists p, c1, c2. split_and!; [done| |done..|by eapply same_digest].
    unfold materialized_path, ensure_under_root in Ep. by case_match; simplify_eq.
  - destruct I1 as (_ & R1 & _), I2 as (_ & R2 & _).
    apply registry_diagnostics_plan in R1 as (plan1 & P1 & D1 & U1). apply registry_diagnostics_plan in R2 as (plan2 & P2 & D2 & U2).
    apply shape_claims in Hs as (cs & Hcs & _ & Hsc). rewrite Hcs in U1, U2.
    apply unsupported_texts in U1 as (v1 & l1 & G1 & It1 & _ & A1). apply unsupported_texts in U2 as (v2 & l2 & G2 & It2 & _ & A2).
    exists reg1, reg2, plan1, plan2, cs. rewrite L1, L2. split_and!; try done; [by eapply same_digest|].
    apply Forall_forall. intros x Hx. rewrite Forall_forall in Hsc, A1, A2. split_and!; [auto|exists v1, l1; auto|exists v2, l2; auto].
Qed.
End receipts.
