(* ===== verification/SvfPaths.v ===== *)
(** * Paths of receipts

    The paths that the validation runner writes into a receipt name the files it
    wrote: the text of a resolved path below the root, read back from the root, is
    that path. *)

From Stdlib Require Import Ascii.
From S2P Require Import Prelude PyVal Json PyText Workspace SvfRunner.
Local Open Scope string_scope.

(** A component of a resolved path. *)
Definition named (c : string) : Prop := c <> "" /\ c <> "." /\ string_mem "/" c = false.
Definition component (c : string) : Prop := named c /\ c <> "..".
Definition clean (p : path) : Prop := Forall component p.

(** ** Splitting and joining *)

Lemma split_char_nonempty c s : exists p ps, split_char c s = p :: ps.
Proof.
  induction s as [|d s (p & ps & IH)]; cbn [split_char]; [eauto|]. destruct (Ascii.eqb d c); [eauto|]. rewrite IH. eauto.
Qed.

Lemma split_char_pieces c s : Forall (fun p => string_mem c p = false) (split_char c s).
Proof.
  induction s as [|d s IH]; cbn [split_char]; [by constructor|]. destruct (Ascii.eqb_spec d c) as [->|Hne]; [by constructor|].
  destruct (split_char_nonempty c s) as (p & ps & E). rewrite E in *. apply Forall_cons in IH as [Hp Hps]. constructor; [|done].
  cbn [string_mem]. rewrite Hp, orb_false_r. apply Ascii.eqb_neq. congruence.
Qed.

Lemma split_char_app c a s : string_mem c a = false -> split_char c (a +:+ String c s) = a :: split_char c s.
Proof.
  induction a as [|d a IH]; intros Ha.
  - rewrite string_app_nil_l. cbn [split_char]. by rewrite Ascii.eqb_refl.
  - cbn [string_mem] in Ha. apply orb_false_iff in Ha as [Hd Ha]. rewrite string_app_cons. cbn [split_char].
    rewrite Ascii.eqb_sym, Hd. by rewrite (IH Ha).
Qed.

Lemma split_char_plain c a : string_mem c a = false -> split_char c a = [a].
Proof.
  induction a as [|d a IH]; intros Ha; [done|]. cbn [string_mem] in Ha. apply orb_false_iff in Ha as [Hd Ha]. cbn [split_char].
  rewrite Ascii.eqb_sym, Hd. by rewrite (IH Ha).
Qed.

Lemma split_join p ps : Forall named (p :: ps) -> split_char "/" (str_join "/" (p :: ps)) = p :: ps.
Proof.
  cbn [str_join]. revert p. induction ps as [|q ps IH]; intros p [(_ & _ & Hp) Hps]%Forall_cons; cbn [foldr].
  - rewrite string_app_nil_r. by apply split_char_plain.
  - rewrite string_app_cons, string_app_nil_l, split_char_app by done. by rewrite IH.
Qed.

Lemma named_kept c : named c -> negb (String.eqb c "" || String.eqb c ".") = true.
Proof. intros (H1 & H2 & _). by rewrite (proj2 (String.eqb_neq _ _) H1), (proj2 (String.eqb_neq _ _) H2). Qed.

Lemma parts_named s : Forall named (parts s).
Proof.
  unfold parts. apply Forall_forall. intros c [Hc Hk]%elem_of_lfilter. apply negb_true_iff, orb_false_iff in Hk as [H1 H2].
  apply String.eqb_neq in H1, H2. split_and!; [done..|]. exact (proj1 (Forall_forall _ _) (split_char_pieces "/" s) c Hc).
Qed.

(** The text of named components has them as its parts. *)
Lemma parts_as_posix p : Forall named p -> parts (as_posix p) = p /\ String.prefix "/" (as_posix p) = false.
Proof.
  destruct p as [|c p]; intros Hp; [done|]. unfold as_posix, parts. rewrite (split_join c p Hp). split.
  - clear -Hp. induction (c :: p) as [|d l IH]; [done|]. apply Forall_cons in Hp as [Hd Hl]. cbn [List.filter].
    by rewrite (named_kept d Hd), (IH Hl).
  - apply Forall_cons in Hp as [(Hne & _ & Hs) _]. destruct c as [|d c]; [done|]. cbn [str_join]. rewrite string_app_cons.
    cbn [string_mem] in Hs. apply orb_false_iff in Hs as [Hs _]. cbn [String.prefix].
    destruct (ascii_dec "/" d) as [<-|]; [done|]. done.
Qed.

(** ** Resolving *)

Lemma removelast_clean p : clean p -> clean (removelast p).
Proof. intros Hp. apply Forall_forall. intros x Hx. apply (proj1 (Forall_forall _ _) Hp). rewrite list_elem_of_In in *.
  clear Hp. induction p as [|y p IH]; [done|]. destruct p as [|z p]; [done|]. cbn [removelast] in Hx. destruct Hx as [->|Hx]; [by left|right; auto].
Qed.

Lemma resolve_step_clean p acc : Forall named p -> clean acc ->
  clean (foldl (fun acc c => if String.eqb c ".." then removelast acc else (acc ++ [c])%list) acc p).
Proof.
  revert acc; induction p as [|c p IH]; intros acc Hp Ha; [done|]. apply Forall_cons in Hp as [Hc Hp]. cbn [foldl]. apply IH; [done|].
  destruct (String.eqb_spec c ".."); [by apply removelast_clean|]. apply Forall_app. split; [done|]. apply Forall_singleton. by split.
Qed.

Lemma resolve_clean p : Forall named p -> clean (resolve p).
Proof. intros Hp. apply resolve_step_clean; [done|constructor]. Qed.

Lemma resolve_id p : clean p -> resolve p = p.
Proof.
  enough (Hacc : forall acc, clean p ->
    foldl (fun acc c => if String.eqb c ".." then removelast acc else (acc ++ [c])%list) acc p = (acc ++ p)%list) by apply (Hacc []).
  induction p as [|c p IH]; intros acc Hp; [by rewrite app_nil_r|].
  apply Forall_cons in Hp as [[_ Hc] Hp]. cbn [foldl]. rewrite (proj2 (String.eqb_neq _ _) Hc), (IH _ Hp), <- app_assoc. done.
Qed.

Lemma clean_named p : clean p -> Forall named p.
Proof. intros Hp. eapply Forall_impl; [exact Hp|]. by intros c []. Qed.

Lemma slash_named base s : Forall named base -> Forall named (slash base s).
Proof. intros Hb. unfold slash. destruct (String.prefix "/" s); [apply parts_named|]. apply Forall_app. split; [done|apply parts_named]. Qed.

Lemma locate_clean base s : clean base -> clean (locate base s).
Proof. intros Hb. apply resolve_clean, slash_named. by apply clean_named. Qed.

Lemma under_split root p : under root p = true -> exists rel, relative_to p root = Ok rel /\ p = (root ++ rel)%list.
Proof.
  unfold under. intros [rel E]%is_ok_Ok. exists rel. split; [done|]. revert p E. induction root as [|b root IH]; intros [|c p] E; simpl in E; try done;
    try by injection E as <-.
  destruct (String.eqb_spec b c) as [->|]; [|done]. cbn [app]. f_equal. by apply IH.
Qed.

Section below.
Variable ROOT : path.
Hypothesis Hroot : clean ROOT.

(** A path below the root is found again from its text. *)
Lemma slash_relative p : clean p -> under ROOT p = true -> resolve (slash ROOT (relative_path ROOT p)) = p.
Proof.
  intros Hp Hu. destruct (under_split _ _ Hu) as (rel & E & Heq). unfold relative_path. rewrite (resolve_id p Hp), E.
  assert (Hrel : Forall named rel) by (apply clean_named; rewrite Heq in Hp; by apply Forall_app in Hp as [_ ?]).
  destruct (parts_as_posix rel Hrel) as [Ep Es]. unfold slash. rewrite Es, Ep, <- Heq. by apply resolve_id.
Qed.

Lemma materialized_relative p : clean p -> under ROOT p = true -> materialized_path ROOT (relative_path ROOT p) = Ok p.
Proof. intros Hp Hu. unfold materialized_path, ensure_under_root. by rewrite (slash_relative p Hp Hu), Hu. Qed.

Lemma materialized_clean s p : materialized_path ROOT s = Ok p -> clean p /\ under ROOT p = true.
Proof.
  unfold materialized_path, ensure_under_root. destruct (under ROOT (resolve (slash ROOT s))) eqn:E; [|done]. intros [= <-].
  split; [|done]. by apply (locate_clean ROOT s).
Qed.

Lemma under_snoc p c : under ROOT p = true -> under ROOT (p ++ [c])%list = true.
Proof.
  intros (rel & _ & ->)%under_split. unfold under. rewrite <- app_assoc. generalize (rel ++ [c])%list as r. intros r. clear.
  induction ROOT as [|b l IH]; [by destruct r|]. cbn [app relative_to]. by rewrite String.eqb_refl.
Qed.

Lemma clean_snoc p c : clean p -> component c -> clean (p ++ [c])%list.
Proof. intros Hp Hc. apply Forall_app. split; [done|]. by apply Forall_singleton. Qed.
End below.

(** ** The names of result files *)

Lemma string_mem_app c a b : string_mem c (a +:+ b) = string_mem c a || string_mem c b.
Proof. induction a as [|d a IH]; [done|]. rewrite string_app_cons. cbn [string_mem]. by rewrite IH, orb_assoc. Qed.

Lemma string_mem_replace c b s : c <> b -> string_mem c (replace_char c b s) = false.
Proof.
  intros Hne. unfold replace_char. induction s as [|d s IH]; [done|]. cbn [string_map string_mem]. rewrite IH, orb_false_r.
  destruct (Ascii.eqb_spec d c) as [->|Hd]; apply Ascii.eqb_neq; congruence.
Qed.

Lemma string_app_tail (a b c d : string) : a +:+ c = b +:+ d -> String.length c = String.length d -> c = d.
Proof.
  revert b; induction a as [|x a IH]; intros [|y b] E Hl; rewrite ?string_app_nil_l, ?string_app_cons in E; try done.
  - apply (f_equal String.length) in E. simpl in E. rewrite string_length_app in E. lia.
  - apply (f_equal String.length) in E. simpl in E. rewrite string_length_app in E. lia.
  - injection E as _ E. eauto.
Qed.

Lemma two_digits_no_slash n : string_mem "/" (two_digits n) = false.
Proof.
  assert (Hd : forall z, (0 <= z < 10)%Z -> Ascii.eqb "/" (digit_char z) = false).
  { intros z Hz. assert (Hk : (Z.to_nat z < 10)%nat) by lia. unfold digit_char. revert Hk. generalize (Z.to_nat z) as k.
    do 10 (intros [|k]; [done|revert k]). lia. }
  unfold two_digits. destruct (Nat.ltb n 100).
  - cbn [zero_padded]. rewrite !string_app_nil_l, !string_app_cons, string_app_nil_l. cbn [string_mem].
    rewrite !Hd by (apply Z.mod_pos_bound; lia). done.
  - assert (Hp : string_Forall (fun c => Ascii.eqb "/" c = false) (pretty (Z.of_nat n))).
    { apply pretty_Z_Forall; [|done]. intros k. unfold pretty_N_char. by repeat case_match. }
    revert Hp. generalize (pretty (Z.of_nat n)). induction s as [|c s IH]; [done|]. intros [Hc Hs]. cbn [string_mem]. by rewrite Hc, IH.
Qed.

Lemma result_name_component n id : component (result_name n id).
Proof.
  assert (Hlen : (12 <= String.length (result_name n id))%nat).
  { unfold result_name. rewrite !string_length_app. simpl. lia. }
  assert (Hs : string_mem "/" (result_name n id) = false).
  { unfold result_name. rewrite !string_mem_app, two_digits_no_slash, string_mem_replace by done. done. }
  repeat split; try done; intros E; rewrite E in Hlen; simpl in Hlen; lia.
Qed.

Lemma result_name_not_receipt n id : result_name n id <> "validation-receipt.json".
Proof.
  unfold result_name. rewrite <- !string_app_assoc. change "validation-receipt.json" with ("validation-" +:+ "receipt.json").
  intros E. apply string_app_tail in E; done.
Qed.
