(* ===== verification/SvfIssue.v ===== *)
(** * Receipts that a run issues

    The receipt a passing run writes is read back and verifies: the round trip of
    [command_run] and [command_verify_receipt] in [tools/svf_runner.py], through the
    JSON text on the disk.  The last section has runs whose receipts say less than
    they seem to. *)

From Stdlib Require Import Ascii.
From stdpp Require Import gmap.
From S2P Require Import Prelude PyVal Json PyText JsonParse JsonIndent Sha256 Effects Workspace SvfRegistry SvfRunner SvfReceipts SvfPaths.
Local Open Scope string_scope.

(** ** The shape check, taken apart *)

Lemma res_map_concat_nil {A B} (f : A -> res (list B)) l :
  (exists ls, res_map f l = Ok ls /\ concat ls = []) <-> Forall (fun x => f x = Ok []) l.
Proof.
  induction l as [|x l IH]; cbn [res_map]; [split; [done|by exists []]|]. rewrite Forall_cons, <- IH. split.
  - intros (ls & E & Hc). apply bind_Ok_inv in E as (a & Ea & E). apply bind_Ok_inv in E as (b & Eb & E). injection E as <-.
    cbn [concat] in Hc. apply app_eq_nil in Hc as [-> Hb]. eauto.
  - intros (Ea & ls & Eb & Hc). exists ([] :: ls). rewrite Ea, Eb. done.
Qed.

Definition digest_fields : list string := ["run_digest"; "plan_digest"; "policy_digest"].
Definition list_fields : list string := ["input_digests"; "output_digests"].

Record shaped (receipt : dict) : Prop := {
  sh_fields : Forall (fun f => assoc_mem f receipt = true) RECEIPT_REQUIRED_FIELDS;
  sh_version : field receipt "schema_version" = PStr "1.0";
  sh_prefixes : prefix_diagnostics receipt = [];
  sh_digests : Forall (fun k => digest_record_valid (field receipt k) = Ok true) digest_fields;
  sh_lists : Forall (fun k => named_digest_list_valid (field receipt k) = Ok true) list_fields;
  sh_claims : claims_diagnostics (field receipt "certified_claims") = Ok [];
  sh_non_certified : exists x l, field receipt "non_certified_claims" = PList (x :: l);
  sh_verification : verification_diagnostics (field receipt "verification") = Ok [];
  sh_issued : nonempty_text (field receipt "issued_at") = true
}.

Lemma bind_when (r : res bool) msg : (b ← r; Ok (when (negb b) msg)) = Ok [] <-> r = Ok true.
Proof. destruct r as [[]|]; done. Qed.

Lemma shape_passes receipt : verify_receipt_shape receipt = Ok [] <-> shaped receipt.
Proof.
  set (missing := py_sort String.ltb (List.filter (fun f => negb (assoc_mem f receipt)) RECEIPT_REQUIRED_FIELDS)).
  assert (Hm : map (fun f => "missing required field: " +:+ f) missing = [] <-> Forall (fun f => assoc_mem f receipt = true) RECEIPT_REQUIRED_FIELDS).
  { subst missing. rewrite Forall_forall. split.
    - intros E f Hf. apply map_eq_nil in E. destruct (assoc_mem f receipt) eqn:Ef; [done|].
      assert (Hin : f ∈ py_sort String.ltb (List.filter (fun f => negb (assoc_mem f receipt)) RECEIPT_REQUIRED_FIELDS))
        by (apply elem_of_py_sort, elem_of_lfilter; by rewrite Ef).
      rewrite E in Hin. by apply elem_of_nil in Hin.
    - intros Hall. destruct (py_sort _ _) as [|f l] eqn:E; [done|]. assert (Hin : f ∈ f :: l) by left. rewrite <- E in Hin.
      apply elem_of_py_sort, elem_of_lfilter in Hin as [Hin Hf]. by rewrite (Hall f Hin) in Hf. }
  pose proof (res_map_concat_nil (digest_diagnostics receipt) digest_fields) as Hd.
  pose proof (res_map_concat_nil (list_diagnostics receipt) list_fields) as Hl.
  unfold verify_receipt_shape. fold missing digest_fields list_fields. split.
  - intros E. apply bind_Ok_inv in E as (ds & Ed & E). apply bind_Ok_inv in E as (ls & El & E). apply bind_Ok_inv in E as (cl & Ec & E).
    apply bind_Ok_inv in E as (ve & Ev & E). injection E as E. repeat (apply app_eq_nil in E as [? E]). subst.
    apply when_nil, negb_false_iff in E. repeat match goal with H : when _ _ = [] |- _ => apply when_nil, negb_false_iff in H end.
    split; [by apply Hm|by apply eq_str_true|done| | |done| |done|done].
    + eapply Forall_impl; [apply Hd; eauto|]. intros k. apply bind_when.
    + eapply Forall_impl; [apply Hl; eauto|]. intros k. apply bind_when.
    + destruct (field receipt "non_certified_claims") as [| | | | |[|x l]|]; try done. eauto.
  - intros [H1 H2 H3 H4 H5 H6 (x & l & H7) H8 H9].
    destruct (proj2 Hd) as (ds & -> & Ed); [eapply Forall_impl; [exact H4|]; intros k Hk; by apply bind_when|].
    destruct (proj2 Hl) as (ls & -> & El); [eapply Forall_impl; [exact H5|]; intros k Hk; by apply bind_when|].
    cbn [mbind res_bind]. rewrite H6, H8. cbn [mbind res_bind]. rewrite (proj2 Hm H1), H2, H3, Ed, El, H7, H9. done.
Qed.

(** ** Keys in order *)

Definition norm_items (d : dict) : dict := py_sort key_ltb (map (fun kv => (kv.1, norm kv.2)) d).

Lemma norm_dict d : norm (PDict d) = PDict (norm_items d).
Proof. done. Qed.

Lemma norm_items_keys d : (norm_items d).*1 ≡ₚ d.*1.
Proof. unfold norm_items. rewrite py_sort_perm. induction d as [|kv d IH]; [done|]. cbn [map fmap list_fmap]. by rewrite IH. Qed.

Lemma assoc_norm d k : NoDup d.*1 -> assoc k (norm_items d) = norm <$> assoc k d.
Proof.
  intros Hnd. assert (Hnd' : NoDup (norm_items d).*1) by (by rewrite norm_items_keys).
  destruct (assoc k d) as [v|] eqn:E; cbn [fmap option_fmap option_map].
  - apply assoc_NoDup; [done|]. apply elem_of_py_sort. apply assoc_elem in E. apply list_elem_of_In.
    exact (in_map (fun kv => (kv.1, norm kv.2)) _ _ (proj1 (list_elem_of_In _ _) E)).
  - apply assoc_None. rewrite norm_items_keys. by apply assoc_None.
Qed.

Lemma field_norm d k : NoDup d.*1 -> field (norm_items d) k = norm (field d k).
Proof. intros Hnd. unfold field. rewrite (assoc_norm d k Hnd). by destruct (assoc k d). Qed.

Lemma norm_texts cs : norm (texts cs) = texts cs.
Proof. unfold texts. cbn [norm]. f_equal. induction cs as [|c cs IH]; [done|]. cbn [map norm]. by rewrite IH. Qed.

Lemma texts_textual cs : textual (texts cs).
Proof. apply textual_list. induction cs; by constructor. Qed.

Lemma textual_norm v : textual v -> textual (norm v).
Proof.
  induction v as [|b|z|f|s|l IH|d IH] using pyval_rect'; intros Hv; try done.
  - apply textual_list in Hv. cbn [norm]. apply textual_list. induction IH as [|x l Hx _ IHl]; [constructor|].
    apply Forall_cons in Hv as [? ?]. constructor; auto.
  - apply textual_dict in Hv as [Hnd Hv]. rewrite norm_dict. apply textual_dict. split; [by rewrite norm_items_keys|].
    unfold norm_items. rewrite py_sort_perm. clear Hnd. induction IH as [|x d Hx _ IHd]; [constructor|].
    apply Forall_cons in Hv as [? ?]. constructor; auto.
Qed.

Section issue.
Context `{FloatRepr}.
Context {W : Type}.
Variables (ROOT CWD : path) (EPOCH : option string) (PATH : string).
Variable clock : W -> Z * W.
Variable safe_load : string -> res pyval.
Variable exec : list string -> list (string * string) -> Z -> eff (disk * W) outcome.
Hypothesis Hroot : clean ROOT.
Hypothesis Hcwd : clean CWD.

Abbreviation State := (@svf W).

(** ** Taking a run apart *)

Lemma digest_file_inv p (s s' : State) v : digest_file p s = (Ok v, s') -> s' = s /\ exists c, v = digest_record c.
Proof.
  intros E. apply bind_ok in E as (c & s1 & E1 & E). unfold read_bytes in E1. injection E1 as _ <-. injection E as <- <-. eauto.
Qed.

Lemma write_json_inv p d (s s' : State) : write_json p d s = (Ok tt, s') ->
  files (on_disk s') = <[p := json_text d]> (files (on_disk s)).
Proof.
  intros E. apply bind_ok in E as ([] & s1 & E1 & E). unfold mkdir_parents in E1. case_match; [done|]. injection E1 as <-.
  unfold write_text in E. repeat case_match; try done. by injection E as <-.
Qed.

Lemma utc_now_inv (s s' : State) t : utc_now EPOCH clock s = (Ok t, s') -> on_disk s' = on_disk s /\ t <> "".
Proof.
  assert (Hiso : forall z u, iso_utc z = Ok u -> u <> "").
  { intros z u. unfold iso_utc. destruct (civil _) as [[y m] d]. case_match; [|done]. intros [= <-] Hn.
    apply (f_equal String.length) in Hn. rewrite !string_length_app in Hn. simpl in Hn. lia. }
  assert (Hpin : forall e u, pinned_time e = Ok u -> u <> "") by (intros e u; unfold pinned_time; case_match; [apply Hiso|done]).
  unfold utc_now. destruct EPOCH as [[|a r]|].
  1,3: destruct (clock (world s)) as [z w]; intros [= E <-]; split; [done|by eapply Hiso].
  intros [= E <-]. split; [done|]. by eapply Hpin.
Qed.

(** A result of a run in a directory. *)
Definition result_in (out : path) (r : action_result) : Prop :=
  exists n c, artifact_path r = relative_path ROOT (out ++ [result_name n (action_id r)])%list /\ artifact_digest r = digest_record c.

Lemma execute_all_inv out l : forall n (s s' : State) rs,
  execute_all ROOT EPOCH PATH clock exec out n l s = (Ok rs, s') -> Forall (result_in out) rs.
Proof.
  induction l as [|a l IH]; intros n s s' rs E; cbn [execute_all] in E; [by injection E as <- <-|].
  apply bind_ok in E as (r & s1 & E1 & E). apply bind_ok in E as (rs' & s2 & E2 & E). injection E as <- <-.
  constructor; [|by eapply IH]. clear E2 IH. unfold execute_action in E1.
  do 6 (apply bind_ok in E1 as (? & ? & _ & E1)). case_match; [|by apply bind_ok in E1 as (? & ? & _ & E1)]. case_match.
  apply bind_ok in E1 as (? & ? & _ & E1). apply bind_ok in E1 as (dg & ? & Ed & E1). injection E1 as <- _.
  apply digest_file_inv in Ed as (_ & c & ->). eexists _, c. done.
Qed.

Lemma run_actions_inv args profile plan acts (s s' : State) i :
  run_actions ROOT CWD EPOCH PATH clock exec args profile plan acts s = (Ok i, s') ->
  exists declared projection run_bytes registry_bytes,
    materialized_path ROOT (a_out args) = Ok (i_out i) /\ py_get plan "declared_claims" (PList []) = Ok declared /\
    policy_projection profile = Ok projection /\ certified_before declared (i_passed i) = Ok (i_certified i) /\
    Forall (result_in (i_out i)) (i_results i) /\
    i_receipt i = fun certified verification => receipt_record (a_repo args) (i_suffix i) (relative_path ROOT (run_path (i_out i)))
      (digest_record run_bytes) profile plan projection
      (named_digest "registry" (relative_given ROOT CWD (a_registry args)) (digest_record registry_bytes))
      (map output_digest (i_results i)) certified verification.
Proof.
  unfold run_actions. intros E.
  apply bind_ok in E as (out & ? & Eo & E). injection Eo as Eo _. apply bind_ok in E as (? & ? & _ & E).
  apply bind_ok in E as (started & ? & _ & E). apply bind_ok in E as (results & ? & Er & E). apply execute_all_inv in Er.
  apply bind_ok in E as (plan_id & ? & _ & E). apply bind_ok in E as (ended & ? & _ & E). apply bind_ok in E as (? & ? & _ & E).
  apply bind_ok in E as (dg & ? & Ed & E). apply digest_file_inv in Ed as (_ & c1 & ->).
  apply bind_ok in E as (declared & ? & Edc & E). injection Edc as Edc _. apply bind_ok in E as (certified & ? & Ec & E). injection Ec as Ec _.
  apply bind_ok in E as (projection & ? & Ep & E). injection Ep as Ep _.
  apply bind_ok in E as (dg & ? & Ed & E). apply digest_file_inv in Ed as (_ & c2 & ->). injection E as <- _.
  exists declared, projection, c1, c2. by split_and!.
Qed.

(** What a run that passes has done. *)
Lemma command_run_inv args (s s' : State) result :
  command_run ROOT CWD EPOCH PATH clock safe_load exec args s = (Ok result, s') -> assoc "status" result = Some (PStr "pass") ->
  exists registry profile plan acts i checked_at issued_at verified_at certified (s3 : State),
    let receipt1 := i_receipt i (i_certified i) (verification_record "not_checked" checked_at) issued_at in
    let receipt2 := i_receipt i certified (verified_record [] verified_at) issued_at in
    load_registry CWD safe_load (a_registry args) s = (Ok registry, s) /\
    resolve_run_plan registry (a_repo args) (a_plan args) (a_changed args) = Ok (profile, plan, acts) /\
    (exists s1 s2, run_actions ROOT CWD EPOCH PATH clock exec args profile plan acts s1 = (Ok i, s2)) /\ i_passed i = true /\
    verify_receipt_shape receipt1 = Ok [] /\ verify_receipt_integrity ROOT receipt1 registry s3 = (Ok [], s3) /\
    certified_after plan [] (i_certified i) = Ok certified /\ verified_at <> "" /\
    files (on_disk s') = <[receipt_path (i_out i) := json_text receipt2]> (files (on_disk s3)) /\
    assoc "profile_id" result = Some (get profile "profile_id") /\
    assoc "receipt_path" result = Some (PStr (relative_path ROOT (receipt_path (i_out i)))).
Proof.
  unfold command_run. intros E Hpass.
  apply bind_ok in E as (registry & s1 & El & E). pose proof (still_load_registry CWD safe_load (a_registry args) s) as Hst.
  rewrite El in Hst. cbn in Hst. subst s1. apply bind_ok in E as ([[profile plan] acts] & s1 & Er & E). injection Er as Er <-.
  apply bind_ok in E as (i & s2 & Ei & E). apply bind_ok in E as (checked_at & ? & _ & E). apply bind_ok in E as (issued_at & ? & _ & E).
  apply bind_ok in E as (? & s3 & _ & E). apply bind_ok in E as (shape & ? & Es & E). injection Es as Es <-.
  apply bind_ok in E as (integrity & s4 & Ein & E).
  match type of Ein with ?m s3 = _ => assert (s4 = s3) as -> by (pose proof (still_integrity ROOT _ _ s3 : (m s3).2 = s3) as Hst; by rewrite Ein in Hst) end.
  apply bind_ok in E as (verified_at & s5 & Ev & E). apply utc_now_inv in Ev as [Ed Hv].
  apply bind_ok in E as (certified & ? & Ec & E). injection Ec as Ec <-.
  apply bind_ok in E as ([] & ? & Ew & E). apply write_json_inv in Ew. injection E as <- <-.
  cbn [assoc String.eqb Ascii.eqb Bool.eqb] in Hpass. destruct (shape ++ integrity)%list as [|? ?] eqn:Ediag; [|done].
  apply app_eq_nil in Ediag as [-> ->]. unfold status_text in Hpass. destruct (i_passed i) eqn:Ep; [|done].
  exists registry, profile, plan, acts, i, checked_at, issued_at, verified_at, certified, s3. rewrite Ed in Ew. split_and!; try done. eauto.
Qed.

(** ** Claims *)

Lemma chars_texts t x : PStr x ∈ chars t -> String.length x = 1%nat.
Proof. induction t as [|c t IH]; cbn [chars]; [by intros ?%elem_of_nil|]. intros [[= ->]|?]%elem_of_cons; auto. Qed.

Lemma not_a_scope x : x ∈ CLAIM_SCOPES -> String.length x <> 1%nat.
Proof. unfold CLAIM_SCOPES. intros Hx. repeat (apply elem_of_cons in Hx as [->|Hx]; [done|]). by apply elem_of_nil in Hx. Qed.

(** The claims after verification: those before, and the integrity of the receipt if the plan declares it. *)
Lemma certified_after_texts plan declared l cs certified :
  py_get plan "declared_claims" (PList []) = Ok declared -> py_iter declared = Ok l ->
  cs <> [] -> Forall (fun x => x ∈ CLAIM_SCOPES /\ PStr x ∈ l) cs ->
  certified_after plan [] (map PStr cs) = Ok certified ->
  exists cs', certified = map PStr cs' /\ cs' <> [] /\ Forall (fun x => x ∈ CLAIM_SCOPES /\ PStr x ∈ l) cs'.
Proof.
  intros Hd Hl Hne Hcs E. unfold certified_after in E. rewrite Hd in E. cbn [mbind res_bind] in E.
  apply bind_Ok_inv in E as (b & Eb & E). destruct b; [|injection E as <-; eauto].
  change (map PStr cs ++ [PStr RECEIPT_INTEGRITY])%list with (map PStr cs ++ map PStr [RECEIPT_INTEGRITY])%list in E.
  rewrite <- map_app, py_set_texts in E. cbn [mbind res_bind] in E.
  destruct (py_sorted_texts (distinct (cs ++ [RECEIPT_INTEGRITY]))) as (cs' & E' & Hp). rewrite E' in E. injection E as <-. exists cs'.
  assert (Hin : forall x, x ∈ cs' <-> x ∈ (cs ++ [RECEIPT_INTEGRITY])%list) by (intros x; by rewrite Hp, elem_of_distinct).
  split; [done|]. split.
  { intros ->. apply (elem_of_nil RECEIPT_INTEGRITY), Hin, elem_of_app. right. by left. }
  apply Forall_forall. intros x Hx%Hin. rewrite Forall_forall in Hcs. apply elem_of_app in Hx as [Hx| ->%list_elem_of_singleton]; [auto|].
  split; [by apply (bool_decide_unpack _)|].
  destruct declared as [| | | |t|l'|d]; cbn [py_iter py_in] in *; try done.
  - destruct cs as [|c cs]; [done|]. destruct (Hcs c) as [H1 H2]; [left|]. injection Hl as <-. apply chars_texts in H2.
    by apply not_a_scope in H1.
  - injection Hl as <-. injection Eb as Eb. by apply in_list_elem.
  - injection Hl as <-. injection Eb as Eb. apply assoc_mem_Some in Eb as [v Ev%assoc_elem]. apply list_elem_of_In.
    exact (in_map (fun kv => PStr kv.1) _ _ (proj1 (list_elem_of_In _ _) Ev)).
Qed.

(** The registry accepts a receipt with other claims of the plan. *)
Lemma registry_diagnostics_claims receipt1 receipt2 registry plan cs :
  registry_diagnostics receipt1 registry = Ok [] -> plan_of registry receipt1 plan ->
  Forall (fun k => field receipt2 k = field receipt1 k) ["plan_ref"; "plan_digest"; "profile_ref"; "policy_digest"] ->
  field receipt2 "certified_claims" = PList (map PStr cs) -> unsupported_claims (Some plan) (PList (map PStr cs)) = Ok [] ->
  registry_diagnostics receipt2 registry = Ok [].
Proof.
  unfold plan_of, registry_diagnostics. intros E Hp Hf Hcs Hu. rewrite Hp in E. cbn [mbind res_bind] in E.
  repeat (apply Forall_cons in Hf as [? Hf]). apply bind_Ok_inv in E as (l & El & E). apply bind_Ok_inv in E as (profile & Epr & E).
  apply bind_Ok_inv in E as (on_profile & Eop & E). apply bind_Ok_inv in E as (claims & Ec & E). injection E as E.
  apply app_eq_nil in E as [E1 E]. apply app_eq_nil in E as [-> _].
  repeat match goal with H : field receipt2 ?k = field receipt1 ?k |- _ => rewrite H; clear H end.
  rewrite Hp. cbn [mbind res_bind]. rewrite El. cbn [mbind res_bind]. rewrite Epr. cbn [mbind res_bind]. rewrite Eop. cbn [mbind res_bind].
  rewrite Hcs, Hu. cbn [mbind res_bind app]. f_equal. rewrite app_nil_r. exact E1.
Qed.

Lemma resolved_plan_of registry repo plan_id changed profile plan acts receipt id :
  resolve_run_plan registry repo plan_id changed = Ok (profile, plan, acts) -> get plan "plan_id" = PStr id ->
  field receipt "plan_ref" = PStr id -> plan_of registry receipt plan.
Proof.
  intros (_ & (want & Hf) & _)%resolve_run_plan_inv Hg Hr. unfold plan_of. rewrite Hr. cbn [py_str].
  assert (want = PStr id) as <-; [|done]. unfold find_plan in Hf. apply bind_Ok_inv in Hf as (l & _ & Hf).
  apply find_by_in in Hf as (_ & v & Ev & Eq). apply get_ok in Ev. rewrite Hg in Ev. subst v. rewrite py_eq_text in Eq. by apply eq_str_true in Eq.
Qed.

(** ** The receipt as it is read back *)

Lemma starts_with_text prefix v : starts_with prefix v = true -> exists t, v = PStr t.
Proof. destruct v; try done. eauto. Qed.

Definition receipt_with (repo suffix run_file : string) (run_bytes : string) (profile plan projection : pyval) (registry_file registry_bytes : string)
    (results : list action_result) (certified : list pyval) (verification : dict) (issued_at : string) : dict :=
  receipt_record repo suffix run_file (digest_record run_bytes) profile plan projection
    (named_digest "registry" registry_file (digest_record registry_bytes)) (map output_digest results) certified verification issued_at.

Lemma receipt_keys repo suffix rf rb profile plan projection gf gb results certified verification issued_at :
  NoDup (receipt_with repo suffix rf rb profile plan projection gf gb results certified verification issued_at).*1.
Proof. apply (bool_decide_unpack _). vm_compute. exact I. Qed.

Lemma output_digest_norm out r : result_in out r ->
  named_digest_valid (norm (output_digest r)) = named_digest_valid (output_digest r) /\ textual (output_digest r) /\
  (forall d d', (forall p, materialized_path ROOT (artifact_path r) = Ok p -> files d' !! p = files d !! p) ->
     output_ok ROOT d (output_digest r) -> output_ok ROOT d' (norm (output_digest r))).
Proof.
  intros (n & c & _ & Hd). unfold output_digest, named_digest. rewrite Hd. cbn [digest_record app]. split_and!; [done| |].
  - apply textual_dict. split; [apply (bool_decide_unpack _); vm_compute; exact I|]. by repeat constructor.
  - intros d d' Hsame (p & b & Hm & Hf & Hq). exists p, b. split_and!; [done|by rewrite Hsame|exact Hq].
Qed.

Lemma input_digest_norm file bytes : let item := named_digest "registry" file (digest_record bytes) in
  named_digest_valid (norm item) = named_digest_valid item /\ textual item /\
  (forall d d', (forall p, materialized_path ROOT file = Ok p -> files d' !! p = files d !! p) ->
     input_ok ROOT d item -> input_ok ROOT d' (norm item)).
Proof.
  cbn zeta. unfold named_digest. cbn [digest_record app]. split_and!; [done| |].
  - apply textual_dict. split; [apply (bool_decide_unpack _); vm_compute; exact I|]. by repeat constructor.
  - intros d d' Hsame (p & b & Hm & Hf & Hq). exists p, b. split_and!; [done|by rewrite Hsame|exact Hq].
Qed.

Section reread.
Variables (repo suffix rf rb gf gb issued_at checked_at verified_at : string) (profile plan projection : pyval)
  (results : list action_result) (out : path) (cs cs' : list string) (profile_id : string).
Hypothesis Hresults : Forall (result_in out) results.
Hypothesis Hpid : get profile "profile_id" = PStr profile_id.
Hypothesis Hcs' : cs' <> [].
Hypothesis Hscope : Forall (fun x => x ∈ CLAIM_SCOPES) cs'.
Hypothesis Hat : verified_at <> "".

Let receipt1 := receipt_with repo suffix rf rb profile plan projection gf gb results (map PStr cs)
  (verification_record "not_checked" checked_at) issued_at.
Let receipt2 := receipt_with repo suffix rf rb profile plan projection gf gb results (map PStr cs') (verified_record [] verified_at) issued_at.
Hypothesis Hshape : shaped receipt1.

Lemma refs_are_texts : exists plan_id policy_ref, get plan "plan_id" = PStr plan_id /\ get profile "policy_ref" = PStr policy_ref.
Proof using Hshape.
  pose proof (sh_prefixes _ Hshape) as Hp. unfold prefix_diagnostics in Hp. rewrite concat_map_nil in Hp.
  apply Forall_cons in Hp as [_ Hp]. apply Forall_cons in Hp as [_ Hp].
  apply Forall_cons in Hp as [(a & Ha)%when_nil%negb_false_iff%starts_with_text Hp].
  apply Forall_cons in Hp as [(b & Hb)%when_nil%negb_false_iff%starts_with_text _]. by exists a, b.
Qed.

Lemma receipt2_textual : textual (PDict receipt2).
Proof.
  destruct refs_are_texts as (plan_id & policy_ref & Hplan & Hpol). apply textual_dict. split; [apply receipt_keys|].
  unfold receipt2, receipt_with, receipt_record. rewrite Hpid, Hplan, Hpol.
  repeat (apply Forall_cons; split; [cbn [snd]|]); try done; try apply texts_textual.
  1-3,6: apply textual_dict; split; [apply (bool_decide_unpack _); vm_compute; exact I|by repeat constructor].
  - apply textual_list. apply Forall_singleton. apply (input_digest_norm gf gb).
  - apply textual_list. apply Forall_forall. intros x Hx. apply list_elem_of_In, in_map_iff in Hx as (r & <- & Hr).
    apply list_elem_of_In in Hr. apply (output_digest_norm out). by apply (proj1 (Forall_forall _ _) Hresults).
Qed.

(** It passes the shape check as the receipt did that was checked before. *)
Lemma receipt2_shaped : shaped (norm_items receipt2).
Proof.
  pose proof (fun k => field_norm receipt2 k (receipt_keys _ _ _ _ _ _ _ _ _ _ _ _ _)) as Hf.
  destruct Hshape as [H1 H2 H3 H4 H5 H6 H7 H8 H9]. destruct refs_are_texts as (plan_id & policy_ref & Hplan & Hpol).
  split; rewrite ?Hf; try done.
  - apply Forall_forall. intros k Hk. apply assoc_mem_Some. rewrite assoc_norm by apply receipt_keys.
    rewrite Forall_forall in H1. destruct (proj1 (assoc_mem_Some _ _) (H1 k Hk)) as [v Hv].
    assert (Hk2 : exists v, assoc k receipt2 = Some v).
    { destruct (assoc k receipt2) eqn:E; [eauto|]. apply assoc_None in E. destruct E. apply assoc_elem in Hv.
      exact (list_elem_of_fmap_2 fst _ _ Hv). }
    destruct Hk2 as [v2 ->]. eauto.
  - unfold prefix_diagnostics in *. cbn [map concat fst snd] in *. rewrite !Hf.
    change (field receipt2 "plan_ref") with (get plan "plan_id"). change (field receipt2 "policy_ref") with (get profile "policy_ref").
    change (field receipt1 "plan_ref") with (get plan "plan_id") in H3. change (field receipt1 "policy_ref") with (get profile "policy_ref") in H3.
    rewrite Hplan, Hpol in *. exact H3.
  - repeat (apply Forall_cons in H4 as [? H4]). repeat constructor; rewrite Hf; assumption.
  - repeat (apply Forall_cons in H5 as [? H5]). repeat constructor; rewrite Hf; [assumption|].
    change (field receipt2 "output_digests") with (PList (map output_digest results)).
    match goal with H : named_digest_list_valid (field receipt1 "output_digests") = Ok true |- _ => rename H into Ho end.
    change (field receipt1 "output_digests") with (PList (map output_digest results)) in Ho. clear -Ho Hresults.
    destruct results as [|r rs]; [done|]. cbn [map norm named_digest_list_valid] in *. revert Ho.
    assert (Hall : res_forall named_digest_valid (map norm (map output_digest (r :: rs))) = res_forall named_digest_valid (map output_digest (r :: rs))).
    { induction Hresults as [|x l Hx _ IH]; [done|]. cbn [map res_forall]. destruct (output_digest_norm out x Hx) as (-> & _).
      by rewrite IH. }
    cbn [map] in Hall. by rewrite Hall.
  - change (field receipt2 "certified_claims") with (texts cs'). rewrite norm_texts. apply claims_diagnostics_nil. by exists cs'.
  - cbn. by destruct verified_at.
Qed.

(** The registry and the files accept it, where the files it names are as they were. *)
Lemma receipt2_intact registry d d' declared l :
  intact ROOT d receipt1 registry rf -> plan_of registry receipt1 plan ->
  py_get plan "declared_claims" (PList []) = Ok declared -> py_iter declared = Ok l -> forallb hashable l = true ->
  Forall (fun x => PStr x ∈ l) cs' ->
  (forall file p, file ∈ rf :: gf :: map artifact_path results -> materialized_path ROOT file = Ok p -> files d' !! p = files d !! p) ->
  intact ROOT d' (norm_items receipt2) registry rf.
Proof.
  intros (Ha & Hreg & (ins & Ei & Hi) & (outs & Eo & Ho)) Hplan Hdecl Hl Hh Hin Hsame.
  pose proof (fun k => field_norm receipt2 k (receipt_keys _ _ _ _ _ _ _ _ _ _ _ _ _)) as Hf.
  pose proof (fun k => assoc_norm receipt2 k (receipt_keys _ _ _ _ _ _ _ _ _ _ _ _ _)) as Has.
  destruct refs_are_texts as (plan_id & policy_ref & Hpl & Hpol). split_and!.
  - rewrite Hf. destruct Ha as (p & c & Hm & Hc & Hq). exists p, c. split_and!; [done| |exact Hq]. rewrite (Hsame rf); [done|by left|done].
  - eapply (registry_diagnostics_claims receipt1 _ registry plan cs'); [exact Hreg|exact Hplan| | |].
    + repeat constructor; rewrite Hf; try done.
      * change (norm (get plan "plan_id") = get plan "plan_id"). by rewrite Hpl.
      * change (norm (get profile "profile_id") = get profile "profile_id"). by rewrite Hpid.
    + rewrite Hf. apply norm_texts.
    + apply unsupported_texts. by exists declared, l.
  - unfold digest_items. rewrite Has. assert (ins = [named_digest "registry" gf (digest_record gb)]) as -> by (by injection Ei as <-).
    apply Forall_cons in Hi as [Hi _]. eexists. split; [reflexivity|]. apply Forall_singleton.
    apply (proj2 (proj2 (input_digest_norm gf gb)) d); [|exact Hi]. intros p. apply Hsame. right. by left.
  - unfold digest_items. rewrite Has. assert (outs = map output_digest results) as -> by (by injection Eo as <-). eexists.
    split; [reflexivity|]. apply Forall_forall. intros x Hx.
    apply list_elem_of_In, in_map_iff in Hx as (y & <- & Hy). apply in_map_iff in Hy as (r & <- & Hr). apply list_elem_of_In in Hr as Hr'.
    apply (proj2 (proj2 (output_digest_norm out r (proj1 (Forall_forall _ _) Hresults r Hr'))) d).
    + intros p. apply Hsame. right. right. apply list_elem_of_In. by apply in_map.
    + apply (proj1 (Forall_forall _ _) Ho). apply list_elem_of_In. by apply in_map.
Qed.
End reread.

(** ** The round trip *)

Lemma given_path given p : under ROOT (locate CWD given) = true -> materialized_path ROOT (relative_given ROOT CWD given) = Ok p ->
  p = locate CWD given.
Proof.
  intros Hu Hm. assert (E : relative_given ROOT CWD given = relative_path ROOT (locate CWD given)).
  { destruct (under_split _ _ Hu) as (rel & E & _). unfold relative_given, relative_path.
    rewrite (resolve_id (locate CWD given)) by (by apply locate_clean). by rewrite E. }
  rewrite E, (materialized_relative ROOT) in Hm; [by injection Hm|by apply locate_clean|done].
Qed.

Lemma load_registry_same given registry (s s' : State) : load_registry CWD safe_load given s = (Ok registry, s) ->
  files (on_disk s') !! locate CWD given = files (on_disk s) !! locate CWD given ->
  load_registry CWD safe_load given s' = (Ok registry, s').
Proof.
  intros E Hsame. unfold load_registry in *. apply bind_ok in E as (t & s1 & Et & E). unfold read_bytes, read_file_at in Et.
  destruct (files (on_disk s) !! locate CWD given) as [c|] eqn:Ec; [|by case_match]. injection Et as <- <-.
  apply bind_ok. exists c, s'. unfold read_bytes, read_file_at. rewrite Hsame. split; [done|].
  apply bind_ok in E as (data & s1 & Ed & E). apply bind_ok. exists data, s'. unfold of_res in *. injection Ed as -> _. split; [done|].
  destruct data; try done. by injection E as <-.
Qed.

(** The claims of a receipt, all in scope and declared by the plan. *)
Definition within_plan (plan : pyval) (claims : list string) : Prop :=
  claims <> [] /\ Forall (fun x => x ∈ CLAIM_SCOPES /\ declares plan x) claims.

(** A file in the output directory. *)
Lemma below_out args out name : materialized_path ROOT (a_out args) = Ok out -> component name ->
  materialized_path ROOT (relative_path ROOT (out ++ [name])%list) = Ok (out ++ [name])%list /\
  locate ROOT (relative_path ROOT (out ++ [name])%list) = (out ++ [name])%list.
Proof.
  intros [Hco Huo]%(materialized_clean ROOT Hroot) Hn.
  assert (clean (out ++ [name])%list) by (by apply clean_snoc). assert (under ROOT (out ++ [name])%list = true) by (by apply under_snoc).
  split; [by apply materialized_relative|by apply slash_relative].
Qed.

Lemma run_name : component "validation-run.json".
Proof. by repeat split. Qed.

Lemma receipt_name : component "validation-receipt.json".
Proof. by repeat split. Qed.

(** The files a receipt names are not the file it is written to. *)
Lemma named_files_apart args out results file p : materialized_path ROOT (a_out args) = Ok out -> Forall (result_in out) results ->
  under ROOT (locate CWD (a_registry args)) = true -> locate CWD (a_registry args) <> receipt_path out ->
  file ∈ relative_path ROOT (run_path out) :: relative_given ROOT CWD (a_registry args) :: map artifact_path results ->
  materialized_path ROOT file = Ok p -> p <> receipt_path out.
Proof.
  intros Hout Hresults Hunder Hapart Hf Hm ->. apply elem_of_cons in Hf as [->|Hf]; [|apply elem_of_cons in Hf as [->|Hf]].
  - unfold run_path in Hm. rewrite (proj1 (below_out args out "validation-run.json" Hout run_name)) in Hm. injection Hm as Hm.
    by apply app_inj_tail in Hm as [_ Hm].
  - apply given_path in Hm; [|done]. by rewrite Hm in Hapart.
  - apply list_elem_of_In, in_map_iff in Hf as (r & <- & Hr). apply list_elem_of_In in Hr.
    destruct (proj1 (Forall_forall _ _) Hresults r Hr) as (n & c & Hp & _).
    rewrite Hp, (proj1 (below_out args out _ Hout (result_name_component n _))) in Hm. injection Hm as Hm.
    apply app_inj_tail in Hm as [_ Hm]. by apply result_name_not_receipt in Hm.
Qed.

(** A receipt that was written and is in order verifies. *)
Lemma written_receipt_verifies given registry_given receipt claims registry run_artifact (s : State) :
  files (on_disk s) !! locate ROOT given = Some (json_text receipt) -> NoDup receipt.*1 -> textual (PDict receipt) ->
  field receipt "run_artifact" = PStr run_artifact -> assoc "certified_claims" receipt = Some (texts claims) -> shaped (norm_items receipt) ->
  load_registry CWD safe_load registry_given s = (Ok registry, s) -> intact ROOT (on_disk s) (norm_items receipt) registry run_artifact ->
  exists verdict, command_verify_receipt ROOT CWD safe_load given registry_given s = (Ok verdict, s) /\
    assoc "status" verdict = Some (PStr "pass") /\ assoc "verified_claims" verdict = Some (texts claims).
Proof.
  intros Hf Hnd Ht Hra Hc Hs Hl Hi. eexists. split.
  { unfold command_verify_receipt. apply bind_ok. eexists (norm_items receipt), s. split.
    - unfold load_json. apply bind_ok. eexists _, s. split.
      { unfold read_bytes, read_file_at. fold (locate ROOT given). rewrite Hf. reflexivity. }
      apply bind_ok. eexists (norm (PDict receipt)), s. split; [|reflexivity].
      unfold of_res, json_text. by rewrite loads_dumps_indent by (by apply textual_norm).
    - apply bind_ok. exists [], s. split; [|reflexivity]. apply verify_diagnostics_passes with (run_artifact := run_artifact).
      + by rewrite field_norm, Hra.
      + split; [done|]. split; [by apply shape_passes|eauto]. }
  split; [done|]. cbn [assoc String.eqb Ascii.eqb Bool.eqb]. rewrite assoc_norm, Hc by done. f_equal. exact (norm_texts claims).
Qed.

(** C16: The receipt of a run that passed verifies: reading back the file the run
    names and checking it against the registry gives [pass] and changes nothing, and
    the claims it then reports are in the claim scopes and declared by the plan that
    was run.  The registry is taken to lie below the root, apart from the receipt,
    and to be left alone by the actions. *)
Theorem issued_receipt_verifies args (s s' : State) result receipt_given profile_id :
  command_run ROOT CWD EPOCH PATH clock safe_load exec args s = (Ok result, s') ->
  assoc "status" result = Some (PStr "pass") -> assoc "profile_id" result = Some (PStr profile_id) ->
  assoc "receipt_path" result = Some (PStr receipt_given) ->
  under ROOT (locate CWD (a_registry args)) = true -> locate CWD (a_registry args) <> locate ROOT receipt_given ->
  files (on_disk s') !! locate CWD (a_registry args) = files (on_disk s) !! locate CWD (a_registry args) ->
  exists registry profile plan acts verdict claims,
    load_registry CWD safe_load (a_registry args) s = (Ok registry, s) /\
    resolve_run_plan registry (a_repo args) (a_plan args) (a_changed args) = Ok (profile, plan, acts) /\
    command_verify_receipt ROOT CWD safe_load receipt_given (a_registry args) s' = (Ok verdict, s') /\
    assoc "status" verdict = Some (PStr "pass") /\ assoc "verified_claims" verdict = Some (texts claims) /\
    within_plan plan claims.
Proof.
  intros Hrun Hpass Hpid Hgiven Hunder Hapart Hkept.
  destruct (command_run_inv _ _ _ _ Hrun Hpass) as (registry & profile & plan & acts & i & checked_at & issued_at & verified_at &
    certified & s3 & Hload & Hres & (t1 & t2 & Hacts) & Hok & Hshape & Hint & Hafter & Hat & Hfiles & Hpid' & Hgiven').
  rewrite Hpid in Hpid'. injection Hpid' as Hpid'. rewrite Hgiven in Hgiven'. injection Hgiven' as ->.
  apply run_actions_inv in Hacts as (declared & projection & rb & gb & Hout & Hdecl & _ & _ & Hresults & Hrec).
  rewrite Hrec in *. cbn beta in *. clear Hrec.
  apply shape_passes in Hshape as Hsh. pose proof (proj1 (claims_diagnostics_nil _) (sh_claims _ Hsh)) as (cs & Hcs & Hne & Hsc).
  injection Hcs as Hcs. rewrite Hcs in *.
  match type of Hint with verify_receipt_integrity _ ?r _ _ = _ =>
    assert (Hra : field r "run_artifact" = PStr (relative_path ROOT (run_path (i_out i)))) by done end.
  apply (integrity_passes ROOT _ _ _ _ _ Hra) in Hint as [_ Hint].
  edestruct refs_are_texts as (plan_id & policy_ref & Hplan & _); [exact Hsh|].
  assert (Hpo : plan_of registry (receipt_with (a_repo args) (i_suffix i) (relative_path ROOT (run_path (i_out i))) rb profile plan projection
    (relative_given ROOT CWD (a_registry args)) gb (i_results i) (map PStr cs) (verification_record "not_checked" checked_at) issued_at) plan).
  { eapply resolved_plan_of; [exact Hres|exact Hplan|exact Hplan]. }
  destruct (registry_diagnostics_plan _ _ (proj1 (proj2 Hint))) as (plan' & Hpo' & _ & Hu). unfold plan_of in Hpo, Hpo'.
  assert (plan' = plan) as -> by (pose proof (eq_trans (eq_sym Hpo) Hpo') as E; by injection E).
  apply unsupported_texts in Hu as (v & l & Hv & Hl & Hh & Hin). rewrite Hdecl in Hv. injection Hv as <-.
  assert (Hboth : Forall (fun x => x ∈ CLAIM_SCOPES /\ PStr x ∈ l) cs).
  { apply Forall_forall. intros x Hx. rewrite Forall_forall in Hsc, Hin. auto. }
  destruct (certified_after_texts _ _ _ _ _ Hdecl Hl Hne Hboth Hafter) as (cs' & -> & Hne' & Hboth').
  assert (Hsc' : Forall (fun x => x ∈ CLAIM_SCOPES) cs') by (eapply Forall_impl; [exact Hboth'|naive_solver]).
  assert (Hin' : Forall (fun x => PStr x ∈ l) cs') by (eapply Forall_impl; [exact Hboth'|naive_solver]).
  assert (Hrp : locate ROOT (relative_path ROOT (receipt_path (i_out i))) = receipt_path (i_out i)) by apply (below_out args _ _ Hout receipt_name).
  rewrite Hrp in Hapart.
  assert (Hsame : forall file p, file ∈ relative_path ROOT (run_path (i_out i)) :: relative_given ROOT CWD (a_registry args) ::
      map artifact_path (i_results i) -> materialized_path ROOT file = Ok p -> files (on_disk s') !! p = files (on_disk s3) !! p).
  { intros file p Hf Hm. rewrite Hfiles. apply lookup_insert_ne. intros E.
    by apply (named_files_apart args (i_out i) (i_results i) file p Hout Hresults Hunder Hapart Hf Hm). }
  edestruct (written_receipt_verifies (relative_path ROOT (receipt_path (i_out i))) (a_registry args)) with (claims := cs') (s := s')
    as (verdict & Hv & Hst & Hcl).
  - rewrite Hrp, Hfiles. apply lookup_insert_eq.
  - apply receipt_keys.
  - eapply receipt2_textual; [exact Hresults|exact (eq_sym Hpid')|exact Hsh].
  - reflexivity.
  - reflexivity.
  - eapply receipt2_shaped; [exact Hresults|exact Hne'|exact Hsc'|exact Hat|exact Hsh].
  - by eapply load_registry_same.
  - eapply receipt2_intact; [exact Hresults|exact (eq_sym Hpid')|exact Hsh|exact Hint|exact Hpo|exact Hdecl|exact Hl|exact Hh|exact Hin'|exact Hsame].
  - exists registry, profile, plan, acts, verdict, cs'. split_and!; [done..|]. split; [exact Hne'|].
    eapply Forall_impl; [exact Hboth'|]. intros x [Hx1 Hx2]. split; [done|]. by exists declared, l.
Qed.
End issue.

(** ** Runs *)

Section examples.
Local Existing Instance demo_float_repr.

Definition demo_action : pyval :=
  PDict [("action_id", PStr "svf:action:check/registry"); ("backend", PStr "local"); ("shell", PBool false);
         ("argv", texts ["python3"; "check.py"]); ("timeout_seconds", PInt 60); ("side_effect_class", PStr "artifact_write");
         ("network_mode", PStr "not_required"); ("credential_policy", PStr "none")].

Definition demo_plan (version : string) : pyval :=
  PDict [("plan_id", PStr "svf:plan:dogfood"); ("version", PStr version); ("actions", texts ["svf:action:check/registry"]);
         ("declared_claims", texts ["schema_conformant"; "non_production_only"; "receipt_integrity_verified"])].

Definition demo_registry (version : string) : dict :=
  [("actions", PList [demo_action]); ("plans", PList [demo_plan version]);
   ("profiles", PList [PDict [("profile_id", PStr "svf:profile:dogfood"); ("repo", PStr "org/app"); ("policy_ref", PStr "svf:policy:local");
                              ("execution_backend", PStr "local"); ("default_plans", texts ["svf:plan:dogfood"])]])].

Definition demo_root : path := ["r"].
Definition demo_registry_file : path := ["r"; "registry.yaml"].
Definition demo_text (version : string) : string := dumps (PDict (demo_registry version)).
Definition demo_state : @svf unit :=
  mkSvf (mkDisk {[ demo_registry_file := demo_text "1" ]} {[ []; demo_root ]}) tt [].
Definition demo_args : run_args := mkArgs "org/app" None [] "out" "registry.yaml".

(** Processes: one that succeeds, one that rewrites the registry, two that run out of time. *)
Definition process := list string -> list (string * string) -> Z -> eff (disk * unit) outcome.
Definition succeeds : process := fun _ _ _ => ret (Completed 0 "ok" "").
Definition rewrites : process := fun _ _ _ dw =>
  (Ok (Completed 0 "ok" ""), (mkDisk (<[demo_registry_file := demo_text "2"]> (files dw.1)) (dirs dw.1), dw.2)).
Definition hangs (out : string) : process := fun _ _ _ => ret (TimedOut out "").

Definition demo_run (exec : process) : res dict * @svf unit :=
  command_run demo_root demo_root (Some "1781006026") "/usr/bin" (fun w => (0%Z, w)) loads exec demo_args demo_state.

Definition demo_verify (s : @svf unit) : res dict :=
  (command_verify_receipt demo_root demo_root loads "out/validation-receipt.json" "registry.yaml" s).1.

Definition ok_dict (r : res dict) : dict := match r with Ok d => d | Raise _ => [] end.

(** The result of the first run and the state it leaves. *)
Definition demo_done : res dict * @svf unit := Eval vm_compute in demo_run succeeds.

Lemma demo_run_done : demo_run succeeds = demo_done.
Proof. vm_compute. reflexivity. Qed.

Lemma issued_receipt_verifies_witness :
  demo_run succeeds = demo_done /\
  exists verdict claims, command_verify_receipt demo_root demo_root loads "out/validation-receipt.json" "registry.yaml" demo_done.2 =
      (Ok verdict, demo_done.2) /\
    assoc "status" verdict = Some (PStr "pass") /\ assoc "verified_claims" verdict = Some (texts claims) /\ claims <> [].
Proof.
  split; [exact demo_run_done|].
  destruct (issued_receipt_verifies demo_root demo_root (Some "1781006026") "/usr/bin" (fun w => (0%Z, w)) loads succeeds)
    with (args := demo_args) (s := demo_state) (s' := demo_done.2) (result := ok_dict demo_done.1)
      (receipt_given := "out/validation-receipt.json") (profile_id := "svf:profile:dogfood")
    as (registry & profile & plan & acts & verdict & claims & _ & _ & Hv & Hs & Hc & Hne & _).
  - by repeat constructor.
  - by repeat constructor.
  - exact demo_run_done.
  - reflexivity.
  - reflexivity.
  - reflexivity.
  - reflexivity.
  - vm_compute. discriminate.
  - vm_compute. reflexivity.
  - exists verdict, claims. auto.
Defined.

(** The receipt of the run, and the disk after an unrelated change. *)
Definition written_receipt (s : @svf unit) : option string := files (on_disk s) !! ["r"; "out"; "validation-receipt.json"].

Definition demo_receipt : dict :=
  match written_receipt demo_done.2 with
  | Some t => match loads t with Ok (PDict d) => d | _ => [] end
  | None => []
  end.

Definition touched (s : @svf unit) : @svf unit :=
  mkSvf (mkDisk (<[["r"; "README.md"] := "new"]> (files (on_disk s))) (dirs (on_disk s))) (world s) (ran s).

Lemma verified_receipt_pins_witness :
  named_files demo_receipt = ["out/validation-run.json"; "registry.yaml"; "out/01-svf_action_check_registry.result.json"] /\
  exists claims, field demo_receipt "certified_claims" = texts claims /\ Forall (fun x => x ∈ CLAIM_SCOPES) claims.
Proof.
  split; [vm_compute; reflexivity|].
  destruct (verified_receipt_pins demo_root demo_root loads demo_receipt "out/validation-run.json" "registry.yaml" "registry.yaml"
    demo_done.2 (touched demo_done.2)) as
    (_ & r1 & r2 & p1 & p2 & claims & _ & _ & _ & _ & _ & Hc & Hf).
  - vm_compute. reflexivity.
  - vm_compute. reflexivity.
  - vm_compute. reflexivity.
  - exists claims. split; [done|]. eapply Forall_impl; [exact Hf|]. by intros x (? & _).
Defined.

(** The digest of the registry is taken after the actions have run, and the run
    checks its receipt against the registry it read before them: an action that
    rewrites the registry gets a verified receipt, which does not verify. *)
Example receipt_of_rewritten_registry :
  assoc "status" (ok_dict (demo_run rewrites).1) = Some (PStr "pass") /\
  assoc "diagnostics" (ok_dict (demo_verify (demo_run rewrites).2)) = Some (texts ["plan_digest does not match registered plan"]).
Proof. vm_compute. auto. Qed.

(** An action that runs out of time without output is recorded; with output it
    makes the run raise, and neither a result nor a receipt is written. *)
Example timeout_with_output_raises :
  (demo_run (hangs "working")).1 = Raise TypeError /\ written_receipt (demo_run (hangs "working")).2 = None /\
  (exists fields, outcome_fields "a" "t0" "t1" (TimedOut "" "") = Ok (false, fields) /\ assoc "failure_taxonomy" fields = Some (texts ["timeout"])).
Proof. split; [vm_compute; reflexivity|]. split; [vm_compute; reflexivity|]. by eexists. Qed.
End examples.

(** A receipt that does not name its run is only checked for its shape: it verifies
    on any disk, whatever it certifies. *)
Lemma unnamed_run_not_checked `{FloatRepr} {W} ROOT CWD safe_load receipt given (s : @svf W) registry :
  is_str (field receipt "run_artifact") = false -> shaped receipt -> load_registry CWD safe_load given s = (Ok registry, s) ->
  verify_diagnostics ROOT CWD safe_load receipt given s = (Ok [], s).
Proof.
  intros Hr Hs Hl. unfold verify_diagnostics. apply bind_ok. exists [], s. unfold of_res. apply shape_passes in Hs. split; [by rewrite Hs|].
  apply bind_ok. exists registry, s. split; [done|]. unfold verify_receipt_integrity. by destruct (field receipt "run_artifact").
Qed.
